(* ===== verification/_CoqProject ===== *)
-Q . S2P
Prelude.v
Status.v
Coding.v
Crc32c.v
Hash.v
Comparator.v
Format.v
WriteBatch.v
DbIterator.v
MergingIter.v
TwoLevelIter.v
DbIter.v
DbIterCorrect.v
Block.v
BlockCorrect.v
Filter.v
FilterBlock.v
Utf8.v
Env.v
Sort.v
Cache.v
CacheCorrect.v
TableBuilder.v
TableFormat.v
TableBuilderCorrect.v
Table.v
TableCorrect.v
Newest.v
Log.v
LogCorrect.v
LogFile.v
LogTorn.v
Filename.v
TableCache.v
TableCacheCorrect.v
VersionEdit.v
Version.v
VersionCorrect.v
VersionSet.v
VersionSetCorrect.v
VersionAdd.v
SkipList.v
SkipListCorrect.v
MemTable.v
MemTableCorrect.v
SharedMem.v
DbState.v
DbCore.v
DbCoreCorrect.v
Compact.v
CompactCorrect.v
TableFile.v
CompactFiles.v
DbWrite.v
DbWriteCorrect.v
DbThreads.v
DbThreadsCorrect.v
DbScan.v
Snappy.v
Destroy.v
DestroyCorrect.v
Repair.v
DbScanCorrect.v
DbOpen.v
DbOpenCorrect.v
DbCreate.v
DbRecover.v
