(* ===== verification/Prelude.v ===== *)
(** * pulsearc-db: a verification library (root file).

    ** The program

    pulsearc-db is an embedded ordered key-value store, a log-structured merge tree.  A
    write goes to a log and a memtable; a full memtable is flushed to a table file at
    level 0 (or below, when nothing there overlaps it); compactions merge tables into
    deeper levels; a manifest records which tables make up the current version.  A read
    asks the memtables, then the tables, newest first.  One mutex guards the database
    record, one background thread flushes and compacts.

    ** The files, bottom up, and the code they model (under src/src)

    - Prelude: bytes, machine integers, lists measured by [usize], tactics, hint databases.
    - Status: [status/status.rs]; also how outcomes, panics and state are represented.
    - Coding, Crc32c, Hash, Comparator, Format, WriteBatch: [coding], [crc32c], [hash],
      [comparator], [format] and [write_batch], with their theorems in the same file.
    - DbIterator: [db_iter/db_iterator.rs], the iterator trait as a class, and [IterLaws],
      the contract "is a cursor of this sorted list" that every iterator is proved to keep
      and every user of iterators relies on.
    - MergingIter, TwoLevelIter, DbIter and DbIterCorrect: the three iterators that are
      made of others, each proved against the contract of its children.
    - Block, BlockCorrect, Filter, FilterBlock: [block/*], [filter], [filter_block].
    - Utf8, Env: [str::from_utf8], and [env/env.rs]: the environment as a class [Env] with
      classes of laws for what users need of its files, and [MemEnv] as an instance.
    - Sort, Cache, CacheCorrect: the stable sort, and [cache/cache.rs].
    - TableBuilder, TableFormat, TableBuilderCorrect, Table, TableCorrect: [table/*].
      TableFormat says what a table file is; the builder makes one, the reader reads one.
    - Newest: what a lookup owes: [answers t es r], over any list of entries.
    - Log, LogCorrect, LogFile, LogTorn: [log/*], logs on files, logs cut off by a crash.
    - Filename: [filename/filename.rs], and paths as lists of components.
    - TableCache, TableCacheCorrect: [table_cache/table_cache.rs].
    - VersionEdit, Version, VersionCorrect, VersionSet, VersionSetCorrect, VersionAdd:
      [version_set/*].
    - SkipList, SkipListCorrect, MemTable, MemTableCorrect: [skiplist] and [memtable].
    - SharedMem, DbState, DbCore, Compact, DbWrite, DbScan, DbOpen, DbThreads: the parts of
      [db_impl/db_impl.rs]: shared memtables and the batch inserter, the data, the methods
      under the mutex, flush and compaction, the methods that take the mutex, iterators,
      opening, and the interleavings of threads.  DbCoreCorrect, CompactCorrect,
      CompactFiles, DbWriteCorrect, DbScanCorrect, DbOpenCorrect, DbCreate,
      DbRecover and DbThreadsCorrect hold their theorems, TableFile the frame lemmas of table files.
    - Snappy, Destroy, DestroyCorrect, Repair: [snappy.rs], [slice], [destroy], [repair].

    Definitions keep the names of the code; a Rust module's types are Modules of that name
    (for instance [Version.get], [Open.recover_log_file], [Core.get_with_options]).

    ** How code is represented

    - An unsigned integer is a [Z]; [as_u8], [as_u32] and [as_u64] write out truncation and
      wrap-around where the code can reach it, as a release build has it.  [usize] has 64
      bits.  A length, an offset in memory or a sum of such stays an unbounded [Z]: no
      [Vec] is longer than 2^63 - 1.
    - Bytes are lists of [byte]; strings are [string]; paths are lists of components.
    - A call that can fail returns [outcome]: [Ret], [Fail] with a [Status], or [Panic] for
      an index out of range, a failed assertion or an [unwrap] of nothing.  So "does not
      panic" is part of every theorem that says what a call returns.
    - Stateful code is [action S A], a function from the state to outcome and state; an
      error keeps the state it left behind.  Database methods act on the database record,
      the environment and the block cache together.
    - A shared object ([Arc]) is a reference into a heap: memtables in
      [DBImplCore.heap], snapshots with their strong counts in [DBImplCore.snap_refs], the
      result slots of waiting writers in [DBImplCore.results].
    - A method that waits or releases the mutex is cut into sections there.  Run by a lone
      thread the sections follow each other, with [None] for "has to wait"; [Threads.step]
      (DbThreads) interleaves the sections of any number of threads.
    - Traits are classes: [Comparator], [FilterPolicy], [Compressor], [Cache], [Env],
      [DbIterator], [WriteBatchHandler], [SnapRaw] (the encoder and decoder of the snap
      crate, not under src/).  What a user of a trait relies on is a class of laws; the
      instances of the program (bytewise order, Bloom filter, sharded LRU cache, in-memory
      environment, the iterators) are proved to keep them, so no law is vacuous.
    - Floating point ([f64] of the Bloom filter, compaction scores, statistics) is
      [SpecFloat] at the precision of binary64.

    ** Loops and fuel

    Loops are structural where the data is; the others take fuel, and run out of it as
    [Panic].  The theorems give a bound that is enough, so they include termination: a
    byte reader needs one round per byte ([fuel >= length + 8] for logs and manifests),
    searches in sorted arrays and skiplists one round per element, the overlap search of
    level 0 one round per file and restart ([overlapping_inputs_closed]).
    [TwoLevelIterator] and [DBIter] carry a number of rounds above the number of blocks or
    entries ahead, which is not a field of the code.  Fuel is a parameter of [Open.open]
    and of [Scan.new_iterator_with_options], bounded below in their theorems.

    ** What the theorems show

    - The whole database: reads answer with the newest visible version of a key and change
      only caches and seek statistics ([db_get_newest]); an iterator shows exactly what
      reads answer, in order ([db_iterator_is_view]); a write group is one log record and
      one run of sequence numbers, published last, and changes no older read
      ([group_commits], [write_group_run]); snapshots
      are covered ([snapshots_covered]); compaction keeps every answer
      ([compaction_keeps_answers]).  They share one invariant, [db_view].
    - Opening: after a crash that left a manifest, tables and logs cut off anywhere, the
      database is the [db_view] of the tables and of the write groups that lie whole in
      the logs ([open_recovers]); a new database is an empty [db_view] on a recoverable
      manifest ([open_creates]).  Parts of it: a log cut off anywhere gives back exactly
      its whole records ([torn_log_recovers]); the manifest recovers the files and pointers
      that were logged, and the counters as they stood before the last edit
      ([manifest_recovers]).  [destroy_db_clears] is about the end of a database.
    - Threads: one writer at a time, without [force_flush] ([one_writer_at_a_time]); a
      search racing with an insertion ([skiplist_racing_reader]).
    - Each component: refinements of a reference (sorted set, sorted multi-version map,
      least-recently-used list, sorted merge, concatenation, cursor), round trips of
      every on-disk format, equivalence of the optimised routines with plain ones.
    - Faults of the code.  About concrete runs: [force_flush_loses_write] and
      [compact_range_splits_key].  In general: [failed_flush_spins] (any flush that fails),
      [block_seek_corrupt_panics] (any block whose middle restart offset is out of range)
      and [table_get] (exact but for what the filter hides; its witness is a hidden entry).

    ** Not modelled

    - [StdEnv] (operating-system calls), the arena (unsafe allocation), [lib.rs] and the
      [mod.rs] files (declarations and documentation), [Debug] and [Display] of types
      other than [Status].
    - Waking and parking of threads, spawning and joining, log messages, elapsed times
      (parameters of the model), the release of old versions.  The pool of recycled batch
      buffers is modelled (WriteBatch), but DbWrite takes a fresh buffer where the code
      takes one from its thread's pool, cleared.
    - In [Threads] a whole compaction is one section, although the code gives the mutex
      back inside it: what runs there in between does not change the compaction's inputs,
      but the order of its outputs' numbers with a flush's is fixed by the model.
    - An iterator's memtable children stand for the memtables when it was made, and its
      tables are opened then: later insertions have sequence numbers above its snapshot,
      and table files are neither changed nor, while it is registered, deleted. *)
From Stdlib Require Export ZArith Lia String.
From coqutil Require Export Byte Word.LittleEndianList.
From stdpp Require Export base tactics list gmap strings.

#[global] Set Default Goal Selector "!".
#[global] Open Scope Z_scope.

(** ** Bytes and machine integers *)

Abbreviation bytes := (list byte).

#[export] Instance byte_eq_dec : EqDecision byte.
Proof. intros x y. destruct (Byte.byte_eq_dec x y); [left|right]; assumption. Defined.

(** A byte read as the [u8] it is. *)
Abbreviation u8 b := (byte.unsigned b) (only parsing).

(** [x as u8], [x as u32], [x as u64]: truncation to the width. *)
Definition as_u8 (z : Z) : byte := byte.of_Z z.
Definition as_u16 (z : Z) : Z := z mod 2 ^ 16.
Definition as_u32 (z : Z) : Z := z mod 2 ^ 32.
Definition as_u64 (z : Z) : Z := z mod 2 ^ 64.

Definition is_u8 (z : Z) : Prop := 0 <= z < 2 ^ 8.
Definition is_u16 (z : Z) : Prop := 0 <= z < 2 ^ 16.
Definition is_u32 (z : Z) : Prop := 0 <= z < 2 ^ 32.
Definition is_u64 (z : Z) : Prop := 0 <= z < 2 ^ 64.

Create HintDb pulse discriminated.
Create Rewrite HintDb decode.

Lemma as_u16_id z : is_u16 z -> as_u16 z = z.
Proof. apply Z.mod_small. Qed.
Lemma as_u32_id z : is_u32 z -> as_u32 z = z.
Proof. apply Z.mod_small. Qed.
Lemma as_u64_id z : is_u64 z -> as_u64 z = z.
Proof. apply Z.mod_small. Qed.
Lemma as_u32_range z : is_u32 (as_u32 z).
Proof. apply Z.mod_pos_bound. lia. Qed.
Lemma as_u64_range z : is_u64 (as_u64 z).
Proof. apply Z.mod_pos_bound. lia. Qed.
Lemma is_u32_u64 z : is_u32 z -> is_u64 z.
Proof. unfold is_u32, is_u64. lia. Qed.
Lemma u8_range b : 0 <= u8 b < 256.
Proof. exact (byte.unsigned_range b). Qed.
Lemma as_u8_u8 b : as_u8 (u8 b) = b.
Proof. apply byte.of_Z_unsigned. Qed.
Lemma u8_as_u8 z : u8 (as_u8 z) = z mod 256.
Proof. apply byte.unsigned_of_Z. Qed.
Lemma u8_as_u8_id z : is_u8 z -> u8 (as_u8 z) = z.
Proof. intros H. rewrite u8_as_u8. apply Z.mod_small, H. Qed.
#[export] Hint Resolve as_u32_range as_u64_range is_u32_u64 u8_range : pulse.

(** [x.to_le_bytes()] of an [n]-byte integer, and [from_le_bytes]. *)
Abbreviation to_le_bytes n z := (le_split n z) (only parsing).
Abbreviation from_le_bytes bs := (le_combine bs) (only parsing).

(** ** Lists measured by [usize] values *)

(** [v.len()]; lengths and offsets are mathematical integers (a Rust length
    never exceeds [isize::MAX], so sums of two of them do not wrap). *)
Definition len {A} (l : list A) : Z := Z.of_nat (length l).
Definition ztake {A} (n : Z) (l : list A) : list A := take (Z.to_nat n) l.
Definition zdrop {A} (n : Z) (l : list A) : list A := drop (Z.to_nat n) l.

Section lists.
Context {A : Type}.
Implicit Types l k : list A.

Lemma len_nonneg l : 0 <= len l.
Proof. unfold len. lia. Qed.
Lemma len_nil : len (@nil A) = 0.
Proof. reflexivity. Qed.
Lemma len_cons x l : len (x :: l) = 1 + len l.
Proof. unfold len. cbn [length]. lia. Qed.
Lemma len_app l k : len (l ++ k) = len l + len k.
Proof. unfold len. rewrite length_app. lia. Qed.
Lemma len_replicate n (x : A) : len (replicate n x) = Z.of_nat n.
Proof. unfold len. by rewrite length_replicate. Qed.
Lemma len_ztake n l : 0 <= n <= len l -> len (ztake n l) = n.
Proof. unfold len, ztake. rewrite length_take. lia. Qed.
Lemma len_ztake_min n l : 0 <= n -> len (ztake n l) = Z.min n (len l).
Proof. unfold len, ztake. rewrite length_take. lia. Qed.
Lemma len_zdrop n l : 0 <= n <= len l -> len (zdrop n l) = len l - n.
Proof. unfold len, zdrop. rewrite length_drop. lia. Qed.
Lemma len_0_nil l : len l = 0 -> l = [].
Proof. destruct l; [done|]. unfold len. cbn [length]. lia. Qed.
Lemma ztake_zdrop n l : ztake n l ++ zdrop n l = l.
Proof. apply take_drop. Qed.
Lemma ztake_app_len l k n : n = len l -> ztake n (l ++ k) = l.
Proof. intros ->. unfold ztake, len. apply take_app_length'. lia. Qed.
Lemma zdrop_app_len l k n : n = len l -> zdrop n (l ++ k) = k.
Proof. intros ->. unfold zdrop, len. apply drop_app_length'. lia. Qed.
Lemma ztake_all l n : len l <= n -> ztake n l = l.
Proof. unfold ztake, len. intros. apply take_ge. lia. Qed.
Lemma zdrop_all l n : len l <= n -> zdrop n l = [].
Proof. unfold zdrop, len. intros. apply drop_ge. lia. Qed.
Lemma ztake_0 l : ztake 0 l = [].
Proof. reflexivity. Qed.
Lemma zdrop_0 l : zdrop 0 l = l.
Proof. reflexivity. Qed.
Lemma zdrop_zdrop a b l : 0 <= a -> 0 <= b -> zdrop a (zdrop b l) = zdrop (b + a) l.
Proof. intros. unfold zdrop. rewrite drop_drop. f_equal. lia. Qed.
Lemma ztake_app_le l k n : n <= len l -> ztake n (l ++ k) = ztake n l.
Proof. unfold ztake, len. intros. apply take_app_le. lia. Qed.
Lemma ztake_app_ge l k n : len l <= n -> ztake n (l ++ k) = l ++ ztake (n - len l) k.
Proof. unfold ztake, len. intros. rewrite take_app_ge by lia. do 2 f_equal. lia. Qed.
Lemma zdrop_app_le l k n : n <= len l -> zdrop n (l ++ k) = zdrop n l ++ k.
Proof. unfold zdrop, len. intros. apply drop_app_le. lia. Qed.
Lemma zdrop_app_ge l k n : len l <= n -> zdrop n (l ++ k) = zdrop (n - len l) k.
Proof. unfold zdrop, len. intros. rewrite drop_app_ge by lia. f_equal. lia. Qed.
End lists.

Create Rewrite HintDb len.
#[export] Hint Rewrite @len_app @len_cons @len_nil @len_replicate : len.
#[export] Hint Resolve len_nonneg : pulse.

(** Normalise every length in sight, remember that lengths are not negative,
    and call [lia]. *)
Ltac len_pose :=
  repeat match goal with
    | |- context [len ?l] =>
        lazymatch goal with
        | _ : 0 <= len l |- _ => fail
        | _ => pose proof (len_nonneg l)
        end
    | _ : context [len ?l] |- _ =>
        lazymatch goal with
        | _ : 0 <= len l |- _ => fail
        | _ => pose proof (len_nonneg l)
        end
    end.
Ltac len_lia := autorewrite with len in *; len_pose; lia.

(** Case split on a boolean test of integers occurring in the goal, keeping the
    arithmetic fact. *)
Ltac zcase :=
  match goal with
  | |- context [?a <? ?b] => destruct (Z.ltb_spec a b)
  | |- context [?a <=? ?b] => destruct (Z.leb_spec a b)
  | |- context [?a =? ?b] => destruct (Z.eqb_spec a b)
  | |- context [?a >=? ?b] => rewrite (Z.geb_leb a b)
  | |- context [?a >? ?b] => rewrite (Z.gtb_ltb a b)
  end.
