(* ===== verification/Status.v ===== *)
(** * Status.v: [status/status.rs], and how the library represents outcomes.

    [Status] and its [Code] are the crate's error type.  A call that can fail or
    panic returns an [outcome]: [Ret] for a normal return ([Ok] where the code
    returns a [Result]), [Fail] for [Err(status)], [Panic] for a failed
    assertion, an index out of range or an [expect] on [None].  A decoder that
    takes [input: &mut &[u8]] is a [reader]: it maps the cursor to an outcome
    and the cursor it leaves, on success and on failure. *)
From S2P Require Import Prelude.

(** ** Printing integers *)

(** [format!("{n}")] of an unsigned integer of at most 64 bits: its decimal digits,
    without leading zeros (twenty digits are enough). *)
Definition show_digit (d : Z) : string :=
  String (Ascii.ascii_of_nat (Z.to_nat (48 + d))) EmptyString.
Fixpoint show_digits (fuel : nat) (n : Z) (acc : string) : string :=
  match fuel with
  | O => acc
  | S fuel =>
      let acc := show_digit (n mod 10) +:+ acc in
      if n / 10 =? 0 then acc else show_digits fuel (n / 10) acc
  end.
Definition show_u64 (n : Z) : string := show_digits 20 n "".

(** ** [Code] and [Status] *)

Inductive Code :=
| CodeOk
| NotFound
| Corruption
| NotSupported
| InvalidArgument
| IoError.

#[export] Instance Code_eq_dec : EqDecision Code.
Proof. solve_decision. Defined.

Record Status := mk_status { code : Code; message : string }.

#[export] Instance Status_eq_dec : EqDecision Status.
Proof. solve_decision. Defined.

Module Stat.
Definition ok : Status := mk_status CodeOk "".
Definition not_found (m : string) : Status := mk_status NotFound m.
Definition corruption (m : string) : Status := mk_status Corruption m.
Definition not_supported (m : string) : Status := mk_status NotSupported m.
Definition invalid_argument (m : string) : Status := mk_status InvalidArgument m.
Definition io_error (m : string) : Status := mk_status IoError m.

(** [Status::with_context]: an empty context adds nothing. *)
Definition with_context (c : Code) (m ctx : string) : Status :=
  if decide (ctx = "") then mk_status c m
  else mk_status c (m +:+ ": " +:+ ctx).

Definition is_ok (s : Status) : bool := bool_decide (code s = CodeOk).
Definition is_not_found (s : Status) : bool := bool_decide (code s = NotFound).
Definition is_corruption (s : Status) : bool := bool_decide (code s = Corruption).
Definition is_not_supported (s : Status) : bool := bool_decide (code s = NotSupported).
Definition is_invalid_argument (s : Status) : bool := bool_decide (code s = InvalidArgument).
Definition is_io_error (s : Status) : bool := bool_decide (code s = IoError).

(** [impl Display for Status]. *)
Definition fmt (s : Status) : string :=
  match code s with
  | CodeOk => "OK"
  | NotFound => "NotFound: " +:+ message s
  | Corruption => "Corruption: " +:+ message s
  | NotSupported => "Not implemented: " +:+ message s
  | InvalidArgument => "Invalid argument: " +:+ message s
  | IoError => "IO error: " +:+ message s
  end.
End Stat.

(** ** Outcomes *)

Inductive outcome (A : Type) : Type :=
| Ret (a : A)
| Fail (s : Status)
| Panic.
Arguments Ret {A} a.
Arguments Fail {A} s.
Arguments Panic {A}.

#[export] Instance outcome_ret : MRet outcome := fun A a => Ret a.
#[export] Instance outcome_bind : MBind outcome := fun A B f m =>
  match m with Ret a => f a | Fail s => Fail s | Panic => Panic end.
#[export] Instance outcome_fmap : FMap outcome := fun A B f m =>
  match m with Ret a => Ret (f a) | Fail s => Fail s | Panic => Panic end.

#[export] Instance outcome_eq_dec {A} `{EqDecision A} : EqDecision (outcome A).
Proof. solve_decision. Defined.

(** [assert!(b)]. *)
Definition assert (b : bool) : outcome unit := if b then Ret tt else Panic.

(** [o.expect(..)] / [o.unwrap()]. *)
Definition expect {A} (o : option A) : outcome A :=
  match o with Some a => Ret a | None => Panic end.

(** [o.ok_or_else(|| s)]. *)
Definition ok_or {A} (o : option A) (s : Status) : outcome A :=
  match o with Some a => Ret a | None => Fail s end.

(** [r.ok()] on a [Result]: an error becomes [None], a panic stays one. *)
Definition catch {A} (m : outcome A) : outcome (option A) :=
  match m with Ret a => Ret (Some a) | Fail _ => Ret None | Panic => Panic end.

(** A [for] loop over a list whose body may fail. *)
Fixpoint fold_m {A B} (f : B -> A -> outcome B) (b : B) (l : list A) : outcome B :=
  match l with [] => Ret b | a :: l => b ← f b a; fold_m f b l end.

Definition is_ret {A} (m : outcome A) : bool :=
  match m with Ret _ => true | _ => false end.

(** ** Indexing and slicing, as Rust checks them *)

(** [l[i]]. *)
Definition index {A} (l : list A) (i : Z) : outcome A :=
  if (0 <=? i) then expect (l !! Z.to_nat i) else Panic.

(** [&l[a..b]], [&l[a..]], [&l[..b]]. *)
Definition slice {A} (l : list A) (a b : Z) : outcome (list A) :=
  if (0 <=? a) && (a <=? b) && (b <=? len l)
  then Ret (ztake (b - a) (zdrop a l)) else Panic.
Definition slice_from {A} (l : list A) (a : Z) : outcome (list A) := slice l a (len l).
Definition slice_to {A} (l : list A) (b : Z) : outcome (list A) := slice l 0 b.

(** [l[i] = x] on a slice. *)
Definition set_index {A} (l : list A) (i : Z) (x : A) : outcome (list A) :=
  if (0 <=? i) && (i <? len l) then Ret (<[Z.to_nat i := x]> l) else Panic.

(** [l[a..b].copy_from_slice(src)]: both lengths must agree. *)
Definition copy_from_slice (l : bytes) (a b : Z) (src : bytes) : outcome bytes :=
  if (0 <=? a) && (a <=? b) && (b <=? len l) && (b - a =? len src)
  then Ret (ztake a l ++ src ++ zdrop b l) else Panic.

(** [a - b] on [usize]: underflow panics. *)
Definition usub (a b : Z) : outcome Z := if b <=? a then Ret (a - b) else Panic.

Lemma slice_ok {A} (l : list A) a b :
  0 <= a -> a <= b -> b <= len l -> slice l a b = Ret (ztake (b - a) (zdrop a l)).
Proof.
  intros. unfold slice.
  by rewrite (proj2 (Z.leb_le 0 a)), (proj2 (Z.leb_le a b)), (proj2 (Z.leb_le b (len l))).
Qed.

Lemma slice_app {A} (l m r : list A) a b :
  a = len l -> b = len l + len m -> slice (l ++ m ++ r) a b = Ret m.
Proof.
  intros -> ->. rewrite slice_ok by len_lia. f_equal.
  rewrite zdrop_app_len by done. apply ztake_app_len. lia.
Qed.

Lemma slice_from_drop {A} (l : list A) a : 0 <= a <= len l -> slice_from l a = Ret (zdrop a l).
Proof.
  intros. unfold slice_from. rewrite slice_ok by lia. f_equal. apply ztake_all.
  rewrite len_zdrop; lia.
Qed.

Lemma slice_from_app {A} (l m : list A) a : a = len l -> slice_from (l ++ m) a = Ret m.
Proof.
  intros ->. unfold slice_from. rewrite <- (app_nil_r m) at 1.
  rewrite app_assoc, app_nil_r. rewrite slice_ok by len_lia. f_equal.
  rewrite zdrop_app_len by done. apply ztake_all. len_lia.
Qed.

Lemma slice_to_app {A} (l m : list A) b : b = len l -> slice_to (l ++ m) b = Ret l.
Proof. intros ->. by apply (slice_app [] l m). Qed.

Lemma copy_from_slice_app l m r src a b :
  a = len l -> b = len l + len m -> len src = len m ->
  copy_from_slice (l ++ m ++ r) a b src = Ret (l ++ src ++ r).
Proof.
  intros -> -> E. unfold copy_from_slice.
  match goal with |- (if ?c then _ else _) = _ => replace c with true end.
  2: { symmetry. rewrite !andb_true_iff, !Z.leb_le, Z.eqb_eq. len_lia. }
  rewrite ztake_app_len by done. by rewrite (app_assoc l m r), zdrop_app_len by len_lia.
Qed.

Lemma copy_from_slice_prefix m r src b : b = len m -> len src = len m ->
  copy_from_slice (m ++ r) 0 b src = Ret (src ++ r).
Proof. intros -> E. by apply (copy_from_slice_app [] m r). Qed.

Lemma slice_panic {A} (l : list A) a b :
  len l < b -> slice l a b = Panic.
Proof.
  intros. unfold slice. rewrite (proj2 (Z.leb_gt b (len l))) by lia.
  by rewrite andb_false_r.
Qed.

(** ** Cursor decoders *)

(** Decoders returning [Option], and decoders returning [Result]. *)
Definition cursor (A : Type) : Type := bytes -> option A * bytes.

(** A fallible call on a piece of mutable state [S]: its outcome and the state it
    leaves, also when it fails.  A decoder's state is its cursor. *)
Definition action (S A : Type) : Type := S -> outcome A * S.
Abbreviation reader := (action bytes) (only parsing).

#[export] Instance action_ret {S} : MRet (action S) := fun A a s => (Ret a, s).
#[export] Instance action_bind {S} : MBind (action S) := fun A B f m s =>
  match m s with
  | (Ret a, s') => f a s'
  | (Fail e, s') => (Fail e, s')
  | (Panic, s') => (Panic, s')
  end.

(** A computation without effect on the state, and a pure failure. *)
Definition lift {S A} (m : outcome A) : action S A := fun s => (m, s).
Definition get_state {S} : action S S := fun s => (Ret s, s).
Definition put_state {S} (s : S) : action S unit := fun _ => (Ret tt, s).

(** [get_x(input).ok_or_else(|| Status::corruption(m))?] *)
Definition need {A} (c : cursor A) (m : string) : reader A := fun input =>
  match c input with
  | (Some a, input') => (Ret a, input')
  | (None, input') => (Fail (Stat.corruption m), input')
  end.

Definition rfail {S A} (e : Status) : action S A := lift (Fail e).

Lemma need_some {A} (c : cursor A) m input a input' :
  c input = (Some a, input') -> need c m input = (Ret a, input').
Proof. intros H. unfold need. by rewrite H. Qed.

Lemma need_none {A} (c : cursor A) m input input' :
  c input = (None, input') -> need c m input = (Fail (Stat.corruption m), input').
Proof. intros H. unfold need. by rewrite H. Qed.

Lemma action_bind_ret {S A B} (m : action S A) (f : A -> action S B) s a s' :
  m s = (Ret a, s') -> (m ≫= f) s = f a s'.
Proof. intros H. unfold mbind, action_bind. by rewrite H. Qed.
Lemma bind_ret_inv {S A B} (m : action S A) (f : A -> action S B) s b s' : (m ≫= f) s = (Ret b, s') ->
  exists a s1, m s = (Ret a, s1) /\ f a s1 = (Ret b, s').
Proof. unfold mbind, action_bind. destruct (m s) as [[a|e|] s1]; [|done..]. intros H1. by exists a, s1. Qed.

Lemma action_bind_fail {S A B} (m : action S A) (f : A -> action S B) s e s' :
  m s = (Fail e, s') -> (m ≫= f) s = (Fail e, s').
Proof. intros H. unfold mbind, action_bind. by rewrite H. Qed.

Lemma action_bind_panic {S A B} (m : action S A) (f : A -> action S B) s s' :
  m s = (Panic, s') -> (m ≫= f) s = (Panic, s').
Proof. intros H. unfold mbind, action_bind. by rewrite H. Qed.
