(* ===== verification/Coding.v ===== *)
(** * Coding.v: [coding/coding.rs], the fixed-width and varint primitives every
    on-disk format of the crate is built from. *)
From S2P Require Import Prelude Status.
From coqutil Require Import Z.bitblast.

(** ** Fixed-width integers *)

Definition put_fixed16 (dst : bytes) (value : Z) : bytes := dst ++ to_le_bytes 2 value.
Definition put_fixed32 (dst : bytes) (value : Z) : bytes := dst ++ to_le_bytes 4 value.
Definition put_fixed64 (dst : bytes) (value : Z) : bytes := dst ++ to_le_bytes 8 value.

(** [dst[..8].copy_from_slice(..)] *)
Definition encode_fixed64 (dst : bytes) (value : Z) : outcome bytes :=
  copy_from_slice dst 0 8 (to_le_bytes 8 value).

Definition decode_fixed16 (src : bytes) : outcome Z :=
  b ← slice_to src 2; Ret (from_le_bytes b).
Definition decode_fixed32 (src : bytes) : outcome Z :=
  b ← slice_to src 4; Ret (from_le_bytes b).
Definition decode_fixed64 (src : bytes) : outcome Z :=
  b ← slice_to src 8; Ret (from_le_bytes b).

Definition get_u8 : cursor Z := fun input =>
  match input with
  | [] => (None, input)
  | first :: rest => (Some (u8 first), rest)
  end.

(** After the length test the decode cannot panic, so the cursor readers are
    total; [from_le_bytes] reads the same first bytes. *)
Definition get_fixed (n : Z) : cursor Z := fun input =>
  if len input <? n then (None, input)
  else (Some (from_le_bytes (ztake n input)), zdrop n input).
Definition get_fixed16 : cursor Z := get_fixed 2.
Definition get_fixed32 : cursor Z := get_fixed 4.
Definition get_fixed64 : cursor Z := get_fixed 8.

(** ** Varints *)

(** [((value & 0x7f) as u8) | 0x80] *)
Definition varint_more (value : Z) : byte :=
  as_u8 (Z.lor (u8 (as_u8 (Z.land value 0x7f))) 0x80).

(** The [while value >= 0x80] loop.  Ten rounds cover 64 bits
    ([put_varint64_unfold] below). *)
Fixpoint put_varint_loop (fuel : nat) (dst : bytes) (value : Z) : bytes :=
  match fuel with
  | O => dst
  | S fuel =>
      if value >=? 0x80
      then put_varint_loop fuel (dst ++ [varint_more value]) (Z.shiftr value 7)
      else dst ++ [as_u8 value]
  end.

Definition put_varint64 (dst : bytes) (value : Z) : bytes := put_varint_loop 10 dst value.
Definition put_varint32 (dst : bytes) (value : Z) : bytes := put_varint64 dst value.

(** The in-place encoders index a caller-supplied buffer: writing past its end
    panics.  The result is the buffer and the number of bytes written. *)
Fixpoint encode_varint_loop (fuel : nat) (dst : bytes) (offset value : Z)
  : outcome (bytes * Z) :=
  match fuel with
  | O => Panic
  | S fuel =>
      if value >=? 0x80
      then dst' ← set_index dst offset (varint_more value);
           encode_varint_loop fuel dst' (offset + 1) (Z.shiftr value 7)
      else dst' ← set_index dst offset (as_u8 value); Ret (dst', offset + 1)
  end.
Definition encode_varint64 (dst : bytes) (value : Z) : outcome (bytes * Z) :=
  encode_varint_loop 10 dst 0 value.
Definition encode_varint32 (dst : bytes) (value : Z) : outcome (bytes * Z) :=
  encode_varint64 dst value.

(** [(first..=last).step_by(7)], given by its number of steps. *)
Fixpoint step_by7 (first : Z) (steps : nat) : list Z :=
  match steps with O => [] | S n => first :: step_by7 (first + 7) n end.

(** The [for shift in ..] loop of the two decoders.  [trunc] is the width of the
    accumulator: a [u32] drops the bits a shift pushes past bit 31. *)
Fixpoint get_varint_loop (trunc : Z -> Z) (shifts : list Z) (cur : bytes) (result : Z)
  : option (Z * bytes) :=
  match shifts with
  | [] => None
  | shift :: shifts =>
      match cur with
      | [] => None
      | byte :: rest =>
          if negb (Z.land (u8 byte) 0x80 =? 0)
          then get_varint_loop trunc shifts rest
                 (Z.lor result (trunc (Z.shiftl (Z.land (u8 byte) 0x7f) shift)))
          else Some (Z.lor result (trunc (Z.shiftl (u8 byte) shift)), rest)
      end
  end.

Definition get_varint32 : cursor Z := fun input =>
  match get_varint_loop as_u32 (step_by7 0 5) input 0 with
  | Some (result, cur) => (Some result, cur)
  | None => (None, input)
  end.

Definition get_varint64 : cursor Z := fun input =>
  match get_varint_loop as_u64 (step_by7 0 10) input 0 with
  | Some (result, cur) => (Some result, cur)
  | None => (None, input)
  end.

Fixpoint varint_length_loop (fuel : nat) (value l : Z) : Z :=
  match fuel with
  | O => l
  | S fuel => if value >=? 0x80 then varint_length_loop fuel (Z.shiftr value 7) (l + 1) else l
  end.
Definition varint_length (value : Z) : Z := varint_length_loop 10 value 1.

(** ** Length-prefixed slices *)

(** [value.len() as u32] truncates; [dst.reserve] has no observable effect. *)
Definition put_length_prefixed_slice (dst value : bytes) : bytes :=
  put_varint32 dst (as_u32 (len value)) ++ value.

Definition get_length_prefixed_slice : cursor bytes := fun input =>
  match get_varint32 input with
  | (None, input') => (None, input')
  | (Some l, input') =>
      if len input' <? l then (None, input')
      else (Some (ztake l input'), zdrop l input')
  end.

(** ** Fixed-width integers: lemmas *)

Lemma len_le_split n v : len (le_split n v) = Z.of_nat n.
Proof. unfold len. by rewrite length_le_split. Qed.
#[export] Hint Rewrite len_le_split : len.

Lemma le_combine_split_id n v :
  0 <= v < 2 ^ (Z.of_nat n * 8) -> from_le_bytes (to_le_bytes n v) = v.
Proof. intros. rewrite le_combine_split. by apply Z.mod_small. Qed.

Lemma le_split_combine_id n bs :
  len bs = Z.of_nat n -> to_le_bytes n (from_le_bytes bs) = bs.
Proof. unfold len. intros. apply split_le_combine'. lia. Qed.

Lemma le_combine_range bs : 0 <= from_le_bytes bs < 2 ^ (8 * len bs).
Proof. apply le_combine_bound. Qed.

Lemma decode_fixed32_app v rest : is_u32 v -> decode_fixed32 (to_le_bytes 4 v ++ rest) = Ret v.
Proof.
  intros. unfold decode_fixed32. rewrite slice_to_app by len_lia.
  cbn. by rewrite le_combine_split_id.
Qed.
Lemma decode_fixed64_app v rest : is_u64 v -> decode_fixed64 (to_le_bytes 8 v ++ rest) = Ret v.
Proof.
  intros. unfold decode_fixed64. rewrite slice_to_app by len_lia.
  cbn. by rewrite le_combine_split_id.
Qed.
Lemma decode_fixed32_le v : is_u32 v -> decode_fixed32 (to_le_bytes 4 v) = Ret v.
Proof. intros. rewrite <- (app_nil_r (le_split 4 v)). by apply decode_fixed32_app. Qed.
Lemma decode_fixed64_le v : is_u64 v -> decode_fixed64 (to_le_bytes 8 v) = Ret v.
Proof. intros. rewrite <- (app_nil_r (le_split 8 v)). by apply decode_fixed64_app. Qed.

Lemma get_fixed_app (n : nat) v rest :
  0 <= v < 2 ^ (Z.of_nat n * 8) ->
  get_fixed (Z.of_nat n) (to_le_bytes n v ++ rest) = (Some v, rest).
Proof.
  intros. unfold get_fixed. rewrite len_app, len_le_split.
  rewrite (proj2 (Z.ltb_ge _ _)) by (len_pose; lia).
  rewrite ztake_app_len, zdrop_app_len by (by rewrite len_le_split).
  by rewrite le_combine_split_id.
Qed.
Lemma get_fixed16_app v rest : is_u16 v -> get_fixed16 (to_le_bytes 2 v ++ rest) = (Some v, rest).
Proof. intros. by apply (get_fixed_app 2). Qed.
Lemma get_fixed32_app v rest : is_u32 v -> get_fixed32 (to_le_bytes 4 v ++ rest) = (Some v, rest).
Proof. intros. by apply (get_fixed_app 4). Qed.
Lemma get_fixed64_app v rest : is_u64 v -> get_fixed64 (to_le_bytes 8 v ++ rest) = (Some v, rest).
Proof. intros. by apply (get_fixed_app 8). Qed.
Lemma get_u8_app b rest : get_u8 ([b] ++ rest) = (Some (u8 b), rest).
Proof. reflexivity. Qed.
Lemma get_fixed_none n input : len input < n -> get_fixed n input = (None, input).
Proof. intros. unfold get_fixed. by rewrite (proj2 (Z.ltb_lt _ _)). Qed.

#[export] Hint Rewrite get_fixed16_app get_fixed32_app get_fixed64_app using done : decode.

(** ** Varints: lemmas *)

Lemma put_varint_loop_app fuel dst v :
  put_varint_loop fuel dst v = dst ++ put_varint_loop fuel [] v.
Proof.
  revert dst v; induction fuel as [|fuel IH]; intros; cbn [put_varint_loop].
  - by rewrite app_nil_r.
  - zcase; zcase; [|done].
    rewrite (IH (dst ++ _)), (IH ([] ++ _)). by rewrite <- app_assoc.
Qed.

Lemma put_varint64_app dst v : put_varint64 dst v = dst ++ put_varint64 [] v.
Proof. apply put_varint_loop_app. Qed.
Lemma put_varint32_app dst v : put_varint32 dst v = dst ++ put_varint32 [] v.
Proof. apply put_varint_loop_app. Qed.

Lemma varint_more_u8 v : u8 (varint_more v) = Z.lor (Z.land v 127) 128.
Proof.
  unfold varint_more. rewrite !u8_as_u8.
  change 127 with (Z.ones 7). rewrite Z.land_ones by lia.
  assert (0 <= v mod 2 ^ 7 < 2 ^ 7) by (apply Z.mod_pos_bound; lia).
  rewrite (Z.mod_small (v mod 2 ^ 7)) by lia.
  apply Z.mod_small. split.
  - apply Z.lor_nonneg. lia.
  - apply Z.log2_lt_cancel. rewrite Z.log2_lor by lia.
    change (Z.log2 128) with 7. change (Z.log2 256) with 8.
    assert (Z.log2 (v mod 2 ^ 7) <= 7); [|lia].
    transitivity (Z.log2 (2 ^ 7)); [apply Z.log2_le_mono; lia|by rewrite Z.log2_pow2].
Qed.

Lemma varint_more_flag v : Z.land (u8 (varint_more v)) 128 =? 0 = false.
Proof.
  rewrite varint_more_u8. rewrite Z.land_lor_distr_l.
  replace (Z.land (Z.land v 127) 128) with 0; [done|].
  rewrite <- Z.land_assoc. by rewrite Z.land_0_r.
Qed.

Lemma varint_more_payload v : Z.land (u8 (varint_more v)) 127 = Z.land v 127.
Proof.
  rewrite varint_more_u8, Z.land_lor_distr_l, <- Z.land_assoc.
  change (Z.land 127 127) with 127. change (Z.land 128 127) with 0.
  apply Z.lor_0_r.
Qed.

Lemma varint_last_flag v : 0 <= v < 128 -> Z.land v 128 =? 0 = true.
Proof.
  intros. apply Z.eqb_eq. apply Z.bits_inj'. intros i Hi.
  rewrite Z.land_spec, Z.bits_0. change 128 with (2 ^ 7).
  rewrite Z.pow2_bits_eqb by lia. destruct (Z.eqb_spec 7 i) as [<-|]; [|apply andb_false_r].
  rewrite andb_true_r. destruct (Z.eq_dec v 0) as [->|]; [done|].
  apply Z.bits_above_log2; [lia|]. apply Z.log2_lt_pow2; lia.
Qed.

Lemma varint_split v s :
  0 <= s -> Z.lor (Z.shiftl (Z.land v 127) s) (Z.shiftl (Z.shiftr v 7) (s + 7)) = Z.shiftl v s.
Proof.
  intros. rewrite (Z.add_comm s 7), <- Z.shiftl_shiftl by lia. rewrite <- Z.shiftl_lor.
  f_equal. rewrite <- Z.ldiff_ones_r by lia. change 127 with (Z.ones 7).
  rewrite Z.lor_comm. apply Z.lor_ldiff_and.
Qed.

Lemma shiftr7_bound v n : 0 <= v < 2 ^ (7 * Z.of_nat (S n)) ->
  0 <= Z.shiftr v 7 < 2 ^ (7 * Z.of_nat n).
Proof.
  intros [? H]. rewrite Z.shiftr_div_pow2 by lia. split; [apply Z.div_pos; lia|].
  apply Z.div_lt_upper_bound; [lia|]. rewrite <- Z.pow_add_r by lia.
  eapply Z.lt_le_trans; [exact H|]. apply Z.pow_le_mono_r; lia.
Qed.

(** What a decoder does with the bytes of an encoder, at shift [s]. *)
Lemma get_put_varint_loop trunc w n fuel s v acc rest :
  (forall z, 0 <= z < 2 ^ w -> trunc z = z) ->
  (n <= fuel)%nat -> 0 <= s -> 0 <= v < 2 ^ (7 * Z.of_nat n) -> Z.shiftl v s < 2 ^ w ->
  (1 <= n)%nat ->
  get_varint_loop trunc (step_by7 s n) (put_varint_loop fuel [] v ++ rest) acc
  = Some (Z.lor acc (Z.shiftl v s), rest).
Proof.
  intros Htr. revert fuel s v acc. induction n as [|n IH]; [lia|].
  intros fuel s v acc Hf Hs Hv Hw _. destruct fuel as [|fuel]; [lia|].
  cbn [put_varint_loop step_by7]. rewrite Z.geb_leb. zcase.
  - rewrite put_varint_loop_app. cbn [app get_varint_loop].
    rewrite varint_more_flag, varint_more_payload. cbn [negb].
    assert (Hle : Z.shiftl (Z.land v 127) s <= Z.shiftl v s).
    { rewrite !Z.shiftl_mul_pow2 by lia. change 127 with (Z.ones 7).
      rewrite Z.land_ones by lia. apply Z.mul_le_mono_nonneg_r; [lia|].
      apply Z.mod_le; lia. }
    rewrite Htr; [|split; [apply Z.shiftl_nonneg, Z.land_nonneg; lia|lia]].
    destruct n as [|n].
    { change (2 ^ (7 * Z.of_nat 1)) with 128 in Hv. lia. }
    rewrite IH; try lia.
    + by rewrite <- Z.lor_assoc, varint_split.
    + by apply shiftr7_bound.
    + eapply Z.le_lt_trans; [|exact Hw].
      rewrite !Z.shiftl_mul_pow2, Z.pow_add_r, Z.shiftr_div_pow2 by lia.
      rewrite (Z.mul_comm (2 ^ s)), Z.mul_assoc. apply Z.mul_le_mono_nonneg_r; [lia|].
      rewrite Z.mul_comm. apply Z.mul_div_le. lia.
  - cbn [app get_varint_loop].
    rewrite (u8_as_u8_id v) by (unfold is_u8; lia).
    rewrite varint_last_flag by lia. cbn [negb].
    rewrite Htr; [done|]. split; [apply Z.shiftl_nonneg; lia|lia].
Qed.

Lemma get_varint64_put v rest : is_u64 v -> get_varint64 (put_varint64 [] v ++ rest) = (Some v, rest).
Proof.
  intros [? Hv]. unfold get_varint64, put_varint64.
  rewrite (get_put_varint_loop as_u64 64) by
    first [exact as_u64_id | lia | rewrite Z.shiftl_0_r; exact Hv
          | split; [lia|]; eapply Z.lt_le_trans; [exact Hv|]; apply Z.pow_le_mono_r; lia].
  by rewrite Z.shiftl_0_r, Z.lor_0_l.
Qed.

Lemma get_varint32_put v rest : is_u32 v -> get_varint32 (put_varint32 [] v ++ rest) = (Some v, rest).
Proof.
  intros [? Hv]. unfold get_varint32, put_varint32, put_varint64.
  rewrite (get_put_varint_loop as_u32 32) by
    first [exact as_u32_id | lia | rewrite Z.shiftl_0_r; exact Hv
          | split; [lia|]; eapply Z.lt_le_trans; [exact Hv|]; apply Z.pow_le_mono_r; lia].
  by rewrite Z.shiftl_0_r, Z.lor_0_l.
Qed.
#[export] Hint Rewrite get_varint64_put get_varint32_put using done : decode.

(** The loops bounded by fuel never run out on a 64-bit value: they satisfy the
    equations of the unbounded [while]. *)
Lemma put_varint_loop_fuel n fuel v dst :
  0 <= v < 2 ^ (7 * Z.of_nat n) -> (1 <= n <= fuel)%nat ->
  put_varint_loop fuel dst v = put_varint_loop n dst v.
Proof.
  revert fuel v dst. induction n as [|n IH]; intros fuel v dst Hv Hn; [lia|].
  destruct fuel as [|fuel]; [lia|]. cbn [put_varint_loop]. rewrite Z.geb_leb. zcase; [|done].
  destruct n as [|n].
  { change (2 ^ (7 * Z.of_nat 1)) with 128 in Hv. lia. }
  apply IH; [by apply shiftr7_bound|lia].
Qed.

Lemma put_varint64_unfold dst v : is_u64 v ->
  put_varint64 dst v =
  if v >=? 0x80 then put_varint64 (dst ++ [varint_more v]) (Z.shiftr v 7) else dst ++ [as_u8 v].
Proof.
  intros Hv. unfold put_varint64 at 1. cbn [put_varint_loop].
  rewrite Z.geb_leb. zcase; [|done]. symmetry. apply (put_varint_loop_fuel 9 10); [|lia].
  apply shiftr7_bound. unfold is_u64 in Hv. split; [lia|].
  eapply Z.lt_le_trans; [apply Hv|]. apply Z.pow_le_mono_r; lia.
Qed.

Lemma put_varint_loop_len fuel v :
  (1 <= fuel)%nat -> 1 <= len (put_varint_loop fuel [] v) <= Z.of_nat fuel.
Proof.
  revert v. induction fuel as [|fuel IH]; intros v Hf; [lia|].
  cbn [put_varint_loop]. rewrite Z.geb_leb. zcase; [|cbn; len_lia].
  rewrite put_varint_loop_app, len_app. destruct fuel as [|fuel]; [cbn; len_lia|].
  specialize (IH (Z.shiftr v 7) ltac:(lia)). cbn [app]. rewrite len_cons, len_nil. lia.
Qed.

Lemma put_varint64_len v : 1 <= len (put_varint64 [] v) <= 10.
Proof. apply (put_varint_loop_len 10). lia. Qed.

Lemma put_varint32_len v : is_u32 v -> 1 <= len (put_varint32 [] v) <= 5.
Proof.
  intros Hv. unfold put_varint32, put_varint64.
  rewrite (put_varint_loop_fuel 5) by (unfold is_u32 in Hv; lia).
  apply (put_varint_loop_len 5). lia.
Qed.

Lemma varint_length_loop_len fuel v l :
  0 <= v < 2 ^ (7 * Z.of_nat fuel) -> (1 <= fuel)%nat ->
  varint_length_loop fuel v l = l - 1 + len (put_varint_loop fuel [] v).
Proof.
  revert v l. induction fuel as [|fuel IH]; intros v l Hv Hf; [lia|].
  cbn [varint_length_loop put_varint_loop]. rewrite Z.geb_leb. zcase; [|cbn; len_lia].
  destruct fuel as [|fuel].
  { change (2 ^ (7 * Z.of_nat 1)) with 128 in Hv. lia. }
  rewrite IH by first [lia | by apply shiftr7_bound].
  rewrite (put_varint_loop_app _ ([] ++ _)), len_app. cbn [app]. rewrite len_cons, len_nil. lia.
Qed.

Lemma u64_varint_bound v : is_u64 v -> 0 <= v < 2 ^ (7 * Z.of_nat 10).
Proof.
  intros [? Hv]. split; [lia|]. eapply Z.lt_le_trans; [exact Hv|]. apply Z.pow_le_mono_r; lia.
Qed.

Lemma varint_length_put v : is_u64 v -> varint_length v = len (put_varint64 [] v).
Proof.
  intros Hv. unfold varint_length. rewrite varint_length_loop_len; [|by apply u64_varint_bound|lia].
  unfold put_varint64. lia.
Qed.

Lemma set_index_app (pre : bytes) b0 buf b :
  set_index (pre ++ b0 :: buf) (len pre) b = Ret (pre ++ b :: buf).
Proof.
  unfold set_index. rewrite (proj2 (Z.leb_le 0 _)), (proj2 (Z.ltb_lt _ _)) by len_lia.
  cbn [andb]. f_equal. unfold len. rewrite Nat2Z.id.
  by rewrite insert_app_r_alt, Nat.sub_diag by lia.
Qed.

Lemma encode_varint_loop_spec fuel pre buf v :
  0 <= v < 2 ^ (7 * Z.of_nat fuel) -> (1 <= fuel)%nat ->
  let e := put_varint_loop fuel [] v in
  len e <= len buf ->
  encode_varint_loop fuel (pre ++ buf) (len pre) v
  = Ret (pre ++ e ++ zdrop (len e) buf, len pre + len e).
Proof.
  revert pre buf v. induction fuel as [|fuel IH]; intros pre buf v Hv Hf; [lia|].
  cbn zeta. cbn [encode_varint_loop put_varint_loop]. rewrite Z.geb_leb. zcase.
  - destruct fuel as [|fuel].
    { change (2 ^ (7 * Z.of_nat 1)) with 128 in Hv. lia. }
    rewrite put_varint_loop_app. cbn [app]. rewrite len_cons. intros Hl.
    destruct buf as [|b0 buf]; [len_lia|]. rewrite set_index_app. cbn [mbind outcome_bind].
    replace (pre ++ varint_more v :: buf) with ((pre ++ [varint_more v]) ++ buf) by by rewrite <- app_assoc.
    replace (len pre + 1) with (len (pre ++ [varint_more v])) by len_lia.
    rewrite IH; [|by apply shiftr7_bound|lia|len_lia].
    f_equal. f_equal; [|len_lia]. rewrite <- app_assoc. cbn [app].
    do 3 f_equal. unfold zdrop. rewrite Z2Nat.inj_add by len_lia. done.
  - cbn [app]. intros Hl. destruct buf as [|b0 buf]; [cbn in Hl; len_lia|].
    by rewrite set_index_app.
Qed.

Lemma encode_varint64_spec buf v : is_u64 v ->
  let e := put_varint64 [] v in
  len e <= len buf -> encode_varint64 buf v = Ret (e ++ zdrop (len e) buf, len e).
Proof.
  intros Hv e Hl. apply (encode_varint_loop_spec 10 [] buf v); [by apply u64_varint_bound|lia|done].
Qed.

(** ** Length-prefixed slices: lemmas *)

Lemma put_length_prefixed_slice_app dst v :
  put_length_prefixed_slice dst v = dst ++ put_length_prefixed_slice [] v.
Proof. unfold put_length_prefixed_slice. rewrite put_varint32_app. by rewrite <- app_assoc. Qed.

Lemma get_length_prefixed_put v rest : is_u32 (len v) ->
  get_length_prefixed_slice (put_length_prefixed_slice [] v ++ rest) = (Some v, rest).
Proof.
  intros Hv. unfold get_length_prefixed_slice, put_length_prefixed_slice.
  rewrite as_u32_id by done. rewrite <- app_assoc, get_varint32_put by done.
  rewrite (proj2 (Z.ltb_ge _ _)) by len_lia.
  by rewrite ztake_app_len, zdrop_app_len.
Qed.
#[export] Hint Rewrite get_length_prefixed_put using done : decode.

Lemma put_length_prefixed_len v : is_u32 (len v) ->
  len v + 1 <= len (put_length_prefixed_slice [] v) <= len v + 5.
Proof.
  intros Hv. unfold put_length_prefixed_slice. rewrite len_app, as_u32_id by done.
  pose proof (put_varint32_len _ Hv). lia.
Qed.

(** The decoders never produce a value wider than their type, never grow the
    input, and leave it untouched on failure. *)
Lemma get_varint_loop_suffix trunc shifts cur acc r rest :
  get_varint_loop trunc shifts cur acc = Some (r, rest) ->
  exists pre, cur = pre ++ rest /\ 1 <= len pre <= len shifts.
Proof.
  revert cur acc. induction shifts as [|s shifts IH]; intros cur acc H; [done|].
  destruct cur as [|b cur]; [done|]. cbn [get_varint_loop] in H.
  case_match.
  - apply IH in H as (pre & -> & ?). exists (b :: pre). split; [done|len_lia].
  - simplify_eq. exists [b]. split; [done|]. len_lia.
Qed.

Lemma lor_bound w a b : 0 <= w -> 0 <= a < 2 ^ w -> 0 <= b < 2 ^ w -> 0 <= Z.lor a b < 2 ^ w.
Proof.
  intros Hw Ha Hb. split; [apply Z.lor_nonneg; lia|].
  rewrite <- (Z.mod_small a (2 ^ w)), <- (Z.mod_small b (2 ^ w)) by done.
  rewrite <- !Z.land_ones, <- Z.land_lor_distr_l, Z.land_ones by done.
  apply Z.mod_pos_bound. lia.
Qed.

Lemma get_varint_loop_range trunc w shifts cur acc r rest : 0 <= w ->
  (forall z, 0 <= trunc z < 2 ^ w) -> 0 <= acc < 2 ^ w ->
  get_varint_loop trunc shifts cur acc = Some (r, rest) -> 0 <= r < 2 ^ w.
Proof.
  intros Hw Htr. revert cur acc. induction shifts as [|s shifts IH]; intros cur acc Ha H; [done|].
  destruct cur as [|b cur]; [done|]. cbn [get_varint_loop] in H. case_match.
  - eapply IH; [|done]. by apply lor_bound.
  - simplify_eq. by apply lor_bound.
Qed.

Lemma get_varint32_range input r rest : get_varint32 input = (Some r, rest) -> is_u32 r.
Proof.
  unfold get_varint32. case_match; [|done]. case_match. intros ?; simplify_eq.
  by eapply (get_varint_loop_range _ 32); [..|done]; [lia|intros; apply as_u32_range|lia].
Qed.

(** ** Arrays of fixed32 values *)

Definition fixed32s (xs : list Z) : bytes := concat (map (fun x => to_le_bytes 4 x) xs).

Lemma len_fixed32s xs : len (fixed32s xs) = 4 * len xs.
Proof.
  unfold fixed32s. induction xs as [|x xs IH]; [done|]. cbn [map concat].
  rewrite len_app, IH, len_le_split, len_cons. lia.
Qed.

Lemma fixed32s_split xs i x : xs !! i = Some x ->
  fixed32s xs = fixed32s (take i xs) ++ to_le_bytes 4 x ++ fixed32s (drop (S i) xs).
Proof.
  intros Hi. rewrite <- (take_drop_middle xs i x Hi) at 1. unfold fixed32s.
  by rewrite map_app, concat_app.
Qed.

Lemma fold_put_fixed32 xs dst : fold_left put_fixed32 xs dst = dst ++ fixed32s xs.
Proof.
  revert dst. induction xs as [|x xs IH]; intros dst; cbn; [by rewrite app_nil_r|].
  rewrite IH. unfold put_fixed32, fixed32s. cbn. by rewrite <- app_assoc.
Qed.

(** Outside this file the codecs are used through their lemmas. *)
#[global] Arguments put_varint64 : simpl never.
#[global] Arguments put_varint32 : simpl never.
#[global] Arguments get_varint64 : simpl never.
#[global] Arguments get_varint32 : simpl never.
#[global] Arguments get_length_prefixed_slice : simpl never.
#[global] Arguments put_length_prefixed_slice : simpl never.
#[global] Arguments get_fixed32 : simpl never.
#[global] Arguments get_fixed64 : simpl never.
#[global] Arguments decode_fixed32 : simpl never.
#[global] Arguments decode_fixed64 : simpl never.

(** ** Claims *)

(** Varint64. Encoding any [u64] appends between one and ten bytes, as many as
    [varint_length] says; decoding them gives the value back and leaves exactly what
    follows; and the in-place encoder writes the same bytes into any buffer that holds
    them. *)
Theorem varint64_codec v dst rest buf : is_u64 v ->
  exists e, put_varint64 dst v = dst ++ e /\ 1 <= len e <= 10 /\ varint_length v = len e /\
    get_varint64 (e ++ rest) = (Some v, rest) /\
    (len e <= len buf -> encode_varint64 buf v = Ret (e ++ zdrop (len e) buf, len e)).
Proof.
  intros Hv. exists (put_varint64 [] v). split; [apply put_varint64_app|].
  split; [apply put_varint64_len|]. split; [by apply varint_length_put|].
  split; [by apply get_varint64_put|]. by apply encode_varint64_spec.
Qed.


(** Get_length_prefixed_slice. A slice of fewer than 2^32 bytes comes back from its
    length-prefixed encoding and the cursor is left after it; but when the payload is
    short the cursor is left past the length, although coding/mod.rs says a failed
    decode leaves the slice untouched. *)
Theorem length_prefixed_codec dst v rest : is_u32 (len v) ->
  exists e, put_length_prefixed_slice dst v = dst ++ e /\
    get_length_prefixed_slice (e ++ rest) = (Some v, rest) /\
    (forall short, len short < len v ->
       get_length_prefixed_slice (put_varint32 [] (len v) ++ short) = (None, short)).
Proof.
  intros Hv. exists (put_length_prefixed_slice [] v).
  split; [apply put_length_prefixed_slice_app|]. split; [by apply get_length_prefixed_put|].
  intros short Hs. unfold get_length_prefixed_slice. rewrite get_varint32_put by done.
  by rewrite (proj2 (Z.ltb_lt _ _)).
Qed.

