(* ===== verification/Crc32c.v ===== *)
(** * Crc32c.v: [crc32c/crc32c.rs].

    The slicing-by-4 tables and loops of the portable path, the two hardware
    paths (with the documented meaning of the [crc32c] instructions), and the
    masking used on disk.  All paths are shown to compute one bit-at-a-time
    reference CRC. *)
From S2P Require Import Prelude Status.
From coqutil Require Import Z.bitblast.

Definition POLY : Z := 0x82f63b78.
Definition MASK_DELTA : Z := 0xa282ead8.

(** ** The tables *)

(** One round of the inner [while j < 8] loop of [make_table0]. *)
Definition crc_bit (crc : Z) : Z :=
  if negb (Z.land crc 1 =? 0) then Z.lxor (Z.shiftr crc 1) POLY else Z.shiftr crc 1.

Definition make_table0 : list Z := map (Nat.iter 8 crc_bit) (seqZ 0 256).

(** [t[i]] on a 256-entry table; every index in the code is masked to 8 bits. *)
Definition tbl (t : list Z) (i : Z) : Z := nth (Z.to_nat i) t 0.

Definition make_table_next (previous base : list Z) : list Z :=
  map (fun i => let crc := tbl previous i in
                Z.lxor (Z.shiftr crc 8) (tbl base (Z.land crc 0xff)))
      (seqZ 0 256).

Definition TABLE0 : list Z := Eval vm_compute in make_table0.
Definition TABLE1 : list Z := Eval vm_compute in make_table_next TABLE0 TABLE0.
Definition TABLE2 : list Z := Eval vm_compute in make_table_next TABLE1 TABLE0.
Definition TABLE3 : list Z := Eval vm_compute in make_table_next TABLE2 TABLE0.

(** ** The portable path *)

(** [data[i]], under the loops' bound tests. *)
Definition byte_at (data : bytes) (i : Z) : Z := u8 (nth (Z.to_nat i) data Byte.x00).

Definition step4 (crc : Z) (data : bytes) (offset : Z) : Z :=
  let word := from_le_bytes (map (fun i => as_u8 (byte_at data (offset + i))) [0; 1; 2; 3]) in
  let c := Z.lxor crc word in
  Z.lxor (Z.lxor (Z.lxor (tbl TABLE3 (Z.land c 0xff))
                         (tbl TABLE2 (Z.land (Z.shiftr c 8) 0xff)))
                 (tbl TABLE1 (Z.land (Z.shiftr c 16) 0xff)))
         (tbl TABLE0 (Z.shiftr c 24)).

Fixpoint loop16 (fuel : nat) (data : bytes) (crc offset : Z) : Z * Z :=
  match fuel with
  | O => (crc, offset)
  | S fuel =>
      if offset + 16 <=? len data then
        let crc := step4 crc data offset in
        let crc := step4 crc data (offset + 4) in
        let crc := step4 crc data (offset + 8) in
        let crc := step4 crc data (offset + 12) in
        loop16 fuel data crc (offset + 16)
      else (crc, offset)
  end.

Fixpoint loop4 (fuel : nat) (data : bytes) (crc offset : Z) : Z * Z :=
  match fuel with
  | O => (crc, offset)
  | S fuel =>
      if offset + 4 <=? len data
      then loop4 fuel data (step4 crc data offset) (offset + 4)
      else (crc, offset)
  end.

Fixpoint loop1 (fuel : nat) (data : bytes) (crc offset : Z) : Z :=
  match fuel with
  | O => crc
  | S fuel =>
      if offset <? len data then
        let index := Z.lxor (u8 (as_u8 crc)) (byte_at data offset) in
        loop1 fuel data (Z.lxor (tbl TABLE0 index) (Z.shiftr crc 8)) (offset + 1)
      else crc
  end.

(** Each loop moves [offset] forward, so [data.len()] rounds are enough. *)
Definition extend_software (init_crc : Z) (data : bytes) : Z :=
  let crc := Z.lxor init_crc 0xffffffff in
  let fuel := length data in
  let '(crc, offset) := loop16 fuel data crc 0 in
  let '(crc, offset) := loop4 fuel data crc offset in
  Z.lxor (loop1 fuel data crc offset) 0xffffffff.

(** ** The hardware paths *)

(** The instructions' documented meaning: one polynomial-division round per bit,
    the operand's bytes taken least significant first. *)
Definition crc_byte (crc : Z) (b : byte) : Z := Nat.iter 8 crc_bit (Z.lxor crc (u8 b)).
Definition crc32c_insn (n : nat) (crc v : Z) : Z := fold_left crc_byte (to_le_bytes n v) crc.

(** [data.chunks_exact(8)]: the fold over the chunks, and the remainder. *)
Fixpoint chunks8 (fuel : nat) (data : bytes) (crc : Z) : Z * bytes :=
  match fuel with
  | O => (crc, data)
  | S fuel =>
      if len data <? 8 then (crc, data)
      else chunks8 fuel (zdrop 8 data) (crc32c_insn 8 crc (from_le_bytes (ztake 8 data)))
  end.

(** The tail of both functions: a 4-, a 2- and a 1-byte instruction as needed. *)
Definition hw_tail (crc : Z) (rem : bytes) : Z :=
  let '(crc, rem) :=
    if 4 <=? len rem
    then (crc32c_insn 4 crc (from_le_bytes (ztake 4 rem)), zdrop 4 rem) else (crc, rem) in
  let '(crc, rem) :=
    if 2 <=? len rem
    then (crc32c_insn 2 crc (from_le_bytes (ztake 2 rem)), zdrop 2 rem) else (crc, rem) in
  match rem with b :: _ => crc32c_insn 1 crc (u8 b) | [] => crc end.

Definition extend_hw_aarch64 (init_crc : Z) (data : bytes) : Z :=
  let crc := Z.lxor init_crc 0xffffffff in
  let '(crc, rem) := chunks8 (length data) data crc in
  Z.lxor (hw_tail crc rem) 0xffffffff.

(** [crc64] is a [u64] whose high half stays zero; [crc64 as u32] narrows it. *)
Definition extend_hw_x86_64 (init_crc : Z) (data : bytes) : Z :=
  let crc64 := Z.lxor init_crc 0xffffffff in
  let '(crc64, rem) := chunks8 (length data) data crc64 in
  Z.lxor (hw_tail (as_u32 crc64) rem) 0xffffffff.

(** ** The API *)

Inductive Cpu := Portable | X86_64_Sse42 | Aarch64_Crc.

(** [extend] picks its path from what the running CPU offers. *)
Definition extend_on (cpu : Cpu) (init_crc : Z) (data : bytes) : Z :=
  match cpu with
  | Aarch64_Crc => extend_hw_aarch64 init_crc data
  | X86_64_Sse42 => extend_hw_x86_64 init_crc data
  | Portable => extend_software init_crc data
  end.
Definition extend : Z -> bytes -> Z := extend_on Portable.
Definition value (data : bytes) : Z := extend 0 data.

Definition rotate_right32 (x n : Z) : Z :=
  Z.lor (Z.shiftr x n) (as_u32 (Z.shiftl x (32 - n))).
Definition rotate_left32 (x n : Z) : Z :=
  Z.lor (as_u32 (Z.shiftl x n)) (Z.shiftr x (32 - n)).

Definition mask (crc : Z) : Z := as_u32 (rotate_right32 crc 15 + MASK_DELTA).
Definition unmask (masked_crc : Z) : Z := rotate_right32 (as_u32 (masked_crc - MASK_DELTA)) 17.

(** ** The reference: one bit at a time *)

Definition crc_ref (init_crc : Z) (data : bytes) : Z :=
  Z.lxor (fold_left crc_byte data (Z.lxor init_crc 0xffffffff)) 0xffffffff.

(** The check value of CRC-32C: the CRC of "123456789". *)
Example crc_check : value (map as_u8 [49;50;51;52;53;54;55;56;57]) = 0xe3069283.
Proof. vm_compute. reflexivity. Qed.

(** ** One bit step is linear, so a register can be cut into bytes *)

Lemma crc_bit_alt x : crc_bit x = Z.lxor (Z.shiftr x 1) (if Z.testbit x 0 then POLY else 0).
Proof.
  unfold crc_bit. change 1 with (Z.ones 1) at 1. rewrite Z.land_ones by lia.
  change (2 ^ 1) with 2. rewrite <- Z.bit0_mod.
  destruct (Z.testbit x 0); cbn; [done|by rewrite Z.lxor_0_r].
Qed.

Lemma crc_bit_lxor x y : crc_bit (Z.lxor x y) = Z.lxor (crc_bit x) (crc_bit y).
Proof.
  rewrite !crc_bit_alt, Z.shiftr_lxor, Z.lxor_spec.
  rewrite !Z.lxor_assoc. f_equal. rewrite <- !Z.lxor_assoc, (Z.lxor_comm _ (Z.shiftr y 1)).
  rewrite !Z.lxor_assoc. f_equal.
  destruct (Z.testbit x 0), (Z.testbit y 0); reflexivity.
Qed.

Lemma crc_iter_lxor n x y :
  Nat.iter n crc_bit (Z.lxor x y) = Z.lxor (Nat.iter n crc_bit x) (Nat.iter n crc_bit y).
Proof. induction n as [|n IH]; [done|]. by rewrite !Nat.iter_succ, IH, crc_bit_lxor. Qed.

Lemma crc_bit_shiftl y : crc_bit (Z.shiftl y 1) = y.
Proof.
  rewrite crc_bit_alt, Z.shiftl_spec_low by lia. rewrite Z.lxor_0_r.
  rewrite Z.shiftr_shiftl_l by lia. apply Z.shiftl_0_r.
Qed.

Lemma crc_iter_shiftl n y : Nat.iter n crc_bit (Z.shiftl y (Z.of_nat n)) = y.
Proof.
  induction n as [|n IH]; [apply Z.shiftl_0_r|].
  rewrite Nat.iter_succ_r. replace (Z.of_nat (S n)) with (Z.of_nat n + 1) by lia.
  rewrite <- Z.shiftl_shiftl by lia. by rewrite crc_bit_shiftl.
Qed.

Lemma crc_iter_shiftl_ge n m y :
  Nat.iter (n + m) crc_bit (Z.shiftl y (Z.of_nat n)) = Nat.iter m crc_bit y.
Proof. by rewrite Nat.add_comm, Nat.iter_add, crc_iter_shiftl. Qed.

Lemma lxor_bound w a b : 0 <= w -> 0 <= a < 2 ^ w -> 0 <= b < 2 ^ w -> 0 <= Z.lxor a b < 2 ^ w.
Proof.
  intros Hw Ha Hb. split; [apply Z.lxor_nonneg; lia|].
  destruct (Z.eq_dec w 0) as [->|].
  { replace a with 0 by lia. replace b with 0 by lia. done. }
  destruct (Z.eq_dec (Z.lxor a b) 0) as [->|]; [lia|].
  assert (0 <= Z.lxor a b) by (apply Z.lxor_nonneg; lia).
  apply Z.log2_lt_pow2; [lia|]. eapply Z.le_lt_trans; [apply Z.log2_lxor; lia|].
  apply Z.max_lub_lt.
  - destruct (Z.eq_dec a 0) as [->|]; [|apply Z.log2_lt_pow2; lia].
    cbn. lia.
  - destruct (Z.eq_dec b 0) as [->|]; [|apply Z.log2_lt_pow2; lia].
    cbn. lia.
Qed.

Lemma crc_bit_u32 x : is_u32 x -> is_u32 (crc_bit x).
Proof.
  unfold is_u32. intros Hx. rewrite crc_bit_alt. apply lxor_bound; [lia| |].
  - rewrite Z.shiftr_div_pow2 by lia. split; [apply Z.div_pos; lia|].
    apply Z.div_lt_upper_bound; lia.
  - destruct (Z.testbit x 0); [unfold POLY|]; lia.
Qed.
Lemma crc_iter_u32 n x : is_u32 x -> is_u32 (Nat.iter n crc_bit x).
Proof. intros. induction n as [|n IH]; [done|]. by apply crc_bit_u32. Qed.
Lemma crc_byte_u32 c b : is_u32 c -> is_u32 (crc_byte c b).
Proof.
  intros. apply crc_iter_u32. apply lxor_bound; [lia|done|].
  pose proof (u8_range b). lia.
Qed.
Lemma fold_crc_u32 bs c : is_u32 c -> is_u32 (fold_left crc_byte bs c).
Proof. revert c. induction bs; intros; [done|]. by apply IHbs, crc_byte_u32. Qed.

(** Folding bytes in is dividing the register xor the little-endian word. *)
Lemma fold_crc_word bs c :
  fold_left crc_byte bs c = Nat.iter (8 * length bs) crc_bit (Z.lxor c (from_le_bytes bs)).
Proof.
  revert c. induction bs as [|b bs IH]; intros c.
  { cbn [length Nat.mul Nat.iter nat_rect fold_left]. by rewrite le_combine_nil, Z.lxor_0_r. }
  cbn [fold_left length]. rewrite IH. replace (8 * S (length bs))%nat with (8 * length bs + 8)%nat by lia.
  rewrite Nat.iter_add. f_equal. unfold crc_byte.
  rewrite <- (crc_iter_shiftl 8 (le_combine bs)), <- crc_iter_lxor at 1. f_equal.
  rewrite Z.lxor_assoc. f_equal. unfold le_combine at 2. fold le_combine.
  symmetry. rewrite <- Z.lxor_lor; [done|].
  apply Z.bits_inj'. intros i Hi. rewrite Z.land_spec, Z.bits_0.
  destruct (Z.ltb_spec i 8).
  - by rewrite (Z.shiftl_spec_low _ _ i), andb_false_r by lia.
  - rewrite (Z.bits_above_log2 (u8 b)); [done|apply u8_range|].
    pose proof (u8_range b). destruct (Z.eq_dec (u8 b) 0) as [->|]; [cbn; lia|].
    apply Z.log2_lt_pow2; [lia|]. assert (2 ^ 8 <= 2 ^ i) by (apply Z.pow_le_mono_r; lia). lia.
Qed.

Lemma table_check (t : list Z) n :
  forallb (fun i => tbl t i =? Nat.iter n crc_bit i) (seqZ 0 256) = true ->
  forall i, 0 <= i < 256 -> tbl t i = Nat.iter n crc_bit i.
Proof.
  intros H i Hi. rewrite forallb_forall in H. apply Z.eqb_eq, H.
  apply list_elem_of_In, elem_of_seqZ. lia.
Qed.
Lemma TABLE0_spec i : 0 <= i < 256 -> tbl TABLE0 i = Nat.iter 8 crc_bit i.
Proof. apply table_check. vm_compute. reflexivity. Qed.
Lemma TABLE1_spec i : 0 <= i < 256 -> tbl TABLE1 i = Nat.iter 16 crc_bit i.
Proof. apply table_check. vm_compute. reflexivity. Qed.
Lemma TABLE2_spec i : 0 <= i < 256 -> tbl TABLE2 i = Nat.iter 24 crc_bit i.
Proof. apply table_check. vm_compute. reflexivity. Qed.
Lemma TABLE3_spec i : 0 <= i < 256 -> tbl TABLE3 i = Nat.iter 32 crc_bit i.
Proof. apply table_check. vm_compute. reflexivity. Qed.

(** ** The portable path computes the reference *)

Lemma land255 x : Z.land x 255 = x mod 2 ^ 8.
Proof. change 255 with (Z.ones 8). by apply Z.land_ones. Qed.

(** A value is its low [n] bits and the rest, xor-ed. *)
Lemma lxor_split x n : 0 <= n ->
  x = Z.lxor (Z.land x (Z.ones n)) (Z.shiftl (Z.shiftr x n) n).
Proof.
  intros. rewrite <- Z.ldiff_ones_r by done. rewrite Z.lxor_comm.
  rewrite Z.lxor_lor; [symmetry; apply Z.lor_ldiff_and|].
  apply Z.bits_inj'. intros i Hi. rewrite Z.land_spec, Z.ldiff_spec, Z.land_spec, Z.bits_0.
  by destruct (Z.testbit x i), (Z.testbit (Z.ones n) i).
Qed.

(** Peeling one byte off an [n]-bit division. *)
Lemma crc_iter_peel k x :
  Nat.iter (8 + k) crc_bit x
  = Z.lxor (Nat.iter (8 + k) crc_bit (Z.land x 255)) (Nat.iter k crc_bit (Z.shiftr x 8)).
Proof.
  rewrite (lxor_split x 8) at 1 by lia. rewrite crc_iter_lxor. change (Z.ones 8) with 255.
  f_equal. by apply (crc_iter_shiftl_ge 8).
Qed.

Lemma step4_word c : is_u32 c ->
  Z.lxor (Z.lxor (Z.lxor (tbl TABLE3 (Z.land c 0xff))
                         (tbl TABLE2 (Z.land (Z.shiftr c 8) 0xff)))
                 (tbl TABLE1 (Z.land (Z.shiftr c 16) 0xff)))
         (tbl TABLE0 (Z.shiftr c 24))
  = Nat.iter 32 crc_bit c.
Proof.
  intros Hc. rewrite TABLE3_spec, TABLE2_spec, TABLE1_spec
    by (rewrite land255; apply Z.mod_pos_bound; lia).
  rewrite TABLE0_spec by (unfold is_u32 in Hc; rewrite Z.shiftr_div_pow2 by lia; split;
    [apply Z.div_pos; lia|apply Z.div_lt_upper_bound; lia]).
  pose proof (crc_iter_peel 24 c) as E3.
  pose proof (crc_iter_peel 16 (Z.shiftr c 8)) as E2.
  pose proof (crc_iter_peel 8 (Z.shiftr c 16)) as E1.
  rewrite !Z.shiftr_shiftr in * by lia. cbn [Nat.add] in *.
  change (8 + 8) with 16 in *. change (16 + 8) with 24 in *.
  by rewrite E3, E2, E1, !Z.lxor_assoc.
Qed.

Lemma step4_fold crc pre a b c d post : is_u32 crc ->
  step4 crc (pre ++ [a; b; c; d] ++ post) (len pre) = fold_left crc_byte [a; b; c; d] crc.
Proof.
  intros Hc. rewrite fold_crc_word. unfold step4.
  assert (Hat : forall k, 0 <= k -> byte_at (pre ++ [a; b; c; d] ++ post) (len pre + k)
                         = u8 (nth (Z.to_nat k) ([a; b; c; d] ++ post) Byte.x00)).
  { intros k Hk. unfold byte_at, len. rewrite app_nth2 by lia. do 2 f_equal. lia. }
  cbn [map]. rewrite !Hat by lia. cbn [nth app Z.to_nat Pos.to_nat Pos.iter_op Nat.add].
  rewrite !as_u8_u8. rewrite step4_word; [done|].
  apply lxor_bound; [lia|done|]. exact (le_combine_bound [a; b; c; d]).
Qed.

Lemma split4 (data : bytes) off : 0 <= off -> off + 4 <= len data ->
  exists a b c d, data = ztake off data ++ [a; b; c; d] ++ zdrop (off + 4) data.
Proof.
  intros H0 H. assert (Hl : length (take 4 (zdrop off data)) = 4%nat).
  { rewrite length_take. unfold zdrop, len in *. rewrite length_drop. lia. }
  destruct (take 4 (zdrop off data)) as [|a [|b [|c [|d [|]]]]] eqn:E; try done.
  exists a, b, c, d. rewrite <- E, <- (ztake_zdrop off data) at 1. f_equal.
  rewrite <- (take_drop 4 (zdrop off data)) at 1. f_equal.
  unfold zdrop. rewrite drop_drop. f_equal. lia.
Qed.

Lemma step4_prefix (data : bytes) init off : is_u32 init -> 0 <= off -> off + 4 <= len data ->
  step4 (fold_left crc_byte (ztake off data) init) data off
  = fold_left crc_byte (ztake (off + 4) data) init.
Proof.
  intros Hi H0 H. destruct (split4 data off H0 H) as (a & b & c & d & E).
  assert (Hlen : len (ztake off data) = off) by (apply len_ztake; lia).
  replace (ztake (off + 4) data) with (ztake off data ++ [a; b; c; d]).
  - rewrite fold_left_app. rewrite E at 2. rewrite <- Hlen at 4.
    apply step4_fold. by apply fold_crc_u32.
  - rewrite E at 2. rewrite ztake_app_ge by lia. f_equal.
    rewrite Hlen. symmetry. rewrite ztake_app_le by (change (len [a; b; c; d]) with 4; lia).
    by replace (off + 4 - off) with 4 by lia.
Qed.

Lemma loop16_spec fuel data init off : is_u32 init -> 0 <= off <= len data ->
  exists off', off <= off' <= len data /\
    loop16 fuel data (fold_left crc_byte (ztake off data) init) off
    = (fold_left crc_byte (ztake off' data) init, off').
Proof.
  intros Hi. revert off. induction fuel as [|fuel IH]; intros off Ho; [exists off; split; [lia|done]|].
  cbn [loop16]. zcase; [|exists off; split; [lia|done]].
  replace (off + 16) with (off + 4 + 4 + 4 + 4) by lia.
  replace (off + 12) with (off + 4 + 4 + 4) by lia.
  replace (off + 8) with (off + 4 + 4) by lia. rewrite !step4_prefix by first [done|lia].
  replace (off + 4 + 4 + 4 + 4) with (off + 16) by lia.
  destruct (IH (off + 16) ltac:(lia)) as (off' & ? & E). exists off'. split; [lia|exact E].
Qed.

Lemma loop4_spec fuel data init off : is_u32 init -> 0 <= off <= len data ->
  exists off', off <= off' <= len data /\
    loop4 fuel data (fold_left crc_byte (ztake off data) init) off
    = (fold_left crc_byte (ztake off' data) init, off').
Proof.
  intros Hi. revert off. induction fuel as [|fuel IH]; intros off Ho; [exists off; split; [lia|done]|].
  cbn [loop4]. zcase; [|exists off; split; [lia|done]]. rewrite step4_prefix by first [done|lia].
  destruct (IH (off + 4) ltac:(lia)) as (off' & ? & E). exists off'. split; [lia|exact E].
Qed.

Lemma crc_byte_table c b : is_u32 c ->
  Z.lxor (tbl TABLE0 (Z.lxor (u8 (as_u8 c)) (u8 b))) (Z.shiftr c 8) = crc_byte c b.
Proof.
  intros Hc. pose proof (u8_range b) as Hb. unfold crc_byte.
  assert (Hx : Z.lxor (u8 (as_u8 c)) (u8 b) = Z.land (Z.lxor c (u8 b)) 255).
  { rewrite u8_as_u8, Z.land_comm. change 256 with (2 ^ 8). rewrite <- land255.
    rewrite (Z.land_comm c). apply Z.bits_inj'. intros i Hi.
    rewrite Z.lxor_spec, !Z.land_spec, Z.lxor_spec.
    destruct (Z.testbit 255 i) eqn:E; [done|]. cbn.
    change 255 with (Z.ones 8) in E. rewrite Z.testbit_ones_nonneg in E by lia.
    apply Z.ltb_ge in E. destruct (Z.eq_dec (u8 b) 0) as [->|]; [by rewrite Z.bits_0|].
    apply Z.bits_above_log2; [lia|]. apply Z.log2_lt_pow2; [lia|].
    assert (2 ^ 8 <= 2 ^ i) by (apply Z.pow_le_mono_r; lia). lia. }
  rewrite Hx, TABLE0_spec by (rewrite land255; apply Z.mod_pos_bound; lia).
  pose proof (crc_iter_peel 0 (Z.lxor c (u8 b))) as E.
  change (8 + 0)%nat with 8%nat in E. rewrite E. f_equal.
  change (Nat.iter 0 crc_bit (Z.shiftr (Z.lxor c (u8 b)) 8)) with (Z.shiftr (Z.lxor c (u8 b)) 8).
  rewrite Z.shiftr_lxor. replace (Z.shiftr (u8 b) 8) with 0; [by rewrite Z.lxor_0_r|].
  rewrite Z.shiftr_div_pow2 by lia. by rewrite Z.div_small by lia.
Qed.

Lemma loop1_spec fuel data init off : is_u32 init -> 0 <= off ->
  len data - off <= Z.of_nat fuel ->
  loop1 fuel data (fold_left crc_byte (ztake off data) init) off = fold_left crc_byte data init.
Proof.
  intros Hi. revert off. induction fuel as [|fuel IH]; intros off Ho Hf.
  { cbn [loop1]. by rewrite ztake_all by lia. }
  cbn [loop1]. zcase; [|by rewrite ztake_all by lia].
  unfold byte_at. rewrite crc_byte_table by by apply fold_crc_u32.
  replace (crc_byte _ _) with (fold_left crc_byte (ztake (off + 1) data) init).
  - apply IH; lia.
  - unfold ztake, len in *. replace (Z.to_nat (off + 1)) with (S (Z.to_nat off)) by lia.
    destruct (lookup_lt_is_Some_2 data (Z.to_nat off)) as [x Hx]; [lia|].
    rewrite (take_S_r _ _ _ Hx), fold_left_app. by rewrite (nth_lookup_Some _ _ _ _ Hx).
Qed.

Lemma ffffffff_u32 : is_u32 0xffffffff.
Proof. unfold is_u32. lia. Qed.

Lemma extend_software_ref init data : is_u32 init -> extend_software init data = crc_ref init data.
Proof.
  intros Hi. unfold extend_software, crc_ref.
  set (i := Z.lxor init 0xffffffff).
  assert (is_u32 i) by (apply lxor_bound; [lia|done|apply ffffffff_u32]).
  pose proof (len_nonneg data).
  destruct (loop16_spec (length data) data i 0) as (o1 & Ho1 & E1); [done|lia|].
  rewrite ztake_0 in E1. cbn [fold_left] in E1. rewrite E1.
  destruct (loop4_spec (length data) data i o1) as (o2 & Ho2 & E2); [done|lia|]. rewrite E2.
  rewrite loop1_spec; [done|done|lia|unfold len in *; lia].
Qed.

(** ** The hardware paths compute the reference *)

Lemma crc32c_insn_bytes n bs c : len bs = Z.of_nat n ->
  crc32c_insn n c (from_le_bytes bs) = fold_left crc_byte bs c.
Proof. unfold len, crc32c_insn. intros. rewrite split_le_combine' by lia. done. Qed.

Lemma chunks8_spec fuel data c :
  exists pre rem, data = pre ++ rem /\ chunks8 fuel data c = (fold_left crc_byte pre c, rem) /\
    (Z.of_nat fuel >= len data -> len rem < 8).
Proof.
  revert data c. induction fuel as [|fuel IH]; intros data c.
  { exists [], data. split; [done|]. split; [done|]. lia. }
  cbn [chunks8]. zcase; [by exists [], data|].
  rewrite crc32c_insn_bytes by (apply len_ztake; lia).
  destruct (IH (zdrop 8 data) (fold_left crc_byte (ztake 8 data) c)) as (pre & rem & E & Ec & Hl).
  exists (ztake 8 data ++ pre), rem. split; [by rewrite <- app_assoc, <- E, ztake_zdrop|].
  split; [by rewrite Ec, fold_left_app|]. intros Hf. apply Hl. rewrite len_zdrop by len_lia. lia.
Qed.

Lemma hw_take_spec (n : nat) c rem : len rem < 2 * Z.of_nat n ->
  exists pre suf, rem = pre ++ suf /\ len suf < Z.of_nat n /\
    (if Z.of_nat n <=? len rem
     then (crc32c_insn n c (from_le_bytes (ztake (Z.of_nat n) rem)), zdrop (Z.of_nat n) rem)
     else (c, rem)) = (fold_left crc_byte pre c, suf).
Proof.
  intros Hl. zcase; [|by exists [], rem].
  exists (ztake (Z.of_nat n) rem), (zdrop (Z.of_nat n) rem). rewrite ztake_zdrop.
  rewrite crc32c_insn_bytes by (apply len_ztake; lia). rewrite len_zdrop by lia. auto with lia.
Qed.

Lemma hw_tail_spec c rem : len rem < 8 -> hw_tail c rem = fold_left crc_byte rem c.
Proof.
  intros Hl. unfold hw_tail.
  destruct (hw_take_spec 4 c rem) as (p1 & s1 & -> & H1 & E1); [lia|].
  change (Z.of_nat 4) with 4 in *. rewrite E1.
  destruct (hw_take_spec 2 (fold_left crc_byte p1 c) s1) as (p2 & s2 & -> & H2 & E2); [lia|].
  change (Z.of_nat 2) with 2 in *. rewrite E2, !fold_left_app.
  destruct s2 as [|b [|]]; [done| |len_lia].
  rewrite <- (le_combine_1 b). by apply (crc32c_insn_bytes 1).
Qed.

Lemma extend_hw_aarch64_ref init data : extend_hw_aarch64 init data = crc_ref init data.
Proof.
  unfold extend_hw_aarch64, crc_ref.
  destruct (chunks8_spec (length data) data (Z.lxor init 0xffffffff)) as (pre & rem & -> & E & Hl).
  rewrite E, hw_tail_spec by (apply Hl; unfold len; lia). by rewrite fold_left_app.
Qed.

Lemma extend_hw_x86_64_ref init data : is_u32 init -> extend_hw_x86_64 init data = crc_ref init data.
Proof.
  intros Hi. unfold extend_hw_x86_64, crc_ref.
  assert (is_u32 (Z.lxor init 0xffffffff)) by (apply lxor_bound; [lia|done|apply ffffffff_u32]).
  destruct (chunks8_spec (length data) data (Z.lxor init 0xffffffff)) as (pre & rem & -> & E & Hl).
  rewrite E, as_u32_id by by apply fold_crc_u32.
  rewrite hw_tail_spec by (apply Hl; unfold len; lia). by rewrite fold_left_app.
Qed.

(** ** Consequences the rest of the library uses *)

Lemma crc_ref_u32 init data : is_u32 init -> is_u32 (crc_ref init data).
Proof.
  intros. apply lxor_bound; [lia| |apply ffffffff_u32].
  apply fold_crc_u32, lxor_bound; [lia|done|apply ffffffff_u32].
Qed.
Lemma extend_u32 init data : is_u32 init -> is_u32 (extend init data).
Proof. intros. unfold extend, extend_on. rewrite extend_software_ref by done. by apply crc_ref_u32. Qed.
Lemma value_u32 data : is_u32 (value data).
Proof. apply extend_u32. unfold is_u32. lia. Qed.
#[export] Hint Resolve extend_u32 value_u32 : pulse.

Lemma crc_ref_app init a b : crc_ref (crc_ref init a) b = crc_ref init (a ++ b).
Proof.
  unfold crc_ref. rewrite Z.lxor_assoc, Z.lxor_nilpotent, Z.lxor_0_r. by rewrite fold_left_app.
Qed.

Lemma extend_app init a b : is_u32 init -> extend (extend init a) b = extend init (a ++ b).
Proof.
  intros. unfold extend, extend_on. rewrite !extend_software_ref by
    first [done | rewrite extend_software_ref by done; by apply crc_ref_u32].
  apply crc_ref_app.
Qed.

(** ** Masking *)

Lemma rotate_right32_arith x n : 0 <= n <= 32 -> is_u32 x ->
  rotate_right32 x n = x / 2 ^ n + (x mod 2 ^ n) * 2 ^ (32 - n).
Proof.
  intros Hn Hx. unfold rotate_right32, as_u32.
  assert (E : Z.shiftl x (32 - n) mod 2 ^ 32 = (x mod 2 ^ n) * 2 ^ (32 - n)).
  { rewrite Z.shiftl_mul_pow2 by lia. replace (2 ^ 32) with (2 ^ n * 2 ^ (32 - n)).
    - apply Z.mul_mod_distr_r; apply Z.pow_nonzero; lia.
    - rewrite <- Z.pow_add_r by lia. f_equal. lia. }
  rewrite E, Z.or_to_plus; [by rewrite Z.shiftr_div_pow2 by lia|].
  rewrite <- Z.shiftl_mul_pow2 by lia. apply Z.bits_inj'. intros i Hi.
  rewrite Z.land_spec, Z.bits_0, Z.shiftr_spec by lia.
  destruct (Z.ltb_spec i (32 - n)); [by rewrite (Z.shiftl_spec_low _ _ i), andb_false_r by lia|].
  rewrite (Z.bits_above_log2 x); [done|unfold is_u32 in Hx; lia|].
  destruct (Z.eq_dec x 0) as [->|]; [cbn; lia|]. unfold is_u32 in Hx.
  assert (Z.log2 x < 32) by (apply Z.log2_lt_pow2; lia). lia.
Qed.

Lemma rotate_right32_u32 x n : 0 <= n <= 32 -> is_u32 x -> is_u32 (rotate_right32 x n).
Proof.
  intros Hn Hx. rewrite rotate_right32_arith by done. unfold is_u32 in *.
  assert (0 <= x mod 2 ^ n < 2 ^ n) by (apply Z.mod_pos_bound; lia).
  assert (Hp : 2 ^ 32 = 2 ^ n * 2 ^ (32 - n)) by (rewrite <- Z.pow_add_r by lia; f_equal; lia).
  assert (0 <= x / 2 ^ n < 2 ^ (32 - n)).
  { split; [apply Z.div_pos; lia|]. apply Z.div_lt_upper_bound; lia. }
  nia.
Qed.

Lemma rotate_right32_back x n : 0 <= n <= 32 -> is_u32 x ->
  rotate_right32 (rotate_right32 x n) (32 - n) = x.
Proof.
  intros Hn Hx. rewrite rotate_right32_arith by first [lia | by apply rotate_right32_u32].
  rewrite rotate_right32_arith by done. unfold is_u32 in *.
  assert (0 <= x mod 2 ^ n < 2 ^ n) by (apply Z.mod_pos_bound; lia).
  assert (Hp : 2 ^ 32 = 2 ^ n * 2 ^ (32 - n)) by (rewrite <- Z.pow_add_r by lia; f_equal; lia).
  assert (0 <= x / 2 ^ n < 2 ^ (32 - n)).
  { split; [apply Z.div_pos; lia|]. apply Z.div_lt_upper_bound; lia. }
  rewrite Z.div_add, Z_mod_plus_full by lia.
  rewrite (Z.div_small (x / 2 ^ n)), (Z.mod_small (x / 2 ^ n)) by lia.
  replace (32 - (32 - n)) with n by lia. pose proof (Z.div_mod x (2 ^ n)). lia.
Qed.

Lemma mask_u32 crc : is_u32 (mask crc).
Proof. apply as_u32_range. Qed.

Lemma unmask_mask crc : is_u32 crc -> unmask (mask crc) = crc.
Proof.
  intros Hc. unfold unmask, mask, as_u32. rewrite Zminus_mod_idemp_l.
  rewrite Z.add_simpl_r, Z.mod_small by by apply rotate_right32_u32.
  by apply (rotate_right32_back crc 15).
Qed.
#[export] Hint Resolve mask_u32 : pulse.

(** ** Claims *)

(** C32: (crc32c::extend) The portable slicing-by-four loop and both hardware paths compute
    the bitwise CRC-32C of the data, so the checksum does not depend on the machine; and
    checksumming in pieces is checksumming the concatenation. *)
Theorem crc32c_paths_agree cpu init a b : is_u32 init ->
  extend_on cpu init a = crc_ref init a /\
  extend_on cpu (extend_on cpu init a) b = extend_on cpu init (a ++ b) /\
  is_u32 (extend_on cpu init a).
Proof.
  assert (Href : forall i d, is_u32 i -> extend_on cpu i d = crc_ref i d).
  { intros i d Hi. destruct cpu; cbn;
      first [by apply extend_software_ref | apply extend_hw_aarch64_ref | by apply extend_hw_x86_64_ref]. }
  intros Hi. pose proof (crc_ref_u32 init a Hi). rewrite !Href by first [done | by rewrite Href].
  split; [done|]. split; [apply crc_ref_app|done].
Qed.

Lemma crc32c_paths_agree_witness :
  let a := list_byte_of_string "1234" in let b := list_byte_of_string "56789" in
  extend_on Portable 0 (a ++ b) = 0xe3069283 /\
  extend_on Portable 0 a = crc_ref 0 a /\
  extend_on Portable (extend_on Portable 0 a) b = extend_on Portable 0 (a ++ b) /\
  is_u32 (extend_on Portable 0 a).
Proof.
  intros a b. split; [vm_compute; reflexivity|]. apply crc32c_paths_agree. unfold is_u32. lia.
Defined.

(** Mask/unmask. Masking a checksum and unmasking it gives the checksum back, and the
    stored value fits in 32 bits. *)
Theorem crc_mask_roundtrip crc : is_u32 crc -> unmask (mask crc) = crc /\ is_u32 (mask crc).
Proof. intros Hc. split; [by apply unmask_mask|apply mask_u32]. Qed.

