(* ===== verification/Hash.v ===== *)
(** * Hash.v: [hash/hash.rs], the 32-bit mixer behind Bloom filters and cache
    sharding, with every wrapping operation written out. *)
From S2P Require Import Prelude Status Coding Crc32c.

Definition M : Z := 0xc6a4a793.
Definition R : Z := 24.

Definition wrapping_add (a b : Z) : Z := as_u32 (a + b).
Definition wrapping_mul (a b : Z) : Z := as_u32 (a * b).

(** One round of the [chunks_exact(4)] loop. *)
Definition hash_word (h word : Z) : Z :=
  let h := wrapping_add h word in
  let h := wrapping_mul h M in
  Z.lxor h (Z.shiftr h 16).

Fixpoint hash_chunks (fuel : nat) (data : bytes) (h : Z) : Z * bytes :=
  match fuel with
  | O => (h, data)
  | S fuel =>
      if len data <? 4 then (h, data)
      else hash_chunks fuel (zdrop 4 data) (hash_word h (from_le_bytes (ztake 4 data)))
  end.

(** The [match remainder.len()]. *)
Definition hash_tail (h : Z) (remainder : bytes) : Z :=
  let finish h := let h := wrapping_mul h M in Z.lxor h (Z.shiftr h R) in
  match remainder with
  | [r0; r1; r2] =>
      let h := wrapping_add h (Z.shiftl (u8 r2) 16) in
      let h := wrapping_add h (Z.shiftl (u8 r1) 8) in
      let h := wrapping_add h (u8 r0) in finish h
  | [r0; r1] =>
      let h := wrapping_add h (Z.shiftl (u8 r1) 8) in
      let h := wrapping_add h (u8 r0) in finish h
  | [r0] => let h := wrapping_add h (u8 r0) in finish h
  | _ => h
  end.

Definition hash (data : bytes) (seed : Z) : Z :=
  let h := Z.lxor seed (wrapping_mul (as_u32 (len data)) M) in
  let '(h, remainder) := hash_chunks (length data) data h in
  hash_tail h remainder.

Lemma mix_u32 h n : 0 <= n -> is_u32 h -> is_u32 (Z.lxor h (Z.shiftr h n)).
Proof.
  unfold is_u32. intros ? Hh. apply lxor_bound; [lia|done|].
  rewrite Z.shiftr_div_pow2 by lia. split; [apply Z.div_pos; lia|].
  apply Z.div_lt_upper_bound; [lia|]. assert (0 < 2 ^ n) by lia. nia.
Qed.

Lemma hash_chunks_u32 fuel data h : is_u32 h -> is_u32 (hash_chunks fuel data h).1.
Proof.
  revert data h. induction fuel as [|fuel IH]; intros data h Hh; [done|].
  cbn [hash_chunks]. zcase; [done|]. apply IH, mix_u32; [lia|apply as_u32_range].
Qed.

Lemma hash_u32 data seed : is_u32 seed -> is_u32 (hash data seed).
Proof.
  intros Hs. unfold hash.
  assert (Hh : is_u32 (Z.lxor seed (wrapping_mul (as_u32 (len data)) M)))
    by (apply lxor_bound; [lia|done|apply as_u32_range]).
  pose proof (hash_chunks_u32 (length data) data _ Hh) as Hc.
  destruct (hash_chunks _ _ _) as [h rem]. cbn [fst] in Hc. unfold hash_tail.
  do 4 (destruct rem as [|? rem]; [first [exact Hc | apply mix_u32; [unfold R; lia|apply as_u32_range]]|]).
  exact Hc.
Qed.
