(* ===== verification/Comparator.v ===== *)
(** * Comparator.v: [comparator/comparator.rs].

    The trait [Comparator], the laws its documentation asks of an implementation
    (the interface the rest of the library is proved against), and
    [BytewiseComparator] with those laws discharged. *)
From S2P Require Import Prelude Status.

(** ** The trait *)

(** A method may panic, so [compare] and the separator hints return outcomes; the
    hints return the new contents of the key they edit in place. *)
Class Comparator (C : Type) := {
  cmp_name : C -> string;
  compare : C -> bytes -> bytes -> outcome comparison;
  find_shortest_separator : C -> bytes -> bytes -> outcome bytes;
  find_short_successor : C -> bytes -> outcome bytes;
}.

#[export] Instance comparison_eq_dec : EqDecision comparison.
Proof. solve_decision. Defined.

Definition is_lt (o : comparison) : bool := match o with Lt => true | _ => false end.
Definition is_gt (o : comparison) : bool := match o with Gt => true | _ => false end.
Definition is_eq (o : comparison) : bool := match o with Eq => true | _ => false end.
Definition is_le (o : comparison) : bool := match o with Gt => false | _ => true end.
Definition is_ge (o : comparison) : bool := match o with Lt => false | _ => true end.

(** ** Total preorders *)

Class TotalOrd {K} (ord : K -> K -> comparison) : Prop := {
  ord_opp a b : ord b a = CompOpp (ord a b);
  ord_le_trans a b c : ord a b <> Gt -> ord b c <> Gt -> ord a c <> Gt;
}.

Section TotalOrd.
Context {K} {ord : K -> K -> comparison} `{!TotalOrd ord}.

Lemma ord_refl a : ord a a = Eq.
Proof. pose proof (ord_opp (ord:=ord) a a) as H. by destruct (ord a a). Qed.
Lemma ord_gt_lt a b : ord a b = Gt <-> ord b a = Lt.
Proof. rewrite (ord_opp (ord:=ord) a b). by destruct (ord a b). Qed.
Lemma ord_eq_sym a b : ord a b = Eq <-> ord b a = Eq.
Proof. rewrite (ord_opp (ord:=ord) a b). by destruct (ord a b). Qed.
Lemma ord_lt_le_trans a b c : ord a b = Lt -> ord b c <> Gt -> ord a c = Lt.
Proof.
  intros H1 H2. destruct (ord a c) eqn:E; [|done|].
  - apply ord_eq_sym in E. exfalso.
    refine (ord_le_trans b c a H2 _ _); [by rewrite E|]. by apply ord_gt_lt.
  - exfalso. by refine (ord_le_trans a b c _ H2 E); rewrite H1.
Qed.
Lemma ord_le_lt_trans a b c : ord a b <> Gt -> ord b c = Lt -> ord a c = Lt.
Proof.
  intros H1 H2. destruct (ord a c) eqn:E; [|done|].
  - apply ord_eq_sym in E. exfalso.
    refine (ord_le_trans c a b _ H1 _); [by rewrite E|]. by apply ord_gt_lt.
  - exfalso. by refine (ord_le_trans a b c H1 _ E); rewrite H2.
Qed.
Lemma ord_lt_trans a b c : ord a b = Lt -> ord b c = Lt -> ord a c = Lt.
Proof. intros H1 H2. apply (ord_lt_le_trans a b c); [done|by rewrite H2]. Qed.
Lemma ord_eq_trans a b c : ord a b = Eq -> ord b c = Eq -> ord a c = Eq.
Proof.
  intros H1 H2. destruct (ord a c) eqn:E; [done| |].
  - apply ord_eq_sym in H1. rewrite (ord_le_lt_trans b a c) in H2; [done|by rewrite H1|done].
  - apply ord_gt_lt in E. apply ord_eq_sym in H2.
    pose proof (ord_le_lt_trans b c a) as Hx. apply ord_eq_sym in H1. rewrite Hx in H1; [done| |done].
    apply ord_eq_sym in H2. by rewrite H2.
Qed.
Lemma ord_not_lt a b : ord a b <> Lt <-> ord b a <> Gt.
Proof. rewrite (ord_opp (ord:=ord) a b). by destruct (ord a b). Qed.
Lemma ord_eq_l a b c : ord a b = Eq -> ord a c = ord b c.
Proof.
  intros H. destruct (ord b c) eqn:E.
  - by apply (ord_eq_trans a b c).
  - apply (ord_le_lt_trans a b c); [by rewrite H|done].
  - apply ord_gt_lt. apply ord_gt_lt in E. apply (ord_lt_le_trans c b a); [done|].
    apply ord_eq_sym in H. by rewrite H.
Qed.
End TotalOrd.

(** ** What a comparator promises *)

(** On the keys it accepts, a comparator does not panic, decides a total order
    [ord], and its hints stay inside the interval they are given. *)
Class ComparatorLaws {C} `{Comparator C} (c : C) (key_ok : bytes -> Prop)
    (ord : bytes -> bytes -> comparison) : Prop := {
  laws_ord :: TotalOrd ord;
  compare_ord a b : key_ok a -> key_ok b -> compare c a b = Ret (ord a b);
  separator_law a b : key_ok a -> key_ok b -> ord a b <> Gt ->
    exists s, find_shortest_separator c a b = Ret s /\ key_ok s /\
      ord a s <> Gt /\ (ord a b = Lt -> ord s b = Lt) /\ (ord a b = Eq -> ord a s = Eq);
  successor_law a : key_ok a ->
    exists s, find_short_successor c a = Ret s /\ key_ok s /\ ord a s <> Gt;
}.

(** What a table's index relies on to stay small: the hints do not lengthen the key. *)
Class ShortHints {C} `{Comparator C} (c : C) : Prop := {
  separator_short a b s : find_shortest_separator c a b = Ret s -> len s <= len a;
  successor_short a s : find_short_successor c a = Ret s -> len s <= len a;
}.

(** ** [BytewiseComparator] *)

(** [a.cmp(b)] on byte slices. *)
Fixpoint bytes_cmp (a b : bytes) : comparison :=
  match a, b with
  | [], [] => Eq
  | [], _ :: _ => Lt
  | _ :: _, [] => Gt
  | x :: a, y :: b =>
      match Z.compare (u8 x) (u8 y) with Eq => bytes_cmp a b | o => o end
  end.

(** [while i < min_len && a[i] == b[i] { i += 1 }], entered with [i <= min_len]. *)
Fixpoint match_loop (fuel : nat) (a b : bytes) (min_len i : Z) : Z :=
  match fuel with
  | O => i
  | S fuel =>
      if (i <? min_len) && bool_decide (a !! Z.to_nat i = b !! Z.to_nat i)
      then match_loop fuel a b min_len (i + 1) else i
  end.
Definition match_len (a b : bytes) : Z :=
  match_loop (length a) a b (Z.min (len a) (len b)) 0.

Inductive BytewiseComparator := Bytewise.

Module BytewiseImpl.
(** The two bytes are read under [diff_index < min_len]. *)
Definition find_shortest_separator (start limit : bytes) : bytes :=
  let min_len := Z.min (len start) (len limit) in
  let diff_index := match_len start limit in
  if diff_index <? min_len then
    let diff_byte := u8 (nth (Z.to_nat diff_index) start Byte.x00) in
    if (diff_byte <? 0xff) && (diff_byte + 1 <? u8 (nth (Z.to_nat diff_index) limit Byte.x00))
    then ztake (diff_index + 1) (<[Z.to_nat diff_index := as_u8 (diff_byte + 1)]> start)
    else start
  else start.

(** The [for index in 0..key.len()] loop, stopping at the first byte that is not
    [0xff]: that byte is incremented and the key cut after it. *)
Fixpoint find_short_successor (key : bytes) : bytes :=
  match key with
  | [] => []
  | b :: rest => if negb (u8 b =? 0xff) then [as_u8 (u8 b + 1)] else b :: find_short_successor rest
  end.
End BytewiseImpl.

#[export] Instance Bytewise_Comparator : Comparator BytewiseComparator := {|
  cmp_name _ := "pulsearc-db.BytewiseComparator";
  compare _ a b := Ret (bytes_cmp a b);
  find_shortest_separator _ start limit := Ret (BytewiseImpl.find_shortest_separator start limit);
  find_short_successor _ key := Ret (BytewiseImpl.find_short_successor key);
|}.

Lemma u8_inj a b : u8 a = u8 b -> a = b.
Proof. apply byte.unsigned_inj. Qed.

Lemma bytes_cmp_refl a : bytes_cmp a a = Eq.
Proof. induction a as [|x a IH]; [done|]. cbn. by rewrite Z.compare_refl. Qed.

Lemma bytes_cmp_eq a b : bytes_cmp a b = Eq <-> a = b.
Proof.
  split; [|intros ->; apply bytes_cmp_refl].
  revert b. induction a as [|x a IH]; intros [|y b]; cbn; try done.
  destruct (Z.compare_spec (u8 x) (u8 y)) as [E| |]; try done.
  intros H. apply u8_inj in E. by rewrite E, (IH b).
Qed.

#[export] Instance bytes_cmp_ord : TotalOrd bytes_cmp.
Proof.
  split.
  - induction a as [|x a IH]; intros [|y b]; cbn; try done.
    rewrite (Z.compare_antisym (u8 x) (u8 y)). destruct (u8 x ?= u8 y); cbn; try done.
  - induction a as [|x a IH]; intros [|y b] [|z c]; cbn; try done.
    destruct (Z.compare_spec (u8 x) (u8 y)), (Z.compare_spec (u8 y) (u8 z)),
      (Z.compare_spec (u8 x) (u8 z)); try done; try lia. by apply IH.
Qed.

Lemma bytes_cmp_app p a b : bytes_cmp (p ++ a) (p ++ b) = bytes_cmp a b.
Proof. induction p as [|x p IH]; [done|]. cbn. by rewrite Z.compare_refl. Qed.

Lemma bytes_cmp_prefix p b : bytes_cmp p (p ++ b) <> Gt.
Proof. induction p as [|x p IH]; [by destruct b|]. cbn. by rewrite Z.compare_refl. Qed.

(** The loop stops at the first difference: both keys split there. *)
Lemma match_loop_spec fuel p a b :
  exists q a' b', a = q ++ a' /\ b = q ++ b' /\
    match_loop fuel (p ++ a) (p ++ b) (Z.min (len (p ++ a)) (len (p ++ b))) (len p) = len p + len q /\
    ((length a <= fuel)%nat -> match a', b' with x :: _, y :: _ => x <> y | _, _ => True end).
Proof.
  revert p a b. induction fuel as [|fuel IH]; intros p a b.
  { exists [], a, b. split; [done|]. split; [done|]. split; [cbn; len_lia|].
    destruct a; [done|cbn; lia]. }
  cbn [match_loop]. destruct a as [|x a], b as [|y b].
  1,2,3: exists []; eexists _, _; split; [done|]; split; [done|]; split; [|done];
    rewrite (proj2 (Z.ltb_ge _ _)) by len_lia; cbn; len_lia.
  rewrite (proj2 (Z.ltb_lt _ _)) by len_lia.
  rewrite !lookup_app_r by (unfold len; lia).
  replace (Z.to_nat (len p) - length p)%nat with 0%nat by (unfold len; lia). cbn [lookup list_lookup].
  destruct (decide (x = y)) as [->|Hne].
  - rewrite bool_decide_eq_true_2 by done. cbn [andb].
    destruct (IH (p ++ [y]) a b) as (q & a' & b' & -> & -> & E & Hd).
    exists (y :: q), a', b'. split; [done|]. split; [done|]. split.
    + rewrite <- !app_assoc in E. cbn [app] in E.
      replace (len p + 1) with (len (p ++ [y])) by len_lia. rewrite E. len_lia.
    + cbn [length]. intros. apply Hd. lia.
  - rewrite bool_decide_eq_false_2 by congruence. cbn [andb].
    exists [], (x :: a), (y :: b). split; [done|]. split; [done|]. split; [len_lia|done].
Qed.

Lemma match_len_spec a b : exists q a' b', a = q ++ a' /\ b = q ++ b' /\ match_len a b = len q /\
  match a', b' with x :: _, y :: _ => x <> y | _, _ => True end.
Proof.
  destruct (match_loop_spec (length a) [] a b) as (q & a' & b' & Ha & Hb & E & Hd).
  exists q, a', b'. split; [done|]. split; [done|]. split; [exact E|]. by apply Hd.
Qed.

Lemma bytewise_separator_cases start limit s :
  s = BytewiseImpl.find_shortest_separator start limit ->
  s = start \/
  (exists q x y ra rb, start = q ++ x :: ra /\ limit = q ++ y :: rb /\
     u8 x + 1 < u8 y /\ s = q ++ [as_u8 (u8 x + 1)]).
Proof.
  intros Hs. unfold BytewiseImpl.find_shortest_separator in Hs.
  destruct (match_len_spec start limit) as (q & a' & b' & -> & -> & E & Hd). rewrite E in Hs.
  destruct (Z.ltb_spec (len q) (Z.min (len (q ++ a')) (len (q ++ b')))); [|by left].
  destruct a' as [|x ra]; [len_lia|]. destruct b' as [|y rb]; [len_lia|].
  unfold len in Hs. rewrite Nat2Z.id, !app_nth2, Nat.sub_diag in Hs by lia. cbn [nth] in Hs.
  destruct (_ && _) eqn:Eb in Hs; [|by left]. right.
  apply andb_prop in Eb as [E1%Z.ltb_lt E2%Z.ltb_lt].
  exists q, x, y, ra, rb. split; [done|]. split; [done|]. split; [done|]. subst s.
  rewrite insert_app_r_alt, Nat.sub_diag by lia. cbn [insert list_insert].
  unfold ztake. replace (Z.to_nat (Z.of_nat (length q) + 1)) with (length q + 1)%nat by lia.
  by rewrite take_app_add.
Qed.

Lemma bytewise_successor_spec key : bytes_cmp key (BytewiseImpl.find_short_successor key) <> Gt.
Proof.
  induction key as [|b rest IH]; [done|]. cbn.
  destruct (Z.eqb_spec (u8 b) 255) as [E|E]; cbn [negb bytes_cmp].
  - by rewrite Z.compare_refl.
  - pose proof (u8_range b). rewrite u8_as_u8_id by (unfold is_u8; lia).
    rewrite (proj2 (Z.compare_lt_iff _ _)) by lia. done.
Qed.

#[export] Instance Bytewise_Laws : ComparatorLaws Bytewise (fun _ => True) bytes_cmp.
Proof.
  split; [apply _|done| |].
  - intros a b _ _ Hab. eexists. split; [done|]. split; [done|].
    destruct (bytewise_separator_cases a b _ eq_refl)
      as [->|(q & x & y & ra & rb & -> & -> & Hxy & ->)].
    + rewrite bytes_cmp_refl. auto.
    + pose proof (u8_range x). pose proof (u8_range y).
      rewrite !bytes_cmp_app. cbn. rewrite u8_as_u8_id by (unfold is_u8; lia).
      rewrite (proj2 (Z.compare_lt_iff (u8 x) (u8 x + 1))) by lia.
      rewrite (proj2 (Z.compare_lt_iff (u8 x + 1) (u8 y))) by lia.
      rewrite (proj2 (Z.compare_lt_iff (u8 x) (u8 y))) by lia. auto.
  - intros a _. eexists. split; [done|]. split; [done|]. apply bytewise_successor_spec.
Qed.

#[export] Instance Bytewise_ShortHints : ShortHints Bytewise.
Proof.
  split.
  - intros a b s [= <-]. destruct (bytewise_separator_cases a b _ eq_refl) as [->|(q & x & y & ra & rb & -> & _ & _ & ->)]; [lia|].
    rewrite !len_app, !len_cons. pose proof (len_nonneg ra). rewrite len_nil. lia.
  - intros a s [= <-]. induction a as [|x a IH]; cbn; [lia|]. destruct (negb _); rewrite !len_cons; [|lia].
    rewrite len_nil. pose proof (len_nonneg a). lia.
Qed.

(** ** Claims *)

(** BytewiseComparator. The separator of [start < limit] lies in [start, limit) and is
    no longer than [start]; the successor is not below the key and no longer than it; so
    [BytewiseComparator] keeps every law the rest of the library relies on. *)
Theorem bytewise_hints start limit key : bytes_cmp start limit = Lt ->
  let s := BytewiseImpl.find_shortest_separator start limit in
  let k := BytewiseImpl.find_short_successor key in
  bytes_cmp start s <> Gt /\ bytes_cmp s limit = Lt /\ len s <= len start /\
  bytes_cmp key k <> Gt /\ len k <= len key /\
  ComparatorLaws Bytewise (fun _ => True) bytes_cmp.
Proof.
  intros Hlt s k. pose proof (separator_law (c:=Bytewise) start limit I I) as Hsep.
  destruct Hsep as (s' & Hs' & _ & H1 & H2 & _); [by rewrite Hlt|].
  cbn in Hs'. simplify_eq. split_and!; [done|by apply H2| | | |apply _].
  - unfold s. destruct (bytewise_separator_cases start limit _ eq_refl)
      as [->|(q & x & y & ra & rb & E & _ & _ & ->)]; [done|]. rewrite E. len_lia.
  - apply bytewise_successor_spec.
  - unfold k. clear. induction key as [|b key IH]; [done|]. cbn.
    destruct (negb _); len_lia.
Qed.

