(* ===== verification/Format.v ===== *)
(** * Format.v: [format/dbformat.rs] and [format/internal_key.rs].

    Internal keys ([user_key || (sequence << 8 | type)]), their encoding and
    parsing, lookup keys, and [InternalKeyComparator], which inherits the
    comparator interface from the user comparator it wraps. *)
From S2P Require Import Prelude Status Coding Comparator.
From coqutil Require Import Z.bitblast.

(** ** Level-set constants *)

Definition NUM_LEVELS : Z := 7.
Definition L0_COMPACTION_TRIGGER : Z := 4.
Definition L0_SLOWDOWN_WRITES_TRIGGER : Z := 8.
Definition L0_STOP_WRITES_TRIGGER : Z := 12.
Definition MAX_MEM_COMPACT_LEVEL : Z := 2.
Definition READ_BYTES_PERIOD : Z := 1048576.
Definition MAX_SEQUENCE_NUMBER : Z := 2 ^ 56 - 1.

(** ** Value types and tags *)

Inductive ValueType := Deletion | Value.
#[export] Instance ValueType_eq_dec : EqDecision ValueType.
Proof. solve_decision. Defined.

Definition value_type_u8 (t : ValueType) : Z := match t with Deletion => 0 | Value => 1 end.
Definition VALUE_TYPE_FOR_SEEK : ValueType := Value.

Definition value_type_from_tag (tag : Z) : option ValueType :=
  if tag =? 0 then Some Deletion else if tag =? 1 then Some Value else None.

Definition pack_sequence_and_type (sequence : Z) (value_type : ValueType) : outcome Z :=
  _ ← assert (sequence <=? MAX_SEQUENCE_NUMBER);
  Ret (Z.lor (Z.shiftl sequence 8) (value_type_u8 value_type)).

(** ** Parsed and encoded internal keys *)

Record ParsedInternalKey := mk_parsed {
  user_key : bytes;
  sequence : Z;
  value_type : ValueType;
}.

Definition encoding_len (k : ParsedInternalKey) : Z := len (user_key k) + 8.
Definition internal_key_encoding_len (k : ParsedInternalKey) : Z := encoding_len k.

Definition append_internal_key (dst : bytes) (k : ParsedInternalKey) : outcome bytes :=
  tag ← pack_sequence_and_type (sequence k) (value_type k);
  Ret (put_fixed64 (dst ++ user_key k) tag).

(** The last eight bytes, as the parsers read them. *)
Definition read_tag (internal_key : bytes) : outcome Z :=
  start ← usub (len internal_key) 8;
  tail ← slice_from internal_key start;
  decode_fixed64 tail.

Definition parse_internal_key (internal_key : bytes) : outcome (option ParsedInternalKey) :=
  if len internal_key <? 8 then Ret None else
  tag ← read_tag internal_key;
  match value_type_from_tag (Z.land tag 0xff) with
  | None => Ret None
  | Some ty =>
      uk ← slice_to internal_key (len internal_key - 8);
      Ret (Some (mk_parsed uk (Z.shiftr tag 8) ty))
  end.

Definition extract_user_key (internal_key : bytes) : option bytes :=
  if len internal_key <? 8 then None else Some (ztake (len internal_key - 8) internal_key).

Definition extract_value_type (internal_key : bytes) : outcome (option ValueType) :=
  if len internal_key <? 8 then Ret None else
  tag ← read_tag internal_key; Ret (value_type_from_tag (Z.land tag 0xff)).

Definition required_user_key (internal_key : bytes) : outcome bytes :=
  expect (extract_user_key internal_key).

(** [InternalKey] of dbformat.rs: an owned encoded key. *)
Module InternalKey.
Record t := mk { rep : bytes }.
Definition new (uk : bytes) (seq : Z) (ty : ValueType) : outcome t :=
  mk <$> append_internal_key [] (mk_parsed uk seq ty).
Definition decode_from (_ : t) (encoded : bytes) : t := mk encoded.
Definition encode (k : t) : outcome bytes :=
  _ ← assert (negb (bool_decide (rep k = []))); Ret (rep k).
Definition user_key (k : t) : outcome bytes := expect (extract_user_key (rep k)).
Definition clear (_ : t) : t := mk [].
Definition is_empty (k : t) : bool := bool_decide (rep k = []).
End InternalKey.

(** [InternalKey] of internal_key.rs: a decoded key with its raw tag. *)
Module RawInternalKey.
Record t := mk { user_key : bytes; tag : Z }.
Definition encode (k : t) (dst : bytes) : bytes := put_fixed64 (dst ++ user_key k) (tag k).
Definition decode_from : reader t := fun input =>
  if len input <? 8 then (Fail (Stat.corruption "InternalKey: too short"), input)
  else
    let n := len input - 8 in
    (tag ← need get_fixed64 "InternalKey: missing tag";
     mret (mk (ztake n input) tag)) (zdrop n input).
End RawInternalKey.

(** ** [LookupKey] *)

Record LookupKey := mk_lookup { lk_rep : bytes; kstart : Z }.

Definition LookupKey_new (uk : bytes) (seq : Z) : outcome LookupKey :=
  let rep := put_varint32 [] (as_u32 (len uk + 8)) in
  let kstart := len rep in
  tag ← pack_sequence_and_type seq VALUE_TYPE_FOR_SEEK;
  Ret (mk_lookup (put_fixed64 (rep ++ uk) tag) kstart).

Definition memtable_key (k : LookupKey) : bytes := lk_rep k.
Definition internal_key (k : LookupKey) : outcome bytes := slice_from (lk_rep k) (kstart k).
Definition lookup_user_key (k : LookupKey) : outcome bytes :=
  e ← usub (len (lk_rep k)) 8; slice (lk_rep k) (kstart k) e.

(** ** [InternalKeyComparator] *)

Record InternalKeyComparator (C : Type) := mk_icmp { user_comparator : C }.
Arguments mk_icmp {C} _.
Arguments user_comparator {C} _.

Section InternalKeyComparator.
Context {C : Type} `{Comparator C}.
Implicit Types self : InternalKeyComparator C.

Definition name_inherent self : string := "pulsearc-db.InternalKeyComparator".

Definition ik_compare self (a b : bytes) : outcome comparison :=
  ua ← required_user_key a;
  ub ← required_user_key b;
  user_order ← compare (user_comparator self) ua ub;
  if negb (is_eq user_order) then Ret user_order else
  anum ← read_tag a;
  bnum ← read_tag b;
  Ret (Z.compare bnum anum).

(** The new contents of [start]; the [debug_assert!]s of the code are theorems
    here ([InternalKey_Laws]). *)
Definition ik_find_shortest_separator self (start limit : bytes) : outcome bytes :=
  user_start ← required_user_key start;
  user_limit ← required_user_key limit;
  tmp ← find_shortest_separator (user_comparator self) user_start user_limit;
  if len tmp <? len user_start then
    o ← compare (user_comparator self) user_start tmp;
    if is_lt o then
      tag ← pack_sequence_and_type MAX_SEQUENCE_NUMBER VALUE_TYPE_FOR_SEEK;
      Ret (put_fixed64 tmp tag)
    else Ret start
  else Ret start.

Definition ik_find_short_successor self (key : bytes) : outcome bytes :=
  user_key ← required_user_key key;
  tmp ← find_short_successor (user_comparator self) user_key;
  if len tmp <? len user_key then
    o ← compare (user_comparator self) user_key tmp;
    if is_lt o then
      tag ← pack_sequence_and_type MAX_SEQUENCE_NUMBER VALUE_TYPE_FOR_SEEK;
      Ret (put_fixed64 tmp tag)
    else Ret key
  else Ret key.

#[export] Instance InternalKey_Comparator : Comparator (InternalKeyComparator C) := {|
  cmp_name := name_inherent;
  compare := ik_compare;
  find_shortest_separator := ik_find_shortest_separator;
  find_short_successor := ik_find_short_successor;
|}.
End InternalKeyComparator.

(** ** Specifications *)

(** The two halves of an internal key of at least eight bytes. *)
Definition ukey (k : bytes) : bytes := ztake (len k - 8) k.
Definition utag (k : bytes) : Z := from_le_bytes (zdrop (len k - 8) k).
Definition ik_ok (k : bytes) : Prop := 8 <= len k.

Definition mk_ikey (uk : bytes) (tag : Z) : bytes := uk ++ to_le_bytes 8 tag.
Definition mk_tag (seq : Z) (ty : ValueType) : Z := seq * 256 + value_type_u8 ty.

(** User keys ascending, then tags descending: the newest version first. *)
Definition ik_ord (ord : bytes -> bytes -> comparison) (a b : bytes) : comparison :=
  match ord (ukey a) (ukey b) with Eq => Z.compare (utag b) (utag a) | o => o end.

Lemma ukey_mk uk tag : ukey (mk_ikey uk tag) = uk.
Proof. unfold ukey, mk_ikey. apply ztake_app_len. len_lia. Qed.
Lemma utag_mk uk tag : is_u64 tag -> utag (mk_ikey uk tag) = tag.
Proof.
  intros. unfold utag, mk_ikey. rewrite zdrop_app_len by len_lia. by apply le_combine_split_id.
Qed.
Lemma ik_ok_mk uk tag : ik_ok (mk_ikey uk tag).
Proof. unfold ik_ok, mk_ikey. len_lia. Qed.
Lemma ikey_eta k : ik_ok k -> k = mk_ikey (ukey k) (utag k).
Proof.
  unfold ik_ok, mk_ikey, ukey, utag. intros.
  rewrite le_split_combine_id by (rewrite len_zdrop; len_lia). by rewrite ztake_zdrop.
Qed.
Lemma utag_u64 k : ik_ok k -> is_u64 (utag k).
Proof.
  unfold ik_ok, utag. intros. pose proof (le_combine_range (zdrop (len k - 8) k)) as Hr.
  rewrite len_zdrop in Hr by len_lia. replace (8 * (len k - (len k - 8))) with 64 in Hr by lia.
  exact Hr.
Qed.

Lemma required_user_key_ok k : ik_ok k -> required_user_key k = Ret (ukey k).
Proof.
  unfold ik_ok, required_user_key, extract_user_key. intros.
  by rewrite (proj2 (Z.ltb_ge _ _)).
Qed.
Lemma read_tag_ok k : ik_ok k -> read_tag k = Ret (utag k).
Proof.
  intros Hk. unfold read_tag, usub. rewrite (proj2 (Z.leb_le _ _)) by done. cbn [mbind outcome_bind user_comparator].
  rewrite <- (ztake_zdrop (len k - 8) k) at 1.
  rewrite slice_from_app by (rewrite len_ztake; unfold ik_ok in Hk; len_lia).
  cbn [mbind outcome_bind user_comparator]. rewrite <- (le_split_combine_id 8 (zdrop _ _)) by
    (rewrite len_zdrop; unfold ik_ok in Hk; len_lia).
  apply decode_fixed64_le. by apply utag_u64.
Qed.

Lemma lor_tag seq ty : Z.lor (Z.shiftl seq 8) (value_type_u8 ty) = mk_tag seq ty.
Proof.
  rewrite Z.or_to_plus; [unfold mk_tag; rewrite Z.shiftl_mul_pow2; lia|].
  apply Z.bits_inj'. intros i Hi. rewrite Z.land_spec, Z.bits_0.
  destruct (Z.ltb_spec i 8); [by rewrite Z.shiftl_spec_low by lia|].
  destruct ty; cbn; [by rewrite Z.bits_0, andb_false_r|].
  rewrite (Z.bits_above_log2 1); [apply andb_false_r|lia|cbn; lia].
Qed.

Lemma pack_ok seq ty : seq <= MAX_SEQUENCE_NUMBER -> pack_sequence_and_type seq ty = Ret (mk_tag seq ty).
Proof.
  intros. unfold pack_sequence_and_type, assert. rewrite (proj2 (Z.leb_le _ _)) by done.
  cbn. by rewrite lor_tag.
Qed.

Lemma mk_tag_u64 seq ty : 0 <= seq <= MAX_SEQUENCE_NUMBER -> is_u64 (mk_tag seq ty).
Proof. unfold MAX_SEQUENCE_NUMBER, is_u64, mk_tag. destruct ty; cbn; lia. Qed.
Lemma mk_tag_type seq ty : Z.land (mk_tag seq ty) 255 = value_type_u8 ty.
Proof.
  change 255 with (Z.ones 8). rewrite Z.land_ones by lia. unfold mk_tag.
  rewrite Z.add_comm, Z.mul_comm, (Z.mul_comm 256). change 256 with (2 ^ 8).
  rewrite Z_mod_plus_full. destruct ty; reflexivity.
Qed.
Lemma mk_tag_seq seq ty : Z.shiftr (mk_tag seq ty) 8 = seq.
Proof.
  rewrite Z.shiftr_div_pow2 by lia. unfold mk_tag. change (2 ^ 8) with 256.
  rewrite Z.div_add_l by lia. destruct ty; cbn -[Z.div]; [change (0 / 256) with 0|change (1 / 256) with 0]; lia.
Qed.
Lemma value_type_tag ty : value_type_from_tag (value_type_u8 ty) = Some ty.
Proof. by destruct ty. Qed.

Lemma append_internal_key_ok dst k : sequence k <= MAX_SEQUENCE_NUMBER ->
  append_internal_key dst k = Ret (dst ++ mk_ikey (user_key k) (mk_tag (sequence k) (value_type k))).
Proof.
  intros. unfold append_internal_key. rewrite pack_ok by done. cbn. unfold put_fixed64, mk_ikey.
  by rewrite <- app_assoc.
Qed.

(** Parsing, completely: short keys and unknown types give [None], nothing panics. *)
Lemma parse_internal_key_spec k :
  parse_internal_key k =
  if len k <? 8 then Ret None else
  Ret (ty ← value_type_from_tag (Z.land (utag k) 255);
       Some (mk_parsed (ukey k) (Z.shiftr (utag k) 8) ty)).
Proof.
  unfold parse_internal_key. zcase; [done|].
  rewrite read_tag_ok by (unfold ik_ok; lia). cbn.
  destruct (value_type_from_tag _); cbn; [|done].
  unfold slice_to. rewrite slice_ok by len_lia. cbn. rewrite zdrop_0.
  by replace (len k - 8 - 0) with (len k - 8) by lia.
Qed.

Lemma parse_mk uk seq ty : 0 <= seq <= MAX_SEQUENCE_NUMBER ->
  parse_internal_key (mk_ikey uk (mk_tag seq ty)) = Ret (Some (mk_parsed uk seq ty)).
Proof.
  intros Hs. rewrite parse_internal_key_spec.
  rewrite (proj2 (Z.ltb_ge _ _)) by apply ik_ok_mk.
  rewrite utag_mk, ukey_mk by by apply mk_tag_u64.
  rewrite mk_tag_type, value_type_tag, mk_tag_seq. reflexivity.
Qed.

#[export] Instance ik_ord_total ord `{!TotalOrd ord} : TotalOrd (ik_ord ord).
Proof.
  split; unfold ik_ord.
  - intros a b. rewrite (ord_opp (ord:=ord) (ukey a)).
    destruct (ord (ukey a) (ukey b)); cbn; [apply Z.compare_antisym|done|done].
  - intros a b c Hab Hbc.
    destruct (ord (ukey a) (ukey b)) eqn:E1, (ord (ukey b) (ukey c)) eqn:E2; try done.
    + rewrite (ord_eq_trans _ _ _ E1 E2). revert Hab Hbc. rewrite !Z.compare_le_iff. lia.
    + rewrite (ord_eq_l _ _ _ E1), E2. done.
    + rewrite (ord_lt_le_trans _ _ _ E1); [done|by rewrite E2].
    + by rewrite (ord_lt_trans _ _ _ E1 E2).
Qed.

Lemma ik_compare_ok {C} `{Comparator C} c ord `{!ComparatorLaws c (fun _ => True) ord} a b :
  ik_ok a -> ik_ok b -> ik_compare (mk_icmp c) a b = Ret (ik_ord ord a b).
Proof.
  intros Ha Hb. unfold ik_compare. rewrite !required_user_key_ok by done. cbn.
  rewrite compare_ord by done. cbn. unfold ik_ord.
  rewrite !read_tag_ok by done. destruct (ord (ukey a) (ukey b)); done.
Qed.

Lemma ik_ord_lt_user ord a b : ord (ukey a) (ukey b) = Lt -> ik_ord ord a b = Lt.
Proof. unfold ik_ord. by intros ->. Qed.

(** The wrapped comparator keeps every law of the user's. *)
#[export] Instance InternalKey_Laws {C} `{Comparator C} (c : C) ord
  `{!ComparatorLaws c (fun _ => True) ord} : ComparatorLaws (mk_icmp c) ik_ok (ik_ord ord).
Proof.
  pose proof (laws_ord (c:=c)) as Hord.
  assert (Htag : MAX_SEQUENCE_NUMBER <= MAX_SEQUENCE_NUMBER) by lia.
  split; [apply _|intros; cbn; by apply ik_compare_ok| |].
  - intros a b Ha Hb Hab. cbn [find_shortest_separator InternalKey_Comparator].
    unfold ik_find_shortest_separator. rewrite !required_user_key_ok by done. cbn [mbind outcome_bind user_comparator].
    assert (Hu : ord (ukey a) (ukey b) <> Gt) by (intros E; apply Hab; unfold ik_ord; by rewrite E).
    destruct (separator_law (c:=c) (ukey a) (ukey b) I I Hu) as (s & -> & _ & Hs & Hlt & Heq).
    cbn [mbind outcome_bind user_comparator].
    assert (Hkeep : exists s, Ret a = Ret s /\ ik_ok s /\ ik_ord ord a s <> Gt /\
      (ik_ord ord a b = Lt -> ik_ord ord s b = Lt) /\ (ik_ord ord a b = Eq -> ik_ord ord a s = Eq)).
    { exists a. rewrite (ord_refl (ord:=ik_ord ord)). auto. }
    zcase; [|done]. rewrite compare_ord by done. cbn [mbind outcome_bind user_comparator].
    destruct (ord (ukey a) s) eqn:E; cbn [is_lt]; [done| |done].
    rewrite pack_ok by done. cbn [mbind outcome_bind user_comparator].
    change (put_fixed64 s ?t) with (mk_ikey s t). eexists. split; [done|]. split; [apply ik_ok_mk|].
    destruct (ord (ukey a) (ukey b)) eqn:Eu; [specialize (Heq eq_refl); congruence| |congruence].
    rewrite !ik_ord_lt_user by (rewrite ?ukey_mk; first [done | by apply Hlt]). done.
  - intros a Ha. cbn [find_short_successor InternalKey_Comparator].
    unfold ik_find_short_successor. rewrite !required_user_key_ok by done. cbn [mbind outcome_bind user_comparator].
    destruct (successor_law (c:=c) (ukey a) I) as (s & -> & _ & Hs). cbn [mbind outcome_bind user_comparator].
    assert (Hkeep : exists s, Ret a = Ret s /\ ik_ok s /\ ik_ord ord a s <> Gt).
    { exists a. rewrite (ord_refl (ord:=ik_ord ord)). auto. }
    zcase; [|done]. rewrite compare_ord by done. cbn [mbind outcome_bind user_comparator].
    destruct (ord (ukey a) s) eqn:E; cbn [is_lt]; [done| |done].
    rewrite pack_ok by done. cbn [mbind outcome_bind user_comparator].
    change (put_fixed64 s ?t) with (mk_ikey s t). eexists. split; [done|]. split; [apply ik_ok_mk|].
    by rewrite ik_ord_lt_user by by rewrite ukey_mk.
Qed.

(** Only shorter user keys are taken, so the hints stay short whatever the user's do. *)
#[export] Instance InternalKey_ShortHints {C} `{Comparator C} (c : C) : ShortHints (mk_icmp c).
Proof.
  assert (Hlen : forall a tmp (o : outcome comparison) s ua, required_user_key a = Ret ua ->
    (if len tmp <? len ua then o ← o;
       if is_lt o then tag ← pack_sequence_and_type MAX_SEQUENCE_NUMBER VALUE_TYPE_FOR_SEEK; Ret (put_fixed64 tmp tag) else Ret a
     else Ret a) = Ret s -> len s <= len a).
  { intros a tmp o s ua Hu. unfold required_user_key, extract_user_key in Hu. destruct (Z.ltb_spec (len a) 8); [done|].
    injection Hu as <-. destruct (Z.ltb_spec (len tmp) (len (ztake (len a - 8) a))) as [Hl|]; [|intros [= <-]; lia].
    rewrite len_ztake in Hl by lia.
    destruct o as [o| |]; cbn [mbind outcome_bind]; [|done|done]. destruct (is_lt o); [|intros [= <-]; lia].
    rewrite pack_ok by lia. intros [= <-]. unfold put_fixed64. rewrite len_app, len_le_split. lia. }
  split; intros a; [intros b s|intros s]; cbn [find_shortest_separator find_short_successor InternalKey_Comparator];
    unfold ik_find_shortest_separator, ik_find_short_successor;
    destruct (required_user_key a) as [ua| |] eqn:Hu; cbn [mbind outcome_bind]; try done.
  - destruct (required_user_key b) as [ub| |]; cbn [mbind outcome_bind]; try done.
    destruct (find_shortest_separator _ ua ub) as [tmp| |]; cbn [mbind outcome_bind]; try done. by apply Hlen.
  - destruct (find_short_successor _ ua) as [tmp| |]; cbn [mbind outcome_bind]; try done. by apply Hlen.
Qed.

(** ** Claims *)

(** C31: (internal keys) A parsed key with a sequence number in range is encoded and parsed
    back unchanged, and comparing two encoded keys orders by user key first and then by
    descending sequence number, a value before a deletion at equal sequence: the newest
    version of a user key comes first. *)
Theorem internal_key_codec_order {C} `{Comparator C} (c : C) ord
    `{!ComparatorLaws c (fun _ => True) ord} a b :
  0 <= sequence a <= MAX_SEQUENCE_NUMBER -> 0 <= sequence b <= MAX_SEQUENCE_NUMBER ->
  exists ea eb, append_internal_key [] a = Ret ea /\ append_internal_key [] b = Ret eb /\
    parse_internal_key ea = Ret (Some a) /\
    len ea = internal_key_encoding_len a /\
    ik_compare (mk_icmp c) ea eb =
      Ret (match ord (user_key a) (user_key b) with
           | Eq => match Z.compare (sequence b) (sequence a) with
                   | Eq => Z.compare (value_type_u8 (value_type b)) (value_type_u8 (value_type a))
                   | o => o
                   end
           | o => o
           end).
Proof.
  destruct a as [ua sa ta], b as [ub sb tb]. cbn. intros Ha Hb.
  rewrite !append_internal_key_ok by (cbn; lia). cbn [app user_key sequence value_type].
  do 2 eexists. split; [done|]. split; [done|]. split; [by apply parse_mk|].
  split; [unfold internal_key_encoding_len, encoding_len, mk_ikey; cbn; len_lia|].
  rewrite (ik_compare_ok c ord) by apply ik_ok_mk. f_equal. unfold ik_ord.
  rewrite !ukey_mk, !utag_mk by by apply mk_tag_u64.
  destruct (ord ua ub); [|done..]. unfold mk_tag.
  destruct (Z.compare_spec sb sa) as [->|Hlt|Hgt].
  - by rewrite Z.add_compare_mono_l.
  - apply Z.compare_lt_iff. destruct ta, tb; cbn; lia.
  - apply Z.compare_gt_iff. destruct ta, tb; cbn; lia.
Qed.

Lemma internal_key_codec_order_witness :
  let a := mk_parsed (list_byte_of_string "k") 7 Value in
  let b := mk_parsed (list_byte_of_string "k") 9 Deletion in
  exists ea eb, append_internal_key [] a = Ret ea /\ append_internal_key [] b = Ret eb /\
    parse_internal_key ea = Ret (Some a) /\ len ea = 9 /\
    ik_compare (mk_icmp Bytewise) ea eb = Ret Gt.
Proof.
  intros a b.
  destruct (internal_key_codec_order Bytewise bytes_cmp a b) as (ea & eb & H1 & H2 & H3 & H4 & H5);
    [unfold MAX_SEQUENCE_NUMBER; cbn; lia..|].
  exists ea, eb. split_and!; try done.
Defined.

(** InternalKeyComparator hints. Shortening an internal key as an index separator stays
    in range: for well-formed keys with [a] before [b] the result is not before [a] and is
    before [b], it is again a well-formed internal key, and the methods do not panic. *)
Theorem internal_key_hints {C} `{Comparator C} (c : C) ord
    `{!ComparatorLaws c (fun _ => True) ord} a b :
  ik_ok a -> ik_ok b -> ik_ord ord a b = Lt ->
  exists s k, ik_find_shortest_separator (mk_icmp c) a b = Ret s /\ ik_ok s /\
    ik_ord ord a s <> Gt /\ ik_ord ord s b = Lt /\
    ik_find_short_successor (mk_icmp c) a = Ret k /\ ik_ok k /\ ik_ord ord a k <> Gt.
Proof.
  intros Ha Hb Hab. pose proof (InternalKey_Laws c ord) as Hl.
  destruct (separator_law (c:=mk_icmp c) a b Ha Hb) as (s & H1 & H2 & H3 & H4 & _); [by rewrite Hab|].
  destruct (successor_law (c:=mk_icmp c) a Ha) as (k & H5 & H6 & H7).
  exists s, k. split_and!; try done. by apply H4.
Qed.

