(* ===== verification/WriteBatch.v ===== *)
(** * WriteBatch.v: [write_batch/*.rs].

    The record encoding, the typed batch, and the [WriteBatch] wrapper that edits
    an encoded buffer in place and walks it with a handler. *)
From S2P Require Import Prelude Status Coding.

(** ** [WriteBatchHeader] *)

Module WriteBatchHeader.
Definition SIZE : Z := 12.
Record t := mk { sequence : Z; count : Z }.
Definition encode (h : t) (dst : bytes) : bytes :=
  put_fixed32 (put_fixed64 dst (sequence h)) (count h).
Definition decode_from : reader t :=
  seq ← need get_fixed64 "WriteBatchHeader: missing sequence";
  cnt ← need get_fixed32 "WriteBatchHeader: missing count";
  mret (mk seq cnt).
End WriteBatchHeader.

(** ** [WriteBatchRecord] *)

Inductive WriteBatchRecord :=
| Delete (key : bytes)
| Put (key value : bytes).

#[export] Instance WriteBatchRecord_eq_dec : EqDecision WriteBatchRecord.
Proof. solve_decision. Defined.

Module Record.
Definition encode_delete (dst key : bytes) : bytes :=
  put_length_prefixed_slice (dst ++ [as_u8 0]) key.
Definition encode_put (dst key value : bytes) : bytes :=
  put_length_prefixed_slice (put_length_prefixed_slice (dst ++ [as_u8 1]) key) value.
Definition encode (r : WriteBatchRecord) (dst : bytes) : bytes :=
  match r with
  | Delete key => encode_delete dst key
  | Put key value => encode_put dst key value
  end.

Definition unknown_tag (other : Z) : Status :=
  Stat.corruption ("WriteBatchRecord: unknown tag " +:+ show_u64 other).

Definition decode_from : reader WriteBatchRecord :=
  tag ← need get_u8 "WriteBatchRecord: missing tag";
  if tag =? 0 then
    key ← need get_length_prefixed_slice "WriteBatchRecord: missing key";
    mret (Delete key)
  else if tag =? 1 then
    key ← need get_length_prefixed_slice "WriteBatchRecord: missing key";
    value ← need get_length_prefixed_slice "WriteBatchRecord: missing value";
    mret (Put key value)
  else rfail (unknown_tag tag).
End Record.

(** ** The typed batch of write_batch.rs *)

Module TypedBatch.
Record t := mk { header : WriteBatchHeader.t; records : list WriteBatchRecord }.
Definition encode (b : t) (dst : bytes) : bytes :=
  fold_left (fun dst item => Record.encode item dst) (records b)
    (WriteBatchHeader.encode (header b) dst).
Fixpoint decode_n (n : nat) (items : list WriteBatchRecord) : reader (list WriteBatchRecord) :=
  match n with
  | O => mret items
  | S n => item ← Record.decode_from; decode_n n (items ++ [item])
  end.
Definition decode_from : reader t :=
  header ← WriteBatchHeader.decode_from;
  records ← decode_n (Z.to_nat (WriteBatchHeader.count header)) [];
  mret (mk header records).
End TypedBatch.

(** ** The [WriteBatch] wrapper *)

Definition HEADER_LEN : Z := 12.

(** The trait [WriteBatchHandler]: the handler's state is threaded through. *)
Class WriteBatchHandler (H : Type) := {
  handler_put : H -> bytes -> bytes -> H;
  handler_delete : H -> bytes -> H;
}.

(** A batch is its buffer [rep]. *)
Definition WriteBatch : Type := bytes.

Module Batch.
Definition clear (_ : WriteBatch) : WriteBatch := replicate 12 (as_u8 0).
Definition new : WriteBatch := clear [].
Definition with_capacity (_ : Z) : WriteBatch := replicate 12 (as_u8 0).

Definition count (rep : WriteBatch) : outcome Z :=
  b ← slice rep 8 12; decode_fixed32 b.
Definition set_count_inline (rep : WriteBatch) (count : Z) : outcome WriteBatch :=
  copy_from_slice rep 8 12 (to_le_bytes 4 count).
Definition set_count := set_count_inline.
Definition sequence (rep : WriteBatch) : outcome Z :=
  b ← slice_to rep 8; decode_fixed64 b.
Definition set_sequence (rep : WriteBatch) (sequence : Z) : outcome WriteBatch :=
  copy_from_slice rep 0 8 (to_le_bytes 8 sequence).

Definition put (rep : WriteBatch) (key value : bytes) : outcome WriteBatch :=
  c ← count rep;
  rep ← set_count_inline rep (as_u32 (c + 1));
  Ret (Record.encode_put rep key value).
Definition delete (rep : WriteBatch) (key : bytes) : outcome WriteBatch :=
  c ← count rep;
  rep ← set_count_inline rep (as_u32 (c + 1));
  Ret (Record.encode_delete rep key).

Definition contents (rep : WriteBatch) : bytes := rep.
Definition contents_with_sequence (rep : WriteBatch) (sequence : Z) : outcome bytes :=
  copy_from_slice rep 0 8 (to_le_bytes 8 sequence).
Definition approximate_size (rep : WriteBatch) : Z := len rep.

Definition set_contents (rep : WriteBatch) (contents : bytes) : outcome WriteBatch :=
  if len contents <? HEADER_LEN
  then Fail (Stat.corruption "malformed WriteBatch (too small)")
  else Ret contents.

Definition append (rep source : WriteBatch) : outcome WriteBatch :=
  c1 ← count rep;
  c2 ← count source;
  rep ← set_count_inline rep (as_u32 (c1 + c2));
  body ← slice_from source HEADER_LEN;
  Ret (rep ++ body).

(** [WriteBatchRecord::visit] with the adapter's handler: the handler state after
    the call, the result, and the cursor. *)
Definition visit {H} `{WriteBatchHandler H} (h : H) (input : bytes)
  : H * outcome unit * bytes :=
  match need get_u8 "WriteBatchRecord: missing tag" input with
  | (Ret tag, input) =>
      if tag =? 0 then
        match need get_length_prefixed_slice "WriteBatchRecord: missing key" input with
        | (Ret key, input) => (handler_delete h key, Ret tt, input)
        | (Fail s, input) => (h, Fail s, input)
        | (Panic, input) => (h, Panic, input)
        end
      else if tag =? 1 then
        match need get_length_prefixed_slice "WriteBatchRecord: missing key" input with
        | (Ret key, input) =>
            match need get_length_prefixed_slice "WriteBatchRecord: missing value" input with
            | (Ret value, input) => (handler_put h key value, Ret tt, input)
            | (Fail s, input) => (h, Fail s, input)
            | (Panic, input) => (h, Panic, input)
            end
        | (Fail s, input) => (h, Fail s, input)
        | (Panic, input) => (h, Panic, input)
        end
      else (h, Fail (Record.unknown_tag tag), input)
  | (Fail s, input) => (h, Fail s, input)
  | (Panic, input) => (h, Panic, input)
  end.

(** The [while !input.is_empty()] loop, counting the records visited.  Every
    record consumes a byte, so [input.len()] rounds are enough
    ([iterate_loop_fuel]); the handler keeps what it saw when the loop fails. *)
Fixpoint iterate_loop {H} `{WriteBatchHandler H} (fuel : nat) (h : H) (input : bytes) (n : Z)
  : H * outcome Z :=
  match input with
  | [] => (h, Ret n)
  | _ :: _ =>
      match fuel with
      | O => (h, Panic)
      | S fuel =>
          match visit h input with
          | (h, Ret _, input) => iterate_loop fuel h input (as_u32 (n + 1))
          | (h, Fail s, _) => (h, Fail s)
          | (h, Panic, _) => (h, Panic)
          end
      end
  end.

Definition iterate {H} `{WriteBatchHandler H} (rep : WriteBatch) (h : H) : H * outcome unit :=
  if len rep <? HEADER_LEN
  then (h, Fail (Stat.corruption "malformed WriteBatch (too small)"))
  else
    match iterate_loop (length rep) h (zdrop HEADER_LEN rep) 0 with
    | (h, Ret n) =>
        (h, c ← count rep;
            if n =? c then Ret tt
            else Fail (Stat.corruption "WriteBatch has wrong count"))
    | (h, Fail s) => (h, Fail s)
    | (h, Panic) => (h, Panic)
    end.

(** [RecordCollector] and [records()]. *)
#[export] Instance RecordCollector : WriteBatchHandler (list WriteBatchRecord) := {|
  handler_put records key value := records ++ [Put key value];
  handler_delete records key := records ++ [Delete key];
|}.
Definition records (rep : WriteBatch) : outcome (list WriteBatchRecord) :=
  let '(collected, r) := iterate rep ([] : list WriteBatchRecord) in
  _ ← r; Ret collected.
End Batch.
#[export] Existing Instance Batch.RecordCollector.

(** ** The per-thread buffer pool *)

Module Pool.
Definition POOL_MAX_SLOTS : Z := 8.
Definition POOL_MAX_CAPACITY : Z := 4096.

(** A pooled buffer is its contents and the capacity of its allocation, which only
    [recycle] looks at; the pool is a stack. *)
Record buf := mk_buf { contents : WriteBatch; capacity : Z }.

Definition pool_take (pool : list buf) : buf * list buf :=
  match last pool with
  | Some b => (mk_buf (Batch.clear (contents b)) (capacity b), take (length pool - 1) pool)
  | None => (mk_buf (Batch.clear Batch.new) HEADER_LEN, pool)
  end.
Definition recycle (batch : buf) (pool : list buf) : list buf :=
  if POOL_MAX_CAPACITY <? capacity batch then pool
  else if len pool <? POOL_MAX_SLOTS then pool ++ [batch] else pool.
End Pool.

(** ** Records: lemmas *)

Definition record_ok (r : WriteBatchRecord) : Prop :=
  match r with
  | Delete k => is_u32 (len k)
  | Put k v => is_u32 (len k) /\ is_u32 (len v)
  end.

(** The bytes of one record, and of a sequence of records. *)
Definition enc (r : WriteBatchRecord) : bytes := Record.encode r [].
Definition enc_all (ops : list WriteBatchRecord) : bytes := concat (map enc ops).

Lemma encode_delete_app dst k :
  Record.encode_delete dst k = dst ++ as_u8 0 :: put_length_prefixed_slice [] k.
Proof.
  unfold Record.encode_delete. rewrite (put_length_prefixed_slice_app (dst ++ _)).
  by rewrite <- app_assoc.
Qed.
Lemma encode_put_app dst k v :
  Record.encode_put dst k v
  = dst ++ as_u8 1 :: put_length_prefixed_slice [] k ++ put_length_prefixed_slice [] v.
Proof.
  unfold Record.encode_put. rewrite (put_length_prefixed_slice_app (put_length_prefixed_slice _ _)).
  rewrite (put_length_prefixed_slice_app (dst ++ _)). by rewrite <- !app_assoc.
Qed.

Lemma enc_delete k : enc (Delete k) = as_u8 0 :: put_length_prefixed_slice [] k.
Proof. apply (encode_delete_app []). Qed.
Lemma enc_put k v :
  enc (Put k v) = as_u8 1 :: put_length_prefixed_slice [] k ++ put_length_prefixed_slice [] v.
Proof. apply (encode_put_app []). Qed.

Lemma encode_record_app r dst : Record.encode r dst = dst ++ enc r.
Proof.
  destruct r; cbn [Record.encode].
  - by rewrite encode_delete_app, enc_delete.
  - by rewrite encode_put_app, enc_put.
Qed.

Lemma enc_len_pos r : 1 <= len (enc r).
Proof. destruct r; rewrite ?enc_delete, ?enc_put, len_cons; len_lia. Qed.

Lemma decode_record_enc r rest : record_ok r -> Record.decode_from (enc r ++ rest) = (Ret r, rest).
Proof.
  unfold Record.decode_from. destruct r as [k|k v]; cbn [record_ok]; intros Hok.
  - rewrite enc_delete. cbn [app]. erewrite action_bind_ret by reflexivity.
    change (u8 (as_u8 0) =? 0) with true. cbn iota.
    erewrite action_bind_ret; [reflexivity|]. by apply need_some, get_length_prefixed_put.
  - destruct Hok as [Hk Hv]. rewrite enc_put. cbn [app]. rewrite <- app_assoc.
    erewrite action_bind_ret by reflexivity.
    change (u8 (as_u8 1) =? 0) with false. change (u8 (as_u8 1) =? 1) with true. cbn iota.
    erewrite action_bind_ret; [|by apply need_some, get_length_prefixed_put].
    erewrite action_bind_ret; [reflexivity|]. by apply need_some, get_length_prefixed_put.
Qed.

Lemma decode_n_enc ops items rest : Forall record_ok ops ->
  TypedBatch.decode_n (length ops) items (enc_all ops ++ rest) = (Ret (items ++ ops), rest).
Proof.
  intros Hok. revert items. induction Hok as [|r ops Hr _ IH]; intros items.
  { by rewrite app_nil_r. }
  cbn [length TypedBatch.decode_n enc_all map concat]. rewrite <- app_assoc.
  erewrite action_bind_ret by by apply decode_record_enc.
  unfold enc_all in IH. by rewrite IH, <- app_assoc.
Qed.

(** ** Visiting *)

Section visit.
Context {H : Type} `{WriteBatchHandler H}.
Implicit Types h : H.

Definition handle h (r : WriteBatchRecord) : H :=
  match r with Delete k => handler_delete h k | Put k v => handler_put h k v end.

Lemma visit_enc h r rest : record_ok r -> Batch.visit h (enc r ++ rest) = (handle h r, Ret tt, rest).
Proof.
  unfold Batch.visit. destruct r as [k|k v]; cbn [record_ok handle]; intros Hok.
  - rewrite enc_delete. cbn [app need get_u8]. change (u8 (as_u8 0) =? 0) with true. cbn iota.
    by rewrite (need_some _ _ _ _ _ (get_length_prefixed_put _ _ Hok)).
  - destruct Hok as [Hk Hv]. rewrite enc_put. cbn [app]. rewrite <- app_assoc.
    cbn [need get_u8]. change (u8 (as_u8 1) =? 0) with false.
    change (u8 (as_u8 1) =? 1) with true. cbn iota.
    rewrite (need_some _ _ _ _ _ (get_length_prefixed_put _ _ Hk)).
    by rewrite (need_some _ _ _ _ _ (get_length_prefixed_put _ _ Hv)).
Qed.

Lemma iterate_loop_enc fuel h ops n : Forall record_ok ops ->
  len (enc_all ops) <= Z.of_nat fuel -> 0 <= n -> n + len ops < 2 ^ 32 ->
  Batch.iterate_loop fuel h (enc_all ops) n = (fold_left handle ops h, Ret (n + len ops)).
Proof.
  intros Hok. revert fuel h n. induction Hok as [|r ops Hr _ IH]; intros fuel h n Hf Hn Hc.
  { destruct fuel; cbn; by rewrite Z.add_0_r. }
  cbn [enc_all map concat] in *. pose proof (enc_len_pos r). rewrite len_app, len_cons in *.
  destruct fuel as [|fuel]; [len_lia|]. unfold enc_all in *.
  destruct (enc r ++ concat (map enc ops)) as [|b bs] eqn:E.
  { apply (f_equal len) in E. len_lia. }
  cbn [Batch.iterate_loop]. rewrite <- E, visit_enc by done.
  rewrite as_u32_id by (unfold is_u32; len_pose; lia).
  rewrite IH by (len_pose; lia). cbn [fold_left]. by rewrite <- Z.add_assoc.
Qed.

Lemma get_varint32_len input a input' : get_varint32 input = (a, input') -> len input' <= len input.
Proof.
  unfold get_varint32. destruct (get_varint_loop _ _ _ _) as [[r c]|] eqn:E; intros; simplify_eq; [|lia].
  apply get_varint_loop_suffix in E as (pre & -> & ?). len_lia.
Qed.

Lemma get_length_prefixed_len input a input' :
  get_length_prefixed_slice input = (a, input') -> len input' <= len input.
Proof.
  unfold get_length_prefixed_slice. destruct (get_varint32 input) as [[l|] c] eqn:E.
  - pose proof (get_varint32_len _ _ _ E). pose proof (get_varint32_range _ _ _ E) as Hr.
    unfold is_u32 in Hr. zcase; intros; simplify_eq; [lia|].
    rewrite len_zdrop by len_lia. lia.
  - intros; simplify_eq. by eapply get_varint32_len.
Qed.

(** Whatever the input, a visited record consumes at least its tag byte. *)
Lemma visit_progress h input h' r input' : Batch.visit h input = (h', r, input') ->
  r <> Panic /\ (r = Ret tt -> len input' < len input).
Proof.
  unfold Batch.visit, need. destruct input as [|b input]; cbn [get_u8]; [intros; by simplify_eq|].
  rewrite len_cons.
  destruct (u8 b =? 0); [|destruct (u8 b =? 1); [|intros; by simplify_eq]].
  - destruct (get_length_prefixed_slice input) as [[k|] c] eqn:E; intros; simplify_eq; [|done].
    apply get_length_prefixed_len in E. split; [done|lia].
  - destruct (get_length_prefixed_slice input) as [[k|] c] eqn:E; [|intros; by simplify_eq].
    destruct (get_length_prefixed_slice c) as [[v|] c'] eqn:E'; intros; simplify_eq; [|done].
    apply get_length_prefixed_len in E, E'. split; [done|lia].
Qed.

Lemma iterate_loop_fuel fuel h input n : len input <= Z.of_nat fuel ->
  (Batch.iterate_loop fuel h input n).2 <> Panic.
Proof.
  revert h input n. induction fuel as [|fuel IH]; intros h input n Hf.
  { destruct input; [done|len_lia]. }
  destruct input as [|b input]; [done|]. cbn [Batch.iterate_loop].
  destruct (Batch.visit h (b :: input)) as [[h' r] input'] eqn:E.
  apply visit_progress in E as [Hp Hl]. destruct r as [[]| |]; try done.
  apply IH. specialize (Hl eq_refl). lia.
Qed.
End visit.

(** ** Batches *)

(** [rep] is the encoding of [ops] with sequence number [seq]. *)
Definition batch_repr (rep : WriteBatch) (seq : Z) (ops : list WriteBatchRecord) : Prop :=
  rep = to_le_bytes 8 seq ++ to_le_bytes 4 (len ops) ++ enc_all ops /\
  is_u64 seq /\ len ops < 2 ^ 32 /\ Forall record_ok ops.

Lemma enc_all_app a b : enc_all (a ++ b) = enc_all a ++ enc_all b.
Proof. unfold enc_all. by rewrite map_app, concat_app. Qed.

Lemma len_ops_u32 {A} (ops : list A) : len ops < 2 ^ 32 -> is_u32 (len ops).
Proof. intros. pose proof (len_nonneg ops). unfold is_u32. lia. Qed.

Section batch.
Context (rep : WriteBatch) (seq : Z) (ops : list WriteBatchRecord)
        (Hrep : batch_repr rep seq ops).

Lemma batch_count : Batch.count rep = Ret (len ops).
Proof.
  destruct Hrep as (-> & Hs & Hn & _). unfold Batch.count.
  rewrite slice_app by len_lia. cbn. by apply decode_fixed32_le, len_ops_u32.
Qed.

Lemma batch_sequence : Batch.sequence rep = Ret seq.
Proof.
  destruct Hrep as (-> & Hs & Hn & _). unfold Batch.sequence.
  rewrite slice_to_app by len_lia. cbn. by apply decode_fixed64_le.
Qed.

Lemma batch_set_count c : Batch.set_count_inline rep c
  = Ret (to_le_bytes 8 seq ++ to_le_bytes 4 c ++ enc_all ops).
Proof.
  destruct Hrep as (-> & _). unfold Batch.set_count_inline.
  apply copy_from_slice_app; len_lia.
Qed.

Lemma batch_body : zdrop HEADER_LEN rep = enc_all ops.
Proof. destruct Hrep as (-> & _). rewrite app_assoc. apply zdrop_app_len. unfold HEADER_LEN. len_lia. Qed.

Lemma batch_len : len rep = 12 + len (enc_all ops).
Proof. destruct Hrep as (-> & _). len_lia. Qed.

Lemma batch_iterate {H} `{WriteBatchHandler H} (h : H) :
  Batch.iterate rep h = (fold_left handle ops h, Ret tt).
Proof.
  unfold Batch.iterate. pose proof batch_len. unfold HEADER_LEN.
  rewrite (proj2 (Z.ltb_ge _ _)) by len_lia. change 12 with HEADER_LEN. rewrite batch_body.
  destruct Hrep as (_ & _ & Hn & Hok).
  rewrite iterate_loop_enc; [|done|unfold len in *; lia|lia|lia].
  rewrite batch_count. cbn. by rewrite Z.eqb_refl.
Qed.

Lemma batch_set_sequence seq' : is_u64 seq' ->
  exists rep', Batch.set_sequence rep seq' = Ret rep' /\
    Batch.contents_with_sequence rep seq' = Ret rep' /\ batch_repr rep' seq' ops.
Proof.
  intros Hs. pose proof batch_len. destruct Hrep as (E & _ & Hn & Hok).
  exists (to_le_bytes 8 seq' ++ to_le_bytes 4 (len ops) ++ enc_all ops).
  unfold Batch.set_sequence, Batch.contents_with_sequence.
  rewrite E, copy_from_slice_prefix by (by rewrite !len_le_split).
  by split_and!.
Qed.
End batch.

Lemma batch_new : batch_repr Batch.new 0 [].
Proof. unfold batch_repr, is_u64. by split_and!. Qed.

Lemma batch_push rep seq ops r : batch_repr rep seq ops -> record_ok r -> len ops + 1 < 2 ^ 32 ->
  batch_repr (to_le_bytes 8 seq ++ to_le_bytes 4 (as_u32 (len ops + 1)) ++ enc_all ops ++ enc r) seq (ops ++ [r]).
Proof.
  intros (-> & Hs & Hn & Hok) Hr Hl. split; [|split; [done|split]].
  - rewrite enc_all_app, len_app. change (len [r]) with 1.
    rewrite as_u32_id by (unfold is_u32; len_pose; lia). unfold enc_all at 3. cbn.
    by rewrite app_nil_r.
  - len_lia.
  - apply Forall_app. split; [done|by constructor].
Qed.

Lemma batch_put rep seq ops k v : batch_repr rep seq ops -> is_u32 (len k) -> is_u32 (len v) ->
  len ops + 1 < 2 ^ 32 ->
  exists rep', Batch.put rep k v = Ret rep' /\ batch_repr rep' seq (ops ++ [Put k v]).
Proof.
  intros Hrep Hk Hv Hl. eexists. split; [|by eapply batch_push].
  unfold Batch.put. rewrite (batch_count _ _ _ Hrep). cbn [mbind outcome_bind].
  rewrite (batch_set_count _ _ _ Hrep). cbn [mbind outcome_bind].
  change (Record.encode_put ?d k v) with (Record.encode (Put k v) d).
  rewrite encode_record_app. by rewrite <- !app_assoc.
Qed.

Lemma batch_delete rep seq ops k : batch_repr rep seq ops -> is_u32 (len k) ->
  len ops + 1 < 2 ^ 32 ->
  exists rep', Batch.delete rep k = Ret rep' /\ batch_repr rep' seq (ops ++ [Delete k]).
Proof.
  intros Hrep Hk Hl. eexists. split; [|by eapply batch_push].
  unfold Batch.delete. rewrite (batch_count _ _ _ Hrep). cbn [mbind outcome_bind].
  rewrite (batch_set_count _ _ _ Hrep). cbn [mbind outcome_bind].
  change (Record.encode_delete ?d k) with (Record.encode (Delete k) d).
  rewrite encode_record_app. by rewrite <- !app_assoc.
Qed.

Lemma batch_append rep seq ops rep2 seq2 ops2 :
  batch_repr rep seq ops -> batch_repr rep2 seq2 ops2 -> len ops + len ops2 < 2 ^ 32 ->
  exists rep', Batch.append rep rep2 = Ret rep' /\ batch_repr rep' seq (ops ++ ops2).
Proof.
  intros Hrep Hrep2 Hl. eexists. split.
  - unfold Batch.append. rewrite (batch_count _ _ _ Hrep), (batch_count _ _ _ Hrep2).
    cbn [mbind outcome_bind]. rewrite (batch_set_count _ _ _ Hrep). cbn [mbind outcome_bind].
    destruct Hrep2 as (-> & _). rewrite (app_assoc (le_split 8 seq2)).
    rewrite slice_from_app by (rewrite len_app, !len_le_split; done).
    cbn [mbind outcome_bind]. reflexivity.
  - destruct Hrep as (-> & Hs & Hn & Hok), Hrep2 as (_ & _ & Hn2 & Hok2).
    split; [|split; [done|split; [len_lia|by apply Forall_app]]].
    rewrite enc_all_app, len_app, as_u32_id by (unfold is_u32; len_pose; lia).
    by rewrite <- !app_assoc.
Qed.

Lemma collect_fold ops acc : fold_left (handle (H:=list WriteBatchRecord)) ops acc = acc ++ ops.
Proof.
  revert acc. induction ops as [|r ops IH]; intros acc; cbn; [by rewrite app_nil_r|].
  rewrite IH. destruct r; cbn; by rewrite <- app_assoc.
Qed.

Lemma batch_records rep seq ops : batch_repr rep seq ops -> Batch.records rep = Ret ops.
Proof. intros Hrep. unfold Batch.records. by rewrite (batch_iterate _ _ _ Hrep), collect_fold. Qed.

(** ** Claims *)

(** The batch calls a client makes, in order. *)
Definition batch_op (rep : WriteBatch) (r : WriteBatchRecord) : outcome WriteBatch :=
  match r with Delete k => Batch.delete rep k | Put k v => Batch.put rep k v end.
Fixpoint batch_ops (rep : WriteBatch) (ops : list WriteBatchRecord) : outcome WriteBatch :=
  match ops with
  | [] => Ret rep
  | r :: ops => rep ← batch_op rep r; batch_ops rep ops
  end.

Lemma batch_ops_repr ops rep seq done_ : batch_repr rep seq done_ -> Forall record_ok ops ->
  len done_ + len ops < 2 ^ 32 ->
  exists rep', batch_ops rep ops = Ret rep' /\ batch_repr rep' seq (done_ ++ ops).
Proof.
  intros Hrep Hok. revert rep done_ Hrep. induction Hok as [|r ops Hr _ IH]; intros rep done_ Hrep Hl.
  { exists rep. by rewrite app_nil_r. }
  rewrite len_cons in Hl.
  assert (exists rep', batch_op rep r = Ret rep' /\ batch_repr rep' seq (done_ ++ [r])) as (rep' & E & Hrep').
  { pose proof (len_nonneg ops). destruct r as [k|k v]; cbn in Hr.
    - by apply batch_delete; [..|lia].
    - destruct Hr. by apply batch_put; [..|lia]. }
  cbn [batch_ops]. rewrite E. cbn [mbind outcome_bind].
  destruct (IH rep' (done_ ++ [r]) Hrep') as (rep'' & E' & H'); [len_lia|].
  exists rep''. split; [done|]. by rewrite <- app_assoc in H'.
Qed.

Lemma typed_decode_repr rep seq ops : batch_repr rep seq ops ->
  TypedBatch.decode_from rep
  = (Ret (TypedBatch.mk (WriteBatchHeader.mk seq (len ops)) ops), []).
Proof.
  intros (-> & Hs & Hn & Hok). unfold TypedBatch.decode_from, WriteBatchHeader.decode_from.
  pose proof (len_ops_u32 _ Hn) as Hu.
  erewrite action_bind_ret; [|erewrite action_bind_ret by (by apply need_some, get_fixed64_app);
    erewrite action_bind_ret by (by apply need_some, get_fixed32_app); reflexivity].
  cbn [WriteBatchHeader.count]. rewrite <- (app_nil_r (enc_all ops)).
  replace (Z.to_nat (len ops)) with (length ops) by (unfold len; lia).
  by erewrite action_bind_ret by by apply decode_n_enc.
Qed.

(** WriteBatch. A batch built by any sequence of [put] and [delete] calls holds exactly
    those operations in order: its count, its [records()], what a handler sees in
    [iterate], and what the typed decoder reads all agree, and stamping a sequence number
    changes nothing else. *)
Theorem write_batch_holds_ops {H} `{WriteBatchHandler H} (h : H) ops seq :
  Forall record_ok ops -> len ops < 2 ^ 32 -> is_u64 seq ->
  exists rep stamped, batch_ops Batch.new ops = Ret rep /\
    Batch.set_sequence rep seq = Ret stamped /\
    Batch.count stamped = Ret (len ops) /\ Batch.sequence stamped = Ret seq /\
    Batch.records stamped = Ret ops /\
    Batch.iterate stamped h = (fold_left handle ops h, Ret tt) /\
    TypedBatch.decode_from stamped
      = (Ret (TypedBatch.mk (WriteBatchHeader.mk seq (len ops)) ops), []).
Proof.
  intros Hok Hl Hs.
  destruct (batch_ops_repr ops Batch.new 0 [] batch_new Hok ltac:(rewrite len_nil; lia)) as (rep & E & Hrep).
  destruct (batch_set_sequence _ _ _ Hrep seq Hs) as (st & Hst & _ & Hrep').
  exists rep, st. split_and!; [done|done|by eapply batch_count|by eapply batch_sequence|
    by eapply batch_records|by eapply batch_iterate|by apply typed_decode_repr].
Qed.

Definition sample_ops : list WriteBatchRecord :=
  [Put (list_byte_of_string "a") (list_byte_of_string "1"); Delete (list_byte_of_string "b");
   Put (list_byte_of_string "a") (list_byte_of_string "2")].


(** Append. Appending a batch to another adds its operations after them, keeping the
    first batch's sequence number. *)
Theorem write_batch_append ops1 ops2 seq1 seq2 rep1 rep2 :
  batch_repr rep1 seq1 ops1 -> batch_repr rep2 seq2 ops2 -> len ops1 + len ops2 < 2 ^ 32 ->
  exists rep, Batch.append rep1 rep2 = Ret rep /\ Batch.records rep = Ret (ops1 ++ ops2) /\
    Batch.sequence rep = Ret seq1 /\ Batch.count rep = Ret (len ops1 + len ops2).
Proof.
  intros H1 H2 Hl. destruct (batch_append _ _ _ _ _ _ H1 H2 Hl) as (rep & E & Hrep).
  exists rep. split_and!; [done|by eapply batch_records|by eapply batch_sequence|].
  rewrite <- len_app. by eapply batch_count.
Qed.


(** Iterate on any bytes. [iterate] never panics on a buffer of at least twelve bytes
    whatever it holds, and reports shorter ones; and a batch whose count was tampered
    with has all its records delivered to the handler before the error is returned. *)
Theorem write_batch_iterate_total {H} `{WriteBatchHandler H} (h : H) :
  (forall rep, (Batch.iterate rep h).2 <> Panic) /\
  (forall rep seq ops c, batch_repr rep seq ops -> is_u32 c -> c <> len ops ->
     exists bad, Batch.set_count rep c = Ret bad /\
       Batch.iterate bad h = (fold_left handle ops h,
                              Fail (Stat.corruption "WriteBatch has wrong count"))).
Proof.
  split.
  - intros rep. unfold Batch.iterate. zcase; [done|].
    pose proof (iterate_loop_fuel (length rep) h (zdrop HEADER_LEN rep) 0) as Hf.
    destruct (Batch.iterate_loop _ _ _ _) as [h' [n| |]]; cbn in *; [|done|].
    2: { intros _. apply Hf; [|done]. rewrite len_zdrop by (unfold HEADER_LEN in *; lia). unfold HEADER_LEN, len. lia. }
    unfold Batch.count. unfold HEADER_LEN in *. rewrite slice_ok by lia. cbn [mbind outcome_bind].
    unfold decode_fixed32, slice_to. rewrite slice_ok by (rewrite ?len_ztake, ?len_zdrop; rewrite ?len_zdrop; lia).
    cbn [mbind outcome_bind]. by case_match.
  - intros rep seq ops c Hrep Hc Hne. exists (to_le_bytes 8 seq ++ to_le_bytes 4 c ++ enc_all ops).
    unfold Batch.set_count. rewrite (batch_set_count _ _ _ Hrep). split; [done|].
    destruct Hrep as (-> & Hs & Hn & Hok). unfold Batch.iterate, HEADER_LEN.
    rewrite (proj2 (Z.ltb_ge _ _)) by len_lia.
    rewrite app_assoc, zdrop_app_len by len_lia.
    rewrite iterate_loop_enc; [|done|unfold len; rewrite !length_app; lia|lia|lia].
    unfold Batch.count. rewrite <- app_assoc, slice_app by len_lia. cbn [mbind outcome_bind].
    rewrite decode_fixed32_le by done. cbn [mbind outcome_bind].
    by rewrite (proj2 (Z.eqb_neq _ _)) by lia.
Qed.

