(* ===== verification/DbIterator.v ===== *)
(** * DbIterator.v: [db_iter/db_iterator.rs].

    The trait [DbIterator], and the contract its implementations share: an iterator
    is a cursor over a sorted list of entries.  [IterLaws] relates the states of an
    implementation to positions in the list; the block, two-level and merging
    iterators discharge it and their clients are proved against it. *)
From S2P Require Import Prelude Status Comparator.

(** ** The trait *)

(** Methods on [&mut self] return the new state; every method may panic.
    [status] is a [Result<()>]: [Fail s] is [Err(s)]. *)
Class DbIterator (I : Type) := {
  valid : I -> outcome bool;
  seek_to_first : I -> outcome I;
  seek_to_last : I -> outcome I;
  seek : I -> bytes -> outcome I;
  next : I -> outcome I;
  prev : I -> outcome I;
  iter_key : I -> outcome bytes;
  iter_value : I -> outcome bytes;
  iter_status : I -> outcome unit;
}.

(** ** Positions in a sorted list *)

Abbreviation entry := (bytes * bytes)%type (only parsing).
Definition is_some {A} (o : option A) : bool := match o with Some _ => true | None => false end.

Definition pos_first {A} (es : list A) : option nat :=
  match es with [] => None | _ :: _ => Some O end.
Definition pos_last {A} (es : list A) : option nat :=
  match es with [] => None | _ :: _ => Some (length es - 1)%nat end.
Definition pos_next {A} (es : list A) (i : nat) : option nat :=
  if decide (S i < length es)%nat then Some (S i) else None.
Definition pos_prev (i : nat) : option nat :=
  match i with O => None | S i => Some i end.

(** The first entry whose key is not below the target. *)
Fixpoint pos_seek (ord : bytes -> bytes -> comparison) (es : list entry) (target : bytes)
  : option nat :=
  match es with
  | [] => None
  | e :: es => if is_lt (ord e.1 target) then S <$> pos_seek ord es target else Some O
  end.

(** Keys strictly increase. *)
Definition sorted_entries (ord : bytes -> bytes -> comparison) (es : list entry) : Prop :=
  forall i j a b, (i < j)%nat -> es !! i = Some a -> es !! j = Some b -> ord a.1 b.1 = Lt.

(** ** The contract *)

(** [at_pos it p]: the iterator [it] stands at position [p] of [es] ([None] when it is
    not valid). *)
Class IterLaws {I} `{DbIterator I} (ord : bytes -> bytes -> comparison) (es : list entry)
    (target_ok : bytes -> Prop) (at_pos : I -> option nat -> Prop) : Prop := {
  law_valid it p : at_pos it p -> valid it = Ret (is_some p);
  law_bound it i : at_pos it (Some i) -> (i < length es)%nat;
  law_seek_to_first it p : at_pos it p ->
    exists it', seek_to_first it = Ret it' /\ at_pos it' (pos_first es);
  law_seek_to_last it p : at_pos it p ->
    exists it', seek_to_last it = Ret it' /\ at_pos it' (pos_last es);
  law_seek it p t : at_pos it p -> target_ok t ->
    exists it', seek it t = Ret it' /\ at_pos it' (pos_seek ord es t);
  law_next it i : at_pos it (Some i) ->
    exists it', next it = Ret it' /\ at_pos it' (pos_next es i);
  law_prev it i : at_pos it (Some i) ->
    exists it', prev it = Ret it' /\ at_pos it' (pos_prev i);
  law_entry it i e : at_pos it (Some i) -> es !! i = Some e ->
    iter_key it = Ret e.1 /\ iter_value it = Ret e.2;
  law_status it p : at_pos it p -> iter_status it = Ret tt;
}.

(** ** Facts about positions *)

Lemma pos_seek_some ord es t i : pos_seek ord es t = Some i ->
  (i < length es)%nat /\
  (forall e, es !! i = Some e -> ord e.1 t <> Lt) /\
  (forall j e, (j < i)%nat -> es !! j = Some e -> ord e.1 t = Lt).
Proof.
  revert i. induction es as [|e es IH]; intros i H; [done|]. cbn in H.
  destruct (ord e.1 t) eqn:E; cbn in H; simplify_eq.
  1, 3: split; [cbn; lia|split; [intros e' ?; simplify_eq/=; congruence|intros; lia]].
  destruct (pos_seek ord es t) as [k|] eqn:Hk; simplify_eq/=.
  destruct (IH k eq_refl) as (Hlt & H1 & H2). split; [lia|]. split; [exact H1|].
  intros [|j] e' Hj He; simplify_eq/=; [done|]. apply (H2 j); [lia|done].
Qed.

Lemma pos_seek_none ord es t : pos_seek ord es t = None ->
  forall j e, es !! j = Some e -> ord e.1 t = Lt.
Proof.
  induction es as [|e es IH]; intros H j e' He; [done|]. cbn in H.
  destruct (ord e.1 t) eqn:E; cbn in H; simplify_eq.
  destruct (pos_seek ord es t) eqn:Hk; [done|].
  destruct j as [|j]; simplify_eq/=; [done|]. by eapply IH.
Qed.

(** [pos_seek] is the only position with its two properties. *)
Lemma pos_seek_intro ord es t i : (i < length es)%nat ->
  (forall e, es !! i = Some e -> ord e.1 t <> Lt) ->
  (forall j e, (j < i)%nat -> es !! j = Some e -> ord e.1 t = Lt) ->
  pos_seek ord es t = Some i.
Proof.
  intros Hi H1 H2. destruct (pos_seek ord es t) as [k|] eqn:Hk.
  - apply pos_seek_some in Hk as (Hlt & H3 & H4). f_equal.
    destruct (lt_eq_lt_dec k i) as [[Hki| ->]|Hki]; [|done|]; exfalso.
    + destruct (lookup_lt_is_Some_2 es k) as [e He]; [lia|]. by apply (H3 e He), (H2 k).
    + destruct (lookup_lt_is_Some_2 es i) as [e He]; [lia|]. by apply (H1 e He), (H4 i).
  - destruct (lookup_lt_is_Some_2 es i) as [e He]; [lia|]. exfalso.
    apply (H1 e He). by apply (pos_seek_none ord es t Hk i).
Qed.

Lemma pos_seek_intro_none ord es t :
  (forall j e, es !! j = Some e -> ord e.1 t = Lt) -> pos_seek ord es t = None.
Proof.
  intros H. destruct (pos_seek ord es t) as [k|] eqn:Hk; [|done].
  apply pos_seek_some in Hk as (Hlt & H3 & _).
  destruct (lookup_lt_is_Some_2 es k) as [e He]; [lia|]. exfalso. by apply (H3 e He), (H k).
Qed.

Lemma pos_first_some {A} (es : list A) k : pos_first es = Some k -> k = O.
Proof. destruct es; cbn; congruence. Qed.
Lemma pos_first_none {A} (es : list A) : pos_first es = None -> es = [].
Proof. by destruct es. Qed.
Lemma pos_last_some {A} (es : list A) k : pos_last es = Some k -> length es = S k.
Proof. destruct es; cbn; intros; simplify_eq; lia. Qed.
Lemma pos_last_none {A} (es : list A) : pos_last es = None -> es = [].
Proof. by destruct es. Qed.

Section sorted.
Context {ord : bytes -> bytes -> comparison} `{!TotalOrd ord}.

Lemma sorted_le es i j a b : sorted_entries ord es -> (i <= j)%nat ->
  es !! i = Some a -> es !! j = Some b -> ord a.1 b.1 <> Gt.
Proof.
  intros Hs Hij Ha Hb. destruct (decide (i = j)) as [->|Hne].
  - simplify_eq. by rewrite ord_refl.
  - rewrite (Hs i j a b); [done|lia|done|done].
Qed.
End sorted.

(** ** Draining an iterator *)

(** The entries met from the current position on, moving with [step] until the
    iterator is not valid; [Panic] when the fuel does not reach the end. *)
Fixpoint drain {I} `{DbIterator I} (step : I -> outcome I) (fuel : nat) (it : I)
  : outcome (list entry) :=
  v ← valid it;
  if v : bool then
    match fuel with
    | O => Panic
    | S fuel =>
        k ← iter_key it;
        x ← iter_value it;
        it ← step it;
        rest ← drain step fuel it;
        Ret ((k, x) :: rest)
    end
  else Ret [].

Definition scan_forward {I} `{DbIterator I} (fuel : nat) (it : I) : outcome (list entry) :=
  it ← seek_to_first it; drain next fuel it.
Definition scan_backward {I} `{DbIterator I} (fuel : nat) (it : I) : outcome (list entry) :=
  it ← seek_to_last it; drain prev fuel it.
Definition scan_from {I} `{DbIterator I} (fuel : nat) (it : I) (target : bytes)
  : outcome (list entry) :=
  it ← seek it target; drain next fuel it.

Definition from_pos (es : list entry) (p : option nat) : list entry :=
  match p with Some i => drop i es | None => [] end.
Definition upto_pos (es : list entry) (p : option nat) : list entry :=
  match p with Some i => rev (take (S i) es) | None => [] end.

Section drain.
Context {I} `{DbIterator I} {ord : bytes -> bytes -> comparison} {es : list entry}
  {target_ok : bytes -> Prop} {at_pos : I -> option nat -> Prop}
  {Hlaws : IterLaws ord es target_ok at_pos}.

Lemma drain_next fuel it p : at_pos it p -> (length (from_pos es p) <= fuel)%nat ->
  drain next fuel it = Ret (from_pos es p).
Proof.
  revert it p. induction fuel as [|fuel IH]; intros it p Hp Hf; cbn [drain];
    rewrite (law_valid _ _ Hp); cbn [mbind outcome_bind].
  { destruct p as [i|]; cbn; [|done]. pose proof (law_bound _ _ Hp).
    cbn in Hf. rewrite length_drop in Hf. lia. }
  destruct p as [i|]; cbn [is_some from_pos]; [|done].
  pose proof (law_bound _ _ Hp) as Hi. destruct (lookup_lt_is_Some_2 es i Hi) as [[k x] He].
  destruct (law_entry _ _ _ Hp He) as [-> ->]. cbn [mbind outcome_bind].
  destruct (law_next _ _ Hp) as (it' & -> & Hp'). cbn [mbind outcome_bind].
  cbn in Hf. rewrite length_drop in Hf.
  assert (Hd : from_pos es (pos_next es i) = drop (S i) es).
  { unfold pos_next. case_decide; [done|]. cbn. by rewrite drop_ge by lia. }
  rewrite (IH it' _ Hp'), Hd; [|rewrite Hd, length_drop; lia].
  cbn. by rewrite (drop_S _ _ _ He).
Qed.

Lemma drain_prev fuel it p : at_pos it p -> (length (upto_pos es p) <= fuel)%nat ->
  drain prev fuel it = Ret (upto_pos es p).
Proof.
  revert it p. induction fuel as [|fuel IH]; intros it p Hp Hf; cbn [drain];
    rewrite (law_valid _ _ Hp); cbn [mbind outcome_bind].
  { destruct p as [i|]; cbn; [|done]. pose proof (law_bound _ _ Hp).
    cbn in Hf. rewrite length_rev, length_take in Hf. lia. }
  destruct p as [i|]; cbn [is_some upto_pos]; [|done].
  pose proof (law_bound _ _ Hp) as Hi. destruct (lookup_lt_is_Some_2 es i Hi) as [[k x] He].
  destruct (law_entry _ _ _ Hp He) as [-> ->]. cbn [mbind outcome_bind].
  destruct (law_prev _ _ Hp) as (it' & -> & Hp'). cbn [mbind outcome_bind].
  cbn [upto_pos] in Hf. rewrite length_rev, length_take in Hf.
  assert (Hd : upto_pos es (pos_prev i) = rev (take i es)) by (by destruct i).
  rewrite (IH it' _ Hp'), Hd; [|rewrite Hd, length_rev, length_take; lia].
  cbn [mbind outcome_bind fst snd]. rewrite (take_S_r _ _ _ He), rev_app_distr. done.
Qed.

Lemma scan_forward_ok fuel it p : at_pos it p -> (length es <= fuel)%nat ->
  scan_forward fuel it = Ret es.
Proof.
  intros Hp Hf. unfold scan_forward. destruct (law_seek_to_first _ _ Hp) as (it' & -> & Hp').
  cbn [mbind outcome_bind]. assert (Hd : from_pos es (pos_first es) = es) by (by destruct es).
  rewrite (drain_next fuel it' _ Hp'); by rewrite Hd.
Qed.

Lemma scan_backward_ok fuel it p : at_pos it p -> (length es <= fuel)%nat ->
  scan_backward fuel it = Ret (rev es).
Proof.
  intros Hp Hf. unfold scan_backward. destruct (law_seek_to_last _ _ Hp) as (it' & -> & Hp').
  cbn [mbind outcome_bind].
  assert (Hu : upto_pos es (pos_last es) = rev es).
  { destruct es as [|e l] eqn:E; [done|]. cbn [pos_last upto_pos]. rewrite <- E.
    rewrite take_ge; [done|]. rewrite E. cbn [length]. lia. }
  rewrite (drain_prev fuel it' _ Hp'); rewrite Hu; [done|]. by rewrite length_rev.
Qed.

(** Where a seek lands, as a list: the entries from the first one not below the
    target. *)
Lemma scan_from_ok fuel it p t : at_pos it p -> target_ok t -> (length es <= fuel)%nat ->
  scan_from fuel it t = Ret (from_pos es (pos_seek ord es t)).
Proof.
  intros Hp Ht Hf. unfold scan_from. destruct (law_seek _ _ _ Hp Ht) as (it' & -> & Hp').
  cbn [mbind outcome_bind]. apply drain_next; [done|].
  destruct (pos_seek ord es t); cbn; [rewrite length_drop|]; lia.
Qed.
End drain.

(** The entries not below the target, as a filter. *)
Definition not_below (ord : bytes -> bytes -> comparison) (t : bytes) (e : entry) : bool :=
  is_ge (ord e.1 t).

(** The first entry not below the target. *)
Definition first_ge (ord : bytes -> bytes -> comparison) (es : list entry) (t : bytes) : option entry :=
  List.find (not_below ord t) es.
Lemma first_ge_app ord a b t : first_ge ord (a ++ b) t =
  match first_ge ord a t with Some e => Some e | None => first_ge ord b t end.
Proof. unfold first_ge. induction a as [|e a IH]; [done|]. cbn. by destruct (not_below ord t e). Qed.
Lemma first_ge_none ord es t : (forall e, e ∈ es -> ord e.1 t = Lt) -> first_ge ord es t = None.
Proof.
  unfold first_ge. induction es as [|e es IH]; intros Hl; [done|]. cbn. unfold not_below at 1.
  rewrite (Hl e) by (by left). apply IH. intros x Hx. apply Hl. by right.
Qed.
Lemma first_ge_pos ord es t : first_ge ord es t = pos_seek ord es t ≫= fun i => es !! i.
Proof.
  unfold first_ge. induction es as [|e es IH]; [done|]. cbn. unfold not_below at 1. destruct (ord e.1 t); [done| |done].
  cbn. rewrite IH. by destruct (pos_seek ord es t).
Qed.

Lemma sorted_tail ord e es : sorted_entries ord (e :: es) -> sorted_entries ord es.
Proof. intros Hs i j a b Hij Ha Hb. apply (Hs (S i) (S j)); [lia|done|done]. Qed.

Lemma sorted_head ord e es x : sorted_entries ord (e :: es) -> x ∈ es -> ord e.1 x.1 = Lt.
Proof.
  intros Hs [i Hi]%list_elem_of_lookup. apply (Hs O (S i)); [lia|done|done].
Qed.

Lemma filter_id {A} (f : A -> bool) l : (forall x, x ∈ l -> f x = true) -> List.filter f l = l.
Proof.
  induction l as [|x l IH]; intros Hf; cbn; [done|].
  rewrite Hf by (by constructor). f_equal. apply IH. intros y Hy. apply Hf. by constructor.
Qed.

Lemma from_pos_filter ord `{!TotalOrd ord} es t : sorted_entries ord es ->
  from_pos es (pos_seek ord es t) = List.filter (not_below ord t) es.
Proof.
  induction es as [|e es IH]; intros Hs; [done|]. cbn [pos_seek List.filter].
  specialize (IH (sorted_tail _ _ _ Hs)).
  destruct (ord e.1 t) eqn:E; cbn [is_lt]; unfold not_below at 1; rewrite E; cbn [is_ge].
  2: { rewrite <- IH. by destruct (pos_seek ord es t). }
  all: cbn; f_equal; symmetry; apply filter_id; intros x Hx; unfold not_below.
  all: destruct (ord x.1 t) eqn:E'; cbn; try done; exfalso.
  all: pose proof (ord_lt_trans _ _ _ (sorted_head _ _ _ _ Hs Hx) E'); congruence.
Qed.

(** Sortedness, decided by comparing neighbours. *)
Fixpoint sortedb (ord : bytes -> bytes -> comparison) (es : list entry) : bool :=
  match es with
  | a :: es =>
      match es with
      | b :: _ => is_lt (ord a.1 b.1) && sortedb ord es
      | [] => true
      end
  | [] => true
  end.

Lemma sorted_cons ord e es : (forall x, x ∈ es -> ord e.1 x.1 = Lt) -> sorted_entries ord es ->
  sorted_entries ord (e :: es).
Proof.
  intros He Hs [|i] [|j] a b Hij Ha Hb; cbn in *; simplify_eq; try lia.
  - by apply He, (list_elem_of_lookup_2 es j).
  - apply (Hs i j); [lia|done|done].
Qed.

Lemma sortedb_sound ord `{!TotalOrd ord} es : sortedb ord es = true -> sorted_entries ord es.
Proof.
  induction es as [|a es IH]; intros H; [by intros i j ? ? _ ?|].
  destruct es as [|b es].
  { apply sorted_cons; [|by apply IH]. intros x Hx. by apply elem_of_nil in Hx. }
  cbn [sortedb] in H. apply andb_prop in H as [H1 H2]. specialize (IH H2).
  assert (Hab : ord a.1 b.1 = Lt) by (by destruct (ord a.1 b.1)).
  apply sorted_cons; [|done]. intros x [->|Hx]%elem_of_cons; [done|].
  apply (ord_lt_trans _ b.1); [done|]. by eapply sorted_head.
Qed.

(** ** The contract is satisfiable: a cursor over a list *)

Module ListIter.
Record t := mk { order : bytes -> bytes -> comparison; entries : list (bytes * bytes); pos : option nat }.

Definition at_ (it : t) (p : option nat) : t := mk (order it) (entries it) p.
Definition current (it : t) : outcome (bytes * bytes) := expect (i ← pos it; entries it !! i).

#[export] Instance List_DbIterator : DbIterator t := {|
  valid it := Ret (is_some (pos it));
  seek_to_first it := Ret (at_ it (pos_first (entries it)));
  seek_to_last it := Ret (at_ it (pos_last (entries it)));
  seek it target := Ret (at_ it (pos_seek (order it) (entries it) target));
  next it := i ← expect (pos it); Ret (at_ it (pos_next (entries it) i));
  prev it := i ← expect (pos it); Ret (at_ it (pos_prev i));
  iter_key it := fst <$> current it;
  iter_value it := snd <$> current it;
  iter_status _ := Ret tt;
|}.

Definition stands (ord : bytes -> bytes -> comparison) (es : list (bytes * bytes)) (it : t) (p : option nat) : Prop :=
  it = mk ord es p /\ match p with Some i => (i < length es)%nat | None => True end.

#[export] Instance List_Laws ord es target_ok : IterLaws ord es target_ok (stands ord es).
Proof.
  split; unfold stands.
  - by intros it p [-> _].
  - by intros it i [_ Hi].
  - intros it p [-> _]. eexists. split; [done|]. split; [done|]. destruct es; cbn; [done|lia].
  - intros it p [-> _]. eexists. split; [done|]. split; [done|]. destruct es; cbn; [done|lia].
  - intros it p t [-> _] _. eexists. split; [done|]. split; [done|].
    destruct (pos_seek ord es t) eqn:E; [|done]. by apply pos_seek_some in E as [? _].
  - intros it i [-> Hi]. eexists. split; [done|]. split; [done|]. unfold pos_next. cbn. by case_decide.
  - intros it i [-> Hi]. eexists. split; [done|]. split; [done|]. destruct i; cbn; [done|lia].
  - intros it i e [-> Hi] He. cbn. unfold current. cbn. by rewrite He.
  - by intros it p [-> _].
Qed.
End ListIter.
#[export] Existing Instances ListIter.List_DbIterator ListIter.List_Laws.
