(* ===== verification/MergingIter.v ===== *)
(** * MergingIter.v: [merging_iter/merging_iter.rs].

    Several sorted iterators seen as one.  The children are proved against the
    [DbIterator] contract and the merging iterator discharges it again, over the sorted
    merge of the children's entries. *)
From S2P Require Import Prelude Status Comparator DbIterator.
From Stdlib Require Import Sorted.

Inductive Direction := Forward | Reverse.
#[export] Instance Direction_eq_dec : EqDecision Direction.
Proof. solve_decision. Defined.

Module MergingIterator.
Record t (C I : Type) := mk {
  comparator : C;
  children : list I;
  current : option nat;
  direction : Direction;
}.
Arguments mk {C I} _ _ _ _.
Arguments comparator {C I} _.
Arguments children {C I} _.
Arguments current {C I} _.
Arguments direction {C I} _.

Section ops.
Context {C I : Type} `{Comparator C} `{DbIterator I}.
Implicit Types self : t C I.

Definition new (c : C) (children : list I) : t C I := mk c children None Forward.
Definition with_children self cs : t C I := mk (comparator self) cs (current self) (direction self).
Definition with_direction self d : t C I := mk (comparator self) (children self) (current self) d.

(** [self.children[i]]. *)
Definition child self (i : nat) : outcome I := expect (children self !! i).

(** The loop of [find_smallest] and [find_largest]: [better] tells whether the order of
    the candidate and the best so far makes the candidate win. *)
Fixpoint pick_loop (better : comparison -> bool) self (rest : list I) (i : nat) (best : option nat)
  : outcome (option nat) :=
  match rest with
  | [] => Ret best
  | c :: rest =>
      v ← valid c;
      if negb v then pick_loop better self rest (S i) best else
      take ← match best with
             | None => Ret true
             | Some s =>
                 k ← iter_key c;
                 b ← child self s;
                 kb ← iter_key b;
                 better <$> compare (comparator self) k kb
             end;
      pick_loop better self rest (S i) (if take : bool then Some i else best)
  end.
Definition pick (better : comparison -> bool) self : outcome (t C I) :=
  cur ← pick_loop better self (children self) 0 None;
  Ret (mk (comparator self) (children self) cur (direction self)).
Definition find_smallest self : outcome (t C I) := pick is_lt self.
Definition find_largest self : outcome (t C I) := pick is_gt self.

Definition valid_ self : outcome bool :=
  match current self with
  | None => Ret false
  | Some i => c ← child self i; valid c
  end.

Definition seek_to_first_ self : outcome (t C I) :=
  cs ← mapM seek_to_first (children self);
  self ← find_smallest (with_children self cs);
  Ret (with_direction self Forward).
Definition seek_to_last_ self : outcome (t C I) :=
  cs ← mapM seek_to_last (children self);
  self ← find_largest (with_children self cs);
  Ret (with_direction self Reverse).
Definition seek_ self (target : bytes) : outcome (t C I) :=
  cs ← mapM (fun c => seek c target) (children self);
  self ← find_smallest (with_children self cs);
  Ret (with_direction self Forward).

(** The child at [i] moved by [f]. *)
Definition move self (i : nat) (f : I -> outcome I) : outcome (t C I) :=
  c ← child self i; c ← f c; Ret (with_children self (<[i := c]> (children self))).

(** Every child but [cur], moved by [f]. *)
Fixpoint turn_loop (cur : nat) (f : I -> outcome I) (cs : list I) (i : nat) : outcome (list I) :=
  match cs with
  | [] => Ret []
  | c :: cs =>
      c ← (if (i =? cur)%nat then Ret c else f c);
      cs ← turn_loop cur f cs (S i);
      Ret (c :: cs)
  end.

Definition turn_forward (cmp : C) (key_owned : bytes) (c : I) : outcome I :=
  c ← seek c key_owned;
  v ← valid c;
  if negb v then Ret c else
  k ← iter_key c;
  o ← compare cmp key_owned k;
  if is_eq o then next c else Ret c.
Definition turn_reverse (key_owned : bytes) (c : I) : outcome I :=
  c ← seek c key_owned;
  v ← valid c;
  if v : bool then prev c else seek_to_last c.

Definition turn self (d : Direction) (f : bytes -> I -> outcome I) : outcome (t C I) :=
  if decide (direction self = d) then Ret self else
  cur ← expect (current self);
  c ← child self cur;
  key_owned ← iter_key c;
  cs ← turn_loop cur (f key_owned) (children self) 0;
  Ret (with_direction (with_children self cs) d).

Definition next_ self : outcome (t C I) :=
  v ← valid_ self; _ ← assert v;
  self ← turn self Forward (turn_forward (comparator self));
  cur ← expect (current self);
  self ← move self cur next;
  find_smallest self.
Definition prev_ self : outcome (t C I) :=
  v ← valid_ self; _ ← assert v;
  self ← turn self Reverse turn_reverse;
  cur ← expect (current self);
  self ← move self cur prev;
  find_largest self.

Definition current_child self : outcome I := cur ← expect (current self); child self cur.
Definition key self : outcome bytes := c ← current_child self; iter_key c.
Definition value self : outcome bytes := c ← current_child self; iter_value c.

Fixpoint status_loop (cs : list I) : outcome unit :=
  match cs with
  | [] => Ret tt
  | c :: cs => match iter_status c with Ret _ => status_loop cs | s => s end
  end.
Definition status self : outcome unit := status_loop (children self).

#[export] Instance Merging_DbIterator : DbIterator (t C I) := {|
  DbIterator.valid := valid_;
  DbIterator.seek_to_first := seek_to_first_;
  DbIterator.seek_to_last := seek_to_last_;
  DbIterator.seek := seek_;
  DbIterator.next := next_;
  DbIterator.prev := prev_;
  DbIterator.iter_key := key;
  DbIterator.iter_value := value;
  DbIterator.iter_status := status;
|}.
End ops.
End MergingIterator.
#[export] Existing Instance MergingIterator.Merging_DbIterator.

(** ** Cuts of the merged list *)

(** The merged list carries the child each entry comes from; child [k] holds the entries
    tagged [k]. *)
Abbreviation tagged := (nat * (bytes * bytes))%type (only parsing).

Definition child_entries (M : list tagged) (k : nat) : list (bytes * bytes) :=
  omap (fun x => if (x.1 =? k)%nat then Some x.2 else None) M.
Definition consumed (M : list tagged) (k i : nat) : nat := length (child_entries (take i M) k).

(** Where child [k] stands when the first [i] merged entries are behind: at its first
    remaining entry going forward, at its last consumed entry going backward. *)
Definition fwd M k i : option nat :=
  if decide (consumed M k i < length (child_entries M k))%nat then Some (consumed M k i) else None.
Definition bwd M k i : option nat := match consumed M k i with O => None | S j => Some j end.

Section cuts.
Context (M : list tagged).
Implicit Types k i j : nat.

Lemma child_entries_app A B k : child_entries (A ++ B) k = child_entries A k ++ child_entries B k.
Proof. apply omap_app. Qed.

Lemma child_entries_split k i :
  child_entries M k = child_entries (take i M) k ++ child_entries (drop i M) k.
Proof. by rewrite <- child_entries_app, take_drop. Qed.

Lemma consumed_le k i : (consumed M k i <= length (child_entries M k))%nat.
Proof. unfold consumed. rewrite (child_entries_split k i), length_app. lia. Qed.

Lemma consumed_lookup k i : child_entries M k !! consumed M k i = head (child_entries (drop i M) k).
Proof.
  unfold consumed. rewrite (child_entries_split k i) at 1. rewrite lookup_app_r, Nat.sub_diag by done.
  by rewrite head_lookup.
Qed.

Lemma consumed_here k i e : M !! i = Some (k, e) ->
  consumed M k (S i) = S (consumed M k i) /\ child_entries M k !! consumed M k i = Some e.
Proof.
  intros Hi. rewrite consumed_lookup, (drop_S _ _ _ Hi). unfold consumed.
  rewrite (take_S_r _ _ _ Hi), child_entries_app, length_app. cbn. rewrite Nat.eqb_refl. cbn. split; [lia|done].
Qed.

Lemma consumed_other k k' i e : M !! i = Some (k, e) -> k' <> k -> consumed M k' (S i) = consumed M k' i.
Proof.
  intros Hi Hne. unfold consumed. rewrite (take_S_r _ _ _ Hi), child_entries_app, length_app. cbn.
  rewrite (proj2 (Nat.eqb_neq k k')) by done. cbn. lia.
Qed.

(** The first remaining entry of a child is an entry of the merged list, not before the cut. *)
Lemma head_position k i e : head (child_entries (drop i M) k) = Some e ->
  exists j, (i <= j)%nat /\ M !! j = Some (k, e).
Proof.
  intros Hh. assert (Hin : e ∈ child_entries (drop i M) k).
  { destruct (child_entries _ _); [done|]. injection Hh as ->. by constructor. }
  unfold child_entries in Hin. apply list_elem_of_omap in Hin as ([k' e'] & Hin & He). cbn in He.
  destruct (Nat.eqb_spec k' k); [|done]. simplify_eq.
  apply list_elem_of_lookup in Hin as [j Hj]. rewrite lookup_drop in Hj. exists (i + j)%nat. split; [lia|done].
Qed.

Lemma last_position k i j e : bwd M k i = Some j -> child_entries M k !! j = Some e ->
  exists j', (j' < i)%nat /\ M !! j' = Some (k, e).
Proof.
  unfold bwd. destruct (consumed M k i) as [|j0] eqn:Ec; [done|]. intros [= ->] He.
  rewrite (child_entries_split k i), lookup_app_l in He by (unfold consumed in Ec; lia).
  apply list_elem_of_lookup_2 in He. unfold child_entries in He.
  apply list_elem_of_omap in He as ([k' e'] & Hin & He'). cbn in He'.
  destruct (Nat.eqb_spec k' k); [|done]. simplify_eq.
  apply list_elem_of_lookup in Hin as [j' Hj']. apply lookup_take_Some in Hj' as [Hj' Hlt]. eauto.
Qed.

Lemma fwd_entry k i j e : fwd M k i = Some j -> child_entries M k !! j = Some e ->
  exists j', (i <= j')%nat /\ M !! j' = Some (k, e).
Proof.
  unfold fwd. case_decide; [|done]. intros [= <-] He. rewrite consumed_lookup in He. by apply head_position.
Qed.

Lemma fwd_here k i e : M !! i = Some (k, e) -> fwd M k i = Some (consumed M k i).
Proof.
  intros Hi. destruct (consumed_here k i e Hi) as [_ Hl]. unfold fwd. rewrite decide_True; [done|].
  by eapply lookup_lt_Some.
Qed.
Lemma bwd_here k i e : M !! i = Some (k, e) -> bwd M k (S i) = Some (consumed M k i).
Proof. intros Hi. unfold bwd. by rewrite (proj1 (consumed_here k i e Hi)). Qed.

Lemma fwd_end k i : (length M <= i)%nat -> fwd M k i = None.
Proof. intros Hi. unfold fwd, consumed. rewrite take_ge, decide_False by lia. done. Qed.
Lemma bwd_start k : bwd M k 0 = None.
Proof. done. Qed.

Lemma fwd_first k : pos_first (child_entries M k) = fwd M k 0.
Proof. unfold fwd, consumed. cbn. by destruct (child_entries M k). Qed.
Lemma bwd_last k i : consumed M k i = length (child_entries M k) -> pos_last (child_entries M k) = bwd M k i.
Proof.
  intros Hc. unfold bwd. rewrite Hc. destruct (child_entries M k); [done|]. cbn. f_equal. lia.
Qed.
Lemma consumed_all k : consumed M k (length M) = length (child_entries M k).
Proof. unfold consumed. by rewrite take_ge. Qed.

Lemma fwd_next k i e : M !! i = Some (k, e) -> pos_next (child_entries M k) (consumed M k i) = fwd M k (S i).
Proof. intros Hi. unfold pos_next, fwd. by rewrite (proj1 (consumed_here k i e Hi)). Qed.
Lemma bwd_prev k i : pos_prev (consumed M k i) = bwd M k i.
Proof. done. Qed.
Lemma fwd_other k k' i e : M !! i = Some (k, e) -> k' <> k -> fwd M k' (S i) = fwd M k' i.
Proof. intros Hi Hne. unfold fwd. by rewrite (consumed_other k k' i e). Qed.
Lemma bwd_other k k' i e : M !! i = Some (k, e) -> k' <> k -> bwd M k' (S i) = bwd M k' i.
Proof. intros Hi Hne. unfold bwd. by rewrite (consumed_other k k' i e). Qed.

(** A target cuts every child where it cuts the merged list. *)
Definition cut_of (ord : bytes -> bytes -> comparison) (t : bytes) : nat :=
  default (length M) (pos_seek ord (map snd M) t).

Lemma cut_sides ord t : TotalOrd ord -> sorted_entries ord (map snd M) ->
  (forall j x, (j < cut_of ord t)%nat -> M !! j = Some x -> ord x.2.1 t = Lt) /\
  (forall j x, (cut_of ord t <= j)%nat -> M !! j = Some x -> ord x.2.1 t <> Lt) /\
  (cut_of ord t <= length M)%nat.
Proof.
  intros Ho Hs. unfold cut_of. destruct (pos_seek ord (map snd M) t) as [i|] eqn:Ep; cbn [default from_option id].
  - apply pos_seek_some in Ep as (Hi & Hge & Hlt). rewrite length_map in Hi. split_and!; [| |lia].
    + intros j x Hj Hx. apply (Hlt j x.2 Hj). by rewrite list_lookup_fmap, Hx.
    + intros j x Hj Hx E. destruct (lookup_lt_is_Some_2 M i Hi) as [y Hy].
      assert (Hyl : map snd M !! i = Some y.2) by (by rewrite list_lookup_fmap, Hy).
      assert (Hxl : map snd M !! j = Some x.2) by (by rewrite list_lookup_fmap, Hx).
      apply (Hge y.2 Hyl). eapply ord_le_lt_trans; [|exact E]. by eapply (sorted_le (map snd M) i j).
  - split_and!; [|intros j x Hj Hx; apply lookup_lt_Some in Hx; lia|done].
    intros j x _ Hx. eapply (pos_seek_none _ _ _ Ep j). by rewrite list_lookup_fmap, Hx.
Qed.

Lemma fwd_seek ord t k : TotalOrd ord -> sorted_entries ord (map snd M) ->
  pos_seek ord (child_entries M k) t = fwd M k (cut_of ord t).
Proof.
  intros Ho Hs. destruct (cut_sides ord t Ho Hs) as (Hlt & Hge & Hle).
  assert (Hbefore : forall j e, (j < consumed M k (cut_of ord t))%nat -> child_entries M k !! j = Some e -> ord e.1 t = Lt).
  { intros j e Hj He. rewrite (child_entries_split k (cut_of ord t)), lookup_app_l in He by done.
    apply list_elem_of_lookup_2, list_elem_of_omap in He as ([k' e'] & Hin & He'). cbn in He'.
    destruct (Nat.eqb_spec k' k); [|done]. simplify_eq.
    apply list_elem_of_lookup in Hin as [j' Hj']. apply lookup_take_Some in Hj' as [Hj' Hlt'].
    by apply (Hlt j' (k, e)). }
  unfold fwd. case_decide as Hd.
  - apply pos_seek_intro; [done| |done]. intros e He. rewrite consumed_lookup in He.
    destruct (head_position _ _ _ He) as (j & Hj & HM). by apply (Hge j (k, e)).
  - apply pos_seek_intro_none. intros j e He. apply (Hbefore j); [|done].
    apply lookup_lt_Some in He. pose proof (consumed_le k (cut_of ord t)). lia.
Qed.

Lemma cut_of_key ord i x : TotalOrd ord -> sorted_entries ord (map snd M) -> M !! i = Some x ->
  cut_of ord x.2.1 = i.
Proof.
  intros Ho Hs Hx. unfold cut_of. rewrite (pos_seek_intro _ _ _ i); [done|..].
  - rewrite length_map. by eapply lookup_lt_Some.
  - intros e He. rewrite list_lookup_fmap, Hx in He. injection He as <-. by rewrite ord_refl.
  - intros j e Hj He. apply (Hs j i e x.2 Hj He). by rewrite list_lookup_fmap, Hx.
Qed.
End cuts.

(** ** The children, moved together *)

Lemma mapM_ok {A B} (f : A -> outcome B) (P : nat -> B -> Prop) l :
  (forall k x, l !! k = Some x -> exists y, f x = Ret y /\ P k y) ->
  exists l', mapM f l = Ret l' /\ length l' = length l /\ forall k y, l' !! k = Some y -> P k y.
Proof.
  revert P. induction l as [|x l IH]; intros P Hf; cbn [mapM].
  { exists []. split_and!; [done|done|intros k y Hy; by rewrite lookup_nil in Hy]. }
  destruct (Hf O x eq_refl) as (y & -> & Hy). cbn [mbind outcome_bind].
  destruct (IH (fun k => P (S k))) as (l' & -> & Hl & Hp); [intros k z Hz; by apply (Hf (S k))|].
  exists (y :: l'). split_and!; [done|cbn; lia|]. intros [|k] z Hz; cbn in Hz; [congruence|by apply Hp].
Qed.

Lemma turn_loop_ok {I} cur (f : I -> outcome I) (P : nat -> I -> Prop) l i :
  (forall k x, l !! k = Some x -> if decide (i + k = cur)%nat then P (i + k)%nat x else
     exists y, f x = Ret y /\ P (i + k)%nat y) ->
  exists l', MergingIterator.turn_loop cur f l i = Ret l' /\ length l' = length l /\
    forall k y, l' !! k = Some y -> P (i + k)%nat y.
Proof.
  revert i. induction l as [|x l IH]; intros i Hf; cbn [MergingIterator.turn_loop].
  { exists []. split_and!; [done|done|intros k y Hy; by rewrite lookup_nil in Hy]. }
  assert (Hx : exists y, (if (i =? cur)%nat then Ret x else f x) = Ret y /\ P i y).
  { pose proof (Hf O x eq_refl) as H0. rewrite Nat.add_0_r in H0.
    destruct (Nat.eqb_spec i cur), (decide (i = cur)); try done. by exists x. }
  destruct Hx as (y & -> & Hy). cbn [mbind outcome_bind].
  destruct (IH (S i)) as (l' & -> & Hl & Hp).
  { intros k z Hz. pose proof (Hf (S k) z Hz) as Hk. by rewrite Nat.add_succ_r in Hk. }
  exists (y :: l'). split_and!; [done|cbn; lia|]. intros [|k] z Hz; cbn in Hz.
  - simplify_eq. by rewrite Nat.add_0_r.
  - rewrite Nat.add_succ_r. by apply Hp.
Qed.

(** ** The merging iterator keeps the contract *)

Section merging.
Context {C I : Type} `{Comparator C} `{DbIterator I} (c : C) (key_ok : bytes -> Prop)
  (ord : bytes -> bytes -> comparison) `{!ComparatorLaws c key_ok ord}
  (target_ok : bytes -> Prop) (M : list tagged) (n : nat) (at_pos : nat -> I -> option nat -> Prop).

#[local] Instance merging_total : TotalOrd ord := laws_ord (c:=c).

(** Child [k] keeps the contract over its entries; the merged keys increase strictly. *)
Context (Hlaws : forall k, (k < n)%nat -> IterLaws ord (child_entries M k) target_ok (at_pos k))
  (Hsorted : sorted_entries ord (map snd M))
  (Htags : Forall (fun x => (x.1 < n)%nat) M)
  (Hkeys : Forall (fun x => key_ok x.2.1 /\ target_ok x.2.1) M).

Definition placed (cs : list I) (pos : nat -> option nat) : Prop :=
  length cs = n /\ forall k ch, cs !! k = Some ch -> at_pos k ch (pos k).

Lemma law k ch (cs : list I) : length cs = n -> cs !! k = Some ch -> IterLaws ord (child_entries M k) target_ok (at_pos k).
Proof. intros Hn Hch. apply Hlaws. rewrite <- Hn. by eapply lookup_lt_Some. Qed.

(** What the loop compares: the entry each child stands at. *)
Definition stands (pos : nat -> option nat) (k : nat) : option (bytes * bytes) :=
  j ← pos k; child_entries M k !! j.

(** The loop finds the winning child, if one beats all others. *)
Definition winner (better : comparison -> bool) (pos : nat -> option nat) (w : option nat) : Prop :=
  match w with
  | None => forall k, (k < n)%nat -> pos k = None
  | Some k => (k < n)%nat /\ exists e, stands pos k = Some e /\
      forall k' e', (k' < n)%nat -> k' <> k -> stands pos k' = Some e' ->
        better (ord e.1 e'.1) = true /\ better (ord e'.1 e.1) = false
  end.

Lemma entry_key_ok_M k j e : child_entries M k !! j = Some e -> key_ok e.1 /\ target_ok e.1.
Proof.
  intros He%list_elem_of_lookup_2. apply list_elem_of_omap in He as ([k' e'] & Hin & He'). cbn in He'.
  destruct (Nat.eqb_spec k' k); [|done]. simplify_eq. rewrite Forall_forall in Hkeys. by apply (Hkeys (k, e)).
Qed.

Lemma pick_loop_ok better self pos w rest i best :
  MergingIterator.comparator self = c -> placed (MergingIterator.children self) pos ->
  winner better pos w -> drop i (MergingIterator.children self) = rest ->
  match best with None => True | Some s => (s < i)%nat /\ exists e, stands pos s = Some e end ->
  match w with Some k => (k < i)%nat -> best = Some k | None => best = None end ->
  MergingIterator.pick_loop better self rest i best = Ret w.
Proof.
  intros Hc [Hn Hp] Hw. revert i best. induction rest as [|ch rest IH]; intros i best Hr Hb Hbw; cbn [MergingIterator.pick_loop].
  { assert (Hni : (n <= i)%nat).
    { rewrite <- Hn. destruct (decide (i < length (MergingIterator.children self))%nat); [|lia].
      apply (f_equal length) in Hr. rewrite length_drop in Hr. cbn in Hr. lia. }
    destruct w as [k|]; [destruct Hw as [Hk _]; rewrite Hbw by lia; done|by rewrite Hbw]. }
  assert (Hch : MergingIterator.children self !! i = Some ch).
  { rewrite <- (Nat.add_0_r i), <- lookup_drop, Hr. done. }
  assert (Hr' : drop (S i) (MergingIterator.children self) = rest).
  { replace (S i) with (i + 1)%nat by lia. by rewrite <- drop_drop, Hr. }
  pose proof (law i ch _ Hn Hch) as Hlaw. pose proof (Hp i ch Hch) as Hat.
  assert (Hin : (i < n)%nat) by (rewrite <- Hn; by eapply lookup_lt_Some).
  rewrite (law_valid _ _ Hat). cbn [mbind outcome_bind].
  destruct (pos i) as [j|] eqn:Ej; cbn [is_some negb].
  2: { apply IH; [done| |].
       - destruct best; [|done]. destruct Hb. split; [lia|done].
       - destruct w as [k|]; [|done]. intros Hk. apply Hbw.
         destruct Hw as (_ & e & He & _). assert (k <> i); [|lia]. intros ->. unfold stands in He. by rewrite Ej in He. }
  pose proof (law_bound _ _ Hat) as Hjb. destruct (lookup_lt_is_Some_2 _ _ Hjb) as [e He].
  assert (Hst : stands pos i = Some e) by (unfold stands; by rewrite Ej).
  destruct (law_entry _ _ _ Hat He) as [Ek _]. destruct (entry_key_ok_M _ _ _ He) as [Heok _].
  assert (Htake : exists tk, (match best with None => Ret true | Some s =>
      k ← iter_key ch; b ← MergingIterator.child self s; kb ← iter_key b;
      better <$> compare (MergingIterator.comparator self) k kb end) = Ret tk /\
    match best with None => tk = true | Some s => exists e', stands pos s = Some e' /\ tk = better (ord e.1 e'.1) end).
  { destruct best as [s|]; [|eauto]. destruct Hb as (Hs & e' & He').
    destruct (lookup_lt_is_Some_2 (MergingIterator.children self) s) as [b Hb]; [lia|].
    pose proof (law s b _ Hn Hb) as Hlaws'. pose proof (Hp s b Hb) as Hats.
    unfold stands in He'. destruct (pos s) as [js|] eqn:Ejs; [|done]. cbn in He'.
    destruct (law_entry _ _ _ Hats He') as [Eks _]. destruct (entry_key_ok_M _ _ _ He') as [Heok' _].
    rewrite Ek. cbn [mbind outcome_bind]. unfold MergingIterator.child. rewrite Hb. cbn [expect mbind outcome_bind].
    rewrite Eks. cbn [mbind outcome_bind]. rewrite Hc, compare_ord by done. cbn [fmap outcome_fmap].
    eexists. split; [done|]. exists e'. split; [|done]. unfold stands. by rewrite Ejs. }
  destruct Htake as (tk & -> & Htk). cbn [mbind outcome_bind]. apply IH; [done| |].
  - destruct tk; [split; [lia|eauto]|]. destruct best as [s|]; [|done]. destruct Hb. split; [lia|done].
  - destruct w as [k|].
    + intros Hk. destruct Hw as (_ & ew & Hew & Hbest). destruct (decide (k = i)) as [->|Hne].
      * destruct best as [s|]; [|by rewrite Htk]. destruct Htk as (e' & He' & ->). destruct Hb as [Hs _].
        rewrite Hst in Hew. simplify_eq. rewrite (proj1 (Hbest s e' ltac:(lia) ltac:(lia) He')). done.
      * rewrite Hbw in * by lia. destruct Htk as (e' & He' & ->). rewrite Hew in He'. simplify_eq.
        rewrite (proj2 (Hbest i e Hin ltac:(lia) Hst)). done.
    + exfalso. specialize (Hw i Hin). congruence.
Qed.

Lemma pick_ok better self pos w : MergingIterator.comparator self = c ->
  placed (MergingIterator.children self) pos -> winner better pos w ->
  MergingIterator.pick better self =
  Ret (MergingIterator.mk (MergingIterator.comparator self) (MergingIterator.children self) w (MergingIterator.direction self)).
Proof.
  intros Hc Hp Hw. unfold MergingIterator.pick.
  rewrite (pick_loop_ok better self pos w _ 0 None) by (done || (destruct w; [lia|done])). done.
Qed.

(** The winner at a cut is the child of the next merged entry, or of the last one. *)
Lemma tag_bound i k e : M !! i = Some (k, e) -> (k < n)%nat.
Proof. intros Hi. rewrite Forall_lookup in Htags. by apply (Htags i (k, e)). Qed.

Lemma keys_lt i j x y : (i < j)%nat -> M !! i = Some x -> M !! j = Some y -> ord x.2.1 y.2.1 = Lt.
Proof.
  intros Hij Hx Hy. apply (Hsorted i j x.2 y.2 Hij); by rewrite list_lookup_fmap, ?Hx, ?Hy.
Qed.

Lemma winner_fwd i : winner is_lt (fun k => fwd M k i) (fst <$> M !! i).
Proof.
  destruct (M !! i) as [[k e]|] eqn:Hi; cbn [fmap option_fmap option_map winner fst].
  - split; [by eapply tag_bound|]. exists e. destruct (consumed_here M k i e Hi) as [_ He].
    split; [unfold stands; by rewrite (fwd_here M k i e Hi)|].
    intros k' e' Hk' Hne Hst. unfold stands in Hst. destruct (fwd M k' i) as [j|] eqn:Ej; [|done].
    destruct (fwd_entry M k' i j e' Ej Hst) as (j' & Hj' & HM).
    assert (i <> j') by (intros ->; congruence).
    pose proof (keys_lt i j' (k, e) (k', e') ltac:(lia) Hi HM) as Hlt. cbn in Hlt.
    rewrite (ord_opp (ord:=ord) e.1 e'.1), Hlt. done.
  - intros k _. apply fwd_end. by apply lookup_ge_None_1.
Qed.

Lemma winner_bwd i : (i <= length M)%nat ->
  winner is_gt (fun k => bwd M k i) (match i with O => None | S i => fst <$> M !! i end).
Proof.
  intros Hle. destruct i as [|i]; [by intros k _|].
  destruct (lookup_lt_is_Some_2 M i) as [[k e] Hi]; [lia|]. rewrite Hi. cbn [fmap option_fmap option_map winner fst].
  split; [by eapply tag_bound|]. exists e. destruct (consumed_here M k i e Hi) as [_ He].
  split; [unfold stands; by rewrite (bwd_here M k i e Hi)|].
  intros k' e' Hk' Hne Hst. unfold stands in Hst. destruct (bwd M k' (S i)) as [j|] eqn:Ej; [|done].
  destruct (last_position M k' (S i) j e' Ej Hst) as (j' & Hj' & HM).
  assert (i <> j') by (intros ->; congruence).
  pose proof (keys_lt j' i (k', e') (k, e) ltac:(lia) HM Hi) as Hlt. cbn in Hlt.
  rewrite (ord_opp (ord:=ord) e'.1 e.1), Hlt. done.
Qed.

(** ** States of the merging iterator *)

Notation it := (MergingIterator.t C I).
Implicit Types self : it.

Definition dir_pos (d : Direction) (i k : nat) : option nat :=
  match d with Forward => fwd M k i | Reverse => bwd M k (S i) end.

(** The iterator stands at merged entry [i]: its children are at the cut before it (going
    forward) or behind it (going backward), and the current child is the entry's. *)
Definition merge_at (self : it) (p : option nat) : Prop :=
  MergingIterator.comparator self = c /\
  match p with
  | None => MergingIterator.current self = None /\ exists pos, placed (MergingIterator.children self) pos
  | Some i => exists k e, M !! i = Some (k, e) /\ MergingIterator.current self = Some k /\
      placed (MergingIterator.children self) (dir_pos (MergingIterator.direction self) i)
  end.

Lemma merge_placed self p : merge_at self p -> exists pos, placed (MergingIterator.children self) pos.
Proof. intros [_ Hp]. destruct p as [i|]; [|tauto]. destruct Hp as (k & e & _ & _ & Hp). eauto. Qed.

Definition at_cut (i : nat) : option nat := if decide (i < length M)%nat then Some i else None.
Definition before_cut (i : nat) : option nat := match i with O => None | S i => Some i end.

Lemma settle_forward self i : MergingIterator.comparator self = c ->
  placed (MergingIterator.children self) (fun k => fwd M k i) ->
  exists self', MergingIterator.find_smallest self = Ret self' /\
    MergingIterator.direction self' = MergingIterator.direction self /\
    merge_at (MergingIterator.with_direction self' Forward) (at_cut i).
Proof.
  intros Hc Hp. unfold MergingIterator.find_smallest.
  rewrite (pick_ok is_lt self _ (fst <$> M !! i) Hc Hp (winner_fwd i)).
  eexists. split; [done|]. split; [done|]. split; [done|]. unfold at_cut. cbn.
  case_decide as Hd.
  - destruct (lookup_lt_is_Some_2 M i Hd) as [[k e] Hi]. exists k, e. rewrite Hi. by split_and!.
  - rewrite lookup_ge_None_2 by lia. eauto.
Qed.

Lemma settle_backward self i : MergingIterator.comparator self = c -> (i <= length M)%nat ->
  placed (MergingIterator.children self) (fun k => bwd M k i) ->
  exists self', MergingIterator.find_largest self = Ret self' /\
    MergingIterator.direction self' = MergingIterator.direction self /\
    merge_at (MergingIterator.with_direction self' Reverse) (before_cut i).
Proof.
  intros Hc Hi Hp. unfold MergingIterator.find_largest.
  rewrite (pick_ok is_gt self _ _ Hc Hp (winner_bwd i Hi)).
  eexists. split; [done|]. split; [done|]. split; [done|]. unfold before_cut. cbn.
  destruct i as [|i]; [eauto|]. destruct (lookup_lt_is_Some_2 M i) as [[k e] Hk]; [lia|].
  exists k, e. rewrite Hk. by split_and!.
Qed.

Lemma with_direction_id (self : it) : MergingIterator.with_direction self (MergingIterator.direction self) = self.
Proof. by destruct self. Qed.

(** Moving all children the same way. *)
Lemma all_children (f : I -> outcome I) self p pos' : merge_at self p ->
  (forall k ch q, (k < n)%nat -> at_pos k ch q -> exists ch', f ch = Ret ch' /\ at_pos k ch' (pos' k)) ->
  exists cs, mapM f (MergingIterator.children self) = Ret cs /\ placed cs pos'.
Proof.
  intros Hm Hf. destruct (merge_placed _ _ Hm) as (pos & Hn & Hp).
  destruct (mapM_ok f (fun k ch => at_pos k ch (pos' k)) (MergingIterator.children self)) as (cs & E & Hl & Hcs).
  { intros k ch Hch. apply (Hf k ch (pos k)); [|by apply Hp]. rewrite <- Hn. by eapply lookup_lt_Some. }
  exists cs. split; [done|]. split; [congruence|done].
Qed.

(** The current child. *)
Lemma current_at self i k e : M !! i = Some (k, e) -> MergingIterator.current self = Some k ->
  placed (MergingIterator.children self) (dir_pos (MergingIterator.direction self) i) ->
  exists ch, MergingIterator.children self !! k = Some ch /\
    at_pos k ch (Some (consumed M k i)) /\ child_entries M k !! consumed M k i = Some e /\
    iter_key ch = Ret e.1 /\ iter_value ch = Ret e.2.
Proof.
  intros Hi Hc [Hn Hp]. destruct (lookup_lt_is_Some_2 (MergingIterator.children self) k) as [ch Hch].
  { rewrite Hn. by eapply tag_bound. }
  exists ch. split; [done|]. pose proof (Hp k ch Hch) as Hat.
  assert (Hdir : dir_pos (MergingIterator.direction self) i k = Some (consumed M k i)).
  { unfold dir_pos. destruct (MergingIterator.direction self); [by eapply fwd_here|by eapply bwd_here]. }
  rewrite Hdir in Hat. destruct (consumed_here M k i e Hi) as [_ He].
  pose proof (law k ch _ Hn Hch) as Hlaw. destruct (law_entry _ _ _ Hat He) as [-> ->]. by split_and!.
Qed.

(** Turning round puts every other child at the cut the new direction needs. *)
Lemma turn_child_forward i k k' e ch : M !! i = Some (k, e) -> (k' < n)%nat -> k' <> k ->
  (exists q, at_pos k' ch q) ->
  exists ch', MergingIterator.turn_forward c e.1 ch = Ret ch' /\ at_pos k' ch' (fwd M k' i).
Proof.
  intros Hi Hk' Hne (q & Hat). pose proof (Hlaws k' Hk') as Hlaw.
  destruct (proj1 (Forall_lookup _ _) Hkeys i (k, e) Hi) as [Hek Het]. cbn in Hek, Het.
  pose proof (cut_of_key M ord i (k, e) _ Hsorted Hi) as Hcut. cbn in Hcut.
  unfold MergingIterator.turn_forward. destruct (law_seek _ _ _ Hat Het) as (ch' & -> & Hat').
  rewrite (fwd_seek M ord e.1 k' _ Hsorted), Hcut in Hat'.
  cbn [mbind outcome_bind]. rewrite (law_valid _ _ Hat'). cbn [mbind outcome_bind].
  destruct (fwd M k' i) as [j|] eqn:Ej; cbn [is_some negb]; [|eauto].
  pose proof (law_bound _ _ Hat') as Hb. destruct (lookup_lt_is_Some_2 _ _ Hb) as [e' He'].
  destruct (law_entry _ _ _ Hat' He') as [-> _]. cbn [mbind outcome_bind].
  destruct (entry_key_ok_M _ _ _ He') as [Hek' _]. rewrite compare_ord by done. cbn [mbind outcome_bind].
  destruct (fwd_entry M k' i j e' Ej He') as (j' & Hj' & HM).
  assert (i <> j') by (intros ->; congruence).
  pose proof (keys_lt i j' (k, e) (k', e') ltac:(lia) Hi HM) as Hlt. cbn in Hlt. rewrite Hlt. cbn [is_eq]. eauto.
Qed.

Lemma turn_child_reverse i k k' e ch : M !! i = Some (k, e) -> (k' < n)%nat -> k' <> k ->
  (exists q, at_pos k' ch q) ->
  exists ch', MergingIterator.turn_reverse e.1 ch = Ret ch' /\ at_pos k' ch' (bwd M k' (S i)).
Proof.
  intros Hi Hk' Hne (q & Hat). pose proof (Hlaws k' Hk') as Hlaw.
  destruct (proj1 (Forall_lookup _ _) Hkeys i (k, e) Hi) as [_ Het]. cbn in Het.
  pose proof (cut_of_key M ord i (k, e) _ Hsorted Hi) as Hcut. cbn in Hcut.
  unfold MergingIterator.turn_reverse. destruct (law_seek _ _ _ Hat Het) as (ch' & -> & Hat').
  rewrite (fwd_seek M ord e.1 k' _ Hsorted), Hcut in Hat'.
  cbn [mbind outcome_bind]. rewrite (law_valid _ _ Hat'). cbn [mbind outcome_bind].
  rewrite (bwd_other M k k' i e Hi Hne). destruct (fwd M k' i) as [j|] eqn:Ej; cbn [is_some].
  - unfold fwd in Ej. case_decide; [|done]. injection Ej as <-.
    destruct (law_prev _ _ Hat') as (ch2 & -> & Hat2). eauto.
  - destruct (law_seek_to_last _ _ Hat') as (ch2 & -> & Hat2). exists ch2. split; [done|].
    rewrite (bwd_last M k' i) in Hat2; [done|]. unfold fwd in Ej. case_decide; [done|].
    pose proof (consumed_le M k' i). lia.
Qed.

Lemma turn_ok (self : it) i d : merge_at self (Some i) ->
  exists self', MergingIterator.turn self d
      (match d with Forward => MergingIterator.turn_forward (MergingIterator.comparator self)
                  | Reverse => MergingIterator.turn_reverse end) = Ret self' /\
    MergingIterator.direction self' = d /\ merge_at self' (Some i).
Proof.
  intros (Hc & k & e & Hi & Hcur & Hp). unfold MergingIterator.turn.
  case_decide as Hd; [exists self; split_and!; [done..|]; split; [done|]; by exists k, e|].
  rewrite Hcur. cbn [expect mbind outcome_bind]. unfold MergingIterator.child.
  destruct (current_at self i k e Hi Hcur Hp) as (ch & Hch & Hat & He & Hkey & _).
  rewrite Hch. cbn [expect mbind outcome_bind]. rewrite Hkey, Hc. cbn [mbind outcome_bind]. destruct Hp as [Hn Hp].
  destruct (turn_loop_ok k (match d with Forward => MergingIterator.turn_forward c | Reverse => MergingIterator.turn_reverse end e.1)
    (fun k ch => at_pos k ch (dir_pos d i k)) (MergingIterator.children self) 0) as (cs & E & Hl & Hcs).
  { intros k' ch' Hch'. rewrite Nat.add_0_l. assert (k' < n)%nat by (rewrite <- Hn; by eapply lookup_lt_Some).
    case_decide as Hk.
    - subst k'. rewrite Hch in Hch'. simplify_eq.
      destruct d; unfold dir_pos; [rewrite (fwd_here M k i e Hi)|rewrite (bwd_here M k i e Hi)]; done.
    - destruct d; [eapply turn_child_forward|eapply turn_child_reverse]; eauto. }
  exists (MergingIterator.with_direction (MergingIterator.with_children self cs) d).
  split_and!; [|done|].
  - destruct d; rewrite E; done.
  - split; [done|]. exists k, e. split_and!; [done|done|]. split; [cbn; congruence|exact Hcs].
Qed.

(** Moving the current child across the cut. *)
Lemma move_ok (self : it) i k e d f : M !! i = Some (k, e) -> MergingIterator.current self = Some k ->
  MergingIterator.direction self = d -> placed (MergingIterator.children self) (dir_pos d i) ->
  (forall ch, at_pos k ch (Some (consumed M k i)) -> exists ch', f ch = Ret ch' /\
     at_pos k ch' (match d with Forward => fwd M k (S i) | Reverse => bwd M k i end)) ->
  exists cs, MergingIterator.move self k f = Ret (MergingIterator.with_children self cs) /\
    placed cs (fun k => match d with Forward => fwd M k (S i) | Reverse => bwd M k i end).
Proof.
  intros Hi Hcur Hd Hp Hf. subst d. destruct (current_at self i k e Hi Hcur Hp) as (ch & Hch & Hat & _).
  unfold MergingIterator.move, MergingIterator.child. rewrite Hch. cbn [expect mbind outcome_bind].
  destruct (Hf ch Hat) as (ch' & -> & Hat'). cbn [mbind outcome_bind]. eexists. split; [done|].
  destruct Hp as [Hn Hp]. split; [by rewrite length_insert|]. intros k' x Hx.
  destruct (decide (k' = k)) as [->|Hne].
  - rewrite list_lookup_insert_eq in Hx by (by eapply lookup_lt_Some). by simplify_eq.
  - rewrite list_lookup_insert_ne in Hx by done. specialize (Hp k' x Hx). unfold dir_pos in Hp.
    destruct (MergingIterator.direction self).
    + by rewrite (fwd_other M k k' i e Hi Hne).
    + by rewrite <- (bwd_other M k k' i e Hi Hne).
Qed.

Lemma status_ok cs : (forall ch, ch ∈ cs -> iter_status ch = Ret tt) -> MergingIterator.status_loop cs = Ret tt.
Proof.
  induction cs as [|ch cs IH]; intros Hs; [done|]. cbn. rewrite (Hs ch) by (by constructor).
  apply IH. intros x Hx. apply Hs. by constructor.
Qed.

Lemma at_cut_seek t : at_cut (cut_of M ord t) = pos_seek ord (map snd M) t.
Proof.
  unfold at_cut, cut_of. destruct (pos_seek ord (map snd M) t) as [i|] eqn:Ep; cbn.
  - apply pos_seek_some in Ep as (Hi & _). rewrite length_map in Hi. by rewrite decide_True.
  - by rewrite decide_False by lia.
Qed.

Lemma merge_valid self p : merge_at self p -> MergingIterator.valid_ self = Ret (is_some p).
Proof.
  intros [Hc Hp]. unfold MergingIterator.valid_. destruct p as [i|].
  - destruct Hp as (k & e & Hi & Hcur & Hp). rewrite Hcur. unfold MergingIterator.child.
    destruct (current_at self i k e Hi Hcur Hp) as (ch & Hch & Hat & _).
    rewrite Hch. cbn [expect mbind outcome_bind].
    pose proof (law k ch _ (proj1 Hp) Hch) as Hlaw. apply (law_valid _ _ Hat).
  - destruct Hp as [Hcur _]. by rewrite Hcur.
Qed.

Lemma merge_next self i : merge_at self (Some i) ->
  exists self', MergingIterator.next_ self = Ret self' /\ merge_at self' (at_cut (S i)).
Proof.
  intros Hm. unfold MergingIterator.next_. rewrite (merge_valid _ _ Hm). cbn [mbind outcome_bind assert is_some].
  destruct (turn_ok self i Forward Hm) as (s1 & E1 & Hd & Hm1). rewrite E1. cbn [mbind outcome_bind].
  destruct Hm1 as (Hc & k & e & Hi & Hcur & Hp). rewrite Hcur. cbn [expect mbind outcome_bind]. rewrite Hd in Hp.
  destruct (move_ok s1 i k e Forward next Hi Hcur Hd Hp) as (cs & E2 & Hcs).
  { intros ch Hat. pose proof (Hlaws k (tag_bound i k e Hi)) as Hlaw.
    destruct (law_next _ _ Hat) as (ch' & -> & Hat'). exists ch'. by rewrite <- (fwd_next M k i e Hi). }
  rewrite E2. cbn [mbind outcome_bind].
  destruct (settle_forward (MergingIterator.with_children s1 cs) (S i) Hc Hcs) as (s2 & -> & Hd2 & Hm2).
  exists s2. split; [done|]. cbn in Hd2. rewrite Hd in Hd2. by rewrite <- Hd2, with_direction_id in Hm2.
Qed.

Lemma merge_prev self i : merge_at self (Some i) ->
  exists self', MergingIterator.prev_ self = Ret self' /\ merge_at self' (before_cut i).
Proof.
  intros Hm. unfold MergingIterator.prev_. rewrite (merge_valid _ _ Hm). cbn [mbind outcome_bind assert is_some].
  destruct (turn_ok self i Reverse Hm) as (s1 & E1 & Hd & Hm1). rewrite E1. cbn [mbind outcome_bind].
  destruct Hm1 as (Hc & k & e & Hi & Hcur & Hp). rewrite Hcur. cbn [expect mbind outcome_bind]. rewrite Hd in Hp.
  destruct (move_ok s1 i k e Reverse prev Hi Hcur Hd Hp) as (cs & E2 & Hcs).
  { intros ch Hat. pose proof (Hlaws k (tag_bound i k e Hi)) as Hlaw.
    destruct (law_prev _ _ Hat) as (ch' & -> & Hat'). exists ch'. by rewrite <- (bwd_prev M k i). }
  rewrite E2. cbn [mbind outcome_bind]. pose proof (lookup_lt_Some _ _ _ Hi) as Hle.
  destruct (settle_backward (MergingIterator.with_children s1 cs) i Hc ltac:(lia) Hcs) as (s2 & -> & Hd2 & Hm2).
  exists s2. split; [done|]. cbn in Hd2. rewrite Hd in Hd2. by rewrite <- Hd2, with_direction_id in Hm2.
Qed.

Lemma merging_laws : IterLaws ord (map snd M) target_ok merge_at.
Proof.
  split.
  - intros self p. apply merge_valid.
  - intros self i (_ & k & e & Hi & _). rewrite length_map. by eapply lookup_lt_Some.
  - intros self p Hm. cbn. unfold MergingIterator.seek_to_first_.
    destruct (all_children seek_to_first self p (fun k => fwd M k 0) Hm) as (cs & -> & Hcs).
    { intros k ch q Hk Hat. pose proof (Hlaws k Hk) as Hlaw. rewrite <- fwd_first. by eapply law_seek_to_first. }
    cbn [mbind outcome_bind]. destruct (settle_forward (MergingIterator.with_children self cs) 0 (proj1 Hm) Hcs) as (s2 & -> & _ & Hm2).
    eexists. split; [done|]. unfold at_cut in Hm2. by destruct M.
  - intros self p Hm. cbn. unfold MergingIterator.seek_to_last_.
    destruct (all_children seek_to_last self p (fun k => bwd M k (length M)) Hm) as (cs & -> & Hcs).
    { intros k ch q Hk Hat. pose proof (Hlaws k Hk) as Hlaw.
      rewrite <- (bwd_last M k) by apply consumed_all. by eapply law_seek_to_last. }
    cbn [mbind outcome_bind].
    destruct (settle_backward (MergingIterator.with_children self cs) (length M) (proj1 Hm) ltac:(lia) Hcs) as (s2 & -> & _ & Hm2).
    eexists. split; [done|]. unfold before_cut in Hm2. destruct M as [|x l]; [done|].
    cbn [map pos_last length] in *. rewrite length_map, Nat.sub_0_r || rewrite length_map. cbn in *. by rewrite ?Nat.sub_0_r.
  - intros self p t Hm Ht. cbn. unfold MergingIterator.seek_.
    destruct (all_children (fun c => seek c t) self p (fun k => fwd M k (cut_of M ord t)) Hm) as (cs & -> & Hcs).
    { intros k ch q Hk Hat. pose proof (Hlaws k Hk) as Hlaw.
      rewrite <- (fwd_seek M ord t k _ Hsorted). by eapply law_seek. }
    cbn [mbind outcome_bind].
    destruct (settle_forward (MergingIterator.with_children self cs) _ (proj1 Hm) Hcs) as (s2 & -> & _ & Hm2).
    eexists. split; [done|]. by rewrite at_cut_seek in Hm2.
  - intros self i Hm. destruct (merge_next self i Hm) as (s2 & E & Hm2). exists s2. split; [done|].
    unfold pos_next. by rewrite length_map.
  - intros self i Hm. destruct (merge_prev self i Hm) as (s2 & E & Hm2). exists s2. by split; [|destruct i].
  - intros self i e (_ & k & e' & Hi & Hcur & Hp) He. rewrite list_lookup_fmap, Hi in He. cbn in He. simplify_eq.
    destruct (current_at self i k e Hi Hcur Hp) as (ch & Hch & _ & _ & Hk & Hv). cbn.
    unfold MergingIterator.key, MergingIterator.value, MergingIterator.current_child, MergingIterator.child.
    rewrite Hcur. cbn [expect mbind outcome_bind]. rewrite Hch. by cbn [expect mbind outcome_bind].
  - intros self p Hm. destruct (merge_placed _ _ Hm) as (pos & Hn & Hp). cbn. apply status_ok.
    intros ch [k Hk]%list_elem_of_lookup. pose proof (law k ch _ Hn Hk) as Hlaw. eapply law_status, Hp, Hk.
Qed.
End merging.

(** ** The merge of sorted lists *)

#[local] Arguments child_entries : simpl never.

Section merge.
Context (ord : bytes -> bytes -> comparison) `{!TotalOrd ord}.

Fixpoint insert_tagged (x : tagged) (M : list tagged) : list tagged :=
  match M with
  | [] => [x]
  | y :: M' => if is_lt (ord y.2.1 x.2.1) then y :: insert_tagged x M' else x :: M
  end.
Definition insert_all (k : nat) (es : list (bytes * bytes)) (M : list tagged) : list tagged :=
  foldr (fun e M => insert_tagged (k, e) M) M es.
(** The entries of the lists [ess], in order, each with the number of its list. *)
Fixpoint merge_from (k : nat) (ess : list (list (bytes * bytes))) : list tagged :=
  match ess with [] => [] | es :: ess => insert_all k es (merge_from (S k) ess) end.
Definition merged (ess : list (list (bytes * bytes))) : list tagged := merge_from 0 ess.

Lemma insert_tagged_perm x M : insert_tagged x M ≡ₚ x :: M.
Proof.
  induction M as [|y M IH]; cbn; [done|]. destruct (is_lt _); [|done].
  rewrite IH. apply Permutation_swap.
Qed.

Lemma insert_tagged_sorted x M : sorted_entries ord (map snd M) ->
  (forall y, y ∈ M -> ord y.2.1 x.2.1 <> Eq) -> sorted_entries ord (map snd (insert_tagged x M)).
Proof.
  induction M as [|y M IH]; intros Hs Hf; cbn.
  { intros i j a b Hij Ha Hb. destruct i, j; cbn in *; try lia; done. }
  assert (HfM : forall y, y ∈ M -> ord y.2.1 x.2.1 <> Eq) by (intros; apply Hf; by constructor).
  specialize (Hf y ltac:(by constructor)). cbn in Hs. pose proof (sorted_tail _ _ _ Hs) as Hs'.
  assert (Hhead : forall z, z ∈ M -> ord y.2.1 z.2.1 = Lt).
  { intros z Hz. apply (sorted_head _ _ _ z.2 Hs). apply list_elem_of_In, in_map, list_elem_of_In, Hz. }
  destruct (ord y.2.1 x.2.1) eqn:E; cbn [is_lt map]; [done| |].
  - apply sorted_cons; [|by apply IH]. intros z Hz. rewrite insert_tagged_perm in Hz. cbn in Hz.
    apply elem_of_cons in Hz as [->|Hz]; [done|].
    apply list_elem_of_In, in_map_iff in Hz as (z' & <- & Hz'%list_elem_of_In). by apply Hhead.
  - apply ord_gt_lt in E. apply sorted_cons; [|done]. intros z [->|Hz]%elem_of_cons; [done|].
    apply (ord_lt_trans _ y.2.1); [done|]. by apply (sorted_head _ _ _ z Hs).
Qed.

Lemma insert_tagged_other k k' e M : k' <> k -> child_entries (insert_tagged (k, e) M) k' = child_entries M k'.
Proof.
  intros Hne. unfold child_entries. induction M as [|y M IH]; cbn.
  - by rewrite (proj2 (Nat.eqb_neq k k')).
  - destruct (is_lt _); cbn; [by rewrite IH|]. by rewrite (proj2 (Nat.eqb_neq k k')).
Qed.

Lemma insert_tagged_here k e M : (forall y, y ∈ child_entries M k -> ord e.1 y.1 = Lt) ->
  child_entries (insert_tagged (k, e) M) k = e :: child_entries M k.
Proof.
  unfold child_entries. induction M as [|y M IH]; intros Hlt; cbn; [by rewrite Nat.eqb_refl|].
  destruct (ord y.2.1 e.1) eqn:E; cbn; rewrite ?Nat.eqb_refl; [done| |done].
  destruct (Nat.eqb_spec y.1 k) as [Hk|Hk].
  - exfalso. cbn in Hlt. rewrite (proj2 (Nat.eqb_eq _ _) Hk) in Hlt.
    specialize (Hlt y.2 ltac:(by constructor)). apply ord_gt_lt in Hlt. congruence.
  - apply IH. intros z Hz. apply Hlt. cbn. by rewrite (proj2 (Nat.eqb_neq _ _)).
Qed.

Lemma insert_all_ok k es M : sorted_entries ord es -> child_entries M k = [] ->
  child_entries (insert_all k es M) k = es /\
  (forall k', k' <> k -> child_entries (insert_all k es M) k' = child_entries M k') /\
  insert_all k es M ≡ₚ map (pair k) es ++ M.
Proof.
  intros Hs Hk. induction es as [|e es IH]; [done|].
  destruct (IH (sorted_tail _ _ _ Hs)) as (H1 & H2 & H3). split_and!.
  - change (insert_all k (e :: es) M) with (insert_tagged (k, e) (insert_all k es M)).
    rewrite insert_tagged_here, H1; [done|]. intros y Hy. rewrite H1 in Hy. by apply (sorted_head _ _ _ y Hs).
  - intros k' Hne. rewrite <- (H2 k' Hne). by apply insert_tagged_other.
  - change (insert_all k (e :: es) M) with (insert_tagged (k, e) (insert_all k es M)).
    rewrite insert_tagged_perm. by rewrite H3.
Qed.

(** Lists to merge: each sorted, no key in two places. *)
Definition mergeable (ess : list (list (bytes * bytes))) : Prop :=
  Forall (sorted_entries ord) ess /\
  forall i j a b x y, (i < j)%nat -> ess !! i = Some a -> ess !! j = Some b -> x ∈ a -> y ∈ b -> ord x.1 y.1 <> Eq.

Lemma insert_all_sorted k es M : sorted_entries ord es -> sorted_entries ord (map snd M) ->
  (forall x y, x ∈ es -> y ∈ M -> ord x.1 y.2.1 <> Eq) -> sorted_entries ord (map snd (insert_all k es M)).
Proof.
  intros Hs HM Hd. induction es as [|e es IH]; cbn; [done|].
  apply insert_tagged_sorted; [apply IH; [by eapply sorted_tail|intros; apply Hd; [by constructor|done]]|].
  intros y Hy E. cbn in E. assert (Hy' : y ∈ map (pair k) es ++ M).
  { clear -Hy. revert y Hy. induction es as [|e' es IH]; intros y Hy; cbn in *; [done|].
    rewrite insert_tagged_perm in Hy. apply elem_of_cons in Hy as [->|Hy]; [by constructor|]. constructor. by apply IH. }
  apply elem_of_app in Hy' as [Hin|Hin].
  - apply list_elem_of_In, in_map_iff in Hin as (z & <- & Hz%list_elem_of_In). cbn in E.
    pose proof (sorted_head _ _ _ z Hs Hz) as Hlt. apply ord_eq_sym in E. congruence.
  - apply ord_eq_sym in E. by apply (Hd e y ltac:(by constructor) Hin).
Qed.

Lemma merge_from_ok k ess : mergeable ess ->
  sorted_entries ord (map snd (merge_from k ess)) /\
  map snd (merge_from k ess) ≡ₚ concat ess /\
  Forall (fun x => (k <= x.1 < k + length ess)%nat) (merge_from k ess) /\
  (forall i es, ess !! i = Some es -> child_entries (merge_from k ess) (k + i) = es).
Proof.
  revert k. induction ess as [|es ess IH]; intros k [Hs Hd]; cbn.
  { split_and!; [by intros i j a b _ ?|done|constructor|]. intros i es Hi. by rewrite lookup_nil in Hi. }
  apply Forall_cons in Hs as [Hs Hss].
  destruct (IH (S k)) as (H1 & H2 & H3 & H4).
  { split; [done|]. intros i j a b x y Hij Ha Hb. by apply (Hd (S i) (S j) a b); [lia|..]. }
  assert (Hnone : child_entries (merge_from (S k) ess) k = []).
  { clear -H3. unfold child_entries. induction H3 as [|x M Hx HM IH]; [done|]. cbn.
    rewrite (proj2 (Nat.eqb_neq x.1 k)) by lia. exact IH. }
  destruct (insert_all_ok k es _ Hs Hnone) as (Hi1 & Hi2 & Hi3). split_and!.
  - apply insert_all_sorted; [done..|]. intros x y Hx Hy.
    assert (Hyc : y.2 ∈ concat ess).
    { rewrite <- H2. apply list_elem_of_In, in_map, list_elem_of_In, Hy. }
    apply list_elem_of_In, in_concat in Hyc as (es' & Hes'%list_elem_of_In & Hy'%list_elem_of_In).
    apply list_elem_of_lookup in Hes' as [j Hj]. by apply (Hd O (S j) es es'); [lia|..].
  - rewrite Hi3, map_app, map_map, map_id. by rewrite H2.
  - rewrite Hi3. apply Forall_app. split.
    + apply Forall_forall. intros x Hx. apply list_elem_of_In, in_map_iff in Hx as (z & <- & _). cbn. lia.
    + eapply Forall_impl; [exact H3|]. cbn. lia.
  - intros [|i] es' Hi; cbn in Hi; [simplify_eq; by rewrite Nat.add_0_r|].
    rewrite Hi2 by lia. rewrite Nat.add_succ_r. by apply (H4 i).
Qed.
End merge.

(** ** Claims *)

(** C21: (MergingIterator) Over children that are cursors of sorted lists without a common
    key, the merging iterator is a cursor of their sorted merge: every operation, the
    changes of direction included, moves it as the operation moves a position of the
    merged list, and it reports the entry there. *)
Theorem merging_iterator_merges {C I} `{Comparator C} `{DbIterator I} (c : C) key_ok ord
    `{!ComparatorLaws c key_ok ord} target_ok ess (cs : list I) at_pos :
  mergeable ord ess -> length cs = length ess ->
  (forall e es, es ∈ ess -> e ∈ es -> key_ok e.1 /\ target_ok e.1) ->
  (forall k es, ess !! k = Some es -> IterLaws ord es target_ok (at_pos k)) ->
  (forall k ch, cs !! k = Some ch -> at_pos k ch None) ->
  exists M stands, sorted_entries ord M /\ M ≡ₚ concat ess /\
    IterLaws ord M target_ok stands /\ stands (MergingIterator.new c cs) None.
Proof.
  intros Hm Hn Hk Hl Hp. pose proof (laws_ord (c:=c)) as Ho.
  destruct (merge_from_ok ord 0 ess Hm) as (H1 & H2 & H3 & H4). cbn in H3.
  exists (map snd (merged ord ess)), (merge_at c (merged ord ess) (length ess) at_pos).
  split_and!; [done|done| |].
  - apply merging_laws with (key_ok := key_ok); [done| |done| |].
    + intros k Hk'. destruct (lookup_lt_is_Some_2 ess k Hk') as [es Hes].
      change (IterLaws ord (child_entries (merge_from ord 0 ess) (0 + k)) target_ok (at_pos k)).
      rewrite (H4 k es Hes). by apply Hl.
    + eapply Forall_impl; [exact H3|]. cbn. lia.
    + apply Forall_forall. intros x Hx.
      assert (Hc : x.2 ∈ concat ess) by (rewrite <- H2; apply list_elem_of_In, in_map, list_elem_of_In, Hx).
      apply list_elem_of_In, in_concat in Hc as (es & He%list_elem_of_In & Hxe%list_elem_of_In). by apply (Hk _ es).
  - split; [done|]. split; [done|]. exists (fun _ => None). by split.
Qed.

Lemma merging_iterator_merges_witness :
  let b := list_byte_of_string in
  let e k := (b k, b k) in
  let ess := [[e "a"; e "d"; e "f"]; [e "b"]; []; [e "c"; e "e"]]%string in
  let cs := map (fun es => ListIter.mk bytes_cmp es None) ess in
  exists M stands, M ≡ₚ concat ess /\ IterLaws bytes_cmp M (fun _ => True) stands /\
    stands (MergingIterator.new Bytewise cs) None /\
    scan_backward 6 (MergingIterator.new Bytewise cs) = Ret (map e ["f"; "e"; "d"; "c"; "b"; "a"]%string).
Proof.
  intros b e ess cs.
  destruct (merging_iterator_merges Bytewise (fun _ => True) bytes_cmp (fun _ => True) ess cs
    (fun k => ListIter.stands bytes_cmp (nth k ess []))) as (M & stands & H1 & H2 & H3 & H4).
  - split.
    + repeat (apply Forall_cons_2; [apply (sortedb_sound bytes_cmp); vm_compute; reflexivity|]). apply Forall_nil_2.
    + assert (Hnd : NoDup (map fst (concat ess))) by (apply (bool_decide_unpack _); vm_compute; exact I).
      intros i j x y p q Hij Hx Hy Hp Hq E%bytes_cmp_eq.
      rewrite <- (take_drop j ess), concat_app, map_app in Hnd. apply NoDup_app in Hnd as (_ & Hd & _).
      apply (Hd p.1).
      * apply list_elem_of_In, in_map, in_concat. exists x. split; [|by apply list_elem_of_In].
        apply list_elem_of_In, (list_elem_of_lookup_2 _ i). by rewrite lookup_take_lt.
      * rewrite E. apply list_elem_of_In, in_map, in_concat. exists y. split; [|by apply list_elem_of_In].
        apply list_elem_of_In, (list_elem_of_lookup_2 _ 0). by rewrite lookup_drop, Nat.add_0_r.
  - reflexivity.
  - done.
  - intros k es Hes. rewrite (nth_lookup_Some _ _ _ _ Hes). apply _.
  - intros k ch Hch. unfold cs in Hch. rewrite list_lookup_fmap in Hch.
    destruct (ess !! k) as [es|] eqn:Ek; [|done]. cbn in Hch. simplify_eq.
    by rewrite (nth_lookup_Some _ _ _ _ Ek).
  - exists M, stands. split_and!; [done..|]. vm_compute. reflexivity.
Defined.
