(* ===== verification/TwoLevelIter.v ===== *)
(** * TwoLevelIter.v: [two_level_iter/two_level_iter.rs].

    An index iterator whose values name blocks, and the iterator of the current block.
    Over an index and blocks that keep the [DbIterator] contract, the two-level iterator
    keeps it for the concatenation of the blocks.  [rounds] bounds the two skipping loops:
    they move the index once per round, so any number above the length of the index is
    enough.  [block_function] is a function of the handle: what a cache remembers between
    two calls does not change its result. *)
From S2P Require Import Prelude Status Comparator DbIterator.

Module TwoLevelIterator.
Record t (Ix I : Type) := mk {
  index_iter : Ix;
  data_iter : option I;
  block_function : bytes -> outcome I;
  data_block_handle : bytes;
  status : outcome unit;
  rounds : nat;
}.
Arguments mk {Ix I} _ _ _ _ _ _.
Arguments index_iter {Ix I} _.
Arguments data_iter {Ix I} _.
Arguments block_function {Ix I} _ _.
Arguments data_block_handle {Ix I} _.
Arguments status {Ix I} _.
Arguments rounds {Ix I} _.

Section ops.
Context {Ix I : Type} `{DbIterator Ix} `{DbIterator I}.
Implicit Types self : t Ix I.

Definition new (index_iter : Ix) (block_function : bytes -> outcome I) (rounds : nat) : t Ix I :=
  mk index_iter None block_function [] (Ret tt) rounds.

Definition with_index self i : t Ix I := mk i (data_iter self) (block_function self) (data_block_handle self) (status self) (rounds self).
Definition with_data self d : t Ix I := mk (index_iter self) d (block_function self) (data_block_handle self) (status self) (rounds self).
Definition with_handle self h : t Ix I := mk (index_iter self) (data_iter self) (block_function self) h (status self) (rounds self).
Definition with_status self s : t Ix I := mk (index_iter self) (data_iter self) (block_function self) (data_block_handle self) s (rounds self).

Definition save_status self : t Ix I :=
  match status self with
  | Ret _ =>
      match iter_status (index_iter self) with
      | Ret _ =>
          match data_iter self with
          | Some d => match iter_status d with Ret _ => self | st => with_status self st end
          | None => self
          end
      | st => with_status self st
      end
  | _ => self
  end.

Definition init_data_block self : outcome (t Ix I) :=
  v ← valid (index_iter self);
  if negb v then Ret (with_data self None) else
  handle ← iter_value (index_iter self);
  if is_some (data_iter self) && bool_decide (handle = data_block_handle self) then Ret self else
  match block_function self handle with
  | Ret it => Ret (with_handle (with_data self (Some it)) handle)
  | Fail e => Ret (with_status (with_data self None) (Fail e))
  | Panic => Panic
  end.

(** [if let Some(d) = &mut self.data_iter { f(d) }]. *)
Definition on_data (f : I -> outcome I) self : outcome (t Ix I) :=
  match data_iter self with
  | Some d => d ← f d; Ret (with_data self (Some d))
  | None => Ret self
  end.
Definition data_valid self : outcome bool :=
  match data_iter self with Some d => valid d | None => Ret false end.

(** [skip_empty_data_blocks_forward] and [_backward]: the loops differ in the index move
    and in where they enter a block. *)
Fixpoint skip_loop (move : Ix -> outcome Ix) (enter : I -> outcome I) (fuel : nat) self : outcome (t Ix I) :=
  dv ← data_valid self;
  if dv : bool then Ret self else
  match fuel with
  | O => Panic
  | S fuel =>
      let self := save_status self in
      match status self with
      | Ret _ =>
          v ← valid (index_iter self);
          if negb v then Ret (with_data self None) else
          i ← move (index_iter self);
          self ← init_data_block (with_index self i);
          self ← on_data enter self;
          skip_loop move enter fuel self
      | _ => Ret self
      end
  end.
Definition skip_empty_data_blocks_forward self := skip_loop next seek_to_first (rounds self) self.
Definition skip_empty_data_blocks_backward self := skip_loop prev seek_to_last (rounds self) self.

Definition seek_to_first_ self : outcome (t Ix I) :=
  i ← seek_to_first (index_iter self);
  self ← init_data_block (with_index self i);
  self ← on_data seek_to_first self;
  skip_empty_data_blocks_forward self.
Definition seek_to_last_ self : outcome (t Ix I) :=
  i ← seek_to_last (index_iter self);
  self ← init_data_block (with_index self i);
  self ← on_data seek_to_last self;
  skip_empty_data_blocks_backward self.
Definition seek_ self (target : bytes) : outcome (t Ix I) :=
  i ← seek (index_iter self) target;
  self ← init_data_block (with_index self i);
  self ← on_data (fun d => seek d target) self;
  skip_empty_data_blocks_forward self.
Definition next_ self : outcome (t Ix I) :=
  v ← data_valid self; _ ← assert v;
  self ← on_data next self;
  skip_empty_data_blocks_forward self.
Definition prev_ self : outcome (t Ix I) :=
  v ← data_valid self; _ ← assert v;
  self ← on_data prev self;
  skip_empty_data_blocks_backward self.
Definition key self : outcome bytes := d ← expect (data_iter self); iter_key d.
Definition value self : outcome bytes := d ← expect (data_iter self); iter_value d.
Definition status_ self : outcome unit :=
  match status self with
  | Ret _ =>
      match iter_status (index_iter self) with
      | Ret _ => match data_iter self with Some d => iter_status d | None => Ret tt end
      | s => s
      end
  | s => s
  end.

#[export] Instance TwoLevel_DbIterator : DbIterator (t Ix I) := {|
  DbIterator.valid := data_valid;
  DbIterator.seek_to_first := seek_to_first_;
  DbIterator.seek_to_last := seek_to_last_;
  DbIterator.seek := seek_;
  DbIterator.next := next_;
  DbIterator.prev := prev_;
  DbIterator.iter_key := key;
  DbIterator.iter_value := value;
  DbIterator.iter_status := status_;
|}.
End ops.
End TwoLevelIterator.
#[export] Existing Instance TwoLevelIterator.TwoLevel_DbIterator.
Import TwoLevelIterator.

(** ** The contract *)

Section two_level.
Context {Ix I : Type} `{DbIterator Ix} `{DbIterator I} (ord : bytes -> bytes -> comparison)
  `{!TotalOrd ord} (target_ok : bytes -> Prop)
  (idx : list (bytes * bytes)) (index_at : Ix -> option nat -> Prop)
  (block : bytes -> list (bytes * bytes)) (data_at : bytes -> I -> option nat -> Prop)
  (load : bytes -> outcome I).
Implicit Types self : TwoLevelIterator.t Ix I.

(** The entries: the blocks one after the other. *)
Definition blocks (l : list (bytes * bytes)) : list (bytes * bytes) := concat (map (fun e => block e.2) l).
Definition off (k : nat) : nat := length (blocks (take k idx)).

(** The index and every block keep the contract; loading a named block succeeds; an
    index key is not below the keys of its block and below those of later blocks. *)
Context (Hindex : IterLaws ord idx target_ok index_at)
  (Hdata : forall k e, idx !! k = Some e -> IterLaws ord (block e.2) target_ok (data_at e.2))
  (Hload : forall k e, idx !! k = Some e -> exists d, load e.2 = Ret d /\ data_at e.2 d None)
  (Hupper : forall k e x, idx !! k = Some e -> x ∈ block e.2 -> ord x.1 e.1 <> Gt)
  (Hlower : forall k j e e' x, (k < j)%nat -> idx !! k = Some e -> idx !! j = Some e' -> x ∈ block e'.2 -> ord e.1 x.1 = Lt)
  (Hkeys : sorted_entries ord idx).

Lemma blocks_app a b : blocks (a ++ b) = blocks a ++ blocks b.
Proof. unfold blocks. by rewrite map_app, concat_app. Qed.

Lemma blocks_off_S k e : idx !! k = Some e -> off (S k) = (off k + length (block e.2))%nat.
Proof.
  intros Hk. unfold off. rewrite (take_S_r _ _ _ Hk), blocks_app, length_app. unfold blocks at 2. cbn.
  by rewrite app_nil_r.
Qed.
Lemma off_end k : (length idx <= k)%nat -> off k = length (blocks idx).
Proof. intros Hk. unfold off. by rewrite take_ge. Qed.
Lemma off_le k : (off k <= length (blocks idx))%nat.
Proof. unfold off. rewrite <- (take_drop k idx) at 2. rewrite blocks_app, length_app. lia. Qed.

Lemma blocks_lookup k e j x : idx !! k = Some e -> block e.2 !! j = Some x ->
  blocks idx !! (off k + j)%nat = Some x.
Proof.
  intros Hk Hj. rewrite <- (take_drop_middle _ _ _ Hk), blocks_app. unfold off.
  rewrite lookup_app_r by lia. replace (length (blocks (take k idx)) + j - length (blocks (take k idx)))%nat with j by lia.
  unfold blocks. cbn. rewrite lookup_app_l; [done|]. by eapply lookup_lt_Some.
Qed.

Definition at_end (i : nat) : option nat := if decide (i < length (blocks idx))%nat then Some i else None.
Definition before (i : nat) : option nat := match i with O => None | S i => Some i end.

(** A loaded block belongs to the handle it is cached under. *)
Definition cached self : Prop :=
  match data_iter self with
  | Some d => exists k e q, idx !! k = Some e /\ e.2 = data_block_handle self /\ data_at e.2 d q
  | None => True
  end.
Definition sound self : Prop :=
  block_function self = load /\ status self = Ret tt /\ (length idx < rounds self)%nat.

(** Inside block [k], at position [q] of it. *)
Definition within self (k : nat) (q : option nat) : Prop :=
  sound self /\ index_at (index_iter self) (Some k) /\
  exists e d, idx !! k = Some e /\ data_iter self = Some d /\ data_block_handle self = e.2 /\ data_at e.2 d q.

Definition two_at self (p : option nat) : Prop :=
  match p with
  | Some i => exists k j, within self k (Some j) /\ i = (off k + j)%nat
  | None => sound self /\ data_iter self = None /\ exists q, index_at (index_iter self) q
  end.

Lemma two_at_facts self p : two_at self p -> sound self /\ cached self /\ exists q, index_at (index_iter self) q.
Proof.
  destruct p as [i|].
  - intros (k & j & (Hs & Hi & e & d & He & Hd & Hh & Ha) & _). split_and!; [done| |eauto].
    unfold cached. rewrite Hd. by exists k, e, (Some j).
  - intros (Hs & Hd & Hi). split_and!; [done|unfold cached; by rewrite Hd|done].
Qed.

Lemma save_status_id self q : sound self -> cached self -> index_at (index_iter self) q -> save_status self = self.
Proof.
  intros (_ & Hs & _) Hc Hq. unfold save_status. rewrite Hs, (law_status _ _ Hq).
  unfold cached in Hc. destruct (data_iter self) as [d|]; [|done].
  destruct Hc as (k & e & q' & He & _ & Ha). pose proof (Hdata k e He) as Hl. by rewrite (law_status _ _ Ha).
Qed.

(** Loading the block the index names, or dropping the old one at the end. *)
Lemma init_ok self i k : sound self -> cached self -> index_at i (Some k) ->
  exists self' q, init_data_block (with_index self i) = Ret self' /\ within self' k q.
Proof.
  intros Hs Hc Hi. unfold init_data_block. cbn [index_iter with_index].
  rewrite (law_valid _ _ Hi). cbn [mbind outcome_bind is_some negb].
  pose proof (law_bound _ _ Hi) as Hk. destruct (lookup_lt_is_Some_2 idx k Hk) as [e He].
  destruct (law_entry _ _ _ Hi He) as [_ ->]. cbn [mbind outcome_bind].
  destruct (is_some _ && _) eqn:Ereuse.
  - apply andb_true_iff in Ereuse as [Hd Hh%bool_decide_eq_true]. cbn in Hd, Hh.
    unfold cached in Hc. destruct (data_iter self) as [d|] eqn:Ed; [|done].
    destruct Hc as (k' & e' & q & He' & Hh' & Ha). exists (with_index self i), q. split; [done|].
    split; [done|]. split; [done|]. exists e, d. split_and!; [done|done|done|]. congruence.
  - cbn. rewrite (proj1 Hs). destruct (Hload k e He) as (d & -> & Ha).
    do 2 eexists. split; [done|]. split; [done|]. split; [done|]. by exists e, d.
Qed.

Lemma init_none self i : sound self -> index_at i None ->
  init_data_block (with_index self i) = Ret (with_data (with_index self i) None) /\
  two_at (with_data (with_index self i) None) None.
Proof.
  intros Hs Hi. unfold init_data_block. cbn [index_iter with_index]. rewrite (law_valid _ _ Hi).
  split; [done|]. split; [done|]. split; [done|]. by exists None.
Qed.

Lemma on_data_ok self k q f q' : within self k q ->
  (forall e d, idx !! k = Some e -> data_at e.2 d q -> exists d', f d = Ret d' /\ data_at e.2 d' q') ->
  exists self', on_data f self = Ret self' /\ within self' k q'.
Proof.
  intros (Hs & Hi & e & d & He & Hd & Hh & Ha) Hf. unfold on_data. rewrite Hd.
  destruct (Hf e d He Ha) as (d' & -> & Ha'). eexists. split; [done|]. split; [done|]. split; [done|].
  by exists e, d'.
Qed.

Lemma within_data_valid self k q : within self k q -> data_valid self = Ret (is_some q).
Proof.
  intros (_ & _ & e & d & He & Hd & _ & Ha). unfold data_valid. rewrite Hd.
  pose proof (Hdata k e He) as Hl. apply (law_valid _ _ Ha).
Qed.

Lemma within_cached self k q : within self k q -> cached self.
Proof.
  intros (_ & _ & e & d & He & Hd & Hh & Ha). unfold cached. rewrite Hd. by exists k, e, q.
Qed.

Lemma skip_none move enter fuel self : two_at self None -> (0 < fuel)%nat ->
  (exists i, index_iter self = i /\ index_at i None) ->
  skip_loop move enter fuel self = Ret (with_data self None).
Proof.
  intros (Hs & Hd & _) Hf (i & Hie & Hi). destruct fuel as [|fuel]; [lia|]. cbn [skip_loop].
  unfold data_valid. rewrite Hd. cbn [mbind outcome_bind]. subst i.
  assert (Hc : cached self) by (unfold cached; by rewrite Hd).
  rewrite (save_status_id self None Hs Hc Hi), (proj1 (proj2 Hs)), (law_valid _ _ Hi). done.
Qed.

(** Past the last or before the first index entry the loops stop without an entry. *)
Lemma skip_exhausted move enter fuel self i : sound self -> index_at i None -> (0 < fuel)%nat ->
  exists self', (s ← init_data_block (with_index self i); s ← on_data enter s; skip_loop move enter fuel s) = Ret self' /\
    two_at self' None.
Proof.
  intros Hs Hi Hf. destruct (init_none self i Hs Hi) as [-> Ht]. cbn [mbind outcome_bind on_data data_iter with_data].
  rewrite skip_none by (try done; by exists i). eexists. by split.
Qed.

Lemma skip_forward_ok fuel self k : within self k None -> (length idx - k < fuel)%nat ->
  exists self', skip_loop next seek_to_first fuel self = Ret self' /\ two_at self' (at_end (off (S k))).
Proof.
  revert self k. induction fuel as [|fuel IH]; intros self k Hw Hf; [lia|]. cbn [skip_loop].
  rewrite (within_data_valid _ _ _ Hw). cbn [is_some mbind outcome_bind].
  pose proof Hw as (Hs & Hi & _). pose proof (within_cached _ _ _ Hw) as Hc. pose proof (law_bound _ _ Hi) as Hlen.
  rewrite (save_status_id self _ Hs Hc Hi), (proj1 (proj2 Hs)), (law_valid _ _ Hi). cbn [is_some mbind outcome_bind negb].
  destruct (law_next _ _ Hi) as (i & -> & Hi'). cbn [mbind outcome_bind]. unfold pos_next in Hi'.
  case_decide as Hk.
  - destruct (init_ok self i (S k) Hs Hc Hi') as (s1 & q & -> & Hw1). cbn [mbind outcome_bind].
    destruct (lookup_lt_is_Some_2 idx (S k) Hk) as [e He].
    destruct (on_data_ok s1 (S k) q seek_to_first (pos_first (block e.2)) Hw1) as (s2 & -> & Hw2).
    { intros e' d He' Ha. simplify_eq. pose proof (Hdata _ _ He) as Hl. by eapply law_seek_to_first. }
    cbn [mbind outcome_bind]. pose proof (blocks_off_S _ _ He) as Hoff. pose proof (off_le (S (S k))) as Hle.
    destruct (block e.2) as [|x l] eqn:Eb; cbn [pos_first] in Hw2.
    + destruct (IH s2 (S k) Hw2) as (s3 & E3 & Ht); [lia|]. exists s3. split; [done|].
      rewrite Hoff in Ht. cbn in Ht. by rewrite Nat.add_0_r in Ht.
    + exists s2. split; [destruct fuel; cbn [skip_loop]; rewrite (within_data_valid _ _ _ Hw2); done|].
      cbn in Hoff. unfold at_end. rewrite decide_True by lia. exists (S k), 0%nat. split; [done|lia].
  - destruct (skip_exhausted next seek_to_first fuel self i Hs Hi' ltac:(lia)) as (s' & E & Ht). exists s'. split; [done|].
    unfold at_end. by rewrite off_end, decide_False by lia.
Qed.

Lemma skip_backward_ok fuel self k : within self k None -> (S k < fuel)%nat -> (k < length idx)%nat ->
  exists self', skip_loop prev seek_to_last fuel self = Ret self' /\ two_at self' (before (off k)).
Proof.
  revert self k. induction fuel as [|fuel IH]; intros self k Hw Hf Hlen; [lia|]. cbn [skip_loop].
  rewrite (within_data_valid _ _ _ Hw). cbn [is_some mbind outcome_bind].
  pose proof Hw as (Hs & Hi & _). pose proof (within_cached _ _ _ Hw) as Hc.
  rewrite (save_status_id self _ Hs Hc Hi), (proj1 (proj2 Hs)), (law_valid _ _ Hi). cbn [is_some mbind outcome_bind negb].
  destruct (law_prev _ _ Hi) as (i & -> & Hi'). cbn [mbind outcome_bind].
  destruct k as [|k]; cbn [pos_prev] in Hi'.
  - destruct (skip_exhausted prev seek_to_last fuel self i Hs Hi' ltac:(lia)) as (s' & E & Ht). by exists s'.
  - destruct (init_ok self i k Hs Hc Hi') as (s1 & q & -> & Hw1). cbn [mbind outcome_bind].
    destruct (lookup_lt_is_Some_2 idx k) as [e He]; [lia|].
    destruct (on_data_ok s1 k q seek_to_last (pos_last (block e.2)) Hw1) as (s2 & -> & Hw2).
    { intros e' d He' Ha. simplify_eq. pose proof (Hdata _ _ He) as Hl. by eapply law_seek_to_last. }
    cbn [mbind outcome_bind]. pose proof (blocks_off_S _ _ He) as Hoff.
    destruct (block e.2) as [|x l] eqn:Eb; cbn [pos_last] in Hw2.
    + destruct (IH s2 k Hw2) as (s3 & E3 & Ht); [lia|lia|]. exists s3. split; [done|].
      rewrite Hoff. cbn. by rewrite Nat.add_0_r.
    + exists s2. split; [destruct fuel; cbn [skip_loop]; rewrite (within_data_valid _ _ _ Hw2); done|].
      rewrite Hoff. cbn [length] in *. rewrite Nat.add_succ_r. cbn [before]. exists k, (length l). split; [|lia].
      by replace (S (length l) - 1)%nat with (length l) in Hw2 by lia.
Qed.

Lemma within_two_at self k j i : within self k (Some j) -> i = (off k + j)%nat -> two_at self (Some i).
Proof. intros. exists k, j. by split. Qed.

Lemma within_bound self k j : within self k (Some j) ->
  exists e, idx !! k = Some e /\ (j < length (block e.2))%nat /\ off (S k) = (off k + length (block e.2))%nat.
Proof.
  intros (_ & _ & e & d & He & _ & _ & Ha). pose proof (Hdata k e He) as Hl. exists e.
  split_and!; [done|exact (law_bound _ _ Ha)|by apply blocks_off_S].
Qed.

(** A cursor that stands in a block is not moved by the skipping loops. *)
Lemma skip_stays move enter fuel self k j : within self k (Some j) -> skip_loop move enter fuel self = Ret self.
Proof. intros Hw. destruct fuel; cbn [skip_loop]; by rewrite (within_data_valid _ _ _ Hw). Qed.

(** Entering block [k] at position [q] and skipping forward. *)
Lemma enter_forward self k q : within self k q -> exists self', skip_empty_data_blocks_forward self = Ret self' /\
  two_at self' (match q with Some j => Some (off k + j)%nat | None => at_end (off (S k)) end).
Proof.
  intros Hw. unfold skip_empty_data_blocks_forward. destruct q as [j|].
  - exists self. split; [by eapply skip_stays|]. by eapply within_two_at.
  - apply skip_forward_ok; [done|]. destruct Hw as ((_ & _ & Hr) & _). lia.
Qed.
Lemma enter_backward self k q : within self k q -> exists self', skip_empty_data_blocks_backward self = Ret self' /\
  two_at self' (match q with Some j => Some (off k + j)%nat | None => before (off k) end).
Proof.
  intros Hw. unfold skip_empty_data_blocks_backward. destruct q as [j|].
  - exists self. split; [by eapply skip_stays|]. by eapply within_two_at.
  - destruct Hw as ((? & ? & Hr) & Hi & ?). pose proof (law_bound _ _ Hi). apply skip_backward_ok; [done|lia|done].
Qed.

(** Moving the index and entering the block it names. *)
Lemma enter_ok self i k enter (target : list (bytes * bytes) -> option nat) :
  sound self -> cached self -> index_at i (Some k) ->
  (forall e d q, idx !! k = Some e -> data_at e.2 d q -> exists d', enter d = Ret d' /\ data_at e.2 d' (target (block e.2))) ->
  exists self' e, idx !! k = Some e /\ (s ← init_data_block (with_index self i); on_data enter s) = Ret self' /\
    within self' k (target (block e.2)).
Proof.
  intros Hs Hc Hi Henter. destruct (init_ok self i k Hs Hc Hi) as (s1 & q & -> & Hw). cbn [mbind outcome_bind].
  destruct (lookup_lt_is_Some_2 idx k (law_bound _ _ Hi)) as [e He].
  destruct (on_data_ok s1 k q enter (target (block e.2)) Hw) as (s2 & -> & Hw2).
  { intros e' d He' Ha. simplify_eq. by eapply Henter. }
  by exists s2, e.
Qed.

Lemma enter_nothing self i enter skip : sound self -> index_at i None ->
  (forall s, two_at s None -> (exists i, index_iter s = i /\ index_at i None) -> skip s = Ret (with_data s None)) ->
  exists self', (s ← init_data_block (with_index self i); s ← on_data enter s; skip s) = Ret self' /\ two_at self' None.
Proof.
  intros Hs Hi Hskip. destruct (init_none self i Hs Hi) as [-> Ht]. cbn [mbind outcome_bind on_data data_iter with_data].
  rewrite Hskip by (try done; by exists i). eexists. by split.
Qed.
Lemma forward_nothing s : two_at s None -> (exists i, index_iter s = i /\ index_at i None) ->
  skip_empty_data_blocks_forward s = Ret (with_data s None).
Proof. intros Ht Hi. apply skip_none; [done| |done]. destruct Ht as ((_ & _ & ?) & _). lia. Qed.
Lemma backward_nothing s : two_at s None -> (exists i, index_iter s = i /\ index_at i None) ->
  skip_empty_data_blocks_backward s = Ret (with_data s None).
Proof. intros Ht Hi. apply skip_none; [done| |done]. destruct Ht as ((_ & _ & ?) & _). lia. Qed.

(** Where the positions of the concatenation lie. *)
Lemma blocks_split i x : blocks idx !! i = Some x ->
  exists k j e, idx !! k = Some e /\ block e.2 !! j = Some x /\ i = (off k + j)%nat.
Proof.
  unfold off. induction idx as [|e l IH] in i |- * using rev_ind; intros Hi; [done|].
  rewrite blocks_app in Hi. apply lookup_app_Some in Hi as [Hi|[Hge Hi]].
  - destruct (IH i Hi) as (k & j & e' & He & Hj & ->). exists k, j, e'.
    pose proof (lookup_lt_Some _ _ _ He). split_and!; [by apply lookup_app_l_Some|done|].
    by rewrite take_app_le by lia.
  - unfold blocks in Hi at 2. cbn in Hi. rewrite app_nil_r in Hi. exists (length l), (i - length (blocks l))%nat, e.
    rewrite list_lookup_middle by done. split_and!; [done|done|]. rewrite take_app_length. lia.
Qed.

Lemma off_mono k j : (k <= j)%nat -> (off k <= off j)%nat.
Proof.
  intros Hkj. induction Hkj as [|j Hkj IH]; [done|].
  destruct (decide (j < length idx)%nat) as [Hj|Hj].
  - destruct (lookup_lt_is_Some_2 idx j Hj) as [e He]. rewrite (blocks_off_S _ _ He). lia.
  - rewrite (off_end (S j)) by lia. etrans; [exact IH|]. apply off_le.
Qed.

(** Which blocks lie below a target. *)
Lemma seek_blocks t k e q : pos_seek ord idx t = Some k -> idx !! k = Some e -> pos_seek ord (block e.2) t = q ->
  pos_seek ord (blocks idx) t = match q with Some j => Some (off k + j)%nat | None => at_end (off (S k)) end.
Proof.
  intros Hk He Hq. apply pos_seek_some in Hk as (Hlt & Hge & Hbelow). specialize (Hge e He).
  assert (Hearly : forall m x, (m < off k)%nat -> blocks idx !! m = Some x -> ord x.1 t = Lt).
  { intros m x Hm (k' & j & e' & He' & Hj & ->)%blocks_split.
    assert (k' < k)%nat by (destruct (decide (k' < k)%nat); [done|]; pose proof (off_mono k k'); lia).
    apply (ord_le_lt_trans _ e'.1); [|by eapply Hbelow].
    eapply Hupper; [done|]. by eapply list_elem_of_lookup_2. }
  assert (Hin : forall m x, (off k <= m < off (S k))%nat -> blocks idx !! m = Some x -> block e.2 !! (m - off k)%nat = Some x).
  { intros m x Hm Hx. rewrite (blocks_off_S _ _ He) in Hm.
    destruct (lookup_lt_is_Some_2 (block e.2) (m - off k)%nat) as [y Hy]; [lia|].
    pose proof (blocks_lookup k e _ y He Hy) as Hb. replace (off k + (m - off k))%nat with m in Hb by lia. congruence. }
  pose proof (blocks_off_S _ _ He) as HS. pose proof (off_le (S k)) as Hle.
  destruct q as [j|].
  - apply pos_seek_some in Hq as (Hj & Hj1 & Hj2). apply pos_seek_intro; [lia| |].
    + intros x Hx. apply Hin in Hx; [|lia]. replace (off k + j - off k)%nat with j in Hx by lia. by apply Hj1.
    + intros m x Hm Hx. destruct (decide (m < off k)%nat); [by eapply Hearly|].
      apply Hin in Hx; [|lia]. apply (Hj2 (m - off k)%nat); [lia|done].
  - pose proof (pos_seek_none _ _ _ Hq) as Hnone.
    assert (Hearly' : forall m x, (m < off (S k))%nat -> blocks idx !! m = Some x -> ord x.1 t = Lt).
    { intros m x Hm Hx. destruct (decide (m < off k)%nat); [by eapply Hearly|].
      apply Hin in Hx; [|lia]. by eapply Hnone. }
    unfold at_end. case_decide as Hend.
    + apply pos_seek_intro; [done| |done]. intros x (k' & j & e' & He' & Hj & Heq)%blocks_split.
      assert (k < k')%nat.
      { destruct (decide (k < k')%nat); [done|]. pose proof (off_mono (S k') (S k) ltac:(lia)).
        pose proof (blocks_off_S _ _ He'). pose proof (lookup_lt_Some _ _ _ Hj). lia. }
      pose proof (Hlower k k' e e' x ltac:(done) He He' (list_elem_of_lookup_2 _ _ _ Hj)) as Hlt'.
      intros Hxt. apply Hge. by eapply ord_lt_trans.
    + apply pos_seek_intro_none. intros m x Hx. apply (Hearly' m); [|done].
      pose proof (lookup_lt_Some _ _ _ Hx). lia.
Qed.

Lemma seek_blocks_none t : pos_seek ord idx t = None -> pos_seek ord (blocks idx) t = None.
Proof.
  intros Hk. apply pos_seek_intro_none. intros m x (k & j & e & He & Hj & ->)%blocks_split.
  apply (ord_le_lt_trans _ e.1); [|by eapply (pos_seek_none _ _ _ Hk)].
  eapply Hupper; [done|]. by eapply list_elem_of_lookup_2.
Qed.

(** ** The two-level iterator keeps the contract *)

Lemma first_pos self p : two_at self p -> exists self', seek_to_first_ self = Ret self' /\ two_at self' (pos_first (blocks idx)).
Proof.
  intros (Hs & Hc & q & Hq)%two_at_facts. unfold seek_to_first_.
  destruct (law_seek_to_first _ _ Hq) as (i & -> & Hi). cbn [mbind outcome_bind].
  destruct (pos_first idx) as [k|] eqn:Ek.
  2: { replace (pos_first (blocks idx)) with (@None nat) by (by rewrite (pos_first_none _ Ek)). apply enter_nothing; [done|done|]. intros. by apply forward_nothing. }
  pose proof (pos_first_some _ _ Ek) as ->. destruct (enter_ok self i 0 seek_to_first pos_first Hs Hc Hi) as (s1 & e' & He & E1 & Hw).
  { intros e1 d q1 He1 Ha. pose proof (Hdata _ _ He1). by eapply law_seek_to_first. }
  destruct (init_data_block _) as [s0| |]; try done. cbn [mbind outcome_bind] in *. rewrite E1. cbn [mbind outcome_bind].
  destruct (enter_forward _ _ _ Hw) as (s2 & E2 & Ht). exists s2. split; [done|].
  pose proof (blocks_off_S _ _ He) as HS. pose proof (off_le 1). change (off 0) with 0%nat in *.
  replace (pos_first (blocks idx)) with (at_end 0) by (unfold at_end; destruct (blocks idx); done).
  destruct (block e'.2) as [|x b]; cbn [pos_first length] in *; [by rewrite HS in Ht|].
  unfold at_end. by rewrite decide_True by lia.
Qed.

Lemma last_pos self p : two_at self p -> exists self', seek_to_last_ self = Ret self' /\ two_at self' (pos_last (blocks idx)).
Proof.
  intros (Hs & Hc & q & Hq)%two_at_facts. unfold seek_to_last_.
  destruct (law_seek_to_last _ _ Hq) as (i & -> & Hi). cbn [mbind outcome_bind].
  destruct (pos_last idx) as [k|] eqn:Ek.
  2: { replace (pos_last (blocks idx)) with (@None nat) by (by rewrite (pos_last_none _ Ek)). apply enter_nothing; [done|done|]. intros. by apply backward_nothing. }
  pose proof (pos_last_some _ _ Ek) as Hk. destruct (enter_ok self i k seek_to_last pos_last Hs Hc Hi) as (s1 & e' & He & E1 & Hw).
  { intros e1 d q1 He1 Ha. pose proof (Hdata _ _ He1). by eapply law_seek_to_last. }
  destruct (init_data_block _) as [s0| |]; try done. cbn [mbind outcome_bind] in *. rewrite E1. cbn [mbind outcome_bind].
  destruct (enter_backward _ _ _ Hw) as (s2 & E2 & Ht). exists s2. split; [done|].
  pose proof (blocks_off_S _ _ He) as HS. pose proof (off_end (S k)) as Hend.
  replace (pos_last (blocks idx)) with (before (off (S k))).
  2: { rewrite Hend by lia. destruct (blocks idx); cbn; [done|]. by rewrite Nat.sub_0_r. }
  rewrite HS. destruct (block e'.2) as [|x b]; cbn [pos_last length] in *; [by rewrite Nat.add_0_r|].
  rewrite Nat.add_succ_r. cbn [before]. by rewrite Nat.sub_succ, Nat.sub_0_r in Ht.
Qed.

Lemma seek_pos self p t : target_ok t -> two_at self p ->
  exists self', seek_ self t = Ret self' /\ two_at self' (pos_seek ord (blocks idx) t).
Proof.
  intros Hok (Hs & Hc & q & Hq)%two_at_facts. unfold seek_.
  destruct (law_seek _ _ _ Hq Hok) as (i & -> & Hi). cbn [mbind outcome_bind].
  destruct (pos_seek ord idx t) as [k|] eqn:Ek.
  - destruct (enter_ok self i k (fun d => seek d t) (fun b => pos_seek ord b t) Hs Hc Hi) as (s1 & e & He & E1 & Hw).
    { intros e1 d q1 He1 Ha. pose proof (Hdata _ _ He1). by eapply law_seek. }
    destruct (init_data_block _) as [s0| |]; try done. cbn [mbind outcome_bind] in *. rewrite E1. cbn [mbind outcome_bind].
    destruct (enter_forward _ _ _ Hw) as (s2 & E2 & Ht). exists s2. split; [done|].
    by rewrite (seek_blocks t k e _ Ek He eq_refl).
  - rewrite (seek_blocks_none t Ek). apply enter_nothing; [done|done|]. intros. by apply forward_nothing.
Qed.

Lemma next_pos self i : two_at self (Some i) -> exists self', next_ self = Ret self' /\ two_at self' (pos_next (blocks idx) i).
Proof.
  intros (k & j & Hw & ->). unfold next_. rewrite (within_data_valid _ _ _ Hw). cbn [is_some mbind outcome_bind assert].
  destruct (within_bound _ _ _ Hw) as (e & He & Hj & HS). pose proof (off_le (S k)) as Hle.
  destruct (on_data_ok self k (Some j) next (pos_next (block e.2) j) Hw) as (s1 & -> & Hw1).
  { intros e' d He' Ha. simplify_eq. pose proof (Hdata _ _ He). by apply law_next. }
  cbn [mbind outcome_bind]. destruct (enter_forward _ _ _ Hw1) as (s2 & E2 & Ht). exists s2. split; [done|].
  unfold pos_next in *. destruct (decide (S j < length (block e.2))%nat).
  - rewrite decide_True by lia. by replace (S (off k + j)) with (off k + S j)%nat by lia.
  - unfold at_end in Ht. by replace (S (off k + j)) with (off (S k)) by lia.
Qed.

Lemma prev_pos self i : two_at self (Some i) -> exists self', prev_ self = Ret self' /\ two_at self' (pos_prev i).
Proof.
  intros (k & j & Hw & ->). unfold prev_. rewrite (within_data_valid _ _ _ Hw). cbn [is_some mbind outcome_bind assert].
  destruct (on_data_ok self k (Some j) prev (pos_prev j) Hw) as (s1 & -> & Hw1).
  { intros e d He Ha. pose proof (Hdata _ _ He). by apply law_prev. }
  cbn [mbind outcome_bind]. destruct (enter_backward _ _ _ Hw1) as (s2 & E2 & Ht). exists s2. split; [done|].
  destruct j as [|j]; cbn [pos_prev] in Ht; [by rewrite Nat.add_0_r|]. by rewrite Nat.add_succ_r.
Qed.

Lemma two_level_laws : IterLaws ord (blocks idx) target_ok two_at.
Proof.
  split.
  - intros self [i|]; cbn.
    + intros (k & j & Hw & _). by apply (within_data_valid _ _ _ Hw).
    + intros (_ & Hd & _). unfold data_valid. by rewrite Hd.
  - intros self i (k & j & Hw & ->). destruct (within_bound _ _ _ Hw) as (e & He & Hj & HS).
    pose proof (off_le (S k)). lia.
  - exact first_pos.
  - exact last_pos.
  - intros self p t Hp Ht. by apply (seek_pos _ p).
  - exact next_pos.
  - exact prev_pos.
  - intros self i x (k & j & (_ & _ & e & d & He & Hd & _ & Ha) & ->) Hx. cbn. unfold key, value. rewrite Hd. cbn.
    pose proof (Hdata _ _ He). apply (law_entry _ _ _ Ha). pose proof (law_bound _ _ Ha) as Hj.
    destruct (lookup_lt_is_Some_2 _ _ Hj) as [y Hy]. pose proof (blocks_lookup _ _ _ _ He Hy). congruence.
  - intros self p (Hs & Hc & q & Hq)%two_at_facts. cbn. unfold status_. rewrite (proj1 (proj2 Hs)), (law_status _ _ Hq).
    unfold cached in Hc. destruct (data_iter self) as [d|]; [|done].
    destruct Hc as (k & e & q' & He & _ & Ha). pose proof (Hdata _ _ He). apply (law_status _ _ Ha).
Qed.

Lemma two_level_new i rounds : index_at i None -> (length idx < rounds)%nat -> two_at (new i load rounds) None.
Proof. intros Hi Hr. split; [by split|]. split; [done|by exists None]. Qed.
End two_level.

(** C27: (TwoLevelIterator) Over an index that names blocks, each a cursor of its own sorted
    list, the two-level iterator is a cursor of the concatenation of the blocks, empty
    blocks included, whichever block each operation has to load or leave. *)
Theorem two_level_iterator_concat {Ix I} `{DbIterator Ix} `{DbIterator I} ord `{!TotalOrd ord} target_ok
    idx (index_at : Ix -> option nat -> Prop) block (data_at : bytes -> I -> option nat -> Prop) load i rounds :
  IterLaws ord idx target_ok index_at -> index_at i None -> (length idx < rounds)%nat ->
  (forall k e, idx !! k = Some e -> IterLaws ord (block e.2) target_ok (data_at e.2)) ->
  (forall k e, idx !! k = Some e -> exists d, load e.2 = Ret d /\ data_at e.2 d None) ->
  (forall k e x, idx !! k = Some e -> x ∈ block e.2 -> ord x.1 e.1 <> Gt) ->
  (forall k j e e' x, (k < j)%nat -> idx !! k = Some e -> idx !! j = Some e' -> x ∈ block e'.2 -> ord e.1 x.1 = Lt) ->
  exists stands, IterLaws ord (concat (map (fun e => block e.2) idx)) target_ok stands /\
    stands (TwoLevelIterator.new i load rounds) None.
Proof.
  intros Hidx Hi Hr Hdata Hload Hup Hlow. exists (two_at idx index_at block data_at load). split.
  - exact (two_level_laws ord target_ok idx index_at block data_at load Hidx Hdata Hload Hup Hlow).
  - exact (two_level_new _ _ _ _ _ _ _ Hi Hr).
Qed.

Definition sample_blocks (handle : bytes) : list (bytes * bytes) :=
  let b := list_byte_of_string in
  let e k := (b k, b k) in
  if bool_decide (handle = b "1"%string) then [e "a"; e "c"]%string
  else if bool_decide (handle = b "3"%string) then [e "f"]%string else [].
Definition sample_load (handle : bytes) : outcome ListIter.t :=
  Ret (ListIter.mk bytes_cmp (sample_blocks handle) None).

Lemma two_level_iterator_concat_witness :
  let b := list_byte_of_string in
  let idx := [(b "d", b "1"); (b "e", b "2"); (b "g", b "3"); (b "h", b "4")]%string in
  let it := TwoLevelIterator.new (ListIter.mk bytes_cmp idx None) sample_load 5 in
  (exists stands, IterLaws bytes_cmp (concat (map (fun e => sample_blocks e.2) idx)) (fun _ => True) stands /\ stands it None) /\
  scan_backward 3 it = Ret (rev (sample_blocks (b "1") ++ sample_blocks (b "3")))%string.
Proof.
  intros b idx it. split.
  - apply (two_level_iterator_concat bytes_cmp (fun _ => True) idx (ListIter.stands bytes_cmp idx) sample_blocks
      (fun h => ListIter.stands bytes_cmp (sample_blocks h)) sample_load).
    + apply _.
    + done.
    + cbn. lia.
    + intros. apply _.
    + intros k e _. eexists. split; [reflexivity|done].
    + intros k e x He Hx. do 4 (destruct k as [|k]; [cbn in He; simplify_eq; apply list_elem_of_In in Hx; vm_compute in Hx;
        repeat destruct Hx as [<-|Hx]; try done; vm_compute; congruence|]). done.
    + intros k j e e' x Hkj He He' Hx.
      do 4 (destruct j as [|j]; [cbn in He'; simplify_eq; apply list_elem_of_In in Hx; vm_compute in Hx;
        repeat destruct Hx as [<-|Hx]; try done; do 4 (destruct k as [|k]; [cbn in He; simplify_eq; try lia; reflexivity|]); lia|]). done.
  - vm_compute. reflexivity.
Defined.
