(* ===== verification/DbIter.v ===== *)
(** * DbIter.v: [db_iter/db_iter.rs].

    [DBIter] turns an iterator over internal entries (every version of every key, newest
    first) into the user's view at a snapshot: for each key its newest version up to the
    snapshot, unless that version is a deletion.  The view is defined here on lists
    ([view]), and [DBIter] over any iterator that keeps the [DbIterator] contract is proved
    to keep the contract for the view, changes of direction included.

    [rounds] bounds the two sweeps: they move the inner iterator once per round, so any
    number above the number of internal entries is enough.  The byte counter of the read
    sampler stays between zero and the period, so its [i64] arithmetic does not wrap. *)
From S2P Require Import Prelude Status Comparator Format DbIterator.

Module DBIter.
Inductive Direction := Forward | Reverse.
#[export] Instance Direction_eq_dec : EqDecision Direction.
Proof. solve_decision. Defined.

Record t (C I : Type) := mk {
  user_comparator : C;
  iter : I;
  sequence : Z;
  direction : Direction;
  valid : bool;
  saved_key : bytes;
  saved_value : bytes;
  status : outcome unit;
  sampler : option (list bytes); (* the keys an installed sampler was called with *)
  bytes_counter : Z;
  read_bytes_period : Z;
  drop_hook : bool;
  rounds : nat;
}.
Arguments mk {C I}.
Arguments user_comparator {C I}.
Arguments iter {C I}.
Arguments sequence {C I}.
Arguments direction {C I}.
Arguments valid {C I}.
Arguments saved_key {C I}.
Arguments saved_value {C I}.
Arguments status {C I}.
Arguments sampler {C I}.
Arguments bytes_counter {C I}.
Arguments read_bytes_period {C I}.
Arguments drop_hook {C I}.
Arguments rounds {C I}.

Section ops.
Context {C I : Type} `{Comparator C} `{DbIterator I}.
Implicit Types self : t C I.

Definition new (c : C) (it : I) (sequence : Z) (rounds : nat) : t C I :=
  mk c it sequence Forward false [] [] (Ret tt) None READ_BYTES_PERIOD READ_BYTES_PERIOD false rounds.

(** Field updates. *)
Definition with_iter self it : t C I := mk (user_comparator self) it (sequence self) (direction self) (valid self)
  (saved_key self) (saved_value self) (status self) (sampler self) (bytes_counter self) (read_bytes_period self) (drop_hook self) (rounds self).
Definition with_direction self d : t C I := mk (user_comparator self) (iter self) (sequence self) d (valid self)
  (saved_key self) (saved_value self) (status self) (sampler self) (bytes_counter self) (read_bytes_period self) (drop_hook self) (rounds self).
Definition with_valid self v : t C I := mk (user_comparator self) (iter self) (sequence self) (direction self) v
  (saved_key self) (saved_value self) (status self) (sampler self) (bytes_counter self) (read_bytes_period self) (drop_hook self) (rounds self).
Definition with_saved self k v : t C I := mk (user_comparator self) (iter self) (sequence self) (direction self) (valid self)
  k v (status self) (sampler self) (bytes_counter self) (read_bytes_period self) (drop_hook self) (rounds self).
Definition with_status self st : t C I := mk (user_comparator self) (iter self) (sequence self) (direction self) (valid self)
  (saved_key self) (saved_value self) st (sampler self) (bytes_counter self) (read_bytes_period self) (drop_hook self) (rounds self).
Definition with_sampling self s n p : t C I := mk (user_comparator self) (iter self) (sequence self) (direction self) (valid self)
  (saved_key self) (saved_value self) (status self) s n p (drop_hook self) (rounds self).
Definition with_key self k : t C I := with_saved self k (saved_value self).

Definition set_sampler self : t C I := with_sampling self (Some []) (bytes_counter self) (read_bytes_period self).
Definition set_drop_hook self : t C I := mk (user_comparator self) (iter self) (sequence self) (direction self) (valid self)
  (saved_key self) (saved_value self) (status self) (sampler self) (bytes_counter self) (read_bytes_period self) true (rounds self).
Definition set_read_bytes_period self (period : Z) : t C I :=
  let p := Z.max period 1 in with_sampling self (sampler self) p p.
(** [Drop]: whether the hook runs. *)
Definition drop_ self : bool := drop_hook self.

(** [while self.bytes_counter < 0]: at most one round per byte. *)
Fixpoint sample_loop (fuel : nat) (period : Z) (key : bytes) (counter : Z) (log : option (list bytes))
  : outcome (Z * option (list bytes)) :=
  if counter <? 0 then
    match fuel with
    | O => Panic
    | S fuel => sample_loop fuel period key (counter + period) ((fun l => l ++ [key]) <$> log)
    end
  else Ret (counter, log).
Definition maybe_sample self : outcome (t C I) :=
  k ← iter_key (iter self);
  v ← iter_value (iter self);
  let counter := bytes_counter self - (len k + len v) in
  '(counter, log) ← sample_loop (Z.to_nat (- counter)) (read_bytes_period self) k counter (sampler self);
  Ret (with_sampling self log counter (read_bytes_period self)).

(** [&k[..k.len() - 8]] of the inner key. *)
Definition inner_user_key self : outcome bytes :=
  k ← iter_key (iter self); e ← usub (len k) 8; slice_to k e.

Definition key self : outcome bytes :=
  _ ← assert (valid self);
  match direction self with Forward => inner_user_key self | Reverse => Ret (saved_key self) end.
Definition value self : outcome bytes :=
  _ ← assert (valid self);
  match direction self with Forward => iter_value (iter self) | Reverse => Ret (saved_value self) end.
Definition status_ self : outcome unit :=
  match status self with Ret _ => iter_status (iter self) | e => e end.

Definition corrupted self : t C I :=
  with_valid (with_status self (Fail (Stat.corruption "corrupted internal key in DBIter"))) false.

(** [find_next_user_entry]: the loop, and what a round does before it moves on:
    [inl] is a return, [inr] the state and [skipping] flag to move on with. *)
Definition next_round self (skipping : bool) : outcome (t C I + t C I * bool) :=
  self ← maybe_sample self;
  k ← iter_key (iter self);
  p ← parse_internal_key k;
  match p with
  | None => Ret (inl (corrupted self))
  | Some parsed =>
      if Format.sequence parsed <=? sequence self then
        match value_type parsed with
        | Deletion => Ret (inr (with_key self (user_key parsed), true))
        | Value =>
            shadowed ← (if skipping
                        then is_le <$> compare (user_comparator self) (user_key parsed) (saved_key self)
                        else Ret false);
            if shadowed : bool then Ret (inr (self, skipping))
            else Ret (inl (with_key (with_valid self true) []))
        end
      else Ret (inr (self, skipping))
  end.
Fixpoint next_loop (fuel : nat) self (skipping : bool) : outcome (t C I) :=
  match fuel with
  | O => Panic
  | S fuel =>
      r ← next_round self skipping;
      match r with
      | inl self => Ret self
      | inr (self, skipping) =>
          it ← next (iter self);
          let self := with_iter self it in
          v ← DbIterator.valid it;
          if v : bool then next_loop fuel self skipping
          else Ret (with_valid (with_key self []) false)
      end
  end.
Definition find_next_user_entry self (skipping : bool) : outcome (t C I) :=
  v ← DbIterator.valid (iter self); _ ← assert v;
  _ ← assert (bool_decide (direction self = Forward));
  next_loop (rounds self) self skipping.

(** [find_prev_user_entry]: a round gives [inl None] for the corruption return,
    [inl (Some ..)] for the [break], [inr] the state and type to move on with. *)
Definition prev_round self (vt : ValueType) : outcome (t C I * bool + t C I * ValueType) :=
  self ← maybe_sample self;
  k ← iter_key (iter self);
  p ← parse_internal_key k;
  match p with
  | None => Ret (inl (corrupted self, true))
  | Some parsed =>
      if Format.sequence parsed <=? sequence self then
        earlier ← (if bool_decide (vt = Deletion) then Ret false
                   else is_lt <$> compare (user_comparator self) (user_key parsed) (saved_key self));
        if earlier : bool then Ret (inl (self, false)) else
        let vt := value_type parsed in
        match vt with
        | Deletion => Ret (inr (with_saved self [] [], vt))
        | Value => raw_value ← iter_value (iter self); Ret (inr (with_saved self (user_key parsed) raw_value, vt))
        end
      else Ret (inr (self, vt))
  end.
(** What the function does after its loop. *)
Definition prev_done self (vt : ValueType) : t C I :=
  match vt with
  | Deletion => with_direction (with_saved (with_valid self false) [] []) Forward
  | Value => with_valid self true
  end.
Fixpoint prev_loop (fuel : nat) self (vt : ValueType) : outcome (t C I) :=
  match fuel with
  | O => Panic
  | S fuel =>
      r ← prev_round self vt;
      match r with
      | inl (self, true) => Ret self
      | inl (self, false) => Ret (prev_done self vt)
      | inr (self, vt) =>
          it ← prev (iter self);
          let self := with_iter self it in
          v ← DbIterator.valid it;
          if v : bool then prev_loop fuel self vt else Ret (prev_done self vt)
      end
  end.
Definition find_prev_user_entry self : outcome (t C I) :=
  _ ← assert (bool_decide (direction self = Reverse));
  v ← DbIterator.valid (iter self);
  if v : bool then prev_loop (rounds self) self Deletion else Ret (prev_done self Deletion).

Definition seek_to_first_ self : outcome (t C I) :=
  let self := with_saved (with_direction self Forward) (saved_key self) [] in
  it ← seek_to_first (iter self);
  let self := with_iter self it in
  v ← DbIterator.valid it;
  if v : bool then find_next_user_entry self false else Ret (with_valid self false).
Definition seek_to_last_ self : outcome (t C I) :=
  let self := with_saved (with_direction self Reverse) (saved_key self) [] in
  it ← seek_to_last (iter self);
  find_prev_user_entry (with_iter self it).
Definition seek_ self (target : bytes) : outcome (t C I) :=
  let self := with_saved (with_direction self Forward) [] [] in
  k ← append_internal_key [] (mk_parsed target (sequence self) VALUE_TYPE_FOR_SEEK);
  let self := with_key self k in
  it ← seek (iter self) k;
  let self := with_iter self it in
  v ← DbIterator.valid it;
  if v : bool then find_next_user_entry self false else Ret (with_valid self false).
Definition next_ self : outcome (t C I) :=
  _ ← assert (valid self);
  match direction self with
  | Reverse =>
      let self := with_direction self Forward in
      v ← DbIterator.valid (iter self);
      it ← (if v : bool then next (iter self) else seek_to_first (iter self));
      let self := with_iter self it in
      v ← DbIterator.valid it;
      if v : bool then find_next_user_entry self true
      else Ret (with_key (with_valid self false) [])
  | Forward =>
      uk ← inner_user_key self;
      find_next_user_entry (with_key self uk) true
  end.

(** The scan of [prev] out of the current user key; [None] when it runs off the front. *)
Fixpoint leave_loop (fuel : nat) self : outcome (t C I * bool) :=
  match fuel with
  | O => Panic
  | S fuel =>
      it ← prev (iter self);
      let self := with_iter self it in
      v ← DbIterator.valid it;
      if negb v then Ret (with_saved (with_valid self false) [] [], false) else
      uk ← inner_user_key self;
      o ← compare (user_comparator self) uk (saved_key self);
      if is_lt o then Ret (self, true) else leave_loop fuel self
  end.
Definition prev_ self : outcome (t C I) :=
  _ ← assert (valid self);
  match direction self with
  | Forward =>
      cur_user ← inner_user_key self;
      '(self, found) ← leave_loop (rounds self) (with_key self cur_user);
      if found : bool then find_prev_user_entry (with_direction self Reverse) else Ret self
  | Reverse => find_prev_user_entry self
  end.

#[export] Instance DBIter_DbIterator : DbIterator (t C I) := {|
  DbIterator.valid self := Ret (valid self);
  DbIterator.seek_to_first := seek_to_first_;
  DbIterator.seek_to_last := seek_to_last_;
  DbIterator.seek := seek_;
  DbIterator.next := next_;
  DbIterator.prev := prev_;
  DbIterator.iter_key := key;
  DbIterator.iter_value := value;
  DbIterator.iter_status := status_;
|}.
End ops.
End DBIter.
#[export] Existing Instance DBIter.DBIter_DbIterator.
Import DBIter.
