(* ===== verification/DbIterCorrect.v ===== *)
(** * DbIterCorrect.v: the snapshot view, and [DBIter] as a cursor over it. *)
From S2P Require Import Prelude Status Comparator Format DbIterator DbIter.
Import DBIter.

(** ** The view at a snapshot *)

Section view.
Context (ord : bytes -> bytes -> comparison) `{!TotalOrd ord} (snap : Z).
Implicit Types e : bytes * bytes.

Definition seq_of e : Z := Z.shiftr (utag e.1) 8.
Definition kind_of e : option ValueType := value_type_from_tag (Z.land (utag e.1) 0xff).
Definition vis e : bool := seq_of e <=? snap.
Definition same_key e e' : bool := is_eq (ord (ukey e.1) (ukey e'.1)).

(** The newest version of its key that the snapshot sees: none before it (versions are
    listed newest first) is visible. *)
Definition fresh (before : list (bytes * bytes)) e : bool :=
  vis e && negb (existsb (fun x => vis x && same_key x e) before).
(** And it is not a deletion. *)
Definition chosen (before : list (bytes * bytes)) e : bool :=
  fresh before e && bool_decide (kind_of e = Some Value).

Fixpoint view_from (before es : list (bytes * bytes)) : list (bytes * bytes) :=
  match es with
  | [] => []
  | e :: es => (if chosen before e then [(ukey e.1, e.2)] else []) ++ view_from (before ++ [e]) es
  end.
Definition view (es : list (bytes * bytes)) : list (bytes * bytes) := view_from [] es.

(** Internal entries whose keys parse. *)
Definition entry_parses e : Prop := ik_ok e.1 /\ is_Some (kind_of e).

Lemma view_from_app before a b : view_from before (a ++ b) = view_from before a ++ view_from (before ++ a) b.
Proof.
  revert before. induction a as [|e a IH]; intros before; cbn [app view_from]; [by rewrite app_nil_r|].
  by rewrite IH, <- !app_assoc.
Qed.

(** How many view entries come from the first [i] internal ones. *)
Definition rank (es : list (bytes * bytes)) (i : nat) : nat := length (view (take i es)).

Section entries.
Context (es : list (bytes * bytes)) (Hsort : sorted_entries (ik_ord ord) es) (Hparse : Forall entry_parses es).

Definition chosen_at (i : nat) : Prop := exists e, es !! i = Some e /\ chosen (take i es) e = true.
Definition fresh_at (i : nat) : Prop := exists e, es !! i = Some e /\ fresh (take i es) e = true.

Lemma rank_S i e : es !! i = Some e ->
  rank es (S i) = (rank es i + if chosen (take i es) e then 1 else 0)%nat.
Proof.
  intros He. unfold rank. rewrite (take_S_r _ _ _ He). unfold view. rewrite view_from_app, length_app.
  cbn. rewrite app_nil_r. by destruct (chosen _ _).
Qed.
Lemma rank_end i : (length es <= i)%nat -> rank es i = length (view es).
Proof. intros. unfold rank. by rewrite take_ge. Qed.
Lemma rank_le i : (rank es i <= length (view es))%nat.
Proof.
  unfold rank. rewrite <- (take_drop i es) at 2. unfold view. rewrite view_from_app, length_app. lia.
Qed.
Lemma rank_chosen i : chosen_at i -> rank es (S i) = S (rank es i).
Proof. intros (e & He & Hc). rewrite (rank_S _ _ He), Hc. lia. Qed.
Lemma rank_skip i : ~ chosen_at i -> rank es (S i) = rank es i.
Proof.
  intros Hc. destruct (es !! i) as [e|] eqn:He.
  - rewrite (rank_S _ _ He). destruct (chosen _ _) eqn:E; [|lia]. exfalso. apply Hc. by exists e.
  - apply lookup_ge_None in He. by rewrite !rank_end by lia.
Qed.
Lemma rank_same a b : (a <= b)%nat -> (forall k, (a <= k < b)%nat -> ~ chosen_at k) -> rank es b = rank es a.
Proof.
  induction 1 as [|b Hab IH]; intros Hno; [done|]. rewrite rank_skip by (apply Hno; lia).
  apply IH. intros k Hk. apply Hno. lia.
Qed.
Lemma rank_mono a b : (a <= b)%nat -> (rank es a <= rank es b)%nat.
Proof.
  induction 1 as [|b Hab IH]; [done|]. destruct (es !! b) as [e|] eqn:He.
  - rewrite (rank_S _ _ He). lia.
  - apply lookup_ge_None in He. rewrite (rank_end (S b)) by lia. etrans; [exact IH|apply rank_le].
Qed.

Lemma view_at_rank i e : es !! i = Some e -> chosen (take i es) e = true ->
  view es !! rank es i = Some (ukey e.1, e.2).
Proof.
  intros He Hc. assert (Hv : view es = view (take i es) ++ view_from (take i es) (e :: drop (S i) es)).
  { unfold view. change (take i es) with ([] ++ take i es) at 2. by rewrite <- view_from_app, (take_drop_middle _ _ _ He). }
  rewrite Hv. unfold rank. rewrite lookup_app_r by lia. rewrite Nat.sub_diag. cbn. by rewrite Hc.
Qed.

(** Every view position comes from one internal position. *)
Lemma view_split p x : view es !! p = Some x ->
  exists i e, es !! i = Some e /\ chosen (take i es) e = true /\ p = rank es i /\ x = (ukey e.1, e.2).
Proof.
  intros Hx. assert (Hstep : forall n, (p < rank es n)%nat -> exists i, chosen_at i /\ p = rank es i).
  { induction n as [|n IH]; intros Hn; [change (rank es 0) with 0%nat in Hn; lia|]. destruct (decide (p < rank es n)%nat); [by apply IH|].
    destruct (es !! n) as [e|] eqn:He.
    - rewrite (rank_S _ _ He) in Hn. destruct (chosen (take n es) e) eqn:Hc.
      + exists n. split; [by exists e|lia].
      + lia.
    - apply lookup_ge_None in He. rewrite !rank_end in * by lia. lia. }
  destruct (Hstep (length es)) as (i & (e & He & Hc) & ->).
  { rewrite rank_end by done. by eapply lookup_lt_Some. }
  exists i, e. split_and!; [done..|]. rewrite (view_at_rank i e He Hc) in Hx. congruence.
Qed.

(** ** Freshness by positions *)

Lemma vis_earlier i e : fresh (take i es) e = true <->
  vis e = true /\ forall j x, (j < i)%nat -> es !! j = Some x -> vis x = true -> ord (ukey x.1) (ukey e.1) <> Eq.
Proof.
  unfold fresh. rewrite andb_true_iff, negb_true_iff. split; intros [Hv Hn]; (split; [done|]).
  - intros j x Hj Hx Hvx Heq. apply not_true_iff_false in Hn. apply Hn, existsb_exists. exists x.
    split; [|by rewrite Hvx; unfold same_key; rewrite Heq].
    apply list_elem_of_In, (list_elem_of_lookup_2 _ j). by rewrite lookup_take_lt.
  - apply not_true_iff_false. intros (x & Hx & E)%existsb_exists. apply andb_true_iff in E as [Hvx Hs].
    apply list_elem_of_In, list_elem_of_lookup in Hx as [j Hj]. apply lookup_take_Some in Hj as [Hj Hlt].
    unfold same_key in Hs. apply (Hn j x Hlt Hj Hvx). by destruct (ord _ _).
Qed.

Lemma user_le i j a b : (i <= j)%nat -> es !! i = Some a -> es !! j = Some b -> ord (ukey a.1) (ukey b.1) <> Gt.
Proof.
  intros Hij Ha Hb. pose proof (sorted_le _ _ _ _ _ Hsort Hij Ha Hb) as Hle.
  unfold ik_ord in Hle. by destruct (ord (ukey a.1) (ukey b.1)).
Qed.

Lemma chosen_fresh before e : chosen before e = true -> fresh before e = true /\ kind_of e = Some Value.
Proof. unfold chosen. rewrite andb_true_iff. intros [? ?%bool_decide_eq_true]. done. Qed.
Lemma fresh_vis before e : fresh before e = true -> vis e = true.
Proof. unfold fresh. rewrite andb_true_iff. by intros [? _]. Qed.

Lemma view_sorted : sorted_entries ord (view es).
Proof.
  intros p q x y Hpq Hx Hy.
  apply view_split in Hx as (i & a & Ha & Hca & -> & ->). apply view_split in Hy as (j & b & Hb & Hcb & -> & ->). cbn.
  assert (i < j)%nat. { destruct (decide (i < j)%nat); [done|]. pose proof (rank_mono j i). lia. }
  pose proof (user_le i j a b ltac:(lia) Ha Hb) as Hle. destruct (ord (ukey a.1) (ukey b.1)) eqn:E; [exfalso|done|done].
  apply chosen_fresh in Hca as [Hfa _]. apply chosen_fresh in Hcb as [Hfb _].
  apply vis_earlier in Hfb as [_ Hfb]. by apply (Hfb i a); [lia|done|eapply fresh_vis|].
Qed.
End entries.
End view.
#[local] Arguments view : simpl never.
#[local] Arguments rank : simpl never.
#[local] Arguments Z.to_nat : simpl never.
#[local] Arguments kind_of : simpl never.
#[local] Arguments seq_of : simpl never.

(** ** [DBIter] keeps the contract for the view *)

Section db_iter.
Context {C I : Type} `{Comparator C} `{DbIterator I} (c : C) (ord : bytes -> bytes -> comparison)
  `{!ComparatorLaws c (fun _ => True) ord} (snap : Z) (inner_ok : bytes -> Prop)
  (es : list (bytes * bytes)) (at_pos : I -> option nat -> Prop)
  (Hlaws : IterLaws (ik_ord ord) es inner_ok at_pos)
  (Hsort : sorted_entries (ik_ord ord) es) (Hparse : Forall entry_parses es)
  (Hsnap : 0 <= snap <= MAX_SEQUENCE_NUMBER).
Implicit Types self : DBIter.t C I.
#[local] Instance db_total : TotalOrd ord := laws_ord (c:=c).

Abbreviation V := (view ord snap es) (only parsing).
Abbreviation rk := (rank ord snap es) (only parsing).
Abbreviation picked := (chosen_at ord snap es) (only parsing).

Definition sound self : Prop :=
  user_comparator self = c /\ sequence self = snap /\ status self = Ret tt /\ (length es < rounds self)%nat /\
  1 <= read_bytes_period self /\ 0 <= bytes_counter self <= read_bytes_period self.

(** The same cursor, up to the sampler's state. *)
Definition same self self' : Prop :=
  sound self' /\ iter self' = iter self /\ direction self' = direction self /\ valid self' = valid self /\
  saved_key self' = saved_key self /\ saved_value self' = saved_value self.

(** At a view position: forward, the inner iterator stands at the entry itself; in
    reverse, the entry is saved and the inner iterator stands before it, with invisible
    entries only in between. *)
Definition db_at self (p : option nat) : Prop :=
  sound self /\ (exists q, at_pos (iter self) q) /\
  match p with
  | None => valid self = false
  | Some p => valid self = true /\ exists i e, es !! i = Some e /\ chosen ord snap (take i es) e = true /\ p = rk i /\
      match direction self with
      | Forward => at_pos (iter self) (Some i)
      | Reverse => saved_key self = ukey e.1 /\ saved_value self = e.2 /\
          exists lo, (lo <= i)%nat /\ at_pos (iter self) (pos_prev lo) /\
            forall k x, (lo <= k < i)%nat -> es !! k = Some x -> vis snap x = false
      end
  end.

Lemma parse_entry i e : es !! i = Some e -> exists k, kind_of e = Some k /\
  parse_internal_key e.1 = Ret (Some (mk_parsed (ukey e.1) (seq_of e) k)).
Proof.
  intros He. rewrite Forall_lookup in Hparse. destruct (Hparse _ _ He) as [Hok [k Hk]].
  exists k. split; [done|]. rewrite parse_internal_key_spec. unfold ik_ok in Hok.
  rewrite (proj2 (Z.ltb_ge _ _)) by done. unfold kind_of in Hk. change 255 with 0xff. by rewrite Hk.
Qed.

Lemma sample_loop_ok fuel period k n log : 1 <= period -> n <= period -> (Z.to_nat (- n) <= fuel)%nat ->
  exists n' log', sample_loop fuel period k n log = Ret (n', log') /\ 0 <= n' <= period.
Proof.
  intros Hp. revert n log. induction fuel as [|fuel IH]; intros n log Hn Hf; cbn [sample_loop]; zcase; try lia.
  - exists n, log. split; [done|lia].
  - apply IH; lia.
  - exists n, log. split; [done|lia].
Qed.

Lemma maybe_sample_ok self i e : sound self -> at_pos (iter self) (Some i) -> es !! i = Some e ->
  exists self', maybe_sample self = Ret self' /\ same self self'.
Proof.
  intros (H1 & H2 & H3 & H4 & H5 & H6) Hi He. unfold maybe_sample.
  destruct (law_entry _ _ _ Hi He) as [-> ->]. cbn [mbind outcome_bind].
  pose proof (len_nonneg e.1). pose proof (len_nonneg e.2).
  destruct (sample_loop_ok (Z.to_nat (- (bytes_counter self - (len e.1 + len e.2)))) (read_bytes_period self) e.1
    (bytes_counter self - (len e.1 + len e.2)) (sampler self)) as (n & log & -> & Hn); [lia..|].
  cbn [mbind outcome_bind]. eexists. split; [done|]. split; [by unfold sound; cbn|done].
Qed.

(** One round of the forward sweep. *)
Lemma next_round_ok self skipping i e : sound self -> at_pos (iter self) (Some i) -> es !! i = Some e ->
  exists self', same self self' /\ next_round self skipping = Ret (
    if vis snap e then
      if bool_decide (kind_of e = Some Value) then
        if skipping && is_le (ord (ukey e.1) (saved_key self)) then inr (self', skipping)
        else inl (with_key (with_valid self' true) [])
      else inr (with_key self' (ukey e.1), true)
    else inr (self', skipping)).
Proof.
  intros Hs Hi He. destruct (maybe_sample_ok self i e Hs Hi He) as (s & E & Hsame). exists s. split; [done|].
  unfold next_round. rewrite E. destruct Hsame as ((Hc & Hq & _) & Hit & _ & _ & Hsk & _).
  cbn [mbind outcome_bind]. rewrite Hit. destruct (law_entry _ _ _ Hi He) as [-> _]. cbn [mbind outcome_bind].
  destruct (parse_entry i e He) as (k & Hk & ->). cbn [mbind outcome_bind Format.sequence value_type user_key].
  rewrite Hq, Hc, Hsk, Hk. unfold vis. destruct (seq_of e <=? snap); [|done].
  destruct k; cbn; [done|]. destruct skipping; cbn [andb]; [|done].
  rewrite (compare_ord (c:=c)) by done. cbn. by destruct (is_le _).
Qed.

(** What the forward sweep relies on: from [m] on, the visible entries met first of their
    key are the fresh ones after [n0], except those the sweep skips. *)
Record sweep (m n0 : nat) (skipping : bool) (saved : bytes) : Prop := {
  sweep_above k x : skipping = true -> (m <= k)%nat -> es !! k = Some x -> vis snap x = true -> ord saved (ukey x.1) <> Gt;
  sweep_fresh k x : (m <= k)%nat -> es !! k = Some x -> vis snap x = true ->
    (forall j y, (m <= j < k)%nat -> es !! j = Some y -> vis snap y = true -> ord (ukey y.1) (ukey x.1) <> Eq) ->
    ((n0 <= k)%nat /\ fresh ord snap (take k es) x = true <-> ~ (skipping = true /\ ord (ukey x.1) saved <> Gt));
  sweep_none k : (n0 <= k < m)%nat -> ~ picked k;
}.

Lemma sweep_step m n0 skipping saved e : sweep m n0 skipping saved -> es !! m = Some e ->
  (vis snap e = false -> sweep (S m) n0 skipping saved) /\
  (vis snap e = true -> kind_of e <> Some Value -> sweep (S m) n0 true (ukey e.1)) /\
  (vis snap e = true -> skipping = true -> ord (ukey e.1) saved <> Gt -> sweep (S m) n0 skipping saved).
Proof.
  intros [Ha Hf Hn] He. split_and!.
  - intros Hv. split.
    + intros k x ? ?. apply Ha; [done|lia].
    + intros k x Hk Hx Hvx Hno. apply Hf; [lia|done|done|]. intros j y Hj Hy Hvy.
      destruct (decide (j = m)) as [->|]; [congruence|]. apply (Hno j); [lia|done|done].
    + intros k Hk (x & Hx & Hcx). destruct (decide (k = m)) as [->|]; [|by apply (Hn k); [lia|exists x]].
      apply chosen_fresh in Hcx as [Hfx _]. apply fresh_vis in Hfx. congruence.
  - intros Hv Hkind. split.
    + intros k x _ Hk Hx _. apply (user_le ord es Hsort m k); [lia|done|done].
    + intros k x Hk Hx Hvx Hno. pose proof (user_le ord es Hsort m k e x ltac:(lia) He Hx) as Hle.
      destruct (ord (ukey e.1) (ukey x.1)) eqn:E; [| |done].
      * split; [|intros Hc; exfalso; apply Hc; split; [done|]; apply ord_eq_sym in E; by rewrite E].
        intros [_ Hfr] _. apply vis_earlier in Hfr as [_ Hfr]. apply (Hfr m e); [lia|done..].
      * rewrite (Hf k x); [|lia|done|done|].
        -- split; [|intros _].
           ++ intros _ [_ Hc]. apply ord_gt_lt in E. congruence.
           ++ intros [Hs Hc]. pose proof (Ha m e Hs ltac:(done) He Hv) as Hae. apply Hc.
              apply ord_gt_lt. by apply (ord_le_lt_trans _ (ukey e.1)).
        -- intros j y Hj Hy Hvy. destruct (decide (j = m)) as [->|]; [simplify_eq; congruence|]. apply (Hno j); [lia|done|done].
    + intros k Hk (x & Hx & Hcx). destruct (decide (k = m)) as [->|]; [|by apply (Hn k); [lia|exists x]].
      apply chosen_fresh in Hcx as [_ Hkx]. congruence.
  - intros Hv Hs Hle. pose proof (Ha m e Hs ltac:(done) He Hv) as Hae.
    assert (Heq : ord (ukey e.1) saved = Eq).
    { rewrite (ord_opp (ord:=ord) (ukey e.1)) in Hae. by destruct (ord (ukey e.1) saved). }
    split.
    + intros k x _ ?. apply Ha; [done|lia].
    + intros k x Hk Hx Hvx Hno. pose proof (user_le ord es Hsort m k e x ltac:(lia) He Hx) as Hle'.
      destruct (ord (ukey e.1) (ukey x.1)) eqn:E; [| |done].
      * split; [|intros Hc; exfalso; apply Hc; split; [done|]; apply ord_eq_sym in E; by rewrite (ord_eq_l _ _ _ E)].
        intros [_ Hfr] _. apply vis_earlier in Hfr as [_ Hfr]. apply (Hfr m e); [lia|done..].
      * apply Hf; [lia|done|done|]. intros j y Hj Hy Hvy.
        destruct (decide (j = m)) as [->|]; [simplify_eq; congruence|]. apply (Hno j); [lia|done|done].
    + intros k Hk (x & Hx & Hcx). destruct (decide (k = m)) as [->|]; [|by apply (Hn k); [lia|exists x]]. simplify_eq.
      apply chosen_fresh in Hcx as [Hfr _].
      destruct (proj1 (Hf m e ltac:(done) He Hv ltac:(intros; lia))); [|done]. split; [lia|done].
Qed.

(** The position at or after internal position [n]. *)
Definition view_pos (n : nat) : option nat := if decide (rk n < length V)%nat then Some (rk n) else None.

Lemma view_pos_picked n0 m : (n0 <= m)%nat -> (forall k, (n0 <= k < m)%nat -> ~ picked k) -> picked m ->
  view_pos n0 = Some (rk m).
Proof.
  intros Hle Hno Hm. unfold view_pos. pose proof (rank_same _ _ _ _ _ Hle Hno) as E.
  pose proof (rank_chosen _ _ _ _ Hm) as HS. pose proof (rank_le ord snap es (S m)).
  rewrite decide_True by lia. by rewrite E.
Qed.
Lemma view_pos_none n0 : (forall k, (n0 <= k < length es)%nat -> ~ picked k) -> view_pos n0 = None.
Proof.
  intros Hno. unfold view_pos. rewrite decide_False; [done|].
  destruct (decide (n0 <= length es)%nat).
  - rewrite <- (rank_same ord snap es n0 (length es)), rank_end by done. lia.
  - rewrite rank_end by lia. lia.
Qed.

Lemma same_sound self self' : same self self' -> sound self'.
Proof. by intros [? _]. Qed.
Lemma sound_with_iter self it : sound self -> sound (with_iter self it).
Proof. done. Qed.
Lemma sound_with_key self k : sound self -> sound (with_key self k).
Proof. done. Qed.

Lemma next_loop_ok fuel self skipping m n0 : sound self -> direction self = Forward ->
  at_pos (iter self) (Some m) -> (length es - m <= fuel)%nat ->
  sweep m n0 skipping (saved_key self) ->
  exists self', next_loop fuel self skipping = Ret self' /\ db_at self' (view_pos n0).
Proof.
  revert self skipping m. induction fuel as [|fuel IH]; intros self skipping m Hs Hd Hm Hf Hsw;
    pose proof (law_bound _ _ Hm) as Hlt; [lia|]. cbn [next_loop].
  destruct (lookup_lt_is_Some_2 es m Hlt) as [e He].
  destruct (next_round_ok self skipping m e Hs Hm He) as (s1 & Hsame & ->). cbn [mbind outcome_bind].
  destruct (sweep_step m n0 skipping _ e Hsw He) as (Hinv & Hdel & Hshadow).
  destruct Hsame as (Hs1 & Hit & Hd1 & _ & Hsk & _).
  (* moving on to the next entry *)
  assert (Hgo : forall s2 sk, sound s2 -> iter s2 = iter self -> direction s2 = Forward -> sweep (S m) n0 sk (saved_key s2) ->
    exists self', (it ← next (iter s2); let s3 := with_iter s2 it in v ← DbIterator.valid it;
      if v : bool then next_loop fuel s3 sk else Ret (with_valid (with_key s3 []) false)) = Ret self' /\ db_at self' (view_pos n0)).
  { intros s2 sk Hs2 Hit2 Hd2 Hsw2. rewrite Hit2. destruct (law_next _ _ Hm) as (it & -> & Hat). cbn [mbind outcome_bind].
    rewrite (law_valid _ _ Hat). cbn [mbind outcome_bind]. unfold pos_next in *. case_decide as Hend; cbn [is_some].
    - apply (IH _ _ (S m)); [done..|lia|done].
    - eexists. split; [done|]. split; [done|]. split; [by eexists|]. rewrite view_pos_none; [done|].
      intros k Hk. apply (sweep_none _ _ _ _ Hsw2 k). lia. }
  destruct (vis snap e) eqn:Hv; [|apply Hgo; [done..|congruence|rewrite Hsk; by apply Hinv]].
  case_bool_decide as Hk; [|apply Hgo; [done..|cbn; congruence|cbn; by apply Hdel]].
  destruct (skipping && is_le (ord (ukey e.1) (saved_key self))) eqn:Esk.
  - apply andb_true_iff in Esk as [Hskip Hle]. apply Hgo; [done..|congruence|].
    rewrite Hsk. apply Hshadow; [done|done|]. by destruct (ord _ _).
  - (* the entry is returned *)
    destruct (sweep_fresh _ _ _ _ Hsw m e ltac:(done) He Hv ltac:(intros; lia)) as [_ Hfr].
    destruct Hfr as [Hle Hfr].
    { intros [-> Hle]. destruct (ord (ukey e.1) (saved_key self)); [done|done|]. by apply Hle. }
    assert (Hc : chosen ord snap (take m es) e = true) by (unfold chosen; by rewrite Hfr, bool_decide_true).
    eexists. split; [done|]. split; [done|]. split; [exists (Some m); cbn; by rewrite Hit|].
    rewrite (view_pos_picked n0 m); [|done|apply Hsw|by exists e].
    split; [done|]. exists m, e. split_and!; [done..|]. cbn. rewrite Hd1, Hd, Hit. done.
Qed.

Lemma find_next_ok self skipping m n0 : sound self -> direction self = Forward ->
  at_pos (iter self) (Some m) -> sweep m n0 skipping (saved_key self) ->
  exists self', find_next_user_entry self skipping = Ret self' /\ db_at self' (view_pos n0).
Proof.
  intros Hs Hd Hm Hsw. unfold find_next_user_entry. rewrite (law_valid _ _ Hm). cbn [is_some mbind outcome_bind assert].
  rewrite bool_decide_true by done. cbn [mbind outcome_bind assert].
  apply (next_loop_ok _ _ _ m); try done. destruct Hs as (_ & _ & _ & ? & _). lia.
Qed.

(** ** The backward sweep *)

(** What the entries strictly between [m] and [j] amount to. *)
Definition pending (m j : nat) (vt : ValueType) self : Prop :=
  match vt with
  | Deletion => forall k, (m <= k <= j)%nat -> ~ picked k
  | Value => exists i e, (m <= i <= j)%nat /\ es !! i = Some e /\ vis snap e = true /\ kind_of e = Some Value /\
      saved_key self = ukey e.1 /\ saved_value self = e.2 /\
      (forall k x, (m <= k < i)%nat -> es !! k = Some x -> vis snap x = false) /\
      (forall k, (i < k <= j)%nat -> ~ picked k)
  end.

(** The view position before internal position [n]. *)
Definition view_before (n : nat) : option nat := pos_prev (rk n).

Lemma rank_zero_before j : (forall k, (k <= j)%nat -> ~ picked k) -> view_before (S j) = None.
Proof.
  intros Hno. unfold view_before. rewrite (rank_same ord snap es 0 (S j)); [done|lia|]. intros k Hk. apply Hno. lia.
Qed.
Lemma rank_before i j : (i <= j)%nat -> picked i -> (forall k, (i < k <= j)%nat -> ~ picked k) ->
  view_before (S j) = Some (rk i).
Proof.
  intros Hij Hi Hno. unfold view_before. rewrite (rank_same ord snap es (S i) (S j)); [|lia|intros k Hk; apply Hno; lia].
  by rewrite (rank_chosen _ _ _ _ Hi).
Qed.

(** The end of the sweep, with the entries from [m] on processed: none at all is left
    before [m], or the one there has a smaller user key. *)
Lemma prev_done_ok self vt m j : sound self -> direction self = Reverse -> at_pos (iter self) (pos_prev m) ->
  pending m j vt self -> (m <= S j)%nat ->
  match vt with Deletion => m = 0%nat
  | Value => forall k x, (k < m)%nat -> es !! k = Some x -> ord (ukey x.1) (saved_key self) = Lt end ->
  db_at (prev_done self vt) (view_before (S j)).
Proof.
  intros Hs Hd Hq Hp Hm Hend. destruct vt; cbn [prev_done].
  - subst m. split; [done|]. split; [by eexists|]. rewrite rank_zero_before; [done|]. intros k Hk. apply Hp. lia.
  - destruct Hp as (i & e & Hi & He & Hv & Hk & Hsk & Hsv & Hgap & Hno). split; [done|]. split; [by eexists|].
    assert (Hc : chosen ord snap (take i es) e = true).
    { unfold chosen. rewrite bool_decide_true by done. rewrite andb_true_r. apply vis_earlier. split; [done|].
      intros k x Hki Hx Hvx. destruct (decide (k < m)%nat) as [Hkm|Hkm].
      - rewrite <- Hsk, (Hend k x Hkm Hx). done.
      - rewrite (Hgap k x) in Hvx; [done|lia|done]. }
    rewrite (rank_before i j); [|lia|by exists e|done]. split; [done|]. exists i, e. split_and!; [done..|].
    cbn. rewrite Hd. split_and!; [done..|]. exists m. split_and!; [lia|done|]. intros k x Hkk Hx. apply (Hgap k x); [lia|done].
Qed.

Lemma prev_round_ok self vt i e : sound self -> at_pos (iter self) (Some i) -> es !! i = Some e ->
  exists self', same self self' /\ prev_round self vt = Ret (
    if vis snap e then
      if negb (bool_decide (vt = Deletion)) && is_lt (ord (ukey e.1) (saved_key self)) then inl (self', false)
      else if bool_decide (kind_of e = Some Value) then inr (with_saved self' (ukey e.1) e.2, Value)
      else inr (with_saved self' [] [], Deletion)
    else inr (self', vt)).
Proof.
  intros Hs Hi He. destruct (maybe_sample_ok self i e Hs Hi He) as (s & E & Hsame). exists s. split; [done|].
  unfold prev_round. rewrite E. destruct Hsame as ((Hc & Hq & _) & Hit & _ & _ & Hsk & _).
  cbn [mbind outcome_bind]. rewrite Hit. destruct (law_entry _ _ _ Hi He) as [-> Hval]. cbn [mbind outcome_bind].
  destruct (parse_entry i e He) as (k & Hk & ->). cbn [mbind outcome_bind Format.sequence value_type user_key].
  rewrite Hq, Hc, Hsk, Hk. unfold vis. destruct (seq_of e <=? snap); [|done].
  case_bool_decide; cbn [negb andb mbind outcome_bind].
  - destruct k; cbn; [done|]. by rewrite Hval.
  - rewrite (compare_ord (c:=c)) by done. cbn. destruct (is_lt _); [done|].
    destruct k; cbn; [done|]. by rewrite Hval.
Qed.

(** Processing one more entry. *)
Lemma pending_step m j vt self e : pending (S m) j vt self -> es !! m = Some e -> (m <= j)%nat ->
  (vis snap e = false -> pending m j vt self) /\
  (vis snap e = true -> (vt = Value -> ord (ukey e.1) (saved_key self) <> Lt) ->
    forall k, (m < k <= j)%nat -> ~ picked k).
Proof.
  intros Hp He Hm. split.
  - intros Hv. destruct vt; cbn in *.
    + intros k Hk. destruct (decide (k = m)) as [->|]; [|apply Hp; lia]. intros (x & Hx & Hc). simplify_eq.
      apply chosen_fresh in Hc as [Hf _]. apply fresh_vis in Hf. congruence.
    + destruct Hp as (i & x & Hi & Hx & ? & ? & ? & ? & Hgap & ?). exists i, x. split_and!; [lia|lia|done..| |done].
      intros k y Hk Hy. destruct (decide (k = m)) as [->|]; [congruence|]. apply (Hgap k y); [lia|done].
  - intros Hv Hnlt k Hk. destruct vt; cbn in *; [apply Hp; lia|].
    destruct Hp as (i & x & Hi & Hx & _ & _ & Hsk & _ & Hgap & Hno). destruct (decide (i < k)%nat); [apply Hno; lia|].
    intros (y & Hy & Hc). apply chosen_fresh in Hc as [Hf _]. pose proof (fresh_vis _ _ _ _ Hf) as Hvy.
    destruct (decide (k = i)) as [->|]; [|by rewrite (Hgap k y) in Hvy; [done|lia|done]]. simplify_eq.
    apply vis_earlier in Hf as [_ Hf]. apply (Hf m e); [lia|done|done|].
    pose proof (user_le ord es Hsort m i e x ltac:(lia) He Hx) as Hle. specialize (Hnlt eq_refl). rewrite Hsk in Hnlt.
    by destruct (ord (ukey e.1) (ukey x.1)).
Qed.

Lemma db_prev_loop_ok fuel self vt m j : sound self -> direction self = Reverse ->
  at_pos (iter self) (Some m) -> (m < fuel)%nat -> (m <= j)%nat -> pending (S m) j vt self ->
  exists self', prev_loop fuel self vt = Ret self' /\ db_at self' (view_before (S j)).
Proof.
  revert self vt m. induction fuel as [|fuel IH]; intros self vt m Hs Hd Hm Hf Hmj Hp;
    pose proof (law_bound _ _ Hm) as Hlt; [lia|]. cbn [prev_loop].
  destruct (lookup_lt_is_Some_2 es m Hlt) as [e He].
  destruct (prev_round_ok self vt m e Hs Hm He) as (s1 & Hsame & ->). cbn [mbind outcome_bind].
  destruct (pending_step m j vt self e Hp He Hmj) as [Hinvis Hvisible].
  destruct Hsame as (Hs1 & Hit & Hd1 & _ & Hsk & Hsv).
  assert (Hgo : forall s2 vt2, sound s2 -> iter s2 = iter self -> direction s2 = Reverse -> pending m j vt2 s2 ->
    exists self', (it ← prev (iter s2); let s3 := with_iter s2 it in v ← DbIterator.valid it;
      if v : bool then prev_loop fuel s3 vt2 else Ret (prev_done s3 vt2)) = Ret self' /\ db_at self' (view_before (S j))).
  { intros s2 vt2 Hs2 Hit2 Hd2 Hp2. rewrite Hit2. destruct (law_prev _ _ Hm) as (it & -> & Hat). cbn [mbind outcome_bind].
    rewrite (law_valid _ _ Hat). cbn [mbind outcome_bind]. destruct m as [|m]; cbn [pos_prev is_some] in *.
    - eexists. split; [done|]. apply (prev_done_ok _ _ 0); try done; [lia|]. destruct vt2; [done|lia].
    - apply (IH _ _ m); [done..|lia|lia|done]. }
  destruct (vis snap e) eqn:Hv.
  2: { apply Hgo; [done..|congruence|]. specialize (Hinvis eq_refl). destruct vt; [done|]. cbn in *.
       by rewrite Hsk, Hsv. }
  destruct (negb _ && _) eqn:Eb.
  - (* the break *)
    apply andb_true_iff in Eb as [Hvt%negb_true_iff%bool_decide_eq_false Hlt']. destruct vt; [done|].
    eexists. split; [done|]. apply (prev_done_ok _ Value (S m)); [done|congruence| |by cbn in *; rewrite Hsk, Hsv|lia|].
    + cbn. by rewrite Hit.
    + intros k x Hk Hx. rewrite Hsk. apply (ord_le_lt_trans _ (ukey e.1)); [|by destruct (ord _ _)].
      apply (user_le ord es Hsort k m); [lia|done|done].
  - assert (Hno : forall k, (m < k <= j)%nat -> ~ picked k).
    { apply Hvisible; [done|]. intros -> Hlt'. by rewrite Hlt' in Eb. }
    clear Eb. case_bool_decide as Hk; apply Hgo; try done; try (cbn; congruence); cbn.
    + exists m, e. split_and!; [lia|lia|done..| |done]. intros. lia.
    + intros k Hkm. destruct (decide (k = m)) as [->|]; [|apply Hno; lia]. intros (x & Hx & Hc). simplify_eq.
      by apply chosen_fresh in Hc as [_ ?].
Qed.

(** The backward sweep from internal position [n - 1]. *)
Lemma find_prev_ok self n : sound self -> direction self = Reverse -> at_pos (iter self) (pos_prev n) ->
  exists self', find_prev_user_entry self = Ret self' /\ db_at self' (view_before n).
Proof.
  intros Hs Hd Hn. unfold find_prev_user_entry. rewrite bool_decide_true by done. cbn [mbind outcome_bind assert].
  rewrite (law_valid _ _ Hn). destruct n as [|j]; cbn [pos_prev is_some mbind outcome_bind] in *.
  - eexists. split; [done|]. split; [done|]. split; [by eexists|done].
  - pose proof (law_bound _ _ Hn). apply (db_prev_loop_ok _ _ _ j); [done..| |lia|].
    + destruct Hs as (_ & _ & _ & ? & _). lia.
    + cbn. intros. lia.
Qed.

(** ** Where a seek lands *)

Lemma visible_tag_bound e : entry_parses e -> vis snap e = true -> utag e.1 <= mk_tag snap Value.
Proof.
  intros [_ [k Hk]] Hv. unfold vis, seq_of, kind_of, value_type_from_tag in *. apply Z.leb_le in Hv.
  rewrite Z.shiftr_div_pow2 in Hv by lia. change 255 with (Z.ones 8) in Hk. rewrite Z.land_ones in Hk by lia.
  pose proof (Z.div_mod (utag e.1) (2 ^ 8)). unfold mk_tag. cbn [value_type_u8].
  destruct (Z.eqb_spec (utag e.1 mod 2 ^ 8) 0), (Z.eqb_spec (utag e.1 mod 2 ^ 8) 1); try done; lia.
Qed.

Lemma below_target t e : entry_parses e -> vis snap e = true ->
  ik_ord ord e.1 (mk_ikey t (mk_tag snap Value)) = Lt -> ord (ukey e.1) t = Lt.
Proof.
  intros Hp Hv. unfold ik_ord. rewrite ukey_mk, utag_mk by by apply mk_tag_u64.
  destruct (ord (ukey e.1) t); [|done..]. pose proof (visible_tag_bound e Hp Hv). rewrite Z.compare_lt_iff. lia.
Qed.
Lemma above_target t (e : bytes * bytes) : ik_ord ord e.1 (mk_ikey t (mk_tag snap Value)) <> Lt -> ord (ukey e.1) t <> Lt.
Proof. unfold ik_ord. rewrite ukey_mk. by destruct (ord (ukey e.1) t). Qed.

(** The internal position [m] splits the entries at the target. *)
Definition splits (t : bytes) (m : nat) : Prop :=
  (forall k x, (k < m)%nat -> es !! k = Some x -> vis snap x = true -> ord (ukey x.1) t = Lt) /\
  (forall k x, (m <= k)%nat -> es !! k = Some x -> ord (ukey x.1) t <> Lt).

Lemma seek_splits t : splits t (default (length es) (pos_seek (ik_ord ord) es (mk_ikey t (mk_tag snap Value)))).
Proof.
  rewrite Forall_lookup in Hparse. destruct (pos_seek _ _ _) as [m|] eqn:Em; cbn.
  - apply pos_seek_some in Em as (_ & Hge & Hlt). split.
    + intros k x Hk Hx Hv. apply below_target; [by eapply Hparse|done|by eapply Hlt].
    + intros k x Hk Hx. destruct (lookup_lt_is_Some_2 es m) as [e He]; [apply lookup_lt_Some in Hx; lia|].
      pose proof (above_target t e (Hge e He)) as Ha. pose proof (user_le ord es Hsort m k e x Hk He Hx) as Hle.
      intros Hxt. apply Ha. by apply (ord_le_lt_trans _ (ukey x.1)).
  - pose proof (pos_seek_none _ _ _ Em) as Hlt. split.
    + intros k x Hk Hx Hv. apply below_target; [by eapply Hparse|done|by eapply Hlt].
    + intros k x Hk Hx. apply lookup_lt_Some in Hx. lia.
Qed.

Lemma splits_sweep t m : splits t m -> sweep m m false (mk_ikey t (mk_tag snap Value)).
Proof.
  intros [Hlo Hhi]. split; [done| |lia]. intros k x Hk Hx Hv Hno. split; [intros _ [? _]; done|intros _].
  split; [done|]. apply vis_earlier. split; [done|]. intros j y Hj Hy Hvy.
  destruct (decide (j < m)%nat) as [Hjm|Hjm]; [|apply (Hno j); [lia|done..]].
  intros Heq. apply (Hhi k x Hk Hx). apply ord_eq_sym in Heq. rewrite (ord_eq_l _ _ _ Heq). by eapply Hlo.
Qed.

Lemma splits_view t m : splits t m -> pos_seek ord V t = view_pos m.
Proof.
  intros [Hlo Hhi].
  assert (Hbelow : forall p x, (p < rk m)%nat -> V !! p = Some x -> ord x.1 t = Lt).
  { intros p x Hp Hx. apply view_split in Hx as (i & e & He & Hc & -> & ->). cbn.
    assert (i < m)%nat by (destruct (decide (i < m)%nat); [done|]; pose proof (rank_mono ord snap es m i); lia).
    apply (Hlo i); [done..|]. apply chosen_fresh in Hc as [Hf _]. by eapply fresh_vis. }
  unfold view_pos. case_decide as Hlt.
  - apply pos_seek_intro; [done| |done]. intros x Hx.
    apply view_split in Hx as (i & e & He & Hc & Hrk & ->). cbn. apply (Hhi i); [|done].
    destruct (decide (m <= i)%nat); [done|]. pose proof (rank_mono ord snap es (S i) m).
    rewrite (rank_chosen ord snap es i) in * by (by exists e). lia.
  - apply pos_seek_intro_none. intros p x Hx. apply (Hbelow p); [|done]. apply lookup_lt_Some in Hx. lia.
Qed.

(** ** The operations *)

Lemma db_first_ok self p : db_at self p -> exists self', seek_to_first_ self = Ret self' /\ db_at self' (pos_first V).
Proof.
  intros (Hs & [q Hq] & _). unfold seek_to_first_. cbn [iter with_saved with_direction].
  destruct (law_seek_to_first _ _ Hq) as (it & -> & Hi). cbn [mbind outcome_bind].
  rewrite (law_valid _ _ Hi). cbn [mbind outcome_bind].
  replace (pos_first V) with (view_pos 0) by (unfold view_pos; change (rk 0) with 0%nat; destruct V; done).
  destruct (pos_first es) as [k|] eqn:Ek; cbn [is_some].
  - pose proof (pos_first_some _ _ Ek) as ->. apply (find_next_ok _ _ 0 0); [done|done|done|].
    split; [done| |lia]. intros k x _ Hx Hv Hno. split; [intros _ [? _]; done|intros _]. split; [lia|].
    apply vis_earlier. split; [done|]. intros j y Hj. apply (Hno j). lia.
  - eexists. split; [done|]. split; [done|]. split; [by eexists|]. rewrite view_pos_none; [done|].
    intros k Hk. rewrite (pos_first_none _ Ek) in Hk. cbn in Hk. lia.
Qed.

Lemma db_last_ok self p : db_at self p -> exists self', seek_to_last_ self = Ret self' /\ db_at self' (pos_last V).
Proof.
  intros (Hs & [q Hq] & _). unfold seek_to_last_. cbn [iter with_saved with_direction].
  destruct (law_seek_to_last _ _ Hq) as (it & -> & Hi). cbn [mbind outcome_bind].
  replace (pos_last V) with (view_before (length es)).
  - apply find_prev_ok; [done|done|]. cbn. destruct es as [|e l]; [done|]. cbn in *. by rewrite Nat.sub_0_r in Hi.
  - unfold view_before. rewrite rank_end by done. destruct V; [done|]. cbn. by rewrite Nat.sub_0_r.
Qed.

Lemma db_seek_ok self p t : inner_ok (mk_ikey t (mk_tag snap Value)) -> db_at self p ->
  exists self', seek_ self t = Ret self' /\ db_at self' (pos_seek ord V t).
Proof.
  intros Hok (Hs & [q Hq] & _). unfold seek_. cbn [iter sequence with_saved with_direction].
  rewrite (proj1 (proj2 Hs)), append_internal_key_ok by (cbn; lia). cbn [mbind outcome_bind app user_key value_type Format.sequence].
  unfold VALUE_TYPE_FOR_SEEK. cbn [iter with_key with_saved with_direction].
  destruct (law_seek _ _ _ Hq Hok) as (it & -> & Hi). cbn [mbind outcome_bind].
  rewrite (law_valid _ _ Hi). cbn [mbind outcome_bind].
  pose proof (seek_splits t) as Hsp. rewrite (splits_view t _ Hsp).
  destruct (pos_seek (ik_ord ord) es _) as [m|]; cbn [is_some default] in *.
  - apply (find_next_ok _ _ m m); [done|done|done|]. by apply splits_sweep.
  - eexists. split; [done|]. split; [done|]. split; [by eexists|]. rewrite view_pos_none; [done|]. intros. lia.
Qed.

(** From a picked entry onwards, its key skipped. *)
Lemma after_sweep i e lo : es !! i = Some e -> chosen ord snap (take i es) e = true -> (lo <= i)%nat ->
  (forall k x, (lo <= k < i)%nat -> es !! k = Some x -> vis snap x = false) -> sweep lo (S i) true (ukey e.1).
Proof.
  intros He [Hf _]%chosen_fresh Hlo Hgap. pose proof (fresh_vis _ _ _ _ Hf) as Hve.
  assert (Hge : forall k x, (lo <= k)%nat -> es !! k = Some x -> vis snap x = true -> (i <= k)%nat).
  { intros k x Hk Hx Hv. destruct (decide (i <= k)%nat); [done|]. rewrite (Hgap k x) in Hv; [done|lia|done]. }
  split; [|intros k x Hk Hx Hv Hno|lia].
  - intros k x _ Hk Hx Hv. apply (user_le ord es Hsort i k); [by eapply Hge|done|done].
  - pose proof (Hge k x Hk Hx Hv) as Hik. pose proof (user_le ord es Hsort i k e x Hik He Hx) as Hle.
    destruct (ord (ukey e.1) (ukey x.1)) eqn:E; [| |done].
    + split; [|intros Hc; exfalso; apply Hc; split; [done|]; apply ord_eq_sym in E; by rewrite E].
      intros [Hsi Hfx] _. destruct (Hno i e ltac:(lia) He Hve E).
    + assert (i <> k) by (intros ->; simplify_eq; by rewrite ord_refl in E).
      split; [intros _ [_ Hc]; apply Hc; by apply ord_gt_lt|intros _]. split; [lia|].
      apply vis_earlier. split; [done|]. intros j y Hj Hy Hvy Heq.
      destruct (decide (j < i)%nat) as [Hji|Hji].
      * pose proof (user_le ord es Hsort j i y e ltac:(lia) Hy He) as Hle'.
        rewrite (ord_le_lt_trans _ _ _ Hle' E) in Heq. done.
      * apply (Hno j y); [lia|done..].
Qed.

Lemma inner_user_key_ok self i e : at_pos (iter self) (Some i) -> es !! i = Some e -> inner_user_key self = Ret (ukey e.1).
Proof.
  intros Hi He. unfold inner_user_key. destruct (law_entry _ _ _ Hi He) as [-> _]. cbn [mbind outcome_bind].
  rewrite Forall_lookup in Hparse. destruct (Hparse _ _ He) as [Hok _]. unfold ik_ok in Hok.
  unfold usub. rewrite (proj2 (Z.leb_le _ _)) by done. cbn [mbind outcome_bind]. unfold slice_to.
  rewrite slice_ok by len_lia. unfold ukey. rewrite zdrop_0. by rewrite Z.sub_0_r.
Qed.

Lemma view_pos_next i : picked i -> view_pos (S i) = pos_next V (rk i).
Proof. intros Hi. unfold view_pos, pos_next. by rewrite (rank_chosen _ _ _ _ Hi). Qed.

Lemma db_next_ok self p : db_at self (Some p) -> exists self', next_ self = Ret self' /\ db_at self' (pos_next V p).
Proof.
  intros (Hs & _ & Hv & i & e & He & Hc & -> & Hdir). unfold next_. rewrite Hv. cbn [mbind outcome_bind assert].
  rewrite <- view_pos_next by (by exists e). pose proof (lookup_lt_Some _ _ _ He) as Hilt.
  destruct (direction self) eqn:Ed.
  - rewrite (inner_user_key_ok self i e Hdir He). cbn [mbind outcome_bind].
    apply (find_next_ok _ _ i (S i)); [done|done|done|]. cbn. apply (after_sweep i); [done..|]. intros. lia.
  - destruct Hdir as (Hsk & _ & lo & Hlo & Hat & Hgap). cbn [iter with_direction].
    rewrite (law_valid _ _ Hat). cbn [mbind outcome_bind].
    assert (Hmove : exists it, (if is_some (pos_prev lo) then next (iter self) else seek_to_first (iter self)) = Ret it /\
      at_pos it (Some lo)).
    { destruct lo as [|lo]; cbn [pos_prev is_some] in *.
      - destruct (law_seek_to_first _ _ Hat) as (it & E & Hi). exists it. split; [done|].
        destruct es; [cbn in Hilt; lia|done].
      - destruct (law_next _ _ Hat) as (it & E & Hi). exists it. split; [done|].
        unfold pos_next in Hi. by rewrite decide_True in Hi by lia. }
    destruct Hmove as (it & -> & Hi). cbn [mbind outcome_bind]. rewrite (law_valid _ _ Hi). cbn [is_some mbind outcome_bind].
    apply (find_next_ok _ _ lo (S i)); [done|done|done|]. cbn. rewrite Hsk. by apply (after_sweep i).
Qed.

(** Leaving the current user key backwards. *)
Lemma leave_loop_ok fuel self i k e : sound self -> es !! i = Some e -> chosen ord snap (take i es) e = true ->
  at_pos (iter self) (Some k) -> (k <= i)%nat -> (k < fuel)%nat -> saved_key self = ukey e.1 ->
  (forall j, (k <= j < i)%nat -> ~ picked j) -> direction self = Forward ->
  exists self' found, leave_loop fuel self = Ret (self', found) /\
    if found : bool then sound self' /\ exists m, (m < i)%nat /\ at_pos (iter self') (Some m) /\ forall j, (m < j < i)%nat -> ~ picked j
    else db_at self' (pos_prev (rk i)).
Proof.
  intros Hs He Hc Hk Hki Hf Hsk Hno Hd. revert self k Hs Hk Hki Hf Hsk Hno Hd.
  induction fuel as [|fuel IH]; intros self k Hs Hk Hki Hf Hsk Hno Hd; [lia|]. cbn [leave_loop].
  destruct (law_prev _ _ Hk) as (it & -> & Hat). cbn [mbind outcome_bind]. rewrite (law_valid _ _ Hat). cbn [mbind outcome_bind].
  destruct k as [|k]; cbn [pos_prev is_some negb] in *.
  - eexists _, false. split; [done|]. split; [done|]. split; [by eexists|].
    rewrite (rank_same ord snap es 0 i); [done|lia|]. intros j Hj. apply Hno. lia.
  - destruct (lookup_lt_is_Some_2 es k (law_bound _ _ Hat)) as [x Hx].
    rewrite (inner_user_key_ok (with_iter self it) k x Hat Hx). cbn [mbind outcome_bind].
    destruct Hs as (Hcmp & Hs). cbn [user_comparator saved_key with_iter]. rewrite Hcmp, Hsk.
    rewrite (compare_ord (c:=c)) by done. cbn [mbind outcome_bind]. destruct (is_lt _) eqn:Elt.
    + eexists _, true. split; [done|]. split; [by split|]. exists k. split_and!; [lia|done|]. intros j Hj. apply Hno. lia.
    + apply (IH _ k); [by split|done|lia|lia|done| |done]. intros j Hj. destruct (decide (j = k)) as [->|]; [|apply Hno; lia].
      intros (y & Hy & Hcy). simplify_eq. apply chosen_fresh in Hcy as [Hfy _].
      apply chosen_fresh in Hc as [Hfe _]. apply vis_earlier in Hfe as [_ Hfe].
      apply (Hfe k x); [lia|done|by eapply fresh_vis|].
      pose proof (user_le ord es Hsort k i x e ltac:(lia) Hx He). by destruct (ord _ _).
Qed.

Lemma db_prev_ok self p : db_at self (Some p) -> exists self', prev_ self = Ret self' /\ db_at self' (pos_prev p).
Proof.
  intros (Hs & _ & Hv & i & e & He & Hc & -> & Hdir). unfold prev_. rewrite Hv. cbn [mbind outcome_bind assert].
  destruct (direction self) eqn:Ed.
  - rewrite (inner_user_key_ok self i e Hdir He). cbn [mbind outcome_bind].
    destruct (leave_loop_ok (rounds self) (with_key self (ukey e.1)) i i e) as (s1 & found & -> & Hf); try done.
    { destruct Hs as (_ & _ & _ & ? & _). pose proof (law_bound _ _ Hdir). cbn. lia. }
    { intros. lia. }
    cbn [mbind outcome_bind]. destruct found; [|by eexists].
    destruct Hf as (Hs1 & m & Hm & Hat & Hno).
    destruct (find_prev_ok (with_direction s1 Reverse) (S m)) as (s2 & E & H2); [done..|].
    exists s2. split; [done|]. unfold view_before in H2. by rewrite (rank_same ord snap es (S m) i) by (lia || (intros; apply Hno; lia)).
  - destruct Hdir as (_ & _ & lo & Hlo & Hat & Hgap).
    destruct (find_prev_ok self lo Hs Ed Hat) as (s2 & E & H2). exists s2. split; [done|].
    unfold view_before in H2. rewrite (rank_same ord snap es lo i); [done|lia|].
    intros k Hk (x & Hx & Hcx). apply chosen_fresh in Hcx as [Hfx _]. apply fresh_vis in Hfx. by rewrite (Hgap k x) in Hfx.
Qed.

Lemma db_iter_laws : IterLaws ord V (fun t => inner_ok (mk_ikey t (mk_tag snap Value))) db_at.
Proof.
  split.
  - intros self [p|] (_ & _ & Hp); cbn; [by rewrite (proj1 Hp)|by rewrite Hp].
  - intros self p (_ & _ & _ & i & e & He & Hc & -> & _). eapply lookup_lt_Some. by apply view_at_rank.
  - exact db_first_ok.
  - exact db_last_ok.
  - intros self p t Hp Ht. by eapply db_seek_ok.
  - exact db_next_ok.
  - exact db_prev_ok.
  - intros self p x (_ & _ & Hv & i & e & He & Hc & -> & Hdir) Hx. rewrite (view_at_rank _ _ _ _ _ He Hc) in Hx. simplify_eq. cbn.
    unfold key, value. rewrite Hv. cbn [mbind outcome_bind assert]. destruct (direction self).
    + rewrite (inner_user_key_ok _ _ _ Hdir He). split; [done|]. by apply (law_entry _ _ _ Hdir).
    + by destruct Hdir as (-> & -> & _).
  - intros self p ((_ & _ & Hst & _) & [q Hq] & _). cbn. unfold status_. rewrite Hst. apply (law_status _ _ Hq).
Qed.

Lemma db_at_new it rounds : at_pos it None -> (length es < rounds)%nat -> db_at (new c it snap rounds) None.
Proof. intros Hi Hr. split; [|split; [by eexists|done]]. unfold sound, READ_BYTES_PERIOD. cbn. by split_and!. Qed.
End db_iter.

(** ** Claims *)

(** C19: (DBIter) Over any iterator that is a cursor of sorted internal entries, [DBIter] is
    a cursor of the view at its snapshot: every operation from every reachable state, the
    turns between forward and backward included, moves it as the operation moves a position
    of the view, and it reports the user key and value there.  The view is sorted and holds,
    for each key, the newest version up to the snapshot unless that is a deletion. *)
Theorem db_iter_is_view {C I} `{Comparator C} `{DbIterator I} (c : C) ord
    `{!ComparatorLaws c (fun _ => True) ord} snap inner_ok es (at_pos : I -> option nat -> Prop) it rounds :
  IterLaws (ik_ord ord) es inner_ok at_pos -> sorted_entries (ik_ord ord) es -> Forall entry_parses es ->
  0 <= snap <= MAX_SEQUENCE_NUMBER -> at_pos it None -> (length es < rounds)%nat ->
  sorted_entries ord (view ord snap es) /\
  (forall x, x ∈ view ord snap es <-> exists i e, es !! i = Some e /\ x = (ukey e.1, e.2) /\
     seq_of e <= snap /\ kind_of e = Some Value /\
     forall j y, (j < i)%nat -> es !! j = Some y -> seq_of y <= snap -> ord (ukey y.1) (ukey e.1) <> Eq) /\
  exists stands, IterLaws ord (view ord snap es) (fun t => inner_ok (mk_ikey t (mk_tag snap Value))) stands /\
    stands (DBIter.new c it snap rounds) None.
Proof.
  intros Hl Hs Hp Hsnap Hit Hr. pose proof (laws_ord (c:=c)) as Ho. split_and!.
  - by apply view_sorted.
  - intros x. split.
    + intros [p Hx]%list_elem_of_lookup. apply view_split in Hx as (i & e & He & Hc & _ & ->). exists i, e.
      apply chosen_fresh in Hc as [Hf Hk]. apply (vis_earlier ord snap es i e) in Hf as [Hv Hf].
      split_and!; [done|done|by apply Z.leb_le|done|]. intros j y Hj Hy Hsy. apply (Hf j y); [done|done|by apply Z.leb_le].
    + intros (i & e & He & -> & Hseq & Hk & Hno). apply list_elem_of_lookup. exists (rank ord snap es i).
      apply view_at_rank; [done|]. unfold chosen. rewrite bool_decide_true, andb_true_r by done.
      apply vis_earlier. split; [by apply Z.leb_le|]. intros j y Hj Hy Hv%Z.leb_le. by apply (Hno j y).
  - exists (db_at c ord snap es at_pos). split; [by apply db_iter_laws|]. by apply db_at_new.
Qed.

Definition sample_versions : list (bytes * bytes) :=
  let b := list_byte_of_string in
  let e k s ty v := (mk_ikey (b k) (mk_tag s ty), b v) in
  [e "a" 7 Value "a7"; e "a" 2 Value "a2"; e "b" 5 Deletion ""; e "b" 1 Value "b1";
   e "c" 9 Deletion ""; e "c" 4 Value "c4"; e "d" 3 Value "d3"]%string.

Lemma db_iter_is_view_witness :
  let b := list_byte_of_string in
  let it := DBIter.new Bytewise (ListIter.mk (ik_ord bytes_cmp) sample_versions None) 5 9 in
  (exists stands, IterLaws bytes_cmp (view bytes_cmp 5 sample_versions) (fun _ => True) stands /\ stands it None) /\
  view bytes_cmp 5 sample_versions = [(b "a", b "a2"); (b "c", b "c4"); (b "d", b "d3")]%string /\
  (it ← seek it (b "b"%string); it ← prev it; it ← next it; iter_value it) = Ret (b "c4"%string).
Proof.
  intros b it. split_and!; [|vm_compute; reflexivity|vm_compute; reflexivity].
  assert (Hs : sorted_entries (ik_ord bytes_cmp) sample_versions) by (apply (sortedb_sound (ik_ord bytes_cmp)); vm_compute; reflexivity).
  assert (Hp : Forall entry_parses sample_versions).
  { unfold sample_versions. repeat apply Forall_cons_2; try apply Forall_nil_2; split; vm_compute; first [by eexists|congruence]. }
  destruct (db_iter_is_view Bytewise bytes_cmp 5 (fun _ => True) sample_versions
    (ListIter.stands (ik_ord bytes_cmp) sample_versions) (ListIter.mk (ik_ord bytes_cmp) sample_versions None) 9)
    as (_ & _ & H); [apply _|exact Hs|exact Hp|unfold MAX_SEQUENCE_NUMBER; lia|done|cbn; lia|exact H].
Defined.
