(* ===== verification/Block.v ===== *)
(** * Block.v: [block/*.rs].

    The on-disk pieces of a table block (handle, entry, trailer, restart trailer),
    [Block::new], the prefix-compressing [BlockBuilder], the small-buffer key
    [KeyBuf], and [BlockIter] with its restart-array search. *)
From S2P Require Import Prelude Status Coding Crc32c Comparator DbIterator.

Definition DEFAULT_RESTART_INTERVAL : Z := 16.

(** ** [BlockHandle] *)

Module BlockHandle.
Record t := mk { offset : Z; size : Z }.
Definition encode (h : t) (dst : bytes) : bytes :=
  put_varint64 (put_varint64 dst (offset h)) (size h).
Definition decode_from : reader t :=
  offset ← need get_varint64 "BlockHandle: missing offset";
  size ← need get_varint64 "BlockHandle: missing size";
  mret (mk offset size).
Definition encode_streaming (dst : bytes) (offset size : Z) : bytes :=
  put_varint64 (put_varint64 dst offset) size.
Definition visit {R} (f : Z -> Z -> R) : reader R :=
  offset ← need get_varint64 "BlockHandle: missing offset";
  size ← need get_varint64 "BlockHandle: missing size";
  mret (f offset size).
End BlockHandle.

(** ** [BlockEntry] *)

Module BlockEntry.
Record t := mk { shared : Z; unshared : Z; value_len : Z; key_delta : bytes; value : bytes }.

Definition encode_streaming (dst : bytes) (shared unshared value_len : Z)
    (key_delta value : bytes) : bytes :=
  put_varint32 (put_varint32 (put_varint32 dst shared) unshared) value_len
    ++ key_delta ++ value.
Definition encode (e : t) (dst : bytes) : bytes :=
  put_varint32 (put_varint32 (put_varint32 dst (shared e)) (unshared e)) (value_len e)
    ++ key_delta e ++ value e.

(** [if input.len() < n { Err } else { split at n }] *)
Definition get_bytes (n : Z) (m : string) : reader bytes := fun input =>
  if len input <? n then (Fail (Stat.corruption m), input)
  else (Ret (ztake n input), zdrop n input).

Definition visit {R} (f : Z -> Z -> Z -> bytes -> bytes -> R) : reader R :=
  shared ← need get_varint32 "BlockEntry: missing shared";
  unshared ← need get_varint32 "BlockEntry: missing unshared";
  value_len ← need get_varint32 "BlockEntry: missing value_len";
  key_delta ← get_bytes unshared "BlockEntry: missing key_delta";
  value ← get_bytes value_len "BlockEntry: missing value";
  mret (f shared unshared value_len key_delta value).
Definition decode_from : reader t :=
  shared ← need get_varint32 "BlockEntry: missing shared";
  unshared ← need get_varint32 "BlockEntry: missing unshared";
  value_len ← need get_varint32 "BlockEntry: missing value_len";
  key_delta ← get_bytes unshared "BlockEntry: missing key_delta";
  value ← get_bytes value_len "BlockEntry: missing value";
  mret (mk shared unshared value_len key_delta value).
End BlockEntry.

(** ** [BlockTrailer] *)

Module BlockTrailer.
Definition SIZE : Z := 5.
Definition KIND_NO_COMPRESSION : Z := 0.
Definition KIND_SNAPPY : Z := 1.
Record t := mk { kind : Z; crc : Z }.
Definition encode (x : t) (dst : bytes) : bytes :=
  put_fixed32 (dst ++ [as_u8 (kind x)]) (mask (crc x)).
Definition decode_from : reader t :=
  kind ← need get_u8 "BlockTrailer: missing kind";
  crc_raw ← need get_fixed32 "BlockTrailer: missing crc";
  mret (mk kind (unmask crc_raw)).
End BlockTrailer.

(** ** [BlockRestartTrailer] *)

Module BlockRestartTrailer.
Definition encode (items : list Z) (dst : bytes) : bytes :=
  put_fixed32 (fold_left put_fixed32 items dst) (as_u32 (len items)).
Fixpoint read_items (input : bytes) (i : Z) (n : nat) : outcome (list Z) :=
  match n with
  | O => Ret []
  | S n =>
      b ← slice input (i * 4) ((i + 1) * 4);
      x ← decode_fixed32 b;
      xs ← read_items input (i + 1) n;
      Ret (x :: xs)
  end.
(** On success the cursor is left at the end of the input. *)
Definition decode_from (input : bytes) : outcome (list Z) * bytes :=
  if len input <? 4 then (Fail (Stat.corruption "BlockRestartTrailer: missing count"), input)
  else
    let count_offset := len input - 4 in
    match (b ← slice_from input count_offset; decode_fixed32 b) with
    | Ret count =>
        if negb (count_offset =? count * 4)
        then (Fail (Stat.corruption "BlockRestartTrailer: count/length mismatch"), input)
        else
          match read_items input 0 (Z.to_nat count) with
          | Ret items => (Ret items, [])
          | o => (o, input)
          end
    | Fail s => (Fail s, input)
    | Panic => (Panic, input)
    end.
End BlockRestartTrailer.

(** ** [Block] *)

Record Block := mk_block { blk_bytes : bytes; restart_offset : Z; num_restarts : Z }.

Definition Block_new (bs : bytes) : outcome Block :=
  if len bs <? 4 then Fail (Stat.corruption "Block: too small for restart count")
  else
    b ← slice_from bs (len bs - 4);
    num_restarts ← decode_fixed32 b;
    let max_restarts := (len bs - 4) / 4 in
    if max_restarts <? num_restarts then Fail (Stat.corruption "Block: bad restart count")
    else Ret (mk_block bs (len bs - 4 - num_restarts * 4) num_restarts).
Definition Block_size (b : Block) : Z := len (blk_bytes b).

(** ** [BlockBuilder] *)

Module BlockBuilder.
Section BlockBuilder.
Context {C : Type} `{Comparator C}.

Record t := mk {
  comparator : C;
  buffer : bytes;
  restarts : list Z;
  counter : Z;
  finished : bool;
  last_key : bytes;
  block_restart_interval : Z;
}.

Definition new (comparator : C) (restart_interval : Z) : outcome t :=
  _ ← assert (1 <=? restart_interval);
  Ret (mk comparator [] [0] 0 false [] restart_interval).

Definition reset (b : t) : t :=
  mk (comparator b) [] [0] 0 false [] (block_restart_interval b).

Definition empty (b : t) : bool := bool_decide (buffer b = []).

Definition current_size_estimate (b : t) : Z := len (buffer b) + len (restarts b) * 4 + 4.

Definition add (b : t) (key value : bytes) : outcome t :=
  _ ← assert (negb (finished b));
  _ ← assert (counter b <=? block_restart_interval b);
  ordered ← (if empty b then Ret true
             else o ← compare (comparator b) key (last_key b); Ret (is_gt o));
  _ ← assert ordered;
  let '(shared, restarts, counter) :=
    if counter b <? block_restart_interval b
    then (match_len (last_key b) key, restarts b, counter b)
    else (0, restarts b ++ [as_u32 (len (buffer b))], 0) in
  let unshared := len key - shared in
  delta ← slice_from key shared;
  Ret (mk (comparator b)
          (BlockEntry.encode_streaming (buffer b) (as_u32 shared) (as_u32 unshared)
             (as_u32 (len value)) delta value)
          restarts (counter + 1) (finished b)
          (ztake shared (last_key b) ++ delta) (block_restart_interval b)).

(** The builder and the finished contents it hands out. *)
Definition finish (b : t) : t * bytes :=
  let buffer' := put_fixed32 (fold_left put_fixed32 (restarts b) (buffer b))
                   (as_u32 (len (restarts b))) in
  (mk (comparator b) buffer' (restarts b) (counter b) true (last_key b)
      (block_restart_interval b), buffer').
End BlockBuilder.
Arguments t : clear implicits.
End BlockBuilder.

(** ** [KeyBuf] *)

Definition KEY_INLINE_CAP : Z := 48.

Inductive KeyBuf :=
| Inline (data : bytes) (l : Z)
| Heap (v : bytes).

Module Key_buf.
Definition new : KeyBuf := Inline (replicate 48 (as_u8 0)) 0.
Definition clear (k : KeyBuf) : KeyBuf :=
  match k with Inline data _ => Inline data 0 | Heap _ => Heap [] end.
Definition truncate (k : KeyBuf) (n : Z) : KeyBuf :=
  match k with
  | Inline data l => if n <? l then Inline data n else k
  | Heap v => Heap (ztake n v)
  end.
Definition extend_from_slice (k : KeyBuf) (bs : bytes) : outcome KeyBuf :=
  match k with
  | Inline data l =>
      let new_len := l + len bs in
      if new_len <=? KEY_INLINE_CAP then
        data ← copy_from_slice data l new_len bs; Ret (Inline data new_len)
      else
        d ← slice_to data l; Ret (Heap (d ++ bs))
  | Heap v => Ret (Heap (v ++ bs))
  end.
Definition deref (k : KeyBuf) : outcome bytes :=
  match k with Inline data l => slice_to data l | Heap v => Ret v end.
End Key_buf.

(** ** [BlockIter] *)

Module BlockIter.
Section BlockIter.
Context {C : Type} `{Comparator C}.

(** Borrowed and shared blocks are read alike: the source is the block. *)
Record t := mk {
  block : Block;
  comparator : C;
  current_offset : Z;
  next_entry_offset : Z;
  restart_index : Z;
  key : KeyBuf;
  value_offset : Z;
  value_len : Z;
  is_valid : bool;
  status : option Status;
}.

Definition from_source (block : Block) (comparator : C) : t :=
  mk block comparator (restart_offset block) (restart_offset block) (num_restarts block)
     Key_buf.new 0 0 false None.
Definition new := from_source.
Definition from_owned := from_source.
Definition from_shared := from_source.

Definition read_restart (it : t) (idx : Z) : outcome Z :=
  let offset := restart_offset (block it) + idx * 4 in
  b ← slice (blk_bytes (block it)) offset (offset + 4);
  decode_fixed32 b.

Definition set_corruption (it : t) (msg : string) : t :=
  let ro := restart_offset (block it) in
  mk (block it) (comparator it) ro ro (restart_index it) (key it)
     (value_offset it) (value_len it) false (Some (Stat.corruption ("Block: " +:+ msg))).

(** [valid = false] with both offsets at [restart_offset]. *)
Definition invalidate (it : t) : t :=
  let ro := restart_offset (block it) in
  mk (block it) (comparator it) ro ro (restart_index it) (key it)
     (value_offset it) (value_len it) false (status it).
Definition set_invalid (it : t) : t :=
  mk (block it) (comparator it) (current_offset it) (next_entry_offset it)
     (restart_index it) (key it) (value_offset it) (value_len it) false (status it).

Definition with_restart_index (it : t) (i : Z) : t :=
  mk (block it) (comparator it) (current_offset it) (next_entry_offset it)
     i (key it) (value_offset it) (value_len it) (is_valid it) (status it).

Definition parse_next_entry (it : t) : outcome (bool * t) :=
  let ro := restart_offset (block it) in
  if next_entry_offset it >=? ro then Ret (false, invalidate it)
  else
    p ← slice (blk_bytes (block it)) (next_entry_offset it) ro;
    let start_len := len p in
    match get_varint32 p with
    | (None, _) => Ret (false, set_corruption it "bad shared")
    | (Some shared, p) =>
    match get_varint32 p with
    | (None, _) => Ret (false, set_corruption it "bad unshared")
    | (Some unshared, p) =>
    match get_varint32 p with
    | (None, _) => Ret (false, set_corruption it "bad value_len")
    | (Some value_len, p) =>
    if len p <? unshared + value_len then Ret (false, set_corruption it "truncated entry")
    else
      cur_key ← Key_buf.deref (key it);
      if len cur_key <? shared then Ret (false, set_corruption it "shared > prev key len")
      else
        let header_consumed := start_len - len p in
        let key_pos := next_entry_offset it + header_consumed in
        let value_pos := key_pos + unshared in
        delta ← slice (blk_bytes (block it)) key_pos (key_pos + unshared);
        key' ← Key_buf.extend_from_slice (Key_buf.truncate (key it) shared) delta;
        Ret (true, mk (block it) (comparator it) (next_entry_offset it)
                      (value_pos + value_len) (restart_index it) key'
                      value_pos value_len true (status it))
    end end end.

Definition seek_to_restart_point (it : t) (idx : Z) : outcome t :=
  offset ← read_restart it idx;
  Ret (mk (block it) (comparator it) offset offset idx (Key_buf.clear (key it))
          (value_offset it) (value_len it) false (status it)).

(** The loops take fuel; [loop_fuel] covers every entry of the block, which is at
    least a byte long. *)
Definition loop_fuel (it : t) : nat := S (length (blk_bytes (block it))).

(** [while self.parse_next_entry() && self.next_entry_offset < restart_offset {}] *)
Fixpoint last_loop (fuel : nat) (it : t) : outcome t :=
  match fuel with
  | O => Panic
  | S fuel =>
      r ← parse_next_entry it;
      let '(ok, it) := (r : bool * t) in
      if ok && (next_entry_offset it <? restart_offset (block it))
      then last_loop fuel it else Ret it
  end.

(** The binary search over restart points: [inl] is the [left] found, [inr] the
    iterator left by a corruption. *)
Fixpoint search_loop (fuel : nat) (it : t) (target : bytes) (left right : Z)
  : outcome (Z + t) :=
  if left <? right then
    match fuel with
    | O => Panic
    | S fuel =>
        let mid := left + (right - left + 1) / 2 in
        restart ← read_restart it mid;
        p ← slice (blk_bytes (block it)) restart (restart_offset (block it));
        let '(_, p) := get_varint32 p in
        match get_varint32 p with
        | (None, _) => Ret (inr (set_corruption it "bad seek unshared"))
        | (Some unshared, p) =>
            let '(_, p) := get_varint32 p in
            if len p <? unshared then Ret (inr (set_corruption it "truncated seek"))
            else
              mid_key ← slice_to p unshared;
              o ← compare (comparator it) mid_key target;
              if is_lt o then search_loop fuel it target mid right
              else search_loop fuel it target left (mid - 1)
        end
    end
  else Ret (inl left).

(** [while self.parse_next_entry() { if key >= target { return; } }] *)
Fixpoint scan_loop (fuel : nat) (it : t) (target : bytes) : outcome t :=
  match fuel with
  | O => Panic
  | S fuel =>
      r ← parse_next_entry it;
      let '(ok, it) := (r : bool * t) in
      if ok then
        k ← Key_buf.deref (key it);
        o ← compare (comparator it) k target;
        if is_ge o then Ret it else scan_loop fuel it target
      else Ret it
  end.

Definition seek_to_first (it : t) : outcome t :=
  if num_restarts (block it) =? 0 then Ret (set_invalid it)
  else
    it ← seek_to_restart_point it 0;
    snd <$> parse_next_entry it.

Definition seek_to_last (it : t) : outcome t :=
  if num_restarts (block it) =? 0 then Ret (set_invalid it)
  else
    it ← seek_to_restart_point it (num_restarts (block it) - 1);
    last_loop (loop_fuel it) it.

Definition seek (it : t) (target : bytes) : outcome t :=
  if num_restarts (block it) =? 0 then Ret (set_invalid it)
  else
    r ← search_loop (Z.to_nat (num_restarts (block it))) it target 0
          (num_restarts (block it) - 1);
    match (r : Z + t) with
    | inr it => Ret it
    | inl found =>
        it ← seek_to_restart_point it found;
        scan_loop (loop_fuel it) it target
    end.

(** [while restart_index + 1 < num_restarts && restart(restart_index + 1) <=
    current_offset { restart_index += 1 }] *)
Fixpoint bump_loop (fuel : nat) (it : t) : outcome t :=
  if restart_index it + 1 <? num_restarts (block it) then
    match fuel with
    | O => Panic
    | S fuel =>
        r ← read_restart it (restart_index it + 1);
        if r <=? current_offset it
        then bump_loop fuel (with_restart_index it (restart_index it + 1))
        else Ret it
    end
  else Ret it.

Definition next (it : t) : outcome t :=
  r ← parse_next_entry it;
  bump_loop (Z.to_nat (num_restarts (block it))) r.2.

(** The walk back over restart points: [inl] when the front of the block is
    passed. *)
Fixpoint back_loop (fuel : nat) (it : t) (original_offset : Z) : outcome (t + t) :=
  match fuel with
  | O => Panic
  | S fuel =>
      r ← read_restart it (restart_index it);
      if r >=? original_offset then
        if restart_index it =? 0 then Ret (inl (invalidate it))
        else back_loop fuel (with_restart_index it (restart_index it - 1)) original_offset
      else Ret (inr it)
  end.

Fixpoint prev_loop (fuel : nat) (it : t) (original_offset : Z) : outcome t :=
  match fuel with
  | O => Panic
  | S fuel =>
      r ← parse_next_entry it;
      let '(ok, it) := (r : bool * t) in
      if negb ok then Ret it
      else if next_entry_offset it >=? original_offset then Ret it
      else prev_loop fuel it original_offset
  end.

Definition prev (it : t) : outcome t :=
  let original_offset := current_offset it in
  r ← back_loop (S (Z.to_nat (restart_index it))) it original_offset;
  match (r : t + t) with
  | inl it => Ret it
  | inr it =>
      it ← seek_to_restart_point it (restart_index it);
      prev_loop (loop_fuel it) it original_offset
  end.

Definition get_key (it : t) : outcome bytes := Key_buf.deref (key it).
Definition get_value (it : t) : outcome bytes :=
  slice (blk_bytes (block it)) (value_offset it) (value_offset it + value_len it).
Definition get_status (it : t) : outcome unit :=
  match status it with None => Ret tt | Some s => Fail s end.
End BlockIter.
Arguments t : clear implicits.
End BlockIter.

#[export] Instance BlockIter_DbIterator {C} `{Comparator C} : DbIterator (BlockIter.t C) := {|
  valid it := Ret (BlockIter.is_valid it);
  seek_to_first := BlockIter.seek_to_first;
  seek_to_last := BlockIter.seek_to_last;
  seek := BlockIter.seek;
  next := BlockIter.next;
  prev := BlockIter.prev;
  iter_key := BlockIter.get_key;
  iter_value := BlockIter.get_value;
  iter_status := BlockIter.get_status;
|}.
