(* ===== verification/BlockCorrect.v ===== *)
(** * BlockCorrect.v: correctness of Block.v.

    The key buffer refines a byte vector; the builder lays out a list of entries with
    sound prefix sharing and restart points ([block_ok]); over such a block the
    iterator is a cursor on that list ([BlockIter_Laws]). *)
From S2P Require Import Prelude Status Coding Crc32c Comparator DbIterator Block.

(** ** [KeyBuf] is a byte vector *)

Definition kb_repr (k : KeyBuf) (v : bytes) : Prop :=
  match k with
  | Inline data l => len data = KEY_INLINE_CAP /\ 0 <= l <= KEY_INLINE_CAP /\ ztake l data = v
  | Heap w => w = v
  end.

Lemma kb_new : kb_repr Key_buf.new [].
Proof. by cbn. Qed.

Lemma kb_deref k v : kb_repr k v -> Key_buf.deref k = Ret v.
Proof.
  destruct k as [data l|w]; cbn; [|by intros ->]. intros (Hd & Hl & <-).
  unfold slice_to. rewrite slice_ok by lia. by rewrite zdrop_0, Z.sub_0_r.
Qed.

Lemma kb_clear k v : kb_repr k v -> kb_repr (Key_buf.clear k) [].
Proof. destruct k as [data l|w]; cbn; [|done]. intros (Hd & Hl & _). split_and!; [done|lia..|done]. Qed.

Lemma ztake_ztake {A} (l : list A) a b : 0 <= a <= b -> ztake a (ztake b l) = ztake a l.
Proof. intros. unfold ztake. rewrite take_take. f_equal. lia. Qed.

Lemma kb_truncate k v n : kb_repr k v -> 0 <= n <= len v -> kb_repr (Key_buf.truncate k n) (ztake n v).
Proof.
  destruct k as [data l|w]; cbn; [|by intros -> _]. intros (Hd & Hl & <-) Hn.
  rewrite len_ztake in Hn by lia. rewrite ztake_ztake by lia. zcase; cbn.
  - by split_and!; [|lia..|].
  - split_and!; [done|lia..|]. f_equal. lia.
Qed.

Lemma kb_extend k v bs : kb_repr k v ->
  exists k', Key_buf.extend_from_slice k bs = Ret k' /\ kb_repr k' (v ++ bs).
Proof.
  destruct k as [data l|w]; cbn; [|by intros ->; eexists]. intros (Hd & Hl & <-).
  pose proof (len_nonneg bs). zcase.
  - assert (len (zdrop l data) = 48 - l) by (rewrite len_zdrop; unfold KEY_INLINE_CAP in *; lia).
    assert (Hk : len (ztake (len bs) (zdrop l data)) = len bs)
      by (apply len_ztake; unfold KEY_INLINE_CAP in *; lia).
    pose proof (copy_from_slice_app (ztake l data) (ztake (len bs) (zdrop l data))
      (zdrop (len bs) (zdrop l data)) bs l (l + len bs)) as Hc.
    rewrite !ztake_zdrop, Hk, len_ztake in Hc by lia. rewrite Hc by done.
    cbn. eexists. split; [done|]. cbn.
    rewrite !len_app, len_ztake, len_zdrop by (unfold KEY_INLINE_CAP in *; lia).
    unfold KEY_INLINE_CAP in *. split_and!; [lia..|]. rewrite app_assoc. apply ztake_app_len.
    rewrite len_app, len_ztake; lia.
  - unfold slice_to. rewrite slice_ok by lia. cbn. rewrite zdrop_0, Z.sub_0_r. by eexists.
Qed.

(** ** The layout of a block *)

(** An entry as stored: how much of the previous key it shares. *)
Record chunk := mk_chunk { c_shared : Z; c_key : bytes; c_value : bytes }.

Definition chunk_head (c : chunk) : bytes :=
  put_varint32 [] (c_shared c) ++ put_varint32 [] (len (c_key c) - c_shared c)
    ++ put_varint32 [] (len (c_value c)).
Definition chunk_bytes (c : chunk) : bytes :=
  chunk_head c ++ zdrop (c_shared c) (c_key c) ++ c_value c.

Definition size_ok (key value : bytes) : Prop := is_u32 (len key) /\ is_u32 (len value).

(** [c] can follow an entry with key [prev]. *)
Definition chunk_ok (prev : bytes) (c : chunk) : Prop :=
  0 <= c_shared c <= len prev /\ c_shared c <= len (c_key c) /\
  ztake (c_shared c) prev = ztake (c_shared c) (c_key c) /\ size_ok (c_key c) (c_value c).

Definition prev_key (cs : list chunk) (i : nat) : bytes :=
  match i with
  | O => []
  | S i => match cs !! i with Some c => c_key c | None => [] end
  end.

Definition chain (cs : list chunk) : Prop :=
  forall i c, cs !! i = Some c -> chunk_ok (prev_key cs i) c.

Definition body (cs : list chunk) : bytes := concat (map chunk_bytes cs).
Definition off (cs : list chunk) (i : nat) : Z := len (body (take i cs)).
Definition entries_of (cs : list chunk) : list entry := map (fun c => (c_key c, c_value c)) cs.

(** Restart points [rs], as indices of entries: the first is the first entry, they
    increase, and each shares nothing. *)
Record restarts_ok (cs : list chunk) (rs : list nat) : Prop := {
  rs_first : rs !! 0%nat = Some 0%nat;
  rs_mono i j a b : (i < j)%nat -> rs !! i = Some a -> rs !! j = Some b -> (a < b)%nat;
  rs_bound i a : rs !! i = Some a -> (a <= length cs)%nat /\ (a = 0 \/ a < length cs)%nat;
  rs_shared i a c : rs !! i = Some a -> cs !! a = Some c -> c_shared c = 0;
}.

Record block_ok (blk : Block) (cs : list chunk) (rs : list nat) : Prop := {
  bo_chain : chain cs;
  bo_restarts : restarts_ok cs rs;
  bo_bytes : blk_bytes blk
    = body cs ++ fixed32s (map (off cs) rs) ++ to_le_bytes 4 (len rs);
  bo_offset : restart_offset blk = len (body cs);
  bo_num : num_restarts blk = len rs;
  bo_size : len (body cs) < 2 ^ 32 /\ len rs < 2 ^ 32;
}.

(** *** Offsets *)

Lemma body_app a b : body (a ++ b) = body a ++ body b.
Proof. unfold body. by rewrite map_app, concat_app. Qed.

Lemma off_all cs : off cs (length cs) = len (body cs).
Proof. unfold off. by rewrite firstn_all. Qed.

Lemma body_split cs i c : cs !! i = Some c ->
  body cs = body (take i cs) ++ chunk_bytes c ++ body (drop (S i) cs).
Proof.
  intros Hi. rewrite <- (take_drop_middle cs i c Hi) at 1. rewrite body_app. by unfold body.
Qed.

Lemma off_S cs i c : cs !! i = Some c -> off cs (S i) = off cs i + len (chunk_bytes c).
Proof.
  intros Hi. unfold off. rewrite (take_S_r _ _ _ Hi), body_app, len_app.
  unfold body at 2. cbn. by rewrite app_nil_r.
Qed.

Lemma chunk_bytes_len prev c : chunk_ok prev c -> 3 <= len (chunk_bytes c).
Proof.
  intros (Hs & Hk & _ & Hok & Hv). unfold chunk_bytes, chunk_head, is_u32 in *.
  pose proof (put_varint32_len (c_shared c)) as H1.
  pose proof (put_varint32_len (len (c_key c) - c_shared c)) as H2.
  pose proof (put_varint32_len (len (c_value c))) as H3. unfold is_u32 in *.
  rewrite !len_app. len_pose. lia.
Qed.

Lemma off_lt cs i j : chain cs -> (i < j)%nat -> (j <= length cs)%nat -> off cs i < off cs j.
Proof.
  intros Hc. induction j as [|j IH]; intros Hij Hj; [lia|].
  destruct (lookup_lt_is_Some_2 cs j) as [c Hcj]; [lia|].
  rewrite (off_S _ _ _ Hcj). pose proof (chunk_bytes_len _ _ (Hc _ _ Hcj)).
  destruct (decide (i = j)) as [->|]; [lia|]. specialize (IH ltac:(lia) ltac:(lia)). lia.
Qed.

Lemma off_lt_inv cs i j : chain cs -> (i <= length cs)%nat -> (j <= length cs)%nat ->
  off cs i < off cs j <-> (i < j)%nat.
Proof.
  intros Hc Hi Hj. split; [|by intros; apply off_lt].
  intros H. destruct (lt_eq_lt_dec i j) as [[?|?]|?]; [done|subst; lia|].
  pose proof (off_lt cs j i Hc ltac:(done) Hi). lia.
Qed.

Lemma off_le_inv cs i j : chain cs -> (i <= length cs)%nat -> (j <= length cs)%nat ->
  off cs i <= off cs j <-> (i <= j)%nat.
Proof.
  intros Hc Hi Hj. pose proof (off_lt_inv cs j i Hc Hj Hi). lia.
Qed.

Lemma off_bound cs i : off cs i <= len (body cs).
Proof.
  rewrite <- (take_drop i cs) at 2. rewrite body_app, len_app. unfold off. len_pose. lia.
Qed.

Lemma off_nonneg cs i : 0 <= off cs i.
Proof. apply len_nonneg. Qed.

Lemma length_le_body cs : chain cs -> 3 * Z.of_nat (length cs) <= len (body cs).
Proof.
  intros Hc. rewrite <- off_all.
  assert (forall n, (n <= length cs)%nat -> 3 * Z.of_nat n <= off cs n) as H; [|by apply H].
  induction n as [|n IH]; intros Hn; [apply off_nonneg|].
  destruct (lookup_lt_is_Some_2 cs n) as [c Hcn]; [lia|].
  rewrite (off_S _ _ _ Hcn). pose proof (chunk_bytes_len _ _ (Hc _ _ Hcn)).
  specialize (IH ltac:(lia)). lia.
Qed.

(** ** The trailer *)

(** Any bytes before a restart array and its count are a block. *)
Lemma any_block data rs : len rs < 2 ^ 32 ->
  Block_new (data ++ fixed32s rs ++ to_le_bytes 4 (len rs)) = Ret (mk_block (data ++ fixed32s rs ++ to_le_bytes 4 (len rs)) (len data) (len rs)).
Proof.
  intros Hrs. pose proof (len_nonneg rs). pose proof (len_nonneg data). set (bs := data ++ _ ++ _).
  assert (Hlen : len bs = len data + 4 * len rs + 4) by (unfold bs; rewrite !len_app, len_fixed32s, len_le_split; lia).
  unfold Block_new. rewrite (proj2 (Z.ltb_ge _ _)) by lia.
  assert (slice_from bs (len bs - 4) = Ret (to_le_bytes 4 (len rs))) as ->.
  { unfold bs at 1. rewrite app_assoc. apply slice_from_app. rewrite len_app, len_fixed32s. lia. }
  cbn [mbind outcome_bind]. rewrite decode_fixed32_le by (unfold is_u32; lia). cbn [mbind outcome_bind].
  rewrite (proj2 (Z.ltb_ge _ _)) by (apply Z.div_le_lower_bound; lia). do 2 f_equal. lia.
Qed.
Lemma any_restart {C} `{Comparator C} (it : BlockIter.t C) data rs tail (i : nat) r :
  blk_bytes (BlockIter.block it) = data ++ fixed32s rs ++ tail -> restart_offset (BlockIter.block it) = len data ->
  rs !! i = Some r -> is_u32 r -> BlockIter.read_restart it (Z.of_nat i) = Ret r.
Proof.
  intros Hb Ho Hi Hu. unfold BlockIter.read_restart. rewrite Hb, Ho, (fixed32s_split _ _ _ Hi), <- !app_assoc, app_assoc.
  assert (len (fixed32s (take i rs)) = Z.of_nat i * 4) as Hl.
  { rewrite len_fixed32s. unfold len. rewrite length_take. apply lookup_lt_Some in Hi. lia. }
  rewrite slice_app; [|rewrite len_app; lia|rewrite len_app, len_le_split; lia].
  cbn [mbind outcome_bind]. by apply decode_fixed32_le.
Qed.

(** ** The iterator over a laid-out block *)

Section iter.
Context {C : Type} `{HC : Comparator C} (cmp : C) (key_ok : bytes -> Prop)
        (ord : bytes -> bytes -> comparison) `{!ComparatorLaws cmp key_ok ord}.
Context (blk : Block) (cs : list chunk) (rs : list nat) (Hblk : block_ok blk cs rs).
Implicit Types it : BlockIter.t C.

Let n := length cs.
Let Hchain : chain cs := bo_chain _ _ _ Hblk.
Let Hrs : restarts_ok cs rs := bo_restarts _ _ _ Hblk.

(** The parts of the state no operation changes. *)
Record base it : Prop := {
  base_block : BlockIter.block it = blk;
  base_cmp : BlockIter.comparator it = cmp;
  base_status : BlockIter.status it = None;
  base_key : exists k, kb_repr (BlockIter.key it) k;
}.

(** [restart_index] names a restart point not after entry [i]. *)
Definition restart_before it (i : nat) : Prop :=
  exists j r, BlockIter.restart_index it = Z.of_nat j /\ rs !! j = Some r /\ (r <= i)%nat.

(** The next entry to parse is [i], and the running key is fit to extend. *)
Record ready it (i : nat) : Prop := {
  ready_base : base it;
  ready_bound : (i <= n)%nat;
  ready_next : BlockIter.next_entry_offset it = off cs i;
  ready_key : exists k, kb_repr (BlockIter.key it) k /\
    forall c, cs !! i = Some c ->
      c_shared c <= len k /\ ztake (c_shared c) k = ztake (c_shared c) (c_key c);
  ready_restart : restart_before it i;
}.

Record at_entry it (i : nat) (c : chunk) : Prop := {
  at_base : base it;
  at_chunk : cs !! i = Some c;
  at_valid : BlockIter.is_valid it = true;
  at_current : BlockIter.current_offset it = off cs i;
  at_next : BlockIter.next_entry_offset it = off cs (S i);
  at_key : kb_repr (BlockIter.key it) (c_key c);
  at_value_len : BlockIter.value_len it = len (c_value c);
  at_value : BlockIter.value_offset it = off cs (S i) - len (c_value c);
  at_restart : restart_before it i;
}.

Definition block_at it (p : option nat) : Prop :=
  match p with
  | Some i => exists c, at_entry it i c
  | None => base it /\ BlockIter.is_valid it = false
  end.

Lemma at_ready it i c : at_entry it i c -> ready it (S i).
Proof.
  intros Hat. destruct Hat as [Hb Hc Hv Hcur Hnext Hkey Hvl Hvo (j & r & Hj & Hr & Hle)].
  split; try done.
  - apply lookup_lt_Some in Hc. unfold n. lia.
  - exists (c_key c). split; [done|]. intros c' Hc'. destruct (Hchain _ _ Hc') as (H1 & H2 & H3 & _).
    cbn in H1, H3. rewrite Hc in H1, H3. split; [lia|done].
  - exists j, r. split_and!; [done..|lia].
Qed.

Lemma slice_body i c : cs !! i = Some c ->
  slice (blk_bytes blk) (off cs i) (restart_offset blk) = Ret (chunk_bytes c ++ body (drop (S i) cs)).
Proof.
  intros Hi. rewrite (bo_bytes _ _ _ Hblk), (bo_offset _ _ _ Hblk), (body_split _ _ _ Hi).
  rewrite <- (app_assoc (body (take i cs))). apply slice_app; [done|].
  rewrite (len_app (body (take i cs))). lia.
Qed.

(** The part of the block after the header of entry [i]. *)
Lemma slice_chunk i c a b (u v : bytes) : cs !! i = Some c -> chunk_bytes c = u ++ v ->
  a = off cs i + len u -> b = a + len (ztake (b - a) v) -> 0 <= b - a ->
  slice (blk_bytes blk) a b = Ret (ztake (b - a) v).
Proof.
  intros Hi Hc -> Hb Hpos. rewrite (bo_bytes _ _ _ Hblk), (body_split _ _ _ Hi), Hc.
  remember (b - (off cs i + len u)) as w eqn:Hw.
  rewrite <- (ztake_zdrop w v) at 1.
  rewrite <- !app_assoc. rewrite app_assoc. apply slice_app.
  - rewrite len_app. done.
  - rewrite len_app. unfold off in Hb. lia.
Qed.

Lemma get_varint32_at v rest : is_u32 v -> get_varint32 (put_varint32 [] v ++ rest) = (Some v, rest).
Proof. apply get_varint32_put. Qed.

Lemma parse_ready it i : ready it i ->
  exists b it', BlockIter.parse_next_entry it = Ret (b, it') /\
    BlockIter.restart_index it' = BlockIter.restart_index it /\
    match cs !! i with
    | Some c => b = true /\ at_entry it' i c
    | None => b = false /\ block_at it' None /\
              BlockIter.current_offset it' = off cs i /\ BlockIter.next_entry_offset it' = off cs i
    end.
Proof.
  intros [Hb Hi Hnext (k & Hk & Hshare) Hri]. destruct Hb as [Hblock Hcmp Hst Hkb].
  unfold BlockIter.parse_next_entry. rewrite Hblock, Hnext.
  pose proof (bo_offset _ _ _ Hblk) as Hro.
  destruct (cs !! i) as [c|] eqn:Hc.
  2: { apply lookup_ge_None in Hc. assert (i = length cs) as -> by (unfold n in Hi; lia).
       rewrite Hro, off_all, Z.geb_leb, Z.leb_refl. do 2 eexists. split; [done|]. split; [done|].
       cbn. rewrite Hblock, Hro. by split_and!. }
  destruct (Hchain _ _ Hc) as (H1 & H2 & H3 & H4 & H5). destruct (Hshare _ eq_refl) as (H6 & H7).
  pose proof (lookup_lt_Some _ _ _ Hc) as Hlt.
  rewrite Z.geb_leb, (proj2 (Z.leb_gt _ _)) by (rewrite Hro, <- off_all; by apply off_lt).
  rewrite (slice_body _ _ Hc). cbn [mbind outcome_bind].
  set (dk := zdrop (c_shared c) (c_key c)).
  assert (Hdk : len dk = len (c_key c) - c_shared c) by (apply len_zdrop; lia).
  assert (Hpos : 0 <= len (c_value c)) by apply len_nonneg.
  set (rest := body (drop (S i) cs)).
  unfold is_u32 in H4, H5. unfold chunk_bytes, chunk_head. fold dk. rewrite <- !app_assoc.
  rewrite get_varint32_at by (unfold is_u32; lia). cbn match.
  rewrite get_varint32_at by (unfold is_u32; lia). cbn match.
  rewrite get_varint32_at by (unfold is_u32; lia). cbn match.
  rewrite (proj2 (Z.ltb_ge _ _)) by (rewrite !len_app; len_pose; lia).
  rewrite (kb_deref _ _ Hk). cbn [mbind outcome_bind].
  rewrite (proj2 (Z.ltb_ge _ _)) by lia.
  rewrite !len_app.
  match goal with |- context [slice _ ?a ?b] =>
    rewrite (slice_chunk i c a b (chunk_head c) (dk ++ c_value c)) end; [|done|done|..].
  2: { unfold chunk_head. rewrite !len_app. lia. }
  2, 3: rewrite ?ztake_app_len; lia.
  cbn [mbind outcome_bind]. rewrite ztake_app_len by lia.
  destruct (kb_extend _ _ dk (kb_truncate _ _ (c_shared c) Hk ltac:(lia))) as (k' & Hk' & Hrep).
  rewrite Hk'. cbn [mbind outcome_bind]. do 2 eexists. split; [done|]. split; [done|].
  split; [done|].
  rewrite H7 in Hrep. unfold dk in Hrep. rewrite ztake_zdrop in Hrep.
  pose proof (off_S _ _ _ Hc) as HS. unfold chunk_bytes, chunk_head in HS. fold dk in HS.
  rewrite !len_app in HS.
  split; cbn; try done; try (split; cbn; try done; by eexists); lia.
Qed.

Lemma read_restart_ok it j r : BlockIter.block it = blk -> rs !! j = Some r ->
  BlockIter.read_restart it (Z.of_nat j) = Ret (off cs r).
Proof.
  intros Hb Hj. apply (any_restart it (body cs) (map (off cs) rs) (to_le_bytes 4 (len rs))).
  - by rewrite Hb, (bo_bytes _ _ _ Hblk).
  - by rewrite Hb, (bo_offset _ _ _ Hblk).
  - by rewrite list_lookup_fmap, Hj.
  - pose proof (off_bound cs r). pose proof (off_nonneg cs r). destruct (bo_size _ _ _ Hblk). unfold is_u32. lia.
Qed.

Lemma num_restarts_pos : 1 <= num_restarts blk.
Proof.
  rewrite (bo_num _ _ _ Hblk). pose proof (rs_first _ _ Hrs) as H0.
  apply lookup_lt_Some in H0. unfold len. lia.
Qed.

Lemma num_restarts_nz it : BlockIter.block it = blk ->
  (num_restarts (BlockIter.block it) =? 0) = false.
Proof. intros ->. pose proof num_restarts_pos. apply Z.eqb_neq. lia. Qed.

Lemma seek_restart_ok it j r : base it -> rs !! j = Some r ->
  exists it', BlockIter.seek_to_restart_point it (Z.of_nat j) = Ret it' /\ ready it' r /\
    BlockIter.restart_index it' = Z.of_nat j.
Proof.
  intros [Hb Hc Hs (k & Hk)] Hj. unfold BlockIter.seek_to_restart_point.
  rewrite (read_restart_ok _ _ _ Hb Hj). cbn [mbind outcome_bind]. eexists. split; [done|].
  pose proof (kb_clear _ _ Hk) as Hk'. split; [|done].
  split; cbn.
  - split; cbn; try done. by eexists.
  - by apply (rs_bound _ _ Hrs) in Hj as [? _].
  - done.
  - exists []. split; [done|]. intros c Hc'. rewrite (rs_shared _ _ Hrs _ _ _ Hj Hc').
    by split.
  - exists j, r. by split_and!.
Qed.

Lemma fuel_enough : (n < S (length (blk_bytes blk)))%nat.
Proof.
  pose proof (length_le_body cs Hchain). rewrite (bo_bytes _ _ _ Hblk), length_app.
  unfold n, len in *. lia.
Qed.

Lemma base_at it i c : at_entry it i c -> base it.
Proof. by intros []. Qed.

Lemma next_lt it i c : at_entry it i c ->
  (BlockIter.next_entry_offset it <? restart_offset (BlockIter.block it)) = (bool_decide (S i < n)%nat).
Proof.
  intros Hat. rewrite (at_next _ _ _ Hat), (base_block _ (at_base _ _ _ Hat)), (bo_offset _ _ _ Hblk).
  rewrite <- off_all. pose proof (lookup_lt_Some _ _ _ (at_chunk _ _ _ Hat)).
  pose proof (off_lt_inv cs (S i) (length cs) Hchain ltac:(lia) ltac:(lia)) as Hiff.
  unfold n. case_bool_decide; [by apply Z.ltb_lt, Hiff|]. apply Z.ltb_ge. lia.
Qed.

Lemma last_loop_ok fuel it i : ready it i -> (n - i < fuel)%nat -> (i < n)%nat ->
  exists it', BlockIter.last_loop fuel it = Ret it' /\ block_at it' (Some (n - 1)%nat).
Proof.
  revert it i. induction fuel as [|fuel IH]; intros it i Hr Hf Hi; [lia|].
  cbn [BlockIter.last_loop].
  destruct (parse_ready _ _ Hr) as (b & it' & -> & _ & Hm). cbn [mbind outcome_bind].
  destruct (lookup_lt_is_Some_2 cs i) as [c Hc]; [done|]. rewrite Hc in Hm.
  destruct Hm as (-> & Hat). rewrite (next_lt _ _ _ Hat). cbn [andb].
  case_bool_decide as Hn.
  - apply (IH it' (S i)); [by eapply at_ready|lia|lia].
  - exists it'. split; [done|]. replace (n - 1)%nat with i by lia. by exists c.
Qed.

Lemma last_loop_empty fuel it : ready it n -> (0 < fuel)%nat ->
  exists it', BlockIter.last_loop fuel it = Ret it' /\ block_at it' None.
Proof.
  intros Hr Hf. destruct fuel as [|fuel]; [lia|]. cbn [BlockIter.last_loop].
  destruct (parse_ready _ _ Hr) as (b & it' & -> & _ & Hm). cbn [mbind outcome_bind].
  rewrite (proj2 (lookup_ge_None cs n)) in Hm by done. destruct Hm as (-> & Hat & _). by exists it'.
Qed.

Lemma last_restart : exists r, rs !! (length rs - 1)%nat = Some r.
Proof.
  pose proof (rs_first _ _ Hrs) as H0. apply lookup_lt_Some in H0.
  apply lookup_lt_is_Some_2. lia.
Qed.

Lemma entries_len : length (entries_of cs) = n.
Proof. apply length_map. Qed.
Lemma entries_lookup i c : cs !! i = Some c -> entries_of cs !! i = Some (c_key c, c_value c).
Proof. intros Hc. unfold entries_of. by rewrite list_lookup_fmap, Hc. Qed.

Lemma pos_first_n : pos_first (entries_of cs) = if decide (n = 0)%nat then None else Some 0%nat.
Proof. unfold n, entries_of. by destruct cs. Qed.
Lemma pos_last_n : pos_last (entries_of cs) = if decide (n = 0)%nat then None else Some (n - 1)%nat.
Proof.
  rewrite <- entries_len. unfold entries_of. destruct cs as [|c l]; [done|].
  cbn [map pos_last length]. by rewrite decide_False by lia.
Qed.

Lemma block_at_base it p : block_at it p -> base it.
Proof. destruct p; [intros (c & [])|intros []]; done. Qed.

Lemma seek_to_first_ok it p : block_at it p ->
  exists it', BlockIter.seek_to_first it = Ret it' /\ block_at it' (pos_first (entries_of cs)).
Proof.
  intros Hb%block_at_base. unfold BlockIter.seek_to_first.
  rewrite (num_restarts_nz _ (base_block _ Hb)).
  destruct (seek_restart_ok _ _ _ Hb (rs_first _ _ Hrs)) as (it1 & H1 & Hr & _). change (Z.of_nat 0) with 0 in H1.
  rewrite H1. cbn [mbind outcome_bind].
  destruct (parse_ready _ _ Hr) as (b & it' & -> & _ & Hm). cbn. exists it'. split; [done|].
  rewrite pos_first_n. case_decide as Hn.
  - rewrite (proj2 (lookup_ge_None cs 0)) in Hm by (unfold n in *; lia). by destruct Hm as (_ & ? & _).
  - destruct (lookup_lt_is_Some_2 cs 0%nat) as [c Hc]; [unfold n in *; lia|]. rewrite Hc in Hm.
    destruct Hm as (_ & ?). by exists c.
Qed.

Lemma seek_to_last_ok it p : block_at it p ->
  exists it', BlockIter.seek_to_last it = Ret it' /\ block_at it' (pos_last (entries_of cs)).
Proof.
  intros Hb%block_at_base. unfold BlockIter.seek_to_last.
  rewrite (num_restarts_nz _ (base_block _ Hb)), (base_block _ Hb), (bo_num _ _ _ Hblk).
  destruct last_restart as [r Hlast].
  destruct (seek_restart_ok _ _ _ Hb Hlast) as (it1 & H1 & Hr & _).
  replace (len rs - 1) with (Z.of_nat (length rs - 1)).
  2: { apply lookup_lt_Some in Hlast. unfold len. lia. }
  rewrite H1. cbn [mbind outcome_bind].
  pose proof (rs_bound _ _ Hrs _ _ Hlast) as [_ Hr0]. pose proof fuel_enough as Hf.
  unfold BlockIter.loop_fuel. rewrite (base_block _ (ready_base _ _ Hr)), pos_last_n.
  case_decide as Hn.
  - assert (r = n) as -> by (unfold n in *; lia). apply last_loop_empty; [done|lia].
  - apply (last_loop_ok _ _ r); [done|unfold n in *; lia..].
Qed.

(** *** [seek] *)

Context (Hkeys : forall i c, cs !! i = Some c -> key_ok (c_key c))
        (Hsorted : sorted_entries ord (entries_of cs)).

Definition below (t : bytes) (r : nat) : Prop :=
  forall c, cs !! r = Some c -> ord (c_key c) t = Lt.

Lemma search_step it j r c t : base it -> rs !! j = Some r -> cs !! r = Some c -> key_ok t ->
  forall (A : Type) (k : bytes -> outcome A) (e1 e2 : outcome A),
  (restart ← BlockIter.read_restart it (Z.of_nat j);
   p ← slice (blk_bytes (BlockIter.block it)) restart (restart_offset (BlockIter.block it));
   let '(_, p) := get_varint32 p in
   match get_varint32 p with
   | (None, _) => e1
   | (Some unshared, p) =>
       let '(_, p) := get_varint32 p in
       if len p <? unshared then e2 else mid_key ← slice_to p unshared; k mid_key
   end) = k (c_key c).
Proof.
  intros Hb Hj Hc Ht A k e1 e2.
  rewrite (read_restart_ok _ _ _ (base_block _ Hb) Hj). cbn [mbind outcome_bind].
  rewrite (base_block _ Hb), (slice_body _ _ Hc). cbn [mbind outcome_bind].
  unfold chunk_bytes, chunk_head. rewrite (rs_shared _ _ Hrs _ _ _ Hj Hc), Z.sub_0_r, zdrop_0.
  destruct (Hchain _ _ Hc) as (_ & _ & _ & Hk & Hv). rewrite <- !app_assoc.
  rewrite get_varint32_at by done. rewrite get_varint32_at by done. rewrite get_varint32_at by done.
  rewrite (proj2 (Z.ltb_ge _ _)) by len_lia. by rewrite slice_to_app.
Qed.

Lemma search_loop_ok fuel it t (l r : nat) a : base it -> key_ok t ->
  (l <= r < length rs)%nat -> (r - l <= fuel)%nat -> rs !! l = Some a -> (l = 0%nat \/ below t a) ->
  exists l' a', BlockIter.search_loop fuel it t (Z.of_nat l) (Z.of_nat r) = Ret (inl (Z.of_nat l')) /\
    rs !! l' = Some a' /\ (l' = 0%nat \/ below t a').
Proof.
  intros Hb Ht. revert l r a. induction fuel as [|fuel IH]; intros l r a Hlr Hf Ha Hlow;
    cbn [BlockIter.search_loop].
  { rewrite (proj2 (Z.ltb_ge _ _)) by lia. by exists l, a. }
  zcase; [|by exists l, a].
  set (m := (l + (r - l + 1) / 2)%nat).
  assert (Z.of_nat l + (Z.of_nat r - Z.of_nat l + 1) / 2 = Z.of_nat m) as ->.
  { unfold m. rewrite Nat2Z.inj_add, Nat2Z.inj_div. do 2 f_equal. lia. }
  assert (l < m <= r)%nat as Hm.
  { unfold m. pose proof (Nat.div_mod (r - l + 1) 2 ltac:(lia)).
    pose proof (Nat.mod_upper_bound (r - l + 1) 2 ltac:(lia)). lia. }
  destruct (lookup_lt_is_Some_2 rs m) as [rm Hrm]; [lia|].
  pose proof (rs_mono _ _ Hrs l m a rm ltac:(lia) Ha Hrm).
  destruct (rs_bound _ _ Hrs _ _ Hrm) as [_ Hrb].
  destruct (lookup_lt_is_Some_2 cs rm) as [c Hc]; [lia|].
  rewrite (search_step _ _ _ c _ Hb Hrm Hc Ht).
  rewrite (base_cmp _ Hb), (compare_ord (c_key c) t) by eauto. cbn [mbind outcome_bind].
  destruct (ord (c_key c) t) eqn:E; cbn [is_lt].
  2: { apply (IH m r rm); [lia|lia|done|]. right. intros c' ?. by simplify_eq. }
  all: replace (Z.of_nat m - 1) with (Z.of_nat (m - 1)) by lia.
  all: apply (IH l (m - 1)%nat a); [lia|lia|done|done].
Qed.

Lemma scan_loop_ok fuel it t i : ready it i -> key_ok t -> (n - i < fuel)%nat ->
  (forall j e, (j < i)%nat -> entries_of cs !! j = Some e -> ord e.1 t = Lt) ->
  exists it', BlockIter.scan_loop fuel it t = Ret it' /\
    block_at it' (pos_seek ord (entries_of cs) t).
Proof.
  intros Hr Ht. revert it i Hr. induction fuel as [|fuel IH]; intros it i Hr Hf Hlow; [lia|].
  cbn [BlockIter.scan_loop].
  destruct (parse_ready _ _ Hr) as (b & it' & -> & _ & Hm). cbn [mbind outcome_bind].
  destruct (cs !! i) as [c|] eqn:Hc.
  - destruct Hm as (-> & Hat). rewrite (kb_deref _ _ (at_key _ _ _ Hat)). cbn [mbind outcome_bind].
    rewrite (base_cmp _ (at_base _ _ _ Hat)), (compare_ord (c_key c) t) by eauto.
    cbn [mbind outcome_bind].
    assert (Hfound : ord (c_key c) t <> Lt -> pos_seek ord (entries_of cs) t = Some i).
    { intros Hge. apply pos_seek_intro; [|intros e He|done].
      - rewrite entries_len. by eapply lookup_lt_Some.
      - rewrite (entries_lookup _ _ Hc) in He. by simplify_eq. }
    destruct (ord (c_key c) t) eqn:E; cbn [is_ge].
    1, 3: exists it'; split; [done|]; rewrite Hfound by done; by exists c.
    apply lookup_lt_Some in Hc as Hlt. apply (IH it' (S i)); [by eapply at_ready|unfold n in *; lia|].
    intros j e Hj He. destruct (decide (j = i)) as [->|]; [|apply (Hlow j); [lia|done]].
    rewrite (entries_lookup _ _ Hc) in He. by simplify_eq.
  - destruct Hm as (-> & Hat & _). exists it'. split; [done|].
    rewrite pos_seek_intro_none; [done|]. intros j e He. apply (Hlow j); [|done].
    apply lookup_lt_Some in He. rewrite entries_len in He. apply lookup_ge_None in Hc.
    unfold n in *. lia.
Qed.

Lemma seek_ok it p t : block_at it p -> key_ok t ->
  exists it', BlockIter.seek it t = Ret it' /\ block_at it' (pos_seek ord (entries_of cs) t).
Proof.
  intros Hb%block_at_base Ht. unfold BlockIter.seek.
  rewrite (num_restarts_nz _ (base_block _ Hb)), (base_block _ Hb), (bo_num _ _ _ Hblk).
  pose proof (rs_first _ _ Hrs) as H0. apply lookup_lt_Some in H0 as Hlt.
  replace (len rs - 1) with (Z.of_nat (length rs - 1)) by (unfold len; lia).
  destruct (search_loop_ok (Z.to_nat (len rs)) it t 0 (length rs - 1) 0 Hb Ht)
    as (l & a & H1 & Ha & Hlow); [lia|unfold len; lia|done|by left|].
  change (Z.of_nat 0) with 0 in H1. rewrite H1. cbn [mbind outcome_bind].
  destruct (seek_restart_ok _ _ _ Hb Ha) as (it1 & H2 & Hr & _). rewrite H2. cbn [mbind outcome_bind].
  pose proof fuel_enough. unfold BlockIter.loop_fuel. rewrite (base_block _ (ready_base _ _ Hr)).
  apply (scan_loop_ok _ _ _ a); [done|done|lia|].
  intros j e Hj He. destruct Hlow as [->|Hlow]; [rewrite H0 in *; by simplify_eq; lia|].
  pose proof (rs_bound _ _ Hrs _ _ Ha) as [_ [->|Hra]]; [lia|].
  destruct (lookup_lt_is_Some_2 cs a) as [c Hc]; [done|].
  apply (ord_lt_trans _ (c_key c)); [|by apply Hlow].
  apply (Hsorted j a e (c_key c, c_value c)); [done|done|]. by apply entries_lookup.
Qed.

(** *** [next] and [prev] *)

Lemma bump_loop_ok fuel it j r : base it -> BlockIter.restart_index it = Z.of_nat j ->
  rs !! j = Some r -> (length rs - j <= fuel)%nat ->
  exists it', BlockIter.bump_loop fuel it = Ret it' /\
    (block_at it None -> block_at it' None) /\
    (forall i c, at_entry it i c -> at_entry it' i c).
Proof.
  revert it j r. induction fuel as [|fuel IH]; intros it j r Hb Hj Hr Hf.
  { apply lookup_lt_Some in Hr. lia. }
  cbn [BlockIter.bump_loop]. rewrite (base_block _ Hb), (bo_num _ _ _ Hblk), Hj.
  zcase; [|by exists it].
  assert (S j < length rs)%nat as Hlt by (unfold len in *; lia).
  destruct (lookup_lt_is_Some_2 rs (S j)) as [r' Hr']; [done|].
  replace (Z.of_nat j + 1) with (Z.of_nat (S j)) by lia.
  rewrite (read_restart_ok _ _ _ (base_block _ Hb) Hr'). cbn [mbind outcome_bind].
  zcase; [|by exists it].
  assert (base (BlockIter.with_restart_index it (Z.of_nat (S j)))) as Hb'.
  { destruct Hb. by split. }
  destruct (IH _ (S j) r' Hb' eq_refl Hr' ltac:(lia)) as (it' & -> & Hnone & Hat).
  exists it'. split; [done|]. split.
  - intros [_ Hv]. apply Hnone. by split.
  - intros i c []. apply Hat. split; try done. cbn.
    exists (S j), r'. split_and!; [done..|].
    apply lookup_lt_Some in at_chunk0.
    destruct (rs_bound _ _ Hrs _ _ Hr'). apply (off_le_inv cs); [done|lia|lia|lia].
Qed.

Lemma pos_next_n i : pos_next (entries_of cs) i = if decide (S i < n)%nat then Some (S i) else None.
Proof. unfold pos_next. by rewrite entries_len. Qed.

Lemma next_ok it i : block_at it (Some i) ->
  exists it', BlockIter.next it = Ret it' /\ block_at it' (pos_next (entries_of cs) i).
Proof.
  intros (c & Hat). unfold BlockIter.next.
  pose proof (at_ready _ _ _ Hat) as Hr.
  destruct (parse_ready _ _ Hr) as (b & it1 & -> & Hri & Hm). cbn [mbind outcome_bind snd].
  destruct (at_restart _ _ _ Hat) as (j & r & Hj & Hjr & _).
  rewrite Hj in Hri. rewrite pos_next_n.
  assert (base it1) as Hb1.
  { destruct (cs !! S i); [destruct Hm as (_ & [])|destruct Hm as (_ & [] & _)]; done. }
  destruct (bump_loop_ok (Z.to_nat (num_restarts (BlockIter.block it))) it1 j r Hb1 Hri Hjr)
    as (it' & H1 & Hnone & Hsome).
  { rewrite (base_block _ (at_base _ _ _ Hat)), (bo_num _ _ _ Hblk). unfold len. lia. }
  exists it'. split; [done|]. destruct (cs !! S i) as [c'|] eqn:Hc'.
  - rewrite decide_True by (by eapply lookup_lt_Some). exists c'. apply Hsome, Hm.
  - rewrite decide_False by (apply lookup_ge_None in Hc'; unfold n; lia). apply Hnone.
    by destruct Hm as (_ & ? & _).
Qed.

Lemma back_loop_ok fuel it j r i : base it -> BlockIter.restart_index it = Z.of_nat j ->
  rs !! j = Some r -> (j < fuel)%nat -> (i < n)%nat ->
  exists o, BlockIter.back_loop fuel it (off cs i) = Ret o /\
    match o with
    | inl it' => i = 0%nat /\ block_at it' None
    | inr it' => exists j' r', base it' /\ BlockIter.restart_index it' = Z.of_nat j' /\
                   rs !! j' = Some r' /\ (r' < i)%nat
    end.
Proof.
  revert it j r. induction fuel as [|fuel IH]; intros it j r Hb Hj Hr Hf Hi; [lia|].
  cbn [BlockIter.back_loop]. rewrite Hj, (read_restart_ok _ _ _ (base_block _ Hb) Hr).
  cbn [mbind outcome_bind]. rewrite Z.geb_leb.
  destruct (rs_bound _ _ Hrs _ _ Hr) as [Hrn _].
  pose proof (off_le_inv cs i r Hchain ltac:(unfold n in *; lia) Hrn) as Hiff.
  zcase.
  - zcase.
    + assert (j = 0%nat) as -> by lia. rewrite (rs_first _ _ Hrs) in Hr. simplify_eq.
      eexists. split; [done|]. split; [lia|]. destruct Hb. by split.
    + destruct j as [|j]; [lia|].
      destruct (lookup_lt_is_Some_2 rs j) as [r' Hr']; [apply lookup_lt_Some in Hr; lia|].
      replace (Z.of_nat (S j) - 1) with (Z.of_nat j) by lia.
      apply (IH _ j r'); [|done|done|lia|done]. destruct Hb. by split.
  - eexists. split; [done|]. exists j, r. split_and!; [done..|lia].
Qed.

Lemma prev_loop_ok fuel it k i : ready it k -> (k < i)%nat -> (i < n)%nat -> (i - k <= fuel)%nat ->
  exists it', BlockIter.prev_loop fuel it (off cs i) = Ret it' /\ block_at it' (Some (i - 1)%nat).
Proof.
  revert it k. induction fuel as [|fuel IH]; intros it k Hr Hk Hi Hf; [lia|].
  cbn [BlockIter.prev_loop].
  destruct (parse_ready _ _ Hr) as (b & it1 & -> & _ & Hm). cbn [mbind outcome_bind].
  destruct (lookup_lt_is_Some_2 cs k) as [c Hc]; [unfold n in *; lia|]. rewrite Hc in Hm.
  destruct Hm as (-> & Hat). cbn [negb]. rewrite (at_next _ _ _ Hat), Z.geb_leb.
  pose proof (off_le_inv cs i (S k) Hchain ltac:(unfold n in *; lia) ltac:(unfold n in *; lia)).
  zcase.
  - exists it1. split; [done|]. replace (i - 1)%nat with k by lia. by exists c.
  - apply (IH _ (S k)); [by eapply at_ready|lia|lia|lia].
Qed.

Lemma prev_ok it i : block_at it (Some i) ->
  exists it', BlockIter.prev it = Ret it' /\ block_at it' (pos_prev i).
Proof.
  intros (c & Hat). unfold BlockIter.prev. rewrite (at_current _ _ _ Hat).
  destruct (at_restart _ _ _ Hat) as (j & r & Hj & Hjr & _). rewrite Hj.
  pose proof (lookup_lt_Some _ _ _ (at_chunk _ _ _ Hat)) as Hi. fold n in Hi.
  destruct (back_loop_ok (S (Z.to_nat (Z.of_nat j))) it j r i (at_base _ _ _ Hat) Hj Hjr
    ltac:(lia) Hi) as ([it1|it1] & -> & Hm); cbn [mbind outcome_bind].
  - destruct Hm as [-> Hm]. by exists it1.
  - destruct Hm as (j' & r' & Hb & Hj' & Hr' & Hlt). rewrite Hj'.
    destruct (seek_restart_ok _ _ _ Hb Hr') as (it2 & -> & Hr2 & _). cbn [mbind outcome_bind].
    pose proof fuel_enough. unfold BlockIter.loop_fuel. rewrite (base_block _ (ready_base _ _ Hr2)).
    destruct i as [|i]; [lia|]. replace (pos_prev (S i)) with (Some (S i - 1)%nat) by (cbn; f_equal; lia).
    apply (prev_loop_ok _ _ r'); [done|done|done|lia].
Qed.

Lemma entry_ok it i e : block_at it (Some i) -> entries_of cs !! i = Some e ->
  BlockIter.get_key it = Ret e.1 /\ BlockIter.get_value it = Ret e.2.
Proof.
  intros (c & Hat) He. rewrite (entries_lookup _ _ (at_chunk _ _ _ Hat)) in He. simplify_eq. cbn.
  split; [by apply kb_deref, (at_key _ _ _ Hat)|].
  unfold BlockIter.get_value. rewrite (base_block _ (at_base _ _ _ Hat)), (at_value _ _ _ Hat), (at_value_len _ _ _ Hat).
  pose proof (off_S _ _ _ (at_chunk _ _ _ Hat)) as HS. pose proof (len_nonneg (c_value c)).
  rewrite (slice_chunk i c _ _ (chunk_head c ++ zdrop (c_shared c) (c_key c)) (c_value c)
    (at_chunk _ _ _ Hat)).
  - f_equal. apply ztake_all. lia.
  - unfold chunk_bytes. by rewrite app_assoc.
  - unfold chunk_bytes in HS. rewrite HS, app_assoc, (len_app _ (c_value c)). lia.
  - rewrite ztake_all by lia. lia.
  - lia.
Qed.

#[local] Instance BlockIter_Laws : IterLaws ord (entries_of cs) key_ok block_at.
Proof.
  split.
  - intros it [i|]; [intros (c & Hat)|intros []]; cbn; f_equal; [apply Hat|done].
  - intros it i (c & Hat). rewrite entries_len. apply (lookup_lt_Some _ _ _ (at_chunk _ _ _ Hat)).
  - exact seek_to_first_ok.
  - exact seek_to_last_ok.
  - exact seek_ok.
  - exact next_ok.
  - exact prev_ok.
  - exact entry_ok.
  - intros it p Hb%block_at_base. cbn. unfold BlockIter.get_status. by rewrite (base_status _ Hb).
Qed.

Lemma from_source_at : block_at (BlockIter.from_source blk cmp) None.
Proof. split; [|done]. split; try done. exists []. apply kb_new. Qed.
End iter.
#[export] Existing Instance BlockIter_Laws.

(** ** The builder *)

Lemma chunk_bytes_streaming buffer shared key value :
  0 <= shared <= len key -> size_ok key value ->
  BlockEntry.encode_streaming buffer (as_u32 shared) (as_u32 (len key - shared))
    (as_u32 (len value)) (zdrop shared key) value
  = buffer ++ chunk_bytes (mk_chunk shared key value).
Proof.
  intros Hs [Hk Hv]. unfold is_u32 in *. unfold BlockEntry.encode_streaming, chunk_bytes, chunk_head. cbn.
  rewrite !as_u32_id by (unfold is_u32; lia).
  rewrite (put_varint32_app (put_varint32 _ _)), (put_varint32_app (put_varint32 _ _)).
  rewrite (put_varint32_app buffer). by rewrite <- !app_assoc.
Qed.

Section builder.
Context {C : Type} `{HC : Comparator C} (cmp : C) (key_ok : bytes -> Prop)
        (ord : bytes -> bytes -> comparison) `{!ComparatorLaws cmp key_ok ord}.
Implicit Types b : BlockBuilder.t C.

Record builder_ok b (cs : list chunk) (rs : list nat) : Prop := {
  bb_cmp : BlockBuilder.comparator b = cmp;
  bb_buffer : BlockBuilder.buffer b = body cs;
  bb_restarts : BlockBuilder.restarts b = map (off cs) rs;
  bb_open : BlockBuilder.finished b = false;
  bb_interval : 1 <= BlockBuilder.block_restart_interval b;
  bb_counter : 0 <= BlockBuilder.counter b <= BlockBuilder.block_restart_interval b;
  bb_started : cs = [] -> BlockBuilder.counter b = 0;
  bb_last : BlockBuilder.last_key b = prev_key cs (length cs);
  bb_chain : chain cs;
  bb_rs : restarts_ok cs rs;
  bb_keys : forall i c, cs !! i = Some c -> key_ok (c_key c);
}.

Lemma builder_new interval : 1 <= interval ->
  exists b, BlockBuilder.new cmp interval = Ret b /\ builder_ok b [] [0%nat].
Proof.
  intros Hi. unfold BlockBuilder.new. rewrite (proj2 (Z.leb_le _ _) Hi). cbn. eexists. split; [done|].
  split; cbn; try done; try lia. split.
  - done.
  - intros i j x y Hij Hx Hy. apply lookup_lt_Some in Hy. cbn in Hy. lia.
  - intros [|i] x Hx; cbn in Hx; simplify_eq. split; [lia|by left].
  - done.
Qed.

Lemma builder_reset b cs rs : builder_ok b cs rs -> builder_ok (BlockBuilder.reset b) [] [0%nat].
Proof.
  intros [H1 _ _ _ H5 _ _ _ _ _ _].
  destruct (builder_new _ H5) as (b' & E & Hok). unfold BlockBuilder.new in E.
  rewrite (proj2 (Z.leb_le _ _) H5) in E. cbn in E. simplify_eq. unfold BlockBuilder.reset. by rewrite H1.
Qed.

Lemma off_app cs cs' i : (i <= length cs)%nat -> off (cs ++ cs') i = off cs i.
Proof. intros. unfold off. by rewrite take_app_le by done. Qed.

Lemma prev_key_app cs cs' i : (i <= length cs)%nat -> prev_key (cs ++ cs') i = prev_key cs i.
Proof. destruct i as [|i]; [done|]. intros. cbn. by rewrite lookup_app_l by lia. Qed.

Lemma prev_key_snoc cs c : prev_key (cs ++ [c]) (length (cs ++ [c])) = c_key c.
Proof.
  rewrite length_app. cbn. replace (length cs + 1)%nat with (S (length cs)) by lia. cbn.
  by rewrite lookup_app_r, Nat.sub_diag by lia.
Qed.

Lemma chain_snoc cs c : chain cs -> chunk_ok (prev_key cs (length cs)) c -> chain (cs ++ [c]).
Proof.
  intros Hc Hk i c' Hi. destruct (decide (i < length cs)%nat) as [Hlt|Hge].
  - rewrite lookup_app_l in Hi by done. rewrite prev_key_app by lia. by apply Hc.
  - apply lookup_lt_Some in Hi as Hlt. rewrite length_app in Hlt. cbn in Hlt.
    assert (i = length cs) as -> by lia. rewrite lookup_app_r, Nat.sub_diag in Hi by lia.
    simplify_eq/=. by rewrite prev_key_app by lia.
Qed.

Lemma restarts_ok_snoc cs rs c : restarts_ok cs rs -> (cs = [] -> c_shared c = 0) ->
  restarts_ok (cs ++ [c]) rs.
Proof.
  intros [H1 H2 H3 H4] Hs. split; [done|done|..].
  - intros i a Hi. destruct (H3 _ _ Hi) as [? ?]. rewrite length_app. cbn. split; [lia|]. right. lia.
  - intros i a c' Hi Hc'. destruct (H3 _ _ Hi) as [Ha [->|Hlt]].
    + destruct cs as [|c0 cs]; cbn in Hc'; simplify_eq; [by apply Hs|]. by eapply H4.
    + rewrite lookup_app_l in Hc' by done. by eapply H4.
Qed.

Lemma restarts_ok_push cs rs c : restarts_ok cs rs -> cs <> [] -> c_shared c = 0 ->
  restarts_ok (cs ++ [c]) (rs ++ [length cs]).
Proof.
  intros Hrs Hne Hs. pose proof Hrs as [H1 H2 H3 H4]%(fun H => restarts_ok_snoc _ _ c H (fun _ => Hs)).
  assert (0 < length cs)%nat by (destruct cs; [done|cbn; lia]).
  assert (Hcases : forall i a, (rs ++ [length cs]) !! i = Some a ->
    rs !! i = Some a \/ (i = length rs /\ a = length cs)).
  { intros i a Hi. apply lookup_app_Some in Hi as [Hi|[Hge Hi]]; [by left|right].
    apply list_lookup_singleton_Some in Hi as [? ?]. split; [lia|done]. }
  split.
  - apply lookup_app_l_Some. done.
  - intros i j a b Hij Ha Hb.
    destruct (Hcases _ _ Ha) as [Ha'|[-> ->]], (Hcases _ _ Hb) as [Hb'|[-> ->]].
    + by eapply H2.
    + destruct (rs_bound _ _ Hrs _ _ Ha') as [_ [->|?]]; lia.
    + apply lookup_lt_Some in Hb'. lia.
    + lia.
  - intros i a Hi. rewrite length_app. cbn.
    destruct (Hcases _ _ Hi) as [Ha'|[-> ->]]; [|lia].
    destruct (rs_bound _ _ Hrs _ _ Ha') as [? [?|?]]; lia.
  - intros i a c' Hi Hc'. destruct (Hcases _ _ Hi) as [Ha'|[-> ->]].
    + by eapply H4.
    + rewrite lookup_app_r, Nat.sub_diag in Hc' by lia. by simplify_eq/=.
Qed.

Lemma map_off_app cs cs' rs : restarts_ok cs rs -> map (off (cs ++ cs')) rs = map (off cs) rs.
Proof.
  intros Hrs. apply map_ext_in. intros a Ha%list_elem_of_In. apply list_elem_of_lookup in Ha as [i Hi].
  apply off_app. by apply (rs_bound _ _ Hrs _ _ Hi).
Qed.

(** The last key given to the builder, if any. *)
Definition follows (cs : list chunk) (key : bytes) : Prop :=
  cs = [] \/ ord key (prev_key cs (length cs)) = Gt.

Lemma body_nil_inv cs : chain cs -> body cs = [] -> cs = [].
Proof.
  intros Hc Hb. pose proof (length_le_body cs Hc) as H. rewrite Hb in H. unfold len in H.
  destruct cs; [done|]. cbn [length] in H. lia.
Qed.

Lemma prev_key_ok cs : (forall i c, cs !! i = Some c -> key_ok (c_key c)) -> cs <> [] ->
  key_ok (prev_key cs (length cs)).
Proof.
  intros Hk Hne. destruct cs as [|c cs] using rev_ind; [done|]. rewrite prev_key_snoc.
  apply (Hk (length cs)). by rewrite lookup_app_r, Nat.sub_diag by lia.
Qed.

Lemma snoc_not_nil cs (c : chunk) : cs ++ [c] <> [].
Proof. by destruct cs. Qed.

Lemma keys_snoc cs c : (forall i c, cs !! i = Some c -> key_ok (c_key c)) -> key_ok (c_key c) ->
  forall i c', (cs ++ [c]) !! i = Some c' -> key_ok (c_key c').
Proof.
  intros Hk Hc i c' [Hi|[_ Hi]]%lookup_app_Some; [by eapply Hk|].
  apply list_lookup_singleton_Some in Hi as [_ <-]. done.
Qed.

Lemma match_len_prefix a k : 0 <= match_len a k <= len a /\ match_len a k <= len k /\
  ztake (match_len a k) a = ztake (match_len a k) k.
Proof.
  destruct (match_len_spec a k) as (q & a' & k' & -> & -> & -> & _).
  rewrite !len_app. len_pose. split; [lia|]. split; [lia|]. by rewrite !ztake_app_len.
Qed.

Lemma builder_add b cs rs key value : builder_ok b cs rs -> size_ok key value -> key_ok key ->
  follows cs key -> len (body cs) < 2 ^ 32 ->
  exists b' c rs', BlockBuilder.add b key value = Ret b' /\ builder_ok b' (cs ++ [c]) rs' /\
    c_key c = key /\ c_value c = value /\ (length rs' <= S (length rs))%nat /\
    BlockBuilder.block_restart_interval b' = BlockBuilder.block_restart_interval b.
Proof.
  intros [H1 H2 H3 H4 H5 H6 H7 H8 H9 H10 H11] Hsz Hko Hfol Hbuf. unfold BlockBuilder.add.
  rewrite H4, (proj2 (Z.leb_le _ _)) by lia. cbn [negb assert mbind outcome_bind].
  assert (Hord : (if BlockBuilder.empty b then Ret true
    else o ← compare (BlockBuilder.comparator b) key (BlockBuilder.last_key b); Ret (is_gt o)) = Ret true).
  { unfold BlockBuilder.empty. case_bool_decide as He; [done|]. rewrite H2 in He.
    destruct Hfol as [->|Hgt]; [done|].
    assert (cs <> []) by (intros ->; done).
    rewrite H1, H8, (compare_ord key) by (try done; by apply prev_key_ok). by rewrite Hgt. }
  rewrite Hord. cbn [assert mbind outcome_bind].
  rewrite H2, H3, H8. set (last := prev_key cs (length cs)).
  destruct (match_len_prefix last key) as (Hm1 & Hm2 & Hm3).
  assert (Hlast : cs = [] -> last = []) by (intros ->; done).
  destruct (Z.ltb_spec (BlockBuilder.counter b) (BlockBuilder.block_restart_interval b)) as [Hc|Hc].
  - set (s := match_len last key) in *.
    rewrite slice_from_drop by lia. cbn [mbind outcome_bind].
    rewrite chunk_bytes_streaming by (done || lia).
    exists (BlockBuilder.mk cmp (body cs ++ chunk_bytes (mk_chunk s key value))
      (map (off cs) rs) (BlockBuilder.counter b + 1) false (ztake s last ++ zdrop s key)
      (BlockBuilder.block_restart_interval b)), (mk_chunk s key value), rs.
    assert (Hs0 : cs = [] -> s = 0) by (intros E; assert (len last = 0) by (by rewrite (Hlast E)); lia).
    split; [by rewrite H1|]. split_and!; try done; [|lia]. split; cbn; try done; try lia.
    + rewrite body_app. unfold body at 3. cbn. by rewrite app_nil_r.
    + by rewrite map_off_app.
    + by intros []%snoc_not_nil.
    + rewrite prev_key_snoc. cbn. rewrite Hm3. apply ztake_zdrop.
    + by apply chain_snoc.
    + by apply restarts_ok_snoc.
    + apply keys_snoc; done.
  - assert (cs <> []) as Hne by (intros E; specialize (H7 E); lia).
    rewrite slice_from_drop by (len_pose; lia). cbn [mbind outcome_bind].
    rewrite (chunk_bytes_streaming _ 0) by (try done; len_pose; lia).
    rewrite as_u32_id by (unfold is_u32; len_pose; lia).
    exists (BlockBuilder.mk cmp (body cs ++ chunk_bytes (mk_chunk 0 key value))
      (map (off cs) rs ++ [len (body cs)]) (0 + 1) false (ztake 0 last ++ zdrop 0 key)
      (BlockBuilder.block_restart_interval b)), (mk_chunk 0 key value), (rs ++ [length cs]).
    split; [by rewrite H1|]. split_and!; try done; [|rewrite length_app; cbn; lia].
    split; cbn; try done; try lia.
    + rewrite body_app. unfold body at 3. cbn. by rewrite app_nil_r.
    + rewrite map_app, map_off_app by done. cbn. rewrite off_app by done. by rewrite off_all.
    + by intros []%snoc_not_nil.
    + rewrite prev_key_snoc. done.
    + apply chain_snoc; [done|]. split_and!; cbn; try done; len_pose; lia.
    + by apply restarts_ok_push.
    + apply keys_snoc; done.
Qed.

(** [finish] produces a block [Block::new] accepts. *)
Lemma builder_finish b cs rs : builder_ok b cs rs -> len (body cs) < 2 ^ 32 -> len rs < 2 ^ 32 ->
  exists blk, Block_new (BlockBuilder.finish b).2 = Ret blk /\ block_ok blk cs rs.
Proof.
  intros [H1 H2 H3 H4 H5 H6 H7 H8 H9 H10 H11] Hb Hr. unfold BlockBuilder.finish. cbn.
  rewrite H2, H3, fold_put_fixed32. unfold put_fixed32.
  assert (Hl : len (map (off cs) rs) = len rs) by (unfold len; by rewrite length_map).
  assert (Hu : is_u32 (len rs)) by (unfold is_u32; len_pose; lia).
  rewrite Hl, (as_u32_id (len rs)) by done.
  pose proof (any_block (body cs) (map (off cs) rs)) as Hblk. rewrite Hl in Hblk. rewrite <- app_assoc.
  eexists. split; [by apply Hblk|]. split; cbn; done.
Qed.
End builder.

(** *** Building from a list of entries *)

(** [add] for each entry in turn. *)
Fixpoint add_all {C} `{Comparator C} (b : BlockBuilder.t C) (es : list entry)
  : outcome (BlockBuilder.t C) :=
  match es with
  | [] => Ret b
  | (k, v) :: es => b ← BlockBuilder.add b k v; add_all b es
  end.

(** [BlockBuilder::new], the adds, [finish] and [Block::new]. *)
Definition build_block {C} `{Comparator C} (cmp : C) (interval : Z) (es : list entry)
  : outcome Block :=
  b ← BlockBuilder.new cmp interval;
  b ← add_all b es;
  Block_new (BlockBuilder.finish b).2.

(** A bound on the space an entry takes: three varints, key and value. *)
Definition entry_cost (e : entry) : Z := 15 + len e.1 + len e.2.
Definition total_cost (es : list entry) : Z := foldr (fun e n => entry_cost e + n) 0 es.

Record entries_ok (key_ok : bytes -> Prop) (ord : bytes -> bytes -> comparison)
    (es : list entry) : Prop := {
  eo_keys : Forall (fun e => key_ok e.1) es;
  eo_sorted : sorted_entries ord es;
  eo_size : total_cost es < 2 ^ 32;
}.

Lemma entry_cost_pos e : 15 <= entry_cost e.
Proof. unfold entry_cost. len_pose. lia. Qed.

Lemma total_cost_nonneg es : 0 <= total_cost es.
Proof. induction es as [|e es IH]; cbn; [lia|]. pose proof (entry_cost_pos e). unfold total_cost in *. lia. Qed.

Lemma chunk_cost prev c : chunk_ok prev c -> len (chunk_bytes c) <= entry_cost (c_key c, c_value c).
Proof.
  intros (Hs & Hk & _ & Hok & Hv). unfold chunk_bytes, chunk_head, entry_cost, is_u32 in *. cbn.
  pose proof (put_varint32_len (c_shared c)) as H1.
  pose proof (put_varint32_len (len (c_key c) - c_shared c)) as H2.
  pose proof (put_varint32_len (len (c_value c))) as H3. unfold is_u32 in *.
  rewrite !len_app, len_zdrop by lia. len_pose. lia.
Qed.

Section build.
Context {C : Type} `{HC : Comparator C} (cmp : C) (key_ok : bytes -> Prop)
        (ord : bytes -> bytes -> comparison) `{!ComparatorLaws cmp key_ok ord}.

Lemma builder_add_all (es : list entry) (b : BlockBuilder.t C) (cs : list chunk) (rs : list nat) :
  builder_ok cmp key_ok b cs rs -> Forall (fun e => key_ok e.1) es ->
  sorted_entries ord (entries_of cs ++ es) -> len (body cs) + total_cost es < 2 ^ 32 ->
  (length rs <= S (length cs))%nat ->
  exists b' cs' rs', add_all b es = Ret b' /\ builder_ok cmp key_ok b' (cs ++ cs') rs' /\
    entries_of cs' = es /\ (length rs' <= S (length (cs ++ cs')))%nat /\
    len (body (cs ++ cs')) < 2 ^ 32.
Proof.
  revert b cs rs. induction es as [|[k v] es IH]; intros b cs rs Hb Hk Hs Hcost Hr.
  { exists b, [], rs. rewrite !app_nil_r. cbn in Hcost. split_and!; try done. lia. }
  cbn [total_cost foldr] in Hcost. change (foldr _ 0 es) with (total_cost es) in Hcost.
  pose proof (total_cost_nonneg es). unfold entry_cost in Hcost. cbn [fst snd] in Hcost.
  assert (Hsz : size_ok k v) by (unfold size_ok, is_u32; len_pose; lia).
  apply Forall_cons in Hk as [Hk Hks].
  assert (Hf : follows ord cs k).
  { destruct cs as [|c cs _] using rev_ind; [by left|right]. rewrite prev_key_snoc.
    apply (proj2 (ord_gt_lt (ord:=ord) _ _)).
    apply (Hs (length cs) (S (length cs)) (c_key c, c_value c) (k, v)); [lia|..].
    - unfold entries_of. rewrite lookup_app_l by (rewrite length_map, length_app; cbn; lia).
      rewrite list_lookup_fmap, lookup_app_r, Nat.sub_diag by done. done.
    - unfold entries_of. rewrite lookup_app_r by (rewrite length_map, length_app; cbn; lia).
      rewrite length_map, length_app. cbn. by replace (S (length cs) - (length cs + 1))%nat with 0%nat by lia. }
  destruct (builder_add cmp key_ok ord b cs rs k v Hb Hsz Hk Hf ltac:(len_pose; lia))
    as (b1 & c & rs1 & Hadd & Hb1 & Hck & Hcv & Hr1 & _).
  cbn [add_all]. rewrite Hadd. cbn [mbind outcome_bind].
  assert (Hcc : len (chunk_bytes c) <= 15 + len k + len v).
  { subst k v. apply (chunk_cost (prev_key (cs ++ [c]) (length cs))).
    apply (bb_chain _ _ _ _ _ Hb1). by rewrite lookup_app_r, Nat.sub_diag by done. }
  assert (Hsplit : entries_of (cs ++ [c]) ++ es = entries_of cs ++ (k, v) :: es).
  { unfold entries_of. rewrite map_app, <- app_assoc. cbn. by rewrite Hck, Hcv. }
  destruct (IH b1 (cs ++ [c]) rs1 Hb1 Hks) as (b' & cs' & rs' & H1 & H2 & H3 & H4 & H5).
  - by rewrite Hsplit.
  - rewrite body_app, len_app. unfold body at 2. cbn. rewrite app_nil_r. lia.
  - rewrite length_app. cbn. lia.
  - exists b', (c :: cs'), rs'. rewrite <- app_assoc in H2, H4, H5. split_and!; try done.
    change (entries_of (c :: cs')) with ((c_key c, c_value c) :: entries_of cs').
    by rewrite H3, Hck, Hcv.
Qed.

Lemma build_block_ok interval (es : list entry) : 1 <= interval -> entries_ok key_ok ord es ->
  exists blk cs rs, build_block cmp interval es = Ret blk /\ block_ok blk cs rs /\
    entries_of cs = es /\ forall i c, cs !! i = Some c -> key_ok (c_key c).
Proof.
  intros Hi [Hk Hs Hc]. unfold build_block.
  destruct (builder_new cmp key_ok interval Hi) as (b & -> & Hb). cbn [mbind outcome_bind].
  destruct (builder_add_all es b [] _ Hb Hk Hs Hc ltac:(cbn; lia))
    as (b' & cs & rs & -> & Hb' & Hes & Hr & Hsz). cbn [mbind outcome_bind app] in *.
  pose proof (length_le_body cs (bb_chain _ _ _ _ _ Hb')) as Hle.
  destruct (builder_finish _ _ _ _ _ Hb' Hsz ltac:(unfold len in *; lia)) as (blk & -> & Hok).
  exists blk, cs, rs. split_and!; try done. apply (bb_keys _ _ _ _ _ Hb').
Qed.
End build.

(** ** Reading arbitrary bytes *)

Lemma Block_new_shape bs blk : Block_new bs = Ret blk ->
  blk_bytes blk = bs /\ 0 <= num_restarts blk /\
  restart_offset blk = len bs - 4 - num_restarts blk * 4 /\ 0 <= restart_offset blk.
Proof.
  unfold Block_new. zcase; [done|]. rewrite slice_from_drop by lia. cbn [mbind outcome_bind].
  unfold decode_fixed32, slice_to. rewrite slice_ok by (rewrite ?len_zdrop; lia).
  cbn [mbind outcome_bind]. match goal with |- context [le_combine ?x] => pose proof (le_combine_range x) end.
  zcase; [done|]. intros ?; simplify_eq. cbn. split_and!; [done|lia|lia|].
  match goal with |- 0 <= len bs - 4 - ?c * 4 => assert (c * 4 <= (len bs - 4) / 4 * 4) by nia end.
  pose proof (Z.mul_div_le (len bs - 4) 4). lia.
Qed.

Lemma get_varint32_suffix input v rest : get_varint32 input = (Some v, rest) ->
  exists pre, input = pre ++ rest /\ 1 <= len pre.
Proof.
  unfold get_varint32. case_match eqn:E; [|done]. case_match. intros ?; simplify_eq.
  apply get_varint_loop_suffix in E as (pre & -> & ? & _). by exists pre.
Qed.

Section arbitrary.
Context {C : Type} `{HC : Comparator C}.
Implicit Types it : BlockIter.t C.

(** A state in which the next entry can be parsed, whatever the bytes are. *)
Definition iter_wf it : Prop :=
  0 <= BlockIter.next_entry_offset it /\
  0 <= restart_offset (BlockIter.block it) <= len (blk_bytes (BlockIter.block it)) /\
  exists k, kb_repr (BlockIter.key it) k.

Lemma parse_wf it : iter_wf it ->
  exists ok it', BlockIter.parse_next_entry it = Ret (ok, it') /\ iter_wf it' /\
    BlockIter.block it' = BlockIter.block it /\ BlockIter.is_valid it' = ok /\
    (ok = true ->
      BlockIter.next_entry_offset it + 3 <= BlockIter.next_entry_offset it' <=
        restart_offset (BlockIter.block it) /\
      0 <= BlockIter.value_len it' /\
      BlockIter.value_offset it' + BlockIter.value_len it' = BlockIter.next_entry_offset it' /\
      0 <= BlockIter.value_offset it').
Proof.
  intros (Hn & Hro & k & Hk). unfold BlockIter.parse_next_entry. rewrite Z.geb_leb. zcase.
  { do 2 eexists. split; [done|]. unfold iter_wf. cbn. split_and!; try done; try lia. by exists k. }
  rewrite slice_ok by lia. cbn [mbind outcome_bind].
  set (p := ztake _ _).
  assert (Hp : len p = restart_offset (BlockIter.block it) - BlockIter.next_entry_offset it).
  { apply len_ztake. rewrite len_zdrop; lia. }
  assert (Hbad : forall m, iter_wf (BlockIter.set_corruption it m)).
  { intros m. unfold iter_wf. cbn. split_and!; [lia..|by exists k]. }
  destruct (get_varint32 p) as [[shared|] p1] eqn:E1; [|by do 2 eexists; split_and!; [done|apply Hbad|done..]].
  destruct (get_varint32 p1) as [[unshared|] p2] eqn:E2; [|by do 2 eexists; split_and!; [done|apply Hbad|done..]].
  destruct (get_varint32 p2) as [[vlen|] p3] eqn:E3; [|by do 2 eexists; split_and!; [done|apply Hbad|done..]].
  pose proof (get_varint32_range _ _ _ E1) as R1. pose proof (get_varint32_range _ _ _ E2) as R2.
  pose proof (get_varint32_range _ _ _ E3) as R3. unfold is_u32 in *.
  apply get_varint32_suffix in E1 as (q1 & Hq1 & L1), E2 as (q2 & Hq2 & L2), E3 as (q3 & Hq3 & L3).
  assert (Hp' : len p = len q1 + len q2 + len q3 + len p3).
  { rewrite Hq1, Hq2, Hq3, !len_app. lia. }
  destruct (Z.ltb_spec (len p3) (unshared + vlen)); [by do 2 eexists; split_and!; [done|apply Hbad|done..]|].
  rewrite (kb_deref _ _ Hk). cbn [mbind outcome_bind].
  destruct (Z.ltb_spec (len k) shared); [by do 2 eexists; split_and!; [done|apply Hbad|done..]|].
  rewrite slice_ok by lia. cbn [mbind outcome_bind].
  match goal with |- context [Key_buf.extend_from_slice _ ?d] =>
    destruct (kb_extend _ _ d (kb_truncate _ _ shared Hk ltac:(lia))) as (k' & -> & Hrep) end.
  cbn [mbind outcome_bind]. do 2 eexists. split; [done|]. unfold iter_wf. cbn.
  split_and!; try done; try lia. by eexists.
Qed.
End arbitrary.

(** ** Claims *)

(** Parse_next_entry. On any bytes that [Block::new] accepts, corrupt or not, parsing
    the next entry never panics and never reads outside the block (the unchecked slice
    of the source is in bounds); when it succeeds the offset has advanced by at least
    three bytes, the entry lies before the restart array, and the state is again fit
    to parse. *)
Theorem parse_next_entry_safe {C} `{Comparator C} bs blk (it : BlockIter.t C) :
  Block_new bs = Ret blk -> BlockIter.block it = blk ->
  0 <= BlockIter.next_entry_offset it -> (exists k, kb_repr (BlockIter.key it) k) ->
  exists ok it', BlockIter.parse_next_entry it = Ret (ok, it') /\ iter_wf it' /\
    BlockIter.block it' = blk /\ BlockIter.is_valid it' = ok /\
    (ok = true ->
      BlockIter.next_entry_offset it + 3 <= BlockIter.next_entry_offset it' <= restart_offset blk /\
      exists v, BlockIter.get_value it' = Ret v /\ len v = BlockIter.value_len it').
Proof.
  intros Hnew <- Hn Hk. apply Block_new_shape in Hnew as (Hb & Hnum & Hro & Hro').
  destruct (parse_wf it) as (ok & it' & H1 & H2 & H3 & H4 & H5).
  { split_and!; [done|done|rewrite Hb; lia|done]. }
  exists ok, it'. split_and!; try done. intros Hok. destruct (H5 Hok) as ((? & ?) & ? & ? & ?).
  split; [done|]. unfold BlockIter.get_value. rewrite H3, slice_ok by (rewrite ?Hb; lia).
  eexists. split; [done|]. rewrite len_ztake; rewrite ?len_zdrop, ?Hb; rewrite ?Hb; lia.
Qed.

Definition sample_entries : list entry :=
  map (fun p => (list_byte_of_string p.1, list_byte_of_string p.2))
    [("alpha", "1"); ("alpine", "2"); ("bravo", "3"); ("bravooo", "4"); ("c", "5")]%string.


(** Block round trip. Building a block from sorted entries (with any comparator that
    keeps its laws and any restart interval) and reading it back with [BlockIter] yields
    the same entries, forwards and backwards. *)
Theorem block_roundtrip {C} `{Comparator C} (cmp : C) key_ok ord
    `{!ComparatorLaws cmp key_ok ord} interval es :
  1 <= interval -> entries_ok key_ok ord es ->
  exists blk, build_block cmp interval es = Ret blk /\
    scan_forward (length es) (BlockIter.new blk cmp) = Ret es /\
    scan_backward (length es) (BlockIter.new blk cmp) = Ret (rev es).
Proof.
  intros Hi Hes. destruct (build_block_ok cmp key_ok ord interval es Hi Hes)
    as (blk & cs & rs & Hb & Hok & <- & Hk). exists blk. split; [done|].
  pose proof (BlockIter_Laws cmp key_ok ord blk cs rs Hok Hk (eo_sorted _ _ _ Hes)) as Hl.
  pose proof (from_source_at cmp blk cs rs) as Hat.
  split; [by eapply scan_forward_ok|by eapply scan_backward_ok].
Qed.


(** BlockIter::seek. Over such a block, [seek] lands on the first entry whose key is
    not below the target: what is read from there is exactly the entries not below it
    (nothing, when there is none). *)
Theorem block_seek {C} `{Comparator C} (cmp : C) key_ok ord
    `{!ComparatorLaws cmp key_ok ord} interval es t :
  1 <= interval -> entries_ok key_ok ord es -> key_ok t ->
  exists blk, build_block cmp interval es = Ret blk /\
    scan_from (length es) (BlockIter.new blk cmp) t = Ret (List.filter (not_below ord t) es).
Proof.
  intros Hi Hes Ht. destruct (build_block_ok cmp key_ok ord interval es Hi Hes)
    as (blk & cs & rs & Hb & Hok & <- & Hk). exists blk. split; [done|].
  pose proof (BlockIter_Laws cmp key_ok ord blk cs rs Hok Hk (eo_sorted _ _ _ Hes)) as Hl.
  rewrite <- from_pos_filter by (try apply _; apply Hes).
  eapply scan_from_ok; [by apply from_source_at|done|done].
Qed.


(** C29: (BlockIter refines a cursor) Over such a block, every operation of [BlockIter] from
    every reachable state acts as the corresponding move of a cursor on the entry list:
    [IterLaws] holds for a relation that contains the fresh iterator. *)
Theorem BlockIter_refines_cursor {C} `{Comparator C} (cmp : C) key_ok ord
    `{!ComparatorLaws cmp key_ok ord} interval es :
  1 <= interval -> entries_ok key_ok ord es ->
  exists blk at_pos, build_block cmp interval es = Ret blk /\
    IterLaws (I:=BlockIter.t C) ord es key_ok at_pos /\ at_pos (BlockIter.new blk cmp) None.
Proof.
  intros Hi Hes. destruct (build_block_ok cmp key_ok ord interval es Hi Hes)
    as (blk & cs & rs & Hb & Hok & <- & Hk). exists blk, (block_at cmp blk cs rs).
  split; [done|]. split; [|by apply from_source_at].
  exact (BlockIter_Laws cmp key_ok ord blk cs rs Hok Hk (eo_sorted _ _ _ Hes)).
Qed.

Lemma BlockIter_refines_cursor_witness :
  exists blk at_pos, build_block Bytewise 1 sample_entries = Ret blk /\
    IterLaws (I:=BlockIter.t BytewiseComparator) bytes_cmp sample_entries (fun _ => True) at_pos /\
    at_pos (BlockIter.new blk Bytewise) None.
Proof.
  apply (BlockIter_refines_cursor Bytewise (fun _ => True) bytes_cmp 1 sample_entries); [lia|]. split.
  - by repeat constructor.
  - by apply sortedb_sound; [apply _|].
  - done.
Defined.

(** C40: (seek on a corrupt block) Whatever bytes come before, a block with two restart points
    or more whose middle restart offset points past the entries is accepted by
    [Block::new], and a [seek] in it, of any target, panics instead of reporting
    corruption: the first step of the binary search slices the block at the unchecked
    offset. *)
Theorem block_seek_corrupt_panics {C} `{Comparator C} (cmp : C) data rs r target :
  Forall is_u32 rs -> 2 <= len rs < 2 ^ 32 -> rs !! (length rs / 2)%nat = Some r -> len data < r ->
  exists blk, Block_new (data ++ fixed32s rs ++ to_le_bytes 4 (len rs)) = Ret blk /\ BlockIter.seek (BlockIter.new blk cmp) target = Panic.
Proof.
  intros Hu Hn Hr Hpast. eexists. split; [apply any_block; lia|]. set (blk := mk_block _ _ _). unfold BlockIter.seek.
  change (BlockIter.block (BlockIter.new blk cmp)) with blk. change (num_restarts blk) with (len rs).
  rewrite (proj2 (Z.eqb_neq _ _)) by lia. destruct (Z.to_nat (len rs)) as [|fuel] eqn:Ef; [lia|]. cbn [BlockIter.search_loop].
  rewrite (proj2 (Z.ltb_lt _ _)) by lia.
  replace (0 + (len rs - 1 - 0 + 1) / 2) with (Z.of_nat (length rs / 2)) by (rewrite Nat2Z.inj_div, Z.add_0_l; f_equal; unfold len; lia).
  rewrite (any_restart (BlockIter.new blk cmp) data rs (to_le_bytes 4 (len rs)) _ r eq_refl eq_refl Hr) by (rewrite Forall_lookup in Hu; by apply (Hu _ _ Hr)). cbn [mbind outcome_bind].
  change (BlockIter.block (BlockIter.new blk cmp)) with blk. change (restart_offset blk) with (len data).
  unfold slice. rewrite (proj2 (Z.leb_gt r (len data))) by lia. by rewrite andb_false_r.
Qed.

(** Two restart points, the second beyond the one byte of entries. *)
Lemma block_seek_corrupt_panics_witness :
  exists blk, Block_new ([Byte.x00] ++ fixed32s [0; 99] ++ to_le_bytes 4 2) = Ret blk /\
    BlockIter.seek (BlockIter.new blk Bytewise) (list_byte_of_string "k") = Panic.
Proof.
  apply (block_seek_corrupt_panics Bytewise [Byte.x00] [0; 99] 99); [|split; by vm_compute|done|by vm_compute].
  repeat constructor; by vm_compute.
Defined.
