(* ===== verification/Filter.v ===== *)
(** * Filter.v: [filter/filter.rs].

    The trait [FilterPolicy] with the law its users rely on (no false negatives), the
    Bloom filter, and the adapter for internal keys.  [k = bits_per_key * 0.69] is
    computed in binary64 with the Standard Library's [SpecFloat]. *)
From Stdlib Require Import Floats.SpecFloat.
From S2P Require Import Prelude Status Coding Crc32c Hash Format.

(** ** The trait *)

Class FilterPolicy (P : Type) := {
  filter_name : P -> string;
  create_filter : P -> list bytes -> bytes -> outcome bytes;
  key_may_match : P -> bytes -> bytes -> outcome bool;
}.

(** On the key lists it accepts, a policy appends a non-empty filter that matches every
    key given, whatever the buffer held before; matching answers on any bytes. *)
Class FilterLaws {P} `{FilterPolicy P} (p : P) (keys_ok : list bytes -> Prop) : Prop := {
  create_filter_law keys dst : keys_ok keys ->
    exists f, f <> [] /\ create_filter p keys dst = Ret (dst ++ f) /\
      forall k, k ∈ keys -> key_may_match p k f = Ret true;
  match_total_law k f : exists b, key_may_match p k f = Ret b;
}.

Definition DEFAULT_BITS_PER_KEY : Z := 10.
Definition HASH_SEED : Z := 0xbc9f1d34.

(** ** Binary64 *)

Definition f64_of_Z (n : Z) : spec_float := binary_normalize 53 1024 n 0 false.
Definition f64_mul : spec_float -> spec_float -> spec_float := SFmul 53 1024.
(** The literal [0.69]: the double nearest to 69/100. *)
Definition f64_0_69 : spec_float := SFdiv 53 1024 (f64_of_Z 69) (f64_of_Z 100).
(** [x as usize]: truncation, saturating, 0 on NaN. *)
Definition f64_to_usize (x : spec_float) : Z :=
  match x with
  | S754_finite false m e =>
      Z.min (2 ^ 64 - 1) (if 0 <=? e then Z.pos m * 2 ^ e else Z.pos m / 2 ^ (- e))
  | S754_infinity false => 2 ^ 64 - 1
  | _ => 0
  end.

(** ** [BloomFilterPolicy] *)

Record BloomFilterPolicy := mk_bloom { bits_per_key : Z; bloom_k : Z }.

Module Bloom.
Definition new (bits_per_key : Z) : BloomFilterPolicy :=
  let k := f64_to_usize (f64_mul (f64_of_Z bits_per_key) f64_0_69) in
  let k := if k <? 1 then 1 else k in
  let k := if 30 <? k then 30 else k in
  mk_bloom bits_per_key k.
Definition default : BloomFilterPolicy := new DEFAULT_BITS_PER_KEY.

(** [h.rotate_left(15)] *)
Definition delta (h : Z) : Z := rotate_left32 h 15.

(** [dst[base + bit_pos / 8] |= 1 << (bit_pos % 8)] *)
Definition set_bit (dst : bytes) (base bit_pos : Z) : outcome bytes :=
  b ← index dst (base + bit_pos / 8);
  set_index dst (base + bit_pos / 8) (as_u8 (Z.lor (u8 b) (Z.shiftl 1 (bit_pos mod 8)))).

(** [for _ in 0..k] of [create_filter]. *)
Fixpoint add_probes (n : nat) (dst : bytes) (base bits h d : Z) : outcome bytes :=
  match n with
  | O => Ret dst
  | S n =>
      dst ← set_bit dst base (h mod bits);
      add_probes n dst base bits (wrapping_add h d) d
  end.

Fixpoint add_keys (k : Z) (keys : list bytes) (dst : bytes) (base bits : Z) : outcome bytes :=
  match keys with
  | [] => Ret dst
  | key :: keys =>
      let h := hash key HASH_SEED in
      dst ← add_probes (Z.to_nat k) dst base bits h (delta h);
      add_keys k keys dst base bits
  end.

Definition create_filter (self : BloomFilterPolicy) (keys : list bytes) (dst : bytes)
  : outcome bytes :=
  let n := len keys in
  let bits := as_u64 (n * bits_per_key self) in
  let bits := if bits <? 64 then 64 else bits in
  let nbytes := as_u64 (bits + 7) / 8 in
  let bits := nbytes * 8 in
  let init_size := len dst in
  let dst := dst ++ replicate (Z.to_nat nbytes) (as_u8 0) in
  let dst := dst ++ [as_u8 (bloom_k self)] in
  add_keys (bloom_k self) keys dst init_size bits.

(** [for _ in 0..k] of [key_may_match]. *)
Fixpoint test_probes (n : nat) (array : bytes) (bits h d : Z) : outcome bool :=
  match n with
  | O => Ret true
  | S n =>
      let bit_pos := h mod bits in
      b ← index array (bit_pos / 8);
      if Z.land (u8 b) (Z.shiftl 1 (bit_pos mod 8)) =? 0 then Ret false
      else test_probes n array bits (wrapping_add h d) d
  end.

Definition key_may_match (self : BloomFilterPolicy) (key filter : bytes) : outcome bool :=
  let l := len filter in
  if l <? 2 then Ret false else
  array ← slice_to filter (l - 1);
  last ← index filter (l - 1);
  let k := u8 last in
  if 30 <? k then Ret true else
  let bits := len array * 8 in
  let h := hash key HASH_SEED in
  test_probes (Z.to_nat k) array bits h (delta h).
End Bloom.

#[export] Instance Bloom_FilterPolicy : FilterPolicy BloomFilterPolicy := {|
  filter_name _ := "pulsearc-db.BuiltinBloomFilter2";
  create_filter := Bloom.create_filter;
  key_may_match := Bloom.key_may_match;
|}.

(** ** [InternalFilterPolicy] *)

Record InternalFilterPolicy (P : Type) := mk_internal_filter { user_policy : P }.
Arguments mk_internal_filter {P} _.
Arguments user_policy {P} _.

Definition user_key_of (internal_key : bytes) : bytes :=
  if 8 <=? len internal_key then ztake (len internal_key - 8) internal_key else internal_key.

#[export] Instance Internal_FilterPolicy {P} `{FilterPolicy P}
  : FilterPolicy (InternalFilterPolicy P) := {|
  filter_name self := filter_name (user_policy self);
  create_filter self keys dst := create_filter (user_policy self) (map user_key_of keys) dst;
  key_may_match self key filter := key_may_match (user_policy self) (user_key_of key) filter;
|}.

(** ** Bits of a byte array *)

Definition bit_set (arr : bytes) (pos : Z) : bool :=
  match arr !! Z.to_nat (pos / 8) with
  | Some b => Z.testbit (u8 b) (pos mod 8)
  | None => false
  end.

Lemma index_ok {A} (l : list A) i x : 0 <= i -> l !! Z.to_nat i = Some x -> index l i = Ret x.
Proof. intros Hi Hx. unfold index. rewrite (proj2 (Z.leb_le _ _)) by done. by rewrite Hx. Qed.

Lemma lookup_z {A} (l : list A) i : 0 <= i < len l -> exists x, l !! Z.to_nat i = Some x.
Proof. unfold len. intros. apply lookup_lt_is_Some_2. lia. Qed.

Lemma set_index_ok {A} (l : list A) i x : 0 <= i < len l -> set_index l i x = Ret (<[Z.to_nat i := x]> l).
Proof.
  intros. unfold set_index. by rewrite (proj2 (Z.leb_le _ _)), (proj2 (Z.ltb_lt _ _)) by lia.
Qed.

Lemma land_bit_zero x i : 0 <= i -> (Z.land x (Z.shiftl 1 i) =? 0) = negb (Z.testbit x i).
Proof.
  intros Hi. rewrite Z.shiftl_1_l. destruct (Z.testbit x i) eqn:E; cbn.
  - apply Z.eqb_neq. intros H0. apply (f_equal (fun z => Z.testbit z i)) in H0.
    rewrite Z.land_spec, E, Z.pow2_bits_true, Z.bits_0 in H0 by done. done.
  - apply Z.eqb_eq. apply Z.bits_inj'. intros j Hj. rewrite Z.land_spec, Z.bits_0.
    rewrite Z.pow2_bits_eqb by done. destruct (Z.eqb_spec i j) as [<-|]; [by rewrite E|apply andb_false_r].
Qed.

Lemma set_bit_ok pre arr post pos : 0 <= pos -> pos / 8 < len arr ->
  exists arr', Bloom.set_bit (pre ++ arr ++ post) (len pre) pos = Ret (pre ++ arr' ++ post) /\
    len arr' = len arr /\ bit_set arr' pos = true /\
    forall p, 0 <= p -> bit_set arr p = true -> bit_set arr' p = true.
Proof.
  intros Hp Hl. assert (Hd : 0 <= pos / 8) by (apply Z.div_pos; lia).
  destruct (lookup_z arr (pos / 8)) as [b Hb]; [lia|].
  pose proof (Z.mod_pos_bound pos 8 ltac:(lia)) as Hm.
  set (b' := as_u8 (Z.lor (u8 b) (Z.shiftl 1 (pos mod 8)))).
  assert (Hb' : u8 b' = Z.lor (u8 b) (Z.shiftl 1 (pos mod 8))).
  { apply u8_as_u8_id, (lor_bound 8); [lia|apply u8_range|]. rewrite Z.shiftl_1_l.
    split; [apply Z.pow_nonneg; lia|apply Z.pow_lt_mono_r; lia]. }
  assert (Hlook : (pre ++ arr ++ post) !! Z.to_nat (len pre + pos / 8) = Some b).
  { unfold len in *. rewrite lookup_app_r by lia.
    replace (Z.to_nat _ - length pre)%nat with (Z.to_nat (pos / 8)) by lia.
    rewrite lookup_app_l by lia. done. }
  exists (<[Z.to_nat (pos / 8) := b']> arr). unfold Bloom.set_bit.
  rewrite (index_ok _ _ b) by (try done; len_pose; lia). cbn [mbind outcome_bind].
  rewrite set_index_ok by (rewrite !len_app; len_pose; lia).
  split.
  { f_equal. fold b'. unfold len in *. rewrite insert_app_r_alt by lia.
    replace (Z.to_nat _ - length pre)%nat with (Z.to_nat (pos / 8)) by lia.
    by rewrite insert_app_l by lia. }
  split; [unfold len; by rewrite length_insert|].
  assert (Hsame : forall p, (p / 8 = pos / 8) -> bit_set (<[Z.to_nat (pos / 8):=b']> arr) p
    = Z.testbit (u8 b') (p mod 8)).
  { intros p Hpp. unfold bit_set. rewrite Hpp, list_lookup_insert_eq; [done|]. unfold len in Hl. lia. }
  split.
  - rewrite Hsame, Hb', Z.lor_spec, Z.shiftl_1_l, Z.pow2_bits_true by (done || lia). apply orb_true_r.
  - intros p Hp0 Hset. destruct (decide (p / 8 = pos / 8)) as [E|E].
    + rewrite Hsame by done. unfold bit_set in Hset. rewrite E, Hb in Hset.
      rewrite Hb', Z.lor_spec, Hset. done.
    + unfold bit_set in *. rewrite list_lookup_insert_ne; [done|].
      assert (0 <= p / 8) by (apply Z.div_pos; lia). lia.
Qed.

(** ** The Bloom filter *)

(** The bit positions probed for a key. *)
Fixpoint probes (n : nat) (bits h d : Z) : list Z :=
  match n with O => [] | S n => h mod bits :: probes n bits (wrapping_add h d) d end.
Definition key_probes (k bits : Z) (key : bytes) : list Z :=
  let h := hash key HASH_SEED in probes (Z.to_nat k) bits h (Bloom.delta h).

Lemma probes_bound n bits h d p : 0 < bits -> p ∈ probes n bits h d -> 0 <= p < bits.
Proof.
  intros Hb. revert h. induction n as [|n IH]; intros h Hp; cbn in Hp; [by apply elem_of_nil in Hp|].
  apply elem_of_cons in Hp as [->|Hp]; [by apply Z.mod_pos_bound|]. by apply (IH (wrapping_add h d)).
Qed.

Lemma div8_lt pos n : 0 <= pos < n * 8 -> pos / 8 < n.
Proof. intros. apply Z.div_lt_upper_bound; lia. Qed.

Lemma add_probes_ok n pre arr post h d : 0 < len arr ->
  exists arr', Bloom.add_probes n (pre ++ arr ++ post) (len pre) (len arr * 8) h d
      = Ret (pre ++ arr' ++ post) /\ len arr' = len arr /\
    (forall p, p ∈ probes n (len arr * 8) h d -> bit_set arr' p = true) /\
    (forall p, 0 <= p -> bit_set arr p = true -> bit_set arr' p = true).
Proof.
  intros Hl. revert arr h Hl. induction n as [|n IH]; intros arr h Hl; cbn [Bloom.add_probes probes].
  { exists arr. split_and!; try done. intros p Hp. by apply elem_of_nil in Hp. }
  pose proof (Z.mod_pos_bound h (len arr * 8) ltac:(lia)) as Hm.
  destruct (set_bit_ok pre arr post (h mod (len arr * 8))) as (a1 & -> & L1 & S1 & K1);
    [lia|by apply div8_lt|]. cbn [mbind outcome_bind].
  destruct (IH a1 (wrapping_add h d)) as (a2 & E & L2 & S2 & K2); [lia|]. rewrite L1 in *.
  exists a2. split_and!; [done|done|..].
  - intros p [->|Hp]%elem_of_cons; [apply K2; [lia|done]|by apply S2].
  - intros p Hp Hb. by apply K2, K1.
Qed.

Lemma add_keys_ok k keys pre arr post : 0 < len arr ->
  exists arr', Bloom.add_keys k keys (pre ++ arr ++ post) (len pre) (len arr * 8)
      = Ret (pre ++ arr' ++ post) /\ len arr' = len arr /\
    (forall key p, key ∈ keys -> p ∈ key_probes k (len arr * 8) key -> bit_set arr' p = true) /\
    (forall p, 0 <= p -> bit_set arr p = true -> bit_set arr' p = true).
Proof.
  revert arr. induction keys as [|key keys IH]; intros arr Hl; cbn [Bloom.add_keys].
  { exists arr. split_and!; try done. intros key p Hk. by apply elem_of_nil in Hk. }
  destruct (add_probes_ok (Z.to_nat k) pre arr post (hash key HASH_SEED)
    (Bloom.delta (hash key HASH_SEED)) Hl) as (a1 & -> & L1 & S1 & K1). cbn [mbind outcome_bind].
  destruct (IH a1) as (a2 & E & L2 & S2 & K2); [lia|]. rewrite L1 in *.
  exists a2. split_and!; [done|done|..].
  - intros key' p [->|Hk]%elem_of_cons Hp; [|by eapply S2].
    pose proof (probes_bound _ (len arr * 8) _ _ _ ltac:(lia) Hp). apply K2; [lia|]. by apply S1.
  - intros p Hp Hb. by apply K2, K1.
Qed.

Lemma test_probes_ok n arr h d : 0 < len arr ->
  (forall p, p ∈ probes n (len arr * 8) h d -> bit_set arr p = true) ->
  Bloom.test_probes n arr (len arr * 8) h d = Ret true.
Proof.
  intros Hl. revert h. induction n as [|n IH]; intros h Hp; [done|]. cbn [Bloom.test_probes].
  pose proof (Z.mod_pos_bound h (len arr * 8) ltac:(lia)) as Hm.
  set (pos := h mod (len arr * 8)) in *.
  assert (Hd : 0 <= pos / 8) by (apply Z.div_pos; lia).
  destruct (lookup_z arr (pos / 8)) as [b Hb]; [pose proof (div8_lt pos (len arr)); lia|].
  rewrite (index_ok _ _ b) by done. cbn [mbind outcome_bind].
  rewrite land_bit_zero by (apply Z.mod_pos_bound; lia).
  assert (Hset : bit_set arr pos = true) by (apply Hp; constructor).
  unfold bit_set in Hset. rewrite Hb in Hset. rewrite Hset. cbn [negb].
  apply IH. intros p Hin. apply Hp. by constructor.
Qed.

Lemma test_probes_total n arr h d : 0 < len arr -> exists b, Bloom.test_probes n arr (len arr * 8) h d = Ret b.
Proof.
  intros Hl. revert h. induction n as [|n IH]; intros h; [by eexists|]. cbn [Bloom.test_probes].
  pose proof (Z.mod_pos_bound h (len arr * 8) ltac:(lia)) as Hm.
  destruct (lookup_z arr (h mod (len arr * 8) / 8)) as [b Hb].
  { pose proof (div8_lt (h mod (len arr * 8)) (len arr) Hm). split; [apply Z.div_pos; lia|lia]. }
  rewrite (index_ok _ _ b) by (try done; apply Z.div_pos; lia). cbn [mbind outcome_bind].
  destruct (_ =? 0); [by eexists|apply IH].
Qed.
Lemma bloom_match_total self k f : exists b, Bloom.key_may_match self k f = Ret b.
Proof.
  unfold Bloom.key_may_match. destruct (Z.ltb_spec (len f) 2); [by eexists|].
  unfold slice_to. rewrite slice_ok by lia. cbn [mbind outcome_bind]. destruct (lookup_z f (len f - 1)) as [b Hb]; [lia|].
  rewrite (index_ok _ _ b) by (try done; lia). cbn [mbind outcome_bind]. destruct (30 <? u8 b); [by eexists|].
  apply test_probes_total. rewrite len_ztake; rewrite ?zdrop_0; lia.
Qed.

(** A policy whose probe count fits its stored byte. *)
Definition bloom_ok (self : BloomFilterPolicy) : Prop := 0 <= bits_per_key self /\ 1 <= bloom_k self <= 30.

Lemma bloom_new_ok bits : 0 <= bits -> bloom_ok (Bloom.new bits).
Proof.
  intros. unfold bloom_ok, Bloom.new. split; [done|]. cbn [bloom_k]. cbv zeta.
  set (k := f64_to_usize _). destruct (Z.ltb_spec k 1); zcase; lia.
Qed.

(** Key sets whose bit count does not overflow. *)
Definition bloom_keys_ok (self : BloomFilterPolicy) (keys : list bytes) : Prop :=
  len keys * bits_per_key self + 7 < 2 ^ 64.

#[export] Instance Bloom_Laws self (Hself : bloom_ok self) : FilterLaws self (bloom_keys_ok self).
Proof.
  destruct Hself as [Hb Hk]. split; [|apply bloom_match_total]. intros keys dst Hkeys. unfold bloom_keys_ok in Hkeys.
  set (bits0 := if len keys * bits_per_key self <? 64 then 64 else len keys * bits_per_key self).
  assert (Hbits : 64 <= bits0 /\ bits0 + 7 < 2 ^ 64) by (unfold bits0; zcase; lia).
  set (nbytes := (bits0 + 7) / 8).
  assert (Hn : 8 <= nbytes) by (apply Z.div_le_lower_bound; lia).
  set (arr := replicate (Z.to_nat nbytes) (as_u8 0)).
  assert (Hla : len arr = nbytes) by (unfold arr; rewrite len_replicate; lia).
  set (klen := as_u8 (bloom_k self)).
  destruct (add_keys_ok (bloom_k self) keys dst arr [klen]) as (arr' & E & L & S & _); [lia|].
  exists (arr' ++ [klen]). split; [by destruct arr'|]. split.
  - cbn. unfold Bloom.create_filter.
    rewrite (as_u64_id (len keys * _)) by (unfold is_u64; pose proof (len_nonneg keys); nia). fold bits0.
    rewrite as_u64_id by (unfold is_u64; lia). fold nbytes. fold arr klen.
    rewrite <- Hla, <- app_assoc. exact E.
  - intros key Hkey. cbn. unfold Bloom.key_may_match.
    rewrite (proj2 (Z.ltb_ge _ _)) by len_lia.
    rewrite slice_to_app by len_lia. cbn [mbind outcome_bind].
    rewrite (index_ok _ _ klen).
    2: len_lia.
    2: { unfold len. rewrite length_app. cbn. rewrite lookup_app_r by lia.
         by replace (_ - _)%nat with 0%nat by lia. }
    cbn [mbind outcome_bind]. unfold klen. rewrite u8_as_u8_id by (unfold is_u8; lia).
    rewrite (proj2 (Z.ltb_ge _ _)) by lia.
    apply test_probes_ok; [lia|]. intros p Hp. apply (S key p Hkey). by rewrite <- L.
Qed.

(** Stripping tags keeps the law: a filter built from internal keys matches every
    internal key with the same user key. *)
#[export] Instance Internal_filter_Laws {P} `{FilterPolicy P} (p : P) keys_ok
    (Hp : FilterLaws p keys_ok) :
  FilterLaws (mk_internal_filter p) (fun keys => keys_ok (map user_key_of keys)).
Proof.
  split; [|intros k f; apply (match_total_law (p:=p) (keys_ok:=keys_ok))]. intros keys dst Hok. destruct (create_filter_law (p:=p) _ dst Hok) as (f & Hne & E & Hm).
  exists f. split; [done|]. split; [exact E|]. intros k Hk. apply Hm.
  apply list_elem_of_fmap. by exists k.
Qed.

(** ** Claims *)

(** Bloom filter. For every number of bits per key, the filter built for a set of keys is
    appended to the buffer and matches each of them: no false negatives, at the Bloom
    level and through the internal-key adapter, for any internal key of the same user
    key; and neither construction nor lookup goes out of bounds. *)
Theorem bloom_no_false_negatives bits keys dst :
  0 <= bits -> len keys * bits + 7 < 2 ^ 64 ->
  exists f, create_filter (mk_internal_filter (Bloom.new bits)) keys dst = Ret (dst ++ f) /\
    forall k k', k ∈ keys -> user_key_of k' = user_key_of k ->
      key_may_match (mk_internal_filter (Bloom.new bits)) k' f = Ret true /\
      key_may_match (Bloom.new bits) (user_key_of k) f = Ret true.
Proof.
  intros Hb Hk. pose proof (Bloom_Laws (Bloom.new bits) (bloom_new_ok bits Hb)) as HL.
  destruct (create_filter_law (map user_key_of keys) dst) as (f & _ & E & Hm).
  { unfold bloom_keys_ok, len in *. by rewrite length_map. }
  exists f. split; [exact E|]. intros k k' Hin Hk'. cbn [key_may_match Internal_FilterPolicy user_policy].
  rewrite Hk'. split; apply Hm, list_elem_of_fmap; by exists k.
Qed.

