(* ===== verification/FilterBlock.v ===== *)
(** * FilterBlock.v: [filter_block/filter_block.rs].

    The builder that groups keys by 2 KiB ranges of data-block offsets, and the reader
    that finds the filter of an offset.  Proved against the [FilterLaws] interface. *)
From S2P Require Import Prelude Status Coding Filter.

Definition FILTER_BASE_LG : Z := 11.
Definition FILTER_BASE : Z := Z.shiftl 1 FILTER_BASE_LG.

Module FilterBlockBuilder.
Section FilterBlockBuilder.
Context {P : Type} `{FilterPolicy P}.

Record t := mk {
  policy : P;
  keys : bytes;
  start : list Z;
  result : bytes;
  filter_offsets : list Z;
}.

Definition new (policy : P) : t := mk policy [] [] [] [].

(** [(0..num_keys).map(|i| &keys[start[i]..start[i + 1]])] *)
Fixpoint key_slices (keys : bytes) (start : list Z) : outcome (list bytes) :=
  match start with
  | a :: (b :: _) as rest =>
      k ← slice keys a b;
      ks ← key_slices keys rest;
      Ret (k :: ks)
  | _ => Ret []
  end.

Definition generate_filter (b : t) : outcome t :=
  let num_keys := len (start b) in
  if num_keys =? 0
  then Ret (mk (policy b) (keys b) (start b) (result b)
               (filter_offsets b ++ [as_u32 (len (result b))]))
  else
    slices ← key_slices (keys b) (start b ++ [len (keys b)]);
    result' ← create_filter (policy b) slices (result b);
    Ret (mk (policy b) [] [] result' (filter_offsets b ++ [as_u32 (len (result b))])).

(** [while filter_index > filter_offsets.len()]: each round adds one offset. *)
Fixpoint start_loop (fuel : nat) (b : t) (filter_index : Z) : outcome t :=
  if len (filter_offsets b) <? filter_index then
    match fuel with
    | O => Panic
    | S fuel => b ← generate_filter b; start_loop fuel b filter_index
    end
  else Ret b.
Definition start_block (b : t) (block_offset : Z) : outcome t :=
  let filter_index := block_offset / FILTER_BASE in
  start_loop (Z.to_nat (filter_index - len (filter_offsets b))) b filter_index.

Definition add_key (b : t) (key : bytes) : t :=
  mk (policy b) (keys b ++ key) (start b ++ [len (keys b)]) (result b) (filter_offsets b).

Definition finish (b : t) : outcome (t * bytes) :=
  b ← (if negb (len (start b) =? 0) then generate_filter b else Ret b);
  let array_offset := as_u32 (len (result b)) in
  let result' := put_fixed32 (fold_left put_fixed32 (filter_offsets b) (result b)) array_offset
                   ++ [as_u8 FILTER_BASE_LG] in
  Ret (mk (policy b) (keys b) (start b) result' (filter_offsets b), result').
End FilterBlockBuilder.
Arguments t : clear implicits.
End FilterBlockBuilder.

Module FilterBlockReader.
Section FilterBlockReader.
Context {P : Type} `{FilterPolicy P}.

Record t := mk {
  policy : P;
  data : bytes;
  offset_array_start : Z;
  num_filters : Z;
  base_lg : Z;
}.

Definition new (policy : P) (contents : bytes) : outcome (option t) :=
  let n := len contents in
  if n <? 5 then Ret None else
  last ← index contents (n - 1);
  let base_lg := u8 last in
  a ← slice contents (n - 5) (n - 1);
  array_offset ← decode_fixed32 a;
  if n - 5 <? array_offset then Ret None else
  let num_filters := (n - 5 - array_offset) / 4 in
  Ret (Some (mk policy contents array_offset num_filters base_lg)).

Definition read_offset (r : t) (index : Z) : outcome Z :=
  let pos := offset_array_start r + index * 4 in
  b ← slice (data r) pos (pos + 4); decode_fixed32 b.

(** [block_offset >> base_lg] with the shift amount masked to six bits, as an
    unchecked [u64] shift does it. *)
Definition key_may_match (r : t) (block_offset : Z) (key : bytes) : outcome bool :=
  let index := Z.shiftr block_offset (base_lg r mod 64) in
  if num_filters r <=? index then Ret true else
  start ← read_offset r index;
  limit ← (if index + 1 <? num_filters r then read_offset r (index + 1)
           else Ret (offset_array_start r));
  if (start <=? limit) && (limit <=? offset_array_start r) then
    if start =? limit then Ret false
    else
      filter ← slice (data r) start limit;
      Filter.key_may_match (policy r) key filter
  else Ret true.
End FilterBlockReader.
Arguments t : clear implicits.
End FilterBlockReader.

(** ** The builder's state as groups of keys *)

(** Offsets of consecutive slices, the first at [a]. *)
Fixpoint starts_from (a : Z) (ks : list bytes) : list Z :=
  match ks with [] => [] | k :: ks => a :: starts_from (a + len k) ks end.

Lemma starts_from_snoc a ks k : starts_from a (ks ++ [k]) = starts_from a ks ++ [a + len (concat ks)].
Proof.
  revert a. induction ks as [|x ks IH]; intros a; cbn; [by rewrite Z.add_0_r|].
  rewrite IH, len_app. by rewrite Z.add_assoc.
Qed.

Lemma len_starts_from a ks : len (starts_from a ks) = len ks.
Proof. revert a. induction ks as [|k ks IH]; intros a; [done|]. cbn [starts_from]. by rewrite !len_cons, IH. Qed.

Lemma key_slices_ok pre ks :
  FilterBlockBuilder.key_slices (pre ++ concat ks) (starts_from (len pre) ks ++ [len pre + len (concat ks)])
  = Ret ks.
Proof.
  revert pre. induction ks as [|k ks IH]; intros pre; [done|].
  cbn [starts_from app concat]. rewrite len_app.
  assert (Hs : slice (pre ++ k ++ concat ks) (len pre) (len pre + len k) = Ret k) by by apply slice_app.
  specialize (IH (pre ++ k)). rewrite len_app, <- app_assoc, <- Z.add_assoc in IH.
  destruct ks as [|k2 ks]; cbn [starts_from app] in *; cbn [FilterBlockBuilder.key_slices] in *.
  - rewrite Z.add_0_r, Hs. done.
  - rewrite Hs. cbn [mbind outcome_bind]. rewrite IH. done.
Qed.

(** Where each filter starts in the result. *)
Definition foff (fs : list bytes) (i : nat) : Z := len (concat (take i fs)).

Lemma foff_S fs i f : fs !! i = Some f -> foff fs (S i) = foff fs i + len f.
Proof.
  intros Hi. unfold foff. rewrite (take_S_r _ _ _ Hi), concat_app, len_app. cbn. by rewrite app_nil_r.
Qed.
Lemma foff_bound fs i : 0 <= foff fs i <= len (concat fs).
Proof.
  assert (E : concat fs = concat (take i fs) ++ concat (drop i fs)) by by rewrite <- concat_app, take_drop.
  rewrite E, len_app. unfold foff. len_pose. lia.
Qed.
Lemma concat_split (fs : list bytes) (i : nat) (f : bytes) : fs !! i = Some f ->
  concat fs = concat (take i fs) ++ f ++ concat (drop (S i) fs).
Proof.
  intros Hi. transitivity (concat (take i fs ++ f :: drop (S i) fs)); [by rewrite take_drop_middle|].
  by rewrite concat_app.
Qed.

Section filter_block.
Context {P : Type} `{FilterPolicy P} (p : P) (keys_ok : list bytes -> Prop)
        {Hp : FilterLaws p keys_ok}.
Implicit Types b : FilterBlockBuilder.t P.

(** [f] is a filter for the keys of [g]. *)
Definition filter_for (g : list bytes) (f : bytes) : Prop :=
  (f = [] -> g = []) /\ forall k, k ∈ g -> key_may_match p k f = Ret true.

(** The builder has emitted filters [fs] for the key groups [gs] and holds [pend]. *)
Record fb_ok b (gs : list (list bytes)) (fs : list bytes) (pend : list bytes) : Prop := {
  fb_policy : FilterBlockBuilder.policy b = p;
  fb_keys : FilterBlockBuilder.keys b = concat pend;
  fb_start : FilterBlockBuilder.start b = starts_from 0 pend;
  fb_result : FilterBlockBuilder.result b = concat fs;
  fb_offsets : FilterBlockBuilder.filter_offsets b
    = map (fun i => as_u32 (foff fs i)) (seq 0 (length fs));
  fb_filters : Forall2 filter_for gs fs;
}.

Lemma fb_new : fb_ok (FilterBlockBuilder.new p) [] [] [].
Proof. by split. Qed.

Lemma fb_offsets_snoc fs f :
  map (fun i => as_u32 (foff fs i)) (seq 0 (length fs)) ++ [as_u32 (len (concat fs))]
  = map (fun i => as_u32 (foff (fs ++ [f]) i)) (seq 0 (length (fs ++ [f]))).
Proof.
  rewrite length_app. cbn. rewrite seq_app, map_app. cbn. f_equal.
  - apply map_ext_in. intros i Hi%in_seq. unfold foff. by rewrite take_app_le by lia.
  - unfold foff. by rewrite take_app_length.
Qed.

Lemma fb_generate b gs fs pend : fb_ok b gs fs pend -> keys_ok pend ->
  exists b' f, FilterBlockBuilder.generate_filter b = Ret b' /\
    fb_ok b' (gs ++ [pend]) (fs ++ [f]) [].
Proof.
  intros [H1 H2 H3 H4 H5 H6] Hk. unfold FilterBlockBuilder.generate_filter.
  rewrite H3, len_starts_from, H1, H2, H4, H5. destruct (Z.eqb_spec (len pend) 0) as [E|E].
  - apply len_0_nil in E as ->. eexists _, []. split; [done|]. split; cbn; try done.
    + by rewrite concat_app, app_nil_r.
    + apply fb_offsets_snoc.
    + apply Forall2_app; [done|]. constructor; [|done]. split; [done|]. intros k Hin. by apply elem_of_nil in Hin.
  - pose proof (key_slices_ok [] pend) as Hs. rewrite len_nil in Hs. cbn [app] in Hs.
    rewrite Z.add_0_l in Hs. rewrite Hs. cbn [mbind outcome_bind].
    destruct (create_filter_law (p:=p) pend (concat fs) Hk) as (f & Hne & -> & Hm).
    cbn [mbind outcome_bind]. eexists _, f. split; [done|]. split; cbn; try done.
    + rewrite concat_app. cbn. by rewrite app_nil_r.
    + apply fb_offsets_snoc.
    + apply Forall2_app; [done|]. constructor; [|done]. by split.
Qed.

(** The key [k] added under offset [off] is in the group of that offset, emitted or
    pending. *)
Definition filed (gs : list (list bytes)) (pend : list bytes) (off : Z) (k : bytes) : Prop :=
  (exists g, gs !! Z.to_nat (off / FILTER_BASE) = Some g /\ k ∈ g) \/
  (len gs = off / FILTER_BASE /\ k ∈ pend).

Lemma filed_push gs pend off k : filed gs pend off k -> filed (gs ++ [pend]) [] off k.
Proof.
  intros [(g & Hg & Hk)|[Hl Hk]]; left.
  - exists g. split; [|done]. by apply lookup_app_l_Some.
  - exists pend. split; [|done]. rewrite <- Hl. unfold len. rewrite Nat2Z.id.
    by rewrite lookup_app_r, Nat.sub_diag by done.
Qed.

Lemma Forall2_len {A B} (R : A -> B -> Prop) l k : Forall2 R l k -> len l = len k.
Proof. intros Hf. unfold len. f_equal. by eapply Forall2_length. Qed.

Lemma fb_offsets_len b gs fs pend : fb_ok b gs fs pend ->
  len (FilterBlockBuilder.filter_offsets b) = len gs.
Proof.
  intros [_ _ _ _ H5 H6]. rewrite H5, (Forall2_len _ _ _ H6). unfold len.
  by rewrite length_map, length_seq.
Qed.

Lemma fb_start_loop fuel b gs fs pend idx : fb_ok b gs fs pend ->
  (forall ks, ks = pend \/ ks = [] -> keys_ok ks) ->
  idx - len gs <= Z.of_nat fuel -> len gs <= idx ->
  exists b' gs' fs' pend', FilterBlockBuilder.start_loop fuel b idx = Ret b' /\
    fb_ok b' gs' fs' pend' /\ len gs' = idx /\ (pend' = pend \/ pend' = []) /\
    (forall off k, filed gs pend off k -> filed gs' pend' off k).
Proof.
  revert b gs fs pend. induction fuel as [|fuel IH]; intros b gs fs pend Hb Hk Hf Hle;
    cbn [FilterBlockBuilder.start_loop]; rewrite (fb_offsets_len _ _ _ _ Hb); zcase.
  1: lia.
  1, 3: exists b, gs, fs, pend; split_and!; [done|done|lia|by left|done].
  destruct (fb_generate _ _ _ _ Hb (Hk pend (or_introl eq_refl))) as (b1 & f & -> & Hb1).
  cbn [mbind outcome_bind].
  destruct (IH b1 (gs ++ [pend]) (fs ++ [f]) [] Hb1) as (b' & gs' & fs' & pend' & H1 & H2 & H3 & H4 & H5).
  - intros ks [->| ->]; apply Hk; by right.
  - rewrite len_app. change (len [pend]) with 1. lia.
  - rewrite len_app. change (len [pend]) with 1. lia.
  - exists b', gs', fs', pend'. split_and!; try done.
    + right. by destruct H4 as [->| ->].
    + intros off k Hfi. by apply H5, filed_push.
Qed.

Fixpoint add_block_keys b (keys : list bytes) : FilterBlockBuilder.t P :=
  match keys with [] => b | k :: keys => add_block_keys (FilterBlockBuilder.add_key b k) keys end.

Lemma fb_add_keys b gs fs pend keys : fb_ok b gs fs pend ->
  fb_ok (add_block_keys b keys) gs fs (pend ++ keys).
Proof.
  revert b pend. induction keys as [|k keys IH]; intros b pend Hb; [by rewrite app_nil_r|].
  cbn [add_block_keys]. replace (pend ++ k :: keys) with ((pend ++ [k]) ++ keys) by by rewrite <- app_assoc.
  apply IH. destruct Hb as [H1 H2 H3 H4 H5 H6]. split; cbn; try done.
  - rewrite H2, concat_app. cbn. by rewrite app_nil_r.
  - by rewrite starts_from_snoc, H3, H2.
Qed.

(** The table builder's calls: one [start_block] per data block, with its keys after. *)
Fixpoint run_blocks b (blocks : list (Z * list bytes)) : outcome (FilterBlockBuilder.t P) :=
  match blocks with
  | [] => Ret b
  | (off, keys) :: blocks =>
      b ← FilterBlockBuilder.start_block b off;
      run_blocks (add_block_keys b keys) blocks
  end.

Fixpoint offsets_from (lo : Z) (blocks : list (Z * list bytes)) : Prop :=
  match blocks with
  | [] => True
  | (off, _) :: blocks => lo <= off /\ offsets_from off blocks
  end.

Definition key_count (blocks : list (Z * list bytes)) : Z :=
  foldr (fun (blk : Z * list bytes) n => len blk.2 + n) 0 blocks.

Lemma filed_snoc gs pend keys off k : filed gs pend off k -> filed gs (pend ++ keys) off k.
Proof. intros [?|[? ?]]; [by left|right]. split; [done|]. apply elem_of_app. by left. Qed.

Lemma fb_run blocks b gs fs pend lo total : fb_ok b gs fs pend -> 0 <= lo -> len gs = lo / FILTER_BASE ->
  offsets_from lo blocks -> len pend + key_count blocks <= total ->
  (forall ks, len ks <= total -> keys_ok ks) ->
  exists b' gs' fs' pend', run_blocks b blocks = Ret b' /\ fb_ok b' gs' fs' pend' /\
    len pend' <= total /\
    (forall off k, filed gs pend off k -> filed gs' pend' off k) /\
    (forall off keys k, (off, keys) ∈ blocks -> k ∈ keys -> filed gs' pend' off k).
Proof.
  revert b gs fs pend lo. induction blocks as [|[off keys] blocks IH]; intros b gs fs pend lo Hb Hlo Hgs Ho Ht Hk.
  { exists b, gs, fs, pend. cbn in Ht. split_and!; try done; [lia|].
    intros off keys k Hin. by apply elem_of_nil in Hin. }
  destruct Ho as [Hle Ho]. cbn [key_count foldr snd] in Ht.
  change (foldr _ 0 blocks) with (key_count blocks) in Ht.
  assert (0 <= key_count blocks).
  { clear. induction blocks as [|[o ks] bl IH]; cbn; [lia|]. unfold key_count in IH. len_pose. lia. }
  cbn [run_blocks]. unfold FilterBlockBuilder.start_block.
  assert (Hdiv : len gs <= off / FILTER_BASE) by (rewrite Hgs; apply Z.div_le_mono; [done|lia]).
  destruct (fb_start_loop (Z.to_nat (off / FILTER_BASE - len (FilterBlockBuilder.filter_offsets b)))
    b gs fs pend (off / FILTER_BASE) Hb) as (b1 & gs1 & fs1 & p1 & -> & Hb1 & Hl1 & Hp1 & Hf1);
    [| |done|].
  { intros ks [->| ->]; apply Hk; len_pose; rewrite ?len_nil; lia. }
  { rewrite (fb_offsets_len _ _ _ _ Hb). lia. }
  cbn [mbind outcome_bind].
  destruct (IH (add_block_keys b1 keys) gs1 fs1 (p1 ++ keys) off) as (b' & gs' & fs' & p' & H1 & H2 & H3 & H4 & H5);
    [by apply fb_add_keys|lia|done|done| |done|].
  { rewrite len_app. destruct Hp1 as [->| ->]; rewrite ?len_nil; len_pose; lia. }
  exists b', gs', fs', p'. split_and!; [done|done|done|..].
  - intros o k Hfi. by apply H4, filed_snoc, Hf1.
  - intros o ks k [Heq|Hin]%elem_of_cons Hin'; [|by eapply H5]. simplify_eq.
    apply H4. right. split; [done|]. apply elem_of_app. by right.
Qed.

Lemma fb_finish b gs fs pend : fb_ok b gs fs pend -> keys_ok pend ->
  exists b' contents gs' fs', FilterBlockBuilder.finish b = Ret (b', contents) /\
    Forall2 filter_for gs' fs' /\
    contents = concat fs' ++ fixed32s (map (fun i => as_u32 (foff fs' i)) (seq 0 (length fs')))
      ++ to_le_bytes 4 (as_u32 (len (concat fs'))) ++ [as_u8 FILTER_BASE_LG] /\
    (forall off k, filed gs pend off k -> exists g, gs' !! Z.to_nat (off / FILTER_BASE) = Some g /\ k ∈ g).
Proof.
  intros Hb Hk. unfold FilterBlockBuilder.finish.
  rewrite (fb_start _ _ _ _ Hb), len_starts_from.
  assert (Hshape : forall b gs fs, fb_ok b gs fs [] ->
    put_fixed32 (fold_left put_fixed32 (FilterBlockBuilder.filter_offsets b) (FilterBlockBuilder.result b))
      (as_u32 (len (FilterBlockBuilder.result b))) ++ [as_u8 FILTER_BASE_LG]
    = concat fs ++ fixed32s (map (fun i => as_u32 (foff fs i)) (seq 0 (length fs)))
      ++ to_le_bytes 4 (as_u32 (len (concat fs))) ++ [as_u8 FILTER_BASE_LG]).
  { intros b0 gs0 fs0 [_ _ _ H4 H5 _]. rewrite H4, H5, fold_put_fixed32. unfold put_fixed32.
    by rewrite <- !app_assoc. }
  destruct (Z.eqb_spec (len pend) 0) as [E|E]; cbn [negb].
  - apply len_0_nil in E as ->. cbn [mbind outcome_bind]. do 2 eexists. exists gs, fs.
    split; [done|]. split; [apply Hb|]. split; [by eapply Hshape|].
    intros off k [?|[_ Hin]]; [done|]. by apply elem_of_nil in Hin.
  - destruct (fb_generate _ _ _ _ Hb Hk) as (b1 & f & -> & Hb1). cbn [mbind outcome_bind].
    do 2 eexists. exists (gs ++ [pend]), (fs ++ [f]). split; [done|]. split; [apply Hb1|].
    split; [by eapply Hshape|]. intros off k Hfi%filed_push.
    destruct Hfi as [?|[_ Hin]]; [done|]. by apply elem_of_nil in Hin.
Qed.

Lemma read_offset_ok (fs : list bytes) (i : nat) tail (r : FilterBlockReader.t P) :
  FilterBlockReader.data r
    = concat fs ++ fixed32s (map (fun i => as_u32 (foff fs i)) (seq 0 (length fs))) ++ tail ->
  FilterBlockReader.offset_array_start r = len (concat fs) -> len (concat fs) < 2 ^ 32 ->
  (i < length fs)%nat ->
  FilterBlockReader.read_offset r (Z.of_nat i) = Ret (foff fs i).
Proof.
  intros Hd Ha Hsz Hi. unfold FilterBlockReader.read_offset. rewrite Hd, Ha.
  set (xs := map _ (seq 0 (length fs))).
  assert (Hx : xs !! i = Some (as_u32 (foff fs i))).
  { unfold xs. rewrite list_lookup_fmap, lookup_seq_lt by done. done. }
  assert (len (fixed32s (take i xs)) = Z.of_nat i * 4) as Hl.
  { rewrite len_fixed32s. unfold len, xs. rewrite length_take, length_map, length_seq. lia. }
  rewrite (fixed32s_split _ _ _ Hx), <- !app_assoc, app_assoc.
  rewrite slice_app by (rewrite ?len_app, ?len_le_split; lia).
  cbn [mbind outcome_bind]. pose proof (foff_bound fs i).
  rewrite as_u32_id by (unfold is_u32; lia). apply decode_fixed32_le. unfold is_u32. lia.
Qed.

(** What the reader answers: no filter for the offset, an empty one, or the policy's word. *)
Lemma filter_reader_spec fs contents :
  contents = concat fs ++ fixed32s (map (fun i => as_u32 (foff fs i)) (seq 0 (length fs)))
      ++ to_le_bytes 4 (as_u32 (len (concat fs))) ++ [as_u8 FILTER_BASE_LG] ->
  len contents < 2 ^ 32 ->
  exists r, FilterBlockReader.new p contents = Ret (Some r) /\
    forall off k, 0 <= off -> FilterBlockReader.key_may_match r off k =
      match fs !! Z.to_nat (off / FILTER_BASE) with
      | None => Ret true
      | Some [] => Ret false
      | Some f => key_may_match p k f
      end.
Proof.
  intros Hc Hsz. set (offs := fixed32s _) in Hc.
  assert (Hlo : len offs = 4 * len fs).
  { unfold offs. rewrite len_fixed32s. unfold len. by rewrite length_map, length_seq. }
  assert (Hlen : len contents = len (concat fs) + 4 * len fs + 5).
  { rewrite Hc, !len_app, Hlo, len_le_split. change (len [as_u8 FILTER_BASE_LG]) with 1. lia. }
  pose proof (len_nonneg (concat fs)). pose proof (len_nonneg fs).
  assert (Hu : is_u32 (len (concat fs))) by (unfold is_u32; lia).
  rewrite as_u32_id in Hc by done.
  set (r := FilterBlockReader.mk p contents (len (concat fs)) (len fs) 11).
  assert (Hnew : FilterBlockReader.new p contents = Ret (Some r)).
  { unfold FilterBlockReader.new. rewrite (proj2 (Z.ltb_ge _ _)) by lia.
    rewrite (index_ok _ _ (as_u8 FILTER_BASE_LG)).
    2: lia.
    2: { rewrite Hlen, Hc, !app_assoc. unfold len in *. rewrite lookup_app_r.
         - rewrite !length_app, length_le_split. match goal with |- [_] !! ?n = _ => replace n with 0%nat by lia end. done.
         - rewrite !length_app, length_le_split. lia. }
    cbn [mbind outcome_bind].
    assert (slice contents (len contents - 5) (len contents - 1) = Ret (to_le_bytes 4 (len (concat fs)))) as ->.
    { rewrite Hlen. rewrite Hc. rewrite (app_assoc (concat fs) offs).
      apply slice_app; rewrite len_app, ?len_le_split; cbn [Z.of_nat]; lia. }
    cbn [mbind outcome_bind]. rewrite decode_fixed32_le by done. cbn [mbind outcome_bind].
    rewrite (proj2 (Z.ltb_ge _ _)) by lia.
    replace (len contents - 5 - len (concat fs)) with (len fs * 4) by lia.
    by rewrite Z.div_mul. }
  exists r. split; [exact Hnew|]. intros off k Hoff.
  unfold FilterBlockReader.key_may_match. cbn [FilterBlockReader.base_lg FilterBlockReader.num_filters
    FilterBlockReader.offset_array_start r].
  set (i := Z.to_nat (off / FILTER_BASE)) in *.
  assert (Hi : Z.shiftr off (11 mod 64) = Z.of_nat i).
  { change (11 mod 64) with 11. rewrite Z.shiftr_div_pow2 by lia. unfold i.
    change FILTER_BASE with (2 ^ 11). rewrite Z2Nat.id; [done|]. apply Z.div_pos; lia. }
  rewrite Hi.
  destruct (fs !! i) as [f|] eqn:Hfi.
  2: { apply lookup_ge_None in Hfi. by rewrite (proj2 (Z.leb_le _ _)) by (unfold len; lia). }
  pose proof (lookup_lt_Some _ _ _ Hfi) as Hlt.
  rewrite (proj2 (Z.leb_gt _ _)) by (unfold len; lia).
  assert (Hro : forall j, (j < length fs)%nat -> FilterBlockReader.read_offset r (Z.of_nat j) = Ret (foff fs j)).
  { intros j Hj. apply (read_offset_ok fs j (to_le_bytes 4 (len (concat fs)) ++ [as_u8 FILTER_BASE_LG]));
      [exact Hc|done|lia|done]. }
  rewrite (Hro i Hlt). cbn [mbind outcome_bind].
  assert (Hlim : (if Z.of_nat i + 1 <? len fs then FilterBlockReader.read_offset r (Z.of_nat i + 1)
    else Ret (len (concat fs))) = Ret (foff fs (S i))).
  { replace (Z.of_nat i + 1) with (Z.of_nat (S i)) by lia. zcase.
    - apply Hro. unfold len in *. lia.
    - f_equal. unfold foff. rewrite take_ge; [done|]. unfold len in *. lia. }
  rewrite Hlim. cbn [mbind outcome_bind].
  pose proof (foff_S _ _ _ Hfi) as HS. pose proof (foff_bound fs (S i)). pose proof (len_nonneg f).
  rewrite !(proj2 (Z.leb_le _ _)) by lia. cbn [andb].
  destruct (Z.eqb_spec (foff fs i) (foff fs (S i))) as [E|E].
  { assert (f = []) as -> by (apply len_0_nil; lia). done. }
  destruct f as [|x f]; [rewrite len_nil in HS; lia|].
  assert (slice (FilterBlockReader.data r) (foff fs i) (foff fs (S i)) = Ret (x :: f)) as ->.
  { cbn [FilterBlockReader.data r]. rewrite Hc, (concat_split _ _ _ Hfi), <- !app_assoc.
    apply slice_app; [done|]. rewrite HS. done. }
  done.
Qed.

Lemma filter_reader_ok gs fs contents : Forall2 filter_for gs fs ->
  contents = concat fs ++ fixed32s (map (fun i => as_u32 (foff fs i)) (seq 0 (length fs)))
      ++ to_le_bytes 4 (as_u32 (len (concat fs))) ++ [as_u8 FILTER_BASE_LG] ->
  len contents < 2 ^ 32 ->
  exists r, FilterBlockReader.new p contents = Ret (Some r) /\
    (forall off k g, 0 <= off -> gs !! Z.to_nat (off / FILTER_BASE) = Some g -> k ∈ g ->
      FilterBlockReader.key_may_match r off k = Ret true) /\
    (forall off k, 0 <= off -> exists m, FilterBlockReader.key_may_match r off k = Ret m).
Proof.
  intros Hf Hc Hsz. destruct (filter_reader_spec fs contents Hc Hsz) as (r & Hr & Hm). exists r. split; [done|]. split.
  - intros off k g Hoff Hg Hk. rewrite Hm by done. destruct (Forall2_lookup_l _ _ _ _ _ Hf Hg) as (f & Hfi & Hne & Hmf).
    rewrite Hfi. destruct f; [|by apply Hmf]. rewrite Hne in Hk by done. by apply elem_of_nil in Hk.
  - intros off k Hoff. rewrite Hm by done. destruct (fs !! _) as [[|x f]|]; [by eexists| |by eexists].
    apply (match_total_law (p:=p) (keys_ok:=keys_ok)).
Qed.
End filter_block.

(** ** Claims *)

(** A whole filter block, as the table builder makes it. *)
Definition build_filter_block {P} `{FilterPolicy P} (p : P) (blocks : list (Z * list bytes))
  : outcome bytes :=
  b ← run_blocks (FilterBlockBuilder.new p) blocks;
  r ← FilterBlockBuilder.finish b;
  Ret r.2.

(** C30: (filter block) Whatever policy keeps the no-false-negative law, a filter block built
    for data blocks at non-decreasing offsets answers "may match" for every key under
    its block's offset: the builder's grouping by 2 KiB and the reader's shift agree, and
    the empty filters of skipped ranges never hide a key. *)
Theorem filter_block_no_false_negatives {P} `{FilterPolicy P} (p : P) keys_ok
    `{!FilterLaws p keys_ok} blocks contents :
  offsets_from 0 blocks -> (forall ks, len ks <= key_count blocks -> keys_ok ks) ->
  build_filter_block p blocks = Ret contents -> len contents < 2 ^ 32 ->
  exists r, FilterBlockReader.new p contents = Ret (Some r) /\
    forall off keys k, (off, keys) ∈ blocks -> k ∈ keys -> 0 <= off ->
      FilterBlockReader.key_may_match r off k = Ret true.
Proof.
  intros Ho Hk Hbuild Hsz. unfold build_filter_block in Hbuild.
  destruct (fb_run p keys_ok blocks _ [] [] [] 0 (key_count blocks) (fb_new p))
    as (b & gs & fs & pend & E & Hb & Hlp & _ & Hfiled); [lia|done|done|rewrite len_nil; lia|done|].
  rewrite E in Hbuild. cbn [mbind outcome_bind] in Hbuild.
  destruct (fb_finish p keys_ok _ _ _ _ Hb (Hk _ Hlp)) as (b' & c & gs' & fs' & E' & Hf & Hc & Hg).
  rewrite E' in Hbuild. cbn [mbind outcome_bind snd] in Hbuild.
  assert (c = contents) as -> by congruence.
  destruct (filter_reader_ok p keys_ok gs' fs' contents Hf Hc Hsz) as (r & Hnew & Hr & _).
  exists r. split; [exact Hnew|]. intros off keys k Hin Hin' Hoff.
  destruct (Hg off k (Hfiled _ _ _ Hin Hin')) as (g & Hg1 & Hg2). by eapply Hr.
Qed.

Lemma filter_block_no_false_negatives_witness :
  let p := Bloom.new 10 in
  let blocks := [(0, map list_byte_of_string ["a"; "b"]); (9000, map list_byte_of_string ["c"])]%string in
  exists contents r, build_filter_block p blocks = Ret contents /\
    FilterBlockReader.new p contents = Ret (Some r) /\
    forall off keys k, (off, keys) ∈ blocks -> k ∈ keys -> 0 <= off ->
      FilterBlockReader.key_may_match r off k = Ret true.
Proof.
  intros p blocks.
  assert (E : is_ret (build_filter_block p blocks) = true) by (vm_compute; reflexivity).
  assert (L : match build_filter_block p blocks with Ret c => len c <? 2 ^ 32 | _ => false end = true)
    by (vm_compute; reflexivity).
  destruct (build_filter_block p blocks) as [contents| |] eqn:Hc; [|done|done]. apply Z.ltb_lt in L.
  exists contents.
  destruct (filter_block_no_false_negatives p (bloom_keys_ok p) (FilterLaws0 := Bloom_Laws p (bloom_new_ok 10 ltac:(lia)))
    blocks contents) as (r & H1 & H2); [by cbn; split_and!; lia| |done|done|].
  - intros ks Hks. unfold bloom_keys_ok. change (bits_per_key p) with 10.
    change (key_count blocks) with 3 in Hks. len_pose. lia.
  - exists r. by split_and!.
Defined.
