(* ===== verification/Utf8.v ===== *)
(** * Utf8.v: [std::str::from_utf8].

    Which byte strings are UTF-8: the table of well-formed sequences of the Unicode
    standard (no overlong forms, no surrogates, nothing above U+10FFFF). *)
From S2P Require Import Prelude.

Definition in_range (a b : Z) (x : byte) : bool := (a <=? u8 x) && (u8 x <=? b).
Definition continuation : byte -> bool := in_range 0x80 0xbf.

Fixpoint utf8_loop (fuel : nat) (bs : bytes) : bool :=
  match fuel with
  | O => bool_decide (bs = [])
  | S fuel =>
      match bs with
      | [] => true
      | x :: bs =>
          if in_range 0x00 0x7f x then utf8_loop fuel bs else
          match bs with
          | [] => false
          | y :: bs =>
              if in_range 0xc2 0xdf x then continuation y && utf8_loop fuel bs else
              match bs with
              | [] => false
              | z :: bs =>
                  if in_range 0xe0 0xe0 x then in_range 0xa0 0xbf y && continuation z && utf8_loop fuel bs
                  else if in_range 0xed 0xed x then in_range 0x80 0x9f y && continuation z && utf8_loop fuel bs
                  else if in_range 0xe1 0xef x then continuation y && continuation z && utf8_loop fuel bs
                  else
                  match bs with
                  | [] => false
                  | w :: bs =>
                      if in_range 0xf0 0xf0 x then in_range 0x90 0xbf y && continuation z && continuation w && utf8_loop fuel bs
                      else if in_range 0xf1 0xf3 x then continuation y && continuation z && continuation w && utf8_loop fuel bs
                      else if in_range 0xf4 0xf4 x then in_range 0x80 0x8f y && continuation z && continuation w && utf8_loop fuel bs
                      else false
                  end
              end
          end
      end
  end.
Definition from_utf8 (bs : bytes) : option string := if utf8_loop (length bs) bs then Some (string_of_list_byte bs) else None.

Definition ascii (bs : bytes) : Prop := Forall (fun x => u8 x < 128) bs.
Lemma from_utf8_ascii bs : ascii bs -> from_utf8 bs = Some (string_of_list_byte bs).
Proof.
  intros Ha. unfold from_utf8. assert (utf8_loop (length bs) bs = true) as ->; [|done].
  induction Ha as [|x bs Hx _ IH]; [done|]. cbn [utf8_loop length]. unfold in_range at 1.
  pose proof (u8_range x). rewrite (proj2 (Z.leb_le 0 _)), (proj2 (Z.leb_le _ 0x7f)) by lia. exact IH.
Qed.
