(* ===== verification/Env.v ===== *)
(** * Env.v: [env/env.rs].

    The traits [WritableFile], [RandomAccessFile], [SequentialFile] and [Env] as one
    interface over a file-system state [W], the laws the log relies on, and the
    in-memory environment [MemEnv] with its shared buffers: a file name maps to a
    buffer, open handles hold the buffer and not the name, so truncation, renaming and
    deletion act on handles exactly as the code's [Arc]s do. *)
From S2P Require Import Prelude Status.

(** A path is its list of components. *)
Abbreviation path := (list string) (only parsing).
Definition display (p : path) : string := String.concat "/" p.

Inductive SyncMode := Full | Data.

(** ** The traits *)

Class Env (W : Type) := {
  Writable : Type;
  RandomAccess : Type;
  Sequential : Type;
  Lock : Type;
  w_append : Writable -> bytes -> action W unit;
  w_flush : Writable -> action W unit;
  w_sync : Writable -> action W unit;
  w_close : Writable -> action W Writable;
  read_at : RandomAccess -> Z -> Z -> action W bytes;
  seq_read : Sequential -> Z -> action W (bytes * Sequential);
  seq_skip : Sequential -> Z -> action W Sequential;
  new_writable_file : path -> action W Writable;
  set_sync_mode : SyncMode -> W -> W;
  new_random_access_file : path -> action W RandomAccess;
  new_sequential_file : path -> action W Sequential;
  lock_file : path -> action W Lock;
  drop_lock : Lock -> W -> W;
  read_file : path -> action W bytes;
  write_file : path -> bytes -> action W unit;
  append_file : path -> bytes -> action W unit;
  file_exists : path -> W -> bool;
  delete_file : path -> action W unit;
  rename_file : path -> path -> action W unit;
  get_file_size : path -> action W Z;
  list_dir : path -> action W (list path);
  create_dir : path -> action W unit;
  sync_file : path -> action W unit;
  delete_dir : path -> action W unit;
}.

(** The default [SequentialFile::skip]: chunks of 8192 bytes until [n] are read or the
    file ends.  Every round reads at least a byte, so [n] rounds are enough. *)
Fixpoint default_skip {W} `{Env W} (fuel : nat) (f : Sequential) (n : Z) : action W Sequential :=
  if 0 <? n then
    match fuel with
    | O => lift Panic
    | S fuel =>
        r ← seq_read f (Z.min n 8192);
        if bool_decide (r.1 = []) then mret r.2
        else default_skip fuel r.2 (Z.max 0 (n - len r.1))
    end
  else mret f.

(** What the log writer relies on: appending to an open file extends its contents and
    nothing else is lost by flushing. *)
Class WritableLaws {W} `{Env W} (is_open : Writable -> Prop) (contents : Writable -> W -> bytes) : Prop := {
  append_law h d w : is_open h ->
    exists w', w_append h d w = (Ret tt, w') /\ contents h w' = contents h w ++ d;
  flush_law h w : is_open h ->
    exists w', w_flush h w = (Ret tt, w') /\ contents h w' = contents h w;
  sync_law h w : is_open h ->
    exists w', w_sync h w = (Ret tt, w') /\ contents h w' = contents h w;
}.

(** What the log reader relies on: a sequential file stands at the rest of its data, and
    [read n] returns the next [n] bytes, fewer only at the end. *)
Class SequentialLaws {W} `{Env W} (seq_ok : Sequential -> Prop) (rest : Sequential -> bytes) : Prop := {
  seq_read_law f n w : seq_ok f -> 0 <= n < 2 ^ 63 ->
    exists f', seq_read f n w = (Ret (ztake n (rest f), f'), w) /\ seq_ok f' /\
      rest f' = zdrop n (rest f);
}.

(** ** [MemEnv] *)

(** Buffers are shared, so they live in a heap: [files] names them, [bufs] holds their
    contents, [fresh] is the next allocation. *)
Record MemEnv := mk_mem {
  files : gmap path nat;
  bufs : gmap nat bytes;
  fresh : nat;
  locks : gset path;
}.

Module Mem.
Definition new : MemEnv := mk_mem ∅ ∅ 0 ∅.

Record writable := mk_writable { buf : nat; closed : bool }.
Record random_access := mk_random { ra_path : path; ra_data : bytes }.
Record sequential := mk_seq { sq_path : path; sq_data : bytes; sq_offset : Z }.
Record file_lock := mk_lock { lk_path : path }.

Definition get_buf (w : MemEnv) (b : nat) : bytes := default [] (bufs w !! b).
Definition set_buf (w : MemEnv) (b : nat) (d : bytes) : MemEnv :=
  mk_mem (files w) (<[b := d]> (bufs w)) (fresh w) (locks w).
(** [Arc::new(Mutex::new(d))] stored under [p]. *)
Definition alloc (w : MemEnv) (p : path) (d : bytes) : MemEnv :=
  mk_mem (<[p := fresh w]> (files w)) (<[fresh w := d]> (bufs w)) (S (fresh w)) (locks w).

Definition ensure_open (h : writable) (op : string) : outcome unit :=
  if closed h then Fail (Stat.io_error (op +:+ ": writable file is closed")) else Ret tt.

Definition append (h : writable) (d : bytes) : action MemEnv unit := fun w =>
  match ensure_open h "append" with
  | Ret _ => (Ret tt, set_buf w (buf h) (get_buf w (buf h) ++ d))
  | e => (e, w)
  end.
Definition flush (h : writable) : action MemEnv unit := lift (ensure_open h "flush").
Definition sync (h : writable) : action MemEnv unit := lift (ensure_open h "sync").
Definition close (h : writable) : action MemEnv writable := mret (mk_writable (buf h) true).

(** Offsets are [u64] and [usize] is 64 bits wide, so the first conversion never
    fails; [checked_add] may. *)
Definition read_at (f : random_access) (offset n : Z) : action MemEnv bytes := fun w =>
  if 2 ^ 64 <=? offset + n
  then (Fail (Stat.io_error ("random read length overflow: " +:+ display (ra_path f))), w)
  else if len (ra_data f) <? offset + n
  then (Fail (Stat.io_error ("short random read " +:+ display (ra_path f) +:+ " @"
               +:+ show_u64 offset +:+ "+" +:+ show_u64 n)), w)
  else (slice (ra_data f) offset (offset + n), w).

Definition seq_read (f : sequential) (n : Z) : action MemEnv (bytes * sequential) := fun w =>
  let end_ := Z.min (Z.min (sq_offset f + n) (2 ^ 64 - 1)) (len (sq_data f)) in
  (out ← slice (sq_data f) (sq_offset f) end_;
   Ret (out, mk_seq (sq_path f) (sq_data f) end_), w).
Definition seq_skip (f : sequential) (n : Z) : action MemEnv sequential :=
  mret (mk_seq (sq_path f) (sq_data f)
          (Z.min (Z.min (sq_offset f + n) (2 ^ 64 - 1)) (len (sq_data f)))).

Definition not_found {A} (p : path) : outcome A := Fail (Stat.io_error ("not found: " +:+ display p)).

(** A known path keeps its buffer, emptied: handles opened earlier see it. *)
Definition new_writable_file (p : path) : action MemEnv writable := fun w =>
  match files w !! p with
  | Some b => (Ret (mk_writable b false), set_buf w b [])
  | None => (Ret (mk_writable (fresh w) false), alloc w p [])
  end.
Definition read_file (p : path) : action MemEnv bytes := fun w =>
  match files w !! p with
  | Some b => (Ret (get_buf w b), w)
  | None => (not_found p, w)
  end.
Definition new_random_access_file (p : path) : action MemEnv random_access :=
  d ← read_file p; mret (mk_random p d).
Definition new_sequential_file (p : path) : action MemEnv sequential :=
  d ← read_file p; mret (mk_seq p d 0).

Definition lock_file (p : path) : action MemEnv file_lock := fun w =>
  if decide (p ∈ locks w)
  then (Fail (Stat.io_error ("lock " +:+ display p +:+ ": already held by process")), w)
  else
    let w := mk_mem (files w) (bufs w) (fresh w) ({[p]} ∪ locks w) in
    (Ret (mk_lock p), match files w !! p with Some _ => w | None => alloc w p [] end).
(** [impl Drop for MemFileLock] *)
Definition drop_lock (l : file_lock) (w : MemEnv) : MemEnv :=
  mk_mem (files w) (bufs w) (fresh w) (locks w ∖ {[lk_path l]}).

Definition write_file (p : path) (d : bytes) : action MemEnv unit := fun w => (Ret tt, alloc w p d).
Definition append_file (p : path) (d : bytes) : action MemEnv unit := fun w =>
  match files w !! p with
  | Some b => (Ret tt, set_buf w b (get_buf w b ++ d))
  | None => (Ret tt, alloc w p d)
  end.
Definition file_exists (p : path) (w : MemEnv) : bool := bool_decide (is_Some (files w !! p)).
Definition delete_file (p : path) : action MemEnv unit := fun w =>
  match files w !! p with
  | Some _ => (Ret tt, mk_mem (delete p (files w)) (bufs w) (fresh w) (locks w))
  | None => (not_found p, w)
  end.
Definition rename_file (src dst : path) : action MemEnv unit := fun w =>
  match files w !! src with
  | Some b => (Ret tt, mk_mem (<[dst := b]> (delete src (files w))) (bufs w) (fresh w) (locks w))
  | None => (Fail (Stat.io_error ("rename: src missing: " +:+ display src)), w)
  end.
Definition get_file_size (p : path) : action MemEnv Z := fun w =>
  match files w !! p with
  | Some b => (Ret (len (get_buf w b)), w)
  | None => (not_found p, w)
  end.

(** [p.starts_with(prefix)], by components. *)
Fixpoint strip_prefix (prefix p : path) : option path :=
  match prefix, p with
  | [], _ => Some p
  | x :: prefix, y :: p => if decide (x = y) then strip_prefix prefix p else None
  | _ :: _, [] => None
  end.

(** The order of paths, and insertion into a [BTreeSet]. *)
Fixpoint path_cmp (a b : path) : comparison :=
  match a, b with
  | [], [] => Eq
  | [], _ :: _ => Lt
  | _ :: _, [] => Gt
  | x :: a, y :: b => match String.compare x y with Eq => path_cmp a b | o => o end
  end.
Fixpoint insert_path (p : path) (l : list path) : list path :=
  match l with
  | [] => [p]
  | q :: l =>
      match path_cmp p q with
      | Lt => p :: q :: l
      | Eq => q :: l
      | Gt => q :: insert_path p l
      end
  end.

(** The direct children of [p]: the first component below it of every file. *)
Definition list_dir (p : path) : action MemEnv (list path) := fun w =>
  let child q :=
    match strip_prefix p q with
    | Some (first :: _) => Some (p ++ [first])
    | _ => None
    end in
  (Ret (fold_right insert_path [] (omap child (map fst (map_to_list (files w))))), w).

Definition create_dir (_ : path) : action MemEnv unit := mret tt.
(** The trait's default [sync_file] and [set_sync_mode]. *)
Definition sync_file (_ : path) : action MemEnv unit := mret tt.
Definition set_sync_mode (_ : SyncMode) (w : MemEnv) : MemEnv := w.
(** [files.retain(|p, _| !p.starts_with(path))] *)
Definition delete_dir (p : path) : action MemEnv unit := fun w =>
  (Ret tt, mk_mem (filter (fun kv => strip_prefix p kv.1 = None) (files w))
             (bufs w) (fresh w) (locks w)).
End Mem.

#[export] Instance MemEnv_Env : Env MemEnv := {|
  Writable := Mem.writable;
  RandomAccess := Mem.random_access;
  Sequential := Mem.sequential;
  Lock := Mem.file_lock;
  w_append := Mem.append;
  w_flush := Mem.flush;
  w_sync := Mem.sync;
  w_close := Mem.close;
  read_at := Mem.read_at;
  seq_read := Mem.seq_read;
  seq_skip := Mem.seq_skip;
  new_writable_file := Mem.new_writable_file;
  set_sync_mode := Mem.set_sync_mode;
  new_random_access_file := Mem.new_random_access_file;
  new_sequential_file := Mem.new_sequential_file;
  lock_file := Mem.lock_file;
  drop_lock := Mem.drop_lock;
  read_file := Mem.read_file;
  write_file := Mem.write_file;
  append_file := Mem.append_file;
  file_exists := Mem.file_exists;
  delete_file := Mem.delete_file;
  rename_file := Mem.rename_file;
  get_file_size := Mem.get_file_size;
  list_dir := Mem.list_dir;
  create_dir := Mem.create_dir;
  sync_file := Mem.sync_file;
  delete_dir := Mem.delete_dir;
|}.

(** ** [MemEnv] keeps the laws *)

Definition mem_open (h : Mem.writable) : Prop := Mem.closed h = false.
Definition mem_contents (h : Mem.writable) (w : MemEnv) : bytes := Mem.get_buf w (Mem.buf h).

Lemma get_set_buf w b d : Mem.get_buf (Mem.set_buf w b d) b = d.
Proof. unfold Mem.get_buf, Mem.set_buf. cbn. by rewrite lookup_insert_eq. Qed.

#[export] Instance Mem_WritableLaws : WritableLaws mem_open mem_contents.
Proof.
  split; intros h *; unfold mem_open, mem_contents; intros Ho; cbn.
  - unfold Mem.append, Mem.ensure_open. rewrite Ho. eexists. split; [done|]. by rewrite get_set_buf.
  - unfold Mem.flush, lift, Mem.ensure_open. rewrite Ho. by eexists.
  - unfold Mem.sync, lift, Mem.ensure_open. rewrite Ho. by eexists.
Qed.

(** A sequential file as it is opened and read: the offset is inside the data, and the
    data is a [Vec]. *)
Definition mem_seq_ok (f : Mem.sequential) : Prop :=
  0 <= Mem.sq_offset f <= len (Mem.sq_data f) /\ len (Mem.sq_data f) < 2 ^ 63.
Definition mem_rest (f : Mem.sequential) : bytes := zdrop (Mem.sq_offset f) (Mem.sq_data f).

#[export] Instance Mem_SequentialLaws : SequentialLaws mem_seq_ok mem_rest.
Proof.
  split. intros f n w [Ho Hd] Hn. cbn. unfold Mem.seq_read.
  remember (Z.min (Z.min _ _) _) as e eqn:Ee.
  assert (He : Mem.sq_offset f <= e <= len (Mem.sq_data f)) by lia.
  rewrite slice_ok by lia. cbn [mbind outcome_bind].
  exists (Mem.mk_seq (Mem.sq_path f) (Mem.sq_data f) e). unfold mem_rest.
  pose proof (len_zdrop (Mem.sq_offset f) (Mem.sq_data f) ltac:(lia)) as Hl.
  destruct (Z.le_gt_cases (Mem.sq_offset f + n) (len (Mem.sq_data f))) as [Hle|Hgt].
  - assert (e = Mem.sq_offset f + n) as -> by lia. rewrite zdrop_zdrop by lia.
    replace (Mem.sq_offset f + n - Mem.sq_offset f) with n by lia. split_and!; [done|split; cbn; lia|done].
  - assert (e = len (Mem.sq_data f)) as -> by lia. cbn [Mem.sq_offset Mem.sq_data].
    rewrite !ztake_all by lia.
    rewrite (zdrop_all _ n), (zdrop_all (Mem.sq_data f) (len _)) by lia. split_and!; [done|split; cbn; lia|done].
Qed.

(** ** [MemEnv] as a map from paths to contents *)

(** Distinct names have distinct, allocated buffers. *)
Record mem_wf (w : MemEnv) : Prop := {
  wf_inj p q b : files w !! p = Some b -> files w !! q = Some b -> p = q;
  wf_fresh p b : files w !! p = Some b -> (b < fresh w)%nat;
}.

Definition view (w : MemEnv) : gmap path bytes := Mem.get_buf w <$> files w.

#[global] Arguments view : simpl never.

Lemma view_lookup w p : view w !! p = Mem.get_buf w <$> files w !! p.
Proof. apply lookup_fmap. Qed.

Lemma new_wf : mem_wf Mem.new.
Proof. split; intros *; cbn; by rewrite lookup_empty. Qed.

Lemma alloc_wf w p d : mem_wf w -> mem_wf (Mem.alloc w p d).
Proof.
  intros [Hi Hf]. split; cbn.
  - intros p1 p2 b [[<- <-]|[? H1]]%lookup_insert_Some [[<- Hb]|[? H2]]%lookup_insert_Some; try done.
    + by apply Hf in H2; lia.
    + subst. by apply Hf in H1; lia.
    + by eapply Hi.
  - intros p1 b [[<- <-]|[? H1]]%lookup_insert_Some; [lia|]. apply Hf in H1. lia.
Qed.

Lemma alloc_view w p d : mem_wf w -> view (Mem.alloc w p d) = <[p := d]> (view w).
Proof.
  intros [Hi Hf]. apply map_eq. intros q. rewrite view_lookup. cbn.
  destruct (decide (p = q)) as [->|Hne].
  - rewrite !lookup_insert_eq. cbn. unfold Mem.get_buf. cbn. by rewrite lookup_insert_eq.
  - rewrite !lookup_insert_ne, view_lookup by done.
    destruct (files w !! q) as [b|] eqn:E; [|done]. cbn. f_equal. unfold Mem.get_buf. cbn.
    apply Hf in E. by rewrite lookup_insert_ne by lia.
Qed.

Lemma set_buf_wf w b d : mem_wf w -> mem_wf (Mem.set_buf w b d).
Proof. intros [Hi Hf]. by split. Qed.

Lemma set_buf_view w p b d : mem_wf w -> files w !! p = Some b ->
  view (Mem.set_buf w b d) = <[p := d]> (view w).
Proof.
  intros [Hi Hf] Hp. apply map_eq. intros q. rewrite view_lookup. cbn.
  destruct (decide (p = q)) as [->|Hne].
  - rewrite Hp, lookup_insert_eq. cbn. by rewrite get_set_buf.
  - rewrite lookup_insert_ne, view_lookup by done.
    destruct (files w !! q) as [b'|] eqn:E; [|done]. cbn. f_equal. unfold Mem.get_buf. cbn.
    rewrite lookup_insert_ne; [done|]. intros <-. apply Hne. by eapply Hi.
Qed.

Lemma delete_file_spec w p c : mem_wf w -> view w !! p = Some c ->
  exists w', Mem.delete_file p w = (Ret tt, w') /\ mem_wf w' /\ view w' = delete p (view w).
Proof.
  intros [Hi Hf] Hc. rewrite view_lookup in Hc. unfold Mem.delete_file.
  destruct (files w !! p) as [b|] eqn:E; simplify_eq/=. eexists. split; [done|]. split.
  - split; cbn.
    + intros p1 p2 b' [_ H1]%lookup_delete_Some [_ H2]%lookup_delete_Some. by eapply Hi.
    + intros p1 b' [_ H1]%lookup_delete_Some. by eapply Hf.
  - unfold view at 1. cbn. unfold view. by rewrite fmap_delete.
Qed.

Lemma rename_file_spec w p q c : mem_wf w -> view w !! p = Some c ->
  exists w', Mem.rename_file p q w = (Ret tt, w') /\ mem_wf w' /\ view w' = <[q := c]> (delete p (view w)).
Proof.
  intros [Hi Hf] Hc. rewrite view_lookup in Hc. unfold Mem.rename_file.
  destruct (files w !! p) as [b|] eqn:E; simplify_eq/=. eexists. split; [done|]. split.
  - split; cbn.
    + intros p1 p2 b' [[<- <-]|[Hn1 [Hd1 H1]%lookup_delete_Some]]%lookup_insert_Some
        [[<- Hb]|[Hn2 [Hd2 H2]%lookup_delete_Some]]%lookup_insert_Some; try done.
      * by destruct (Hi _ _ _ E H2).
      * subst. by destruct (Hi _ _ _ E H1).
      * by eapply Hi.
    + intros p1 b' [[<- <-]|[_ [_ H1]%lookup_delete_Some]]%lookup_insert_Some; by eapply Hf.
  - unfold view at 1. cbn. unfold view. by rewrite fmap_insert, fmap_delete.
Qed.

(** Creating a file and appending once. *)
Lemma new_writable_spec w p d : mem_wf w ->
  exists h w', Mem.new_writable_file p w = (Ret h, w') /\ mem_wf w' /\ view w' = <[p := []]> (view w) /\
    mem_open h /\
    exists w'', Mem.append h d w' = (Ret tt, w'') /\ mem_wf w'' /\ view w'' = <[p := d]> (view w).
Proof.
  intros Hwf. unfold Mem.new_writable_file. destruct (files w !! p) as [b|] eqn:E.
  - do 2 eexists. split; [done|]. split; [by apply set_buf_wf|].
    split; [by apply set_buf_view|]. split; [done|]. cbn. eexists. split; [done|].
    split; [by do 2 apply set_buf_wf|]. rewrite get_set_buf. cbn.
    rewrite (set_buf_view _ p); [|by apply set_buf_wf|done].
    rewrite (set_buf_view _ p) by done. by rewrite insert_insert_eq.
  - do 2 eexists. split; [done|]. split; [by apply alloc_wf|].
    split; [by apply alloc_view|]. split; [done|]. cbn. eexists. split; [done|].
    split; [by apply set_buf_wf, alloc_wf|].
    assert (Mem.get_buf (Mem.alloc w p []) (fresh w) = []) as ->.
    { unfold Mem.get_buf. cbn. by rewrite lookup_insert_eq. }
    rewrite (set_buf_view _ p); [|by apply alloc_wf|cbn; by rewrite lookup_insert_eq].
    rewrite alloc_view by done. by rewrite insert_insert_eq.
Qed.

(** ** Claims *)

(** MemEnv. Through its shared buffers, the in-memory environment behaves as a map
    from paths to contents: each operation preserves the absence of aliasing between
    names and acts on the map as documented, and a write handle stays attached to its
    file through appends. *)
Theorem mem_env_is_map w p q d : mem_wf w ->
  (exists w', write_file p d w = (Ret tt, w') /\ mem_wf w' /\ view w' = <[p := d]> (view w)) /\
  (exists w', append_file p d w = (Ret tt, w') /\ mem_wf w' /\
     view w' = <[p := default [] (view w !! p) ++ d]> (view w)) /\
  (forall c, view w !! p = Some c ->
     read_file p w = (Ret c, w) /\ get_file_size p w = (Ret (len c), w) /\
     (exists w', delete_file p w = (Ret tt, w') /\ mem_wf w' /\ view w' = delete p (view w)) /\
     (exists w', rename_file p q w = (Ret tt, w') /\ mem_wf w' /\ view w' = <[q := c]> (delete p (view w)))) /\
  (view w !! p = None ->
     (exists s, read_file p w = (Fail s, w)) /\ (exists s, delete_file p w = (Fail s, w)) /\
     (exists s, rename_file p q w = (Fail s, w))) /\
  (exists h w', new_writable_file p w = (Ret h, w') /\ mem_wf w' /\ view w' = <[p := []]> (view w) /\
     mem_open h /\
     exists w'', w_append h d w' = (Ret tt, w'') /\ mem_wf w'' /\ view w'' = <[p := d]> (view w)).
Proof.
  intros Hwf. cbn. split_and!.
  - eexists. split; [done|]. split; [by apply alloc_wf|by apply alloc_view].
  - unfold Mem.append_file. rewrite view_lookup. destruct (files w !! p) as [b|] eqn:E; cbn.
    + eexists. split; [done|]. split; [by apply set_buf_wf|by apply set_buf_view].
    + eexists. split; [done|]. split; [by apply alloc_wf|by apply alloc_view].
  - intros c Hc. split; [|split; [|split; [by eapply delete_file_spec|by apply rename_file_spec]]];
      rewrite view_lookup in Hc; unfold Mem.read_file, Mem.get_file_size;
      destruct (files w !! p); by simplify_eq/=.
  - intros Hn. rewrite view_lookup in Hn. unfold Mem.read_file, Mem.delete_file, Mem.rename_file.
    destruct (files w !! p) eqn:E; [done|]. split_and!; by eexists.
  - by apply new_writable_spec.
Qed.

