(* ===== verification/Sort.v ===== *)
(** * Sort.v: the stable sort of the standard library.

    [slice::sort_by] and [slice::sort] sort stably.  [sort_by] is an insertion sort over a
    comparison that may panic; on a total preorder a stable sort has one result, so this is
    the result of the library's.  [isort] is the sort without panics and its theory. *)
From S2P Require Import Prelude Status Comparator.
From Stdlib Require Import Sorting.Sorted.

Section sort_by.
Context {A : Type} (cmp : A -> A -> outcome comparison).

(** [x] goes before the first element that is not smaller. *)
Fixpoint sort_insert (x : A) (l : list A) : outcome (list A) :=
  match l with
  | [] => Ret [x]
  | y :: l' =>
      o ← cmp x y;
      if is_gt o then l' ← sort_insert x l'; Ret (y :: l') else Ret (x :: y :: l')
  end.
Fixpoint sort_by (l : list A) : outcome (list A) :=
  match l with
  | [] => Ret []
  | x :: l => l ← sort_by l; sort_insert x l
  end.
End sort_by.

Section isort.
Context {A : Type} (ord : A -> A -> comparison).

Fixpoint insert_sorted (x : A) (l : list A) : list A :=
  match l with
  | [] => [x]
  | y :: l' => if is_gt (ord x y) then y :: insert_sorted x l' else x :: y :: l'
  end.
Definition isort (l : list A) : list A := fold_right insert_sorted [] l.

Definition ord_sorted : list A -> Prop := StronglySorted (fun x y => ord x y <> Gt).

Lemma ord_sorted_lookup l i j a b : ord_sorted l -> (i < j)%nat -> l !! i = Some a -> l !! j = Some b -> ord a b <> Gt.
Proof.
  intros Hs. revert i j. induction Hs as [|x l Hs IH Hx]; intros i j Hij Ha Hb; [done|].
  destruct j as [|j]; [lia|]. destruct i as [|i]; [|by apply (IH i j); [lia|..]].
  injection Ha as <-. cbn in Hb. exact (proj1 (Forall_lookup _ _) Hx _ _ Hb).
Qed.
Lemma insert_sorted_perm x l : insert_sorted x l ≡ₚ x :: l.
Proof.
  induction l as [|y l IH]; [done|]. cbn [insert_sorted]. destruct (is_gt _); [|done].
  rewrite IH. constructor.
Qed.
Lemma isort_perm l : isort l ≡ₚ l.
Proof. induction l as [|x l IH]; [done|]. cbn. rewrite insert_sorted_perm. by constructor. Qed.

Lemma sort_insert_ok (cmp : A -> A -> outcome comparison) (P : A -> Prop) x l :
  (forall a b, P a -> P b -> cmp a b = Ret (ord a b)) -> P x -> Forall P l ->
  sort_insert cmp x l = Ret (insert_sorted x l).
Proof.
  intros Hc Hx. induction l as [|y l IH]; intros Hl; [done|]. apply Forall_cons in Hl as [Hy Hl].
  cbn [sort_insert insert_sorted]. rewrite Hc by done. cbn [mbind outcome_bind].
  destruct (is_gt (ord x y)); [|done]. by rewrite IH.
Qed.
Lemma sort_by_ok (cmp : A -> A -> outcome comparison) (P : A -> Prop) l :
  (forall a b, P a -> P b -> cmp a b = Ret (ord a b)) -> Forall P l -> sort_by cmp l = Ret (isort l).
Proof.
  intros Hc. induction l as [|x l IH]; intros Hl; [done|]. apply Forall_cons in Hl as [Hx Hl].
  cbn [sort_by]. rewrite IH by done. cbn [mbind outcome_bind]. apply (sort_insert_ok _ P); [done|done|].
  by rewrite isort_perm.
Qed.

Context `{!TotalOrd ord}.

Lemma insert_sorted_sorted x l : ord_sorted l -> ord_sorted (insert_sorted x l).
Proof.
  induction l as [|y l IH]; intros Hl; cbn [insert_sorted]; [by repeat constructor|].
  apply StronglySorted_inv in Hl as [Hl Hy].
  destruct (ord x y) eqn:E; cbn [is_gt].
  1,2: constructor; [by constructor|]; constructor; [by rewrite E|];
    apply (Forall_impl _ _ _ Hy); intros z Hz; by apply (ord_le_trans x y z); [rewrite E|].
  constructor; [by apply IH|]. apply ord_gt_lt in E.
  rewrite insert_sorted_perm. constructor; [by rewrite E|done].
Qed.
Lemma isort_sorted l : ord_sorted (isort l).
Proof. induction l as [|x l IH]; [constructor|]. by apply insert_sorted_sorted. Qed.

Lemma insert_sorted_head x l : Forall (fun y => ord x y <> Gt) l -> insert_sorted x l = x :: l.
Proof. destruct l as [|y l]; [done|]. intros [H _]%Forall_cons. cbn. by destruct (ord x y). Qed.
Lemma isort_id l : ord_sorted l -> isort l = l.
Proof.
  induction 1 as [|x l _ IH Hx]; [done|]. cbn. fold (isort l). rewrite IH. by apply insert_sorted_head.
Qed.

(** Sorting what is sorted in part: inserting elements in another order, as long as equal
    ones keep theirs. *)
Lemma insert_sorted_comm x y l : ord x y = Gt -> insert_sorted x (insert_sorted y l) = insert_sorted y (insert_sorted x l).
Proof.
  intros Hxy. induction l as [|z l IH]; cbn [insert_sorted].
  { cbn. rewrite Hxy. cbn. rewrite (ord_opp x y), Hxy. done. }
  assert (Hyx : ord y x = Lt) by (by apply ord_gt_lt).
  destruct (ord y z) eqn:Eyz; cbn [is_gt].
  3: { assert (ord x z = Gt) as Exz.
       { apply ord_gt_lt. apply ord_gt_lt in Eyz. exact (ord_lt_trans _ _ _ Eyz Hyx). }
       rewrite Exz. cbn [is_gt insert_sorted]. rewrite Exz, Eyz. cbn [is_gt]. by rewrite IH. }
  all: destruct (ord x z) eqn:Exz; cbn [is_gt]; cbn [insert_sorted]; rewrite ?Hxy; cbn [is_gt insert_sorted];
    rewrite ?Exz, ?Hyx, ?Eyz; cbn [is_gt]; done.
Qed.
Lemma foldr_insert_comm x l s :
  fold_right insert_sorted s (insert_sorted x l) = insert_sorted x (fold_right insert_sorted s l).
Proof.
  induction l as [|y l IH]; [done|]. cbn [insert_sorted]. destruct (ord x y) eqn:E; cbn [is_gt]; [done..|].
  cbn [fold_right]. rewrite IH. symmetry. by apply insert_sorted_comm.
Qed.
Lemma foldr_isort l s : fold_right insert_sorted s (isort l) = fold_right insert_sorted s l.
Proof.
  induction l as [|x l IH]; [done|]. change (isort (x :: l)) with (insert_sorted x (isort l)).
  rewrite foldr_insert_comm, IH. done.
Qed.
Lemma isort_app_l a b : isort (isort a ++ b) = isort (a ++ b).
Proof. unfold isort at 1 3. rewrite !fold_right_app. apply foldr_isort. Qed.

Lemma filter_insert (P : A -> Prop) `{!forall x, Decision (P x)} x l : ord_sorted l ->
  base.filter P (insert_sorted x l) = if decide (P x) then insert_sorted x (base.filter P l) else base.filter P l.
Proof.
  induction 1 as [|y l Hl IH Hy]; cbn [insert_sorted].
  { rewrite filter_cons, filter_nil. by destruct (decide (P x)). }
  destruct (is_gt (ord x y)) eqn:E.
  - rewrite !filter_cons, IH. destruct (decide (P y)), (decide (P x)); try done. cbn [insert_sorted]. by rewrite E.
  - rewrite filter_cons. destruct (decide (P x)); [|done]. symmetry. apply insert_sorted_head.
    assert (Hxy : ord x y <> Gt) by (by intros Hgt; rewrite Hgt in E).
    apply Forall_forall. intros z [_ [->|Hz]%elem_of_cons]%list_elem_of_filter; [done|].
    rewrite Forall_forall in Hy. by apply (ord_le_trans x y z), Hy.
Qed.
Lemma filter_isort (P : A -> Prop) `{!forall x, Decision (P x)} l :
  base.filter P (isort l) = isort (base.filter P l).
Proof.
  induction l as [|x l IH]; [done|]. cbn [isort fold_right]. fold (isort l). rewrite filter_insert by apply isort_sorted.
  rewrite IH, filter_cons. by destruct (decide (P x)).
Qed.
End isort.
