(* ===== verification/Cache.v ===== *)
(** * Cache.v: [cache/cache.rs].

    The sharded LRU cache.  A shard keeps its entries in a hash map with the time of
    their last access; handles are reference counted, and the strong counts are part of
    the state here ([strong], with [next_arc] naming fresh allocations), so that [prune]
    can ask which entries are still in use.  Every operation on a shard runs under its
    lock, so concurrent use is a sequence of these operations.

    [capacity] and charges are [usize] and their sums wrap; below 2^63 they do not. *)
From S2P Require Import Prelude Status Hash.

#[export] Instance byte_countable : Countable byte.
Proof. refine (inj_countable' byte.unsigned byte.of_Z _). apply byte.of_Z_unsigned. Defined.

Definition NUM_SHARD_BITS : Z := 4.
Definition NUM_SHARDS : Z := Z.shiftl 1 NUM_SHARD_BITS.

Record Entry (V : Type) := mk_entry { value : V; charge : Z }.
Arguments mk_entry {V} _ _.
Arguments value {V} _.
Arguments charge {V} _.

(** An [Arc<Entry<V>>]: which allocation, and what it points to. *)
Record CacheHandle (V : Type) := mk_handle { arc : nat; entry : Entry V }.
Arguments mk_handle {V} _ _.
Arguments arc {V} _.
Arguments entry {V} _.
Definition handle_value {V} (h : CacheHandle V) : V := value (entry h).
Definition handle_charge {V} (h : CacheHandle V) : Z := charge (entry h).

(** ** [FastHasher], the hasher of the shards' maps *)

Module FastHasher.
Definition K : Z := 0x517cc1b727220a95.
Definition rotate_left (w : Z) (n : Z) : Z := Z.lor (as_u64 (Z.shiftl w n)) (Z.shiftr w (64 - n)).
Definition mix (hash word : Z) : Z := as_u64 (Z.lxor (rotate_left hash 5) word * K).
(** The chunks of eight bytes, then the rest padded with zeros. *)
Fixpoint write_loop (fuel : nat) (hash : Z) (bs : bytes) : Z :=
  match fuel with
  | O => hash
  | S fuel =>
      if len bs =? 0 then hash
      else if 8 <=? len bs then write_loop fuel (mix hash (from_le_bytes (ztake 8 bs))) (zdrop 8 bs)
      else mix hash (from_le_bytes (bs ++ replicate (8 - length bs) Byte.x00))
  end.
Definition write (hash : Z) (bs : bytes) : Z := write_loop (length bs) hash bs.
Definition finish (hash : Z) : Z := hash.
End FastHasher.

(** ** [LruShard] *)

Record ShardEntry (V : Type) := mk_se { handle : CacheHandle V; last_access : Z }.
Arguments mk_se {V} _ _.
Arguments handle {V} _.
Arguments last_access {V} _.

Module LruShard.
Record t (V : Type) := mk {
  entries : gmap bytes (ShardEntry V);
  usage : Z;
  capacity : Z;
  counter : Z;
  strong : gmap nat nat;
  next_arc : nat;
}.
Arguments mk {V} _ _ _ _ _ _.
Arguments entries {V} _.
Arguments usage {V} _.
Arguments capacity {V} _.
Arguments counter {V} _.
Arguments strong {V} _.
Arguments next_arc {V} _.

Section ops.
Context {V : Type}.
Implicit Types self : t V.

Definition new (capacity : Z) : t V := mk ∅ 0 capacity 0 ∅ 0.

(** [Arc::clone] and the drop of an [Arc]. *)
Definition arc_clone (a : nat) self : t V :=
  mk (entries self) (usage self) (capacity self) (counter self) (alter S a (strong self)) (next_arc self).
Definition arc_drop (a : nat) self : t V :=
  mk (entries self) (usage self) (capacity self) (counter self) (alter Nat.pred a (strong self)) (next_arc self).
Definition strong_count self (a : nat) : nat := default 0%nat (strong self !! a).

Definition saturating_sub (a b : Z) : Z := Z.max 0 (a - b).

(** [if let Some(old) = self.entries.remove(key) {..}]; [old] is dropped after it. *)
Definition erase self (key : bytes) : t V :=
  match entries self !! key with
  | Some old =>
      arc_drop (arc (handle old))
        (mk (delete key (entries self)) (saturating_sub (usage self) (handle_charge (handle old)))
            (capacity self) (counter self) (strong self) (next_arc self))
  | None => self
  end.

(** [min_by_key(|(_, e)| e.last_access)]: the first minimum in iteration order. *)
Fixpoint min_access (l : list (bytes * ShardEntry V)) : option (bytes * ShardEntry V) :=
  match l with
  | [] => None
  | x :: l =>
      match min_access l with
      | Some y => if last_access y.2 <? last_access x.2 then Some y else Some x
      | None => Some x
      end
  end.
Definition evict_oldest self : t V :=
  match min_access (map_to_list (entries self)) with
  | Some (k, _) => erase self k
  | None => self
  end.

(** [while self.usage + charge > self.capacity && !self.entries.is_empty()]. *)
Fixpoint evict_loop (fuel : nat) self (charge : Z) : outcome (t V) :=
  if (as_u64 (usage self + charge) >? capacity self) && negb (bool_decide (entries self = ∅)) then
    match fuel with O => Panic | S fuel => evict_loop fuel (evict_oldest self) charge end
  else Ret self.

Definition insert self (key : bytes) (v : V) (charge : Z) : outcome (CacheHandle V * t V) :=
  let self := erase self key in
  self ← evict_loop (size (entries self)) self charge;
  let h := mk_handle (next_arc self) (mk_entry v charge) in
  let counter := as_u64 (counter self + 1) in
  Ret (h, mk (<[key := mk_se h counter]> (entries self)) (as_u64 (usage self + charge)) (capacity self) counter
            (<[next_arc self := 2%nat]> (strong self)) (S (next_arc self))).

Definition lookup self (key : bytes) : option (CacheHandle V) * t V :=
  let counter := as_u64 (counter self + 1) in
  match entries self !! key with
  | None => (None, mk (entries self) (usage self) (capacity self) counter (strong self) (next_arc self))
  | Some e =>
      (Some (handle e),
       arc_clone (arc (handle e))
         (mk (<[key := mk_se (handle e) counter]> (entries self)) (usage self) (capacity self) counter
             (strong self) (next_arc self)))
  end.

(** [retain]: what is not kept is dropped. *)
Definition kept self (x : bytes * ShardEntry V) : Prop := (1 < strong_count self (arc (handle x.2)))%nat.
#[export] Instance kept_dec self x : Decision (kept self x).
Proof. unfold kept. apply _. Defined.
Definition total (l : list (ShardEntry V)) : Z := foldr (fun e n => charge (entry (handle e)) + n) 0 l.
Definition prune self : t V :=
  let keep := filter (kept self) (entries self) in
  let gone := filter (fun x => ~ kept self x) (entries self) in
  foldr (fun x s => arc_drop (arc (handle x.2)) s)
    (mk keep (as_u64 (total (map snd (map_to_list keep)))) (capacity self) (counter self) (strong self) (next_arc self))
    (map_to_list gone).
End ops.
End LruShard.

(** ** [ShardedLRUCache] *)

Module ShardedLRUCache.
Record t (V : Type) := mk { shards : list (LruShard.t V); next_id : Z }.
Arguments mk {V} _ _.
Arguments shards {V} _.
Arguments next_id {V} _.

Section ops.
Context {V : Type}.
Implicit Types self : t V.

Definition div_ceil (a b : Z) : Z := (a + b - 1) / b.
Definition new (capacity : Z) : t V :=
  mk (replicate (Z.to_nat NUM_SHARDS) (LruShard.new (div_ceil capacity NUM_SHARDS))) 1.

Definition shard_for (key : bytes) : Z := Z.shiftr (hash key 0) (32 - NUM_SHARD_BITS).

(** An operation under the lock of the key's shard. *)
Definition on_shard {A} self (key : bytes) (f : LruShard.t V -> outcome (A * LruShard.t V)) : outcome (A * t V) :=
  s ← index (shards self) (shard_for key);
  '(a, s) ← f s;
  l ← set_index (shards self) (shard_for key) s;
  Ret (a, mk l (next_id self)).

Definition insert self key v charge : outcome (CacheHandle V * t V) :=
  on_shard self key (fun s => LruShard.insert s key v charge).
Definition lookup self key : outcome (option (CacheHandle V) * t V) :=
  on_shard self key (fun s => Ret (LruShard.lookup s key)).
Definition erase self key : outcome (unit * t V) :=
  on_shard self key (fun s => Ret (tt, LruShard.erase s key)).
(** The caller drops a handle. *)
Definition drop_handle self key (h : CacheHandle V) : outcome (unit * t V) :=
  on_shard self key (fun s => Ret (tt, LruShard.arc_drop (arc h) s)).
Definition new_id self : Z * t V := (next_id self, mk (shards self) (as_u64 (next_id self + 1))).
Definition total_charge self : Z := as_u64 (foldr (fun s n => LruShard.usage s + n) 0 (shards self)).
Definition prune self : t V := mk (map LruShard.prune (shards self)) (next_id self).
End ops.
End ShardedLRUCache.

(** ** The trait [Cache] *)

Class Cache (K V : Type) := {
  cache_insert : K -> bytes -> V -> Z -> outcome (CacheHandle V * K);
  cache_lookup : K -> bytes -> outcome (option (CacheHandle V) * K);
  cache_erase : K -> bytes -> outcome (unit * K);
  cache_new_id : K -> Z * K;
  cache_total_charge : K -> Z;
  cache_prune : K -> K;
}.
#[export] Instance Sharded_Cache {V} : Cache (ShardedLRUCache.t V) V := {|
  cache_insert := ShardedLRUCache.insert;
  cache_lookup := ShardedLRUCache.lookup;
  cache_erase := ShardedLRUCache.erase;
  cache_new_id := ShardedLRUCache.new_id;
  cache_total_charge := ShardedLRUCache.total_charge;
  cache_prune := ShardedLRUCache.prune;
|}.

(** [Option<Arc<dyn Cache>>] without a cache is never asked; a trivial instance. *)
#[export] Instance No_Cache {V} : Cache unit V := {|
  cache_insert _ _ v charge := Ret (mk_handle 0 (mk_entry v charge), tt);
  cache_lookup _ _ := Ret (None, tt);
  cache_erase _ _ := Ret (tt, tt);
  cache_new_id _ := (0, tt);
  cache_total_charge _ := 0;
  cache_prune _ := tt;
|}.

(** What a table relies on: a lookup returns only what was inserted under the key. *)
Class CacheLaws {K V} `{Cache K V} (cache_ok : K -> Prop) (cached : K -> bytes -> V -> Prop) : Prop := {
  lookup_law k key : cache_ok k -> exists r k', cache_lookup k key = Ret (r, k') /\ cache_ok k' /\
    (forall h, r = Some h -> cached k key (handle_value h)) /\ (forall key' v, cached k' key' v -> cached k key' v);
  insert_law k key v c : cache_ok k -> exists h k', cache_insert k key v c = Ret (h, k') /\ cache_ok k' /\
    (forall key' v', cached k' key' v' -> cached k key' v' \/ (key' = key /\ v' = v));
}.
(** Taking an id caches nothing; and the ids of a cache are all different until the counter
    ends: [next] is the one it gives next, which only [cache_new_id] moves. *)
Class CacheIdLaws {K V} `{Cache K V} (cache_ok : K -> Prop) (cached : K -> bytes -> V -> Prop) : Prop :=
  new_id_law k : cache_ok k -> cache_ok (snd (cache_new_id k)) /\
    (forall key v, cached (snd (cache_new_id k)) key v -> cached k key v).
Class CacheFreshLaws {K V} `{Cache K V} (next : K -> Z) : Prop := {
  lookup_next k key r k' : cache_lookup k key = Ret (r, k') -> next k' = next k;
  insert_next k key v c h k' : cache_insert k key v c = Ret (h, k') -> next k' = next k;
  new_id_next k : 0 <= next k -> next k + 1 < 2 ^ 64 ->
    fst (cache_new_id k) = next k /\ next (snd (cache_new_id k)) = next k + 1;
}.

#[export] Instance No_CacheLaws {V} : CacheLaws (K:=unit) (V:=V) (fun _ => True) (fun _ _ _ => False).
Proof.
  split.
  - intros k key _. exists None, tt. by split_and!.
  - intros k key v c _. do 2 eexists. split_and!; [done|done|]. by intros ? ? ?.
Qed.
#[export] Instance No_CacheIdLaws {V} : CacheIdLaws (K:=unit) (V:=V) (fun _ => True) (fun _ _ _ => False).
Proof. by intros k _. Qed.
