(* ===== verification/CacheCorrect.v ===== *)
(** * CacheCorrect.v: a cache shard refines a list in order of use.

    The reference cache is the list of the cached items, least recently used first.  The
    shard's map, access times, byte count and strong counts are proved to represent it. *)
From Stdlib Require Import Sorting.Sorted.
From S2P Require Import Prelude Status Hash Cache.
Import LruShard.

(** ** The reference cache *)

Section reference.
Context {V : Type}.
Implicit Types l : list (bytes * CacheHandle V).

Definition charges l : Z := foldr (fun x n => handle_charge x.2 + n) 0 l.
Definition ref_remove (k : bytes) l : list (bytes * CacheHandle V) := filter (fun x => x.1 <> k) l.
Fixpoint ref_find (k : bytes) l : option (CacheHandle V) :=
  match l with [] => None | (k', h) :: l => if decide (k' = k) then Some h else ref_find k l end.
(** Drop the least recently used items until [charge] more fits, or nothing is left. *)
Fixpoint ref_evict (cap charge : Z) l : list (bytes * CacheHandle V) :=
  match l with
  | [] => []
  | _ :: rest => if charges l + charge <=? cap then l else ref_evict cap charge rest
  end.

(** The cache and what its clients do with it: [held] lists the allocations of the
    handles they hold, once per handle. *)
Record ref := mk_ref { items : list (bytes * CacheHandle V); held : list nat; fresh : nat }.

Inductive op :=
| OpInsert (k : bytes) (v : V) (charge : Z)
| OpLookup (k : bytes)
| OpErase (k : bytes)
| OpPrune
| OpDrop (a : nat).

Fixpoint remove_one (a : nat) (hs : list nat) : list nat :=
  match hs with [] => [] | x :: hs => if decide (x = a) then hs else x :: remove_one a hs end.

Definition ref_step (cap : Z) (st : ref) (o : op) : option (CacheHandle V) * ref :=
  let l := items st in
  match o with
  | OpInsert k v c =>
      let h := mk_handle (fresh st) (mk_entry v c) in
      (Some h, mk_ref (ref_evict cap c (ref_remove k l) ++ [(k, h)]) (fresh st :: held st) (S (fresh st)))
  | OpLookup k =>
      match ref_find k l with
      | Some h => (Some h, mk_ref (ref_remove k l ++ [(k, h)]) (arc h :: held st) (fresh st))
      | None => (None, st)
      end
  | OpErase k => (None, mk_ref (ref_remove k l) (held st) (fresh st))
  | OpPrune => (None, mk_ref (filter (fun x => arc x.2 ∈ held st) l) (held st) (fresh st))
  | OpDrop a => (None, mk_ref l (remove_one a (held st)) (fresh st))
  end.

(** The same operations on the shard, for a client that holds [hs]. *)
Definition shard_step (st : LruShard.t V * list nat) (o : op)
  : outcome (option (CacheHandle V) * (LruShard.t V * list nat)) :=
  let '(s, hs) := st in
  match o with
  | OpInsert k v c => '(h, s) ← insert s k v c; Ret (Some h, (s, arc h :: hs))
  | OpLookup k =>
      match lookup s k with
      | (Some h, s) => Ret (Some h, (s, arc h :: hs))
      | (None, s) => Ret (None, (s, hs))
      end
  | OpErase k => Ret (None, (erase s k, hs))
  | OpPrune => Ret (None, (prune s, hs))
  | OpDrop a => Ret (None, (if decide (a ∈ hs) then arc_drop a s else s, remove_one a hs))
  end.

Fixpoint ref_run (cap : Z) (st : ref) (os : list op) : list (option (CacheHandle V)) * ref :=
  match os with
  | [] => ([], st)
  | o :: os => let '(r, st) := ref_step cap st o in let '(rs, st) := ref_run cap st os in (r :: rs, st)
  end.
Fixpoint shard_run (st : LruShard.t V * list nat) (os : list op)
  : outcome (list (option (CacheHandle V)) * (LruShard.t V * list nat)) :=
  match os with
  | [] => Ret ([], st)
  | o :: os => '(r, st) ← shard_step st o; '(rs, st) ← shard_run st os; Ret (r :: rs, st)
  end.

Definition small (z : Z) : Prop := 0 <= z < 2 ^ 63.
Definition op_ok (o : op) : Prop := match o with OpInsert _ _ c => small c | _ => True end.

(** ** Representation *)

Definition older (x y : bytes * ShardEntry V) : Prop := last_access x.2 < last_access y.2.
Definition forget (x : bytes * ShardEntry V) : bytes * CacheHandle V := (x.1, handle x.2).

(** The map lists the items, in the order of their access times. *)
Record lists (m : gmap bytes (ShardEntry V)) (n : Z) (l : list (bytes * CacheHandle V)) (es : list (bytes * ShardEntry V)) : Prop := {
  lists_map : m = list_to_map es;
  lists_nodup : NoDup (map fst es);
  lists_sorted : StronglySorted older es;
  lists_bound : Forall (fun x => last_access x.2 <= n) es;
  lists_forget : map forget es = l;
}.

(** Strong counts: one for the cache's own reference, one for each handle held. *)
Record counted (strong : gmap nat nat) (fresh : nat) (own hs : list nat) : Prop := {
  counted_nodup : NoDup own;
  counted_fresh : Forall (fun a => (a < fresh)%nat) (own ++ hs);
  counted_known : forall a, is_Some (strong !! a) <-> (a < fresh)%nat;
  counted_sum : forall a, default 0%nat (strong !! a) = (count_occ Nat.eq_dec own a + count_occ Nat.eq_dec hs a)%nat;
}.
Definition arcs l : list nat := map (fun x => arc x.2) l.

Record holds (s : LruShard.t V) (l : list (bytes * CacheHandle V)) (hs : list nat) : Prop := {
  holds_lists : exists es, lists (entries s) (counter s) l es;
  holds_counted : counted (strong s) (next_arc s) (arcs l) hs;
  holds_usage : usage s = charges l;
  holds_small : Forall (fun x => small (handle_charge x.2)) l;
}.

Lemma charges_app l k : charges (l ++ k) = charges l + charges k.
Proof. induction l as [|x l IH]; cbn; [done|]. fold (charges (l ++ k)) (charges l). lia. Qed.
Lemma charges_nonneg l : Forall (fun x => small (handle_charge x.2)) l -> 0 <= charges l.
Proof. induction 1 as [|x l Hx Hl IH]; cbn; [done|]. fold (charges l). unfold small in Hx. lia. Qed.

(** *** The list behind the map *)

Lemma lists_lookup m n l es k : lists m n l es -> handle <$> m !! k = ref_find k l.
Proof.
  intros [-> Hnd _ _ <-]. clear -Hnd. induction es as [|[k' e] es IH]; cbn; [by rewrite lookup_empty|].
  apply NoDup_cons in Hnd as [_ Hnd]. case_decide as Hk.
  - subst k'. by rewrite lookup_insert_eq.
  - rewrite lookup_insert_ne by done. by apply IH.
Qed.

Lemma remove_absent k l : ref_find k l = None -> ref_remove k l = l.
Proof.
  unfold ref_remove. induction l as [|[k' h] l IH]; cbn [ref_find]; [done|]. case_decide; [done|]. intros Hf.
  rewrite filter_cons, decide_True by done. by rewrite IH.
Qed.

Lemma sorted_filter {A} (R : A -> A -> Prop) (P : A -> Prop) `{!forall x, Decision (P x)} (l : list A) :
  StronglySorted R l -> StronglySorted R (filter P l).
Proof.
  induction 1 as [|x l Hs IH Hall]; [constructor|]. rewrite filter_cons. case_decide; [|done].
  constructor; [done|]. apply Forall_forall. intros y [_ Hy]%list_elem_of_filter.
  rewrite Forall_forall in Hall. by apply Hall.
Qed.

Lemma filter_forget (P : bytes * CacheHandle V -> Prop) `{!forall x, Decision (P x)} es :
  map forget (filter (fun x => P (forget x)) es) = filter P (map forget es).
Proof.
  induction es as [|x es IH]; cbn [map]; [done|]. rewrite !filter_cons. case_decide; cbn [map]; by rewrite IH.
Qed.

Lemma nodup_fst_filter (P : bytes * ShardEntry V -> Prop) `{!forall x, Decision (P x)} es :
  NoDup (map fst es) -> NoDup (map fst (filter P es)).
Proof.
  induction es as [|x es IH]; [done|]. cbn [map]. rewrite NoDup_cons. intros [Hx Hnd]. rewrite filter_cons.
  case_decide; [|by apply IH]. cbn [map]. apply NoDup_cons. split; [|by apply IH].
  intros Hin. apply Hx. apply list_elem_of_fmap in Hin as (y & -> & [_ Hy]%list_elem_of_filter).
  by apply list_elem_of_fmap_2.
Qed.

(** Keeping the entries that satisfy a property of their key and handle. *)
Lemma lists_filter m n l es (P : bytes * CacheHandle V -> Prop) `{!forall x, Decision (P x)} : lists m n l es ->
  lists (filter (fun x => P (forget x)) m) n (filter P l) (filter (fun x => P (forget x)) es).
Proof.
  intros [-> Hnd Hs Hb <-]. split.
  - apply map_eq. intros k. apply option_eq. intros e. rewrite map_lookup_filter_Some.
    rewrite <- !elem_of_list_to_map by (try apply nodup_fst_filter; done). rewrite list_elem_of_filter. naive_solver.
  - by apply nodup_fst_filter.
  - by apply sorted_filter.
  - apply Forall_forall. intros x [_ Hx]%list_elem_of_filter. rewrite Forall_forall in Hb. by apply Hb.
  - apply filter_forget.
Qed.

Lemma lists_remove m n l es k : lists m n l es -> exists es', lists (delete k m) n (ref_remove k l) es'.
Proof.
  intros Hl. eexists. pose proof (lists_filter m n l es (fun x => x.1 <> k) Hl) as Hf.
  replace (delete k m) with (filter (fun x : bytes * ShardEntry V => (forget x).1 <> k) m); [exact Hf|].
  apply map_eq. intros i. destruct (decide (i = k)) as [->|Hik].
  - rewrite lookup_delete_eq. apply map_lookup_filter_None. right. intros x _. cbn. tauto.
  - rewrite lookup_delete_ne by done. destruct (m !! i) as [x|] eqn:Hx.
    + apply map_lookup_filter_Some. by split.
    + apply map_lookup_filter_None. by left.
Qed.

(** A new access at the end of the list. *)
Lemma lists_snoc m n l es k h : lists m n l es -> ref_find k l = None ->
  lists (<[k := mk_se h (n + 1)]> m) (n + 1) (l ++ [(k, h)]) (es ++ [(k, mk_se h (n + 1))]).
Proof.
  intros Hl Hk. pose proof (lists_lookup _ _ _ _ k Hl) as Hm. rewrite Hk in Hm. destruct Hl as [-> Hnd Hs Hb <-].
  assert (Hno : k ∉ map fst es).
  { apply not_elem_of_list_to_map. by destruct (list_to_map es !! k). }
  split.
  - by rewrite list_to_map_snoc.
  - rewrite map_app. apply NoDup_app. split_and!; [done| |by apply NoDup_singleton].
    cbn. intros x Hx ->%list_elem_of_singleton. done.
  - clear Hnd Hno Hm Hk. induction Hs as [|x es Hs IH Hx]; cbn; [by repeat constructor|].
    apply Forall_cons in Hb as [Hbx Hb]. constructor; [by apply IH|]. apply Forall_app. split; [done|].
    apply Forall_singleton. unfold older. cbn. lia.
  - apply Forall_app. split; [|by apply Forall_singleton; cbn]. eapply Forall_impl; [exact Hb|]. cbn. lia.
  - by rewrite map_app.
Qed.

(** Removing under an absent key and re-inserting. *)
Lemma find_remove k l : ref_find k (ref_remove k l) = None.
Proof.
  unfold ref_remove. induction l as [|[k' h] l IH]; [done|]. rewrite filter_cons. case_decide as Hk; cbn in Hk; [|done].
  cbn [ref_find]. by rewrite decide_False.
Qed.

(** The least access time is the head's. *)
Lemma min_access_head x (l es : list (bytes * ShardEntry V)) : Forall (older x) es -> l ≡ₚ x :: es -> min_access l = Some x.
Proof.
  intros Hx Hp.
  assert (Hmin : forall k : list (bytes * ShardEntry V), x ∈ k -> Forall (fun y => y = x \/ older x y) k -> min_access k = Some x).
  { induction k as [|y k IH]; intros Hin Hall; [by apply elem_of_nil in Hin|]. cbn.
    apply Forall_cons in Hall as [Hy Hall].
    destruct (decide (Exists (fun z => last_access z.2 = last_access x.2) k)) as [He|He].
    - assert (Hxk : x ∈ k).
      { apply Exists_exists in He as (z & Hz & Ez). rewrite Forall_forall in Hall.
        destruct (Hall z Hz) as [->|Hlt]; [done|]. unfold older in Hlt. lia. }
      rewrite (IH Hxk Hall). destruct Hy as [->|Hy]; [by rewrite Z.ltb_irrefl|].
      unfold older in Hy. by rewrite (proj2 (Z.ltb_lt _ _) Hy).
    - apply elem_of_cons in Hin as [<-|Hin].
      2: { exfalso. apply He, Exists_exists. by exists x. }
      destruct (min_access k) as [z|] eqn:Ez; [|done].
      assert (Hz : z ∈ k).
      { clear -Ez. revert z Ez. induction k as [|w k IH]; cbn; [done|]. intros z.
        destruct (min_access k) as [u|]; [case_match|]; intros; simplify_eq; try by constructor.
        constructor. by apply IH. }
      rewrite Forall_forall in Hall. destruct (Hall z Hz) as [->|Hlt]; [by rewrite Z.ltb_irrefl|].
      unfold older in Hlt. rewrite (proj2 (Z.ltb_ge _ _)) by lia. done. }
  apply Hmin; rewrite Hp; [by constructor|]. constructor; [by left|]. eapply Forall_impl; [exact Hx|]. by right.
Qed.

(** *** Strong counts *)

Abbreviation count a l := (count_occ Nat.eq_dec l a) (only parsing).

Lemma counted_ext strong fresh own own' hs : counted strong fresh own hs -> own ≡ₚ own' -> counted strong fresh own' hs.
Proof.
  intros [H1 H2 H3 H4] Hp. split; [by rewrite <- Hp|by rewrite <- Hp|done|].
  intros a. rewrite H4. f_equal. by apply Permutation_count_occ.
Qed.

(** The cache gives up its reference. *)
Lemma counted_release strong fresh a own hs : counted strong fresh (a :: own) hs ->
  counted (alter Nat.pred a strong) fresh own hs.
Proof.
  intros [H1 H2 H3 H4]. cbn in H2. apply Forall_cons in H2 as [Ha H2]. split.
  - by apply NoDup_cons in H1 as [_ ?].
  - done.
  - intros b. rewrite <- H3. rewrite lookup_alter_is_Some. done.
  - intros b. specialize (H4 b). cbn in H4. destruct (decide (a = b)) as [->|Hab].
    + rewrite lookup_alter_eq. destruct (strong !! b); cbn in *; destruct (Nat.eq_dec b b); try done; lia.
    + rewrite lookup_alter_ne by done. destruct (Nat.eq_dec a b); [done|lia].
Qed.

Lemma count_remove_one a b hs : a ∈ hs ->
  count b (remove_one a hs) = (count b hs - if decide (a = b) then 1 else 0)%nat.
Proof.
  induction hs as [|x hs IH]; intros Ha; [by apply elem_of_nil in Ha|]. cbn [remove_one count_occ]. destruct (decide (x = a)) as [->|Hx].
  - destruct (Nat.eq_dec a b), (decide (a = b)); try done; lia.
  - apply elem_of_cons in Ha as [->|Ha]; [done|]. specialize (IH Ha). cbn [count_occ]. rewrite IH.
    destruct (Nat.eq_dec x b), (decide (a = b)); simplify_eq; try lia.
Qed.
Lemma remove_one_absent a hs : a ∉ hs -> remove_one a hs = hs.
Proof.
  induction hs as [|x hs IH]; [done|]. rewrite not_elem_of_cons. intros [Hx Ha]. cbn.
  rewrite decide_False by done. by rewrite IH.
Qed.
Lemma remove_one_forall (P : nat -> Prop) a hs : Forall P hs -> Forall P (remove_one a hs).
Proof. induction 1; cbn; [done|]. case_decide; [done|]. by constructor. Qed.

(** A client drops a handle it holds. *)
Lemma counted_drop strong fresh a own hs : counted strong fresh own hs -> a ∈ hs ->
  counted (alter Nat.pred a strong) fresh own (remove_one a hs).
Proof.
  intros [H1 H2 H3 H4] Ha. apply Forall_app in H2 as [H2 H2']. split; [done| | |].
  - apply Forall_app. split; [done|]. by apply remove_one_forall.
  - intros b. by rewrite <- H3, lookup_alter_is_Some.
  - intros b. specialize (H4 b). rewrite count_remove_one by done.
    assert (count a hs > 0)%nat by by apply count_occ_In, list_elem_of_In.
    destruct (decide (a = b)) as [->|Hab].
    + rewrite lookup_alter_eq. destruct (strong !! b); cbn in *; lia.
    + rewrite lookup_alter_ne by done. lia.
Qed.

(** A new handle on a cached entry. *)
Lemma counted_clone strong fresh a own hs : counted strong fresh own hs -> (a < fresh)%nat ->
  counted (alter S a strong) fresh own (a :: hs).
Proof.
  intros [H1 H2 H3 H4] Ha. apply Forall_app in H2 as [H2 H2']. split; [done| | |].
  - apply Forall_app. split; [done|]. by constructor.
  - intros b. by rewrite <- H3, lookup_alter_is_Some.
  - intros b. specialize (H4 b). cbn. destruct (Nat.eq_dec a b) as [->|Hab].
    + rewrite lookup_alter_eq. apply H3 in Ha as [n Hn]. rewrite Hn in *. cbn in *. lia.
    + by rewrite lookup_alter_ne.
Qed.

(** A new allocation, referenced by the cache and by the handle returned. *)
Lemma counted_new strong fresh own hs : counted strong fresh own hs ->
  counted (<[fresh := 2%nat]> strong) (S fresh) (own ++ [fresh]) (fresh :: hs).
Proof.
  intros [H1 H2 H3 H4]. pose proof H2 as Hlt. apply Forall_app in H2 as [H2 H2'].
  assert (Hno : forall l : list nat, Forall (fun a => (a < fresh)%nat) l -> count fresh l = 0%nat).
  { intros l Hl. apply count_occ_not_In. intros Hin%list_elem_of_In. rewrite Forall_forall in Hl. specialize (Hl _ Hin). cbn in Hl. lia. }
  split.
  - apply NoDup_app. split_and!; [done| |by apply NoDup_singleton]. intros a Ha ->%list_elem_of_singleton.
    rewrite Forall_forall in H2. specialize (H2 _ Ha). cbn in H2. lia.
  - rewrite !Forall_app, Forall_singleton, Forall_cons. split_and!; try lia; by eapply Forall_impl; [eassumption|cbn; lia].
  - intros b. destruct (decide (b = fresh)) as [->|Hb].
    + rewrite lookup_insert_eq. split; [lia|by eexists].
    + rewrite lookup_insert_ne by done. rewrite H3. lia.
  - intros b. specialize (H4 b). rewrite count_occ_app. cbn. destruct (Nat.eq_dec fresh b) as [->|Hb].
    + rewrite lookup_insert_eq. cbn. by rewrite !Hno.
    + rewrite lookup_insert_ne by done. lia.
Qed.

Implicit Types s : LruShard.t V.

(** *** The operations *)

Lemma ref_find_split k l h : ref_find k l = Some h -> NoDup (map fst l) ->
  exists a b, l = a ++ (k, h) :: b /\ ref_remove k l = a ++ b.
Proof.
  unfold ref_remove. induction l as [|[k' h'] l IH]; [done|]. cbn [ref_find map fst]. intros Hf [Hk Hnd]%NoDup_cons. rewrite filter_cons.
  case_decide as E.
  - simplify_eq. exists [], l. rewrite decide_False by (cbn; tauto). split; [done|]. apply remove_absent.
    destruct (ref_find k l) as [h'|] eqn:Ef; [|done]. exfalso. apply Hk.
    clear -Ef. induction l as [|[k' x] l IH]; [done|]. cbn in *. case_decide; [subst; by constructor|].
    constructor. by apply IH.
  - destruct (IH Hf Hnd) as (a & b & -> & Hr). exists ((k', h') :: a), b. rewrite decide_True by done.
    split; [done|]. by rewrite Hr.
Qed.

Lemma lists_keys m n l es : lists m n l es -> NoDup (map fst l).
Proof.
  intros [_ Hnd _ _ <-]. rewrite map_map. replace (map (fun x => (forget x).1) es) with (map fst es); [done|].
  apply map_ext. done.
Qed.

Lemma arcs_app l k : arcs (l ++ k) = arcs l ++ arcs k.
Proof. apply map_app. Qed.

Lemma erase_ok s l hs k : holds s l hs -> holds (erase s k) (ref_remove k l) hs.
Proof.
  intros [[es Hl] Hc Hu Hs]. pose proof (lists_lookup _ _ _ _ k Hl) as Hk. unfold erase.
  destruct (entries s !! k) as [old|] eqn:Ek; cbn in Hk.
  2: { rewrite remove_absent by done. split; [by eexists|done..]. }
  destruct (ref_find_split k l (handle old)) as (a & b & -> & Hr); [done|by eapply lists_keys|].
  destruct (lists_remove _ _ _ _ k Hl) as [es' Hl']. rewrite Hr in *.
  apply Forall_app in Hs as [Hsa [Hsx Hsb]%Forall_cons]. cbn in Hsx.
  rewrite charges_app in Hu. cbn in Hu. fold (charges b) in Hu.
  pose proof (charges_nonneg _ Hsa). pose proof (charges_nonneg _ Hsb). split.
  - by exists es'.
  - cbn. apply counted_release. eapply counted_ext; [exact Hc|]. rewrite !arcs_app. cbn.
    by rewrite <- Permutation_middle.
  - cbn. rewrite charges_app. unfold saturating_sub. lia.
  - by apply Forall_app.
Qed.

Lemma erase_capacity s k : capacity (erase s k) = capacity s.
Proof. unfold erase. by destruct (_ !! _). Qed.
Lemma erase_counter s k : counter (erase s k) = counter s.
Proof. unfold erase. by destruct (_ !! _). Qed.
Lemma erase_next_arc s k : next_arc (erase s k) = next_arc s.
Proof. unfold erase. by destruct (_ !! _). Qed.

Lemma ref_remove_head k h l : NoDup (map fst ((k, h) :: l)) -> ref_remove k ((k, h) :: l) = l.
Proof.
  cbn [map]. intros [Hk _]%NoDup_cons. unfold ref_remove. rewrite filter_cons, decide_False by (cbn; tauto).
  apply remove_absent. cbn [fst] in Hk. clear h. induction l as [|[k' x] l IH]; [done|]. cbn [ref_find map] in *.
  apply not_elem_of_cons in Hk as [Hne Hk]. rewrite decide_False by (cbn in *; congruence). by apply IH.
Qed.

Lemma evict_oldest_ok s k h l hs : holds s ((k, h) :: l) hs -> evict_oldest s = erase s k /\ holds (evict_oldest s) l hs.
Proof.
  intros Hh. destruct (holds_lists _ _ _ Hh) as [es Hl]. pose proof (lists_keys _ _ _ _ Hl) as Hnd.
  pose proof (lists_nodup _ _ _ _ Hl) as Hnd'.
  assert (E : evict_oldest s = erase s k).
  { unfold evict_oldest. destruct Hl as [Hm _ Hs _ Hf]. destruct es as [|[k0 e] es]; [done|]. cbn in Hf. injection Hf as -> _ _.
    apply StronglySorted_inv in Hs as [Hs Hx]. rewrite (min_access_head (k, e) _ es Hx); [done|].
    rewrite Hm. by apply map_to_list_to_map. }
  split; [done|]. rewrite E. apply (erase_ok _ _ _ k) in Hh. by rewrite ref_remove_head in Hh.
Qed.

Lemma entries_empty s l hs : holds s l hs -> (entries s = ∅ <-> l = []).
Proof.
  intros [[es [Hm Hnd _ _ <-]] _ _ _]. rewrite Hm. split.
  - destruct es as [|[k e] es]; [done|]. cbn. intros E. by apply insert_non_empty in E.
  - by destruct es.
Qed.

Lemma evict_loop_ok fuel s l hs c : holds s l hs -> (length l <= fuel)%nat -> small c -> small (capacity s) ->
  (forall l1 l2, l = l1 ++ l2 -> charges l2 + c < 2 ^ 64) ->
  exists s', evict_loop fuel s c = Ret s' /\ holds s' (ref_evict (capacity s) c l) hs /\
    capacity s' = capacity s /\ counter s' = counter s /\ next_arc s' = next_arc s.
Proof.
  revert s l. induction fuel as [|fuel IH]; intros s l Hh Hf Hc Hcap Hfit; cbn [evict_loop];
    pose proof (charges_nonneg _ (holds_small _ _ _ Hh)) as Hpos; pose proof (Hfit [] l eq_refl) as Hsum;
    rewrite (holds_usage _ _ _ Hh), as_u64_id by (unfold is_u64, small in *; lia); rewrite Z.gtb_ltb;
    pose proof (entries_empty _ _ _ Hh) as He; destruct l as [|[k h] l].
  - rewrite bool_decide_true by tauto. rewrite andb_false_r. by eexists.
  - cbn in Hf. lia.
  - rewrite bool_decide_true by tauto. rewrite andb_false_r. by eexists.
  - rewrite bool_decide_false by (intros E; by apply He in E). cbn [negb ref_evict]. rewrite andb_true_r.
    rewrite Z.leb_antisym. destruct (Z.ltb_spec (capacity s) (charges ((k, h) :: l) + c)); cbn [negb]; [|by eexists].
    destruct (evict_oldest_ok _ _ _ _ _ Hh) as (E & Hh'). rewrite E in *.
    destruct (IH (erase s k) l) as (s' & Es & Hs' & H1 & H2 & H3); [done|cbn in Hf; lia|done|by rewrite erase_capacity| |].
    { intros l1 l2 ->. by apply (Hfit ((k, h) :: l1) l2). }
    exists s'. rewrite erase_capacity in *. rewrite erase_counter in H2. rewrite erase_next_arc in H3. done.
Qed.

(** The contents fit, unless a single item larger than the cache is all there is. *)
Definition fits (cap : Z) l : Prop := charges l <= cap \/ (length l <= 1)%nat.

Lemma charges_filter (P : bytes * CacheHandle V -> Prop) `{!forall x, Decision (P x)} l :
  Forall (fun x => small (handle_charge x.2)) l -> charges (filter P l) <= charges l.
Proof.
  induction 1 as [|x l Hx Hl IH]; [done|]. rewrite filter_cons. unfold small in Hx.
  case_decide; cbn; fold (charges l); fold (charges (filter P l)); lia.
Qed.
Lemma fits_filter (P : bytes * CacheHandle V -> Prop) `{!forall x, Decision (P x)} cap l :
  Forall (fun x => small (handle_charge x.2)) l -> fits cap l -> fits cap (filter P l).
Proof.
  intros Hs [Hf|Hf]; [left; pose proof (charges_filter P l Hs); lia|right]. pose proof (length_filter P l). lia.
Qed.
Lemma fits_bound cap l : small cap -> Forall (fun x => small (handle_charge x.2)) l -> fits cap l ->
  forall l1 l2, l = l1 ++ l2 -> charges l2 < 2 ^ 63.
Proof.
  intros Hc Hs Hf l1 l2 ->. apply Forall_app in Hs as [Hs1 Hs2]. unfold fits in Hf. rewrite charges_app in Hf.
  pose proof (charges_nonneg _ Hs1). unfold small in *. destruct Hf as [Hf|Hf]; [lia|].
  destruct l2 as [|x [|y l2]]; cbn in *; [lia| |rewrite length_app in Hf; cbn in Hf; lia].
  apply Forall_cons in Hs2 as [Hx _]. lia.
Qed.
Lemma ref_evict_fits cap c l : charges (ref_evict cap c l) + c <= cap \/ ref_evict cap c l = [].
Proof.
  induction l as [|x l IH]; [by right|]. cbn [ref_evict]. destruct (Z.leb_spec (charges (x :: l) + c) cap); [by left|done].
Qed.
Lemma ref_evict_suffix cap c l : exists l1, l = l1 ++ ref_evict cap c l.
Proof.
  induction l as [|x l [l1 IH]]; [by exists []|]. cbn [ref_evict]. case_match; [by exists []|].
  exists (x :: l1). cbn. by f_equal.
Qed.
Lemma find_app k l1 l2 : ref_find k (l1 ++ l2) = None -> ref_find k l2 = None.
Proof. induction l1 as [|[k' h] l1 IH]; [done|]. cbn. by case_decide. Qed.

Lemma size_entries s l hs : holds s l hs -> size (entries s) = length l.
Proof.
  intros [[es [Hm Hnd _ _ <-]] _ _ _]. rewrite Hm, length_map.
  by apply map_size_list_to_map.
Qed.

(** The whole state: shard against reference. *)
Record agree (cap n : Z) s (st : ref) : Prop := {
  agree_holds : holds s (items st) (held st);
  agree_cap : capacity s = cap;
  agree_fresh : next_arc s = fresh st;
  agree_fits : fits cap (items st);
  agree_counter : 0 <= counter s <= n;
}.

Lemma insert_agree cap n s st k v c : small cap -> small c -> n + 1 < 2 ^ 64 -> agree cap n s st ->
  exists h s', insert s k v c = Ret (h, s') /\ fst (ref_step cap st (OpInsert k v c)) = Some h /\
    arc h = fresh st /\ agree cap (n + 1) s' (snd (ref_step cap st (OpInsert k v c))).
Proof.
  intros Hcap Hc Hn [Hh Hca Hfr Hfi Hco]. unfold insert.
  pose proof (erase_ok _ _ _ k Hh) as He. rewrite (size_entries _ _ _ He).
  pose proof (fits_filter (fun x => x.1 <> k) cap _ (holds_small _ _ _ Hh) Hfi) as Hfi'.
  destruct (evict_loop_ok (length (ref_remove k (items st))) _ _ _ c He) as (s1 & -> & Hs1 & H1 & H2 & H3); [done|done|by rewrite erase_capacity, Hca| |].
  { intros l1 l2 E. pose proof (fits_bound cap _ Hcap (holds_small _ _ _ He) Hfi' l1 l2 E). unfold small in Hc. lia. }
  rewrite erase_capacity in H1. rewrite erase_capacity, Hca in Hs1. rewrite erase_counter in H2. rewrite erase_next_arc, Hfr in H3.
  cbn [mbind outcome_bind]. eexists _, _. split; [done|]. cbn [ref_step fst snd arc].
  split; [by rewrite H3|]. split; [done|].
  rewrite H2, as_u64_id by (unfold is_u64; lia). set (l := ref_evict cap c (ref_remove k (items st))) in *.
  assert (Hnone : ref_find k l = None).
  { destruct (ref_evict_suffix cap c (ref_remove k (items st))) as [l1 E]. apply (find_app k l1). fold l in E. rewrite <- E. apply find_remove. }
  destruct Hs1 as [[es Hl] Hcnt Hu Hsm]. pose proof (charges_nonneg _ Hsm) as Hpos.
  assert (Hlt : charges l < 2 ^ 63).
  { destruct (ref_evict_suffix cap c (ref_remove k (items st))) as [l1 E]. by apply (fits_bound cap _ Hcap (holds_small _ _ _ He) Hfi' l1). }
  split; cbn; [split; cbn| | | |].
  - exists (es ++ [(k, mk_se (mk_handle (next_arc s1) (mk_entry v c)) (counter s + 1))]). rewrite <- H2, H3 in *. by apply lists_snoc.
  - rewrite arcs_app. cbn. rewrite H3 in *. by apply counted_new.
  - rewrite charges_app. cbn. unfold handle_charge. cbn. rewrite Hu, as_u64_id by (unfold is_u64, small in *; lia). lia.
  - apply Forall_app. split; [done|]. by apply Forall_singleton.
  - congruence.
  - by rewrite H3.
  - unfold fits. rewrite charges_app, length_app. cbn. unfold handle_charge. cbn.
    destruct (ref_evict_fits cap c (ref_remove k (items st))) as [E|E]; fold l in E; [left; lia|right; by rewrite E].
  - lia.
Qed.

Lemma lookup_agree cap n s st k : n + 1 < 2 ^ 64 -> agree cap n s st ->
  exists r s', lookup s k = (r, s') /\ fst (ref_step cap st (OpLookup k)) = r /\
    agree cap (n + 1) s' (snd (ref_step cap st (OpLookup k))) /\
    held (snd (ref_step cap st (OpLookup k))) = match r with Some h => arc h :: held st | None => held st end.
Proof.
  intros Hn [[[es Hl] Hcnt Hu Hsm] Hca Hfr Hfi Hco]. pose proof (lists_lookup _ _ _ _ k Hl) as Hk.
  unfold lookup. rewrite as_u64_id by (unfold is_u64; lia). cbn [ref_step].
  destruct (entries s !! k) as [e|] eqn:Ek; cbn in Hk; rewrite <- Hk.
  - eexists _, _. split; [done|]. cbn [fst snd held]. split; [done|]. split; [|done].
    destruct (ref_find_split k _ _ (eq_sym Hk) (lists_keys _ _ _ _ Hl)) as (a & b & Hab & Hr).
    destruct (lists_remove _ _ _ _ k Hl) as [es' Hl']. rewrite Hr, Hab in *.
    split; cbn; [split; cbn| | | |lia].
    + exists (es' ++ [(k, mk_se (handle e) (counter s + 1))]). rewrite <- (insert_delete_eq (entries s)).
      apply lists_snoc; [done|]. rewrite <- Hr. apply find_remove.
    + apply counted_clone; [|].
      * eapply counted_ext; [exact Hcnt|]. rewrite !arcs_app, <- app_assoc. apply Permutation_app_head. apply (Permutation_app_comm [arc (handle e)] (arcs b)).
      * destruct Hcnt as [_ Hlt _ _]. rewrite Forall_forall in Hlt. apply Hlt. apply elem_of_app. left.
        rewrite arcs_app. cbn. apply elem_of_app. right. by constructor.
    + rewrite Hu, !charges_app. cbn. fold (charges b). lia.
    + apply Forall_app in Hsm as [? [? ?]%Forall_cons]. rewrite !Forall_app. split_and!; [done..|]. by constructor.
    + done.
    + done.
    + unfold fits in *. rewrite !charges_app, !length_app in *. cbn in *. fold (charges b) in Hfi. destruct Hfi; [left|right]; lia.
  - eexists _, _. split; [done|]. split; [done|]. split; [|done].
    split; cbn; [split; cbn| | | |lia]; try done. exists es. destruct Hl as [H1 H2 H3 H4 H5]. split; try done.
    eapply Forall_impl; [exact H4|]. cbn. lia.
Qed.

(** *** [prune] *)

Lemma drop_all_fields (xs : list (bytes * ShardEntry V)) s :
  let s' := foldr (fun x s => arc_drop (arc (handle x.2)) s) s xs in
  entries s' = entries s /\ usage s' = usage s /\ capacity s' = capacity s /\ counter s' = counter s /\ next_arc s' = next_arc s.
Proof. by induction xs as [|x xs IH]. Qed.

Lemma drop_all_counted (xs : list (bytes * ShardEntry V)) s n own hs :
  counted (strong s) n (map (fun x => arc (handle x.2)) xs ++ own) hs ->
  counted (strong (foldr (fun x s => arc_drop (arc (handle x.2)) s) s xs)) n own hs.
Proof.
  revert own. induction xs as [|x xs IH]; intros own Hc; [done|]. cbn [foldr]. cbn [strong arc_drop].
  apply counted_release. apply IH. eapply counted_ext; [exact Hc|]. cbn. by rewrite Permutation_middle.
Qed.

Lemma total_perm (a b : list (ShardEntry V)) : a ≡ₚ b -> total a = total b.
Proof. unfold total. induction 1; cbn [foldr]; lia. Qed.
Lemma total_forget (es : list (bytes * ShardEntry V)) : total (map snd es) = charges (map forget es).
Proof. induction es as [|x es IH]; [done|]. cbn. fold (total (map snd es)). rewrite IH. done. Qed.
Lemma arcs_forget (es : list (bytes * ShardEntry V)) : arcs (map forget es) = map (fun x => arc (handle x.2)) es.
Proof. unfold arcs. by rewrite map_map. Qed.

Lemma prune_agree cap n s st : small cap -> agree cap n s st -> agree cap n (prune s) (snd (ref_step cap st OpPrune)).
Proof.
  intros Hcap [[[es Hl] Hcnt Hu Hsm] Hca Hfr Hfi Hco]. cbn [ref_step snd].
  set (P := fun x : bytes * CacheHandle V => arc x.2 ∈ held st).
  assert (Hkept : forall i x, entries s !! i = Some x -> kept s (i, x) <-> P (forget (i, x))).
  { intros i x Hx. unfold kept, strong_count, P. cbn [forget snd]. destruct Hcnt as [Hnd _ _ Hsum]. rewrite Hsum.
    assert (Hin : arc (handle x) ∈ arcs (items st)).
    { destruct Hl as [Hm Hnd' _ _ Hf]. rewrite <- Hf, arcs_forget. rewrite Hm in Hx. apply elem_of_list_to_map in Hx; [|done].
      apply (list_elem_of_fmap_2 (fun y => arc (handle y.2)) es (i, x) Hx). }
    rewrite (proj1 (NoDup_count_occ' Nat.eq_dec _) (proj1 (NoDup_ListNoDup _) Hnd) (arc (handle x))) by (by apply list_elem_of_In).
    rewrite list_elem_of_In, (count_occ_In Nat.eq_dec). lia. }
  unfold prune. set (keep := filter (kept s) (entries s)). set (gone := filter (fun x => ~ kept s x) (entries s)).
  pose proof (lists_filter _ _ _ _ P Hl) as Hlk. pose proof (lists_filter _ _ _ _ (fun x => ~ P x) Hl) as Hlg. cbn beta in Hlg.
  assert (Ek : keep = filter (fun x => P (forget x)) (entries s)) by (apply map_filter_ext; intros i x Hx; by apply Hkept).
  assert (Eg : gone = filter (fun x => ~ P (forget x)) (entries s)).
  { apply map_filter_ext. intros i x Hx. by rewrite (Hkept i x Hx). }
  apply (eq_ind_r (fun m => lists m _ _ _) Hlk) in Ek as Hlk'. apply (eq_ind_r (fun m => lists m _ _ _) Hlg) in Eg as Hlg'.
  clear Hlk Hlg. rename Hlk' into Hlk, Hlg' into Hlg.
  assert (Pk : map_to_list keep ≡ₚ filter (fun x => P (forget x)) es).
  { rewrite (lists_map _ _ _ _ Hlk). apply map_to_list_to_map. apply (lists_nodup _ _ _ _ Hlk). }
  assert (Pg : map_to_list gone ≡ₚ filter (fun x => ~ P (forget x)) es).
  { rewrite (lists_map _ _ _ _ Hlg). apply map_to_list_to_map. apply (lists_nodup _ _ _ _ Hlg). }
  assert (Hsum : total (map snd (map_to_list keep)) = charges (filter P (items st))).
  { rewrite (total_perm _ _ (Permutation_map snd Pk)), total_forget. by rewrite (lists_forget _ _ _ _ Hlk). }
  assert (Hsm' : Forall (fun x => small (handle_charge x.2)) (filter P (items st))).
  { apply Forall_forall. intros x [_ Hx]%list_elem_of_filter. rewrite Forall_forall in Hsm. by apply Hsm. }
  pose proof (fits_filter P cap _ Hsm Hfi) as Hfit.
  set (s0 := mk keep _ _ _ _ _). destruct (drop_all_fields (map_to_list gone) s0) as (F1 & F2 & F3 & F4 & F5).
  split; [split| | | |]; cbn [items held fresh]; rewrite ?F1, ?F2, ?F3, ?F4, ?F5; subst s0; cbn [entries usage capacity counter next_arc]; try done.
  - by eexists.
  - apply (drop_all_counted (map_to_list gone)). cbn [strong next_arc]. eapply counted_ext; [exact Hcnt|].
    rewrite Pg, <- (lists_forget _ _ _ _ Hl), <- filter_forget, !arcs_forget, <- map_app.
    apply Permutation_map. rewrite Permutation_app_comm. symmetry. apply (filter_app_complement (fun x => P (forget x))).
  - rewrite Hsum. apply as_u64_id. pose proof (charges_nonneg _ Hsm').
    pose proof (fits_bound cap _ Hcap Hsm' Hfit [] _ eq_refl). unfold is_u64. lia.
Qed.

(** *** Whole runs *)

Lemma step_agree cap n s st o : small cap -> op_ok o -> n + 1 < 2 ^ 64 -> agree cap n s st ->
  exists s', shard_step (s, held st) o = Ret (fst (ref_step cap st o), (s', held (snd (ref_step cap st o)))) /\
    agree cap (n + 1) s' (snd (ref_step cap st o)).
Proof.
  intros Hcap Ho Hn Ha. assert (Hmono : forall s st, agree cap n s st -> agree cap (n + 1) s st).
  { intros s2 st2 [H1 H2 H3 H4 H5]. split; try done. lia. }
  destruct o as [k v c|k|k| |a]; cbn [shard_step].
  - destruct (insert_agree cap n s st k v c) as (h & s' & -> & E & Eh & Ha'); [done..|]. exists s'. rewrite E.
    cbn. by rewrite Eh.
  - destruct (lookup_agree cap n s st k Hn Ha) as (r & s' & -> & E & Ha' & Eh). exists s'. rewrite E, Eh. by destruct r.
  - exists (erase s k). split; [done|]. apply Hmono. destruct Ha as [Hh Hca Hfr Hfi Hco].
    split; cbn [ref_step snd items held fresh]; rewrite ?erase_capacity, ?erase_counter, ?erase_next_arc; try done.
    + by apply erase_ok.
    + apply fits_filter; [by destruct Hh|done].
  - exists (prune s). split; [done|]. by apply Hmono, prune_agree.
  - eexists. split; [done|]. apply Hmono. destruct Ha as [[Hl Hc Hu Hs] Hca Hfr Hfi Hco]. cbn [ref_step snd].
    case_decide as Hin; split; cbn; try done.
    + split; cbn; try done. by apply counted_drop.
    + by rewrite remove_one_absent.
Qed.

Lemma run_agree cap os n s st : small cap -> Forall op_ok os -> n + len os < 2 ^ 64 -> agree cap n s st ->
  exists s', shard_run (s, held st) os = Ret (fst (ref_run cap st os), (s', held (snd (ref_run cap st os)))) /\
    agree cap (n + len os) s' (snd (ref_run cap st os)).
Proof.
  intros Hcap. revert n s st. induction os as [|o os IH]; intros n s st Ho Hn Ha.
  - exists s. rewrite len_nil, Z.add_0_r. done.
  - apply Forall_cons in Ho as [Ho Hos]. rewrite len_cons in *. pose proof (len_nonneg os).
    destruct (step_agree cap n s st o Hcap Ho ltac:(lia) Ha) as (s1 & E1 & H1). cbn [shard_run ref_run]. rewrite E1.
    destruct (ref_step cap st o) as [r st1]. cbn [fst snd mbind outcome_bind] in *.
    destruct (IH (n + 1) s1 st1 Hos ltac:(lia) H1) as (s2 & E2 & H2). rewrite E2.
    destruct (ref_run cap st1 os) as [rs st2]. cbn in *. exists s2. split; [done|]. by replace (n + (1 + len os)) with (n + 1 + len os) by lia.
Qed.

Lemma new_agree cap : agree cap 0 (new cap) (mk_ref [] [] 0).
Proof.
  split; cbn; try done; [|by right; cbn; lia].
  split; cbn; try done.
  - exists []. split; try done; by constructor.
  - split; try done.
    + by constructor.
    + intros a. rewrite lookup_empty. split; [by intros []|lia].
Qed.
End reference.

(** ** Sharding *)

(** The shard of a key is one of the sixteen, so no operation indexes out of range. *)
Lemma shard_for_range key : 0 <= ShardedLRUCache.shard_for key < NUM_SHARDS.
Proof.
  unfold ShardedLRUCache.shard_for. pose proof (hash_u32 key 0 ltac:(unfold is_u32; lia)) as Hh. unfold is_u32 in Hh.
  change (32 - NUM_SHARD_BITS) with 28. change NUM_SHARDS with 16. rewrite Z.shiftr_div_pow2 by lia.
  split; [apply Z.div_pos; lia|]. apply Z.div_lt_upper_bound; lia.
Qed.

Lemma on_shard_ok {V A} (c : ShardedLRUCache.t V) key (f : LruShard.t V -> outcome (A * LruShard.t V)) :
  length (ShardedLRUCache.shards c) = 16%nat ->
  exists s, ShardedLRUCache.shards c !! Z.to_nat (ShardedLRUCache.shard_for key) = Some s /\
    ShardedLRUCache.on_shard c key f =
      '(a, s) ← f s;
      Ret (a, ShardedLRUCache.mk (<[Z.to_nat (ShardedLRUCache.shard_for key) := s]> (ShardedLRUCache.shards c)) (ShardedLRUCache.next_id c)).
Proof.
  intros Hlen. pose proof (shard_for_range key) as Hr. change NUM_SHARDS with 16 in Hr.
  destruct (lookup_lt_is_Some_2 (ShardedLRUCache.shards c) (Z.to_nat (ShardedLRUCache.shard_for key))) as [s Hs]; [lia|].
  exists s. split; [done|]. unfold ShardedLRUCache.on_shard, index. rewrite (proj2 (Z.leb_le 0 _)) by lia. rewrite Hs.
  cbn [expect mbind outcome_bind]. destruct (f s) as [[a s']| |]; [|done..]. cbn [mbind outcome_bind].
  unfold set_index. rewrite (proj2 (Z.leb_le 0 _)) by lia. unfold len. rewrite Hlen.
  by rewrite (proj2 (Z.ltb_lt _ (Z.of_nat 16))) by lia.
Qed.

(** ** The sharded cache keeps the interface's promise *)

Definition sharded_ok {V} (c : ShardedLRUCache.t V) : Prop := length (ShardedLRUCache.shards c) = 16%nat.
Definition sharded_cached {V} (c : ShardedLRUCache.t V) (key : bytes) (v : V) : Prop :=
  exists s e, ShardedLRUCache.shards c !! Z.to_nat (ShardedLRUCache.shard_for key) = Some s /\
    LruShard.entries s !! key = Some e /\ v = handle_value (handle e).

Section sharded.
Context {V : Type}.
Implicit Types s : LruShard.t V.

Lemma erase_entries s key : LruShard.entries (LruShard.erase s key) = delete key (LruShard.entries s).
Proof. unfold LruShard.erase. destruct (_ !! _) eqn:E; [done|]. by rewrite delete_id. Qed.

Lemma evict_oldest_entries s : LruShard.entries s <> ∅ ->
  exists k, is_Some (LruShard.entries s !! k) /\ LruShard.entries (LruShard.evict_oldest s) = delete k (LruShard.entries s).
Proof.
  intros Hne. unfold LruShard.evict_oldest. destruct (LruShard.min_access (map_to_list (LruShard.entries s))) as [[k e]|] eqn:E.
  - exists k. split; [|apply erase_entries]. assert (Hin : forall (l : list (bytes * ShardEntry V)) x, LruShard.min_access l = Some x -> x ∈ l).
    { induction l as [|y l IH]; intros x Hx; [done|]. cbn in Hx. destruct (LruShard.min_access l) as [z|]; [case_match|]; simplify_eq.
      - right. by apply IH.
      - by left.
      - by left. }
    apply Hin, elem_of_map_to_list in E. by eexists.
  - exfalso. apply Hne, map_to_list_empty_iff. destruct (map_to_list _) as [|x l]; [done|]. cbn in E.
    destruct (LruShard.min_access l); [by case_match|done].
Qed.

(** Making room always ends, and only drops entries. *)
Lemma evict_loop_total fuel s c : (size (LruShard.entries s) <= fuel)%nat ->
  exists s', LruShard.evict_loop fuel s c = Ret s' /\ LruShard.entries s' ⊆ LruShard.entries s.
Proof.
  revert s. induction fuel as [|fuel IH]; intros s Hs; cbn [LruShard.evict_loop].
  - rewrite (bool_decide_eq_true_2 (LruShard.entries s = ∅)) by (apply map_size_empty_inv; lia). rewrite andb_false_r. by exists s.
  - destruct (_ && _) eqn:E; [|by exists s]. apply andb_true_iff in E as [_ E]. apply negb_true_iff, bool_decide_eq_false in E.
    destruct (evict_oldest_entries s E) as (k & Hk & Hd). destruct (IH (LruShard.evict_oldest s)) as (s' & -> & Hs').
    + rewrite Hd, map_size_delete_Some by done. lia.
    + exists s'. split; [done|]. rewrite Hd in Hs'. etrans; [exact Hs'|]. apply delete_subseteq.
Qed.

Lemma shard_insert_ok s key v c : exists h s', LruShard.insert s key v c = Ret (h, s') /\
  forall k e, LruShard.entries s' !! k = Some e -> LruShard.entries s !! k = Some e \/ (k = key /\ handle_value (handle e) = v).
Proof.
  unfold LruShard.insert. destruct (evict_loop_total (size (LruShard.entries (LruShard.erase s key))) (LruShard.erase s key) c)
    as (s' & -> & Hs'); [done|]. cbn [mbind outcome_bind]. do 2 eexists. split; [done|]. cbn [LruShard.entries].
  intros k e [[<- <-]|[Hne Hk]]%lookup_insert_Some; [by right|]. left. apply (lookup_weaken _ _ _ _ Hk) in Hs'.
  rewrite erase_entries in Hs'. by apply lookup_delete_Some in Hs' as [_ ?].
Qed.

Lemma shard_lookup_ok s key : exists r s', LruShard.lookup s key = (r, s') /\
  (forall h, r = Some h -> exists e, LruShard.entries s !! key = Some e /\ handle e = h) /\
  (forall k e, LruShard.entries s' !! k = Some e -> exists e', LruShard.entries s !! k = Some e' /\ handle e' = handle e).
Proof.
  unfold LruShard.lookup. destruct (LruShard.entries s !! key) as [e|] eqn:E; do 2 eexists; (split; [done|]); split.
  - intros h [= <-]. by exists e.
  - cbn. intros k e' [[<- <-]|[Hne Hk]]%lookup_insert_Some; [by exists e|by exists e'].
  - done.
  - cbn. intros k e' Hk. by exists e'.
Qed.

(** Replacing the shard of [key]: what the cache holds afterwards. *)
Lemma cached_update (c : ShardedLRUCache.t V) key s' key' v : sharded_ok c ->
  sharded_cached (ShardedLRUCache.mk (<[Z.to_nat (ShardedLRUCache.shard_for key) := s']> (ShardedLRUCache.shards c)) (ShardedLRUCache.next_id c)) key' v ->
  sharded_cached c key' v \/
    (ShardedLRUCache.shard_for key' = ShardedLRUCache.shard_for key /\ exists e, LruShard.entries s' !! key' = Some e /\ v = handle_value (handle e)).
Proof.
  intros Hok (s & e & Hs & He & ->). cbn [ShardedLRUCache.shards] in Hs. pose proof (shard_for_range key). pose proof (shard_for_range key').
  apply list_lookup_insert_Some in Hs as [(Hi & <- & _)|[_ Hs]].
  - right. split; [lia|]. by exists e.
  - left. by exists s, e.
Qed.
End sharded.

#[export] Instance Sharded_CacheLaws {V} : CacheLaws (V:=V) sharded_ok sharded_cached.
Proof.
  split.
  - intros c key Hok. destruct (on_shard_ok c key (fun s => Ret (LruShard.lookup s key)) Hok) as (s & Hs & E).
    destruct (shard_lookup_ok s key) as (r & s' & El & H1 & H2). rewrite El in E. cbn [mbind outcome_bind] in E.
    do 2 eexists. split; [exact E|]. split; [by unfold sharded_ok; cbn; rewrite length_insert|]. split.
    + intros h Hh. destruct (H1 h Hh) as (e & He & <-). by exists s, e.
    + intros key' v [Hc|(Hsh & e & He & ->)]%cached_update; [done| |done]. destruct (H2 _ _ He) as (e' & He' & <-).
      exists s, e'. by rewrite Hsh.
  - intros c key v ch Hok. destruct (on_shard_ok c key (fun s => LruShard.insert s key v ch) Hok) as (s & Hs & E).
    destruct (shard_insert_ok s key v ch) as (h & s' & Ei & H1). rewrite Ei in E. cbn [mbind outcome_bind] in E.
    do 2 eexists. split; [exact E|]. split; [by unfold sharded_ok; cbn; rewrite length_insert|].
    intros key' v' [Hc|(Hsh & e & He & ->)]%cached_update; [by left| |done]. destruct (H1 _ _ He) as [He'|[-> <-]]; [|by right].
    left. exists s, e. by rewrite Hsh.
Qed.
#[export] Instance Sharded_CacheIdLaws {V} : CacheIdLaws (V:=V) sharded_ok sharded_cached.
Proof. intros c Hok. by split. Qed.
#[export] Instance Sharded_CacheFreshLaws {V} : CacheFreshLaws (V:=V) ShardedLRUCache.next_id.
Proof.
  assert (Hn : forall A (c c' : ShardedLRUCache.t V) key (f : _ -> outcome (A * _)) a,
    ShardedLRUCache.on_shard c key f = Ret (a, c') -> ShardedLRUCache.next_id c' = ShardedLRUCache.next_id c).
  { intros A c c' key f a E. unfold ShardedLRUCache.on_shard in E. destruct (index _ _) as [s| |]; [|done..]. cbn in E.
    destruct (f s) as [[x s']| |]; [|done..]. cbn in E. destruct (set_index _ _ _); [|done..]. cbn in E. by injection E as <- <-. }
  split.
  - intros c key r c'. apply Hn.
  - intros c key v ch h c'. apply Hn.
  - intros c H0 H1. cbn. split; [done|]. apply as_u64_id. unfold is_u64. lia.
Qed.
Lemma sharded_new_ok {V} cap : sharded_ok (ShardedLRUCache.new (V:=V) cap).
Proof. done. Qed.
Lemma sharded_new_empty {V} cap key v : ~ sharded_cached (ShardedLRUCache.new (V:=V) cap) key v.
Proof. intros (s & e & Hs & He & _). apply lookup_replicate_1 in Hs as [-> _]. done. Qed.

(** ** Claims *)

(** C22: (LruShard) For any sequence of inserts, lookups, erasures, prunings and handle drops,
    whatever the charges below 2^63, a shard answers as the reference cache does, which
    keeps its items in order of use, makes room by dropping the least recently used ones
    until the new charge fits, and prunes exactly the items no handle refers to; afterwards
    its map holds the reference's items. *)
Theorem lru_shard_refines {V} cap (os : list (op (V:=V))) : small cap -> Forall op_ok os -> len os < 2 ^ 64 ->
  exists s, shard_run (LruShard.new cap, []) os =
      Ret (fst (ref_run cap (mk_ref [] [] 0) os), (s, held (snd (ref_run cap (mk_ref [] [] 0) os)))) /\
    forall k, handle <$> LruShard.entries s !! k = ref_find k (items (snd (ref_run cap (mk_ref [] [] 0) os))).
Proof.
  intros Hcap Hos Hn. destruct (run_agree cap os 0 (LruShard.new cap) (mk_ref [] [] 0)) as (s & E & Ha);
    [done|done|by rewrite Z.add_0_l|apply new_agree|].
  exists s. split; [exact E|]. intros k. destruct (holds_lists _ _ _ (agree_holds _ _ _ _ Ha)) as [es Hl].
  apply (lists_lookup _ _ _ _ k Hl).
Qed.

Definition sample_cache_ops : list (op (V:=Z)) :=
  let b := list_byte_of_string in
  [OpInsert (b "a") 1 40; OpInsert (b "b") 2 40; OpLookup (b "a"); OpInsert (b "c") 3 40;
   OpLookup (b "b"); OpDrop 0%nat; OpDrop 0%nat; OpPrune; OpLookup (b "a"); OpLookup (b "c")]%string.

Lemma sample_cache_ops_ok : Forall op_ok sample_cache_ops.
Proof. repeat constructor; cbn; unfold small; lia. Qed.

Lemma lru_shard_refines_witness :
  let b := list_byte_of_string in
  map (option_map handle_value) (fst (ref_run 100 (mk_ref [] [] 0) sample_cache_ops)) =
    [Some 1; Some 2; Some 1; Some 3; None; None; None; None; None; Some 3] /\
  exists s, shard_run (LruShard.new 100, []) sample_cache_ops =
      Ret (fst (ref_run 100 (mk_ref [] [] 0) sample_cache_ops), (s, [2; 2; 1]%nat)) /\
    handle <$> LruShard.entries s !! b "b"%string = None.
Proof.
  intros b. split; [vm_compute; reflexivity|].
  destruct (lru_shard_refines 100 sample_cache_ops) as (s & E & Hs);
    [unfold small; lia|apply sample_cache_ops_ok|reflexivity|].
  exists s. split; [exact E|]. rewrite Hs. vm_compute. reflexivity.
Defined.

(** C23: (LruShard invariant) In every state a shard reaches, the byte count is the sum of the
    charges of its entries, it exceeds the capacity only when a single entry is left, and
    each allocation's strong count is one for the shard if it holds it plus one for every
    handle the clients hold. *)
Theorem lru_shard_accounting {V} cap (os : list (op (V:=V))) outs s hs : small cap -> Forall op_ok os -> len os < 2 ^ 64 ->
  shard_run (LruShard.new cap, []) os = Ret (outs, (s, hs)) ->
  LruShard.usage s = LruShard.total (map snd (map_to_list (LruShard.entries s))) /\
  (LruShard.usage s <= cap \/ (size (LruShard.entries s) <= 1)%nat) /\
  forall a, LruShard.strong_count s a =
    (length (filter (fun x => arc (handle x.2) = a) (map_to_list (LruShard.entries s))) + count_occ Nat.eq_dec hs a)%nat.
Proof.
  intros Hcap Hos Hn Hrun. destruct (run_agree cap os 0 (LruShard.new cap) (mk_ref [] [] 0)) as (s' & E & Ha);
    [done|done|by rewrite Z.add_0_l|apply new_agree|]. cbn [held] in E. rewrite Hrun in E. injection E as -> -> ->.
  destruct Ha as [Hh _ _ Hfi _]. pose proof (size_entries _ _ _ Hh) as Hsz. destruct Hh as [[es Hl] Hc Hu _].
  assert (Hp : map_to_list (LruShard.entries s') ≡ₚ es).
  { rewrite (lists_map _ _ _ _ Hl). apply map_to_list_to_map, (lists_nodup _ _ _ _ Hl). }
  split_and!.
  - rewrite Hu, (total_perm _ _ (Permutation_map snd Hp)), total_forget. by rewrite (lists_forget _ _ _ _ Hl).
  - rewrite Hu, Hsz. destruct Hfi; [by left|by right].
  - intros a. unfold LruShard.strong_count. rewrite (counted_sum _ _ _ _ Hc). f_equal. rewrite Hp, <- (lists_forget _ _ _ _ Hl), arcs_forget.
    clear. induction es as [|x es IH]; [done|]. cbn [map count_occ]. rewrite filter_cons.
    destruct (Nat.eq_dec _ _), (decide _); try done; cbn [length]; by rewrite IH.
Qed.

Lemma lru_shard_accounting_witness :
  exists outs s, shard_run (LruShard.new 100, []) sample_cache_ops = Ret (outs, (s, [2; 2; 1]%nat)) /\
    LruShard.usage s = LruShard.total (map snd (map_to_list (LruShard.entries s))) /\
    (LruShard.usage s <= 100 \/ (size (LruShard.entries s) <= 1)%nat) /\
    forall a, LruShard.strong_count s a =
      (length (filter (fun x => arc (handle x.2) = a) (map_to_list (LruShard.entries s))) + count_occ Nat.eq_dec [2; 2; 1]%nat a)%nat.
Proof.
  assert (Hcap : small 100) by (unfold small; lia).
  destruct (run_agree 100 sample_cache_ops 0 (LruShard.new 100) (mk_ref [] [] 0)) as (s & E & _);
    [exact Hcap|apply sample_cache_ops_ok|reflexivity|apply new_agree|].
  eexists _, s. split; [exact E|].
  exact (lru_shard_accounting 100 sample_cache_ops _ s _ Hcap sample_cache_ops_ok eq_refl E).
Defined.
