(* ===== verification/TableBuilder.v ===== *)
(** * TableBuilder.v: the writing half of [table/table.rs], and [table/table_footer.rs].

    The footer, the [Compressor] trait, the in-memory [TableBuilder] and the streaming
    [TableFileBuilder], whose methods act on the builder and on the file system state at
    once.  On an error the builder keeps what it had done, as the code does. *)
From S2P Require Import Prelude Status Coding Crc32c Comparator Filter FilterBlock Block Env.

Definition DEFAULT_BLOCK_SIZE : Z := 4096.
Definition DEFAULT_BLOCK_RESTART_INTERVAL : Z := 16.
Definition BLOCK_TRAILER_SIZE : Z := 5.

(** ** [TableFooter] *)

Module TableFooter.
Definition ENCODED_LENGTH : Z := 48.
Definition MAGIC : Z := 15800726617472432983.
Record t := mk { metaindex : BlockHandle.t; index : BlockHandle.t }.
Definition encode (f : t) (dst : bytes) : bytes :=
  let start := len dst in
  let dst := BlockHandle.encode (metaindex f) dst in
  let dst := BlockHandle.encode (index f) dst in
  let dst := if len dst - start <? 40
             then dst ++ replicate (Z.to_nat (start + 40 - len dst)) (as_u8 0) else dst in
  put_fixed64 dst MAGIC.
Definition decode_from : reader t := fun input =>
  if len input <? ENCODED_LENGTH then (Fail (Stat.corruption "TableFooter: truncated input"), input) else
  match (magic_bytes ← slice input (ENCODED_LENGTH - 8) ENCODED_LENGTH; decode_fixed64 magic_bytes) with
  | Ret magic =>
      if negb (magic =? MAGIC) then (Fail (Stat.corruption "TableFooter: bad magic number"), input) else
      match (metaindex ← BlockHandle.decode_from; index ← BlockHandle.decode_from; mret (mk metaindex index))
              (ztake (ENCODED_LENGTH - 8) input) with
      | (Ret f, _) => (Ret f, zdrop ENCODED_LENGTH input)
      | (o, _) => (o, input)
      end
  | Fail s => (Fail s, input)
  | Panic => (Panic, input)
  end.
End TableFooter.

(** ** [Compressor] *)

Class Compressor (Co : Type) := {
  comp_kind : Co -> Z;
  compress : Co -> bytes -> option bytes;
  decompress : Co -> bytes -> outcome bytes;
}.
(** What the trait's documentation asks: kind bytes above zero, and decompression undoes
    compression. *)
Class CompressorLaws {Co} `{Compressor Co} (c : Co) : Prop := {
  comp_kind_law : 0 < comp_kind c < 256;
  decompress_law x y : compress c x = Some y -> decompress c y = Ret x;
}.

(** The checksum of a stored block: its bytes and the kind byte. *)
Definition block_crc (body : bytes) (kind : Z) : Z := extend (Crc32c.value body) [as_u8 kind].

(** ** [TableBuilder] *)

Module TableBuilder.
Section TableBuilder.
Context {C : Type} `{Comparator C}.

Record t := mk {
  comparator : C;
  block_size : Z;
  sink : bytes;
  data_block : BlockBuilder.t C;
  index_block : BlockBuilder.t C;
  last_key : bytes;
  num_entries : Z;
  closed : bool;
  pending_index_entry : bool;
  pending_handle : BlockHandle.t;
}.

Definition new (c : C) (block_size restart_interval : Z) : outcome t :=
  _ ← assert (1 <=? restart_interval);
  data_block ← BlockBuilder.new c restart_interval;
  index_block ← BlockBuilder.new c 1;
  Ret (mk c block_size [] data_block index_block [] 0 false false (BlockHandle.mk 0 0)).
Definition with_defaults (c : C) : outcome t := new c DEFAULT_BLOCK_SIZE DEFAULT_BLOCK_RESTART_INTERVAL.
Definition file_size (b : t) : Z := len (sink b).

Definition write_block (sink block_data : bytes) : BlockHandle.t * bytes :=
  let kind := BlockTrailer.KIND_NO_COMPRESSION in
  let crc := block_crc block_data kind in
  let offset := len sink in
  (BlockHandle.mk offset (len block_data), BlockTrailer.encode (BlockTrailer.mk kind crc) (sink ++ block_data)).

Definition flush (b : t) : outcome t :=
  _ ← assert (negb (closed b));
  if BlockBuilder.empty (data_block b) then Ret b else
  _ ← assert (negb (pending_index_entry b));
  let '(_, block_bytes) := BlockBuilder.finish (data_block b) in
  let '(handle, out) := write_block (sink b) block_bytes in
  Ret (mk (comparator b) (block_size b) out (BlockBuilder.reset (data_block b)) (index_block b) (last_key b)
          (num_entries b) (closed b) true handle).

(** [if self.pending_index_entry {..}]: the index entry under the key [last_key] has been
    turned into. *)
Definition add_index (b : t) (last_key : bytes) : outcome t :=
  index ← BlockBuilder.add (index_block b) last_key (BlockHandle.encode (pending_handle b) []);
  Ret (mk (comparator b) (block_size b) (sink b) (data_block b) index last_key
          (num_entries b) (closed b) false (pending_handle b)).

Definition add (b : t) (key value : bytes) : outcome t :=
  _ ← assert (negb (closed b));
  ordered ← (if 0 <? num_entries b then o ← compare (comparator b) key (last_key b); Ret (is_gt o) else Ret true);
  _ ← assert ordered;
  b ← (if pending_index_entry b then
         _ ← assert (BlockBuilder.empty (data_block b));
         sep ← find_shortest_separator (comparator b) (last_key b) key;
         add_index b sep
       else Ret b);
  data ← BlockBuilder.add (data_block b) key value;
  let b := mk (comparator b) (block_size b) (sink b) data (index_block b) key
              (num_entries b + 1) (closed b) (pending_index_entry b) (pending_handle b) in
  if block_size b <=? BlockBuilder.current_size_estimate data then flush b else Ret b.

Definition finish (b : t) : outcome t :=
  _ ← assert (negb (closed b));
  b ← flush b;
  meta ← BlockBuilder.new (comparator b) 1;
  let '(_, meta_bytes) := BlockBuilder.finish meta in
  let '(meta_handle, out) := write_block (sink b) meta_bytes in
  let b := mk (comparator b) (block_size b) out (data_block b) (index_block b) (last_key b)
              (num_entries b) (closed b) (pending_index_entry b) (pending_handle b) in
  b ← (if pending_index_entry b then succ ← find_short_successor (comparator b) (last_key b); add_index b succ else Ret b);
  let '(index, index_bytes) := BlockBuilder.finish (index_block b) in
  let '(index_handle, out) := write_block (sink b) index_bytes in
  Ret (mk (comparator b) (block_size b) (TableFooter.encode (TableFooter.mk meta_handle index_handle) out)
          (data_block b) index (last_key b) (num_entries b) true (pending_index_entry b) (pending_handle b)).

Definition contents (b : t) : outcome bytes := _ ← assert (closed b); Ret (sink b).
End TableBuilder.
Arguments t : clear implicits.
End TableBuilder.

(** ** [TableFileBuilder] *)

Module TableFileBuilder.
Section TableFileBuilder.
Context {W C P Co : Type} `{Env W} `{Comparator C} `{FilterPolicy P} `{Compressor Co}.

Record t := mk {
  comparator : C;
  block_size : Z;
  file : Writable;
  offset : Z;
  data_block : BlockBuilder.t C;
  index_block : BlockBuilder.t C;
  last_key : bytes;
  num_entries : Z;
  closed : bool;
  pending_index_entry : bool;
  pending_handle : BlockHandle.t;
  filter_block : option (FilterBlockBuilder.t (InternalFilterPolicy P));
  filter_policy_name : option string;
  compressor : option Co;
}.

(** Field updates. *)
Definition set_offset (o : Z) (b : t) : t :=
  mk (comparator b) (block_size b) (file b) o (data_block b) (index_block b) (last_key b) (num_entries b) (closed b)
     (pending_index_entry b) (pending_handle b) (filter_block b) (filter_policy_name b) (compressor b).
Definition set_data (d : BlockBuilder.t C) (b : t) : t :=
  mk (comparator b) (block_size b) (file b) (offset b) d (index_block b) (last_key b) (num_entries b) (closed b)
     (pending_index_entry b) (pending_handle b) (filter_block b) (filter_policy_name b) (compressor b).
Definition set_index (i : BlockBuilder.t C) (b : t) : t :=
  mk (comparator b) (block_size b) (file b) (offset b) (data_block b) i (last_key b) (num_entries b) (closed b)
     (pending_index_entry b) (pending_handle b) (filter_block b) (filter_policy_name b) (compressor b).
Definition set_last_key (k : bytes) (b : t) : t :=
  mk (comparator b) (block_size b) (file b) (offset b) (data_block b) (index_block b) k (num_entries b) (closed b)
     (pending_index_entry b) (pending_handle b) (filter_block b) (filter_policy_name b) (compressor b).
Definition set_num (n : Z) (b : t) : t :=
  mk (comparator b) (block_size b) (file b) (offset b) (data_block b) (index_block b) (last_key b) n (closed b)
     (pending_index_entry b) (pending_handle b) (filter_block b) (filter_policy_name b) (compressor b).
Definition set_closed (c : bool) (b : t) : t :=
  mk (comparator b) (block_size b) (file b) (offset b) (data_block b) (index_block b) (last_key b) (num_entries b) c
     (pending_index_entry b) (pending_handle b) (filter_block b) (filter_policy_name b) (compressor b).
Definition set_pending (p : bool) (b : t) : t :=
  mk (comparator b) (block_size b) (file b) (offset b) (data_block b) (index_block b) (last_key b) (num_entries b) (closed b)
     p (pending_handle b) (filter_block b) (filter_policy_name b) (compressor b).
Definition set_handle (h : BlockHandle.t) (b : t) : t :=
  mk (comparator b) (block_size b) (file b) (offset b) (data_block b) (index_block b) (last_key b) (num_entries b) (closed b)
     (pending_index_entry b) h (filter_block b) (filter_policy_name b) (compressor b).
Definition set_filter (f : option (FilterBlockBuilder.t (InternalFilterPolicy P))) (b : t) : t :=
  mk (comparator b) (block_size b) (file b) (offset b) (data_block b) (index_block b) (last_key b) (num_entries b) (closed b)
     (pending_index_entry b) (pending_handle b) f (filter_policy_name b) (compressor b).
Definition set_file (f : Writable) (b : t) : t :=
  mk (comparator b) (block_size b) f (offset b) (data_block b) (index_block b) (last_key b) (num_entries b) (closed b)
     (pending_index_entry b) (pending_handle b) (filter_block b) (filter_policy_name b) (compressor b).

Definition with_options (c : C) (block_size restart_interval : Z) (file : Writable) (filter_policy : option P)
    (compressor : option Co) : outcome t :=
  _ ← assert (1 <=? restart_interval);
  '(filter_block, name) ← match filter_policy with
    | Some policy =>
        fb ← FilterBlockBuilder.start_block (FilterBlockBuilder.new (mk_internal_filter policy)) 0;
        Ret (Some fb, Some (filter_name policy))
    | None => Ret (None, None)
    end;
  data_block ← BlockBuilder.new c restart_interval;
  index_block ← BlockBuilder.new c 1;
  Ret (mk c block_size file 0 data_block index_block [] 0 false false (BlockHandle.mk 0 0) filter_block name compressor).
Definition with_filter c block_size restart_interval file filter_policy : outcome t :=
  with_options c block_size restart_interval file filter_policy None.
Definition new c block_size restart_interval file : outcome t := with_filter c block_size restart_interval file None.
Definition with_defaults c file : outcome t := new c DEFAULT_BLOCK_SIZE DEFAULT_BLOCK_RESTART_INTERVAL file.
Definition with_defaults_and_filter c file filter_policy : outcome t :=
  with_filter c DEFAULT_BLOCK_SIZE DEFAULT_BLOCK_RESTART_INTERVAL file filter_policy.
Definition with_defaults_filter_and_compressor c file filter_policy compressor : outcome t :=
  with_options c DEFAULT_BLOCK_SIZE DEFAULT_BLOCK_RESTART_INTERVAL file filter_policy compressor.
Definition file_size (b : t) : Z := offset b.

(** The builder and the file system. *)
Abbreviation S := (t * W)%type (only parsing).
Definition modify (f : t -> t) : action S unit := fun s => (Ret tt, (f s.1, s.2)).
Definition gets {A} (f : t -> A) : action S A := fun s => (Ret (f s.1), s).
Definition on_fs {A} (m : action W A) : action S A := fun s => let '(r, w) := m s.2 in (r, (s.1, w)).

Definition compress_block (c : option Co) (block_data : bytes) : Z * bytes :=
  match c with
  | Some c => match compress c block_data with
              | Some bs => (comp_kind c, bs)
              | None => (BlockTrailer.KIND_NO_COMPRESSION, block_data)
              end
  | None => (BlockTrailer.KIND_NO_COMPRESSION, block_data)
  end.

Definition write_block (block_data : bytes) : action S BlockHandle.t :=
  b ← gets id;
  let '(kind, body) := compress_block (compressor b) block_data in
  let offset := offset b in
  let encoded := BlockTrailer.encode (BlockTrailer.mk kind (block_crc body kind)) body in
  _ ← on_fs (w_append (file b) encoded);
  _ ← modify (set_offset (as_u64 (offset + len encoded)));
  mret (BlockHandle.mk offset (len body)).

Definition flush : action S unit :=
  b ← gets id;
  _ ← lift (assert (negb (closed b)));
  if BlockBuilder.empty (data_block b) then mret tt else
  _ ← lift (assert (negb (pending_index_entry b)));
  let '(data, block_bytes) := BlockBuilder.finish (data_block b) in
  _ ← modify (set_data data);
  handle ← write_block block_bytes;
  _ ← modify (set_data (BlockBuilder.reset data));
  _ ← modify (set_handle handle);
  _ ← modify (set_pending true);
  b ← gets id;
  match filter_block b with
  | Some fb => fb ← lift (FilterBlockBuilder.start_block fb (offset b)); modify (set_filter (Some fb))
  | None => mret tt
  end.

(** The pending index entry, under the key [last_key] has been turned into. *)
Definition add_index (last_key : bytes) : action S unit :=
  _ ← modify (set_last_key last_key);
  b ← gets id;
  index ← lift (BlockBuilder.add (index_block b) last_key (BlockHandle.encode (pending_handle b) []));
  _ ← modify (set_index index);
  modify (set_pending false).

Definition add (key value : bytes) : action S unit :=
  b ← gets id;
  _ ← lift (assert (negb (closed b)));
  ordered ← lift (if 0 <? num_entries b then o ← compare (comparator b) key (last_key b); Ret (is_gt o) else Ret true);
  _ ← lift (assert ordered);
  _ ← (if pending_index_entry b then
         _ ← lift (assert (BlockBuilder.empty (data_block b)));
         sep ← lift (find_shortest_separator (comparator b) (last_key b) key);
         add_index sep
       else mret tt);
  _ ← modify (fun b => set_filter ((fun fb => FilterBlockBuilder.add_key fb key) <$> filter_block b) b);
  _ ← modify (set_last_key key);
  _ ← modify (fun b => set_num (as_u64 (num_entries b + 1)) b);
  data ← lift (BlockBuilder.add (data_block b) key value);
  _ ← modify (set_data data);
  if block_size b <=? BlockBuilder.current_size_estimate data then flush else mret tt.

(** [format!("filter.{name}")] *)
Definition filter_key (name : string) : bytes := list_byte_of_string ("filter." +:+ name).

Definition finish : action S unit :=
  b ← gets id;
  _ ← lift (assert (negb (closed b)));
  _ ← flush;
  b ← gets id;
  filter_block_handle ← match filter_block b with
    | Some fb =>
        '(fb, bs) ← lift (FilterBlockBuilder.finish fb);
        _ ← modify (set_filter (Some fb));
        handle ← write_block bs;
        mret (Some handle)
    | None => mret None
    end;
  meta ← lift (BlockBuilder.new (comparator b) 1);
  meta ← match filter_block_handle, filter_policy_name b with
    | Some handle, Some name => lift (BlockBuilder.add meta (filter_key name) (BlockHandle.encode handle []))
    | _, _ => mret meta
    end;
  metaindex_handle ← write_block (BlockBuilder.finish meta).2;
  b ← gets id;
  _ ← (if pending_index_entry b then
         succ ← lift (find_short_successor (comparator b) (last_key b));
         add_index succ
       else mret tt);
  b ← gets id;
  let '(index, index_bytes) := BlockBuilder.finish (index_block b) in
  _ ← modify (set_index index);
  index_handle ← write_block index_bytes;
  let footer_bytes := TableFooter.encode (TableFooter.mk metaindex_handle index_handle) [] in
  b ← gets id;
  _ ← on_fs (w_append (file b) footer_bytes);
  _ ← modify (fun b => set_offset (as_u64 (offset b + len footer_bytes)) b);
  _ ← on_fs (w_flush (file b));
  modify (set_closed true).

Definition sync : action S unit :=
  b ← gets id; _ ← lift (assert (closed b)); on_fs (w_sync (file b)).
Definition close : action S unit :=
  b ← gets id; f ← on_fs (w_close (file b)); modify (set_file f).

(** Building a whole table: [add] for every entry, then [finish]. *)
Fixpoint add_all (es : list (bytes * bytes)) : action S unit :=
  match es with
  | [] => mret tt
  | (k, v) :: es => _ ← add k v; add_all es
  end.
End TableFileBuilder.
Arguments t W C P Co {_}.
End TableFileBuilder.
