(* ===== verification/TableFormat.v ===== *)
(** * TableFormat.v: what a table file is.

    The predicate [table_ok] between a file's bytes and the data blocks it holds: where
    each block is stored, what it decodes to, which keys separate the blocks.  The builder
    is shown to produce it (TableBuilderCorrect.v) and the reader to read it
    (TableCorrect.v); neither proof looks at the other side. *)
From S2P Require Import Prelude Status Coding Crc32c Comparator DbIterator Filter FilterBlock Block BlockCorrect TableBuilder.

(** ** Handles, trailers and the footer *)

Definition handle_ok (h : BlockHandle.t) : Prop := is_u64 (BlockHandle.offset h) /\ is_u64 (BlockHandle.size h).

Lemma handle_encode_app h dst : BlockHandle.encode h dst = dst ++ BlockHandle.encode h [].
Proof.
  unfold BlockHandle.encode. rewrite put_varint64_app, (put_varint64_app dst), (put_varint64_app (put_varint64 [] _)).
  by rewrite app_assoc.
Qed.

Lemma handle_decode h rest : handle_ok h ->
  BlockHandle.decode_from (BlockHandle.encode h [] ++ rest) = (Ret h, rest).
Proof.
  intros [Ho Hs]. unfold BlockHandle.decode_from, BlockHandle.encode. rewrite put_varint64_app, <- app_assoc.
  erewrite action_bind_ret by (by apply need_some, get_varint64_put).
  erewrite action_bind_ret by (by apply need_some, get_varint64_put). by destruct h.
Qed.
Lemma handle_decode_all h : handle_ok h -> BlockHandle.decode_from (BlockHandle.encode h []) = (Ret h, []).
Proof. intros Hh. rewrite <- (app_nil_r (BlockHandle.encode h [])). by apply handle_decode. Qed.

Lemma handle_len h : len (BlockHandle.encode h []) <= 20.
Proof.
  unfold BlockHandle.encode. rewrite put_varint64_app, len_app.
  pose proof (put_varint64_len (BlockHandle.offset h)). pose proof (put_varint64_len (BlockHandle.size h)). lia.
Qed.

Lemma trailer_encode_app x dst : BlockTrailer.encode x dst = dst ++ BlockTrailer.encode x [].
Proof. unfold BlockTrailer.encode, put_fixed32. by rewrite <- app_assoc. Qed.
Lemma trailer_len x : len (BlockTrailer.encode x []) = 5.
Proof. unfold BlockTrailer.encode, put_fixed32. by rewrite len_app, len_le_split. Qed.
Lemma trailer_decode k c : 0 <= k < 256 -> is_u32 c ->
  BlockTrailer.decode_from (BlockTrailer.encode (BlockTrailer.mk k c) []) = (Ret (BlockTrailer.mk k c), []).
Proof.
  intros Hk Hc. unfold BlockTrailer.decode_from, BlockTrailer.encode, put_fixed32. cbn [app BlockTrailer.kind BlockTrailer.crc].
  erewrite action_bind_ret by (apply need_some, (get_u8_app _ (to_le_bytes 4 (mask c)))).
  rewrite <- (app_nil_r (to_le_bytes 4 (mask c))).
  erewrite action_bind_ret by (apply need_some, get_fixed32_app, mask_u32).
  by rewrite unmask_mask, u8_as_u8_id by done.
Qed.

Definition footer_ok (f : TableFooter.t) : Prop := handle_ok (TableFooter.metaindex f) /\ handle_ok (TableFooter.index f).

(** The handles, padded with zeros to 40 bytes, and the magic number. *)
Definition footer_bytes (f : TableFooter.t) : bytes :=
  let hs := BlockHandle.encode (TableFooter.metaindex f) [] ++ BlockHandle.encode (TableFooter.index f) [] in
  (hs ++ replicate (Z.to_nat (40 - len hs)) (as_u8 0)) ++ to_le_bytes 8 TableFooter.MAGIC.
Lemma footer_encode f dst : TableFooter.encode f dst = dst ++ footer_bytes f.
Proof.
  unfold TableFooter.encode, footer_bytes, put_fixed64. rewrite handle_encode_app, (handle_encode_app _ dst), <- app_assoc.
  set (hs := BlockHandle.encode _ [] ++ _). rewrite len_app. zcase.
  - replace (len dst + 40 - (len dst + len hs)) with (40 - len hs) by lia. by rewrite <- !app_assoc.
  - replace (40 - len hs) with 0 by (unfold hs in *; rewrite len_app in *; pose proof (handle_len (TableFooter.metaindex f));
      pose proof (handle_len (TableFooter.index f)); lia). cbn. by rewrite app_nil_r, <- app_assoc.
Qed.
Lemma footer_len f : len (footer_bytes f) = 48.
Proof.
  unfold footer_bytes. set (hs := BlockHandle.encode _ [] ++ _). rewrite !len_app, len_le_split, len_replicate.
  assert (len hs <= 40) by (unfold hs; rewrite len_app; pose proof (handle_len (TableFooter.metaindex f));
      pose proof (handle_len (TableFooter.index f)); lia). lia.
Qed.
Lemma footer_decode f rest : footer_ok f -> TableFooter.decode_from (footer_bytes f ++ rest) = (Ret f, rest).
Proof.
  intros [Hm Hi]. pose proof (footer_len f) as Hlen. unfold TableFooter.decode_from. rewrite len_app, Hlen.
  pose proof (len_nonneg rest). rewrite (proj2 (Z.ltb_ge _ _)) by (change TableFooter.ENCODED_LENGTH with 48; lia).
  change TableFooter.ENCODED_LENGTH with 48 in *. rewrite (zdrop_app_len _ rest) by done.
  unfold footer_bytes in *. set (hs := BlockHandle.encode _ [] ++ _) in *. set (pad := replicate _ _) in *.
  rewrite len_app, len_le_split in Hlen. rewrite <- (app_assoc (hs ++ pad)).
  rewrite (slice_app (hs ++ pad) (to_le_bytes 8 TableFooter.MAGIC) rest) by (rewrite ?len_le_split; lia).
  cbn [mbind outcome_bind]. assert (Hmag : is_u64 TableFooter.MAGIC) by (by vm_compute). rewrite decode_fixed64_le by done.
  rewrite Z.eqb_refl. cbn [negb].
  rewrite ztake_app_len by lia. unfold hs. rewrite <- app_assoc.
  erewrite action_bind_ret by by apply handle_decode. erewrite action_bind_ret by by apply handle_decode. by destruct f.
Qed.

(** ** Blocks in a file *)

Section format.
Context {C P Co : Type} `{HC : Comparator C} `{FilterPolicy P} `{Compressor Co}.
Context (cmp : C) (key_ok : bytes -> Prop) (ord : bytes -> bytes -> comparison) `{!ComparatorLaws cmp key_ok ord}
  (co : option Co).

(** The bytes [write_block] emits for a block. *)
Definition stored_bytes (raw : bytes) : bytes :=
  let '(kind, body) := TableFileBuilder.compress_block co raw in
  body ++ BlockTrailer.encode (BlockTrailer.mk kind (block_crc body kind)) [].
Definition stored_size (raw : bytes) : Z := len (TableFileBuilder.compress_block co raw).2.
Definition block_handle (pos : Z) (raw : bytes) : BlockHandle.t := BlockHandle.mk (as_u64 pos) (stored_size raw).

Lemma stored_len raw : len (stored_bytes raw) = stored_size raw + 5.
Proof.
  unfold stored_bytes, stored_size. destruct (TableFileBuilder.compress_block co raw) as [k body]. cbn [snd].
  by rewrite len_app, trailer_len.
Qed.
Lemma stored_size_nonneg raw : 0 <= stored_size raw.
Proof. apply len_nonneg. Qed.

(** The block [raw] is stored at [pos] of the file. *)
Definition stored (f : bytes) (pos : Z) (raw : bytes) : Prop :=
  exists pre post, f = pre ++ stored_bytes raw ++ post /\ pos = len pre.

Lemma stored_app f g pos raw : stored f pos raw -> stored (f ++ g) pos raw.
Proof. intros (pre & post & -> & ->). exists pre, (post ++ g). by rewrite <- !app_assoc. Qed.
Lemma stored_end f raw : stored (f ++ stored_bytes raw) (len f) raw.
Proof. exists f, []. by rewrite app_nil_r. Qed.
Lemma stored_bound f pos raw : stored f pos raw -> 0 <= pos /\ pos + stored_size raw + 5 <= len f.
Proof. intros (pre & post & -> & ->). rewrite !len_app, stored_len. len_pose. lia. Qed.
Lemma stored_handle_ok f pos raw : stored f pos raw -> len f < 2 ^ 63 ->
  handle_ok (block_handle pos raw) /\ BlockHandle.offset (block_handle pos raw) = pos.
Proof.
  intros Hs Hf. apply stored_bound in Hs as [H1 H2]. pose proof (stored_size_nonneg raw).
  unfold handle_ok, block_handle, is_u64. cbn. rewrite as_u64_id by (unfold is_u64; lia). lia.
Qed.

(** [raw] is a block of the entries [es]. *)
Definition raw_block (raw : bytes) (blk : Block) (es : list entry) : Prop :=
  exists cs rs, Block_new raw = Ret blk /\ block_ok blk cs rs /\ entries_of cs = es /\
    forall i c, cs !! i = Some c -> key_ok (c_key c).

(** ** The builder of a block, seen through its entries *)

Definition has (b : BlockBuilder.t C) (es : list entry) : Prop :=
  exists cs rs, builder_ok cmp key_ok b cs rs /\ entries_of cs = es /\ (length rs <= S (length cs))%nat /\
    len (body cs) <= total_cost es.

Lemma total_cost_app a b : total_cost (a ++ b) = total_cost a + total_cost b.
Proof. induction a as [|x a IH]; cbn; [done|]. unfold total_cost in *. lia. Qed.

Lemma has_new interval : 1 <= interval -> exists b, BlockBuilder.new cmp interval = Ret b /\ has b [].
Proof.
  intros Hi. destruct (builder_new cmp key_ok interval Hi) as (b & E & Hb). exists b. split; [done|].
  by exists [], [0%nat].
Qed.
Lemma has_reset b es : has b es -> has (BlockBuilder.reset b) [].
Proof.
  intros (cs & rs & Hb & _). exists [], [0%nat]. split; [by eapply builder_reset|done].
Qed.
Lemma has_empty b es : has b es -> BlockBuilder.empty b = bool_decide (es = []).
Proof.
  intros (cs & rs & Hb & <- & _). unfold BlockBuilder.empty. rewrite (bb_buffer _ _ _ _ _ Hb). apply bool_decide_ext.
  split; [intros E; by rewrite (body_nil_inv cs (bb_chain _ _ _ _ _ Hb) E)|]. by destruct cs.
Qed.

(** The last key of the block, if there is one, is below [k]. *)
Definition above (es : list entry) (k : bytes) : Prop := forall e, last es = Some e -> ord e.1 k = Lt.

Lemma has_add b es k v : has b es -> key_ok k -> above es k -> total_cost (es ++ [(k, v)]) < 2 ^ 32 ->
  exists b', BlockBuilder.add b k v = Ret b' /\ has b' (es ++ [(k, v)]).
Proof.
  intros (cs & rs & Hb & <- & Hr & Hc) Hk Ha Hsz. rewrite total_cost_app in Hsz.
  pose proof (total_cost_nonneg (entries_of cs)). cbn in Hsz. unfold entry_cost in Hsz. cbn in Hsz.
  assert (size_ok k v) by (unfold size_ok, is_u32; len_pose; lia).
  assert (Hf : follows ord cs k).
  { destruct cs as [|c cs _] using rev_ind; [by left|right]. rewrite prev_key_snoc.
    apply (proj2 (ord_gt_lt (ord:=ord) _ _)). apply (Ha (c_key c, c_value c)). unfold entries_of.
    rewrite map_app. apply last_snoc. }
  destruct (builder_add cmp key_ok ord b cs rs k v Hb) as (b' & c & rs' & Hadd & Hb' & Hck & Hcv & Hr' & _);
    try done; [len_pose; lia|]. exists b'. split; [done|]. exists (cs ++ [c]), rs'. split; [done|].
  assert (E : entries_of (cs ++ [c]) = entries_of cs ++ [(k, v)]) by (unfold entries_of; rewrite map_app; cbn; by rewrite Hck, Hcv).
  split; [done|]. split; [rewrite length_app; cbn; lia|].
  rewrite total_cost_app, body_app, len_app. cbn [total_cost foldr]. unfold body at 2. cbn. rewrite app_nil_r.
  pose proof (chunk_cost (prev_key cs (length cs)) c) as Hcc. rewrite Hck, Hcv in Hcc.
  pose proof (bb_chain _ _ _ _ _ Hb' (length cs) c) as Hch. rewrite prev_key_app in Hch by done.
  specialize (Hcc ltac:(apply Hch; by rewrite lookup_app_r, Nat.sub_diag by done)). lia.
Qed.

Lemma has_finish b es : has b es -> total_cost es < 2 ^ 32 ->
  exists blk, raw_block (BlockBuilder.finish b).2 blk es.
Proof.
  intros (cs & rs & Hb & <- & Hr & Hc) Hsz.
  pose proof (length_le_body cs (bb_chain _ _ _ _ _ Hb)) as Hle.
  destruct (builder_finish _ _ _ _ _ Hb ltac:(lia) ltac:(unfold len in *; lia)) as (blk & E & Hok).
  exists blk, cs, rs. split_and!; try done. apply (bb_keys _ _ _ _ _ Hb).
Qed.
(** [finish] only marks the builder finished, and [reset] undoes it. *)
Lemma has_finish_reset b es : has b es -> has (BlockBuilder.reset (BlockBuilder.finish b).1) [].
Proof. intros Hb. apply has_reset in Hb. exact Hb. Qed.
(** ** The data blocks of a table *)

(** A data block: where it is, its bytes before compression, what they parse to, its
    entries, and the key the index has for it. *)
Record dblock := mk_dblock { d_pos : Z; d_raw : bytes; d_block : Block; d_entries : list entry; d_sep : bytes }.
Definition d_handle (d : dblock) : BlockHandle.t := block_handle (d_pos d) (d_raw d).
Definition index_entry (d : dblock) : entry := (d_sep d, BlockHandle.encode (d_handle d) []).
Definition all_entries (ds : list dblock) : list entry := concat (map d_entries ds).

Definition dblock_ok (f : bytes) (d : dblock) : Prop :=
  stored f (d_pos d) (d_raw d) /\ raw_block (d_raw d) (d_block d) (d_entries d) /\ d_entries d <> [].

Definition first_key (es : list entry) : bytes := match es with e :: _ => e.1 | [] => [] end.
Definition last_key (es : list entry) : bytes := match last es with Some e => e.1 | None => [] end.

(** Each block's index key comes from its last key and the first key of the next block;
    [nxt] is the key that follows the last block, if any. *)
Definition next_key (ds : list dblock) (nxt : option bytes) (k : nat) : option bytes :=
  match ds !! S k with Some d => Some (first_key (d_entries d)) | None => nxt end.
Definition sep_of (es : list entry) (nxt : option bytes) : outcome bytes :=
  match nxt with
  | Some k => find_shortest_separator cmp (last_key es) k
  | None => find_short_successor cmp (last_key es)
  end.
Definition seps (ds : list dblock) (nxt : option bytes) : Prop :=
  forall k d, ds !! k = Some d -> sep_of (d_entries d) (next_key ds nxt k) = Ret (d_sep d).

Definition ascending (ds : list dblock) : Prop :=
  forall i j a b, (i < j)%nat -> ds !! i = Some a -> ds !! j = Some b -> d_pos a < d_pos b.

(** A filter block's reader answers for any key, and never rules out a key of the block it
    is asked about. *)
Definition filter_ok (p : P) (raw : bytes) (ds : list dblock) : Prop :=
  exists r, FilterBlockReader.new (mk_internal_filter p) raw = Ret (Some r) /\
    (forall d e, d ∈ ds -> e ∈ d_entries d -> FilterBlockReader.key_may_match r (d_pos d) e.1 = Ret true) /\
    (forall off k, 0 <= off -> exists m, FilterBlockReader.key_may_match r off k = Ret m).

(** What the metaindex says: nothing, or where the filter block is. *)
Definition meta_ok (f : bytes) (ds : list dblock) (fp : option P) (es : list entry) : Prop :=
  match fp with
  | None => es = []
  | Some p => exists fpos fraw, es = [(TableFileBuilder.filter_key (filter_name p), BlockHandle.encode (block_handle fpos fraw) [])] /\
      stored f fpos fraw /\ filter_ok p fraw ds
  end.

Record table_ok (fp : option P) (f : bytes) (ds : list dblock) : Prop := {
  t_size : len f < 2 ^ 63;
  t_blocks : Forall (dblock_ok f) ds;
  t_ascending : ascending ds;
  t_seps : seps ds None;
  t_sorted : sorted_entries ord (all_entries ds);
  t_tail : exists pre meta_pos meta_raw meta_blk meta idx_pos idx_raw idx_blk,
    f = pre ++ footer_bytes (TableFooter.mk (block_handle meta_pos meta_raw) (block_handle idx_pos idx_raw)) /\
    stored f meta_pos meta_raw /\ raw_block meta_raw meta_blk meta /\ meta_ok f ds fp meta /\
    stored f idx_pos idx_raw /\ raw_block idx_raw idx_blk (map index_entry ds);
}.

(** *** Sorted lists in pieces *)

Lemma sorted_pieces a b : sorted_entries ord (a ++ b) ->
  sorted_entries ord a /\ sorted_entries ord b /\ (forall x y, x ∈ a -> y ∈ b -> ord x.1 y.1 = Lt).
Proof.
  intros Hs. split; [|split].
  - intros i j x y Hij Hx Hy. apply (Hs i j); [done|by apply lookup_app_l_Some..].
  - intros i j x y Hij Hx Hy. apply (Hs (length a + i)%nat (length a + j)%nat); [lia|..];
      by rewrite lookup_app_r, Nat.add_comm, Nat.add_sub by lia.
  - intros x y [i Hi]%list_elem_of_lookup [j Hj]%list_elem_of_lookup.
    apply (Hs i (length a + j)%nat); [apply lookup_lt_Some in Hi; lia|by apply lookup_app_l_Some|].
    by rewrite lookup_app_r, Nat.add_comm, Nat.add_sub by lia.
Qed.

Lemma sorted_join a b : sorted_entries ord a -> sorted_entries ord b -> (forall x y, x ∈ a -> y ∈ b -> ord x.1 y.1 = Lt) ->
  sorted_entries ord (a ++ b).
Proof.
  intros Ha Hb Hab i j x y Hij Hx Hy. apply lookup_app_Some in Hx as [Hx|[Hi Hx]], Hy as [Hy|[Hj Hy]].
  - by eapply Ha.
  - apply Hab; by eapply list_elem_of_lookup_2.
  - apply lookup_lt_Some in Hy. lia.
  - eapply Hb; [|done..]. lia.
Qed.

Lemma first_key_le l x : sorted_entries ord l -> x ∈ l -> ord (first_key l) x.1 <> Gt.
Proof.
  intros Hs Hx. destruct l as [|e l]; [by apply elem_of_nil in Hx|]. apply list_elem_of_lookup in Hx as [i Hi].
  apply (sorted_le (e :: l) 0 i e x); [done|lia|done|done].
Qed.
Lemma last_key_ge l x : sorted_entries ord l -> x ∈ l -> ord x.1 (last_key l) <> Gt.
Proof.
  intros Hs [i Hi]%list_elem_of_lookup. unfold last_key. destruct (last l) as [e|] eqn:El.
  - rewrite last_lookup in El. pose proof (lookup_lt_Some _ _ _ Hi). by eapply sorted_le; [| |done|exact El]; [|lia].
  - apply last_None in El as ->. done.
Qed.
Lemma last_key_in l : l <> [] -> exists e, e ∈ l /\ e.1 = last_key l.
Proof.
  intros Hl. unfold last_key. destruct (last l) as [e|] eqn:El; [|by apply last_None in El].
  exists e. split; [|done]. by apply last_Some_elem_of.
Qed.
Lemma first_key_in l : l <> [] -> exists e, e ∈ l /\ e.1 = first_key l.
Proof. intros Hl. destruct l as [|e l]; [done|]. exists e. split; [by left|done]. Qed.

Lemma all_entries_app a b : all_entries (a ++ b) = all_entries a ++ all_entries b.
Proof. unfold all_entries. by rewrite map_app, concat_app. Qed.
Lemma all_entries_elem ds x : x ∈ all_entries ds <-> exists d, d ∈ ds /\ x ∈ d_entries d.
Proof.
  unfold all_entries. rewrite list_elem_of_In, in_concat. split.
  - intros (l & Hl & Hx). apply list_elem_of_In, list_elem_of_fmap in Hl as (d & -> & Hd). exists d.
    split; [done|]. by apply list_elem_of_In.
  - intros (d & Hd & Hx). exists (d_entries d). rewrite <- !list_elem_of_In. split; [|done]. by apply list_elem_of_fmap_2.
Qed.

Lemma seps_snoc ds d nxt : seps ds (Some (first_key (d_entries d))) -> sep_of (d_entries d) nxt = Ret (d_sep d) ->
  seps (ds ++ [d]) nxt.
Proof.
  intros Hs Hd k x Hx. apply lookup_app_Some in Hx as [Hx|[Hk Hx]].
  - specialize (Hs k x Hx). unfold next_key in *. pose proof (lookup_lt_Some _ _ _ Hx).
    destruct (ds !! S k) as [d'|] eqn:E.
    + by rewrite (lookup_app_l_Some _ _ _ _ E).
    + apply lookup_ge_None in E. rewrite lookup_app_r by done. replace (S k - length ds)%nat with 0%nat by lia. done.
  - apply list_lookup_singleton_Some in Hx as [Hk0 <-]. unfold next_key. rewrite lookup_ge_None_2; [done|].
    rewrite length_app. cbn. lia.
Qed.
(** The index key of a block is not below its keys and is below every key after it, those
    of later blocks and those ([after]) not yet in a block. *)
Definition head_key (es : list entry) : option bytes := match es with e :: _ => Some e.1 | [] => None end.

Lemma next_key_head ds after k d : ds !! k = Some d -> Forall (fun d => d_entries d <> []) ds ->
  next_key ds (head_key after) k = head_key (all_entries (drop (S k) ds) ++ after).
Proof.
  intros Hk Hne. unfold next_key. destruct (ds !! S k) as [d'|] eqn:E.
  - rewrite (drop_S _ _ _ E). rewrite Forall_lookup in Hne. specialize (Hne _ _ E).
    unfold all_entries. cbn. by destruct (d_entries d').
  - apply lookup_ge_None in E. by rewrite drop_ge.
Qed.

Lemma sep_bounds ds after k d : seps ds (head_key after) -> sorted_entries ord (all_entries ds ++ after) ->
  Forall (fun d => d_entries d <> []) ds -> Forall (fun e => key_ok e.1) (all_entries ds ++ after) -> ds !! k = Some d ->
  key_ok (d_sep d) /\ (forall x, x ∈ d_entries d -> ord x.1 (d_sep d) <> Gt) /\
  (forall x, x ∈ all_entries (drop (S k) ds) ++ after -> ord (d_sep d) x.1 = Lt).
Proof.
  intros Hseps Hs Hne Hk Hd. specialize (Hseps _ _ Hd). rewrite (next_key_head ds after k d Hd Hne) in Hseps.
  rewrite <- (take_drop_middle _ _ _ Hd), all_entries_app, <- app_assoc in Hs, Hk.
  apply sorted_pieces in Hs as (_ & Hs & _). apply Forall_app in Hk as [_ Hk].
  change (all_entries (d :: drop (S k) ds)) with (d_entries d ++ all_entries (drop (S k) ds)) in Hs, Hk.
  rewrite <- app_assoc in Hs, Hk. set (rest := all_entries (drop (S k) ds) ++ after) in *.
  apply sorted_pieces in Hs as (Hs1 & Hs2 & Hs3). apply Forall_app in Hk as [Hk1 Hk2].
  rewrite Forall_forall in Hne. rewrite Forall_forall in Hk1. rewrite Forall_forall in Hk2. specialize (Hne d ltac:(by eapply list_elem_of_lookup_2)).
  destruct (last_key_in _ Hne) as (e & He & Hle).
  assert (Hlk : key_ok (last_key (d_entries d))) by (rewrite <- Hle; by apply Hk1).
  assert (Hmax : forall s x, ord (last_key (d_entries d)) s <> Gt -> x ∈ d_entries d -> ord x.1 s <> Gt).
  { intros s x Hks Hx. apply (ord_le_trans (ord:=ord) _ (last_key (d_entries d))); [by apply last_key_ge|done]. }
  destruct rest as [|y rest]; cbn [head_key] in Hseps; cbn [sep_of] in Hseps.
  - destruct (successor_law _ Hlk) as (s & E & Hok & Hge).
    assert (s = d_sep d) as -> by congruence. split; [done|]. split; [intros x Hx; by apply Hmax|]. intros x Hx. by apply elem_of_nil in Hx.
  - assert (Hlt : ord (last_key (d_entries d)) y.1 = Lt) by (rewrite <- Hle; apply Hs3; [done|by left]).
    destruct (separator_law _ y.1 Hlk) as (s & E & Hok & Hge & Hl & _); [apply Hk2; by left|by rewrite Hlt|].
    assert (s = d_sep d) as -> by congruence. split; [done|]. split; [intros x Hx; by apply Hmax|].
    intros x Hx. apply (ord_lt_le_trans _ y.1); [by apply Hl|]. exact (first_key_le _ _ Hs2 Hx).
Qed.

(** The index is no longer than the entries. *)
Lemma entry_cost_elem x l : x ∈ l -> entry_cost x <= total_cost l.
Proof.
  induction 1 as [x l|x y l _ IH]; cbn; fold (total_cost l).
  - pose proof (total_cost_nonneg l). lia.
  - pose proof (entry_cost_pos y). lia.
Qed.
Lemma index_cost ds nxt : Forall (fun d => d_entries d <> []) ds -> seps ds nxt ->
  (forall es nxt s, sep_of es nxt = Ret s -> len s <= len (last_key es)) ->
  total_cost (map index_entry ds) <= 3 * total_cost (all_entries ds).
Proof.
  intros Hne Hs Hshort. assert (Hd : forall d, d ∈ ds -> len (d_sep d) <= len (last_key (d_entries d))).
  { intros d [k Hk]%list_elem_of_lookup. by eapply Hshort, Hs. }
  clear Hs. induction ds as [|d ds IH]; [done|]. apply Forall_cons in Hne as [Hne Hne'].
  specialize (IH Hne' ltac:(intros; apply Hd; by right)). specialize (Hd d ltac:(by left)).
  destruct (last_key_in _ Hne) as (e & He & Hle). apply entry_cost_elem in He. unfold all_entries in *.
  cbn [map concat total_cost foldr]. rewrite total_cost_app. fold (total_cost (map index_entry ds)).
  unfold entry_cost in *. cbn [fst snd index_entry]. rewrite Hle in He. pose proof (handle_len (d_handle d)).
  pose proof (len_nonneg e.2). pose proof (len_nonneg (last_key (d_entries d))). lia.
Qed.
End format.
