(* ===== verification/TableBuilderCorrect.v ===== *)
(** * TableBuilderCorrect.v: correctness of TableBuilder.v.

    From an open, empty file, [TableFileBuilder] fed with sorted entries and finished
    leaves a file that is a table of these entries in the sense of TableFormat.v, with
    any comparator, filter policy and compressor that keep their laws, and any block size
    and restart interval. *)
From S2P Require Import Prelude Status Coding Crc32c Comparator DbIterator Filter FilterBlock Block.
From S2P Require Import BlockCorrect Env TableBuilder TableFormat.
Import TableFileBuilder.

Section builder.
Context {W C P Co : Type} `{HE : Env W} `{HC : Comparator C} `{HP : FilterPolicy P} `{HCo : Compressor Co}.
Context {is_open : Writable -> Prop} {contents : Writable -> W -> bytes} `{!WritableLaws is_open contents}.
Context (cmp : C) (key_ok : bytes -> Prop) (ord : bytes -> bytes -> comparison) `{!ComparatorLaws cmp key_ok ord}
  `{!ShortHints cmp}.
Context (fp : option P) (co : option Co) (keys_ok : list bytes -> Prop).
Context (Hfp : forall p, fp = Some p -> FilterLaws (mk_internal_filter p) keys_ok).
Context (all : list entry) (Hkeys : Forall (fun e => key_ok e.1) all) (Hsorted : sorted_entries ord all)
  (Hcost : 3 * total_cost all < 2 ^ 32) (Hfilter : forall ks, len ks <= len all -> keys_ok ks).

Abbreviation T := (TableFileBuilder.t W C P Co) (only parsing).
Implicit Types (b : T) (w : W) (ds : list dblock).

(** ** Single steps *)

Lemma write_block_ok b w raw : is_open (file b) -> compressor b = co ->
  offset b = as_u64 (len (contents (file b) w)) ->
  exists w', write_block raw (b, w) = (Ret (block_handle co (len (contents (file b) w)) raw),
      (set_offset (as_u64 (len (contents (file b) w'))) b, w')) /\
    contents (file b) w' = contents (file b) w ++ stored_bytes co raw.
Proof.
  intros Ho Hco Hoff. unfold write_block. erewrite action_bind_ret by reflexivity. cbn [fst id]. rewrite Hco, Hoff.
  pose proof (stored_len co raw) as Hlen. unfold block_handle, stored_size, stored_bytes in *.
  destruct (compress_block co raw) as [kind body] eqn:Ek. cbn [snd] in *. rewrite (trailer_encode_app _ body).
  destruct (append_law (file b) (body ++ BlockTrailer.encode (BlockTrailer.mk kind (block_crc body kind)) []) w Ho)
    as (w' & E & Hc).
  exists w'. split; [|exact Hc]. unfold on_fs. erewrite action_bind_ret by (cbn [fst snd]; by rewrite E).
  erewrite action_bind_ret by reflexivity. cbn [fst snd]. unfold mret, action_ret. f_equal. f_equal. f_equal.
  rewrite Hc, !len_app. unfold as_u64. by rewrite Zplus_mod_idemp_l.
Qed.

(** ** The invariant *)

(** The keys the filter builder was given, filed under the offsets of their blocks; the
    positions are exact as long as the file stays below 2^63. *)
Definition filter_inv b (f : bytes) (ds : list dblock) (pend : list entry) : Prop :=
  match filter_block b, fp with
  | Some fb, Some p => exists gs fs pk,
      fb_ok (mk_internal_filter p) fb gs fs pk /\ len pk <= len (all_entries ds ++ pend) /\
      (len f < 2 ^ 63 -> len gs = len f / FILTER_BASE /\
        (forall d e, d ∈ ds -> e ∈ d_entries d -> filed gs pk (d_pos d) e.1) /\
        (forall e, e ∈ pend -> filed gs pk (len f) e.1))
  | None, None => True
  | _, _ => False
  end.

(** [done] blocks are written and indexed; [pd] is a block written but not indexed; the
    open block holds [pend]; [rest] is still to come. *)
Record core b w (done : list dblock) (pd : option dblock) (pend rest : list entry) : Prop := {
  i_all : all = all_entries (done ++ option_list pd) ++ pend ++ rest;
  i_cmp : comparator b = cmp;
  i_co : compressor b = co;
  i_name : filter_policy_name b = filter_name <$> fp;
  i_open : is_open (file b);
  i_closed : closed b = false;
  i_offset : offset b = as_u64 (len (contents (file b) w));
  i_data : has cmp key_ok (data_block b) pend;
  i_index : has cmp key_ok (index_block b) (map (index_entry co) done);
  i_pending : pending_index_entry b = is_some pd;
  i_handle : forall d, pd = Some d -> pending_handle b = d_handle co d /\ pend = [];
  i_blocks : Forall (dblock_ok key_ok co (contents (file b) w)) (done ++ option_list pd);
  i_ascending : ascending (done ++ option_list pd);
  i_seps : seps cmp done (head_key (all_entries (option_list pd) ++ pend ++ rest));
  i_filter : filter_inv b (contents (file b) w) (done ++ option_list pd) pend;
}.
(** Between calls the builder also remembers the last key, and an empty open block is
    either fresh or follows a block still to be indexed. *)
Record inv b w (done : list dblock) (pd : option dblock) (pend rest : list entry) : Prop := {
  i_core :> core b w done pd pend rest;
  i_fresh : pd = None -> pend = [] -> done = [];
  i_num : num_entries b = as_u64 (len (all_entries (done ++ option_list pd) ++ pend));
  i_last : last_key b = TableFormat.last_key (all_entries (done ++ option_list pd) ++ pend);
}.

Lemma fb_start_any {F} `{FilterPolicy F} (p : F) `{!FilterLaws p keys_ok} fb gs fs pk off :
  fb_ok p fb gs fs pk -> keys_ok pk -> keys_ok [] ->
  exists fb' gs' fs' pk', FilterBlockBuilder.start_block fb off = Ret fb' /\ fb_ok p fb' gs' fs' pk' /\
    (pk' = pk \/ pk' = []) /\ (len gs <= off / FILTER_BASE -> len gs' = off / FILTER_BASE) /\
    (forall o k, filed gs pk o k -> filed gs' pk' o k).
Proof.
  intros Hfb Hk Hk0. unfold FilterBlockBuilder.start_block.
  destruct (Z.le_gt_cases (len gs) (off / FILTER_BASE)) as [Hle|Hgt].
  - destruct (fb_start_loop p keys_ok (Z.to_nat (off / FILTER_BASE - len (FilterBlockBuilder.filter_offsets fb))) fb gs fs pk
      (off / FILTER_BASE) Hfb) as (fb' & gs' & fs' & pk' & E & H1 & H2 & H3 & H4).
    + by intros ks [->| ->].
    + rewrite (fb_offsets_len p _ _ _ _ Hfb). lia.
    + done.
    + exists fb', gs', fs', pk'. by split_and!.
  - exists fb, gs, fs, pk. rewrite <- (fb_offsets_len p _ _ _ _ Hfb) in Hgt.
    replace (Z.to_nat _) with 0%nat by lia. cbn [FilterBlockBuilder.start_loop]. rewrite (proj2 (Z.ltb_ge _ _)) by lia.
    split_and!; [done|done|by left| |done]. rewrite <- (fb_offsets_len p _ _ _ _ Hfb). lia.
Qed.

Lemma filter_add b f ds pend k v : filter_inv b f ds pend ->
  filter_inv (set_filter ((fun fb => FilterBlockBuilder.add_key fb k) <$> filter_block b) b) f ds (pend ++ [(k, v)]).
Proof.
  unfold filter_inv. cbn [filter_block set_filter]. destruct (filter_block b) as [fb|], fp as [p|]; try done.
  intros (gs & fs & pk & Hfb & Hlen & Hpos). exists gs, fs, (pk ++ [k]).
  split; [exact (fb_add_keys (mk_internal_filter p) fb gs fs pk [k] Hfb)|].
  split; [rewrite !len_app in *; change (len [k]) with 1; change (len [(k, v)]) with 1; lia|].
  intros Hf. destruct (Hpos Hf) as (H1 & H2 & H3). split_and!; [done| |].
  - intros d e Hd He. by apply filed_snoc, (H2 d).
  - intros e [He|He]%elem_of_app; [by apply filed_snoc, H3|]. apply list_elem_of_singleton in He as ->. right.
    split; [done|]. apply elem_of_app. right. by left.
Qed.

Lemma len_all b w done pd pend rest : core b w done pd pend rest ->
  len (all_entries (done ++ option_list pd) ++ pend) <= len all.
Proof. intros I. rewrite (i_all _ _ _ _ _ _ I), !len_app. len_pose. lia. Qed.
Lemma cost_pend b w done pd pend rest : core b w done pd pend rest -> total_cost (pend ++ rest) <= total_cost all.
Proof.
  intros I. rewrite (i_all _ _ _ _ _ _ I), (total_cost_app (all_entries _)).
  pose proof (total_cost_nonneg (all_entries (done ++ option_list pd))). lia.
Qed.

Lemma blocks_nonempty f ds : Forall (dblock_ok key_ok co f) ds -> Forall (fun d => d_entries d <> []) ds.
Proof. intros Hf. eapply Forall_impl; [exact Hf|]. by intros d (_ & _ & H). Qed.

Lemma hints_short es nxt s : sep_of cmp es nxt = Ret s -> len s <= len (TableFormat.last_key es).
Proof. destruct nxt; cbn [sep_of]; [apply separator_short|apply successor_short]. Qed.

(** What [core] says about the blocks and their index keys. *)
Lemma core_seps b w done pd pend rest k d : core b w done pd pend rest -> done !! k = Some d ->
  key_ok (d_sep d) /\ (forall x, x ∈ d_entries d -> ord x.1 (d_sep d) <> Gt) /\
  (forall x, x ∈ all_entries (drop (S k) done) ++ all_entries (option_list pd) ++ pend ++ rest -> ord (d_sep d) x.1 = Lt).
Proof.
  intros I Hd. pose proof (blocks_nonempty _ _ (i_blocks _ _ _ _ _ _ I)) as Hne. apply Forall_app in Hne as [Hne _].
  pose proof Hsorted as Hs. pose proof Hkeys as Hk. rewrite (i_all _ _ _ _ _ _ I), all_entries_app, <- app_assoc in Hs, Hk.
  exact (sep_bounds cmp key_ok ord done _ k d (i_seps _ _ _ _ _ _ I) Hs Hne Hk Hd).
Qed.

(** The index key [s] and handle of the block [d] go to the index, whatever key [nxt] the
    separator was made for. *)
Definition with_sep (d : dblock) (s : bytes) : dblock := mk_dblock (d_pos d) (d_raw d) (d_block d) (d_entries d) s.

Lemma add_index_eq b w s ix : BlockBuilder.add (index_block b) s (BlockHandle.encode (pending_handle b) []) = Ret ix ->
  add_index s (b, w) = (Ret tt, (set_pending false (set_index ix (set_last_key s b)), w)).
Proof.
  intros E. unfold add_index. erewrite action_bind_ret by reflexivity. erewrite action_bind_ret by reflexivity.
  erewrite action_bind_ret by (unfold lift; cbn [fst id set_last_key index_block pending_handle]; by rewrite E).
  by erewrite action_bind_ret by reflexivity.
Qed.

Lemma index_add b w done d pend rest s : core b w done (Some d) pend rest -> key_ok s ->
  ord (TableFormat.last_key (d_entries d)) s <> Gt -> len s <= len (TableFormat.last_key (d_entries d)) ->
  exists ix, BlockBuilder.add (index_block b) s (BlockHandle.encode (pending_handle b) []) = Ret ix /\
    has cmp key_ok ix (map (index_entry co) (done ++ [with_sep d s])).
Proof.
  intros I Hok Hge Hshort. destruct (i_handle _ _ _ _ _ _ I d eq_refl) as [Hh _].
  pose proof (blocks_nonempty _ _ (i_blocks _ _ _ _ _ _ I)) as Hne. apply Forall_app in Hne as [Hne Hned].
  apply Forall_cons in Hned as [Hned _]. destruct (last_key_in _ Hned) as (e & He & Hle).
  destruct (has_add cmp key_ok ord (index_block b) (map (index_entry co) done) s (BlockHandle.encode (d_handle co d) [])
    (i_index _ _ _ _ _ _ I) Hok) as (ix & E & Hix).
  - intros ie Hie. rewrite last_lookup, length_map in Hie. apply list_lookup_fmap_Some in Hie as (x & -> & Hx).
    destruct (core_seps _ _ _ _ _ _ _ _ I Hx) as (_ & _ & Hlow). cbn [index_entry fst].
    apply (ord_lt_le_trans _ (TableFormat.last_key (d_entries d))); [|done]. rewrite <- Hle. apply Hlow.
    apply elem_of_app. right. apply elem_of_app. left. unfold all_entries. cbn. by rewrite app_nil_r.
  - rewrite total_cost_app.
    pose proof (index_cost cmp co done _ Hne (i_seps _ _ _ _ _ _ I) hints_short) as Hc.
    pose proof (entry_cost_elem _ _ He) as Hd. pose proof Hcost as Hall. rewrite (i_all _ _ _ _ _ _ I) in Hall.
    unfold all_entries in Hall. rewrite map_app, concat_app, !total_cost_app in Hall. fold (all_entries done) in Hall.
    change (concat (map d_entries (option_list (Some d)))) with (d_entries d ++ []) in Hall. rewrite app_nil_r in Hall.
    pose proof (total_cost_nonneg pend). pose proof (total_cost_nonneg rest). pose proof (handle_len (d_handle co d)).
    unfold entry_cost in Hd. rewrite Hle in Hd. cbn [total_cost foldr]. unfold entry_cost. cbn [fst snd].
    pose proof (len_nonneg e.2). pose proof (len_nonneg s). pose proof (len_nonneg (TableFormat.last_key (d_entries d))). lia.
  - exists ix. rewrite Hh. split; [done|]. rewrite map_app. exact Hix.
Qed.

(** The separator does not matter to the rest. *)
Lemma ascending_ext ds ds' : map d_pos ds = map d_pos ds' -> ascending ds -> ascending ds'.
Proof.
  intros E Ha i j a b Hij Hi Hj.
  assert (Hl : forall k x, ds' !! k = Some x -> exists y, ds !! k = Some y /\ d_pos y = d_pos x).
  { intros k x Hk. assert (Hx : map d_pos ds' !! k = Some (d_pos x)) by (by rewrite list_lookup_fmap, Hk).
    rewrite <- E in Hx. apply list_lookup_fmap_Some in Hx as (y & Hy & Hx). by exists y. }
  destruct (Hl _ _ Hi) as (a' & Ha' & <-), (Hl _ _ Hj) as (b' & Hb' & <-). by eapply Ha.
Qed.

Lemma all_entries_sep done d s : all_entries (done ++ [with_sep d s]) = all_entries (done ++ [d]).
Proof. by rewrite !all_entries_app. Qed.

Lemma index_core b w done d e rest s ix : core b w done (Some d) [] (e :: rest) ->
  sep_of cmp (d_entries d) (Some e.1) = Ret s -> has cmp key_ok ix (map (index_entry co) (done ++ [with_sep d s])) ->
  core (set_pending false (set_index ix (set_last_key s b))) w (done ++ [with_sep d s]) None [] (e :: rest).
Proof.
  intros [I1 I2 I3 I4 I5 I6 I7 I8 I9 I10 I11 I12 I13 I14 I15] Hs Hix. change (option_list (Some d)) with [d] in *.
  pose proof (blocks_nonempty _ _ I12) as Hne. apply Forall_app in Hne as [_ Hne]. apply Forall_cons in Hne as [Hne _].
  split; cbn [comparator compressor filter_policy_name file closed offset data_block index_block pending_index_entry
    pending_handle filter_block set_pending set_index set_last_key]; try done.
  - by rewrite app_nil_r, all_entries_sep.
  - rewrite app_nil_r. apply Forall_app in I12 as [H1 H2]. apply Forall_app. split; [done|].
    apply Forall_cons in H2 as [H2 _]. by apply Forall_singleton.
  - rewrite app_nil_r. eapply ascending_ext; [|exact I13]. by rewrite !map_app.
  - apply seps_snoc; [|exact Hs]. cbn [d_entries with_sep]. unfold all_entries in I14. cbn [map concat] in I14.
    destruct (d_entries d); [done|exact I14].
  - rewrite app_nil_r. unfold filter_inv in *. cbn [filter_block set_pending set_index set_last_key].
    destruct (filter_block b) as [fb|], fp as [p|]; try done. destruct I15 as (gs & fs & pk & H1 & H2 & H3).
    exists gs, fs, pk. split; [done|]. split; [by rewrite all_entries_sep|]. intros Hf. destruct (H3 Hf) as (H4 & H5 & H6).
    split_and!; [done| |done]. intros x y Hx Hy. apply elem_of_app in Hx as [Hx|Hx].
    + apply (H5 x); [|done]. apply elem_of_app. by left.
    + apply list_elem_of_singleton in Hx as ->. apply (H5 d); [|done]. apply elem_of_app. right. by left.
Qed.

(** The key that comes next is above all before it. *)
Lemma next_above b w done pd pend e rest l : core b w done pd pend (e :: rest) ->
  (exists l', all_entries (done ++ option_list pd) ++ pend = l' ++ l) -> above ord l e.1.
Proof.
  intros I [l' Hl] x Hx. pose proof Hsorted as Hs. rewrite (i_all _ _ _ _ _ _ I), app_assoc, Hl in Hs.
  apply sorted_pieces in Hs as (_ & _ & Hs). apply Hs; [|by left]. apply elem_of_app. right. by apply last_Some_elem_of.
Qed.
Lemma key_ok_elem x : x ∈ all -> key_ok x.1.
Proof. pose proof Hkeys as Hk. rewrite Forall_forall in Hk. apply Hk. Qed.

(** The index entry of the block before, if one is due. *)
Definition index_stage b (key : bytes) : action (T * W) unit :=
  if pending_index_entry b then
    _ ← lift (assert (BlockBuilder.empty (data_block b)));
    sep ← lift (find_shortest_separator (comparator b) (TableFileBuilder.last_key b) key);
    add_index sep
  else mret tt.

Lemma index_stage_ok b w done pd pend e rest : inv b w done pd pend (e :: rest) ->
  exists b1 done1, index_stage b e.1 (b, w) = (Ret tt, (b1, w)) /\ core b1 w done1 None pend (e :: rest) /\
    all_entries done1 = all_entries (done ++ option_list pd) /\ num_entries b1 = num_entries b /\
    data_block b1 = data_block b /\ file b1 = file b.
Proof.
  intros [I Hfresh Hnum Hlast]. unfold index_stage. rewrite (i_pending _ _ _ _ _ _ I). destruct pd as [d|]; cbn [is_some].
  2: { exists b, done. rewrite app_nil_r. by split_and!. }
  destruct (i_handle _ _ _ _ _ _ I d eq_refl) as [_ ->]. change (option_list (Some d)) with [d] in *.
  rewrite app_nil_r in Hlast.
  pose proof (blocks_nonempty _ _ (i_blocks _ _ _ _ _ _ I)) as Hne. apply Forall_app in Hne as [_ Hne].
  apply Forall_cons in Hne as [Hne _]. destruct (last_key_in _ Hne) as (x & Hx & Hxl).
  assert (Hlk : TableFileBuilder.last_key b = TableFormat.last_key (d_entries d)).
  { rewrite Hlast, all_entries_app. unfold all_entries at 2. cbn. rewrite app_nil_r. unfold TableFormat.last_key.
    rewrite last_app. destruct (last (d_entries d)) eqn:El; [done|]. by apply last_None in El. }
  assert (Hin : forall y, y ∈ d_entries d -> y ∈ all_entries (done ++ [d])).
  { intros y Hy. apply all_entries_elem. exists d. split; [|done]. apply elem_of_app. right. by left. }
  pose proof (i_all _ _ _ _ _ _ I) as Hall. change (option_list (Some d)) with [d] in Hall.
  assert (Hko : forall y, y ∈ d_entries d -> key_ok y.1).
  { intros y Hy. apply key_ok_elem. rewrite Hall. apply elem_of_app. left. by apply Hin. }
  assert (Hke : key_ok e.1) by (apply key_ok_elem; rewrite Hall; apply elem_of_app; right; by left).
  assert (Hlt : ord (TableFormat.last_key (d_entries d)) e.1 = Lt).
  { rewrite <- Hxl. pose proof Hsorted as Hs. rewrite Hall in Hs. apply sorted_pieces in Hs as (_ & _ & Hs).
    apply Hs; [by apply Hin|by left]. }
  destruct (separator_law (TableFormat.last_key (d_entries d)) e.1) as (s & E & Hok & Hge & _);
    [rewrite <- Hxl; by apply Hko|done|by rewrite Hlt|].
  destruct (index_add b w done d [] (e :: rest) s I Hok Hge) as (ix & Hadd & Hix); [by eapply separator_short|].
  apply (add_index_eq b w) in Hadd.
  exists (set_pending false (set_index ix (set_last_key s b))), (done ++ [with_sep d s]). split_and!.
  - rewrite (has_empty cmp key_ok _ [] (i_data _ _ _ _ _ _ I)), bool_decide_eq_true_2 by done.
    erewrite action_bind_ret by reflexivity.
    erewrite action_bind_ret by (rewrite (i_cmp _ _ _ _ _ _ I), Hlk; unfold lift; by rewrite E). exact Hadd.
  - by apply index_core.
  - apply all_entries_sep.
  - done.
  - done.
  - done.
Qed.

(** *** Flushing the open block *)

Lemma len_pos_as_u64 {A} (l : list A) : 0 <? as_u64 (len l) = true -> l <> [].
Proof. intros Hl ->. done. Qed.

Lemma dblock_ok_app f g d : dblock_ok key_ok co f d -> dblock_ok key_ok co (f ++ g) d.
Proof. intros (H1 & H2 & H3). split; [by apply stored_app|done]. Qed.

Lemma ascending_snoc f ds d : Forall (dblock_ok key_ok co f) ds -> ascending ds -> d_pos d = len f -> ascending (ds ++ [d]).
Proof.
  intros Hds Ha Hd i j x y Hij Hx Hy. apply lookup_app_Some in Hy as [Hy|[Hj Hy]].
  - rewrite lookup_app_l in Hx by (apply lookup_lt_Some in Hy; lia). by eapply Ha.
  - apply list_lookup_singleton_Some in Hy as [Hj0 <-]. rewrite lookup_app_l in Hx by lia.
    rewrite Forall_lookup in Hds. destruct (Hds _ _ Hx) as (Hst & _). apply stored_bound in Hst.
    pose proof (stored_size_nonneg co (d_raw x)). lia.
Qed.

(** The filter moves on to the offset of the next block. *)
Lemma filter_flush b f g ds d : filter_inv b f ds (d_entries d) -> d_pos d = len f ->
  len (all_entries ds ++ d_entries d) <= len all -> offset b = as_u64 (len (f ++ g)) ->
  exists fl, (match filter_block b with
      | Some fb => fb ← FilterBlockBuilder.start_block fb (offset b); Ret (Some fb)
      | None => Ret None end) = Ret fl /\ (filter_block b = None -> fl = None) /\
    filter_inv (set_filter fl b) (f ++ g) (ds ++ [d]) [].
Proof.
  intros Hi Hd Hlen Hoff. unfold filter_inv in *. cbn [filter_block set_filter].
  destruct (filter_block b) as [fb|], fp as [p|]; try done; [|by exists None].
  destruct Hi as (gs & fs & pk & Hfb & Hpk & Hpos). pose proof (Hfp p eq_refl) as Hlaw.
  destruct (fb_start_any (mk_internal_filter p) fb gs fs pk (offset b) Hfb) as (fb' & gs' & fs' & pk' & E & H1 & H2 & H3 & H4).
  - apply Hfilter. lia.
  - apply Hfilter. change (len []) with 0. len_pose. lia.
  - exists (Some fb'). rewrite E. split; [done|]. split; [done|]. exists gs', fs', pk'. split; [done|]. split.
    { rewrite app_nil_r, all_entries_app, len_app. unfold all_entries at 2. cbn [map concat]. rewrite app_nil_r.
      rewrite len_app in Hpk. destruct H2 as [->| ->]; [lia|]. change (len []) with 0. len_pose. lia. }
    intros Hf. rewrite Hoff, as_u64_id in H3 by (unfold is_u64; len_pose; lia). rewrite len_app in Hf, H3.
    pose proof (len_nonneg g). pose proof (len_nonneg f). destruct (Hpos ltac:(lia)) as (P1 & P2 & P3).
    rewrite len_app. split_and!.
    + apply H3. rewrite P1. apply Z.div_le_mono; [done|lia].
    + intros x e Hx He. apply H4. apply elem_of_app in Hx as [Hx|Hx]; [by apply (P2 x)|].
      apply list_elem_of_singleton in Hx as ->. rewrite Hd. by apply P3.
    + intros e He. by apply elem_of_nil in He.
Qed.

Lemma flush_empty b w done pd rest : inv b w done pd [] rest -> flush (b, w) = (Ret tt, (b, w)).
Proof.
  intros [I _ _ _]. unfold flush. erewrite action_bind_ret by reflexivity. cbn [fst id]. rewrite (i_closed _ _ _ _ _ _ I).
  erewrite action_bind_ret by reflexivity. by rewrite (has_empty cmp key_ok _ [] (i_data _ _ _ _ _ _ I)), bool_decide_eq_true_2.
Qed.

Lemma flush_ok b w done pend rest : inv b w done None pend rest -> pend <> [] ->
  exists b' w' d, flush (b, w) = (Ret tt, (b', w')) /\ inv b' w' done (Some d) [] rest /\ d_entries d = pend /\ file b' = file b.
Proof.
  intros [I Hfresh Hnum Hlast] Hne. pose proof (len_all _ _ _ _ _ _ I) as Hlen. pose proof (cost_pend _ _ _ _ _ _ I) as Hcp.
  destruct I as [I1 I2 I3 I4 I5 I6 I7 I8 I9 I10 I11 I12 I13 I14 I15]. cbn [option_list option_rect] in *.
  change (option_list None) with (@nil dblock) in *. rewrite app_nil_r in *.
  rewrite total_cost_app in Hcp. pose proof (total_cost_nonneg rest). pose proof (total_cost_nonneg pend).
  destruct (has_finish cmp key_ok _ _ I8 ltac:(lia)) as (blk & Hraw).
  unfold flush. erewrite action_bind_ret by reflexivity. cbn [fst id]. rewrite I6.
  erewrite action_bind_ret by reflexivity. rewrite (has_empty cmp key_ok _ _ I8), bool_decide_eq_false_2 by done.
  rewrite I10. erewrite action_bind_ret by reflexivity.
  pose proof (has_finish_reset cmp key_ok _ _ I8) as Hreset.
  destruct (BlockBuilder.finish (data_block b)) as [data raw] eqn:Ef. cbn [fst snd] in *.
  erewrite action_bind_ret by reflexivity.
  destruct (write_block_ok (set_data data b) w raw I5 I3 I7) as (w' & Ew & Hc). cbn [file set_data] in Ew, Hc.
  erewrite action_bind_ret by (cbn [fst snd]; exact Ew). do 3 (erewrite action_bind_ret by reflexivity).
  erewrite action_bind_ret by reflexivity. cbn [fst snd id].
  set (f := contents (file b) w) in *. set (d := mk_dblock (len f) raw blk pend []).
  set (b1 := set_pending _ _).
  destruct (filter_flush b1 f (stored_bytes co raw) done d I15 eq_refl Hlen) as (fl & Efl & Hfl & Hinv);
    [unfold b1; cbn [offset set_pending set_handle set_data set_offset]; by rewrite Hc|].
  assert (Hfile : forall x : T, filter_block x = fl -> set_filter fl x = x) by (by intros [] <-).
  assert (E : match filter_block b1 with
      | Some fb => fb ← lift (FilterBlockBuilder.start_block fb (offset b1)); modify (set_filter (Some fb))
      | None => mret tt end (b1, w') = (Ret tt, (set_filter fl b1, w'))).
  { destruct (filter_block b1) as [fb|] eqn:Efb; [|rewrite Hfile; [done|]; by rewrite Hfl].
    destruct (FilterBlockBuilder.start_block fb (offset b1)) as [fb'| |]; cbn in Efl; [|done|done].
    injection Efl as <-.
    by erewrite action_bind_ret by reflexivity. }
  exists (set_filter fl b1), w', d. split; [exact E|]. split; [|done].
  assert (Hlst : all_entries (done ++ [d]) = all_entries done ++ pend)
    by (rewrite all_entries_app; unfold all_entries at 2; cbn; by rewrite app_nil_r).
  split; [split| | |]; unfold b1; cbn [comparator compressor filter_policy_name file closed offset data_block index_block pending_index_entry
    pending_handle filter_block set_pending set_index set_last_key set_filter set_handle set_data set_offset num_entries
    TableFileBuilder.last_key]; change (option_list (Some d)) with [d]; try done.
  - rewrite Hlst. by rewrite <- app_assoc.
  - intros d' [= <-]. split; [|done]. unfold d_handle, d. cbn [d_pos d_raw]. done.
  - rewrite Hc. apply Forall_app. split.
    + eapply Forall_impl; [exact I12|]. intros x Hx. by apply dblock_ok_app.
    + apply Forall_singleton. split; [apply stored_end|by split].
  - eapply ascending_snoc; [exact I12|done|done].
  - unfold all_entries. cbn [map concat d_entries d]. by rewrite app_nil_r.
  - rewrite Hc. exact Hinv.
  - by rewrite Hlst, app_nil_r.
  - by rewrite Hlst, app_nil_r.
Qed.

(** *** Adding an entry *)

Definition put_entry b (data : BlockBuilder.t C) (k : bytes) : T :=
  set_data data (set_num (as_u64 (num_entries b + 1)) (set_last_key k
    (set_filter ((fun fb => FilterBlockBuilder.add_key fb k) <$> filter_block b) b))).

Lemma data_add b w done pd pend k v rest : core b w done pd pend ((k, v) :: rest) ->
  exists data, BlockBuilder.add (data_block b) k v = Ret data /\ has cmp key_ok data (pend ++ [(k, v)]).
Proof.
  intros I. pose proof (cost_pend _ _ _ _ _ _ I) as Hcp. apply (has_add cmp key_ok ord _ pend k v (i_data _ _ _ _ _ _ I)).
  - apply (key_ok_elem (k, v)). rewrite (i_all _ _ _ _ _ _ I). apply elem_of_app. right. apply elem_of_app. right. by left.
  - apply (next_above _ _ _ _ _ _ _ pend I). eauto.
  - replace (pend ++ (k, v) :: rest) with ((pend ++ [(k, v)]) ++ rest) in Hcp by by rewrite <- app_assoc.
    rewrite (total_cost_app (pend ++ _)) in Hcp. pose proof (total_cost_nonneg rest).
    pose proof (total_cost_nonneg (pend ++ [(k, v)])). lia.
Qed.

Lemma put_core b w done pend k v rest data : core b w done None pend ((k, v) :: rest) ->
  has cmp key_ok data (pend ++ [(k, v)]) -> core (put_entry b data k) w done None (pend ++ [(k, v)]) rest.
Proof.
  intros [I1 I2 I3 I4 I5 I6 I7 I8 I9 I10 I11 I12 I13 I14 I15] Hd.
  split; unfold put_entry; cbn [comparator compressor filter_policy_name file closed offset data_block index_block
    pending_index_entry pending_handle filter_block set_filter set_last_key set_data set_num]; try done.
  - by rewrite <- (app_assoc pend).
  - by rewrite <- (app_assoc pend).
  - exact (filter_add b _ _ pend k v I15).
Qed.

(** The order test of [add]: passed, whatever is checked. *)
Lemma order_ok b w done pd pend e rest : inv b w done pd pend (e :: rest) ->
  (if 0 <? num_entries b then o ← compare (comparator b) e.1 (TableFileBuilder.last_key b); Ret (is_gt o) else Ret true)
  = Ret true.
Proof.
  intros [I _ Hnum Hlast]. rewrite Hnum, Hlast, (i_cmp _ _ _ _ _ _ I). set (l := all_entries _ ++ pend).
  destruct (0 <? as_u64 (len l)) eqn:El; [|done]. apply len_pos_as_u64 in El.
  destruct (last_key_in l El) as (x & Hx & <-).
  assert (Hin : forall y, y ∈ l \/ y = e -> key_ok y.1).
  { intros y Hy. apply key_ok_elem. rewrite (i_all _ _ _ _ _ _ I), app_assoc. fold l. apply elem_of_app.
    destruct Hy as [Hy| ->]; [by left|right; by left]. }
  rewrite compare_ord by (apply Hin; auto). cbn [mbind outcome_bind].
  assert (Hgt : ord x.1 e.1 = Lt).
  { pose proof Hsorted as Hs. rewrite (i_all _ _ _ _ _ _ I), app_assoc in Hs. fold l in Hs.
    apply sorted_pieces in Hs as (_ & _ & Hs). apply Hs; [done|by left]. }
  by rewrite (proj2 (ord_gt_lt (ord:=ord) _ _)).
Qed.

Lemma last_key_snoc l (e : entry) : TableFormat.last_key (l ++ [e]) = e.1.
Proof. unfold TableFormat.last_key. by rewrite last_snoc. Qed.

Lemma table_add_ok b w done pd pend e rest : inv b w done pd pend (e :: rest) ->
  exists b' w' done' pd' pend', add e.1 e.2 (b, w) = (Ret tt, (b', w')) /\ inv b' w' done' pd' pend' rest /\
    file b' = file b.
Proof.
  intros Hinv. pose proof (order_ok _ _ _ _ _ _ _ Hinv) as Hord.
  destruct (index_stage_ok _ _ _ _ _ _ _ Hinv) as (b1 & done1 & E1 & I & Hall & Hnum & Hdata & Hf1).
  destruct e as [k v]. destruct (data_add _ _ _ _ _ _ _ _ I) as (data & Ed & Hd). rewrite Hdata in Ed.
  pose proof (put_core _ _ _ _ _ _ _ _ I Hd) as I'. cbn [fst snd] in *.
  assert (Hinv' : inv (put_entry b1 data k) w done1 None (pend ++ [(k, v)]) rest).
  { split; [done| | |].
    - by intros _ [_ ?]%app_nil.
    - change (num_entries (put_entry b1 data k)) with (as_u64 (num_entries b1 + 1)).
      rewrite Hnum, (i_num _ _ _ _ _ _ Hinv), app_nil_r, Hall, app_assoc, (len_app _ [(k, v)]). unfold as_u64.
      by rewrite Zplus_mod_idemp_l.
    - change (option_list None) with (@nil dblock). rewrite app_assoc. by rewrite last_key_snoc. }
  assert (E : add k v (b, w) = (if block_size b <=? BlockBuilder.current_size_estimate data then flush else mret tt) (put_entry b1 data k, w)).
  { unfold add. erewrite action_bind_ret by reflexivity. cbn [fst id].
    rewrite (i_closed _ _ _ _ _ _ Hinv). erewrite action_bind_ret by reflexivity.
    erewrite action_bind_ret by (unfold lift; by rewrite Hord). erewrite action_bind_ret by reflexivity.
    fold (index_stage b k). erewrite action_bind_ret by exact E1. do 3 (erewrite action_bind_ret by reflexivity).
    erewrite action_bind_ret by (unfold lift; by rewrite Ed). by erewrite action_bind_ret by reflexivity. }
  rewrite E. destruct (block_size b <=? _); [|by exists (put_entry b1 data k), w, done1, None, (pend ++ [(k, v)])].
  destruct (flush_ok _ _ _ _ _ Hinv') as (b' & w' & d & Ef & Hf & _ & Hfile); [by intros [_ ?]%app_nil|].
  exists b', w', done1, (Some d), []. split; [done|]. split; [done|]. by rewrite Hfile, <- Hf1.
Qed.

Lemma add_all_ok b w done pd pend rest : inv b w done pd pend rest ->
  exists b' w' done' pd' pend', add_all rest (b, w) = (Ret tt, (b', w')) /\ inv b' w' done' pd' pend' [] /\
    file b' = file b.
Proof.
  revert b w done pd pend. induction rest as [|[k v] rest IH]; intros b w done pd pend Hinv; [by exists b, w, done, pd, pend|].
  destruct (table_add_ok _ _ _ _ _ _ _ Hinv) as (b1 & w1 & done1 & pd1 & pend1 & E & Hinv1 & Hf1).
  destruct (IH _ _ _ _ _ Hinv1) as (b2 & w2 & done2 & pd2 & pend2 & E2 & Hinv2 & Hf2).
  exists b2, w2, done2, pd2, pend2. split; [|split; [done|congruence]]. cbn [add_all]. by erewrite action_bind_ret by exact E.
Qed.

(** *** Finishing *)

Context (Hname : forall p, fp = Some p ->
  key_ok (filter_key (filter_name p)) /\ len (filter_key (filter_name p)) < 2 ^ 31).

Lemma flush_all b w done pd pend : inv b w done pd pend [] ->
  exists b1 w1 pd1, flush (b, w) = (Ret tt, (b1, w1)) /\ inv b1 w1 done pd1 [] [] /\ file b1 = file b.
Proof.
  intros Hinv. destruct pend as [|e pend].
  - exists b, w, pd. split; [by eapply flush_empty|done].
  - destruct pd as [d|]; [by destruct (i_handle _ _ _ _ _ _ Hinv d eq_refl)|].
    destruct (flush_ok _ _ _ _ _ Hinv) as (b1 & w1 & d & E & H1 & _ & H2); [done|]. by exists b1, w1, (Some d).
Qed.

(** The filter block, if there is a policy. *)
Definition filter_stage b : action (T * W) (option BlockHandle.t) :=
  match filter_block b with
  | Some fb =>
      '(fb, bs) ← lift (FilterBlockBuilder.finish fb);
      _ ← modify (set_filter (Some fb));
      handle ← write_block bs;
      mret (Some handle)
  | None => mret None
  end.

(** The bytes of the filter block are what the finished filter builder holds. *)
Definition filter_bytes b : bytes := match filter_block b with Some fb => FilterBlockBuilder.result fb | None => [] end.

Lemma filter_stage_ok b w done pd : inv b w done pd [] [] ->
  exists h fl w', filter_stage b (b, w) =
      (Ret h, (set_offset (as_u64 (len (contents (file b) w'))) (set_filter fl b), w')) /\
    match fp with
    | Some p => exists raw, h = Some (block_handle co (len (contents (file b) w)) raw) /\
        contents (file b) w' = contents (file b) w ++ stored_bytes co raw /\
        raw = filter_bytes (set_filter fl b) /\
        (len (contents (file b) w) < 2 ^ 63 -> len raw < 2 ^ 32 -> filter_ok p raw (done ++ option_list pd))
    | None => h = None /\ contents (file b) w' = contents (file b) w
    end.
Proof.
  intros [I _ _ _]. pose proof (i_filter _ _ _ _ _ _ I) as Hf. pose proof (len_all _ _ _ _ _ _ I) as Hlen.
  unfold filter_inv in Hf. unfold filter_stage. rewrite app_nil_r in Hf, Hlen.
  destruct (filter_block b) as [fb|] eqn:Efb, fp as [p|]; try done.
  - destruct Hf as (gs & fs & pk & Hfb & Hpk & Hpos). pose proof (Hfp p eq_refl) as Hlaw.
    destruct (fb_finish (mk_internal_filter p) keys_ok _ _ _ _ Hfb) as (fb' & raw & gs' & fs' & E & H1 & H2 & H3);
      [apply Hfilter; lia|].
    assert (Eraw : raw = FilterBlockBuilder.result fb').
    { unfold FilterBlockBuilder.finish in E.
      match type of E with (mbind _ ?m = _) => destruct m as [x| |] end; cbn in E; [|done|done]. by injection E as <- <-. }
    destruct (write_block_ok (set_filter (Some fb') b) w raw (i_open _ _ _ _ _ _ I) (i_co _ _ _ _ _ _ I)
      (i_offset _ _ _ _ _ _ I)) as (w' & Ew & Hc). cbn [file set_filter] in Ew, Hc.
    exists (Some (block_handle co (len (contents (file b) w)) raw)), (Some fb'), w'. split.
    { erewrite action_bind_ret by (unfold lift; by rewrite E). cbn beta iota. erewrite action_bind_ret by reflexivity.
      cbn [fst snd].
      by erewrite action_bind_ret by exact Ew. }
    exists raw. split; [done|]. split; [exact Hc|]. split; [exact Eraw|]. intros Hl1 Hl2.
    destruct (filter_reader_ok (mk_internal_filter p) keys_ok gs' fs' raw H1 H2 Hl2) as (r & Hr & Hm & Htot).
    exists r. split; [exact Hr|]. split; [|exact Htot]. intros d e Hd He. destruct (Hpos Hl1) as (_ & Hp2 & _).
    destruct (H3 _ _ (Hp2 d e Hd He)) as (g & Hg & Hk). apply (Hm _ _ g); [|done|done].
    pose proof (i_blocks _ _ _ _ _ _ I) as Hb. rewrite Forall_forall in Hb. destruct (Hb d Hd) as (Hst & _).
    apply stored_bound in Hst. lia.
  - exists None, None, w. split; [|done]. unfold mret, action_ret. rewrite <- (i_offset _ _ _ _ _ _ I), <- Efb.
    by destruct b.
Qed.

(** The entries of the metaindex. *)
Definition meta_entries (h : option BlockHandle.t) : list entry :=
  match h, fp with
  | Some h, Some p => [(filter_key (filter_name p), BlockHandle.encode h [])]
  | _, _ => []
  end.

Definition meta_add b (h : option BlockHandle.t) (meta : BlockBuilder.t C) : action (T * W) (BlockBuilder.t C) :=
  match h, filter_policy_name b with
  | Some handle, Some name => lift (BlockBuilder.add meta (filter_key name) (BlockHandle.encode handle []))
  | _, _ => mret meta
  end.

Lemma meta_stage_ok b w done pd h : inv b w done pd [] [] ->
  exists m0 meta blk, BlockBuilder.new (comparator b) 1 = Ret m0 /\ (forall s, meta_add b h m0 s = (Ret meta, s)) /\
    raw_block key_ok (BlockBuilder.finish meta).2 blk (meta_entries h).
Proof.
  intros [I _ _ _]. unfold meta_add, meta_entries. rewrite (i_cmp _ _ _ _ _ _ I), (i_name _ _ _ _ _ _ I).
  destruct (has_new cmp key_ok 1 ltac:(lia)) as (meta & E & Hm).
  assert (Hnil : exists m0 meta0 blk, BlockBuilder.new cmp 1 = Ret m0 /\ (forall s : T * W, (mret m0 : action (T * W) _) s = (Ret meta0, s)) /\
    raw_block key_ok (BlockBuilder.finish meta0).2 blk []).
  { destruct (has_finish cmp key_ok meta [] Hm) as (blk & Hb); [done|]. by exists meta, meta, blk. }
  destruct h as [h|], fp as [p|]; try done. cbn [fmap option_fmap option_map].
  destruct (Hname p eq_refl) as [Hk Hl]. pose proof (handle_len h) as Hhl.
  assert (Hcost1 : total_cost [(filter_key (filter_name p), BlockHandle.encode h [])] < 2 ^ 32).
  { cbn [total_cost foldr]. unfold entry_cost. cbn [fst snd]. lia. }
  destruct (has_add cmp key_ok ord meta [] (filter_key (filter_name p)) (BlockHandle.encode h []) Hm Hk) as (meta' & E' & Hm').
  - by intros x Hx.
  - exact Hcost1.
  - destruct (has_finish cmp key_ok meta' _ Hm' Hcost1) as (blk & Hb). exists meta, meta', blk.
    split; [done|]. split; [intros s; unfold lift; by rewrite E'|done].
Qed.

(** The index entry of the last block. *)
Definition succ_stage b : action (T * W) unit :=
  if pending_index_entry b then
    succ ← lift (find_short_successor (comparator b) (TableFileBuilder.last_key b));
    add_index succ
  else mret tt.

(** The blocks of the finished table: the last one has its index key too. *)
Definition sealed (done : list dblock) (pd : option dblock) (s : bytes) : list dblock :=
  done ++ option_list ((fun d => with_sep d s) <$> pd).
Lemma sealed_entries done pd s : all_entries (sealed done pd s) = all_entries (done ++ option_list pd).
Proof. unfold sealed. destruct pd; [apply all_entries_sep|done]. Qed.
Lemma sealed_positions done pd s : map d_pos (sealed done pd s) = map d_pos (done ++ option_list pd).
Proof. unfold sealed. rewrite !map_app. by destruct pd. Qed.
Lemma sealed_elem done pd s d : d ∈ sealed done pd s ->
  exists d', d' ∈ done ++ option_list pd /\ d_pos d' = d_pos d /\ d_entries d' = d_entries d /\ d_raw d' = d_raw d /\ d_block d' = d_block d.
Proof.
  unfold sealed. rewrite elem_of_app. intros [Hd|Hd].
  - exists d. split; [|done]. apply elem_of_app. by left.
  - destruct pd as [x|]; [|by apply elem_of_nil in Hd]. apply list_elem_of_singleton in Hd as ->. exists x.
    split; [|done]. apply elem_of_app. right. by left.
Qed.
Lemma sealed_blocks f g done pd s : Forall (dblock_ok key_ok co f) (done ++ option_list pd) ->
  Forall (dblock_ok key_ok co (f ++ g)) (sealed done pd s).
Proof.
  rewrite !Forall_forall. intros Hf d (d' & Hd' & Hp & He & Hr & Hb)%sealed_elem. destruct (Hf d' Hd') as (H1 & H2 & H3).
  unfold dblock_ok. rewrite <- Hp, <- He, <- Hr, <- Hb. split; [by apply stored_app|done].
Qed.

Lemma succ_stage_ok b w done pd fl o w2 : inv b w done pd [] [] ->
  let b2 := set_offset o (set_filter fl b) in
  exists b3 s, succ_stage b2 (b2, w2) = (Ret tt, (b3, w2)) /\ has cmp key_ok (index_block b3) (map (index_entry co) (sealed done pd s)) /\
    seps cmp (sealed done pd s) None /\ is_open (file b3) /\ file b3 = file b /\ compressor b3 = co /\ offset b3 = o /\
    filter_block b3 = fl /\ num_entries b3 = num_entries b.
Proof.
  intros [I Hfresh _ Hlast] b2. unfold succ_stage. change (pending_index_entry b2) with (pending_index_entry b).
  change (comparator b2) with (comparator b). change (TableFileBuilder.last_key b2) with (TableFileBuilder.last_key b).
  rewrite (i_pending _ _ _ _ _ _ I). unfold sealed. destruct pd as [d|]; cbn [is_some].
  2: { exists b2, []. rewrite Hfresh by done. split; [done|]. pose proof (i_index _ _ _ _ _ _ I) as Hix.
       rewrite Hfresh in Hix by done. split; [exact Hix|]. split; [by intros k d Hk|].
       split_and!; [apply (i_open _ _ _ _ _ _ I)|done|apply (i_co _ _ _ _ _ _ I)|done..]. }
  change (option_list (Some d)) with [d] in *. pose proof (i_all _ _ _ _ _ _ I) as Hall. change (option_list (Some d)) with [d] in Hall.
  pose proof (blocks_nonempty _ _ (i_blocks _ _ _ _ _ _ I)) as Hne. change (option_list (Some d)) with [d] in Hne.
  apply Forall_app in Hne as [_ Hne]. apply Forall_cons in Hne as [Hne _]. destruct (last_key_in _ Hne) as (x & Hx & Hxl).
  assert (Hlk : TableFileBuilder.last_key b = TableFormat.last_key (d_entries d)).
  { rewrite Hlast, app_nil_r, all_entries_app. unfold all_entries at 2. cbn. rewrite app_nil_r. unfold TableFormat.last_key.
    rewrite last_app. destruct (last (d_entries d)) eqn:El; [done|]. by apply last_None in El. }
  assert (Hko : key_ok (TableFormat.last_key (d_entries d))).
  { rewrite <- Hxl. apply key_ok_elem. rewrite Hall. apply elem_of_app. left. apply all_entries_elem. exists d.
    split; [|done]. apply elem_of_app. right. by left. }
  destruct (successor_law (TableFormat.last_key (d_entries d)) Hko) as (s & E & Hok & Hge).
  destruct (index_add b w done d [] [] s I Hok Hge) as (ix & Hadd & Hix); [by eapply successor_short|].
  exists (set_pending false (set_index ix (set_last_key s b2))), s. split.
  { erewrite action_bind_ret by (rewrite (i_cmp _ _ _ _ _ _ I), Hlk; unfold lift; by rewrite E).
    exact (add_index_eq b2 w2 s ix Hadd). }
  split; [exact Hix|]. split.
  { cbn [fmap option_fmap option_map]. apply (seps_snoc cmp done (with_sep d s) None); [|exact E].
    pose proof (i_seps _ _ _ _ _ _ I) as Hs. unfold all_entries in Hs. change (option_list (Some d)) with [d] in Hs. cbn [map concat] in Hs.
    cbn [d_entries with_sep]. destruct (d_entries d); [done|exact Hs]. }
  split_and!; [apply (i_open _ _ _ _ _ _ I)|done|apply (i_co _ _ _ _ _ _ I)|done..].
Qed.

(** Writing a block later in [finish], when the builder's other fields have moved on. *)
Lemma write_more b w raw : is_open (file b) -> compressor b = co -> offset b = as_u64 (len (contents (file b) w)) ->
  exists b' w', write_block raw (b, w) = (Ret (block_handle co (len (contents (file b) w)) raw), (b', w')) /\
    b' = set_offset (as_u64 (len (contents (file b) w'))) b /\
    contents (file b) w' = contents (file b) w ++ stored_bytes co raw.
Proof.
  intros H1 H2 H3. destruct (write_block_ok b w raw H1 H2 H3) as (w' & E & Hc). by exists (set_offset (as_u64 (len (contents (file b) w'))) b), w'.
Qed.

Lemma footer_stage b w f : is_open (file b) -> offset b = as_u64 (len (contents (file b) w)) ->
  exists w', (_ ← on_fs (w_append (file b) (TableFooter.encode f []));
      _ ← modify (fun b => set_offset (as_u64 (offset b + len (TableFooter.encode f []))) b);
      _ ← on_fs (w_flush (file b));
      modify (set_closed true)) (b, w) = (Ret tt, (set_closed true (set_offset (as_u64 (len (contents (file b) w'))) b), w')) /\
    contents (file b) w' = contents (file b) w ++ footer_bytes f.
Proof.
  intros Ho Hoff. rewrite footer_encode. cbn [app].
  destruct (append_law (file b) (footer_bytes f) w Ho) as (w1 & E1 & H1).
  destruct (flush_law (file b) w1 Ho) as (w2 & E2 & H2). exists w2. rewrite H2, H1. split; [|done].
  unfold on_fs. erewrite action_bind_ret by (cbn [fst snd]; by rewrite E1). erewrite action_bind_ret by reflexivity.
  erewrite action_bind_ret by (cbn [fst snd]; by rewrite E2). unfold modify. cbn [fst snd].
  rewrite Hoff, len_app. unfold as_u64. by rewrite Zplus_mod_idemp_l.
Qed.

(** The pieces written make a table. *)
Lemma assemble b w done pd s h f2 fraw mraw mblk iraw iblk :
  inv b w done pd [] [] -> seps cmp (sealed done pd s) None ->
  match fp with
  | Some p => h = Some (block_handle co (len (contents (file b) w)) fraw) /\
      f2 = contents (file b) w ++ stored_bytes co fraw /\
      (len (contents (file b) w) < 2 ^ 63 -> len fraw < 2 ^ 32 -> filter_ok p fraw (done ++ option_list pd))
  | None => h = None /\ f2 = contents (file b) w
  end ->
  raw_block key_ok mraw mblk (meta_entries h) -> raw_block key_ok iraw iblk (map (index_entry co) (sealed done pd s)) ->
  let f3 := f2 ++ stored_bytes co mraw in
  let f := (f3 ++ stored_bytes co iraw) ++ footer_bytes (TableFooter.mk (block_handle co (len f2) mraw) (block_handle co (len f3) iraw)) in
  len f < 2 ^ 63 -> len fraw < 2 ^ 32 -> table_ok cmp key_ok ord co fp f (sealed done pd s).
Proof.
  intros Hinv Hseps Hflt Hmeta Hidx f3 f Hlen Hlf. set (f1 := contents (file b) w) in *.
  assert (Hg : exists g, f2 = f1 ++ g).
  { destruct fp as [p|]; [destruct Hflt as (_ & -> & _); by eexists|destruct Hflt as [_ ->]; exists []; by rewrite app_nil_r]. }
  destruct Hg as [g Hg]. assert (Hf : exists g', f = f2 ++ g') by (unfold f, f3; rewrite <- !app_assoc; by eexists).
  destruct Hf as [g' Hf]. assert (Hlen1 : len f1 < 2 ^ 63) by (rewrite Hf, Hg, !len_app in Hlen; len_pose; lia).
  split.
  - exact Hlen.
  - rewrite Hf, Hg, <- app_assoc. apply sealed_blocks. exact (i_blocks _ _ _ _ _ _ Hinv).
  - apply (ascending_ext (done ++ option_list pd)); [by rewrite sealed_positions|exact (i_ascending _ _ _ _ _ _ Hinv)].
  - exact Hseps.
  - rewrite sealed_entries. pose proof Hsorted as Hs. rewrite (i_all _ _ _ _ _ _ Hinv) in Hs. cbn [app] in Hs.
    by rewrite app_nil_r in Hs.
  - exists (f3 ++ stored_bytes co iraw), (len f2), mraw, mblk, (meta_entries h), (len f3), iraw, iblk.
    split; [done|]. split_and!; try done.
    + unfold f. do 2 apply stored_app. apply stored_end.
    + unfold meta_ok, meta_entries. destruct fp as [p|]; [|by destruct Hflt as [-> _]].
      destruct Hflt as (-> & Ef2 & Hok). exists (len f1), fraw. split; [done|]. split.
      * rewrite Hf, Ef2. apply stored_app, stored_end.
      * destruct (Hok Hlen1 Hlf) as (r & Hr & Hm & Htot). exists r. split; [done|]. split; [|done].
        intros d e (d' & Hd' & Hp & He' & _)%sealed_elem He. rewrite <- Hp. apply Hm; [done|by rewrite He'].
    + unfold f. apply stored_app. apply stored_end.
Qed.

Lemma finish_ok b w done pd pend : inv b w done pd pend [] ->
  exists b' w' ds, finish (b, w) = (Ret tt, (b', w')) /\ all_entries ds = all /\ file b' = file b /\ closed b' = true /\
    file_size b' = as_u64 (len (contents (file b) w')) /\ num_entries b' = as_u64 (len all) /\
    (len (contents (file b) w') < 2 ^ 63 -> len (filter_bytes b') < 2 ^ 32 ->
     table_ok cmp key_ok ord co fp (contents (file b) w') ds).
Proof.
  intros Hinv0. destruct (flush_all _ _ _ _ _ Hinv0) as (b1 & w1 & pd1 & E1 & Hinv & Hf1).
  pose proof (i_open _ _ _ _ _ _ Hinv) as Ho. pose proof (i_co _ _ _ _ _ _ Hinv) as Hc1.
  destruct (filter_stage_ok _ _ _ _ Hinv) as (h & fl & w2 & E2 & Hflt). set (b2 := set_offset _ _) in E2.
  destruct (meta_stage_ok _ _ _ _ h Hinv) as (m0 & meta & mblk & E3 & E4 & Hmeta).
  destruct (write_more b2 w2 (BlockBuilder.finish meta).2 Ho Hc1 eq_refl) as (b3 & w3 & E5 & Eb3 & Hw3).
  destruct (succ_stage_ok _ _ _ _ fl (offset b3) w3 Hinv) as (b4 & s & E6 & Hix & Hseps & Ho4 & Hf4 & Hc4 & Hoff4 & Hfl4 & Hn4).
  assert (Hb3 : b3 = set_offset (offset b3) (set_filter fl b1)) by by rewrite Eb3.
  rewrite <- Hb3 in E6.
  set (ds := sealed done pd1 s) in *.
  assert (Hall : all_entries ds = all).
  { unfold ds. rewrite sealed_entries, (i_all _ _ _ _ _ _ Hinv). cbn [app]. by rewrite app_nil_r. }
  assert (Hoff4' : offset b4 = as_u64 (len (contents (file b4) w3))) by (rewrite Hf4, Hoff4, Eb3; done).
  destruct (has_finish cmp key_ok _ _ Hix) as (iblk & Hiblk).
  { pose proof (index_cost cmp co ds None) as Hcst. rewrite Hall in Hcst. apply (Z.le_lt_trans _ (3 * total_cost all)); [|done].
    apply Hcst; [|done|exact hints_short]. eapply blocks_nonempty, (sealed_blocks _ []). exact (i_blocks _ _ _ _ _ _ Hinv). }
  destruct (BlockBuilder.finish (index_block b4)) as [ix iraw] eqn:Eix. cbn [snd] in Hiblk.
  destruct (write_more (set_index ix b4) w3 iraw Ho4 Hc4 Hoff4') as (b5 & w5 & E7 & Eb5 & Hw5). cbn [file set_index] in E7, Hw5.
  set (mraw := (BlockBuilder.finish meta).2) in *.
  set (ft := TableFooter.mk (block_handle co (len (contents (file b2) w2)) mraw) (block_handle co (len (contents (file b4) w3)) iraw)).
  destruct (footer_stage b5 w5 ft) as (w6 & E8 & Hw6); [by rewrite Eb5|by rewrite Eb5|].
  exists (set_closed true (set_offset (as_u64 (len (contents (file b5) w6))) b5)), w6, ds. split.
  { unfold finish. erewrite action_bind_ret by reflexivity. cbn [fst id]. rewrite (i_closed _ _ _ _ _ _ Hinv0).
    erewrite action_bind_ret by reflexivity. erewrite action_bind_ret by exact E1. erewrite action_bind_ret by reflexivity.
    cbn [fst id]. erewrite action_bind_ret by exact E2. erewrite action_bind_ret by (unfold lift; by rewrite E3).
    erewrite action_bind_ret by exact (E4 _). erewrite action_bind_ret by exact E5. erewrite action_bind_ret by reflexivity.
    cbn [fst id]. erewrite action_bind_ret by exact E6. erewrite action_bind_ret by reflexivity. cbn [fst id]. rewrite Eix.
    erewrite action_bind_ret by reflexivity. cbn [fst snd]. erewrite action_bind_ret by exact E7.
    erewrite action_bind_ret by reflexivity. cbn [fst id]. exact E8. }
  assert (Hf5 : file b5 = file b) by (rewrite Eb5; cbn [file set_offset set_index]; by rewrite Hf4).
  split; [done|]. split; [exact Hf5|]. split; [done|]. split; [by rewrite Hf5|]. split.
  { rewrite Eb5. change (num_entries b4 = as_u64 (len all)). rewrite Hn4, (i_num _ _ _ _ _ _ Hinv), app_nil_r.
    by rewrite (i_all _ _ _ _ _ _ Hinv), !app_nil_r. }
  assert (Hfb : filter_bytes (set_closed true (set_offset (as_u64 (len (contents (file b5) w6))) b5)) = filter_bytes (set_filter fl b1)).
  { rewrite Eb5. unfold filter_bytes. cbn [filter_block set_closed set_offset set_index set_filter]. by rewrite Hfl4. }
  rewrite Hfb. intros Hlen Hlf. rewrite Hf5 in Hw6. cbn [file set_offset set_filter] in Hw3. unfold b2 in Hw3, ft. cbn [file set_offset set_filter] in Hw3, ft.
  rewrite Hf4, Hf1 in Hw5. unfold ft in Hw6. rewrite Hf4 in Hw6. rewrite Hf1 in *.
  rewrite Hw5, Hw3 in Hw6. rewrite Hw6 in Hlen |- *.
  apply (assemble b1 w1 done pd1 s h _ (filter_bytes (set_filter fl b1)) mraw mblk iraw iblk Hinv Hseps); try done.
  rewrite Hf1. destruct fp as [p|]; [|done]. destruct Hflt as (raw & -> & Hc & <- & Hok). by split_and!.
Qed.

(** *** A whole table *)

Lemma with_options_ok block_size interval f w : 1 <= interval -> is_open f -> contents f w = [] ->
  exists b, with_options cmp block_size interval f fp co = Ret b /\ inv b w [] None [] all /\ file b = f.
Proof.
  intros Hi Ho Hc. unfold with_options. rewrite (proj2 (Z.leb_le _ _)) by done. cbn [assert mbind outcome_bind].
  destruct (has_new cmp key_ok interval Hi) as (data & Ed & Hd), (has_new cmp key_ok 1 ltac:(lia)) as (ix & Ei & Hix).
  set (fl := (fun p => FilterBlockBuilder.new (mk_internal_filter p)) <$> fp).
  assert (E : match fp with
      | Some policy => fb ← FilterBlockBuilder.start_block (FilterBlockBuilder.new (mk_internal_filter policy)) 0;
          Ret (Some fb, Some (filter_name policy))
      | None => Ret (None, None) end = Ret (fl, filter_name <$> fp)) by by destruct fp.
  rewrite E, Ed, Ei. cbn [mbind outcome_bind]. eexists. split; [done|]. split; [|done].
  split; [split| | |]; cbn [comparator compressor filter_policy_name file closed offset data_block index_block pending_index_entry
    pending_handle filter_block num_entries TableFileBuilder.last_key]; try done.
  - by rewrite Hc.
  - unfold filter_inv. cbn [filter_block]. unfold fl. destruct fp as [p|]; [|done]. exists [], [], [].
    split; [apply fb_new|]. split; [done|]. intros _. rewrite Hc. split; [done|].
    split; [intros d x Hin; by apply elem_of_nil in Hin|intros x Hx; by apply elem_of_nil in Hx].
Qed.
End builder.

(** Opening a builder, adding the entries and finishing; the builder left is returned. *)
Definition build_table {W C P Co} `{Env W} `{Comparator C} `{FilterPolicy P} `{Compressor Co} (c : C)
    (block_size interval : Z) (f : Writable) (fp : option P) (co : option Co) (es : list entry)
  : action W (TableFileBuilder.t W C P Co) := fun w =>
  match with_options c block_size interval f fp co with
  | Ret b =>
      match (_ ← add_all es; finish) (b, w) with
      | (Ret _, (b, w)) => (Ret b, w)
      | (Fail e, (_, w)) => (Fail e, w)
      | (Panic, (_, w)) => (Panic, w)
      end
  | Fail e => (Fail e, w)
  | Panic => (Panic, w)
  end.

(** What the parts of a table build must satisfy: sorted keys, a bound on the sizes, and a
    policy that takes this many keys and has a sensible name. *)
Record build_ok {P} `{FilterPolicy P} (key_ok : bytes -> Prop) (ord : bytes -> bytes -> comparison)
    (keys_ok : list bytes -> Prop) (fp : option P) (es : list entry) : Prop := {
  bo_keys : Forall (fun e => key_ok e.1) es;
  bo_sorted : sorted_entries ord es;
  bo_cost : 3 * total_cost es < 2 ^ 32;
  bo_policy : forall p, fp = Some p -> FilterLaws (mk_internal_filter p) keys_ok;
  bo_filter : forall ks, len ks <= len es -> keys_ok ks;
  bo_name : forall p, fp = Some p -> key_ok (filter_key (filter_name p)) /\ len (filter_key (filter_name p)) < 2 ^ 31;
}.

Lemma build_table_ok {W C P Co} `{Env W} `{Comparator C} `{FilterPolicy P} `{Compressor Co} {is_open : Writable -> Prop}
    {contents : Writable -> W -> bytes} `{!WritableLaws is_open contents} (cmp : C) key_ok ord
    `{!ComparatorLaws cmp key_ok ord} `{!ShortHints cmp} keys_ok (fp : option P) (co : option Co) es block_size interval f w :
  build_ok key_ok ord keys_ok fp es -> 1 <= interval -> is_open f -> contents f w = [] ->
  exists b w' ds, build_table cmp block_size interval f fp co es w = (Ret b, w') /\ all_entries ds = es /\ file b = f /\
    closed b = true /\ file_size b = as_u64 (len (contents f w')) /\ num_entries b = as_u64 (len es) /\
    (len (contents f w') < 2 ^ 63 -> len (filter_bytes b) < 2 ^ 32 ->
     table_ok cmp key_ok ord co fp (contents f w') ds).
Proof.
  intros [B1 B2 B3 B4 B5 B6] Hi Ho Hc.
  destruct (with_options_ok cmp key_ok fp co keys_ok B4 es B6 block_size interval f w Hi Ho Hc) as (b0 & E0 & Hinv & Hf0).
  destruct (add_all_ok (is_open:=is_open) cmp key_ok ord fp co keys_ok B4 es B1 B2 B3 B5 b0 w _ _ _ _ Hinv)
    as (b1 & w1 & done & pd & pend & E1 & Hinv1 & Hf1).
  destruct (finish_ok (is_open:=is_open) cmp key_ok ord fp co keys_ok B4 es B1 B2 B3 B5 B6 b1 w1 _ _ _ Hinv1)
    as (b2 & w2 & ds & E2 & Hall & Hf2 & R1 & R2 & R3 & R4).
  rewrite Hf1, Hf0 in *. exists b2, w2, ds. split; [|by split_and!].
  unfold build_table. rewrite E0. by rewrite (action_bind_ret _ _ _ _ _ E1), E2.
Qed.
