(* ===== verification/Table.v ===== *)
(** * Table.v: the reading half of [table/table.rs].

    Opening a table, reading its blocks through an optional cache, point lookups and the
    table iterator.  Methods act on the file system state and the shared cache together.

    The iterator's block function is a function of the handle, taken at the state in which
    the iterator is made: reads do not change files, and what the cache remembers does not
    change what a block read returns ([read_block_coherent] in TableCorrect.v). *)
From S2P Require Import Prelude Status Coding Crc32c Comparator Format DbIterator TwoLevelIter Filter.
From S2P Require Import FilterBlock Block Env Cache TableBuilder.

(** ** [RandomAccessFile] *)

Class RandomAccessFile (F W : Type) := { ra_read : F -> Z -> Z -> action W bytes }.
#[export] Instance Env_RandomAccess {W} `{Env W} : RandomAccessFile RandomAccess W := {| ra_read := read_at |}.

Record VecRandomAccessFile := mk_vec { vec_bytes : bytes }.
Definition vec_read_at (f : VecRandomAccessFile) (offset n : Z) : outcome bytes :=
  if 2 ^ 64 <=? offset + n then Fail (Stat.io_error "VecRandomAccessFile: length overflow")
  else if len (vec_bytes f) <? offset + n then Fail (Stat.io_error "VecRandomAccessFile: short read")
  else slice (vec_bytes f) offset (offset + n).
#[export] Instance Vec_RandomAccess {W} : RandomAccessFile VecRandomAccessFile W := {|
  ra_read f offset n := lift (vec_read_at f offset n)
|}.

Inductive LookupResult := LookupFound (v : bytes) | LookupDeleted | LookupNotFound.

Section Table.
Context {W F C P Co K : Type} `{RandomAccessFile F W} `{Comparator C} `{FilterPolicy P} `{Compressor Co} `{Cache K Block}.

Definition on_file {A} (m : action W A) : action (W * K) A := fun s => let '(r, w) := m s.1 in (r, (w, s.2)).
Definition on_cache {A} (f : K -> outcome (A * K)) : action (W * K) A := fun s =>
  match f s.2 with
  | Ret (a, k) => (Ret a, (s.1, k))
  | Fail e => (Fail e, s)
  | Panic => (Panic, s)
  end.

(** [checked_add(BLOCK_TRAILER_SIZE)] overflows only within five of 2^64. *)
Definition read_block_from_file (file : F) (handle : BlockHandle.t) (verify : bool) (compressor : option Co) : action W bytes :=
  let n := BlockHandle.size handle in
  if 2 ^ 64 <=? n + BLOCK_TRAILER_SIZE then lift (Fail (Stat.corruption "Table: block read size overflow")) else
  let total := n + BLOCK_TRAILER_SIZE in
  bs ← ra_read file (BlockHandle.offset handle) total;
  block_data ← lift (slice_to bs n);
  trailer_input ← lift (slice bs n total);
  trailer ← lift (fst (BlockTrailer.decode_from trailer_input));
  if verify && negb (block_crc block_data (BlockTrailer.kind trailer) =? BlockTrailer.crc trailer)
  then lift (Fail (Stat.corruption "Table: block checksum mismatch")) else
  if BlockTrailer.kind trailer =? BlockTrailer.KIND_NO_COMPRESSION then mret block_data else
  match compressor with
  | Some c => if comp_kind c =? BlockTrailer.kind trailer then lift (decompress c block_data)
              else lift (Fail (Stat.corruption "Table: unsupported compression"))
  | None => lift (Fail (Stat.corruption "Table: unsupported compression"))
  end.

(** ** [TableFilter] *)

Record TableFilter := mk_tf { tf_data : bytes; tf_policy : InternalFilterPolicy P }.
Definition tf_key_may_match (self : TableFilter) (block_offset : Z) (key : bytes) : outcome bool :=
  reader ← FilterBlockReader.new (tf_policy self) (tf_data self);
  match reader with
  | Some reader => FilterBlockReader.key_may_match reader block_offset key
  | None => Ret true
  end.

(** [r.ok()?]: an error gives [None] and only a panic goes on. *)
Definition ok_then {A B} (m : action W A) (f : A -> action W (option B)) : action W (option B) := fun w =>
  match m w with
  | (Ret a, w) => f a w
  | (Fail _, w) => (Ret None, w)
  | (Panic, w) => (Panic, w)
  end.
Definition read_filter_block (file : F) (metaindex_handle : BlockHandle.t) (c : C) (policy : P) (compressor : option Co)
  : action W (option TableFilter) :=
  ok_then (read_block_from_file file metaindex_handle true compressor) (fun meta_bytes =>
  ok_then (lift (Block_new meta_bytes)) (fun meta =>
  let key := TableFileBuilder.filter_key (filter_name policy) in
  iter ← lift (seek (BlockIter.new meta c) key);
  v ← lift (valid iter);
  if negb v then mret None else
  k ← lift (iter_key iter);
  if negb (bool_decide (k = key)) then mret None else
  handle_value ← lift (iter_value iter);
  ok_then (lift (fst (BlockHandle.decode_from handle_value))) (fun filter_handle =>
  ok_then (read_block_from_file file filter_handle true compressor) (fun filter_bytes =>
  mret (Some (mk_tf filter_bytes (mk_internal_filter policy))))))).

(** ** [Table] *)

Record Table := mk_table {
  file : F;
  comparator : C;
  index_block : Block;
  metaindex_offset : Z;
  block_cache : bool; (* whether there is one; the cache itself is shared state *)
  cache_id : Z;
  compressor : option Co;
  filter : option TableFilter;
}.

Definition open_random_with_options (file : F) (file_size : Z) (c : C) (block_cache : bool) (filter_policy : option P)
    (compressor : option Co) : action (W * K) Table :=
  if file_size <? TableFooter.ENCODED_LENGTH then lift (Fail (Stat.corruption "Table: file too small for footer")) else
  let footer_start := file_size - TableFooter.ENCODED_LENGTH in
  footer_bytes ← on_file (ra_read file footer_start TableFooter.ENCODED_LENGTH);
  footer ← lift (fst (TableFooter.decode_from footer_bytes));
  index_bytes ← on_file (read_block_from_file file (TableFooter.index footer) true compressor);
  index_block ← lift (Block_new index_bytes);
  filter ← match filter_policy with
           | Some policy => on_file (read_filter_block file (TableFooter.metaindex footer) c policy compressor)
           | None => mret None
           end;
  cache_id ← (if block_cache then on_cache (fun k => Ret (cache_new_id k)) else mret 0);
  mret (mk_table file c index_block (BlockHandle.offset (TableFooter.metaindex footer)) block_cache cache_id compressor filter).
Definition open_random_with_cache file file_size c block_cache : action (W * K) Table :=
  open_random_with_options file file_size c block_cache None None.
Definition open_random file file_size c : action (W * K) Table := open_random_with_cache file file_size c false.

Implicit Types self : Table.

(** [cache_id.to_le_bytes() || offset.to_le_bytes()] *)
Definition cache_key self (handle : BlockHandle.t) : bytes :=
  to_le_bytes 8 (cache_id self) ++ to_le_bytes 8 (BlockHandle.offset handle).

Definition read_block_cached_full self (handle : BlockHandle.t) (verify fill_cache : bool) : action (W * K) Block :=
  if block_cache self then
    let key := cache_key self handle in
    h ← on_cache (fun k => cache_lookup k key);
    match h with
    | Some h => mret (handle_value h)
    | None =>
        bs ← on_file (read_block_from_file (file self) handle verify (compressor self));
        block ← lift (Block_new bs);
        _ ← (if fill_cache then _ ← on_cache (fun k => cache_insert k key block (Block_size block)); mret tt else mret tt);
        mret block
    end
  else
    bs ← on_file (read_block_from_file (file self) handle verify (compressor self));
    lift (Block_new bs).
Definition read_block_cached self handle verify : action (W * K) Block := read_block_cached_full self handle verify true.

Definition approximate_offset_of self (key : bytes) : outcome Z :=
  index_iter ← seek (BlockIter.new (index_block self) (comparator self)) key;
  v ← valid index_iter;
  if v : bool then
    input ← iter_value index_iter;
    match fst (BlockHandle.decode_from input) with
    | Ret handle => Ret (BlockHandle.offset handle)
    | Fail _ => Ret (metaindex_offset self)
    | Panic => Panic
    end
  else Ret (metaindex_offset self).

(** [while block_iter.valid()] and [while index_iter.valid()]: one round per entry; a block
    of [n] bytes has fewer than [n] entries. *)
Fixpoint block_loop (fuel : nat) (it : BlockIter.t C) (out : list (bytes * bytes)) : outcome (list (bytes * bytes)) :=
  v ← valid it;
  if v : bool then
    match fuel with
    | O => Panic
    | S fuel => k ← iter_key it; x ← iter_value it; it ← next it; block_loop fuel it (out ++ [(k, x)])
    end
  else _ ← iter_status it; Ret out.
Fixpoint collect_loop self (verify : bool) (fuel : nat) (it : BlockIter.t C) (out : list (bytes * bytes))
  : action (W * K) (list (bytes * bytes)) :=
  v ← lift (valid it);
  if v : bool then
    match fuel with
    | O => lift Panic
    | S fuel =>
        handle_bytes ← lift (iter_value it);
        handle ← lift (fst (BlockHandle.decode_from handle_bytes));
        block ← read_block_cached self handle verify;
        block_iter ← lift (seek_to_first (BlockIter.new block (comparator self)));
        out ← lift (block_loop (BlockIter.loop_fuel block_iter) block_iter out);
        it ← lift (next it);
        collect_loop self verify fuel it out
    end
  else _ ← lift (iter_status it); mret out.
Definition collect_entries_verify self (verify : bool) : action (W * K) (list (bytes * bytes)) :=
  index_iter ← lift (seek_to_first (BlockIter.new (index_block self) (comparator self)));
  collect_loop self verify (BlockIter.loop_fuel index_iter) index_iter [].
Definition collect_entries self : action (W * K) (list (bytes * bytes)) := collect_entries_verify self true.

(** The steps [get_full] and [internal_get_full] share: the data block the index names for
    [target], unless there is none or the filter rules [probe] out, and the first entry in
    it not below [target]. *)
Definition find_entry self (target probe : bytes) (verify fill_cache : bool) : action (W * K) (option (BlockIter.t C)) :=
  index_iter ← lift (seek (BlockIter.new (index_block self) (comparator self)) target);
  v ← lift (valid index_iter);
  if negb v then mret None else
  handle_bytes ← lift (iter_value index_iter);
  handle ← lift (fst (BlockHandle.decode_from handle_bytes));
  may ← lift (match filter self with Some f => tf_key_may_match f (BlockHandle.offset handle) probe | None => Ret true end);
  if negb may then mret None else
  data_block ← read_block_cached_full self handle verify fill_cache;
  data_iter ← lift (seek (BlockIter.new data_block (comparator self)) target);
  v ← lift (valid data_iter);
  mret (if v : bool then Some data_iter else None).

Definition get_full self (target : bytes) (verify fill_cache : bool) : action (W * K) (option bytes) :=
  r ← find_entry self target (target ++ replicate 8 (as_u8 0)) verify fill_cache;
  match r with
  | None => mret None
  | Some data_iter =>
      k ← lift (iter_key data_iter);
      o ← lift (compare (comparator self) k target);
      if is_eq o then v ← lift (iter_value data_iter); mret (Some v) else mret None
  end.
Definition get_verify self target verify : action (W * K) (option bytes) := get_full self target verify true.
Definition get self target : action (W * K) (option bytes) := get_verify self target true.

Definition internal_get_full self (target : bytes) (verify fill_cache : bool) : action (W * K) LookupResult :=
  _ ← lift (assert (8 <=? len target));
  target_user_key ← lift (slice_to target (len target - 8));
  r ← find_entry self target target verify fill_cache;
  match r with
  | None => mret LookupNotFound
  | Some data_iter =>
      entry_key ← lift (iter_key data_iter);
      if len entry_key <? 8 then lift (Fail (Stat.corruption "Table: malformed internal key")) else
      entry_user_key ← lift (slice_to entry_key (len entry_key - 8));
      if negb (bool_decide (entry_user_key = target_user_key)) then mret LookupNotFound else
      tag_bytes ← lift (slice_from entry_key (len entry_key - 8));
      let kind := Z.land (from_le_bytes tag_bytes) 0xff in
      if kind =? 0 then mret LookupDeleted
      else if kind =? 1 then v ← lift (iter_value data_iter); mret (LookupFound v)
      else lift (Fail (Stat.corruption "Table: unknown ValueType"))
  end.
Definition internal_get_verify self target verify : action (W * K) LookupResult := internal_get_full self target verify true.
Definition internal_get self target : action (W * K) LookupResult := internal_get_verify self target true.

(** ** [TableIterator] *)

Definition TableIterator : Type := TwoLevelIterator.t (BlockIter.t C) (BlockIter.t C).
Definition table_block_function self (verify : bool) (st : W * K) (handle_bytes : bytes) : outcome (BlockIter.t C) :=
  handle ← fst (BlockHandle.decode_from handle_bytes);
  block ← fst (read_block_cached self handle verify st);
  Ret (BlockIter.from_shared block (comparator self)).
Definition new_iterator_verify self (verify : bool) (st : W * K) : TableIterator :=
  TwoLevelIterator.new (BlockIter.from_owned (index_block self) (comparator self)) (table_block_function self verify st)
    (S (length (blk_bytes (index_block self)))).
Definition new_iterator self (st : W * K) : TableIterator := new_iterator_verify self true st.
End Table.
Arguments TableFilter : clear implicits.
Arguments Table : clear implicits.
Arguments TableIterator : clear implicits.

(** [Table::open] on a vector. *)
Definition open_vec {W C P Co K} `{Comparator C} `{FilterPolicy P} `{Compressor Co} `{Cache K Block} (bs : bytes) (c : C)
  : action (W * K) (Table VecRandomAccessFile C P Co) :=
  open_random (mk_vec bs) (len bs) c.
