(* ===== verification/TableCorrect.v ===== *)
(** * TableCorrect.v: correctness of Table.v.

    Over a file that is a table (TableFormat.v), with any cache that returns only what was
    inserted: blocks are read back, the iterator is a cursor over the entries, and a lookup
    finds the first entry not below its target. *)
From S2P Require Import Prelude Status Coding Crc32c Comparator Format Cache DbIterator TwoLevelIter Filter.
From S2P Require Import FilterBlock Block BlockCorrect Env CacheCorrect TableBuilder TableFormat.
From S2P Require Import TableBuilderCorrect Table.

(** ** Reading files *)

(** [file] reads as [data] in state [w], which reading leaves alone. *)
Definition reads {F W} `{RandomAccessFile F W} (file : F) (w : W) (data : bytes) : Prop :=
  forall off n, 0 <= off -> 0 <= n -> off + n <= len data -> ra_read file off n w = (Ret (ztake n (zdrop off data)), w).

Lemma vec_reads {W} (w : W) data : len data < 2 ^ 64 -> reads (mk_vec data) w data.
Proof.
  intros Hl off n Ho Hn Hb. cbn. unfold vec_read_at, lift. cbn [vec_bytes]. rewrite !(proj2 (Z.leb_gt _ _)) by lia.
  rewrite (proj2 (Z.ltb_ge _ _)) by lia. rewrite slice_ok by lia. by replace (off + n - off) with n by lia.
Qed.

Lemma mem_reads (f : Mem.random_access) (w : MemEnv) : len (Mem.ra_data f) < 2 ^ 64 ->
  reads (F:=RandomAccess (W:=MemEnv)) f w (Mem.ra_data f).
Proof.
  intros Hl off n Ho Hn Hb. cbn. unfold Mem.read_at. rewrite !(proj2 (Z.leb_gt _ _)) by lia.
  rewrite (proj2 (Z.ltb_ge _ _)) by lia. rewrite slice_ok by lia. by replace (off + n - off) with n by lia.
Qed.

Lemma ztake_mid {A} (pre m post : list A) : ztake (len m) (zdrop (len pre) (pre ++ m ++ post)) = m.
Proof. rewrite zdrop_app_len by done. by apply ztake_app_len. Qed.

(** ** Reading a table *)

Section table.
Context {W F C P Co K : Type} `{HR : RandomAccessFile F W} `{HC : Comparator C} `{HP : FilterPolicy P} `{HCo : Compressor Co}
  `{HK : Cache K Block} {cache_ok : K -> Prop} {cached : K -> bytes -> Block -> Prop} `{!CacheLaws cache_ok cached}.
Context (cmp : C) (key_ok : bytes -> Prop) (ord : bytes -> bytes -> comparison) `{!ComparatorLaws cmp key_ok ord}
  (co : option Co) (Hco : forall c, co = Some c -> CompressorLaws c).
Context (f : bytes) (file : F) (w : W) (Hfile : reads file w f) (Hlen : len f < 2 ^ 63).

Lemma compressed raw kind body : TableFileBuilder.compress_block co raw = (kind, body) -> 0 <= kind < 256 /\
  (if kind =? BlockTrailer.KIND_NO_COMPRESSION then Ret body else
   match co with
   | Some c => if comp_kind c =? kind then decompress c body else Fail (Stat.corruption "Table: unsupported compression")
   | None => Fail (Stat.corruption "Table: unsupported compression")
   end) = Ret raw.
Proof.
  unfold TableFileBuilder.compress_block. destruct co as [c|] eqn:Ec; [|by intros [= <- <-]].
  destruct (compress c raw) as [y|] eqn:Ey; [|by intros [= <- <-]]. intros [= <- <-].
  pose proof (Hco c eq_refl) as Hlaw. pose proof comp_kind_law as Hk. split; [lia|]. change BlockTrailer.KIND_NO_COMPRESSION with 0.
  rewrite (proj2 (Z.eqb_neq _ _)) by lia. rewrite Z.eqb_refl. by apply decompress_law.
Qed.

Lemma read_stored pos raw verify : stored co f pos raw ->
  read_block_from_file file (block_handle co pos raw) verify co w = (Ret raw, w).
Proof.
  intros Hs. pose proof (stored_bound _ _ _ _ Hs) as [Hb1 Hb2]. pose proof (stored_size_nonneg co raw) as Hsz.
  destruct (stored_handle_ok _ _ _ _ Hs Hlen) as [_ Hoff]. unfold read_block_from_file. rewrite Hoff.
  change (BlockHandle.size (block_handle co pos raw)) with (stored_size co raw). change BLOCK_TRAILER_SIZE with 5.
  rewrite (proj2 (Z.leb_gt _ _)) by lia. erewrite action_bind_ret by (apply Hfile; lia).
  destruct Hs as (pre & post & Hf & ->). pose proof (stored_len co raw) as Hl. rewrite Hf, <- Hl, ztake_mid, Hl.
  unfold stored_bytes, stored_size in *. destruct (TableFileBuilder.compress_block co raw) as [kind body] eqn:Ek.
  destruct (compressed _ _ _ Ek) as [Hkind Hdec]. cbn [snd] in *. set (tr := BlockTrailer.encode _ []) in *.
  erewrite action_bind_ret by (unfold lift; rewrite slice_to_app by done; reflexivity).
  assert (slice (body ++ tr) (len body) (len body + 5) = Ret tr) as Etr.
  { replace (len body + 5) with (len (body ++ tr)) by done. apply slice_from_app. done. }
  erewrite action_bind_ret by (unfold lift; rewrite Etr; reflexivity).
  assert (Hcrc : is_u32 (block_crc body kind)) by (apply extend_u32, value_u32).
  erewrite action_bind_ret by (unfold lift, tr; rewrite trailer_decode by done; reflexivity).
  cbn [BlockTrailer.kind BlockTrailer.crc]. rewrite Z.eqb_refl, andb_false_r.
  destruct (kind =? BlockTrailer.KIND_NO_COMPRESSION); [by injection Hdec as <-|].
  destruct co as [c|]; [|done]. destruct (comp_kind c =? kind); [|done]. unfold lift. by rewrite Hdec.
Qed.

(** *** Blocks as cursors *)

(** The iterator stands at a position of the entries of the block. *)
Definition block_stands (blk : Block) (es : list entry) (it : BlockIter.t C) (p : option nat) : Prop :=
  exists cs rs, block_ok blk cs rs /\ entries_of cs = es /\ (forall i c, cs !! i = Some c -> key_ok (c_key c)) /\
    block_at cmp blk cs rs it p.

Lemma block_stands_laws blk es : sorted_entries ord es -> IterLaws ord es key_ok (block_stands blk es).
Proof.
  intros Hs. assert (Hl : forall cs rs, block_ok blk cs rs -> entries_of cs = es -> (forall i c, cs !! i = Some c -> key_ok (c_key c)) ->
    IterLaws ord es key_ok (block_at cmp blk cs rs)).
  { intros cs rs Hok <- Hk. exact (BlockIter_Laws cmp key_ok ord blk cs rs Hok Hk Hs). }
  split.
  - intros it p (cs & rs & H1 & H2 & H3 & Ha). pose proof (Hl _ _ H1 H2 H3). apply (law_valid _ _ Ha).
  - intros it i (cs & rs & H1 & H2 & H3 & Ha). pose proof (Hl _ _ H1 H2 H3). apply (law_bound _ _ Ha).
  - intros it p (cs & rs & H1 & H2 & H3 & Ha). pose proof (Hl _ _ H1 H2 H3).
    destruct (law_seek_to_first _ _ Ha) as (it' & E & Ha'). exists it'. split; [done|]. by exists cs, rs.
  - intros it p (cs & rs & H1 & H2 & H3 & Ha). pose proof (Hl _ _ H1 H2 H3).
    destruct (law_seek_to_last _ _ Ha) as (it' & E & Ha'). exists it'. split; [done|]. by exists cs, rs.
  - intros it p t (cs & rs & H1 & H2 & H3 & Ha) Ht. pose proof (Hl _ _ H1 H2 H3).
    destruct (law_seek _ _ t Ha Ht) as (it' & E & Ha'). exists it'. split; [done|]. by exists cs, rs.
  - intros it i (cs & rs & H1 & H2 & H3 & Ha). pose proof (Hl _ _ H1 H2 H3).
    destruct (law_next _ _ Ha) as (it' & E & Ha'). exists it'. split; [done|]. by exists cs, rs.
  - intros it i (cs & rs & H1 & H2 & H3 & Ha). pose proof (Hl _ _ H1 H2 H3).
    destruct (law_prev _ _ Ha) as (it' & E & Ha'). exists it'. split; [done|]. by exists cs, rs.
  - intros it i e (cs & rs & H1 & H2 & H3 & Ha) He. pose proof (Hl _ _ H1 H2 H3). apply (law_entry _ _ _ Ha He).
  - intros it p (cs & rs & H1 & H2 & H3 & Ha). pose proof (Hl _ _ H1 H2 H3). apply (law_status _ _ Ha).
Qed.

Lemma raw_block_stands raw blk es : raw_block key_ok raw blk es ->
  Block_new raw = Ret blk /\ block_stands blk es (BlockIter.new blk cmp) None /\ Forall (fun e => key_ok e.1) es /\
  (length es < S (length (blk_bytes blk)))%nat.
Proof.
  intros (cs & rs & H1 & H2 & <- & H3). split; [done|]. split; [|split].
  - exists cs, rs. split_and!; [done..|]. by apply from_source_at.
  - apply Forall_lookup. intros i e He. apply list_lookup_fmap_Some in He as (c & -> & Hc). by eapply H3.
  - unfold entries_of. rewrite length_map. pose proof (length_le_body cs (bo_chain _ _ _ H2)) as Hl.
    pose proof (bo_bytes _ _ _ H2) as Hb. apply (f_equal len) in Hb. rewrite !len_app in Hb. unfold len in *. lia.
Qed.

(** *** The index *)

Section with_table.
Context (fp : option P) (ds : list dblock) (Ht : table_ok cmp key_ok ord co fp f ds).
Let Hblocks : Forall (dblock_ok key_ok co f) ds := t_blocks _ _ _ _ _ _ _ Ht.

Lemma table_block d : d ∈ ds -> dblock_ok key_ok co f d.
Proof. intros Hd. pose proof Hblocks as Hb. rewrite Forall_forall in Hb. by apply Hb. Qed.
Lemma table_nonempty : Forall (fun d => d_entries d <> []) ds.
Proof. apply Forall_forall. intros d Hd. by destruct (table_block d Hd) as (_ & _ & Hne). Qed.
Lemma table_keys : Forall (fun e => key_ok e.1) (all_entries ds).
Proof.
  apply Forall_forall. intros e (d & Hd & He)%all_entries_elem. destruct (table_block d Hd) as (_ & Hraw & _).
  apply raw_block_stands in Hraw as (_ & _ & Hk & _). rewrite Forall_forall in Hk. by apply Hk.
Qed.
Lemma handle_good d : d ∈ ds -> handle_ok (d_handle co d) /\ BlockHandle.offset (d_handle co d) = d_pos d /\ 0 <= d_pos d < 2 ^ 63.
Proof.
  intros Hd. destruct (table_block d Hd) as (Hs & _ & _). destruct (stored_handle_ok _ _ _ _ Hs Hlen) as [H1 H2].
  pose proof (stored_bound _ _ _ _ Hs). pose proof (stored_size_nonneg co (d_raw d)). split_and!; [done|done|lia|lia].
Qed.
Lemma pos_inj d d' : d ∈ ds -> d' ∈ ds -> d_pos d = d_pos d' -> d = d'.
Proof.
  intros [i Hi]%list_elem_of_lookup [j Hj]%list_elem_of_lookup E. pose proof (t_ascending _ _ _ _ _ _ _ Ht) as Ha.
  destruct (lt_eq_lt_dec i j) as [[Hij| ->]|Hij]; [|congruence|].
  - pose proof (Ha _ _ _ _ Hij Hi Hj). lia.
  - pose proof (Ha _ _ _ _ Hij Hj Hi). lia.
Qed.

(** The block a handle of the index names. *)
Definition find_handle (l : list dblock) (hb : bytes) : option dblock :=
  head (base.filter (fun d => BlockHandle.encode (d_handle co d) [] = hb) l).
Definition block_of (hb : bytes) : list entry := match find_handle ds hb with Some d => d_entries d | None => [] end.

Lemma find_handle_elem d : d ∈ ds -> find_handle ds (BlockHandle.encode (d_handle co d) []) = Some d.
Proof.
  intros Hd. unfold find_handle. destruct (base.filter _ ds) as [|d' l] eqn:E.
  - assert (Hin : d ∈ base.filter (fun x => BlockHandle.encode (d_handle co x) [] = BlockHandle.encode (d_handle co d) []) ds)
      by by apply list_elem_of_filter.
    rewrite E in Hin. by apply elem_of_nil in Hin.
  - assert (Hin : d' ∈ base.filter (fun x => BlockHandle.encode (d_handle co x) [] = BlockHandle.encode (d_handle co d) []) ds)
      by (rewrite E; by left).
    apply list_elem_of_filter in Hin as [He Hd']. destruct (handle_good d Hd) as (G1 & G2 & _), (handle_good d' Hd') as (G3 & G4 & _).
    pose proof (handle_decode_all _ G1) as D1. pose proof (handle_decode_all _ G3) as D3. rewrite He, D1 in D3.
    cbn. f_equal. apply pos_inj; [done|done|]. rewrite <- G2, <- G4. congruence.
Qed.

Lemma index_lookup k e : map (index_entry co) ds !! k = Some e -> exists d, ds !! k = Some d /\ e = index_entry co d /\
  find_handle ds e.2 = Some d.
Proof.
  intros (d & -> & Hd)%list_lookup_fmap_Some. exists d. split; [done|]. split; [done|]. apply find_handle_elem.
  by eapply list_elem_of_lookup_2.
Qed.

Lemma blocks_all : blocks block_of (map (index_entry co) ds) = all_entries ds.
Proof.
  unfold blocks, all_entries. f_equal. rewrite map_map. apply map_ext_in. intros d Hd. cbn. unfold block_of.
  by rewrite find_handle_elem by by apply list_elem_of_In.
Qed.

Lemma table_seps k d : ds !! k = Some d -> key_ok (d_sep d) /\ (forall x, x ∈ d_entries d -> ord x.1 (d_sep d) <> Gt) /\
  (forall x, x ∈ all_entries (drop (S k) ds) -> ord (d_sep d) x.1 = Lt).
Proof.
  intros Hd. destruct (sep_bounds cmp key_ok ord ds [] k d) as (H1 & H2 & H3); try done.
  - exact (t_seps _ _ _ _ _ _ _ Ht).
  - rewrite app_nil_r. exact (t_sorted _ _ _ _ _ _ _ Ht).
  - exact table_nonempty.
  - rewrite app_nil_r. exact table_keys.
  - split; [done|]. split; [done|]. intros x Hx. apply H3. by rewrite app_nil_r.
Qed.

Lemma index_upper k e x : map (index_entry co) ds !! k = Some e -> x ∈ block_of e.2 -> ord x.1 e.1 <> Gt.
Proof.
  intros (d & Hd & -> & Hf)%index_lookup. unfold block_of. rewrite Hf. by apply table_seps with k.
Qed.
Lemma later_block (k j : nat) (d d' : dblock) x : (k < j)%nat -> ds !! j = Some d' -> x ∈ d_entries d' ->
  x ∈ all_entries (drop (S k) ds).
Proof.
  intros Hkj Hj Hx. apply all_entries_elem. exists d'. split; [|done]. apply list_elem_of_lookup. exists (j - S k)%nat.
  rewrite lookup_drop. by replace (S k + (j - S k))%nat with j by lia.
Qed.
Lemma index_lower k j e e' x : (k < j)%nat -> map (index_entry co) ds !! k = Some e -> map (index_entry co) ds !! j = Some e' ->
  x ∈ block_of e'.2 -> ord e.1 x.1 = Lt.
Proof.
  intros Hkj (d & Hd & -> & _)%index_lookup (d' & Hd' & -> & Hf)%index_lookup. unfold block_of. rewrite Hf. intros Hx.
  apply (table_seps _ _ Hd). by eapply later_block.
Qed.
Lemma index_sorted : sorted_entries ord (map (index_entry co) ds).
Proof.
  intros i j a b Hij Ha Hb. pose proof Hb as (d' & Hd' & -> & Hf)%index_lookup.
  pose proof table_nonempty as Hne. rewrite Forall_lookup in Hne. destruct (first_key_in _ (Hne _ _ Hd')) as (x & Hx & _).
  assert (Hxb : x ∈ block_of (index_entry co d').2) by (unfold block_of; by rewrite Hf).
  apply (ord_lt_le_trans _ x.1); [by eapply index_lower|]. by eapply index_upper.
Qed.

(** *** An open table *)

Abbreviation table := (Table F C P Co) (only parsing).
Implicit Types (self : table) (k : K).

Record opened self : Prop := {
  o_file : Table.file self = file;
  o_cmp : comparator self = cmp;
  o_co : compressor self = co;
  o_index : exists raw, raw_block key_ok raw (index_block self) (map (index_entry co) ds);
  o_filter : forall tf, Table.filter self = Some tf -> exists p, tf_policy tf = mk_internal_filter p /\ filter_ok p (tf_data tf) ds;
}.

(** [good key block]: what may be cached.  A table owns its keys when they admit exactly its
    blocks; a cache of good entries then holds, under them, only those. *)
Definition owns (good : bytes -> Block -> Prop) self : Prop :=
  forall d v, d ∈ ds -> good (cache_key self (d_handle co d)) v <-> v = d_block d.
Definition coherent (good : bytes -> Block -> Prop) self k : Prop := block_cache self = true ->
  owns good self /\ cache_ok k /\ forall key v, cached k key v -> good key v.

Lemma cache_key_inj self d d' : d ∈ ds -> d' ∈ ds -> cache_key self (d_handle co d) = cache_key self (d_handle co d') -> d = d'.
Proof.
  intros Hd Hd' E. apply pos_inj; [done|done|]. unfold cache_key in E. apply app_inv_head in E.
  destruct (handle_good d Hd) as (_ & E1 & H1), (handle_good d' Hd') as (_ & E2 & H2).
  rewrite E1, E2 in E. apply (f_equal (fun bs => from_le_bytes bs)) in E. rewrite !le_combine_split_id in E by lia. done.
Qed.

(** Reading a block of the table through the cache, whatever the flags, gives the block, and
    keeps the cache coherent. *)
Lemma read_block_coherent good self k d verify fill : opened self -> coherent good self k -> d ∈ ds ->
  exists k', read_block_cached_full self (d_handle co d) verify fill (w, k) = (Ret (d_block d), (w, k')) /\ coherent good self k'.
Proof.
  intros [O1 O2 O3 O4 O5] Hcoh Hd. destruct (table_block d Hd) as (Hst & Hraw & _).
  apply raw_block_stands in Hraw as (Hnew & _). unfold read_block_cached_full. rewrite O1, O3.
  assert (Hread : forall k, on_file (K:=K) (read_block_from_file file (d_handle co d) verify co) (w, k) = (Ret (d_raw d), (w, k))).
  { intros k0. unfold on_file. cbn [fst snd]. unfold d_handle. by rewrite (read_stored _ _ _ Hst). }
  destruct (block_cache self) eqn:Euse.
  - destruct (Hcoh Euse) as (Hown & Hok & Hc0). destruct (lookup_law k (cache_key self (d_handle co d)) Hok) as (r & k1 & El & Hok1 & Hr & Hsub).
    assert (Hcoh1 : coherent good self k1) by (intros _; split_and!; [done..|intros key v Hc; by apply Hc0, Hsub]).
    erewrite action_bind_ret by (unfold on_cache; cbn [fst snd]; by rewrite El).
    destruct r as [h|].
    { exists k1. pose proof (Hc0 _ _ (Hr h eq_refl)) as Hv. apply (Hown d) in Hv; [|done]. by rewrite Hv. }
    erewrite action_bind_ret by (apply Hread). erewrite action_bind_ret by (unfold lift; by rewrite Hnew).
    destruct fill; [|exists k1; by erewrite action_bind_ret by reflexivity].
    destruct (insert_law k1 (cache_key self (d_handle co d)) (d_block d) (Block_size (d_block d)) Hok1) as (h & k2 & Ei & Hok2 & Hs2).
    exists k2. split.
    { erewrite action_bind_ret; [reflexivity|]. erewrite action_bind_ret; [reflexivity|].
      unfold on_cache. cbn [fst snd]. by rewrite Ei. }
    intros _. split_and!; [done..|]. intros key v [Hc|[-> ->]]%Hs2; [by apply (Hcoh1 Euse)|]. by apply (Hown d).
  - exists k. split; [|done]. erewrite action_bind_ret by (apply Hread). unfold lift. by rewrite Hnew.
Qed.

Lemma decode_index d : d ∈ ds -> fst (BlockHandle.decode_from (BlockHandle.encode (d_handle co d) [])) = Ret (d_handle co d).
Proof. intros Hd. by rewrite handle_decode_all by by apply handle_good. Qed.

(** *** The iterator *)

Definition data_stands (hb : bytes) (it : BlockIter.t C) (p : option nat) : Prop :=
  match find_handle ds hb with Some d => block_stands (d_block d) (d_entries d) it p | None => False end.

Lemma sorted_block d : d ∈ ds -> sorted_entries ord (d_entries d).
Proof.
  intros [i Hi]%list_elem_of_lookup. pose proof (t_sorted _ _ _ _ _ _ _ Ht) as Hs.
  rewrite <- (take_drop_middle _ _ _ Hi), all_entries_app in Hs. apply sorted_pieces in Hs as (_ & Hs & _).
  change (all_entries (d :: drop (S i) ds)) with (d_entries d ++ all_entries (drop (S i) ds)) in Hs.
  by apply sorted_pieces in Hs as (Hs & _).
Qed.

Lemma iterator_cursor good self k verify : opened self -> coherent good self k ->
  exists stands, IterLaws (I:=TableIterator C) ord (all_entries ds) key_ok stands /\
    stands (new_iterator_verify self verify (w, k)) None.
Proof.
  intros Ho Hcoh. destruct (o_index _ Ho) as (raw & Hraw). apply raw_block_stands in Hraw as (_ & Hi & _ & Hlen').
  rewrite <- blocks_all.
  assert (Hload : forall j e, map (index_entry co) ds !! j = Some e ->
    exists d, table_block_function self verify (w, k) e.2 = Ret d /\ data_stands e.2 d None).
  { intros j e (d & Hd & -> & Hf)%index_lookup. pose proof (list_elem_of_lookup_2 _ _ _ Hd) as Hin. unfold data_stands. rewrite Hf.
    destruct (table_block d Hin) as (_ & Hraw & _). apply raw_block_stands in Hraw as (_ & Hst & _).
    exists (BlockIter.new (d_block d) cmp). split; [|done]. unfold table_block_function. cbn [index_entry snd].
    rewrite decode_index by done. cbn [mbind outcome_bind]. unfold read_block_cached.
    destruct (read_block_coherent good self k d verify true Ho Hcoh Hin) as (k' & -> & _). cbn [fst mbind outcome_bind].
    by rewrite (o_cmp _ Ho). }
  exists (two_at (map (index_entry co) ds) (block_stands (index_block self) (map (index_entry co) ds)) block_of data_stands
    (table_block_function self verify (w, k))). split.
  - eapply two_level_laws.
    + apply laws_ord.
    + apply block_stands_laws, index_sorted.
    + intros j e (d & Hd & -> & Hf)%index_lookup. unfold data_stands, block_of. rewrite Hf.
      apply block_stands_laws, sorted_block. by eapply list_elem_of_lookup_2.
    + exact Hload.
    + intros j e x. by apply index_upper.
    + intros j j' e e' x. by apply index_lower.
  - unfold new_iterator_verify. rewrite (o_cmp _ Ho). apply two_level_new; [done|]. rewrite length_map in *. done.
Qed.

(** *** Lookups *)

(** Where the search for [target] ends: in the block the index names, unless the filter
    rules [probe] out there. *)
Definition found self (target probe : bytes) (r : option (BlockIter.t C)) : Prop :=
  match pos_seek ord (map (index_entry co) ds) target with
  | None => r = None
  | Some i => exists d, ds !! i = Some d /\
      ((exists tf, Table.filter self = Some tf /\ tf_key_may_match tf (d_pos d) probe = Ret false /\ r = None) \/
       match pos_seek ord (d_entries d) target with
       | Some j => exists it, r = Some it /\ block_stands (d_block d) (d_entries d) it (Some j)
       | None => r = None
       end)
  end.

Lemma filter_answers self d probe : opened self -> d ∈ ds ->
  exists m, match Table.filter self with Some tf => tf_key_may_match tf (d_pos d) probe | None => Ret true end = Ret m /\
    (m = false -> exists tf, Table.filter self = Some tf /\ tf_key_may_match tf (d_pos d) probe = Ret false).
Proof.
  intros Ho Hd. destruct (Table.filter self) as [tf|] eqn:Ef; [|by exists true].
  destruct (o_filter _ Ho tf Ef) as (p & Ep & r & Hr & _ & Htot).
  destruct (handle_good d Hd) as (_ & _ & Hpos). destruct (Htot (d_pos d) probe ltac:(lia)) as [m Hm].
  assert (E : tf_key_may_match tf (d_pos d) probe = Ret m) by (unfold tf_key_may_match; by rewrite Ep, Hr).
  exists m. split; [done|]. intros ->. by exists tf.
Qed.

Lemma find_entry_ok good self k target probe verify fill : opened self -> coherent good self k -> key_ok target ->
  exists r k', find_entry self target probe verify fill (w, k) = (Ret r, (w, k')) /\ coherent good self k' /\ found self target probe r.
Proof.
  intros Ho Hcoh Hkt. destruct (o_index _ Ho) as (raw & Hraw). apply raw_block_stands in Hraw as (_ & Hi & _ & _).
  pose proof (block_stands_laws (index_block self) _ index_sorted) as Hil. unfold find_entry, found. rewrite (o_cmp _ Ho).
  destruct (law_seek _ _ target Hi Hkt) as (ii & Ei & Hii). erewrite action_bind_ret by (unfold lift; by rewrite Ei).
  erewrite action_bind_ret by (unfold lift; by rewrite (law_valid _ _ Hii)).
  destruct (pos_seek ord (map (index_entry co) ds) target) as [i|]; cbn [is_some negb]; [|by exists None, k].
  destruct (lookup_lt_is_Some_2 _ _ (law_bound _ _ Hii)) as [e He]. destruct (index_lookup _ _ He) as (d & Hd & -> & _).
  pose proof (list_elem_of_lookup_2 _ _ _ Hd) as Hin. destruct (law_entry _ _ _ Hii He) as [_ Ev].
  erewrite action_bind_ret by (unfold lift; by rewrite Ev). cbn [index_entry snd].
  erewrite action_bind_ret by (unfold lift; by rewrite decode_index).
  destruct (handle_good d Hin) as (_ & Hoff & _). destruct (filter_answers self d probe Ho Hin) as (m & Em & Hm).
  erewrite action_bind_ret by (unfold lift; rewrite Hoff, Em; reflexivity).
  destruct m; cbn [negb].
  2: { destruct (Hm eq_refl) as (tf & Hf & Hn). exists None, k. split; [done|]. split; [done|]. exists d. split; [done|].
       left. by exists tf. }
  destruct (read_block_coherent good self k d verify fill Ho Hcoh Hin) as (k' & Er & Hcoh').
  erewrite action_bind_ret by exact Er. destruct (table_block d Hin) as (_ & Hraw & _).
  apply raw_block_stands in Hraw as (_ & Hst & _). pose proof (block_stands_laws (d_block d) _ (sorted_block d Hin)) as Hdl.
  destruct (law_seek _ _ target Hst Hkt) as (di & Ed & Hdi). erewrite action_bind_ret by (unfold lift; by rewrite Ed).
  erewrite action_bind_ret by (unfold lift; by rewrite (law_valid _ _ Hdi)).
  exists (if is_some (pos_seek ord (d_entries d) target) then Some di else None), k'. split; [done|]. split; [done|].
  exists d. split; [done|]. right. destruct (pos_seek ord (d_entries d) target) as [j|]; [|done]. by exists di.
Qed.

(** The first entry of the whole table not below the target: in the block the index names,
    or else the first entry after it. *)
Lemma find_in_table i d target : pos_seek ord (map (index_entry co) ds) target = Some i -> ds !! i = Some d ->
  first_ge ord (all_entries ds) target =
    match first_ge ord (d_entries d) target with
    | Some e => Some e
    | None => head (all_entries (drop (S i) ds))
    end.
Proof.
  intros Hi Hd. apply pos_seek_some in Hi as (_ & Hge & Hlt).
  rewrite <- (take_drop_middle _ _ _ Hd) at 1. rewrite all_entries_app, first_ge_app.
  assert (Hbefore : first_ge ord (all_entries (take i ds)) target = None).
  { apply first_ge_none. intros x (d' & Hd' & Hx)%all_entries_elem. apply list_elem_of_lookup in Hd' as [j Hj].
    apply lookup_take_Some in Hj as [Hj Hji]. destruct (table_seps _ _ Hj) as (_ & Hup & _).
    apply (ord_le_lt_trans _ (d_sep d')); [by apply Hup|]. apply (Hlt j (index_entry co d')); [done|].
    by rewrite list_lookup_fmap, Hj. }
  rewrite Hbefore. change (all_entries (d :: drop (S i) ds)) with (d_entries d ++ all_entries (drop (S i) ds)).
  rewrite first_ge_app. destruct (first_ge ord (d_entries d) target); [done|].
  destruct (all_entries (drop (S i) ds)) as [|e rest] eqn:Er; [done|]. cbn [head]. unfold first_ge. cbn [List.find].
  destruct (table_seps _ _ Hd) as (_ & _ & Hlow). specialize (Hlow e ltac:(rewrite Er; by left)).
  specialize (Hge (index_entry co d) ltac:(by rewrite list_lookup_fmap, Hd)). cbn [index_entry fst] in Hge.
  assert (Hne : ord e.1 target <> Lt) by (intros E; apply Hge; by eapply ord_lt_trans).
  unfold not_below. by destruct (ord e.1 target).
Qed.
Lemma find_past_table target : pos_seek ord (map (index_entry co) ds) target = None -> first_ge ord (all_entries ds) target = None.
Proof.
  intros Hi. apply first_ge_none. intros x (d & Hd & Hx)%all_entries_elem. apply list_elem_of_lookup in Hd as [j Hj].
  destruct (table_seps _ _ Hj) as (_ & Hup & _). apply (ord_le_lt_trans _ (d_sep d)); [by apply Hup|].
  apply (pos_seek_none _ _ _ Hi j (index_entry co d)). by rewrite list_lookup_fmap, Hj.
Qed.

(** *** Opening *)

Lemma ok_then_ret {A B} (m : action W A) (g : A -> action W (option B)) w1 a w2 : m w1 = (Ret a, w2) -> ok_then m g w1 = g a w2.
Proof. intros E. unfold ok_then. by rewrite E. Qed.

Lemma filter_key_inj a b : TableFileBuilder.filter_key a = TableFileBuilder.filter_key b -> a = b.
Proof.
  unfold TableFileBuilder.filter_key. intros E. apply (f_equal string_of_list_byte) in E.
  rewrite !string_of_list_byte_of_string in E. unfold String.append in E. by simplify_eq.
Qed.

(** The reader's policy and the builder's: the same, or told apart by their names. *)
Definition policies_agree (rp : option P) : Prop :=
  forall p q, fp = Some p -> rp = Some q -> q = p \/ filter_name q <> filter_name p.

Lemma read_filter_ok pos raw blk meta q : stored co f pos raw -> raw_block key_ok raw blk meta -> meta_ok co f ds fp meta ->
  policies_agree (Some q) -> key_ok (TableFileBuilder.filter_key (filter_name q)) ->
  exists r, read_filter_block file (block_handle co pos raw) cmp q co w = (Ret r, w) /\
    (forall tf, r = Some tf -> exists p, tf_policy tf = mk_internal_filter p /\ filter_ok p (tf_data tf) ds) /\
    (fp = Some q -> r <> None).
Proof.
  intros Hst Hraw Hmeta Hagree Hkey. apply raw_block_stands in Hraw as (Hnew & Hi & _ & _). unfold read_filter_block.
  rewrite (ok_then_ret _ _ _ _ _ (read_stored _ _ true Hst)).
  rewrite (ok_then_ret _ _ _ blk w) by (unfold lift; by rewrite Hnew).
  set (key := TableFileBuilder.filter_key (filter_name q)) in *.
  assert (Hsort : sorted_entries ord meta).
  { intros i j a b Hij Ha Hb. unfold meta_ok in Hmeta. apply lookup_lt_Some in Hb. destruct fp as [p|].
    - destruct Hmeta as (fpos & fraw & -> & _). cbn in Hb. lia.
    - rewrite Hmeta in Hb. cbn in Hb. lia. }
  pose proof (block_stands_laws blk meta Hsort) as Hl. destruct (law_seek _ _ key Hi Hkey) as (it & Es & Hit).
  erewrite action_bind_ret by (unfold lift; by rewrite Es).
  erewrite action_bind_ret by (unfold lift; by rewrite (law_valid _ _ Hit)).
  assert (Hnone : exists r : option (TableFilter P), (Ret None : outcome (option (TableFilter P)), w) = (Ret r, w) /\
    (forall tf, r = Some tf -> exists p, tf_policy tf = mk_internal_filter p /\ filter_ok p (tf_data tf) ds) /\ (None = Some q -> r <> None)).
  { by exists None. }
  unfold meta_ok in Hmeta. unfold policies_agree in Hagree. destruct fp as [p|] eqn:Efp; [|by rewrite Hmeta in *].
  destruct Hmeta as (fpos & fraw & -> & Hfst & Hfok). cbn [pos_seek fst] in Hit |- *.
  set (pk := TableFileBuilder.filter_key (filter_name p)) in *. set (hv := BlockHandle.encode (block_handle co fpos fraw) []) in *.
  assert (Hskip : q <> p -> exists r : option (TableFilter P), (Ret None : outcome (option (TableFilter P)), w) = (Ret r, w) /\
    (forall tf, r = Some tf -> exists p, tf_policy tf = mk_internal_filter p /\ filter_ok p (tf_data tf) ds) /\ (Some p = Some q -> r <> None)).
  { intros Hne. exists None. split_and!; [done|done|]. intros [= ->]. done. }
  destruct (Hagree p q eq_refl eq_refl) as [->|Hname].
  - change pk with key in Hit, Hl |- *. rewrite (ord_refl (ord:=ord)) in Hit |- *. cbn [is_lt is_some negb] in Hit |- *.
    destruct (law_entry (IterLaws:=Hl) _ _ (key, hv) Hit eq_refl) as [Ek Ev]. cbn [fst snd] in Ek, Ev.
    erewrite action_bind_ret by (unfold lift; by rewrite Ek). rewrite bool_decide_eq_true_2 by done. cbn [negb].
    erewrite action_bind_ret by (unfold lift; by rewrite Ev).
    destruct (stored_handle_ok _ _ _ _ Hfst Hlen) as [Hh _].
    rewrite (ok_then_ret _ _ _ (block_handle co fpos fraw) w) by (unfold lift, hv; by rewrite handle_decode_all).
    rewrite (ok_then_ret _ _ _ _ _ (read_stored _ _ true Hfst)).
    exists (Some (mk_tf fraw (mk_internal_filter p))). split; [done|]. split; [|done]. intros tf [= <-]. by exists p.
  - assert (Hqp : q <> p) by congruence. assert (Hk : pk <> key) by (intros E; apply Hname; symmetry; by apply filter_key_inj).
    destruct (is_lt (ord pk key)); cbn [fmap option_fmap option_map is_some negb] in Hit |- *; [by apply Hskip|].
    destruct (law_entry (IterLaws:=Hl) _ _ (pk, hv) Hit eq_refl) as [Ek _]. cbn [fst] in Ek.
    erewrite action_bind_ret by (unfold lift; by rewrite Ek). rewrite bool_decide_eq_false_2 by done. cbn [negb]. by apply Hskip.
Qed.

(** *** [get]: the entry with exactly this key *)

Definition get_spec (es : list entry) (target : bytes) : option bytes :=
  match first_ge ord es target with Some e => if is_eq (ord e.1 target) then Some e.2 else None | None => None end.
(** What [get] asks the filter. *)
Definition get_probe (target : bytes) : bytes := target ++ replicate 8 (as_u8 0).
Lemma next_block_not_equal i d target e : pos_seek ord (map (index_entry co) ds) target = Some i -> ds !! i = Some d ->
  head (all_entries (drop (S i) ds)) = Some e -> ord e.1 target <> Eq.
Proof.
  intros Hi Hd He E. apply pos_seek_some in Hi as (_ & Hge & _). specialize (Hge (index_entry co d) ltac:(by rewrite list_lookup_fmap, Hd)).
  destruct (table_seps _ _ Hd) as (_ & _ & Hlow). apply Hge. cbn [index_entry fst]. apply (ord_lt_le_trans _ e.1); [|by rewrite E].
  apply Hlow. destruct (all_entries (drop (S i) ds)); [done|]. injection He as ->. by left.
Qed.
(** A [get] tells what the entries say, or nothing when the filter denies the key it is asked
    about. *)
Lemma get_full_ok good self k target verify fill : opened self -> coherent good self k -> key_ok target ->
  exists r k', get_full self target verify fill (w, k) = (Ret r, (w, k')) /\ coherent good self k' /\
    (r = get_spec (all_entries ds) target \/
     r = None /\ exists tf offset, Table.filter self = Some tf /\ tf_key_may_match tf offset (get_probe target) = Ret false).
Proof.
  intros Ho Hcoh Hkt. destruct (find_entry_ok good self k target (get_probe target) verify fill Ho Hcoh Hkt) as (r & k' & Ef & Hcoh' & Hf).
  unfold get_full. erewrite action_bind_ret by exact Ef. unfold found in Hf. unfold get_spec.
  destruct (pos_seek ord (map (index_entry co) ds) target) as [i|] eqn:Hi.
  2: { subst r. exists None, k'. rewrite (find_past_table _ Hi). split_and!; [done|done|by left]. }
  destruct Hf as (d & Hd & [(tf & Etf & Hrej & ->)|Hf]); [exists None, k'; split_and!; [done|done|right; split; [done|by exists tf, (d_pos d)]]|].
  pose proof (list_elem_of_lookup_2 _ _ _ Hd) as Hin. rewrite (find_in_table i d target Hi Hd), (first_ge_pos ord (d_entries d) target).
  destruct (pos_seek ord (d_entries d) target) as [j|] eqn:Hj; cbn [mbind option_bind].
  2: { subst r. exists None, k'. split_and!; [done|done|]. left. destruct (head _) as [e|] eqn:He; [|done].
       pose proof (next_block_not_equal i d target e Hi Hd He). by destruct (ord e.1 target). }
  destruct Hf as (it & -> & Hst). destruct (lookup_lt_is_Some_2 (d_entries d) j) as [e He]; [by apply pos_seek_some in Hj as (Hlt & _)|].
  rewrite He. pose proof (block_stands_laws (d_block d) (d_entries d) (sorted_block d Hin)) as Hl. destruct (law_entry _ _ _ Hst He) as [Ek Ev].
  assert (Hek : key_ok e.1).
  { pose proof table_keys as Hkeys. rewrite Forall_forall in Hkeys. apply Hkeys, all_entries_elem. exists d. split; [done|]. by eapply list_elem_of_lookup_2. }
  erewrite action_bind_ret by (unfold lift; by rewrite Ek).
  erewrite action_bind_ret by (unfold lift; rewrite (o_cmp _ Ho), (compare_ord (ord:=ord) (key_ok:=key_ok)) by done; reflexivity).
  exists (if is_eq (ord e.1 target) then Some e.2 else None), k'. split; [|by split; [|left]].
  destruct (is_eq _); [|done]. by erewrite action_bind_ret by (unfold lift; by rewrite Ev).
Qed.

Definition new_cache (use_cache : bool) k : K := if use_cache then snd (cache_new_id k) else k.

Lemma open_ok rp use_cache k : policies_agree rp -> (forall q, rp = Some q -> key_ok (TableFileBuilder.filter_key (filter_name q))) ->
  exists self, open_random_with_options file (len f) cmp use_cache rp co (w, k) = (Ret self, (w, new_cache use_cache k)) /\
    opened self /\ block_cache self = use_cache /\ cache_id self = (if use_cache then fst (cache_new_id k) else 0) /\
    (forall p, rp = Some p -> fp = Some p -> Table.filter self <> None) /\ (rp = None -> Table.filter self = None).
Proof.
  intros Hagree Hname. destruct (t_tail _ _ _ _ _ _ _ Ht) as (pre & mpos & mraw & mblk & meta & ipos & iraw & iblk & Hf & Hm1 & Hm2 & Hm3 & Hi1 & Hi2).
  pose proof (raw_block_stands _ _ _ Hi2) as (Hnew & _). set (ft := TableFooter.mk _ _) in Hf.
  assert (Hlf : len f = len pre + 48) by (rewrite Hf, len_app, footer_len; done). pose proof (len_nonneg pre).
  destruct (stored_handle_ok _ _ _ _ Hm1 Hlen) as [Hmh _], (stored_handle_ok _ _ _ _ Hi1 Hlen) as [Hih _].
  unfold open_random_with_options. change TableFooter.ENCODED_LENGTH with 48. rewrite (proj2 (Z.ltb_ge _ _)) by lia.
  erewrite action_bind_ret by (unfold on_file; cbn [fst snd]; rewrite Hfile by lia; reflexivity).
  assert (Efoot : ztake 48 (zdrop (len f - 48) f) = footer_bytes ft ++ []).
  { rewrite app_nil_r. replace (len f - 48) with (len pre) by lia. rewrite Hf, zdrop_app_len by done.
    apply ztake_all. by rewrite footer_len. }
  erewrite action_bind_ret by (unfold lift; rewrite Efoot, footer_decode by done; reflexivity). cbn [ft TableFooter.index TableFooter.metaindex].
  erewrite action_bind_ret by (unfold on_file; cbn [fst snd]; rewrite (read_stored _ _ true Hi1); reflexivity).
  erewrite action_bind_ret by (unfold lift; by rewrite Hnew).
  assert (Hflt : exists r, (match rp with
      | Some policy => on_file (K:=K) (read_filter_block file (block_handle co mpos mraw) cmp policy co)
      | None => mret None end) (w, k) = (Ret r, (w, k)) /\
    (forall tf, r = Some tf -> exists p, tf_policy tf = mk_internal_filter p /\ filter_ok p (tf_data tf) ds) /\
    (forall p, rp = Some p -> fp = Some p -> r <> None) /\ (rp = None -> r = None)).
  { destruct rp as [q|]; [|by exists None].
    destruct (read_filter_ok _ _ _ _ q Hm1 Hm2 Hm3 Hagree (Hname q eq_refl)) as (r & E & H1 & H2).
    exists r. split; [unfold on_file; cbn [fst snd]; by rewrite E|]. split; [done|]. split; [by intros p [= ->]|done]. }
  destruct Hflt as (r & Er & Hr1 & Hr2 & Hr3). erewrite action_bind_ret by exact Er. unfold new_cache.
  exists (mk_table file cmp iblk (BlockHandle.offset (block_handle co mpos mraw)) use_cache
    (if use_cache then fst (cache_new_id k) else 0) co r). split; [|split; [|split; [|split; [|split]]]].
  - destruct use_cache; (erewrite action_bind_ret; [reflexivity|]); [|reflexivity]. unfold on_cache. cbn [fst snd].
    by rewrite (surjective_pairing (cache_new_id k)).
  - split; cbn [Table.file comparator compressor index_block Table.filter]; try done. by exists iraw.
  - done.
  - by destruct use_cache.
  - done.
  - done.
Qed.

(** A cache that has nothing under the next id is coherent with the table opened on it. *)
Definition cold (use_cache : bool) k : Prop := use_cache = true ->
  cache_ok k /\ forall off v, ~ cached k (to_le_bytes 8 (fst (cache_new_id k)) ++ to_le_bytes 8 off) v.
(** A table alone: only its own keys matter. *)
Definition own_good self (key : bytes) (v : Block) : Prop := forall d, d ∈ ds -> key = cache_key self (d_handle co d) -> v = d_block d.
Lemma own_good_owns self : owns (own_good self) self.
Proof.
  intros d v Hd. split; [by intros Hg; apply Hg|]. intros -> d' Hd' E. by rewrite (cache_key_inj self d d' Hd Hd' E).
Qed.
Lemma open_coherent `{!CacheIdLaws cache_ok cached} self use_cache k : cold use_cache k -> block_cache self = use_cache ->
  cache_id self = (if use_cache then fst (cache_new_id k) else 0) -> coherent (own_good self) self (new_cache use_cache k).
Proof.
  intros Hcold Hb Hid Hu. rewrite Hb in Hu. rewrite Hu in *. destruct (Hcold eq_refl) as [Hok Hno]. unfold new_cache.
  destruct (new_id_law k Hok) as [Hok' Hsub]. split_and!; [apply own_good_owns|done|]. intros key v Hc%Hsub d Hd ->.
  unfold cache_key in Hc. rewrite Hid in Hc. by apply Hno in Hc.
Qed.
End with_table.
End table.

(** ** Internal keys *)

(** The answer for a snapshot key: the first entry not below it, if it has the same user
    key, by its type. *)
Definition lookup_spec (ord : bytes -> bytes -> comparison) (es : list entry) (target : bytes) : outcome LookupResult :=
  match first_ge (ik_ord ord) es target with
  | Some e =>
      if decide (ukey e.1 = ukey target) then
        let kind := Z.land (utag e.1) 0xff in
        if kind =? 0 then Ret LookupDeleted else if kind =? 1 then Ret (LookupFound e.2)
        else Fail (Stat.corruption "Table: unknown ValueType")
      else Ret LookupNotFound
  | None => Ret LookupNotFound
  end.

(** An index separator of two internal keys is the first of them, or its user key is
    already below the second's. *)
Lemma ik_separator_cases {C} `{Comparator C} (c : C) ord `{!ComparatorLaws c (fun _ => True) ord} a b s :
  ik_ok a -> ik_ok b -> ik_ord ord a b = Lt -> find_shortest_separator (mk_icmp c) a b = Ret s ->
  s = a \/ ord (ukey s) (ukey b) = Lt.
Proof.
  intros Ha Hb Hab E. cbn [find_shortest_separator InternalKey_Comparator] in E. unfold ik_find_shortest_separator in E.
  rewrite !required_user_key_ok in E by done. cbn [mbind outcome_bind user_comparator] in E.
  assert (Hu : ord (ukey a) (ukey b) <> Gt) by (intros Eu; unfold ik_ord in Hab; by rewrite Eu in Hab).
  destruct (separator_law (c:=c) (ukey a) (ukey b) I I Hu) as (t & Et & _ & Hat & Hlt & Heq). rewrite Et in E.
  cbn [mbind outcome_bind user_comparator] in E. destruct (len t <? len (ukey a)); [|left; congruence].
  rewrite compare_ord in E by done. cbn [mbind outcome_bind] in E. destruct (ord (ukey a) t) eqn:Eo; cbn [is_lt] in E; [left; congruence| |by destruct Hat].
  rewrite pack_ok in E by lia. cbn [mbind outcome_bind] in E. injection E as <-. right.
  change (put_fixed64 t ?x) with (mk_ikey t x). rewrite ukey_mk. apply Hlt. destruct (ord (ukey a) (ukey b)) eqn:Eab; [|done|by destruct Hu].
  specialize (Heq eq_refl). congruence.
Qed.

(** The filter looks at the user key only. *)
Lemma filter_same_user {P} `{FilterPolicy P} (tf : TableFilter P) p off k1 k2 : tf_policy tf = mk_internal_filter p ->
  user_key_of k1 = user_key_of k2 -> tf_key_may_match tf off k1 = tf_key_may_match tf off k2.
Proof.
  intros Hp Hk. unfold tf_key_may_match. destruct (FilterBlockReader.new (tf_policy tf) (tf_data tf)) as [[r|]| |] eqn:E; try done.
  cbn [mbind outcome_bind]. assert (Hr : FilterBlockReader.policy r = mk_internal_filter p).
  { unfold FilterBlockReader.new in E. destruct (_ <? 5); [done|]. destruct (index _ _); cbn [mbind outcome_bind] in E; try done.
    destruct (slice _ _ _); cbn [mbind outcome_bind] in E; try done. destruct (decode_fixed32 _); cbn [mbind outcome_bind] in E; try done.
    destruct (_ <? _); [done|]. injection E as <-. exact Hp. }
  unfold FilterBlockReader.key_may_match. rewrite Hr. cbn [key_may_match Internal_FilterPolicy user_policy]. by rewrite Hk.
Qed.

Section internal.
Context {W F C P Co K : Type} `{HR : RandomAccessFile F W} `{HC : Comparator C} `{HP : FilterPolicy P} `{HCo : Compressor Co}
  `{HK : Cache K Block} {cache_ok : K -> Prop} {cached : K -> bytes -> Block -> Prop} `{!CacheLaws cache_ok cached}.
Context (c : C) (ord : bytes -> bytes -> comparison) `{!ComparatorLaws c (fun _ => True) ord}
  (co : option Co) (Hco : forall x, co = Some x -> CompressorLaws x).
Context (f : bytes) (file : F) (w : W) (Hfile : reads file w f) (Hlen : len f < 2 ^ 63).
Context (fp : option P) (ds : list dblock) (Ht : table_ok (mk_icmp c) ik_ok (ik_ord ord) co fp f ds).
Let Hlaws : ComparatorLaws (mk_icmp c) ik_ok (ik_ord ord) := InternalKey_Laws c ord.

(** When the block the index names has nothing for the target, neither has the next: the
    user key there is another. *)
Lemma next_block_differs i d target e : ik_ok target -> pos_seek (ik_ord ord) (map (index_entry co) ds) target = Some i ->
  ds !! i = Some d -> first_ge (ik_ord ord) (d_entries d) target = None -> head (all_entries (drop (S i) ds)) = Some e ->
  ukey e.1 <> ukey target.
Proof.
  intros Hkt Hi Hd Hnone He Hu. apply pos_seek_some in Hi as (_ & Hge & _).
  specialize (Hge (index_entry co d) ltac:(by rewrite list_lookup_fmap, Hd)). cbn [index_entry fst] in Hge.
  pose proof (table_nonempty _ _ _ _ _ _ _ Ht) as Hne. pose proof Hne as Hned. rewrite Forall_lookup in Hned.
  destruct (last_key_in _ (Hned _ _ Hd)) as (x & Hx & Hxl).
  pose proof (table_keys _ _ _ _ _ _ _ Ht) as Hkeys. rewrite Forall_forall in Hkeys.
  assert (Hin : forall y, y ∈ d_entries d -> y ∈ all_entries ds).
  { intros y Hy. apply all_entries_elem. exists d. split; [by eapply list_elem_of_lookup_2|done]. }
  assert (Hlast : ik_ord ord (TableFormat.last_key (d_entries d)) target = Lt).
  { rewrite <- Hxl. unfold first_ge in Hnone. pose proof (find_none _ _ Hnone x ltac:(by apply list_elem_of_In)) as Hb.
    unfold not_below in Hb. by destruct (ik_ord ord x.1 target). }
  assert (Hin' : e ∈ all_entries (drop (S i) ds)) by (destruct (all_entries (drop (S i) ds)); [done|]; injection He as ->; by left).
  assert (He' : ik_ok e.1).
  { apply Hkeys. apply all_entries_elem in Hin' as (d' & Hd' & Hx'). apply all_entries_elem. exists d'. split; [|done].
    apply list_elem_of_lookup in Hd' as [j Hj]. rewrite lookup_drop in Hj. by eapply list_elem_of_lookup_2. }
  pose proof (t_seps _ _ _ _ _ _ _ Ht i d Hd) as Hsep. change None with (head_key []) in Hsep.
  rewrite (next_key_head ds [] i d Hd Hne), app_nil_r in Hsep.
  assert (Hhead : head_key (all_entries (drop (S i) ds)) = Some e.1).
  { destruct (all_entries (drop (S i) ds)); [done|]. by injection He as ->. }
  rewrite Hhead in Hsep. cbn [sep_of] in Hsep.
  destruct (table_seps _ _ _ _ _ _ _ Ht i d Hd) as (_ & Hup & Hlow).
  apply (ik_separator_cases c ord) in Hsep as [Hs|Hs].
  - rewrite Hs in Hge. by apply Hge.
  - apply Hge. apply ik_ord_lt_user. by rewrite <- Hu.
  - rewrite <- Hxl. by apply Hkeys, Hin.
  - done.
  - apply (ord_le_lt_trans _ (d_sep d)); [rewrite <- Hxl; by apply Hup|by apply Hlow].
Qed.

Lemma spec_not_found target : (forall e, first_ge (ik_ord ord) (all_entries ds) target = Some e -> ukey e.1 <> ukey target) ->
  lookup_spec ord (all_entries ds) target = Ret LookupNotFound.
Proof.
  intros Hn. unfold lookup_spec. destruct (first_ge _ _ _) as [e|]; [|done]. by rewrite decide_False by by apply Hn.
Qed.

(** What [found] means for the specification. *)
Lemma found_spec (self : Table F (InternalKeyComparator C) P Co) target r : opened (mk_icmp c) ik_ok co file ds self -> ik_ok target ->
  found (mk_icmp c) ik_ok (ik_ord ord) co ds self target target r ->
  (r = None /\ lookup_spec ord (all_entries ds) target = Ret LookupNotFound) \/
  exists d j e it, r = Some it /\ block_stands (mk_icmp c) ik_ok (d_block d) (d_entries d) it (Some j) /\ d_entries d !! j = Some e /\
    d ∈ ds /\ first_ge (ik_ord ord) (all_entries ds) target = Some e.
Proof.
  intros Ho Hkt Hf. unfold found in Hf. destruct (pos_seek _ (map _ ds) target) as [i|] eqn:Hi.
  2: { left. split; [done|]. apply spec_not_found. intros e. by rewrite (find_past_table _ _ _ _ _ _ _ Ht _ Hi). }
  destruct Hf as (d & Hd & Hf). pose proof (list_elem_of_lookup_2 _ _ _ Hd) as Hin.
  pose proof (find_in_table _ _ _ _ _ _ _ Ht i d target Hi Hd) as Hfind.
  pose proof (first_ge_pos (ik_ord ord) (d_entries d) target) as Hfp.
  assert (Hnext : first_ge (ik_ord ord) (d_entries d) target = None ->
    lookup_spec ord (all_entries ds) target = Ret LookupNotFound).
  { intros Hn. apply spec_not_found. intros e. rewrite Hfind, Hn. by eapply next_block_differs. }
  destruct Hf as [(tf & Etf & Hrej & ->)|Hf].
  - left. split; [done|]. destruct (first_ge (ik_ord ord) (d_entries d) target) as [e|]; [|by apply Hnext].
    apply spec_not_found. rewrite Hfind. intros e' [= <-] Hu.
    destruct (pos_seek _ (d_entries d) target) as [j|]; [|done]. symmetry in Hfp. cbn in Hfp. apply list_elem_of_lookup_2 in Hfp as He.
    destruct (o_filter _ _ _ _ _ _ Ho tf Etf) as (p & Ep & rd & Hrd & Hmay & _).
    assert (Hek : ik_ok e.1).
    { pose proof (table_keys _ _ _ _ _ _ _ Ht) as Hkeys. rewrite Forall_forall in Hkeys. apply Hkeys, all_entries_elem. by exists d. }
    assert (Huk : forall k, ik_ok k -> user_key_of k = ukey k) by (intros k Hk; unfold user_key_of, ik_ok in *; by rewrite (proj2 (Z.leb_le _ _))).
    rewrite (filter_same_user tf p (d_pos d) target e.1 Ep) in Hrej by (rewrite !Huk by done; done).
    unfold tf_key_may_match in Hrej. rewrite Ep, Hrd in Hrej. cbn [mbind outcome_bind] in Hrej. by rewrite (Hmay d e Hin He) in Hrej.
  - destruct (pos_seek _ (d_entries d) target) as [j|] eqn:Hj.
    + destruct Hf as (it & -> & Hst). right. destruct (lookup_lt_is_Some_2 (d_entries d) j) as [e He].
      { apply pos_seek_some in Hj as (Hlt & _). done. }
      cbn in Hfp. rewrite He in Hfp. exists d, j, e, it. split_and!; try done. by rewrite Hfind, Hfp.
    + left. split; [done|]. by apply Hnext.
Qed.

Lemma internal_get_ok good (self : Table F (InternalKeyComparator C) P Co) k target verify fill :
  opened (mk_icmp c) ik_ok co file ds self -> coherent (cache_ok:=cache_ok) (cached:=cached) co ds good self k -> ik_ok target ->
  exists k', internal_get_full self target verify fill (w, k) = (lookup_spec ord (all_entries ds) target, (w, k')) /\
    coherent (cache_ok:=cache_ok) (cached:=cached) co ds good self k'.
Proof.
  intros Ho Hcoh Hkt. unfold internal_get_full. rewrite (proj2 (Z.leb_le _ _)) by done.
  erewrite action_bind_ret by reflexivity.
  assert (Euk : forall k0, ik_ok k0 -> slice_to k0 (len k0 - 8) = Ret (ukey k0)).
  { intros k0 Hk0. unfold slice_to, ik_ok in *. rewrite slice_ok by (len_pose; lia). rewrite zdrop_0. unfold ukey. do 2 f_equal. lia. }
  erewrite action_bind_ret by (unfold lift; by rewrite Euk).
  destruct (find_entry_ok (mk_icmp c) ik_ok (ik_ord ord) co Hco f file w Hfile Hlen fp ds Ht good self k target target verify fill Ho Hcoh Hkt)
    as (r & k' & Ef & Hcoh' & Hfound). exists k'. split; [|done]. erewrite action_bind_ret by exact Ef.
  destruct (found_spec self target r Ho Hkt Hfound) as [[-> Hspec]|(d & j & e & it & -> & Hst & He & Hd & Hfe)]; [by rewrite Hspec|].
  pose proof (table_keys _ _ _ _ _ _ _ Ht) as Hkeys. rewrite Forall_forall in Hkeys.
  assert (Hek : ik_ok e.1) by (apply Hkeys, all_entries_elem; exists d; split; [done|by eapply list_elem_of_lookup_2]).
  pose proof (block_stands_laws (mk_icmp c) ik_ok (ik_ord ord) (d_block d) (d_entries d)
    (sorted_block _ _ _ _ _ _ _ Ht d Hd)) as Hl. destruct (law_entry _ _ _ Hst He) as [Ek Ev].
  erewrite action_bind_ret by (unfold lift; by rewrite Ek). rewrite (proj2 (Z.ltb_ge _ _)) by done.
  erewrite action_bind_ret by (unfold lift; by rewrite Euk). unfold lookup_spec. rewrite Hfe.
  destruct (decide (ukey e.1 = ukey target)) as [Hu|Hu].
  2: { rewrite bool_decide_eq_false_2 by done. done. }
  rewrite bool_decide_eq_true_2 by done. cbn [negb].
  erewrite action_bind_ret by (unfold lift; rewrite slice_from_drop by (unfold ik_ok in Hek; len_pose; lia); reflexivity).
  change (from_le_bytes (zdrop (len e.1 - 8) e.1)) with (utag e.1).
  destruct (_ =? 0); [done|]. destruct (_ =? 1); [|done]. by erewrite action_bind_ret by (unfold lift; by rewrite Ev).
Qed.
End internal.

(** ** Claims *)

(** C26: (table round trip) Build a table from sorted entries, through any environment whose
    files append, with any lawful comparator, filter policy and compressor, any block size
    and restart interval; open the bytes through any file that reads them, with or without
    a filter policy and with or without a block cache.  Building and opening succeed, and
    the table iterator is a cursor over exactly the entries. *)
Theorem table_roundtrip {W F W2 C P Co K} `{Env W} `{RandomAccessFile F W2} `{Comparator C} `{FilterPolicy P} `{Compressor Co}
    `{Cache K Block} {is_open : Writable -> Prop} {contents : Writable -> W -> bytes} `{!WritableLaws is_open contents}
    {cache_ok : K -> Prop} {cached : K -> bytes -> Block -> Prop} `{!CacheLaws cache_ok cached, !CacheIdLaws cache_ok cached}
    (cmp : C) key_ok ord `{!ComparatorLaws cmp key_ok ord} `{!ShortHints cmp} keys_ok (fp : option P) (co : option Co)
    es block_size interval f w :
  (forall c, co = Some c -> CompressorLaws c) -> build_ok key_ok ord keys_ok fp es -> 1 <= interval -> is_open f ->
  contents f w = [] ->
  exists b w', build_table cmp block_size interval f fp co es w = (Ret b, w') /\
    (len (contents f w') < 2 ^ 63 -> len (filter_bytes b) < 2 ^ 32 ->
     forall (file : F) (w2 : W2) rp use_cache (k : K) verify, reads file w2 (contents f w') -> policies_agree fp rp ->
       (forall q, rp = Some q -> key_ok (TableFileBuilder.filter_key (filter_name q))) ->
       cold (cache_ok:=cache_ok) (cached:=cached) use_cache k ->
       exists self stands,
         open_random_with_options file (len (contents f w')) cmp use_cache rp co (w2, k) = (Ret self, (w2, new_cache use_cache k)) /\
         IterLaws (I:=TableIterator C) ord es key_ok stands /\
         stands (new_iterator_verify self verify (w2, new_cache use_cache k)) None).
Proof.
  intros Hco Hes Hi Ho Hc.
  destruct (build_table_ok (is_open:=is_open) cmp key_ok ord keys_ok fp co es block_size interval f w Hes Hi Ho Hc)
    as (b & w' & ds & E & <- & _ & _ & _ & _ & Ht). exists b, w'. split; [exact E|].
  intros Hl Hlf file w2 rp use_cache k verify Hr Hagree Hname Hcold. specialize (Ht Hl Hlf).
  destruct (open_ok (K:=K) cmp key_ok ord co Hco _ file w2 Hr Hl fp ds Ht rp use_cache k Hagree Hname) as (self & Eo & Hop & Hb & Hid & _).
  destruct (iterator_cursor (cached:=cached) cmp key_ok ord co Hco _ file w2 Hr Hl fp ds Ht (own_good co ds self) self (new_cache use_cache k) verify Hop)
    as (stands & Hlaws & Hst); [by eapply open_coherent|]. by exists self, stands.
Qed.

(** A compressor for the examples: it reverses long enough blocks. *)
Inductive Reverser := reverser.
#[export] Instance Reverser_Compressor : Compressor Reverser := {|
  comp_kind _ := 7;
  compress _ x := if 20 <? len x then Some (rev x) else None;
  decompress _ y := Ret (rev y);
|}.
#[export] Instance Reverser_Laws : CompressorLaws reverser.
Proof. split; [done|]. intros x y E. cbn in *. destruct (20 <? len x); [|done]. injection E as <-. by rewrite rev_involutive. Qed.

Definition sample_table : list entry :=
  let b := list_byte_of_string in
  let e k n t v := (mk_ikey (b k) (mk_tag n t), b v) in
  [e "apple" 9 Value "red"; e "apple" 4 Value "green"; e "apricot" 7 Deletion ""; e "banana" 3 Value "yellow";
   e "bananas" 5 Value "many"; e "cherry" 1 Value "dark"]%string.
Definition sample_policy : BloomFilterPolicy := Bloom.new 10.
Definition sample_keys_ok : list bytes -> Prop := fun ks => bloom_keys_ok sample_policy (map user_key_of ks).
Definition sample_file : Mem.writable * MemEnv :=
  (Mem.mk_writable 0 false, snd (Mem.new_writable_file ["000005.ldb"%string] Mem.new)).
Abbreviation sample_build :=
  (build_table (W:=MemEnv) (H:=MemEnv_Env) (mk_icmp Bytewise) 40 2 sample_file.1 (Some sample_policy) (Some reverser)
    sample_table sample_file.2) (only parsing).
Lemma sample_ok : build_ok ik_ok (ik_ord bytes_cmp) sample_keys_ok (Some sample_policy) sample_table.
Proof.
  split.
  - repeat constructor; by vm_compute.
  - apply sortedb_sound; [apply _|]. by vm_compute.
  - by vm_compute.
  - intros p [= <-]. apply Internal_filter_Laws, Bloom_Laws, bloom_new_ok. lia.
  - intros ks Hks. unfold sample_keys_ok, bloom_keys_ok, len. rewrite length_map. change (Z.of_nat (length ks)) with (len ks).
    change (bits_per_key sample_policy) with 10. change (len sample_table) with 6 in Hks. lia.
  - intros p [= <-]. by vm_compute.
Qed.
Lemma sample_sizes b w : sample_build = (Ret b, w) ->
  len (mem_contents sample_file.1 w) < 2 ^ 63 /\ len (filter_bytes b) < 2 ^ 32.
Proof.
  intros E. assert (Hs : match sample_build with
    | (Ret b, w) => (len (mem_contents sample_file.1 w) <? 2 ^ 63) && (len (filter_bytes b) <? 2 ^ 32)
    | _ => false end = true) by (vm_compute; reflexivity).
  rewrite E in Hs. apply andb_true_iff in Hs as [?%Z.ltb_lt ?%Z.ltb_lt]. split; assumption.
Qed.
Lemma sample_cold : cold (cache_ok:=sharded_ok) (cached:=sharded_cached) true (ShardedLRUCache.new (V:=Block) 100).
Proof. intros _. split; [apply sharded_new_ok|]. intros off v. apply sharded_new_empty. Qed.
Lemma sample_reads data : len data < 2 ^ 63 -> reads (mk_vec data) tt data.
Proof. intros Hl. apply vec_reads. lia. Qed.
Lemma sample_compressors x : Some reverser = Some x -> CompressorLaws x.
Proof. destruct x. intros _. apply _. Qed.
Lemma sample_names q : Some sample_policy = Some q -> ik_ok (TableFileBuilder.filter_key (filter_name q)).
Proof. intros _. by vm_compute. Qed.
Lemma sample_agree : policies_agree (Some sample_policy) (Some sample_policy).
Proof. intros p q Hp Hq. left. congruence. Qed.

Lemma table_roundtrip_witness :
  let cache := ShardedLRUCache.new 100 in
  exists b w', sample_build = (Ret b, w') /\
  let data := mem_contents sample_file.1 w' in
  exists self stands,
    open_random_with_options (mk_vec data) (len data) (mk_icmp Bytewise) true (Some sample_policy) (Some reverser) (tt, cache)
      = (Ret self, (tt, new_cache true cache)) /\
    IterLaws (I:=TableIterator (InternalKeyComparator BytewiseComparator)) (ik_ord bytes_cmp) sample_table ik_ok stands /\
    stands (new_iterator_verify self true (tt, new_cache true cache)) None.
Proof.
  intros cache.
  destruct (table_roundtrip (W:=MemEnv) (H:=MemEnv_Env) (is_open:=mem_open) (contents:=mem_contents) (cache_ok:=sharded_ok)
    (cached:=sharded_cached) (F:=VecRandomAccessFile) (W2:=unit) (mk_icmp Bytewise) ik_ok (ik_ord bytes_cmp) sample_keys_ok
    (Some sample_policy) (Some reverser) sample_table 40 2 sample_file.1 sample_file.2 sample_compressors sample_ok
    ltac:(lia) eq_refl eq_refl) as (b & w' & E & Hrest).
  exists b, w'. split; [exact E|]. destruct (sample_sizes b w' E) as [H1 H2].
  exact (Hrest H1 H2 (mk_vec (mem_contents sample_file.1 w')) tt (Some sample_policy) true cache true (sample_reads _ H1)
    sample_agree sample_names sample_cold).
Defined.

(** C25: (Table::internal_get) Over a table built from internal keys, with or without the
    filter block and the block cache, a lookup of a snapshot key finds the first entry not
    below it when it is a version of the same user key (its value, or "deleted") and
    nothing otherwise: the index's shortened separators never send the search to the wrong
    block and the filter never hides an entry.  It does so after any other lookups. *)
Theorem table_internal_get {W F W2 C P Co K} `{Env W} `{RandomAccessFile F W2} `{Comparator C} `{FilterPolicy P} `{Compressor Co}
    `{Cache K Block} {is_open : Writable -> Prop} {contents : Writable -> W -> bytes} `{!WritableLaws is_open contents}
    {cache_ok : K -> Prop} {cached : K -> bytes -> Block -> Prop} `{!CacheLaws cache_ok cached, !CacheIdLaws cache_ok cached}
    (c : C) ord `{!ComparatorLaws c (fun _ => True) ord} keys_ok (fp : option P) (co : option Co) es block_size interval f w :
  (forall x, co = Some x -> CompressorLaws x) -> build_ok ik_ok (ik_ord ord) keys_ok fp es -> 1 <= interval -> is_open f ->
  contents f w = [] ->
  exists b w', build_table (mk_icmp c) block_size interval f fp co es w = (Ret b, w') /\
    (len (contents f w') < 2 ^ 63 -> len (filter_bytes b) < 2 ^ 32 ->
     forall (file : F) (w2 : W2) rp use_cache (k : K), reads file w2 (contents f w') -> policies_agree fp rp ->
       (forall q, rp = Some q -> ik_ok (TableFileBuilder.filter_key (filter_name q))) ->
       cold (cache_ok:=cache_ok) (cached:=cached) use_cache k ->
       exists self (ready : K -> Prop),
         open_random_with_options file (len (contents f w')) (mk_icmp c) use_cache rp co (w2, k)
           = (Ret self, (w2, new_cache use_cache k)) /\ ready (new_cache use_cache k) /\
         forall k target verify fill_cache, ready k -> ik_ok target ->
           exists k', internal_get_full self target verify fill_cache (w2, k) = (lookup_spec ord es target, (w2, k')) /\ ready k').
Proof.
  intros Hco Hes Hi Ho Hc.
  destruct (build_table_ok (is_open:=is_open) (mk_icmp c) ik_ok (ik_ord ord) keys_ok fp co es block_size interval f w Hes Hi Ho Hc)
    as (b & w' & ds & E & <- & _ & _ & _ & _ & Ht). exists b, w'. split; [exact E|].
  intros Hl Hlf file w2 rp use_cache k Hr Hagree Hname Hcold. specialize (Ht Hl Hlf).
  destruct (open_ok (K:=K) (mk_icmp c) ik_ok (ik_ord ord) co Hco _ file w2 Hr Hl fp ds Ht rp use_cache k Hagree Hname)
    as (self & Eo & Hop & Hb & Hid & _).
  exists self, (coherent (cache_ok:=cache_ok) (cached:=cached) co ds (own_good co ds self) self).
  split; [exact Eo|]. split; [by eapply open_coherent|]. intros k2 target verify fill Hcoh Hkt.
  by apply (internal_get_ok c ord co Hco _ file w2 Hr Hl fp ds Ht).
Qed.

Lemma table_internal_get_witness :
  let target k n := mk_ikey (list_byte_of_string k) (mk_tag n Value) in
  let cache := ShardedLRUCache.new 100 in
  exists b w', sample_build = (Ret b, w') /\
  let data := mem_contents sample_file.1 w' in
  exists self k1 k2,
    open_random_with_options (mk_vec data) (len data) (mk_icmp Bytewise) true (Some sample_policy) (Some reverser) (tt, cache)
      = (Ret self, (tt, new_cache true cache)) /\
    internal_get_full self (target "apple"%string 6) true true (tt, new_cache true cache)
      = (Ret (LookupFound (list_byte_of_string "green")), (tt, k1)) /\
    internal_get_full self (target "apricot"%string 8) false true (tt, k1) = (Ret LookupDeleted, (tt, k2)).
Proof.
  intros target cache.
  destruct (table_internal_get (W:=MemEnv) (H:=MemEnv_Env) (is_open:=mem_open) (contents:=mem_contents) (cache_ok:=sharded_ok)
    (cached:=sharded_cached) (F:=VecRandomAccessFile) (W2:=unit) Bytewise bytes_cmp sample_keys_ok (Some sample_policy)
    (Some reverser) sample_table 40 2 sample_file.1 sample_file.2 sample_compressors sample_ok ltac:(lia) eq_refl eq_refl)
    as (b & w' & E & Hrest).
  exists b, w'. split; [exact E|]. destruct (sample_sizes b w' E) as [H1 H2].
  destruct (Hrest H1 H2 (mk_vec (mem_contents sample_file.1 w')) tt (Some sample_policy) true cache (sample_reads _ H1)
    sample_agree sample_names sample_cold) as (self & ready & Eo & Hr & Hget).
  destruct (Hget _ (target "apple"%string 6) true true Hr (ik_ok_mk _ _)) as (k1 & E1 & Hr1).
  destruct (Hget _ (target "apricot"%string 8) false true Hr1 (ik_ok_mk _ _)) as (k2 & E2 & _).
  exists self, k1, k2. split; [exact Eo|]. rewrite E1, E2. split; f_equal; vm_compute; reflexivity.
Defined.

(** C38: (Table::get) Over a table built from sorted entries with any lawful parameters, opened
    with or without a filter policy and a block cache, [get] never fails, and after any
    other lookups it tells the value of the entry with exactly the key asked for, or that
    there is none.  The one exception is the table's own filter: where it denies the key
    [get] asks it about, which is the target with eight zero bytes, [get] tells that there
    is no entry, although the builder may have filed the target under another key.  Opened
    without a policy a table has no filter, and [get] is exact. *)
Theorem table_get {W F W2 C P Co K} `{Env W} `{RandomAccessFile F W2} `{Comparator C} `{FilterPolicy P} `{Compressor Co}
    `{Cache K Block} {is_open : Writable -> Prop} {contents : Writable -> W -> bytes} `{!WritableLaws is_open contents}
    {cache_ok : K -> Prop} {cached : K -> bytes -> Block -> Prop} `{!CacheLaws cache_ok cached, !CacheIdLaws cache_ok cached}
    (cmp : C) key_ok ord `{!ComparatorLaws cmp key_ok ord} `{!ShortHints cmp} keys_ok (fp : option P) (co : option Co)
    es block_size interval f w :
  (forall c, co = Some c -> CompressorLaws c) -> build_ok key_ok ord keys_ok fp es -> 1 <= interval -> is_open f ->
  contents f w = [] ->
  exists b w', build_table cmp block_size interval f fp co es w = (Ret b, w') /\
    (len (contents f w') < 2 ^ 63 -> len (filter_bytes b) < 2 ^ 32 ->
     forall (file : F) (w2 : W2) rp use_cache (k : K), reads file w2 (contents f w') -> policies_agree fp rp ->
       (forall q, rp = Some q -> key_ok (TableFileBuilder.filter_key (filter_name q))) ->
       cold (cache_ok:=cache_ok) (cached:=cached) use_cache k ->
       exists self (ready : K -> Prop),
         open_random_with_options file (len (contents f w')) cmp use_cache rp co (w2, k) = (Ret self, (w2, new_cache use_cache k)) /\
         ready (new_cache use_cache k) /\ (rp = None -> Table.filter self = None) /\
         forall k target verify fill_cache, ready k -> key_ok target ->
           exists r k', get_full self target verify fill_cache (w2, k) = (Ret r, (w2, k')) /\ ready k' /\
             (r = get_spec ord es target \/
              r = None /\ exists tf offset, Table.filter self = Some tf /\
                tf_key_may_match tf offset (target ++ replicate 8 (as_u8 0)) = Ret false)).
Proof.
  intros Hco Hes Hi Ho Hc.
  destruct (build_table_ok (is_open:=is_open) cmp key_ok ord keys_ok fp co es block_size interval f w Hes Hi Ho Hc)
    as (b & w' & ds & E & <- & _ & _ & _ & _ & Ht). exists b, w'. split; [exact E|].
  intros Hl Hlf file w2 rp use_cache k Hr Hagree Hname Hcold. specialize (Ht Hl Hlf).
  destruct (open_ok (K:=K) cmp key_ok ord co Hco _ file w2 Hr Hl fp ds Ht rp use_cache k Hagree Hname) as (self & Eo & Hop & Hb & Hid & _ & Hnone).
  exists self, (coherent (cache_ok:=cache_ok) (cached:=cached) co ds (own_good co ds self) self).
  split; [exact Eo|]. split; [by eapply open_coherent|]. split; [exact Hnone|]. intros k2 target verify fill Hcoh Hkt.
  exact (get_full_ok cmp key_ok ord co Hco _ file w2 Hr Hl fp ds Ht _ self k2 target verify fill Hop Hcoh Hkt).
Qed.

(** A table of one entry, which its own filter hides from [get]. *)
Definition hidden_key : bytes := list_byte_of_string "user:1234567".
Definition hidden_table : list entry := [(hidden_key, list_byte_of_string "v")].
Abbreviation hidden_build :=
  (build_table (W:=MemEnv) (H:=MemEnv_Env) Bytewise 4096 16 sample_file.1 (Some sample_policy) (Some reverser) hidden_table sample_file.2) (only parsing).
Lemma hidden_ok : build_ok (fun _ => True) bytes_cmp sample_keys_ok (Some sample_policy) hidden_table.
Proof.
  split.
  - by repeat constructor.
  - apply sortedb_sound; [apply _|]. by vm_compute.
  - by vm_compute.
  - intros p [= <-]. apply Internal_filter_Laws, Bloom_Laws, bloom_new_ok. lia.
  - intros ks Hks. unfold sample_keys_ok, bloom_keys_ok, len. rewrite length_map. change (Z.of_nat (length ks)) with (len ks).
    change (bits_per_key sample_policy) with 10. change (len hidden_table) with 1 in Hks. lia.
  - done.
Qed.
Lemma hidden_sizes b w : hidden_build = (Ret b, w) -> len (mem_contents sample_file.1 w) < 2 ^ 63 /\ len (filter_bytes b) < 2 ^ 32.
Proof.
  intros E. assert (Hs : match hidden_build with
    | (Ret b, w) => (len (mem_contents sample_file.1 w) <? 2 ^ 63) && (len (filter_bytes b) <? 2 ^ 32)
    | _ => false end = true) by (vm_compute; reflexivity).
  rewrite E in Hs. apply andb_true_iff in Hs as [?%Z.ltb_lt ?%Z.ltb_lt]. split; assumption.
Qed.
Lemma table_get_witness :
  exists b w', hidden_build = (Ret b, w') /\
  let data := mem_contents sample_file.1 w' in
  let cache := ShardedLRUCache.new 100 in
  let opened_with rp self := open_random_with_options (mk_vec data) (len data) Bytewise true rp (Some reverser) (tt, cache) = (Ret self, (tt, new_cache true cache)) in
  (exists self k', opened_with None self /\
     get_full self hidden_key true true (tt, new_cache true cache) = (Ret (Some (list_byte_of_string "v")), (tt, k'))) /\
  exists self k' tf offset, opened_with (Some sample_policy) self /\
    get_full self hidden_key true true (tt, new_cache true cache) = (Ret None, (tt, k')) /\
    Table.filter self = Some tf /\ tf_key_may_match tf offset (hidden_key ++ replicate 8 (as_u8 0)) = Ret false.
Proof.
  destruct (table_get (W:=MemEnv) (H:=MemEnv_Env) (is_open:=mem_open) (contents:=mem_contents) (cache_ok:=sharded_ok)
    (cached:=sharded_cached) (F:=VecRandomAccessFile) (W2:=unit) Bytewise (fun _ => True) bytes_cmp sample_keys_ok
    (Some sample_policy) (Some reverser) hidden_table 4096 16 sample_file.1 sample_file.2 sample_compressors hidden_ok
    ltac:(lia) eq_refl eq_refl) as (b & w' & E & Hrest).
  exists b, w'. split; [exact E|]. intros data cache opened_with. destruct (hidden_sizes b w' E) as [H1 H2].
  specialize (Hrest H1 H2 (mk_vec data) tt). split.
  - destruct (Hrest None true cache (sample_reads _ H1) (fun p q _ Hq => ltac:(discriminate Hq)) (fun q _ => I) sample_cold)
      as (self & ready & Eo & Hr & Hnone & Hget).
    destruct (Hget _ hidden_key true true Hr I) as (r & k' & Eg & _ & [->|(_ & tf & off & Ef & _)]); [|by rewrite Hnone in Ef].
    exists self, k'. split; [exact Eo|]. rewrite Eg. reflexivity.
  - destruct (Hrest (Some sample_policy) true cache (sample_reads _ H1) sample_agree (fun q _ => I) sample_cold) as (self & ready & Eo & Hr & _ & Hget).
    destruct (Hget _ hidden_key true true Hr I) as (r & k' & Eg & _ & [->|(-> & tf & off & Ef & Hn)]); [|by exists self, k', tf, off; split_and!].
    exfalso. assert (Hrun : ((t ← open_random_with_options (mk_vec data) (len data) Bytewise true (Some sample_policy) (Some reverser); get_full t hidden_key true true) (tt, cache)).1 = Ret None).
    { unfold data. replace w' with hidden_build.2 by (by rewrite E). vm_compute. reflexivity. }
    rewrite (action_bind_ret _ _ _ _ _ Eo), Eg in Hrun. vm_compute in Hrun. discriminate.
Defined.
