(* ===== verification/Newest.v ===== *)
(** * Newest.v: what a lookup should answer.

    A snapshot key [t] names a user key and a tag; the versions it can see are the entries
    of that user key with tags not above its own.  [answers t es r] says that [r] is the
    answer a lookup of [t] owes over the entries [es], wherever they are stored: the newest
    visible version's value, "deleted" when that version is a tombstone, "not found" when
    there is none.  The memtables, the table files and the levels are stores whose answers
    combine, newer stores first. *)
From S2P Require Import Prelude Status Comparator Format DbIterator Table TableCorrect.

Definition ekind (e : entry) : Z := Z.land (utag e.1) 0xff.
Definition visible_to (t : bytes) (e : entry) : Prop := ukey e.1 = ukey t /\ utag e.1 <= utag t.
Definition newest_in (t : bytes) (es : list entry) (e : entry) : Prop :=
  e ∈ es /\ visible_to t e /\ forall e', e' ∈ es -> visible_to t e' -> utag e'.1 <= utag e.1.
Definition none_in (t : bytes) (es : list entry) : Prop := forall e, e ∈ es -> ~ visible_to t e.

Inductive answers (t : bytes) (es : list entry) : LookupResult -> Prop :=
| answers_found e : newest_in t es e -> ekind e = 1 -> answers t es (LookupFound e.2)
| answers_deleted e : newest_in t es e -> ekind e = 0 -> answers t es LookupDeleted
| answers_not_found : none_in t es -> answers t es LookupNotFound.

(** What the user is told. *)
Definition told (r : LookupResult) : option bytes := match r with LookupFound v => Some v | _ => None end.

(** Entries of a store: internal keys of one of the two types. *)
Definition entry_wf (e : entry) : Prop := ik_ok e.1 /\ (ekind e = 0 \/ ekind e = 1).

(** [a] holds the newer versions: a key in both has its lower tags in [b]. *)
Definition newer (a b : list entry) : Prop :=
  forall x y, x ∈ a -> y ∈ b -> ukey x.1 = ukey y.1 -> utag y.1 <= utag x.1.

Lemma none_in_app t a b : none_in t (a ++ b) <-> none_in t a /\ none_in t b.
Proof. unfold none_in. setoid_rewrite elem_of_app. naive_solver. Qed.
Lemma answers_newer t a b r : newer a b -> r <> LookupNotFound -> answers t a r -> answers t (a ++ b) r.
Proof.
  intros Hn Hr Ha. assert (Hx : forall e, newest_in t a e -> newest_in t (a ++ b) e).
  { intros e (Hin & Hv & Hmax). split_and!; [by apply elem_of_app; left|done|].
    intros e' [H1|H1]%elem_of_app Hv'; [by apply Hmax|]. apply (Hn e e'); [done..|]. by rewrite (proj1 Hv), (proj1 Hv'). }
  destruct Ha as [e He Hk|e He Hk|]; [by econstructor; [apply Hx|]..|done].
Qed.
Lemma answers_skip t a b r : none_in t a -> answers t b r -> answers t (a ++ b) r.
Proof.
  intros Ha Hb. assert (Hx : forall e, newest_in t b e -> newest_in t (a ++ b) e).
  { intros e (Hin & Hv & Hmax). split_and!; [by apply elem_of_app; right|done|].
    intros e' [H1|H1]%elem_of_app Hv'; [by destruct (Ha e')|by apply Hmax]. }
  destruct Hb as [e He Hk|e He Hk|Hb]; [by econstructor; [apply Hx|]..|]. constructor. by apply none_in_app.
Qed.
(** Asking the stores in turn, newer ones first. *)
Lemma answers_app t a b ra rb : newer a b -> answers t a ra -> answers t b rb ->
  answers t (a ++ b) (match ra with LookupNotFound => rb | r => r end).
Proof.
  intros Hn Ha Hb. destruct ra; [by apply answers_newer..|]. apply answers_skip; [|done]. by inversion Ha.
Qed.
(** Only which entries there are matters. *)
Lemma answers_elem t a b r : (forall e, e ∈ a <-> e ∈ b) -> answers t a r -> answers t b r.
Proof.
  intros He Ha. assert (Hx : forall e, newest_in t a e -> newest_in t b e).
  { intros e (Hin & Hv & Hmax). split_and!; [by apply He|done|]. intros e' H1%He. by apply Hmax. }
  destruct Ha as [e Hn Hk|e Hn Hk|Hn]; [by econstructor; [apply Hx|]..|]. constructor. intros e H1%He. by apply Hn.
Qed.
#[export] Instance answers_perm t : Proper ((≡ₚ) ==> (=) ==> iff) (answers t).
Proof.
  intros a b Hp r r' <-. split; apply answers_elem; intros e; by rewrite Hp.
Qed.
(** No store has two different entries with one key: then the answer is determined. *)
Definition one_per_key (es : list entry) : Prop :=
  forall x y, x ∈ es -> y ∈ es -> ukey x.1 = ukey y.1 -> utag x.1 = utag y.1 -> x = y.
Lemma newest_unique t es x y : one_per_key es -> newest_in t es x -> newest_in t es y -> x = y.
Proof.
  intros H1 (Hx & Hvx & Hmx) (Hy & Hvy & Hmy). apply H1; [done..| |].
  - by rewrite (proj1 Hvx), (proj1 Hvy).
  - apply Z.le_antisymm; auto.
Qed.
Lemma answers_unique t es r r' : one_per_key es -> answers t es r -> answers t es r' -> r = r'.
Proof.
  intros H1 Hr Hr'. destruct Hr as [x Hx Kx|x Hx Kx|Hn], Hr' as [y Hy Ky|y Hy Ky|Hn'].
  all: try (pose proof (newest_unique t es x y H1 Hx Hy); subst; congruence).
  all: try (by destruct (Hn' x); destruct Hx as (? & ? & _)).
  all: try (by destruct (Hn y); destruct Hy as (? & ? & _)).
  done.
Qed.

Section lookup.
Context (ord : bytes -> bytes -> comparison) `{!TotalOrd ord} (Hanti : forall a b, ord a b = Eq -> a = b).

Lemma ord_eq_iff a b : ord a b = Eq <-> a = b.
Proof using Type*. split; [apply Hanti|intros ->; apply ord_refl]. Qed.

(** Visibility is a position in the internal order. *)
Lemma visible_ge t e : visible_to t e <-> ukey e.1 = ukey t /\ ik_ord ord t e.1 <> Gt.
Proof using Type*.
  unfold visible_to, ik_ord. split; intros [H1 H2]; (split; [done|]); rewrite H1, ord_refl in *.
  - rewrite Z.compare_le_iff. done.
  - by rewrite Z.compare_le_iff in H2.
Qed.
Lemma same_user_tag a b : ukey a = ukey b -> ik_ord ord a b <> Gt -> utag b <= utag a.
Proof using Type*. intros E. unfold ik_ord. rewrite E, ord_refl, Z.compare_le_iff. done. Qed.

Lemma first_ge_sorted es t e : sorted_entries (ik_ord ord) es -> first_ge (ik_ord ord) es t = Some e ->
  e ∈ es /\ ik_ord ord t e.1 <> Gt /\ forall x, x ∈ es -> ik_ord ord t x.1 <> Gt -> ik_ord ord e.1 x.1 <> Gt.
Proof using Type*.
  intros Hs. induction es as [|y es IH]; [done|]. unfold first_ge. cbn [List.find]. fold (first_ge (ik_ord ord) es t).
  unfold not_below at 1. destruct (ik_ord ord y.1 t) eqn:E; cbn [is_ge].
  2: { intros Hf. destruct (IH (sorted_tail _ _ _ Hs) Hf) as (H1 & H2 & H3). split_and!; [by right|done|].
       intros x [->|Hx]%elem_of_cons Hge; [|by apply H3]. apply ord_gt_lt in E. by destruct Hge. }
  all: intros [= <-]; split_and!; [by left|intros Hg; apply ord_gt_lt in Hg; congruence|].
  all: intros x [->|Hx]%elem_of_cons _; [by rewrite ord_refl|]; by rewrite (sorted_head _ _ _ _ Hs Hx).
Qed.
Lemma first_ge_absent es t e : first_ge (ik_ord ord) es t = None -> e ∈ es -> ik_ord ord e.1 t = Lt.
Proof using Type*.
  unfold first_ge. intros Hf Hin. pose proof (find_none _ _ Hf e) as Hn. rewrite <- list_elem_of_In in Hn.
  specialize (Hn Hin). unfold not_below in Hn. by destruct (ik_ord ord e.1 t).
Qed.

Lemma lookup_answers es t : sorted_entries (ik_ord ord) es -> Forall entry_wf es ->
  exists r, lookup_spec ord es t = Ret r /\ answers t es r.
Proof using Type*.
  intros Hs Hwf. unfold lookup_spec. destruct (first_ge _ es t) as [e|] eqn:Ef.
  - destruct (first_ge_sorted es t e Hs Ef) as (Hin & Hge & Hmin). destruct (decide (ukey e.1 = ukey t)) as [Hu|Hu].
    + assert (Hnew : newest_in t es e).
      { split_and!; [done|by apply visible_ge|]. intros x Hx [Hux Hgx]%visible_ge. apply same_user_tag; [by rewrite Hu|by apply Hmin]. }
      rewrite Forall_forall in Hwf. destruct (Hwf e Hin) as [_ [Hk|Hk]]; fold (ekind e); rewrite Hk; eexists; (split; [done|]).
      * by eapply answers_deleted.
      * by eapply answers_found.
    + eexists. split; [done|]. constructor. intros x Hx [Hux Hgx]%visible_ge. pose proof (Hmin x Hx Hgx) as Hex.
      apply Hu. apply Hanti. unfold ik_ord in Hge, Hex. rewrite Hux in Hex.
      destruct (ord (ukey t) (ukey e.1)) eqn:E1; [by apply ord_eq_sym| |done].
      apply ord_gt_lt in E1. by rewrite E1 in Hex.
  - eexists. split; [done|]. constructor. intros x Hx [_ Hgx]%visible_ge.
    pose proof (first_ge_absent es t x Ef Hx) as Hl. apply ord_gt_lt in Hl. done.
Qed.
End lookup.
