(* ===== verification/Log.v ===== *)
(** * Log.v: [log/log.rs] and [log/log_record_header.rs].

    The record log: [LogWriter] over its own buffer and over a [WritableFile],
    [LogReader] over bytes, and [LogSequentialReader] over a [SequentialFile]. *)
From S2P Require Import Prelude Status Coding Crc32c Env.

Definition BLOCK_SIZE : Z := 32768.

(** ** [LogRecordHeader] *)

Module LogRecordHeader.
Definition SIZE : Z := 7.
Definition KIND_ZERO : Z := 0.
Definition KIND_FULL : Z := 1.
Definition KIND_FIRST : Z := 2.
Definition KIND_MIDDLE : Z := 3.
Definition KIND_LAST : Z := 4.
Record t := mk { crc : Z; length : Z; kind : Z }.
Definition encode (h : t) (dst : bytes) : bytes :=
  put_fixed16 (put_fixed32 dst (mask (crc h))) (length h) ++ [as_u8 (kind h)].
Definition decode_from : reader t :=
  crc_raw ← need get_fixed32 "LogRecordHeader: missing crc";
  length ← need get_fixed16 "LogRecordHeader: missing length";
  kind ← need get_u8 "LogRecordHeader: missing kind";
  mret (mk (unmask crc_raw) length kind).
End LogRecordHeader.
Definition HEADER_SIZE : Z := LogRecordHeader.SIZE.

(** The choice of a fragment's kind. *)
Definition fragment_kind (begin end_ : bool) : Z :=
  if begin && end_ then LogRecordHeader.KIND_FULL
  else if begin then LogRecordHeader.KIND_FIRST
  else if end_ then LogRecordHeader.KIND_LAST
  else LogRecordHeader.KIND_MIDDLE.

(** ** [LogWriter] *)

Module LogWriter.
(** [scratch] only holds the header being encoded. *)
Record t := mk { sink : bytes; block_offset : Z }.
Record mark_t := mk_mark { m_sink_len : Z; m_block_offset : Z }.

Definition new : t := mk [] 0.
Definition mark (w : t) : mark_t := mk_mark (len (sink w)) (block_offset w).
Definition rewind_to (w : t) (m : mark_t) : outcome t :=
  _ ← assert (m_sink_len m <=? len (sink w));
  Ret (mk (ztake (m_sink_len m) (sink w)) (m_block_offset m)).

Definition emit_physical_record (w : t) (kind : Z) (data : bytes) : t :=
  let crc := value [as_u8 kind] in
  let crc := extend crc data in
  let header := LogRecordHeader.mk crc (as_u16 (len data)) kind in
  mk (LogRecordHeader.encode header (sink w) ++ data)
     (block_offset w + (HEADER_SIZE + len data)).

(** The padding of a block whose rest is shorter than a header. *)
Definition pad (w : t) : t :=
  let leftover := BLOCK_SIZE - block_offset w in
  if leftover <? HEADER_SIZE
  then mk (if 0 <? leftover then sink w ++ replicate (Z.to_nat leftover) (as_u8 0) else sink w) 0
  else w.

(** The [loop].  A round either ends, or emits at least a byte of data, or fills a
    block with an empty fragment; so [len left + 2] rounds are enough. *)
Fixpoint add_loop (fuel : nat) (w : t) (left : bytes) (begin : bool) : outcome t :=
  match fuel with
  | O => Panic
  | S fuel =>
      let w := pad w in
      let avail := BLOCK_SIZE - block_offset w - HEADER_SIZE in
      let fragment_len := Z.min (len left) avail in
      let end_ := len left =? fragment_len in
      let kind := fragment_kind begin end_ in
      fragment ← slice_to left fragment_len;
      let w := emit_physical_record w kind fragment in
      left ← slice_from left fragment_len;
      if end_ then Ret w else add_loop fuel w left false
  end.
Definition add_record (w : t) (data : bytes) : outcome t :=
  add_loop (S (S (length data))) w data true.

Definition add_record_and_get_fragment (w : t) (data : bytes) : outcome (t * bytes) :=
  let start := len (sink w) in
  w ← add_record w data;
  f ← slice_from (sink w) start;
  Ret (w, f).

(** *** Writing to a file: the state is the writer's and the file system's *)
Section dest.
Context {W : Type} `{Env W}.

Definition on_file {A} (m : action W A) : action (t * W) A := fun s =>
  let '(r, w) := m s.2 in (r, (s.1, w)).
Definition set_offset (o : Z) : action (t * W) unit := fun s =>
  (Ret tt, (mk (sink s.1) o, s.2)).
Definition get_offset : action (t * W) Z := fun s => (Ret (block_offset s.1), s).

Definition pair_fragment (first second : bytes) (offset l : Z) : outcome (bytes * bytes) :=
  if offset <? len first then
    let first_len := Z.min (len first - offset) l in
    a ← slice first offset (offset + first_len);
    let remaining := l - first_len in
    b ← slice_to second remaining;
    Ret (a, b)
  else
    let start := offset - len first in
    b ← slice second start (start + l);
    Ret ([], b).

Definition emit_physical_record_pair_to (dest : Writable) (kind : Z) (first second : bytes)
  : action (t * W) unit :=
  let crc := value [as_u8 kind] in
  let crc := extend crc first in
  let crc := extend crc second in
  let length := len first + len second in
  let header := LogRecordHeader.mk crc (as_u16 length) kind in
  _ ← on_file (w_append dest (LogRecordHeader.encode header []));
  _ ← (if negb (bool_decide (first = [])) then on_file (w_append dest first) else mret tt);
  _ ← (if negb (bool_decide (second = [])) then on_file (w_append dest second) else mret tt);
  _ ← on_file (w_flush dest);
  o ← get_offset;
  set_offset (o + (HEADER_SIZE + length)).

Definition pad_to (dest : Writable) : action (t * W) unit :=
  o ← get_offset;
  let leftover := BLOCK_SIZE - o in
  if leftover <? HEADER_SIZE then
    _ ← (if 0 <? leftover then on_file (w_append dest (replicate (Z.to_nat leftover) (as_u8 0)))
         else mret tt);
    set_offset 0
  else mret tt.

Fixpoint pair_loop (fuel : nat) (dest : Writable) (first second : bytes)
    (offset left : Z) (begin : bool) : action (t * W) unit :=
  match fuel with
  | O => lift Panic
  | S fuel =>
      _ ← pad_to dest;
      o ← get_offset;
      let avail := BLOCK_SIZE - o - HEADER_SIZE in
      let fragment_len := Z.min left avail in
      let end_ := left =? fragment_len in
      let kind := fragment_kind begin end_ in
      fs ← lift (pair_fragment first second offset fragment_len);
      _ ← emit_physical_record_pair_to dest kind fs.1 fs.2;
      if end_ then mret tt
      else pair_loop fuel dest first second (offset + fragment_len) (left - fragment_len) false
  end.
Definition add_record_pair_to (dest : Writable) (first second : bytes) : action (t * W) unit :=
  let total_len := len first + len second in
  pair_loop (S (S (Z.to_nat total_len))) dest first second 0 total_len true.
Definition add_record_to (dest : Writable) (data : bytes) : action (t * W) unit :=
  add_record_pair_to dest data [].
End dest.
End LogWriter.

(** ** Reading: the assembly of fragments

    [read_record] is the same loop in both readers, over their own [read_physical]. *)
Section assemble.
Context {S : Type} (read_physical : action S (option (Z * bytes))).

Definition bad {A} (m : string) : action S A := rfail (Stat.corruption m).

Fixpoint assemble (fuel : nat) (scratch : bytes) (in_fragmented : bool)
  : action S (option bytes) :=
  match fuel with
  | O => lift Panic
  | Datatypes.S fuel =>
      p ← read_physical;
      match p with
      | None =>
          if in_fragmented then bad "LogReader: truncated fragmented record" else mret None
      | Some (kind, fragment) =>
          if kind =? LogRecordHeader.KIND_FULL then
            if in_fragmented then bad "LogReader: full inside fragmented record"
            else mret (Some fragment)
          else if kind =? LogRecordHeader.KIND_FIRST then
            if in_fragmented then bad "LogReader: first inside fragmented record"
            else assemble fuel fragment true
          else if kind =? LogRecordHeader.KIND_MIDDLE then
            if negb in_fragmented then bad "LogReader: middle outside fragmented record"
            else assemble fuel (scratch ++ fragment) in_fragmented
          else if kind =? LogRecordHeader.KIND_LAST then
            if negb in_fragmented then bad "LogReader: last outside fragmented record"
            else mret (Some (scratch ++ fragment))
          else bad ("LogReader: unknown record kind " +:+ show_u64 kind)
      end
  end.
End assemble.

(** ** [LogReader] *)

Module LogReader.
Record t := mk { data : bytes; cursor : Z }.
Definition new (data : bytes) : t := mk data 0.

(** The loop of [read_physical]: every round moves the cursor, which never passes the
    end by more than six bytes. *)
Fixpoint physical_loop (fuel : nat) : action t (option (Z * bytes)) := fun r =>
  match fuel with
  | O => (Panic, r)
  | S fuel =>
      let block_offset := cursor r mod BLOCK_SIZE in
      let leftover := BLOCK_SIZE - block_offset in
      if leftover <? HEADER_SIZE then physical_loop fuel (mk (data r) (cursor r + leftover))
      else if len (data r) <? cursor r + HEADER_SIZE then (Ret None, r)
      else
        match (h ← slice (data r) (cursor r) (cursor r + HEADER_SIZE);
               (LogRecordHeader.decode_from h).1) with
        | Fail s => (Fail s, r)
        | Panic => (Panic, r)
        | Ret header =>
            let l := LogRecordHeader.length header in
            let avail_in_block := BLOCK_SIZE - block_offset - HEADER_SIZE in
            if avail_in_block <? l
            then (Fail (Stat.corruption "LogReader: record extends past block end"), r)
            else if len (data r) <? cursor r + HEADER_SIZE + l
            then (Fail (Stat.corruption "LogReader: truncated payload"), r)
            else
              match slice (data r) (cursor r + HEADER_SIZE) (cursor r + HEADER_SIZE + l) with
              | Fail s => (Fail s, r)
              | Panic => (Panic, r)
              | Ret payload =>
                  let actual_crc := value [as_u8 (LogRecordHeader.kind header)] in
                  let actual_crc := extend actual_crc payload in
                  if negb (actual_crc =? LogRecordHeader.crc header)
                  then (Fail (Stat.corruption "LogReader: bad record CRC"), r)
                  else
                    let r := mk (data r) (cursor r + (HEADER_SIZE + l)) in
                    if (LogRecordHeader.kind header =? LogRecordHeader.KIND_ZERO) && (l =? 0)
                    then physical_loop fuel r
                    else (Ret (Some (LogRecordHeader.kind header, payload)), r)
              end
        end
  end.
Definition fuel_of (r : t) : nat := length (data r) + 8.
Definition read_physical : action t (option (Z * bytes)) := fun r => physical_loop (fuel_of r) r.
Definition read_record : action t (option bytes) := fun r =>
  assemble read_physical (fuel_of r) [] false r.
End LogReader.

(** ** [LogSequentialReader] *)

Module LogSequentialReader.
Section LogSequentialReader.
Context {W : Type} `{Env W}.

Record t := mk { file : Sequential; block : bytes; block_offset : Z; eof : bool }.
Definition new (file : Sequential) : t := mk file [] 0 false.

(** The file system is threaded; reading is the only call. *)
Definition fill_block : action (t * W) unit := fun s =>
  if eof s.1 then (Ret tt, s)
  else
    match seq_read (file s.1) BLOCK_SIZE s.2 with
    | (Ret (b, f), w) => (Ret tt, (mk f b 0 (bool_decide (b = []) || eof s.1), w))
    | (Fail e, w) => (Fail e, (s.1, w))
    | (Panic, w) => (Panic, (s.1, w))
    end.

(** One round of the loop of [read_physical]: [inl] to go round again. *)
Definition physical_step (r : t) : outcome (t + option (Z * bytes)) * t :=
  let leftover := len (block r) - block_offset r in
  if leftover <? HEADER_SIZE then
    if len (block r) <? BLOCK_SIZE
    then (Ret (inr None), mk (file r) (block r) (block_offset r) true)
    else (Ret (inl (mk (file r) (block r) (len (block r)) (eof r))), r)
  else
    match (h ← slice (block r) (block_offset r) (block_offset r + HEADER_SIZE);
           (LogRecordHeader.decode_from h).1) with
    | Fail s => (Fail s, r)
    | Panic => (Panic, r)
    | Ret header =>
        let l := LogRecordHeader.length header in
        let avail_in_block := BLOCK_SIZE - block_offset r - HEADER_SIZE in
        if avail_in_block <? l
        then (Fail (Stat.corruption "LogReader: record extends past block end"), r)
        else if len (block r) <? block_offset r + HEADER_SIZE + l
        then (Fail (Stat.corruption "LogReader: truncated payload"), r)
        else
          match slice (block r) (block_offset r + HEADER_SIZE) (block_offset r + HEADER_SIZE + l) with
          | Fail s => (Fail s, r)
          | Panic => (Panic, r)
          | Ret payload =>
              let actual_crc := value [as_u8 (LogRecordHeader.kind header)] in
              let actual_crc := extend actual_crc payload in
              if negb (actual_crc =? LogRecordHeader.crc header)
              then (Fail (Stat.corruption "LogReader: bad record CRC"), r)
              else
                let r := mk (file r) (block r) (block_offset r + (HEADER_SIZE + l)) (eof r) in
                if (LogRecordHeader.kind header =? LogRecordHeader.KIND_ZERO) && (l =? 0)
                then (Ret (inl r), r)
                else (Ret (inr (Some (LogRecordHeader.kind header, payload))), r)
          end
    end.

Fixpoint physical_loop (fuel : nat) : action (t * W) (option (Z * bytes)) := fun s =>
  match fuel with
  | O => (Panic, s)
  | S fuel =>
      match (if len (block s.1) <=? block_offset s.1
             then match fill_block s with
                  | (Ret _, s) => (Ret (eof s.1), s)
                  | (Fail e, s) => (Fail e, s)
                  | (Panic, s) => (Panic, s)
                  end
             else (Ret false, s)) with
      | (Fail e, s) => (Fail e, s)
      | (Panic, s) => (Panic, s)
      | (Ret true, s) => (Ret None, s)
      | (Ret false, s) =>
            match physical_step s.1 with
            | (Ret (inl r), _) => physical_loop fuel (r, s.2)
            | (Ret (inr o), r) => (Ret o, (r, s.2))
            | (Fail e, r) => (Fail e, (r, s.2))
            | (Panic, r) => (Panic, (r, s.2))
            end
      end
  end.
(** [fuel] bounds the bytes left in the file, which the reader does not know. *)
Definition read_physical (fuel : nat) : action (t * W) (option (Z * bytes)) := physical_loop fuel.
Definition read_record (fuel : nat) : action (t * W) (option bytes) :=
  assemble (read_physical fuel) fuel [] false.
End LogSequentialReader.
End LogSequentialReader.
