(* ===== verification/LogCorrect.v ===== *)
(** * LogCorrect.v: correctness of Log.v.

    A reference encoding of a record as padded fragments; both writers produce it, both
    readers take it apart, and the two readers agree on every file. *)
From S2P Require Import Prelude Status Coding Crc32c Env Log.

(** ** The reference encoding *)

(** One physical record. *)
Definition frag (kind : Z) (d : bytes) : bytes :=
  LogRecordHeader.encode
    (LogRecordHeader.mk (extend (value [as_u8 kind]) d) (as_u16 (len d)) kind) [] ++ d.

(** The padding from block offset [o], and the offset after it. *)
Definition padb (o : Z) : bytes :=
  if BLOCK_SIZE - o <? HEADER_SIZE then replicate (Z.to_nat (BLOCK_SIZE - o)) (as_u8 0) else [].
Definition nxt (o : Z) : Z := if BLOCK_SIZE - o <? HEADER_SIZE then 0 else o.
Definition room (o : Z) : Z := BLOCK_SIZE - nxt o - HEADER_SIZE.

(** The bytes of the rest [left] of a record, written from block offset [o], and the
    offset they leave. *)
Fixpoint enc_loop (fuel : nat) (o : Z) (left : bytes) (begin : bool) : bytes * Z :=
  match fuel with
  | O => ([], o)
  | S fuel =>
      let fl := Z.min (len left) (room o) in
      let end_ := len left =? fl in
      let b := padb o ++ frag (fragment_kind begin end_) (ztake fl left) in
      let o2 := nxt o + (HEADER_SIZE + fl) in
      if end_ then (b, o2)
      else let r := enc_loop fuel o2 (zdrop fl left) false in (b ++ r.1, r.2)
  end.

Definition fuel_for (left : bytes) : nat := S (S (length left)).
Definition enc_record (o : Z) (d : bytes) : bytes * Z := enc_loop (fuel_for d) o d true.
Fixpoint enc_records (o : Z) (ds : list bytes) : bytes * Z :=
  match ds with
  | [] => ([], o)
  | d :: ds =>
      let r := enc_record o d in
      let rs := enc_records r.2 ds in (r.1 ++ rs.1, rs.2)
  end.

(** An offset inside a block, its end included. *)
Definition in_block (o : Z) : Prop := 0 <= o <= BLOCK_SIZE.

Lemma nxt_room o : in_block o -> 0 <= nxt o <= BLOCK_SIZE - HEADER_SIZE /\ 0 <= room o.
Proof. unfold in_block, room, nxt, BLOCK_SIZE, HEADER_SIZE, LogRecordHeader.SIZE. zcase; lia. Qed.

(** Rounds needed: an empty first fragment costs one more. *)
Definition rounds (o : Z) (left : bytes) : Z := len left + (if room o =? 0 then 2 else 1).

Lemma rounds_fuel o left : rounds o left <= Z.of_nat (fuel_for left).
Proof. unfold rounds, fuel_for, len. zcase; lia. Qed.

Lemma rounds_step o left : in_block o -> len left <> Z.min (len left) (room o) ->
  let fl := Z.min (len left) (room o) in
  in_block (nxt o + (HEADER_SIZE + fl)) /\
  rounds (nxt o + (HEADER_SIZE + fl)) (zdrop fl left) + 1 <= rounds o left.
Proof.
  intros Ho Hne fl. pose proof (nxt_room o Ho) as [Hn Hr]. pose proof (len_nonneg left).
  assert (Hfl : fl = room o) by lia. rewrite Hfl.
  assert (E : nxt o + (HEADER_SIZE + room o) = BLOCK_SIZE) by (unfold room; lia). rewrite E.
  split; [unfold in_block, BLOCK_SIZE; lia|].
  unfold rounds. rewrite len_zdrop by lia.
  change (room BLOCK_SIZE) with 32761. change (32761 =? 0) with false. cbn iota.
  destruct (Z.eqb_spec (room o) 0); lia.
Qed.

(** ** The in-memory writer *)

Lemma emit_spec w kind d : LogWriter.emit_physical_record w kind d
  = LogWriter.mk (LogWriter.sink w ++ frag kind d) (LogWriter.block_offset w + (HEADER_SIZE + len d)).
Proof.
  unfold LogWriter.emit_physical_record, frag, LogRecordHeader.encode, put_fixed16, put_fixed32. cbn.
  by rewrite <- !app_assoc.
Qed.

Lemma pad_spec w : in_block (LogWriter.block_offset w) ->
  LogWriter.pad w = LogWriter.mk (LogWriter.sink w ++ padb (LogWriter.block_offset w))
                      (nxt (LogWriter.block_offset w)).
Proof.
  destruct w as [s o]. cbn. intros Ho. unfold LogWriter.pad, padb, nxt. cbn.
  destruct (Z.ltb_spec (BLOCK_SIZE - o) HEADER_SIZE); [|by rewrite app_nil_r].
  f_equal. zcase; [done|]. unfold in_block in Ho. replace (BLOCK_SIZE - o) with 0 by lia.
  by rewrite app_nil_r.
Qed.

Lemma add_loop_spec fuel w left begin : in_block (LogWriter.block_offset w) ->
  rounds (LogWriter.block_offset w) left <= Z.of_nat fuel ->
  let r := enc_loop fuel (LogWriter.block_offset w) left begin in
  LogWriter.add_loop fuel w left begin = Ret (LogWriter.mk (LogWriter.sink w ++ r.1) r.2) /\
  in_block r.2.
Proof.
  revert w left begin. induction fuel as [|fuel IH]; intros w left begin Ho Hf.
  { unfold rounds in Hf. len_pose. destruct (_ =? 0); lia. }
  cbn [LogWriter.add_loop enc_loop]. rewrite pad_spec by done.
  cbn [LogWriter.block_offset LogWriter.sink].
  set (o := LogWriter.block_offset w) in *. change (BLOCK_SIZE - nxt o - HEADER_SIZE) with (room o).
  set (fl := Z.min (len left) (room o)).
  pose proof (nxt_room o Ho) as [Hn Hr]. pose proof (len_nonneg left).
  unfold slice_to. rewrite slice_ok by lia. rewrite zdrop_0, Z.sub_0_r. cbn [mbind outcome_bind].
  rewrite slice_from_drop by lia. cbn [mbind outcome_bind].
  rewrite emit_spec. cbn [LogWriter.block_offset LogWriter.sink]. rewrite len_ztake by lia.
  rewrite <- app_assoc.
  destruct (Z.eqb_spec (len left) fl) as [E|E].
  - split; [done|]. cbn. assert (0 <= fl <= room o) by lia. clearbody fl.
    unfold in_block, room, HEADER_SIZE, LogRecordHeader.SIZE in *. lia.
  - destruct (rounds_step o left Ho E) as [Ho2 Hr2]. fold fl in Ho2, Hr2.
    destruct (IH (LogWriter.mk (LogWriter.sink w ++ padb o ++ frag (fragment_kind begin false) (ztake fl left))
      (nxt o + (HEADER_SIZE + fl))) (zdrop fl left) false Ho2 ltac:(cbn; lia)) as [IH1 IH2].
    cbn [LogWriter.block_offset LogWriter.sink] in IH1, IH2. rewrite IH1.
    split; [|done]. cbn. by rewrite <- !app_assoc.
Qed.

Lemma add_record_spec w d : in_block (LogWriter.block_offset w) ->
  let r := enc_record (LogWriter.block_offset w) d in
  LogWriter.add_record w d = Ret (LogWriter.mk (LogWriter.sink w ++ r.1) r.2) /\ in_block r.2.
Proof. intros Ho. apply add_loop_spec; [done|apply rounds_fuel]. Qed.

(** ** Reading one physical record *)

Lemma len_frag kind d : len (frag kind d) = HEADER_SIZE + len d.
Proof.
  unfold frag, LogRecordHeader.encode, put_fixed16, put_fixed32. cbn [app].
  rewrite !len_app, !len_le_split, len_cons, len_nil.
  unfold HEADER_SIZE, LogRecordHeader.SIZE. lia.
Qed.

Lemma frag_head kind d : exists h, frag kind d = h ++ d /\ len h = HEADER_SIZE /\
  (is_u16 (len d) -> is_u8 kind ->
   LogRecordHeader.decode_from h
   = (Ret (LogRecordHeader.mk (extend (value [as_u8 kind]) d) (len d) kind), [])).
Proof.
  eexists. split; [reflexivity|].
  unfold LogRecordHeader.encode, put_fixed16, put_fixed32. cbn [app]. split.
  { by rewrite !len_app, !len_le_split, len_cons, len_nil. }
  intros Hd Hk. cbn. rewrite <- !app_assoc. rewrite (as_u16_id (len d)) by done.
  unfold LogRecordHeader.decode_from.
  assert (Hc : is_u32 (extend (value [as_u8 kind]) d)) by (apply extend_u32, value_u32).
  erewrite action_bind_ret by (apply need_some, get_fixed32_app, mask_u32).
  erewrite action_bind_ret by by apply need_some, get_fixed16_app.
  erewrite action_bind_ret by (apply need_some; reflexivity).
  by rewrite unmask_mask, u8_as_u8_id.
Qed.

(** Everything up to [pre] ends at offset [o] of a block. *)
Definition stands_at (c o : Z) : Prop := exists q, 0 <= q /\ c = q * BLOCK_SIZE + o.

Lemma stands_step c o n : stands_at c o -> in_block o ->
  stands_at (c + len (padb o) + n) (nxt o + n).
Proof.
  intros (q & Hq & ->) Ho. unfold padb, nxt, in_block in *. zcase.
  - exists (q + 1). rewrite len_replicate. unfold BLOCK_SIZE in *. lia.
  - exists q. change (len (@nil byte)) with 0. lia.
Qed.

(** The reader skips the padding. *)
Lemma skip_padding data (pre : bytes) o fuel : stands_at (len pre) o -> in_block o ->
  exists f, (fuel <= f)%nat /\
    LogReader.physical_loop (S fuel) (LogReader.mk data (len pre)) = LogReader.physical_loop f (LogReader.mk data (len pre + len (padb o))).
Proof.
  intros Hpre Ho. unfold padb. destruct (Z.ltb_spec (BLOCK_SIZE - o) HEADER_SIZE) as [Hlt|Hge].
  2: { exists (S fuel). split; [lia|]. by rewrite len_nil, Z.add_0_r. }
  destruct (Z.eq_dec o BLOCK_SIZE) as [E|E].
  { exists (S fuel). split; [lia|]. by rewrite len_replicate, E, Z.sub_diag, Z.add_0_r. }
  exists fuel. split; [lia|]. cbn [LogReader.physical_loop LogReader.cursor LogReader.data].
  assert (Hmod : len pre mod BLOCK_SIZE = o).
  { destruct Hpre as (q & Hq & ->). rewrite Z.add_comm, Z_mod_plus_full. apply Z.mod_small. unfold in_block in Ho. lia. }
  rewrite Hmod, (proj2 (Z.ltb_lt _ _)) by done. rewrite len_replicate. unfold in_block in Ho. do 2 f_equal. lia.
Qed.
Lemma here_mod (pre : bytes) o : stands_at (len pre) o -> in_block o -> (len pre + len (padb o)) mod BLOCK_SIZE = nxt o.
Proof.
  intros Hpre Ho. pose proof (nxt_room o Ho) as [Hn Hr]. destruct (stands_step _ _ 0 Hpre Ho) as (q & Hq & E).
  replace (len pre + len (padb o)) with (nxt o + q * BLOCK_SIZE) by lia. rewrite Z_mod_plus_full. apply Z.mod_small.
  unfold HEADER_SIZE, LogRecordHeader.SIZE, BLOCK_SIZE in *. lia.
Qed.

Section read_frag.
Context (pre : bytes) (o : Z) (kind : Z) (d rest : bytes)
        (Hpre : stands_at (len pre) o) (Ho : in_block o)
        (Hd : len d <= room o) (Hk : 1 <= kind <= 4).

Let data := pre ++ padb o ++ frag kind d ++ rest.
Let here := len pre + len (padb o).

(** The round that meets the fragment, the padding being skipped. *)
Lemma read_at_frag fuel : (0 < fuel)%nat ->
  LogReader.physical_loop fuel (LogReader.mk data here)
  = (Ret (Some (kind, d)), LogReader.mk data (here + (HEADER_SIZE + len d))).
Proof.
  intros Hf. destruct fuel as [|fuel]; [lia|]. cbn [LogReader.physical_loop LogReader.cursor LogReader.data].
  pose proof (nxt_room o Ho) as [Hn Hr]. pose proof (len_nonneg d) as Hd0.
  assert (Hmod : here mod BLOCK_SIZE = nxt o) by by apply here_mod.
  rewrite Hmod. rewrite (proj2 (Z.ltb_ge _ _)) by lia.
  destruct (frag_head kind d) as (h & Hfr & Hh & Hdec).
  assert (Hdata : data = (pre ++ padb o) ++ h ++ d ++ rest).
  { unfold data. rewrite Hfr, <- !app_assoc. done. }
  assert (Hlen : len data = here + HEADER_SIZE + len d + len rest).
  { rewrite Hdata, !len_app. unfold here. lia. }
  pose proof (len_nonneg rest).
  rewrite (proj2 (Z.ltb_ge _ _)) by lia.
  assert (slice data here (here + HEADER_SIZE) = Ret h) as ->.
  { rewrite Hdata. apply slice_app; rewrite len_app; unfold here; lia. }
  cbn [mbind outcome_bind].
  rewrite Hdec by (unfold is_u16, is_u8, room, BLOCK_SIZE, HEADER_SIZE, LogRecordHeader.SIZE in *; lia).
  cbn [fst LogRecordHeader.length LogRecordHeader.kind LogRecordHeader.crc].
  change (BLOCK_SIZE - nxt o - HEADER_SIZE) with (room o).
  rewrite (proj2 (Z.ltb_ge _ _)) by lia. rewrite (proj2 (Z.ltb_ge _ _)) by lia.
  assert (slice data (here + HEADER_SIZE) (here + HEADER_SIZE + len d) = Ret d) as ->.
  { rewrite Hdata, (app_assoc _ h). apply slice_app; rewrite !len_app; unfold here; lia. }
  rewrite Z.eqb_refl. cbn [negb].
  rewrite (proj2 (Z.eqb_neq kind _)) by (unfold LogRecordHeader.KIND_ZERO; lia). done.
Qed.

Lemma read_frag : LogReader.read_physical (LogReader.mk data (len pre))
  = (Ret (Some (kind, d)), LogReader.mk data (here + (HEADER_SIZE + len d))).
Proof.
  unfold LogReader.read_physical, LogReader.fuel_of. cbn [LogReader.data].
  replace (length data + 8)%nat with (S (length data + 7)) by lia.
  destruct (skip_padding data pre o (length data + 7) Hpre Ho) as (f & Hf & ->). apply read_at_frag. lia.
Qed.
End read_frag.

(** ** Reading a record back *)

Lemma fragment_kind_range b e : 1 <= fragment_kind b e <= 4.
Proof. destruct b, e; cbn; unfold LogRecordHeader.KIND_FULL, LogRecordHeader.KIND_FIRST,
  LogRecordHeader.KIND_LAST, LogRecordHeader.KIND_MIDDLE; lia. Qed.

(** The first fragment of the encoding, and what follows it. *)
Lemma enc_loop_S fuel o left begin :
  let fl := Z.min (len left) (room o) in
  let end_ := len left =? fl in
  let o2 := nxt o + (HEADER_SIZE + fl) in
  let r := if end_ then ([], o2) else enc_loop fuel o2 (zdrop fl left) false in
  enc_loop (S fuel) o left begin
  = (padb o ++ frag (fragment_kind begin end_) (ztake fl left) ++ r.1, r.2).
Proof.
  cbn [enc_loop]. destruct (_ =? _); cbn [fst snd]; [by rewrite app_nil_r|by rewrite <- app_assoc].
Qed.

Lemma assemble_enc fuel m pre o left begin scratch rest :
  stands_at (len pre) o -> in_block o -> rounds o left <= Z.of_nat fuel ->
  let e := (enc_loop fuel o left begin).1 in
  len e <= Z.of_nat m -> (begin = true -> scratch = []) ->
  let data := pre ++ e ++ rest in
  assemble LogReader.read_physical m scratch (negb begin) (LogReader.mk data (len pre))
    = (Ret (Some (scratch ++ left)), LogReader.mk data (len pre + len e)) /\
  stands_at (len pre + len e) (enc_loop fuel o left begin).2.
Proof.
  revert m pre o left begin scratch. induction fuel as [|fuel IH];
    intros m pre o left begin scratch Hpre Ho Hf e Hm Hs data.
  { unfold rounds in Hf. len_pose. destruct (_ =? 0); lia. }
  subst data e. rewrite enc_loop_S in *. cbn [fst snd] in *.
  pose proof (nxt_room o Ho) as [Hn Hr]. pose proof (len_nonneg left) as Hl0.
  remember (Z.min (len left) (room o)) as fl eqn:Efl.
  assert (Hfl : len (ztake fl left) = fl) by (apply len_ztake; lia).
  remember (if len left =? fl then _ else _) as r eqn:Er.
  rewrite <- !app_assoc in *. rewrite !len_app, len_frag, Hfl in *.
  pose proof (len_nonneg (padb o)). pose proof (len_nonneg r.1).
  destruct m as [|m]; [unfold HEADER_SIZE, LogRecordHeader.SIZE in *; lia|]. cbn [assemble].
  pose proof (read_frag pre o (fragment_kind begin (len left =? fl)) (ztake fl left) (r.1 ++ rest)
    Hpre Ho ltac:(lia) (fragment_kind_range _ _)) as Hread. rewrite Hfl in Hread.
  rewrite (action_bind_ret _ _ _ _ _ Hread).
  pose proof (stands_step _ _ (HEADER_SIZE + fl) Hpre Ho) as Hst.
  replace (len pre + (len (padb o) + (HEADER_SIZE + fl + len r.1)))
    with (len pre + len (padb o) + (HEADER_SIZE + fl) + len r.1) by lia.
  destruct (Z.eqb_spec (len left) fl) as [E|E].
  - subst r. cbn [fst snd]. change (len (@nil byte)) with 0. rewrite Z.add_0_r.
    split; [|done]. rewrite (ztake_all left fl) by lia. destruct begin; cbn; [by rewrite Hs|done].
  - destruct (rounds_step o left Ho) as [Ho2 Hr2]; [by rewrite <- Efl|]. rewrite <- Efl in Ho2, Hr2.
    destruct (IH m (pre ++ padb o ++ frag (fragment_kind begin false) (ztake fl left))
      (nxt o + (HEADER_SIZE + fl)) (zdrop fl left) false (scratch ++ ztake fl left)) as [IH1 IH2];
      rewrite <- ?Er.
    + rewrite !len_app, len_frag, Hfl, Z.add_assoc. exact Hst.
    + done.
    + lia.
    + unfold HEADER_SIZE, LogRecordHeader.SIZE in *. lia.
    + done.
    + rewrite <- Er in IH1, IH2. rewrite !len_app, len_frag, Hfl, ?Z.add_assoc in IH1, IH2.
      rewrite <- !app_assoc, ztake_zdrop in IH1. cbn [negb] in IH1. rewrite ?Z.add_assoc.
      split; [|exact IH2]. rewrite <- IH1. destruct begin; cbn; [by rewrite Hs|done].
Qed.

Lemma read_record_enc pre o d rest : stands_at (len pre) o -> in_block o ->
  let e := (enc_record o d).1 in
  LogReader.read_record (LogReader.mk (pre ++ e ++ rest) (len pre))
    = (Ret (Some d), LogReader.mk (pre ++ e ++ rest) (len pre + len e)) /\
  stands_at (len pre + len e) (enc_record o d).2 /\ in_block (enc_record o d).2.
Proof.
  intros Hpre Ho e. unfold LogReader.read_record.
  destruct (assemble_enc (fuel_for d) (LogReader.fuel_of (LogReader.mk (pre ++ e ++ rest) (len pre)))
    pre o d true [] rest Hpre Ho (rounds_fuel o d)) as [H1 H2]; [|done|].
  { unfold LogReader.fuel_of. cbn [LogReader.data]. fold (enc_record o d). fold e.
    unfold len. rewrite !length_app. lia. }
  split; [exact H1|]. split; [exact H2|].
  apply (add_loop_spec (fuel_for d) (LogWriter.mk [] o) d true Ho (rounds_fuel o d)).
Qed.

(** At the end of the data there is nothing more. *)
Lemma physical_end fuel data c : len data < c + HEADER_SIZE ->
  exists r', LogReader.physical_loop (S (S fuel)) (LogReader.mk data c) = (Ret None, r').
Proof.
  intros Hc. remember (S fuel) as f eqn:Ef. cbn [LogReader.physical_loop LogReader.cursor LogReader.data].
  pose proof (Z.mod_pos_bound c BLOCK_SIZE ltac:(done)) as Hb. zcase.
  - subst f. cbn [LogReader.physical_loop LogReader.cursor LogReader.data].
    assert ((c + (BLOCK_SIZE - c mod BLOCK_SIZE)) mod BLOCK_SIZE = 0) as ->.
    { pose proof (Z.div_mod c BLOCK_SIZE ltac:(done)).
      replace (c + _) with (0 + (c / BLOCK_SIZE + 1) * BLOCK_SIZE) by lia. by rewrite Z_mod_plus_full. }
    change (BLOCK_SIZE - 0 <? HEADER_SIZE) with false. cbn iota.
    rewrite (proj2 (Z.ltb_lt _ _)) by lia. by eexists.
  - rewrite (proj2 (Z.ltb_lt _ _)) by done. by eexists.
Qed.

Lemma read_record_end data c : len data < c + HEADER_SIZE ->
  exists r', LogReader.read_record (LogReader.mk data c) = (Ret None, r').
Proof.
  intros Hc. destruct (physical_end (length data + 6) data c Hc) as (r' & Hp). exists r'.
  assert (Hf : LogReader.fuel_of (LogReader.mk data c) = S (S (length data + 6)))
    by (unfold LogReader.fuel_of; cbn [LogReader.data]; lia).
  assert (Hp' : LogReader.read_physical (LogReader.mk data c) = (Ret None, r'))
    by (unfold LogReader.read_physical; by rewrite Hf).
  unfold LogReader.read_record. rewrite Hf. cbn [assemble]. by rewrite (action_bind_ret _ _ _ _ _ Hp').
Qed.

(** Reading until [None], at most [n] records. *)
Fixpoint read_all (n : nat) (r : LogReader.t) : outcome (list bytes) :=
  match n with
  | O => Panic
  | S n =>
      match LogReader.read_record r with
      | (Ret None, _) => Ret []
      | (Ret (Some d), r) => ds ← read_all n r; Ret (d :: ds)
      | (Fail s, _) => Fail s
      | (Panic, _) => Panic
      end
  end.

(** The first [n] records. *)
Fixpoint read_n (n : nat) (r : LogReader.t) : outcome (list bytes * LogReader.t) :=
  match n with
  | O => Ret ([], r)
  | S n =>
      match LogReader.read_record r with
      | (Ret None, _) => Fail (Stat.not_found "")
      | (Ret (Some d), r) => x ← read_n n r; Ret (d :: x.1, x.2)
      | (Fail s, _) => Fail s
      | (Panic, _) => Panic
      end
  end.

Lemma read_n_enc ds pre o rest : stands_at (len pre) o -> in_block o ->
  let e := (enc_records o ds).1 in
  read_n (length ds) (LogReader.mk (pre ++ e ++ rest) (len pre))
    = Ret (ds, LogReader.mk (pre ++ e ++ rest) (len pre + len e)).
Proof.
  revert pre o. induction ds as [|d ds IH]; intros pre o Hpre Ho e.
  { cbn. by rewrite Z.add_0_r. }
  subst e. cbn [enc_records fst length read_n]. rewrite <- app_assoc.
  destruct (read_record_enc pre o d ((enc_records (enc_record o d).2 ds).1 ++ rest) Hpre Ho) as (H1 & H2 & H3).
  rewrite H1. rewrite <- len_app in H2.
  pose proof (IH (pre ++ (enc_record o d).1) (enc_record o d).2 H2 H3) as IH'. cbn zeta in IH'.
  rewrite <- app_assoc, !len_app in IH'. rewrite IH'.
  cbn [mbind outcome_bind fst snd]. by rewrite (len_app (enc_record o d).1), Z.add_assoc.
Qed.

Lemma read_n_all n m ds r r' : read_n n r = Ret (ds, r') -> read_all (n + m) r = (xs ← read_all m r'; Ret (ds ++ xs)).
Proof.
  revert ds r. induction n as [|n IH]; intros ds r H; cbn in *.
  - simplify_eq. by destruct (read_all m r').
  - destruct (LogReader.read_record r) as [[[d|]| |] r1]; try done.
    destruct (read_n n r1) as [[xs r2]| |] eqn:E; try done. cbn in H. simplify_eq.
    rewrite (IH _ _ E). by destruct (read_all m r').
Qed.

(** A sequence of [add_record] calls. *)
Fixpoint write_all (w : LogWriter.t) (ds : list bytes) : outcome LogWriter.t :=
  match ds with
  | [] => Ret w
  | d :: ds => w ← LogWriter.add_record w d; write_all w ds
  end.

Lemma write_all_spec w ds : in_block (LogWriter.block_offset w) ->
  let r := enc_records (LogWriter.block_offset w) ds in
  write_all w ds = Ret (LogWriter.mk (LogWriter.sink w ++ r.1) r.2).
Proof.
  revert w. induction ds as [|d ds IH]; intros w Ho r.
  { cbn. rewrite app_nil_r. by destruct w. }
  subst r. cbn [write_all enc_records]. destruct (add_record_spec w d Ho) as [-> Ho2].
  cbn [mbind outcome_bind]. rewrite IH by done. cbn. by rewrite <- app_assoc.
Qed.

(** ** Arbitrary data: progress of [LogReader] *)

Definition leftover_at (c : Z) : Z := BLOCK_SIZE - c mod BLOCK_SIZE.

Lemma leftover_range c : 1 <= leftover_at c <= BLOCK_SIZE.
Proof. unfold leftover_at. pose proof (Z.mod_pos_bound c BLOCK_SIZE ltac:(done)). lia. Qed.

(** Rounds of [physical_loop] that are enough from cursor [c] of [n] bytes. *)
Definition need_rounds (n c : Z) : Z :=
  if n <? c + HEADER_SIZE then (if leftover_at c <? HEADER_SIZE then 2 else 1)
  else n - HEADER_SIZE - c + 3.

Lemma need_rounds_pos n c : 1 <= need_rounds n c.
Proof. unfold need_rounds. repeat zcase; lia. Qed.

Lemma leftover_next c : leftover_at (c + leftover_at c) = BLOCK_SIZE.
Proof.
  unfold leftover_at. pose proof (Z.div_mod c BLOCK_SIZE ltac:(done)).
  replace (c + _) with (0 + (c / BLOCK_SIZE + 1) * BLOCK_SIZE) by lia. rewrite Z_mod_plus_full.
  change (0 mod BLOCK_SIZE) with 0. lia.
Qed.

Lemma need_rounds_skip n c : leftover_at c < HEADER_SIZE ->
  need_rounds n (c + leftover_at c) + 1 <= need_rounds n c.
Proof.
  intros Hl. pose proof (leftover_range c). unfold need_rounds at 1. rewrite leftover_next.
  change (BLOCK_SIZE <? HEADER_SIZE) with false. cbn iota. unfold need_rounds.
  rewrite (proj2 (Z.ltb_lt (leftover_at c) _)) by done.
  unfold HEADER_SIZE, LogRecordHeader.SIZE in *. repeat zcase; lia.
Qed.

Lemma need_rounds_adv n c d : HEADER_SIZE <= d -> c + d <= n -> need_rounds n (c + d) + 1 <= need_rounds n c.
Proof. unfold need_rounds, HEADER_SIZE, LogRecordHeader.SIZE. intros. repeat zcase; lia. Qed.

(** The test of one header and payload, shared by the readers: [c] is the offset in [d] of
    the header, [avail] the room left in the block after it. *)
Definition check_at (d : bytes) (c avail : Z) : outcome (Z * bytes) :=
  h ← slice d c (c + HEADER_SIZE);
  header ← (LogRecordHeader.decode_from h).1;
  let l := LogRecordHeader.length header in
  if avail <? l then Fail (Stat.corruption "LogReader: record extends past block end")
  else if len d <? c + HEADER_SIZE + l then Fail (Stat.corruption "LogReader: truncated payload")
  else
    payload ← slice d (c + HEADER_SIZE) (c + HEADER_SIZE + l);
    if negb (extend (value [as_u8 (LogRecordHeader.kind header)]) payload =? LogRecordHeader.crc header)
    then Fail (Stat.corruption "LogReader: bad record CRC")
    else Ret (LogRecordHeader.kind header, payload).

Lemma decode_header_ok h : len h = HEADER_SIZE ->
  exists hd, (LogRecordHeader.decode_from h).1 = Ret hd /\ 0 <= LogRecordHeader.length hd.
Proof.
  intros Hl. unfold HEADER_SIZE, LogRecordHeader.SIZE in Hl.
  assert (H3 : exists a b k, h = a ++ b ++ [k] /\ len a = 4 /\ len b = 2).
  { exists (ztake 4 h), (ztake 2 (zdrop 4 h)).
    assert (len (zdrop 4 h) = 3) by (rewrite len_zdrop; lia).
    assert (len (zdrop 2 (zdrop 4 h)) = 1) as H1 by (rewrite len_zdrop; lia).
    destruct (zdrop 2 (zdrop 4 h)) as [|k [|]] eqn:E; [done| |rewrite !len_cons in H1; len_lia].
    exists k. rewrite <- E, !ztake_zdrop. rewrite !len_ztake by lia. done. }
  destruct H3 as (a & b & k & -> & Ha & Hb). unfold LogRecordHeader.decode_from.
  rewrite <- (le_split_combine_id 4 a), <- (le_split_combine_id 2 b) by done.
  pose proof (le_combine_range a) as Ra. pose proof (le_combine_range b) as Rb.
  rewrite Ha in Ra. rewrite Hb in Rb.
  erewrite action_bind_ret by (apply need_some, get_fixed32_app, Ra).
  erewrite action_bind_ret by (apply need_some, get_fixed16_app, Rb).
  erewrite action_bind_ret by (apply need_some; reflexivity).
  eexists. split; [reflexivity|]. cbn. lia.
Qed.

(** What [check_at] gives: never a panic, and on success a payload that fits. *)
Lemma check_at_spec d c avail : 0 <= c -> c + HEADER_SIZE <= len d ->
  match check_at d c avail with
  | Ret (k, p) => c + HEADER_SIZE + len p <= len d /\ len p <= avail
  | Fail _ => True
  | Panic => False
  end.
Proof.
  intros Hc Hd. unfold check_at.
  assert (HH : 0 <= HEADER_SIZE) by done.
  rewrite slice_ok by lia. cbn [mbind outcome_bind].
  set (h := ztake _ _). assert (Hh : len h = HEADER_SIZE).
  { unfold h. rewrite len_ztake; rewrite ?len_zdrop; lia. }
  destruct (decode_header_ok h Hh) as (hd & -> & Hl0). cbn [mbind outcome_bind].
  destruct (Z.ltb_spec avail (LogRecordHeader.length hd)); [done|].
  destruct (Z.ltb_spec (len d) (c + HEADER_SIZE + LogRecordHeader.length hd)); [done|].
  rewrite slice_ok by lia. cbn [mbind outcome_bind]. destruct (negb _); [done|].
  rewrite len_ztake; rewrite ?len_zdrop; lia.
Qed.

(** One round of [LogReader]'s loop. *)
Lemma physical_loop_S fuel d c :
  LogReader.physical_loop (S fuel) (LogReader.mk d c) =
  if leftover_at c <? HEADER_SIZE
  then LogReader.physical_loop fuel (LogReader.mk d (c + leftover_at c))
  else if len d <? c + HEADER_SIZE then (Ret None, LogReader.mk d c)
  else
    match check_at d c (leftover_at c - HEADER_SIZE) with
    | Ret (k, p) =>
        let r := LogReader.mk d (c + (HEADER_SIZE + len p)) in
        if (k =? LogRecordHeader.KIND_ZERO) && (len p =? 0)
        then LogReader.physical_loop fuel r else (Ret (Some (k, p)), r)
    | Fail s => (Fail s, LogReader.mk d c)
    | Panic => (Panic, LogReader.mk d c)
    end.
Proof.
  cbn [LogReader.physical_loop LogReader.cursor LogReader.data]. fold (leftover_at c).
  destruct (_ <? HEADER_SIZE); [done|]. destruct (len d <? _); [done|]. unfold check_at.
  destruct (slice d c (c + HEADER_SIZE)) as [h| |]; cbn [mbind outcome_bind]; [|done..].
  destruct (LogRecordHeader.decode_from h).1 as [hd| |]; cbn [mbind outcome_bind]; [|done..].
  change (BLOCK_SIZE - c mod BLOCK_SIZE - HEADER_SIZE) with (leftover_at c - HEADER_SIZE).
  destruct (_ <? LogRecordHeader.length hd); [done|].
  destruct (len d <? _); [done|].
  destruct (slice d (c + HEADER_SIZE) _) as [p| |] eqn:E; cbn [mbind outcome_bind]; [|done..].
  destruct (negb _); [done|].
  assert (len p = LogRecordHeader.length hd) as ->; [|done].
  unfold slice in E. destruct (_ && _) eqn:Eb in E; [|done]. simplify_eq.
  rewrite !andb_true_iff, !Z.leb_le in Eb. rewrite len_ztake; rewrite ?len_zdrop; lia.
Qed.

Lemma physical_total fuel d c : 0 <= c -> need_rounds (len d) c <= Z.of_nat fuel ->
  match LogReader.physical_loop fuel (LogReader.mk d c) with
  | (Ret (Some _), r) => LogReader.data r = d /\ c + HEADER_SIZE <= LogReader.cursor r <= len d
  | (Ret None, r) => LogReader.data r = d /\ len d < LogReader.cursor r + HEADER_SIZE
  | (Fail _, r) => LogReader.data r = d /\ 0 <= LogReader.cursor r
  | (Panic, _) => False
  end.
Proof.
  revert c. induction fuel as [|fuel IH]; intros c Hc Hf.
  { pose proof (need_rounds_pos (len d) c). lia. }
  assert (HH : 0 <= HEADER_SIZE) by done.
  rewrite physical_loop_S. pose proof (leftover_range c) as Hlo.
  destruct (Z.ltb_spec (leftover_at c) HEADER_SIZE) as [Hs|Hs].
  { pose proof (need_rounds_skip (len d) c Hs). specialize (IH (c + leftover_at c) ltac:(lia) ltac:(lia)).
    repeat case_match; try done. destruct IH as [? ?]. split; [done|lia]. }
  destruct (Z.ltb_spec (len d) (c + HEADER_SIZE)) as [He|He]; [by split|].
  pose proof (check_at_spec d c (leftover_at c - HEADER_SIZE) Hc He) as Hck.
  destruct (check_at _ _ _) as [[k p]| |]; [|by split|done].
  destruct Hck as [Hp _]. pose proof (len_nonneg p). destruct (_ && _).
  - pose proof (need_rounds_adv (len d) c (HEADER_SIZE + len p) ltac:(lia) ltac:(lia)).
    specialize (IH (c + (HEADER_SIZE + len p)) ltac:(unfold HEADER_SIZE, LogRecordHeader.SIZE; lia) ltac:(lia)).
    repeat case_match; try done. destruct IH as [? ?]. split; [done|lia].
  - cbn. split; [done|lia].
Qed.

Lemma read_physical_total d c : 0 <= c ->
  match LogReader.read_physical (LogReader.mk d c) with
  | (Ret (Some _), r) => LogReader.data r = d /\ c + HEADER_SIZE <= LogReader.cursor r <= len d
  | (Ret None, r) => LogReader.data r = d /\ len d < LogReader.cursor r + HEADER_SIZE
  | (Fail _, r) => LogReader.data r = d /\ 0 <= LogReader.cursor r
  | (Panic, _) => False
  end.
Proof.
  intros Hc. apply physical_total; [done|]. unfold LogReader.fuel_of, need_rounds. cbn [LogReader.data].
  pose proof (len_nonneg d). unfold HEADER_SIZE, LogRecordHeader.SIZE, len in *. repeat zcase; lia.
Qed.

(** ** Simulation of readers *)

(** Two physical readers in step: same outcome, never a panic, and related states. *)
Definition in_step {S1 S2} (R : S1 -> S2 -> Prop) (mu : S1 -> Z)
    (m1 : action S1 (option (Z * bytes))) (m2 : action S2 (option (Z * bytes))) : Prop :=
  forall s1 s2, R s1 s2 ->
    exists o s1' s2', m1 s1 = (o, s1') /\ m2 s2 = (o, s2') /\ R s1' s2' /\ o <> Panic /\
      (forall x, o = Ret (Some x) -> mu s1' < mu s1) /\ 0 <= mu s1.

Lemma assemble_in_step {S1 S2} (R : S1 -> S2 -> Prop) mu m1 m2 : in_step R mu m1 m2 ->
  forall f1 f2 scratch frag s1 s2, R s1 s2 -> mu s1 < Z.of_nat f1 -> mu s1 < Z.of_nat f2 ->
    exists o s1' s2', assemble m1 f1 scratch frag s1 = (o, s1') /\
      assemble m2 f2 scratch frag s2 = (o, s2') /\ R s1' s2' /\ o <> Panic.
Proof.
  intros Hstep f1. induction f1 as [|f1 IH]; intros f2 scratch frag s1 s2 HR H1 H2.
  { destruct (Hstep s1 s2 HR) as (_ & _ & _ & _ & _ & _ & _ & _ & ?). lia. }
  destruct (Hstep s1 s2 HR) as (o & s1' & s2' & E1 & E2 & HR' & Hp & Hmu & Hpos).
  destruct f2 as [|f2]; [lia|]. cbn [assemble].
  destruct o as [[[k p]|]|e|]; [| |by rewrite (action_bind_fail _ _ _ _ _ E1), (action_bind_fail _ _ _ _ _ E2); do 3 eexists|done].
  2: { rewrite (action_bind_ret _ _ _ _ _ E1), (action_bind_ret _ _ _ _ _ E2).
       destruct frag; by do 3 eexists. }
  rewrite (action_bind_ret _ _ _ _ _ E1), (action_bind_ret _ _ _ _ _ E2).
  specialize (Hmu _ eq_refl).
  repeat match goal with
    | |- context [if ?k =? ?c then _ else _] => destruct (k =? c)
    end; destruct frag; cbn [negb]; try by do 3 eexists.
  all: apply IH; [done|lia|lia].
Qed.

(** *** [LogSequentialReader] is in step with [LogReader] *)

Section sequential.
Context {W : Type} `{HE : Env W} (seq_ok : Sequential -> Prop) (rest : Sequential -> bytes)
        {HL : SequentialLaws seq_ok rest}.
Implicit Types s : LogSequentialReader.t (W:=W).
Import LogSequentialReader.

(** The block held is part of the data, and the cursors agree. *)
Record live (r : LogReader.t) s : Prop := {
  live_eof : eof s = false;
  live_ok : seq_ok (file s);
  live_data : exists pre q, LogReader.data r = pre ++ block s ++ rest (file s) /\
    len pre = q * BLOCK_SIZE /\ 0 <= q /\ LogReader.cursor r = len pre + block_offset s;
  live_offset : 0 <= block_offset s <= len (block s);
  live_block : len (block s) <= BLOCK_SIZE;
  live_full : len (block s) = BLOCK_SIZE \/ rest (file s) = [] \/ block s = [];
}.

(** Both are at the end for good. *)
Record dead (r : LogReader.t) s : Prop := {
  dead_eof : eof s = true;
  dead_cursor : 0 <= LogReader.cursor r /\ len (LogReader.data r) < LogReader.cursor r + HEADER_SIZE;
  dead_block : len (block s) <= block_offset s \/
    (len (block s) - block_offset s < HEADER_SIZE /\ len (block s) < BLOCK_SIZE);
}.

Definition related (r : LogReader.t) (s : LogSequentialReader.t * W) : Prop :=
  live r s.1 \/ dead r s.1.

Lemma mod_at q o : 0 <= o < BLOCK_SIZE -> (q * BLOCK_SIZE + o) mod BLOCK_SIZE = o.
Proof. intros. rewrite Z.add_comm, Z_mod_plus_full. by apply Z.mod_small. Qed.

Lemma physical_none fuel r : len (LogReader.data r) < LogReader.cursor r + HEADER_SIZE ->
  need_rounds (len (LogReader.data r)) (LogReader.cursor r) <= Z.of_nat fuel ->
  exists r', LogReader.physical_loop fuel r = (Ret None, r') /\
    LogReader.data r' = LogReader.data r /\ LogReader.cursor r <= LogReader.cursor r' .
Proof.
  destruct r as [d c]. cbn [LogReader.data LogReader.cursor]. intros Hc Hf.
  pose proof (leftover_range c). unfold need_rounds in Hf. rewrite (proj2 (Z.ltb_lt _ _)) in Hf by done.
  destruct fuel as [|fuel]; [destruct (_ <? _); lia|]. rewrite physical_loop_S.
  destruct (leftover_at c <? HEADER_SIZE).
  - destruct fuel as [|fuel]; [lia|]. rewrite physical_loop_S, leftover_next.
    change (BLOCK_SIZE <? HEADER_SIZE) with false. cbn iota. rewrite (proj2 (Z.ltb_lt _ _)) by lia.
    eexists. split; [done|]. cbn. split; [done|lia].
  - rewrite (proj2 (Z.ltb_lt _ _)) by done. eexists. split; [done|]. cbn. split; [done|lia].
Qed.

Lemma slice_mid (pre b post : bytes) x y : 0 <= x -> x <= y -> y <= len b ->
  slice (pre ++ b ++ post) (len pre + x) (len pre + y) = slice b x y.
Proof.
  intros. rewrite !slice_ok by (rewrite ?len_app; len_pose; lia). f_equal.
  rewrite zdrop_app_ge by lia. replace (len pre + x - len pre) with x by lia.
  rewrite zdrop_app_le by lia. replace (len pre + y - (len pre + x)) with (y - x) by lia.
  apply ztake_app_le. rewrite len_zdrop; lia.
Qed.

(** The two tests of a header agree when the block is full or the file is exhausted. *)
Lemma check_mid (pre b post : bytes) x avail : 0 <= x -> x + HEADER_SIZE <= len b ->
  (post = [] \/ x + HEADER_SIZE + avail <= len b) ->
  check_at (pre ++ b ++ post) (len pre + x) avail = check_at b x avail.
Proof.
  intros Hx Hb Hpost. unfold check_at. assert (HH : 0 <= HEADER_SIZE) by done.
  rewrite <- !Z.add_assoc. rewrite slice_mid by lia.
  destruct (slice b x (x + HEADER_SIZE)) as [h| |] eqn:E; cbn [mbind outcome_bind]; [|done..].
  destruct (LogRecordHeader.decode_from h).1 as [hd| |] eqn:Ed; cbn [mbind outcome_bind]; [|done..].
  assert (Hl0 : 0 <= LogRecordHeader.length hd).
  { assert (Hh : len h = HEADER_SIZE).
    { rewrite slice_ok in E by lia. simplify_eq. rewrite len_ztake; rewrite ?len_zdrop; lia. }
    destruct (decode_header_ok h Hh) as (hd' & E' & Hl). rewrite E' in Ed. by simplify_eq. }
  destruct (Z.ltb_spec avail (LogRecordHeader.length hd)); [done|]. rewrite <- !Z.add_assoc.
  assert ((len (pre ++ b ++ post) <? len pre + (x + (HEADER_SIZE + LogRecordHeader.length hd)))
    = (len b <? x + (HEADER_SIZE + LogRecordHeader.length hd))) as ->.
  { rewrite !len_app. destruct Hpost as [->|Hfit].
    - change (len (@nil byte)) with 0. destruct (Z.ltb_spec (len b) (x + (HEADER_SIZE + LogRecordHeader.length hd)));
        [apply Z.ltb_lt|apply Z.ltb_ge]; lia.
    - len_pose. rewrite !(proj2 (Z.ltb_ge _ _)) by lia. done. }
  destruct (Z.ltb_spec (len b) (x + (HEADER_SIZE + LogRecordHeader.length hd))); [done|].
  by rewrite slice_mid by lia.
Qed.

(** One step of the sequential reader over a block in hand. *)
Lemma physical_step_eq s : 0 <= block_offset s <= len (block s) -> len (block s) <= BLOCK_SIZE ->
  physical_step s =
  if len (block s) - block_offset s <? HEADER_SIZE then
    if len (block s) <? BLOCK_SIZE
    then (Ret (inr None), mk (file s) (block s) (block_offset s) true)
    else (Ret (inl (mk (file s) (block s) (len (block s)) (eof s))), s)
  else
    match check_at (block s) (block_offset s) (BLOCK_SIZE - block_offset s - HEADER_SIZE) with
    | Ret (k, p) =>
        let r := mk (file s) (block s) (block_offset s + (HEADER_SIZE + len p)) (eof s) in
        if (k =? LogRecordHeader.KIND_ZERO) && (len p =? 0) then (Ret (inl r), r)
        else (Ret (inr (Some (k, p))), r)
    | Fail e => (Fail e, s)
    | Panic => (Panic, s)
    end.
Proof.
  intros Ho Hb. unfold physical_step. destruct (_ <? HEADER_SIZE); [done|]. unfold check_at.
  destruct (slice (block s) _ (_ + HEADER_SIZE)) as [h| |]; cbn [mbind outcome_bind]; [|done..].
  destruct (LogRecordHeader.decode_from h).1 as [hd| |]; cbn [mbind outcome_bind]; [|done..].
  destruct (_ <? LogRecordHeader.length hd); [done|]. destruct (len (block s) <? _); [done|].
  destruct (slice (block s) (_ + HEADER_SIZE) _) as [p| |] eqn:E; cbn [mbind outcome_bind]; [|done..].
  destruct (negb _); [done|].
  assert (len p = LogRecordHeader.length hd) as ->; [|done].
  unfold slice in E. destruct (_ && _) eqn:Eb in E; [|done]. simplify_eq.
  rewrite !andb_true_iff, !Z.leb_le in Eb. rewrite len_ztake; rewrite ?len_zdrop; lia.
Qed.

(** What [physical_loop] may return on each side. *)
Definition agree (x : outcome (option (Z * bytes)) * LogReader.t)
    (y : outcome (option (Z * bytes)) * (LogSequentialReader.t * W)) : Prop :=
  x.1 = y.1 /\ related x.2 y.2.

(** A fill leaves the pair live with a block in hand, or at the end. *)
Lemma fill_live r s w : live r s -> len (block s) <= block_offset s ->
  exists s', fill_block (s, w) = (Ret tt, (s', w)) /\
    ((eof s' = false /\ live r s' /\ block_offset s' < len (block s')) \/
     (eof s' = true /\ len (block s') <= block_offset s' /\
      len (LogReader.data r) = LogReader.cursor r)).
Proof.
  intros [H1 H2 (pre & q & Hd & Hpre & Hq & Hc) H4 H5 H6] Hle. unfold fill_block. cbn [fst snd]. rewrite H1.
  destruct (seq_read_law (file s) BLOCK_SIZE w H2 ltac:(done)) as (f' & -> & Hok & Hrest).
  eexists. split; [reflexivity|]. cbn [eof block block_offset]. rewrite orb_false_r.
  set (b := ztake BLOCK_SIZE (rest (file s))).
  case_bool_decide as Hb; [right|left].
  - split; [done|]. rewrite Hb. split; [done|].
    assert (Hr : rest (file s) = []).
    { apply len_0_nil. apply (f_equal len) in Hb. unfold b in Hb.
      rewrite len_ztake_min in Hb by done. change (len (@nil byte)) with 0 in Hb. len_pose.
      unfold BLOCK_SIZE in Hb. lia. }
    rewrite Hd, Hr, app_nil_r, len_app. lia.
  - split; [done|]. assert (Hbl : 0 < len b) by (destruct b; [done|rewrite len_cons; len_pose; lia]).
    split; [|done]. split; cbn; try done.
    + rewrite Hrest. fold b. destruct H6 as [Hfull|[Hr|Hnil]].
      * exists (pre ++ block s), (q + 1). rewrite <- app_assoc. unfold b. rewrite ztake_zdrop.
        rewrite len_app. split_and!; [done|lia|lia|lia].
      * exfalso. apply Hb. unfold b. by rewrite Hr.
      * exists pre, q. unfold b. rewrite ztake_zdrop, Hd, Hnil. rewrite Hnil in H4, Hle.
        change (len (@nil byte)) with 0 in *. split_and!; [done|done|done|lia].
    + lia.
    + unfold b. rewrite len_ztake_min by done. lia.
    + rewrite Hrest. fold b. destruct (Z.le_gt_cases BLOCK_SIZE (len (rest (file s)))) as [Hbig|Hsmall].
      * left. apply len_ztake. unfold BLOCK_SIZE in *. lia.
      * right. left. apply zdrop_all. lia.
Qed.

(** The step on a live pair with a block in hand. *)
Lemma step_live r s fuel : live r s -> block_offset s < len (block s) ->
  match physical_step s with
  | (Ret (inl s'), _) =>
      exists r', LogReader.physical_loop (S fuel) r = LogReader.physical_loop fuel r' /\ live r' s' /\
        LogReader.data r' = LogReader.data r /\ LogReader.cursor r <= LogReader.cursor r' /\
        need_rounds (len (LogReader.data r)) (LogReader.cursor r') + 1
          <= need_rounds (len (LogReader.data r)) (LogReader.cursor r)
  | (Ret (inr (Some x)), s') =>
      exists r', LogReader.physical_loop (S fuel) r = (Ret (Some x), r') /\ live r' s'
  | (Ret (inr None), s') =>
      len (LogReader.data r) < LogReader.cursor r + HEADER_SIZE /\ eof s' = true /\
      block s' = block s /\ block_offset s' = block_offset s /\
      len (block s) - block_offset s < HEADER_SIZE /\ len (block s) < BLOCK_SIZE
  | (Fail e, s') =>
      exists r', LogReader.physical_loop (S fuel) r = (Fail e, r') /\ live r' s'
  | (Panic, _) => False
  end.
Proof.
  intros Hlive Hlt. pose proof Hlive as [H1 H2 (pre & q & Hd & Hpre & Hq & Hc) H4 H5 H6].
  rewrite physical_step_eq by done. destruct r as [d c]. cbn [LogReader.data LogReader.cursor] in *.
  assert (Hmod : leftover_at c = BLOCK_SIZE - block_offset s).
  { unfold leftover_at. rewrite Hc, Hpre, mod_at by lia. done. }
  assert (HH : 0 <= HEADER_SIZE) by done.
  assert (Hnb : block s <> []).
  { intros E. rewrite E in Hlt, H4. change (len (@nil byte)) with 0 in *. lia. }
  destruct (Z.ltb_spec (len (block s) - block_offset s) HEADER_SIZE) as [Hs|Hs].
  - destruct (Z.ltb_spec (len (block s)) BLOCK_SIZE) as [Hshort|Hfull].
    + cbn [eof block block_offset]. destruct H6 as [?|[Hr|?]]; [lia| |done].
      split_and!; try done. rewrite Hd, Hr, app_nil_r, len_app. lia.
    + assert (Hf : len (block s) = BLOCK_SIZE) by lia.
      exists (LogReader.mk d (c + leftover_at c)). rewrite physical_loop_S.
      rewrite (proj2 (Z.ltb_lt (leftover_at c) _)) by lia. split; [done|].
      cbn [LogReader.data LogReader.cursor]. split_and!; [|done|lia|apply need_rounds_skip; lia].
      split; cbn; [done|done| |lia|lia|by left]. exists pre, q. split_and!; [done|done|done|lia].
  - assert (Hck : check_at d c (leftover_at c - HEADER_SIZE)
      = check_at (block s) (block_offset s) (BLOCK_SIZE - block_offset s - HEADER_SIZE)).
    { rewrite Hmod, Hd, Hc. apply check_mid; [lia|lia|].
      destruct H6 as [Hf|[Hr|?]]; [right; lia|left; done|done]. }
    pose proof (check_at_spec (block s) (block_offset s) (BLOCK_SIZE - block_offset s - HEADER_SIZE)
      ltac:(lia) ltac:(lia)) as Hspec.
    assert (Hloop : LogReader.physical_loop (S fuel) (LogReader.mk d c) =
      match check_at (block s) (block_offset s) (BLOCK_SIZE - block_offset s - HEADER_SIZE) with
      | Ret (k, p) =>
          let r := LogReader.mk d (c + (HEADER_SIZE + len p)) in
          if (k =? LogRecordHeader.KIND_ZERO) && (len p =? 0)
          then LogReader.physical_loop fuel r else (Ret (Some (k, p)), r)
      | Fail e => (Fail e, LogReader.mk d c)
      | Panic => (Panic, LogReader.mk d c)
      end).
    { rewrite physical_loop_S, (proj2 (Z.ltb_ge (leftover_at c) _)) by lia.
      rewrite (proj2 (Z.ltb_ge _ _)) by (rewrite Hd, !len_app, Hc; len_pose; lia). by rewrite Hck. }
    rewrite Hloop. clear Hloop Hck.
    destruct (check_at _ _ _) as [[k p]| |]; [|by eexists|done].
    destruct Hspec as [Hfit _]. pose proof (len_nonneg p).
    assert (Hnext : live (LogReader.mk d (c + (HEADER_SIZE + len p)))
      (mk (file s) (block s) (block_offset s + (HEADER_SIZE + len p)) (eof s))).
    { split; cbn; [done|done| |lia|lia|done]. exists pre, q. split_and!; [done|done|done|lia]. }
    cbn zeta. destruct (_ && _).
    + eexists. split; [done|]. cbn [LogReader.data LogReader.cursor]. split_and!; [done|done|lia|].
      apply need_rounds_adv; [lia|]. rewrite Hd, !len_app. len_pose. lia.
    + by eexists.
Qed.

Lemma physical_loops_agree f1 : forall f2 r s w, live r s -> 0 <= LogReader.cursor r ->
  need_rounds (len (LogReader.data r)) (LogReader.cursor r) <= Z.of_nat f1 ->
  need_rounds (len (LogReader.data r)) (LogReader.cursor r) <= Z.of_nat f2 ->
  agree (LogReader.physical_loop f1 r) (LogSequentialReader.physical_loop f2 (s, w)).
Proof.
  induction f1 as [|f1 IH]; intros f2 r s w Hlive Hc0 Hf1 Hf2.
  { pose proof (need_rounds_pos (len (LogReader.data r)) (LogReader.cursor r)). lia. }
  pose proof (need_rounds_pos (len (LogReader.data r)) (LogReader.cursor r)).
  destruct f2 as [|f2]; [lia|]. cbn [LogSequentialReader.physical_loop fst snd].
  assert (Hdead : forall s', eof s' = true ->
    len (LogReader.data r) < LogReader.cursor r + HEADER_SIZE ->
    (len (block s') <= block_offset s' \/
      (len (block s') - block_offset s' < HEADER_SIZE /\ len (block s') < BLOCK_SIZE)) ->
    agree (LogReader.physical_loop (S f1) r) (Ret None, (s', w))).
  { intros s' He Hcur Hb. destruct (physical_none (S f1) r Hcur Hf1) as (r' & -> & Hd' & Hcc).
    split; [done|]. right. split; cbn; [done|rewrite Hd'; lia|done]. }
  assert (Hstep : forall s', live r s' -> block_offset s' < len (block s') ->
    agree (LogReader.physical_loop (S f1) r)
      match physical_step s' with
      | (Ret (inl r), _) => LogSequentialReader.physical_loop f2 (r, w)
      | (Ret (inr o), r) => (Ret o, (r, w))
      | (Fail e, r) => (Fail e, (r, w))
      | (Panic, r) => (Panic, (r, w))
      end).
  { intros s' Hl Hlt. pose proof (step_live r s' f1 Hl Hlt) as Hs.
    destruct (physical_step s') as [[[s1|[x|]]|e|] s2].
    - destruct Hs as (r' & -> & Hl' & Hd' & Hcc & Hneed). rewrite <- Hd' in Hneed.
      apply IH; [done|lia|rewrite Hd' in *; lia..].
    - destruct Hs as (r' & -> & Hl'). split; [done|]. by left.
    - destruct Hs as (Hcur & He & Hb & Ho & Hx & Hy). apply Hdead; [done|done|right].
      by rewrite Hb, Ho.
    - destruct Hs as (r' & -> & Hl'). split; [done|]. by left.
    - done. }
  destruct (Z.leb_spec (len (block s)) (block_offset s)) as [Hle|Hgt].
  - destruct (fill_live r s w Hlive Hle) as (s' & -> & [(He & Hl & Hlt)|(He & Hlt & Hcur)]);
      cbn [fst snd]; rewrite He.
    + by apply Hstep.
    + apply Hdead; [done| |by left]. unfold HEADER_SIZE, LogRecordHeader.SIZE. lia.
  - by apply Hstep.
Qed.

(** Both at the end stay there. *)
Lemma dead_agree f1 f2 r s w : dead r s ->
  need_rounds (len (LogReader.data r)) (LogReader.cursor r) <= Z.of_nat f1 -> (0 < f2)%nat ->
  agree (LogReader.physical_loop f1 r) (LogSequentialReader.physical_loop f2 (s, w)).
Proof.
  intros [He [Hc0 Hcur] Hb] Hf1 Hf2. destruct (physical_none f1 r Hcur Hf1) as (r' & -> & Hd' & Hcc).
  destruct f2 as [|f2]; [lia|]. cbn [LogSequentialReader.physical_loop fst snd].
  assert (Hr' : 0 <= LogReader.cursor r' /\ len (LogReader.data r') < LogReader.cursor r' + HEADER_SIZE)
    by (rewrite Hd'; lia).
  destruct (Z.leb_spec (len (block s)) (block_offset s)) as [Hle|Hgt].
  - unfold fill_block. cbn [fst]. rewrite He. cbn [fst]. rewrite He. split; [done|]. right. by split.
  - destruct Hb as [?|[Hb1 Hb2]]; [lia|]. unfold physical_step.
    rewrite (proj2 (Z.ltb_lt _ _)) by done. rewrite (proj2 (Z.ltb_lt _ _)) by done.
    split; [done|]. right. split; cbn; [done|done|by right].
Qed.

Lemma need_le (d : bytes) c : 0 <= c -> need_rounds (len d) c <= len d + 8.
Proof.
  intros Hc. pose proof (len_nonneg d). unfold need_rounds, HEADER_SIZE, LogRecordHeader.SIZE.
  repeat zcase; lia.
Qed.

Definition joint (d : bytes) (r : LogReader.t) (s : LogSequentialReader.t * W) : Prop :=
  related r s /\ LogReader.data r = d /\ 0 <= LogReader.cursor r.
Definition bytes_left (r : LogReader.t) : Z := Z.max 0 (len (LogReader.data r) - LogReader.cursor r).

Lemma readers_in_step d fuel : len d + 8 <= Z.of_nat fuel ->
  in_step (joint d) bytes_left LogReader.read_physical (read_physical fuel).
Proof.
  intros Hf r [s w] (Hrel & Hd & Hc).
  assert (Hag : agree (LogReader.read_physical r) (read_physical fuel (s, w))).
  { pose proof (need_le d (LogReader.cursor r) Hc) as Hn. rewrite <- Hd in Hn.
    unfold LogReader.read_physical, read_physical, LogReader.fuel_of.
    destruct Hrel as [Hl|Hl]; [apply physical_loops_agree|apply dead_agree]; try done;
      unfold len in *; rewrite ?Hd in *; lia. }
  destruct r as [d' c]. cbn [LogReader.data LogReader.cursor] in *. subst d'.
  pose proof (read_physical_total d c Hc) as Ht.
  destruct (LogReader.read_physical _) as [o r']. destruct (read_physical fuel (s, w)) as [o' s'].
  destruct Hag as [Ho Hr]. cbn [fst snd] in Ho, Hr. subst o'. exists o, r', s'.
  split; [done|]. split; [done|]. unfold joint, bytes_left. cbn [LogReader.data LogReader.cursor].
  assert (HH : 0 < HEADER_SIZE) by done.
  destruct o as [[x|]|e|]; [| | |done].
  - destruct Ht as [Hd' Hc']. rewrite Hd'. split_and!; try done; try lia.
  - destruct Ht as [Hd' Hc']. rewrite Hd'. split_and!; try done; try lia.
    destruct Hr as [Hl|Hl]; [|by destruct Hl as [_ [? _] _]].
    destruct Hl as [_ _ (pre & q & _ & ? & ? & ?) ? _ _]. unfold BLOCK_SIZE in *. lia.
  - destruct Ht as [Hd' Hc']. by split_and!; [..|lia].
Qed.

Lemma new_joint f w : seq_ok f -> joint (rest f) (LogReader.new (rest f)) (new f, w).
Proof.
  intros Hok. split; [left|by split]. split; [done|done|by exists [], 0|done|done|by right; right].
Qed.
End sequential.

(** The results of [n] calls of a reader. *)
Fixpoint results {S} (read : action S (option bytes)) (n : nat) (s : S) : list (outcome (option bytes)) :=
  match n with
  | O => []
  | Datatypes.S n => let '(o, s') := read s in o :: results read n s'
  end.

Lemma results_in_step {S1 S2} (R : S1 -> S2 -> Prop) mu m1 m2 (f1 : S1 -> nat) (f2 : nat) :
  in_step R mu m1 m2 ->
  (forall s1 s2, R s1 s2 -> mu s1 < Z.of_nat (f1 s1) /\ mu s1 < Z.of_nat f2) ->
  forall n s1 s2, R s1 s2 ->
    results (fun s => assemble m1 (f1 s) [] false s) n s1 = results (assemble m2 f2 [] false) n s2 /\
    Panic ∉ results (fun s => assemble m1 (f1 s) [] false s) n s1.
Proof.
  intros Hstep Hmu n. induction n as [|n IH]; intros s1 s2 HR; cbn [results].
  { split; [done|]. by apply not_elem_of_nil. }
  destruct (Hmu _ _ HR) as [Hm1 Hm2].
  destruct (assemble_in_step R mu m1 m2 Hstep (f1 s1) f2 [] false s1 s2 HR Hm1 Hm2)
    as (o & s1' & s2' & -> & -> & HR' & Hp).
  destruct (IH _ _ HR') as [-> Hnp]. split; [done|]. rewrite not_elem_of_cons. by split; [intros <-|].
Qed.

(** ** Writing to a file *)

Section dest.
Context {W : Type} `{HE : Env W} (is_open : Writable -> Prop) (contents : Writable -> W -> bytes)
        {HL : WritableLaws is_open contents}.

Lemma on_file_append dest d (lw : LogWriter.t) w : is_open dest ->
  exists w', LogWriter.on_file (w_append dest d) (lw, w) = (Ret tt, (lw, w')) /\
    contents dest w' = contents dest w ++ d.
Proof.
  intros Ho. unfold LogWriter.on_file. cbn [fst snd].
  destruct (append_law dest d w Ho) as (w' & -> & Hc). by exists w'.
Qed.

(** Appending a possibly empty slice behind an emptiness test. *)
Lemma append_opt dest d (lw : LogWriter.t) w : is_open dest ->
  exists w', (if negb (bool_decide (d = [])) then LogWriter.on_file (w_append dest d) else mret tt) (lw, w)
    = (Ret tt, (lw, w')) /\ contents dest w' = contents dest w ++ d.
Proof.
  intros Ho. case_bool_decide as E; cbn [negb]; [|by apply on_file_append].
  exists w. rewrite E, app_nil_r. done.
Qed.

Lemma emit_pair_spec dest k a b (lw : LogWriter.t) w : is_open dest ->
  exists w', LogWriter.emit_physical_record_pair_to dest k a b (lw, w)
    = (Ret tt, (LogWriter.mk (LogWriter.sink lw) (LogWriter.block_offset lw + (HEADER_SIZE + len (a ++ b))), w')) /\
    contents dest w' = contents dest w ++ frag k (a ++ b).
Proof.
  intros Ho. unfold LogWriter.emit_physical_record_pair_to.
  assert (Hcrc : is_u32 (value [as_u8 k])) by apply value_u32.
  rewrite extend_app by done. rewrite <- len_app.
  match goal with |- context [LogRecordHeader.encode ?h []] => set (hdr := LogRecordHeader.encode h []) end.
  destruct (on_file_append dest hdr lw w Ho) as (w1 & E1 & C1).
  destruct (append_opt dest a lw w1 Ho) as (w2 & E2 & C2).
  destruct (append_opt dest b lw w2 Ho) as (w3 & E3 & C3).
  destruct (flush_law dest w3 Ho) as (w4 & E4 & C4).
  rewrite (action_bind_ret _ _ _ _ _ E1), (action_bind_ret _ _ _ _ _ E2), (action_bind_ret _ _ _ _ _ E3).
  erewrite action_bind_ret by (unfold LogWriter.on_file; cbn [fst snd]; by rewrite E4).
  exists w4. split; [done|]. rewrite C4, C3, C2, C1. unfold frag. fold hdr. by rewrite <- !app_assoc.
Qed.

Lemma pad_to_spec dest (lw : LogWriter.t) w : is_open dest -> in_block (LogWriter.block_offset lw) ->
  exists w', LogWriter.pad_to dest (lw, w)
    = (Ret tt, (LogWriter.mk (LogWriter.sink lw) (nxt (LogWriter.block_offset lw)), w')) /\
    contents dest w' = contents dest w ++ padb (LogWriter.block_offset lw).
Proof.
  destruct lw as [sk o]. cbn. intros Ho Hb. unfold LogWriter.pad_to.
  erewrite action_bind_ret by reflexivity. cbn [LogWriter.block_offset fst]. unfold nxt, padb.
  destruct (Z.ltb_spec (BLOCK_SIZE - o) HEADER_SIZE); [|by exists w; rewrite app_nil_r].
  destruct (Z.ltb_spec 0 (BLOCK_SIZE - o)).
  - destruct (on_file_append dest (replicate (Z.to_nat (BLOCK_SIZE - o)) (as_u8 0)) (LogWriter.mk sk o) w Ho)
      as (w' & E & Hc). exists w'. by rewrite (action_bind_ret _ _ _ _ _ E).
  - unfold in_block in Hb. replace (BLOCK_SIZE - o) with 0 by lia. exists w.
    erewrite action_bind_ret by reflexivity. by rewrite app_nil_r.
Qed.

Lemma pair_fragment_spec (first second : bytes) offset l : 0 <= offset -> 0 <= l ->
  offset + l <= len (first ++ second) ->
  exists a b, LogWriter.pair_fragment first second offset l = Ret (a, b) /\
    a ++ b = ztake l (zdrop offset (first ++ second)).
Proof.
  intros Ho Hl Hle. pose proof (len_nonneg second). rewrite len_app in Hle. unfold LogWriter.pair_fragment. zcase.
  - set (fl := Z.min (len first - offset) l). rewrite slice_ok by lia. cbn [mbind outcome_bind].
    unfold slice_to. rewrite slice_ok by lia. cbn [mbind outcome_bind]. do 2 eexists. split; [done|].
    rewrite zdrop_app_le, zdrop_0, Z.sub_0_r by lia. replace (offset + fl - offset) with fl by lia.
    destruct (Z.le_gt_cases (len first - offset) l).
    + assert (fl = len first - offset) as -> by lia.
      rewrite ztake_app_ge by (rewrite len_zdrop; lia). rewrite len_zdrop by lia. f_equal.
      apply ztake_all. rewrite len_zdrop; lia.
    + assert (fl = l) as -> by lia. rewrite Z.sub_diag, ztake_0, app_nil_r.
      symmetry. apply ztake_app_le. rewrite len_zdrop; lia.
  - rewrite slice_ok by lia. cbn [mbind outcome_bind]. do 2 eexists. split; [done|]. cbn.
    rewrite zdrop_app_ge by lia. f_equal. lia.
Qed.

Lemma pair_loop_spec fuel dest (first second : bytes) offset begin (lw : LogWriter.t) w :
  is_open dest -> in_block (LogWriter.block_offset lw) ->
  let data := first ++ second in
  0 <= offset <= len data ->
  rounds (LogWriter.block_offset lw) (zdrop offset data) <= Z.of_nat fuel ->
  let r := enc_loop fuel (LogWriter.block_offset lw) (zdrop offset data) begin in
  exists w', LogWriter.pair_loop fuel dest first second offset (len data - offset) begin (lw, w)
    = (Ret tt, (LogWriter.mk (LogWriter.sink lw) r.2, w')) /\
    contents dest w' = contents dest w ++ r.1.
Proof.
  intros Hopen. revert offset begin lw w. induction fuel as [|fuel IH]; intros offset begin lw w Ho data Hoff Hf r.
  { unfold rounds in Hf. len_pose. destruct (_ =? 0); lia. }
  subst r. rewrite enc_loop_S. cbn [LogWriter.pair_loop fst snd].
  destruct (pad_to_spec dest lw w Hopen Ho) as (w1 & E1 & C1).
  rewrite (action_bind_ret _ _ _ _ _ E1). erewrite action_bind_ret by reflexivity.
  cbn [LogWriter.block_offset fst]. set (o := LogWriter.block_offset lw) in *.
  change (BLOCK_SIZE - nxt o - HEADER_SIZE) with (room o).
  assert (Hl : len (zdrop offset data) = len data - offset) by (apply len_zdrop; lia).
  rewrite Hl in *. pose proof (nxt_room o Ho) as [Hn Hr].
  remember (Z.min (len data - offset) (room o)) as fl eqn:Efl.
  destruct (pair_fragment_spec first second offset fl ltac:(lia) ltac:(lia) ltac:(fold data; lia))
    as (a & b & Ea & Eab). fold data in Eab.
  erewrite action_bind_ret by (unfold lift; by rewrite Ea). cbn [fst snd].
  match goal with |- context [LogWriter.emit_physical_record_pair_to dest ?k a b] =>
    destruct (emit_pair_spec dest k a b (LogWriter.mk (LogWriter.sink lw) (nxt o)) w1 Hopen) as (w2 & E2 & C2) end.
  rewrite (action_bind_ret _ _ _ _ _ E2). cbn [LogWriter.sink LogWriter.block_offset].
  rewrite Eab in C2 |- *. assert (Hfl : len (ztake fl (zdrop offset data)) = fl) by (apply len_ztake; lia).
  rewrite Hfl. destruct (Z.eqb_spec (len data - offset) fl) as [E|E].
  - exists w2. split; [done|]. by rewrite C2, C1, app_nil_r, <- app_assoc.
  - pose proof (rounds_step o (zdrop offset data) Ho) as Hst. rewrite Hl, <- Efl in Hst.
    destruct (Hst E) as [Ho2 Hr2]. rewrite zdrop_zdrop in Hr2 |- * by lia.
    replace (len data - offset - fl) with (len data - (offset + fl)) by lia.
    destruct (IH (offset + fl) false (LogWriter.mk (LogWriter.sink lw) (nxt o + (HEADER_SIZE + fl))) w2 Ho2)
      as (w3 & E3 & C3); [fold data; lia|cbn [LogWriter.block_offset]; fold data; lia|].
    exists w3. split; [exact E3|]. rewrite C3, C2, C1. cbn [LogWriter.block_offset]. by rewrite <- !app_assoc.
Qed.
End dest.

(** ** Claims *)

(** C13: (log round trip) Records written with [LogWriter::add_record], of any number and
    length, are read back by [LogReader] in order and then the log ends; and whatever
    follows in the file (a torn tail, another log) does not change what is read before it. *)
Theorem log_roundtrip ds junk :
  exists w, write_all LogWriter.new ds = Ret w /\
    read_all (S (length ds)) (LogReader.new (LogWriter.sink w)) = Ret ds /\
    exists r, read_n (length ds) (LogReader.new (LogWriter.sink w ++ junk)) = Ret (ds, r).
Proof.
  pose proof (write_all_spec LogWriter.new ds ltac:(done)) as Hw. cbn in Hw.
  eexists. split; [exact Hw|]. cbn [LogWriter.sink]. set (e := (enc_records 0 ds).1).
  assert (H0 : stands_at (len (@nil byte)) 0) by (by exists 0).
  split.
  - pose proof (read_n_enc ds [] 0 [] H0 ltac:(done)) as Hr. cbn zeta in Hr. fold e in Hr.
    rewrite app_nil_r in Hr. cbn [app] in Hr. change (len (@nil byte)) with 0 in Hr.
    replace (S (length ds)) with (length ds + 1)%nat by lia.
    unfold LogReader.new. rewrite (read_n_all _ 1 _ _ _ Hr). cbn [read_all].
    destruct (read_record_end e (0 + len e)) as (r' & ->).
    { unfold HEADER_SIZE, LogRecordHeader.SIZE. lia. }
    cbn [mbind outcome_bind]. by rewrite app_nil_r.
  - eexists. apply (read_n_enc ds [] 0 junk H0 ltac:(done)).
Qed.

(** Streaming log writer. Writing a record given as two slices to a file appends to the
    file exactly what [add_record] of their concatenation appends in memory, padding,
    headers, checksums and fragments included, and leaves the same block offset. *)
Theorem log_pair_writer {W} `{Env W} is_open contents {HL : WritableLaws is_open contents}
    dest first second sk o w :
  is_open dest -> 0 <= o <= BLOCK_SIZE ->
  exists w' o' added, LogWriter.add_record (LogWriter.mk [] o) (first ++ second) = Ret (LogWriter.mk added o') /\
    LogWriter.add_record_pair_to dest first second (LogWriter.mk sk o, w) = (Ret tt, (LogWriter.mk sk o', w')) /\
    contents dest w' = contents dest w ++ added.
Proof.
  intros Hopen Ho. destruct (add_record_spec (LogWriter.mk [] o) (first ++ second) Ho) as [E _].
  cbn [LogWriter.sink LogWriter.block_offset app] in E.
  destruct (pair_loop_spec is_open contents (fuel_for (first ++ second)) dest first second 0 true
    (LogWriter.mk sk o) w Hopen Ho) as (w' & Ew & Cw); [len_pose; lia|rewrite zdrop_0; apply rounds_fuel|].
  rewrite zdrop_0, Z.sub_0_r in *. cbn [LogWriter.block_offset LogWriter.sink] in *.
  do 3 eexists. split; [exact E|]. split; [|exact Cw]. unfold LogWriter.add_record_pair_to.
  rewrite <- len_app. replace (S (S (Z.to_nat (len (first ++ second))))) with (fuel_for (first ++ second))
    by (unfold fuel_for, len; lia). exact Ew.
Qed.


(** C14: (log readers agree) On every file, corrupt or truncated ones included, and for any
    number of calls, [LogSequentialReader] gives record by record the results of
    [LogReader] over the file's bytes, errors included; neither ever panics, and their
    loops terminate. *)
Theorem log_readers_agree {W} `{Env W} seq_ok rest {HL : SequentialLaws seq_ok rest} f (w : W) fuel n :
  seq_ok f -> len (rest f) + 8 <= Z.of_nat fuel ->
  results (LogSequentialReader.read_record fuel) n (LogSequentialReader.new f, w)
    = results LogReader.read_record n (LogReader.new (rest f)) /\
  Panic ∉ results LogReader.read_record n (LogReader.new (rest f)).
Proof.
  intros Hok Hf.
  destruct (results_in_step (joint seq_ok rest (rest f)) bytes_left LogReader.read_physical
    (LogSequentialReader.read_physical fuel) LogReader.fuel_of fuel
    (readers_in_step seq_ok rest (rest f) fuel Hf)) with (n := n) (s1 := LogReader.new (rest f))
    (s2 := (LogSequentialReader.new f, w)) as [E Hp].
  - intros r s (_ & Hd & Hc). unfold bytes_left, LogReader.fuel_of. rewrite Hd in *.
    unfold len in *. lia.
  - by apply new_joint.
  - split; [|exact Hp]. symmetry. exact E.
Qed.

Lemma log_readers_agree_witness :
  let f := Mem.mk_seq ["000003.log"%string] [as_u8 1; as_u8 2; as_u8 3] 0 in
  results (LogSequentialReader.read_record 11) 4 (LogSequentialReader.new (W:=MemEnv) f, Mem.new)
    = results LogReader.read_record 4 (LogReader.new (mem_rest f)) /\
  Panic ∉ results LogReader.read_record 4 (LogReader.new (mem_rest f)).
Proof.
  apply (log_readers_agree (W:=MemEnv) (H:=MemEnv_Env) mem_seq_ok mem_rest).
  - by vm_compute.
  - by vm_compute.
Defined.
