(* ===== verification/LogFile.v ===== *)
(** * LogFile.v: logs in files.

    What the users of the log rely on: a record appended to an open file extends its
    contents by the record's encoding and touches nothing else, and a sequential reader
    over the encodings gives the records back, then the end. *)
From S2P Require Import Prelude Status Env Log LogCorrect.

Section write.
Context {W : Type} `{Env W} {is_open : Writable -> Prop} {contents : Writable -> W -> bytes} `{!WritableLaws is_open contents}.

Lemma add_pair_ok dest first second lw w : is_open dest -> in_block (LogWriter.block_offset lw) ->
  let r := enc_record (LogWriter.block_offset lw) (first ++ second) in
  exists w', LogWriter.add_record_pair_to dest first second (lw, w) = (Ret tt, (LogWriter.mk (LogWriter.sink lw) r.2, w')) /\
    contents dest w' = contents dest w ++ r.1 /\ in_block r.2.
Proof.
  intros Ho Hb r.
  destruct (pair_loop_spec is_open contents (fuel_for (first ++ second)) dest first second 0 true lw w Ho Hb) as (w' & Ew & Cw);
    [len_pose; lia|rewrite zdrop_0; apply rounds_fuel|].
  rewrite zdrop_0, Z.sub_0_r in *. exists w'. split; [|split; [exact Cw|apply (add_record_spec lw _ Hb)]].
  unfold LogWriter.add_record_pair_to. rewrite <- len_app.
  replace (S (S (Z.to_nat (len (first ++ second))))) with (fuel_for (first ++ second)) by (unfold fuel_for, len; lia). exact Ew.
Qed.
Lemma add_record_to_ok dest d lw w : is_open dest -> in_block (LogWriter.block_offset lw) ->
  let r := enc_record (LogWriter.block_offset lw) d in
  exists w', LogWriter.add_record_to dest d (lw, w) = (Ret tt, (LogWriter.mk (LogWriter.sink lw) r.2, w')) /\
    contents dest w' = contents dest w ++ r.1 /\ in_block r.2.
Proof.
  intros Ho Hb. pose proof (add_pair_ok dest d [] lw w Ho Hb) as Hp. by rewrite app_nil_r in Hp.
Qed.

(** *** The frame: only appends and flushes happen *)

Context (R : W -> W -> Prop) `{!PreOrder R} (dest : Writable).
Context (Happend : forall d w, R w (w_append dest d w).2) (Hflush : forall w, R w (w_flush dest w).2).

Definition framed {A} (m : action (LogWriter.t * W) A) : Prop := forall s, R s.2 (m s).2.2.
Lemma framed_bind {A B} (m : action (LogWriter.t * W) A) (f : A -> action (LogWriter.t * W) B) :
  framed m -> (forall a, framed (f a)) -> framed (m ≫= f).
Proof using All.
  intros Hm Hf s. specialize (Hm s). unfold mbind, action_bind. destruct (m s) as [[a|e|] s']; [|done..].
  etransitivity; [exact Hm|apply Hf].
Qed.
Lemma framed_ret {A} (a : A) : framed (mret a).
Proof using All. intros s. reflexivity. Qed.
Lemma framed_lift {A} (m : outcome A) : framed (lift m).
Proof using All. intros s. reflexivity. Qed.
Lemma framed_append d : framed (LogWriter.on_file (w_append dest d)).
Proof using All. intros s. unfold LogWriter.on_file. specialize (Happend d s.2). by destruct (w_append dest d s.2). Qed.
Lemma framed_flush : framed (LogWriter.on_file (w_flush dest)).
Proof using All. intros s. unfold LogWriter.on_file. specialize (Hflush s.2). by destruct (w_flush dest s.2). Qed.
Lemma framed_set o : framed (LogWriter.set_offset o).
Proof using All. intros s. reflexivity. Qed.
Lemma framed_get : framed LogWriter.get_offset.
Proof using All. intros s. reflexivity. Qed.

Lemma framed_pad : framed (LogWriter.pad_to dest).
Proof using All.
  unfold LogWriter.pad_to. apply framed_bind; [apply framed_get|]. intros o. case_match; [|apply framed_ret].
  apply framed_bind; [case_match; [apply framed_append|apply framed_ret]|]. intros _. apply framed_set.
Qed.
Lemma framed_emit kind a b : framed (LogWriter.emit_physical_record_pair_to dest kind a b).
Proof using All.
  unfold LogWriter.emit_physical_record_pair_to. apply framed_bind; [apply framed_append|]. intros _.
  apply framed_bind; [case_match; [apply framed_append|apply framed_ret]|]. intros _.
  apply framed_bind; [case_match; [apply framed_append|apply framed_ret]|]. intros _.
  apply framed_bind; [apply framed_flush|]. intros _. apply framed_bind; [apply framed_get|]. intros o. apply framed_set.
Qed.
Lemma framed_loop fuel a b offset left begin : framed (LogWriter.pair_loop fuel dest a b offset left begin).
Proof using All.
  revert offset left begin. induction fuel as [|fuel IH]; intros offset left begin; cbn [LogWriter.pair_loop]; [apply framed_lift|].
  apply framed_bind; [apply framed_pad|]. intros _. apply framed_bind; [apply framed_get|]. intros o.
  apply framed_bind; [apply framed_lift|]. intros fs. apply framed_bind; [apply framed_emit|]. intros _.
  case_match; [apply framed_ret|apply IH].
Qed.
Lemma add_record_framed d : framed (LogWriter.add_record_to dest d).
Proof using All. apply framed_loop. Qed.
End write.

(** ** Reading back *)

Lemma results_enc ds pre o : stands_at (len pre) o -> in_block o ->
  results LogReader.read_record (length ds + 1) (LogReader.mk (pre ++ (enc_records o ds).1) (len pre)) =
    map (fun d => Ret (Some d)) ds ++ [Ret None].
Proof.
  revert pre o. induction ds as [|d ds IH]; intros pre o Hpre Ho; cbn [length Nat.add results enc_records fst map app].
  - rewrite app_nil_r. destruct (read_record_end pre (len pre)) as (r' & ->); [|done].
    unfold HEADER_SIZE, LogRecordHeader.SIZE. lia.
  - destruct (read_record_enc pre o d ((enc_records (enc_record o d).2 ds).1) Hpre Ho) as (H1 & H2 & H3).
    rewrite H1. f_equal. rewrite app_assoc, <- len_app. apply IH; [by rewrite len_app|done].
Qed.

Lemma readers_same {W} `{Env W} {seq_ok : Sequential -> Prop} {rest : Sequential -> bytes} `{!SequentialLaws seq_ok rest}
    f (w : W) fuel n : seq_ok f -> len (rest f) + 8 <= Z.of_nat fuel ->
  results (LogSequentialReader.read_record fuel) n (LogSequentialReader.new f, w) = results LogReader.read_record n (LogReader.new (rest f)).
Proof.
  intros Hok Hf.
  destruct (results_in_step (joint seq_ok rest (rest f)) bytes_left LogReader.read_physical
    (LogSequentialReader.read_physical fuel) LogReader.fuel_of fuel
    (readers_in_step seq_ok rest (rest f) fuel Hf)) with (n := n) (s1 := LogReader.new (rest f))
    (s2 := (LogSequentialReader.new f, w)) as [E _].
  - intros r s (_ & Hd & Hc). unfold bytes_left, LogReader.fuel_of. rewrite Hd in *. unfold len in *. lia.
  - by apply new_joint.
  - symmetry. exact E.
Qed.
Lemma sequential_results {W} `{Env W} {seq_ok : Sequential -> Prop} {rest : Sequential -> bytes} `{!SequentialLaws seq_ok rest}
    f (w : W) fuel ds : seq_ok f -> rest f = (enc_records 0 ds).1 -> len (rest f) + 8 <= Z.of_nat fuel ->
  results (LogSequentialReader.read_record fuel) (length ds + 1) (LogSequentialReader.new f, w) =
    map (fun d => Ret (Some d)) ds ++ [Ret None].
Proof. intros Hok Hr Hf. rewrite readers_same, Hr by done. apply (results_enc ds [] 0); [by exists 0|done]. Qed.

Lemma len_enc_records_app o a b : (enc_records o (a ++ b)).1 = (enc_records o a).1 ++ (enc_records (enc_records o a).2 b).1 /\
  (enc_records o (a ++ b)).2 = (enc_records (enc_records o a).2 b).2.
Proof.
  revert o. induction a as [|d a IH]; intros o; [done|]. cbn [app enc_records fst snd].
  destruct (IH (enc_record o d).2) as [-> ->]. by rewrite app_assoc.
Qed.
Lemma enc_record_len o d : 1 <= len (enc_record o d).1.
Proof.
  unfold enc_record, fuel_for. cbn [enc_loop]. pose proof (len_nonneg d).
  repeat case_match; cbn [fst]; rewrite ?len_app, ?len_frag; unfold HEADER_SIZE, LogRecordHeader.SIZE; len_pose; lia.
Qed.
Lemma enc_records_count o ds : Z.of_nat (length ds) <= len (enc_records o ds).1.
Proof.
  revert o. induction ds as [|d ds IH]; intros o; cbn [enc_records fst length]; [done|]. rewrite len_app.
  pose proof (enc_record_len o d). specialize (IH (enc_record o d).2). lia.
Qed.
