(* ===== verification/LogTorn.v ===== *)
(** * LogTorn.v: reading a log that was cut off.

    A crash leaves a prefix of what was appended.  The readers give back the records that
    lie in it whole, and then stop: with the end of the log, or with an error when the cut
    is inside a record. *)
From S2P Require Import Prelude Status Coding Crc32c Format Env Log LogCorrect LogFile.

Definition ended (x : outcome (option bytes)) : Prop := x = Ret None \/ exists e, x = Fail e.
Definition ended_physical (x : outcome (option (Z * bytes))) : Prop := x = Ret None \/ exists e, x = Fail e.

Section torn.
Context (pre : bytes) (o : Z) (Hpre : stands_at (len pre) o) (Ho : in_block o).

(** The header is whole or not; the payload is not. *)
Lemma torn_at kind d n fuel : len d <= room o -> 1 <= kind <= 4 -> 0 <= n < len (frag kind d) ->
  exists x r', LogReader.physical_loop (S fuel) (LogReader.mk (pre ++ padb o ++ ztake n (frag kind d)) (len pre + len (padb o))) = (x, r') /\
    ended_physical x.
Proof.
  intros Hd Hk Hn. rewrite len_frag in Hn. pose proof (nxt_room o Ho) as [Hnx Hr]. pose proof (len_nonneg d).
  set (data := pre ++ _). set (here := len pre + _).
  assert (Hlen : len data = here + n) by (unfold data, here; rewrite !len_app, len_ztake; [lia|rewrite len_frag; lia]).
  rewrite physical_loop_S. unfold leftover_at. unfold here at 1. rewrite (here_mod pre o Hpre Ho).
  rewrite (proj2 (Z.ltb_ge _ _)) by lia. destruct (Z.ltb_spec (len data) (here + HEADER_SIZE)) as [Hs|Hs].
  { do 2 eexists. split; [reflexivity|by left]. }
  destruct (frag_head kind d) as (h & Hfr & Hh & Hdec).
  assert (Hdata : data = (pre ++ padb o) ++ h ++ ztake (n - HEADER_SIZE) d).
  { unfold data. rewrite Hfr, <- !app_assoc, ztake_app_ge by lia. by rewrite Hh. }
  unfold check_at. assert (slice data here (here + HEADER_SIZE) = Ret h) as ->.
  { rewrite Hdata. apply slice_app; rewrite len_app; unfold here; lia. }
  cbn [mbind outcome_bind].
  rewrite Hdec by (unfold is_u16, is_u8, room, BLOCK_SIZE, HEADER_SIZE, LogRecordHeader.SIZE in *; lia).
  cbn [fst mbind outcome_bind LogRecordHeader.length].
  unfold here at 1. rewrite (here_mod pre o Hpre Ho). change (BLOCK_SIZE - nxt o - HEADER_SIZE) with (room o).
  rewrite (proj2 (Z.ltb_ge _ _)) by lia. rewrite (proj2 (Z.ltb_lt _ _)) by lia.
  do 2 eexists. split; [reflexivity|right; by eexists].
Qed.
Lemma torn_frag kind d n : len d <= room o -> 1 <= kind <= 4 -> 0 <= n < len (padb o ++ frag kind d) ->
  exists x r', LogReader.read_physical (LogReader.mk (pre ++ ztake n (padb o ++ frag kind d)) (len pre)) = (x, r') /\ ended_physical x.
Proof.
  intros Hd Hk Hn. unfold LogReader.read_physical, LogReader.fuel_of. cbn [LogReader.data].
  set (data := pre ++ _). destruct (Z.le_gt_cases (len (padb o)) n) as [Hp|Hp].
  - replace (length data + 8)%nat with (S (length data + 7)) by lia.
    destruct (skip_padding data pre o (length data + 7) Hpre Ho) as (f & Hf & ->). destruct f as [|f]; [lia|].
    unfold data. rewrite ztake_app_ge by lia. rewrite len_app in Hn. apply torn_at; [done..|lia].
  - replace (length data + 8)%nat with (S (S (length data + 6))) by lia.
    destruct (physical_end (length data + 6) data (len pre)) as (r' & ->); [|exists (Ret None), r'; split; [done|by left]].
    unfold data. rewrite ztake_app_le by lia. rewrite len_app, len_ztake by lia.
    assert (len (padb o) <= HEADER_SIZE); [|lia]. unfold padb, in_block in *. zcase; [rewrite len_replicate; lia|done].
Qed.
End torn.

Lemma torn_assemble fuel : forall m pre o left begin scratch n, stands_at (len pre) o -> in_block o -> rounds o left <= Z.of_nat fuel ->
  let e := (enc_loop fuel o left begin).1 in 0 <= n < len e -> n < Z.of_nat m ->
  exists x r', assemble LogReader.read_physical m scratch (negb begin) (LogReader.mk (pre ++ ztake n e) (len pre)) = (x, r') /\ ended x.
Proof.
  induction fuel as [|fuel IH]; intros m pre o left begin scratch n Hpre Ho Hf e Hn Hm.
  { unfold rounds in Hf. pose proof (len_nonneg left). destruct (_ =? 0); lia. }
  subst e. rewrite enc_loop_S in *. cbn [fst snd] in *.
  pose proof (nxt_room o Ho) as [Hnx Hr]. pose proof (len_nonneg left) as Hl0.
  remember (Z.min (len left) (room o)) as fl eqn:Efl.
  assert (Hfl : len (ztake fl left) = fl) by (apply len_ztake; lia).
  remember (if len left =? fl then _ else _) as r eqn:Er. rewrite app_assoc in *.
  set (h := padb o ++ frag _ _) in *. destruct m as [|m]; [lia|]. cbn [assemble].
  destruct (Z.le_gt_cases (len h) n) as [Hh|Hh].
  - rewrite ztake_app_ge by done. rewrite len_app in Hn.
    destruct (Z.eqb_spec (len left) fl) as [E|E]; [subst r; cbn [fst] in Hn; change (len (@nil byte)) with 0 in Hn; lia|].
    pose proof (read_frag pre o (fragment_kind begin false) (ztake fl left) (ztake (n - len h) r.1)
      Hpre Ho ltac:(lia) (fragment_kind_range _ _)) as Hread. rewrite Hfl in Hread.
    rewrite app_assoc with (l := padb o) in Hread. fold h in Hread. rewrite (action_bind_ret _ _ _ _ _ Hread).
    destruct (rounds_step o left Ho) as [Ho2 Hr2]; [by rewrite <- Efl|]. rewrite <- Efl in Ho2, Hr2.
    assert (Hlh : len h = len (padb o) + (HEADER_SIZE + fl)) by (unfold h; by rewrite len_app, len_frag, Hfl).
    destruct (IH m (pre ++ h) (nxt o + (HEADER_SIZE + fl)) (zdrop fl left) false (if begin then ztake fl left else scratch ++ ztake fl left) (n - len h))
      as (x & r' & E1 & Hx); rewrite <- ?Er; [|done|lia|lia|pose proof (len_nonneg (padb o)); unfold HEADER_SIZE, LogRecordHeader.SIZE in *; lia|].
    { rewrite len_app, Hlh, Z.add_assoc. by apply stands_step. }
    exists x, r'. split; [|done]. rewrite <- E1, <- Er, len_app, <- app_assoc, Hlh. rewrite !Z.add_assoc. by destruct begin.
  - rewrite ztake_app_le by lia. destruct (torn_frag pre o Hpre Ho (fragment_kind begin (len left =? fl)) (ztake fl left) n) as (x & r' & E1 & Hx).
    { lia. } { apply fragment_kind_range. } { fold h. lia. }
    fold h in E1. destruct Hx as [->|[e ->]].
    + rewrite (action_bind_ret _ _ _ _ _ E1). destruct begin; cbn; do 2 eexists; (split; [reflexivity|]); [by left|right; by eexists].
    + unfold mbind, action_bind. rewrite E1. do 2 eexists. split; [reflexivity|]. right. by eexists.
Qed.
Lemma torn_record pre o d n : stands_at (len pre) o -> in_block o -> 0 <= n < len (enc_record o d).1 ->
  exists x r', LogReader.read_record (LogReader.mk (pre ++ ztake n (enc_record o d).1) (len pre)) = (x, r') /\ ended x.
Proof.
  intros Hpre Ho Hn. apply (torn_assemble (fuel_for d) _ pre o d true [] n Hpre Ho (rounds_fuel o d)); [done|].
  unfold LogReader.fuel_of. cbn [LogReader.data]. rewrite length_app.
  assert (Hl : len (ztake n (enc_record o d).1) = n) by (apply len_ztake; unfold enc_record in *; lia). unfold len in *. lia.
Qed.

(** The records that lie whole in the first [n] bytes, and what the reader says next. *)
Definition whole (o : Z) (ds : list bytes) (n : Z) (k : nat) : Prop :=
  (k <= length ds)%nat /\ len (enc_records o (take k ds)).1 <= n /\ ((k < length ds)%nat -> n < len (enc_records o (take (S k) ds)).1).
Lemma results_torn ds : forall pre o n, stands_at (len pre) o -> in_block o -> 0 <= n ->
  exists k x, whole o ds n k /\ ended x /\ (k = length ds -> x = Ret None) /\
    results LogReader.read_record (S k) (LogReader.mk (pre ++ ztake n (enc_records o ds).1) (len pre)) =
      map (fun d => Ret (Some d)) (take k ds) ++ [x].
Proof.
  unfold whole. induction ds as [|d ds IH]; intros pre o n Hpre Ho Hn; cbn [enc_records fst].
  { exists 0%nat, (Ret None). split; [split_and!; [done|done|cbn; lia]|]. split; [by left|]. split; [done|].
    destruct (read_record_end (pre ++ ztake n []) (len pre)) as (r' & E); [|cbn [results]; by rewrite E].
    unfold ztake; rewrite take_nil, app_nil_r. unfold HEADER_SIZE, LogRecordHeader.SIZE. lia. }
  destruct (Z.le_gt_cases (len (enc_record o d).1) n) as [Hd|Hd].
  - rewrite ztake_app_ge by done. set (rest := ztake _ _).
    destruct (read_record_enc pre o d rest Hpre Ho) as (E1 & Hpre' & Ho').
    destruct (IH (pre ++ (enc_record o d).1) (enc_record o d).2 (n - len (enc_record o d).1)) as (k & x & (Hk & Hin & Hout) & Hx & Hend & Hres);
      [by rewrite len_app|done|lia|]. fold rest in Hres.
    exists (S k), x. cbn [length take enc_records fst]. rewrite !len_app. split_and!; [lia|lia|intros; specialize (Hout ltac:(lia)); cbn [take] in Hout; lia|done|intros [=]; auto|].
    cbn [results map app] in Hres |- *. rewrite E1. cbn [fst snd]. f_equal. rewrite len_app, <- app_assoc in Hres. exact Hres.
  - rewrite ztake_app_le by lia. destruct (torn_record pre o d n Hpre Ho ltac:(lia)) as (x & r' & E1 & Hx).
    exists 0%nat, x. cbn [length take enc_records fst app map results]. rewrite E1. change (len (@nil byte)) with 0.
    split; [split_and!; [lia|done|]|by split_and!].
    intros _. rewrite app_nil_r. lia.
Qed.
Lemma sequential_torn {W} `{Env W} {seq_ok : Sequential -> Prop} {rest : Sequential -> bytes} `{!SequentialLaws seq_ok rest}
    f (w : W) fuel ds n : seq_ok f -> 0 <= n -> rest f = ztake n (enc_records 0 ds).1 -> len (rest f) + 8 <= Z.of_nat fuel ->
  exists k x, whole 0 ds n k /\ ended x /\ (k = length ds -> x = Ret None) /\
    results (LogSequentialReader.read_record fuel) (S k) (LogSequentialReader.new f, w) = map (fun d => Ret (Some d)) (take k ds) ++ [x].
Proof.
  intros Hok Hn Hr Hf. destruct (results_torn ds [] 0 n) as (k & x & Hw & Hx & Hend & Hres); [by exists 0|done|done|].
  exists k, x. split_and!; [done..|]. rewrite <- Hres. cbn [app]. rewrite <- Hr. change (len (@nil byte)) with 0.
  apply (readers_same f w fuel (S k) Hok Hf).
Qed.
