(* ===== verification/Filename.v ===== *)
(** * Filename.v: [filename/filename.rs].

    The names of the files of a database directory, the parser that recognises them in
    a listing, and the update of CURRENT through a temporary file and a rename. *)
From S2P Require Import Prelude Status Env.
From Stdlib Require Import Ascii.
Local Open Scope string_scope.
Local Open Scope Z_scope.

Inductive FileType :=
| LogFile
| DbLockFile
| TableFile
| DescriptorFile
| CurrentFile
| TempFile
| InfoLogFile.

#[export] Instance FileType_eq_dec : EqDecision FileType.
Proof. solve_decision. Defined.

(** [format!("{number:06}")]: at least six digits, padded with zeros. *)
Fixpoint zeros (n : nat) : string :=
  match n with O => "" | S n => String "0" (zeros n) end.
Definition show06 (number : Z) : string :=
  let s := show_u64 number in zeros (6 - String.length s) +:+ s.

Definition make_file_name (dbname : string) (number : Z) (suffix : string) : string :=
  dbname +:+ "/" +:+ show06 number +:+ "." +:+ suffix.

Definition log_file_name (dbname : string) (number : Z) : string := make_file_name dbname number "log".
Definition table_file_name (dbname : string) (number : Z) : string := make_file_name dbname number "ldb".
Definition sst_table_file_name (dbname : string) (number : Z) : string := make_file_name dbname number "sst".
Definition descriptor_file_name (dbname : string) (number : Z) : string :=
  dbname +:+ "/MANIFEST-" +:+ show06 number.
Definition current_file_name (dbname : string) : string := dbname +:+ "/CURRENT".
Definition lock_file_name (dbname : string) : string := dbname +:+ "/LOCK".
Definition temp_file_name (dbname : string) (number : Z) : string := make_file_name dbname number "dbtmp".
Definition info_log_file_name (dbname : string) : string := dbname +:+ "/LOG".
Definition old_info_log_file_name (dbname : string) : string := dbname +:+ "/LOG.old".

(** ** String methods the parser uses *)

(** [s.strip_prefix(p)]. *)
Fixpoint strip_prefix (p s : string) : option string :=
  match p, s with
  | EmptyString, _ => Some s
  | String a p, String b s => if Ascii.eqb a b then strip_prefix p s else None
  | String _ _, EmptyString => None
  end.

(** [s.find(c)], as the text before and after the first [c]. *)
Fixpoint split_first (c : ascii) (s : string) : option (string * string) :=
  match s with
  | EmptyString => None
  | String a s =>
      if Ascii.eqb a c then Some ("", s)
      else '(l, r) ← split_first c s; Some (String a l, r)
  end.

(** [s.rfind(c)], as the text after the last [c]. *)
Fixpoint after_last (c : ascii) (s : string) : option string :=
  match s with
  | EmptyString => None
  | String a s =>
      match after_last c s with
      | Some r => Some r
      | None => if Ascii.eqb a c then Some s else None
      end
  end.

(** [s.parse::<u64>().ok()]: an optional [+], then at least one digit, every step
    checked for overflow. *)
Definition digit (c : ascii) : option Z :=
  let d := Z.of_nat (nat_of_ascii c) - 48 in
  if (0 <=? d) && (d <? 10) then Some d else None.
Fixpoint parse_digits (s : string) (acc : Z) : option Z :=
  match s with
  | EmptyString => Some acc
  | String c s =>
      d ← digit c;
      let acc := acc * 10 + d in
      if acc <? 2 ^ 64 then parse_digits s acc else None
  end.
Definition parse_u64 (s : string) : option Z :=
  match s with
  | EmptyString => None
  | String "+" EmptyString => None
  | String "+" s => parse_digits s 0
  | _ => parse_digits s 0
  end.

(** [Path::new(s)]: the components, as [Path]'s equality sees them: repeated separators
    and inner dots disappear. *)
Fixpoint split_all (fuel : nat) (s : string) : list string :=
  match fuel with
  | O => [s]
  | S fuel =>
      match split_first "/" s with
      | Some (l, r) => l :: split_all fuel r
      | None => [s]
      end
  end.
Definition path_new (s : string) : path :=
  let parts := split_all (String.length s) s in
  let root := match s with String "/" _ => ["/"] | _ => [] end in
  let here := match parts with "." :: _ => ["."] | _ => [] end in
  root ++ here ++ filter (fun c => c <> "" /\ c <> ".") parts.

(** ** [set_current_file] and [parse_file_name] *)

Definition current_contents (dbname : string) (descriptor_number : Z) : bytes :=
  let manifest := descriptor_file_name dbname descriptor_number in
  let manifest_name := default manifest (strip_prefix (dbname +:+ "/") manifest) in
  list_byte_of_string (manifest_name +:+ String "010" "").

(** The closure that writes and syncs the temporary file. *)
Definition write_temp {W} `{Env W} (tmp_path : path) (contents : bytes) : action W unit :=
  file ← new_writable_file tmp_path;
  w_append file contents;;
  w_sync file;;
  w_close file;;
  mret tt.

Definition set_current_file {W} `{Env W} (dbname : string) (descriptor_number : Z) : action W unit :=
  fun w =>
    let contents := current_contents dbname descriptor_number in
    let tmp_path := path_new (temp_file_name dbname descriptor_number) in
    match write_temp tmp_path contents w with
    | (Fail error, w) => (Fail error, (delete_file tmp_path w).2)
    | (Panic, w) => (Panic, w)
    | (Ret _, w) =>
        let current := path_new (current_file_name dbname) in
        match rename_file tmp_path current w with
        | (Ret _, w) => (Ret tt, w)
        | (Fail error, w) => (Fail error, (delete_file tmp_path w).2)
        | (Panic, w) => (Panic, w)
        end
    end.

Definition parse_file_name (filename : string) : option (Z * FileType) :=
  let basename := default filename (after_last "/" filename) in
  if (basename =? "CURRENT")%string then Some (0, CurrentFile)
  else if (basename =? "LOCK")%string then Some (0, DbLockFile)
  else if (basename =? "LOG")%string || (basename =? "LOG.old")%string then Some (0, InfoLogFile)
  else
    match strip_prefix "MANIFEST-" basename with
    | Some rest => number ← parse_u64 rest; Some (number, DescriptorFile)
    | None =>
        '(stem, suffix) ← split_first "." basename;
        number ← parse_u64 stem;
        file_type ←
          (if (suffix =? "log")%string then Some LogFile
           else if (suffix =? "ldb")%string || (suffix =? "sst")%string then Some TableFile
           else if (suffix =? "dbtmp")%string then Some TempFile
           else None);
        Some (number, file_type)
    end.

Example parse_samples :
  map parse_file_name ["db/000007.ldb"; "100.log"; "+12.sst"; "MANIFEST-3"; "18446744073709551616.log"; ".log"; "LOG.old"; "x/LOCK"]
  = [Some (7, TableFile); Some (100, LogFile); Some (12, TableFile); Some (3, DescriptorFile); None; None;
     Some (0, InfoLogFile); Some (0, DbLockFile)].
Proof. reflexivity. Qed.

Example path_samples :
  path_new "/a//b/./c/" = ["/"; "a"; "b"; "c"] /\ path_new "./x" = ["."; "x"] /\ path_new "db/CURRENT" = ["db"; "CURRENT"].
Proof. split_and!; reflexivity. Qed.

(** ** Printing and parsing numbers *)

#[local] Arguments String.append : simpl nomatch.

Fixpoint all_chars (P : ascii -> bool) (s : string) : bool :=
  match s with EmptyString => true | String c s => P c && all_chars P s end.
Definition is_digit (c : ascii) : bool := bool_decide (is_Some (digit c)).

Lemma string_app_assoc (a b c : string) : a +:+ (b +:+ c) = (a +:+ b) +:+ c.
Proof. induction a as [|x a IH]; [done|]. cbn. by rewrite IH. Qed.

Lemma all_chars_app P a b : all_chars P (a +:+ b) = all_chars P a && all_chars P b.
Proof. induction a as [|x a IH]; cbn; [done|]. rewrite IH. by destruct (P x). Qed.

Lemma all_chars_impl (P Q : ascii -> bool) s : (forall c, P c = true -> Q c = true) ->
  all_chars P s = true -> all_chars Q s = true.
Proof.
  intros HPQ. induction s as [|x s IH]; cbn; [done|].
  intros [Hx Hs]%andb_true_iff. by rewrite (HPQ _ Hx), IH.
Qed.

Lemma show_digit_digit d : 0 <= d < 10 ->
  digit (ascii_of_nat (Z.to_nat (48 + d))) = Some d.
Proof.
  intros H. unfold digit. rewrite nat_ascii_embedding by lia.
  rewrite Z2Nat.id by lia. replace (48 + d - 48) with d by lia.
  by rewrite (proj2 (Z.leb_le 0 d)), (proj2 (Z.ltb_lt d 10)) by lia.
Qed.

Lemma mod10_range n : 0 <= n mod 10 < 10.
Proof. apply Z.mod_pos_bound. lia. Qed.

Lemma parse_show_digits fuel n acc : 0 <= n < 10 ^ Z.of_nat fuel -> is_u64 n -> (0 < fuel)%nat ->
  parse_digits (show_digits fuel n acc) 0 = parse_digits acc n.
Proof.
  revert n acc. induction fuel as [|fuel IH]; intros n acc Hn H64 Hf; [lia|]. cbn [show_digits].
  pose proof (Z.div_mod n 10 ltac:(lia)) as Hdm. pose proof (mod10_range n).
  assert (Hstep : forall a, a * 10 + n mod 10 = n ->
    parse_digits (show_digit (n mod 10) +:+ acc) a = parse_digits acc n).
  { intros a Ha. unfold show_digit. cbn [String.append parse_digits].
    change (String.append "" acc) with acc.
    rewrite show_digit_digit by done. cbn [mbind option_bind].
    rewrite Ha, (proj2 (Z.ltb_lt _ _)); [done|]. apply H64. }
  destruct (Z.eqb_spec (n / 10) 0) as [E|E].
  - apply Hstep. lia.
  - assert (0 < n / 10) by (pose proof (Z.div_pos n 10); lia).
    rewrite Nat2Z.inj_succ, Z.pow_succ_r in Hn by lia.
    assert (n / 10 < 10 ^ Z.of_nat fuel) by (apply Z.div_lt_upper_bound; lia).
    assert ((0 < fuel)%nat).
    { destruct fuel; [|lia]. cbn in *. lia. }
    rewrite IH; [apply Hstep; lia|lia| |done]. unfold is_u64 in *.
    pose proof (Z.div_le_upper_bound n 10 n). lia.
Qed.

Lemma show_digits_chars fuel n acc :
  all_chars is_digit (show_digits fuel n acc) = all_chars is_digit acc.
Proof.
  revert n acc. induction fuel as [|fuel IH]; intros n acc; cbn [show_digits]; [done|].
  assert (all_chars is_digit (show_digit (n mod 10) +:+ acc) = all_chars is_digit acc) as Hc.
  { unfold show_digit. cbn. unfold is_digit at 1. rewrite show_digit_digit by apply mod10_range.
    by rewrite bool_decide_eq_true_2. }
  destruct (_ =? _); [done|]. by rewrite IH.
Qed.

Lemma parse_zeros n s : parse_digits (zeros n +:+ s) 0 = parse_digits s 0.
Proof. induction n as [|n IH]; [done|]. cbn [zeros String.append parse_digits]. exact IH. Qed.

Lemma zeros_chars n : all_chars is_digit (zeros n) = true.
Proof. by induction n. Qed.

Lemma show06_chars n : all_chars is_digit (show06 n) = true.
Proof. unfold show06. rewrite all_chars_app, zeros_chars. apply show_digits_chars. Qed.

Lemma show06_parse n : is_u64 n -> parse_digits (show06 n) 0 = Some n.
Proof.
  intros Hn. unfold show06. rewrite parse_zeros. unfold show_u64.
  rewrite (parse_show_digits 20); [done| |done|lia]. unfold is_u64 in Hn. cbn. lia.
Qed.

Lemma show06_nonempty n : is_u64 n -> show06 n <> "".
Proof.
  intros Hn E. pose proof (show06_parse n Hn) as Hp. rewrite E in Hp. injection Hp as <-.
  vm_compute in E. discriminate.
Qed.

Lemma parse_u64_digits s : s <> "" -> all_chars is_digit s = true ->
  parse_u64 s = parse_digits s 0.
Proof.
  destruct s as [|c s]; [done|]. intros _ H. cbn in H. apply andb_true_iff in H as [Hc _].
  unfold parse_u64. destruct (Ascii.eqb_spec c "+") as [->|Hne]; [done|].
  by repeat match goal with |- context [match ?x with _ => _ end] => is_var x; destruct x end.
Qed.

Lemma parse_show06 n : is_u64 n -> parse_u64 (show06 n) = Some n.
Proof.
  intros Hn. rewrite parse_u64_digits; [by apply show06_parse|by apply show06_nonempty|apply show06_chars].
Qed.

(** ** Taking names apart *)

Definition not_char (c a : ascii) : bool := negb (Ascii.eqb a c).

Lemma digit_not_char c : digit c = None -> forall a, is_digit a = true -> not_char c a = true.
Proof.
  unfold not_char, is_digit. intros Hc a Ha. destruct (Ascii.eqb_spec a c) as [->|]; [|done].
  by rewrite Hc in Ha.
Qed.

Lemma after_last_none c s : all_chars (not_char c) s = true -> after_last c s = None.
Proof.
  induction s as [|a s IH]; cbn; [done|]. intros [Ha Hs]%andb_true_iff. rewrite IH by done.
  unfold not_char in Ha. by destruct (Ascii.eqb a c).
Qed.

Lemma after_last_app c p s : all_chars (not_char c) s = true ->
  after_last c (p +:+ String c s) = Some s.
Proof.
  intros Hs. induction p as [|a p IH]; cbn.
  - by rewrite after_last_none, Ascii.eqb_refl.
  - by rewrite IH.
Qed.

Lemma split_first_app c l r : all_chars (not_char c) l = true ->
  split_first c (l +:+ String c r) = Some (l, r).
Proof.
  induction l as [|a l IH]; cbn.
  - by rewrite Ascii.eqb_refl.
  - intros [Ha Hl]%andb_true_iff. unfold not_char in Ha. destruct (Ascii.eqb a c); [done|].
    by rewrite IH.
Qed.

Lemma strip_prefix_app p s : strip_prefix p (p +:+ s) = Some s.
Proof. induction p as [|a p IH]; cbn; [by destruct s|]. by rewrite Ascii.eqb_refl. Qed.

Lemma show06_head n : is_u64 n -> exists c s, show06 n = String c s /\ is_digit c = true.
Proof.
  intros Hn. pose proof (show06_nonempty n Hn). pose proof (show06_chars n) as Hc.
  destruct (show06 n) as [|c s]; [done|]. cbn in Hc. apply andb_true_iff in Hc as [Hc _].
  eauto.
Qed.

Lemma digit_first_ne c s t : is_digit c = true ->
  match t with String a _ => is_digit a = false | EmptyString => True end -> (String c s =? t)%string = false.
Proof.
  intros Hc Ht. apply String.eqb_neq. destruct t as [|a t]; [done|]. intros [= -> _]. congruence.
Qed.

Lemma strip_prefix_digit c s t : is_digit c = true ->
  match t with String a _ => is_digit a = false | EmptyString => False end -> strip_prefix t (String c s) = None.
Proof.
  intros Hc Ht. destruct t as [|a t]; [done|]. cbn.
  destruct (Ascii.eqb_spec a c) as [->|]; [congruence|done].
Qed.

Lemma parse_numbered n suffix t : is_u64 n ->
  all_chars (not_char "/") suffix = true ->
  (if (suffix =? "log")%string then Some LogFile
   else if (suffix =? "ldb")%string || (suffix =? "sst")%string then Some TableFile
   else if (suffix =? "dbtmp")%string then Some TempFile else None) = Some t ->
  forall dbname, parse_file_name (make_file_name dbname n suffix) = Some (n, t).
Proof.
  intros Hn Hs Ht dbname. unfold parse_file_name, make_file_name. cbn [String.append].
  rewrite after_last_app.
  2: { rewrite all_chars_app. apply andb_true_iff. split.
       - eapply all_chars_impl; [apply (digit_not_char "/"); reflexivity|apply show06_chars].
       - exact Hs. }
  cbn [default from_option id].
  destruct (show06_head n Hn) as (c & s & E & Hc). rewrite E. cbn [String.append].
  rewrite !digit_first_ne by done. cbn [orb]. rewrite strip_prefix_digit by done.
  change (String c (s +:+ String "." suffix)) with (String c s +:+ String "." suffix).
  rewrite <- E, split_first_app.
  2: { eapply all_chars_impl; [apply (digit_not_char "."); reflexivity|apply show06_chars]. }
  cbn [mbind option_bind]. rewrite parse_show06 by done. cbn [mbind option_bind].
  by rewrite Ht.
Qed.

(** ** Paths *)

Lemma split_first_none c s : all_chars (not_char c) s = true -> split_first c s = None.
Proof.
  induction s as [|a s IH]; cbn; [done|]. intros [Ha Hs]%andb_true_iff.
  unfold not_char in Ha. destruct (Ascii.eqb a c); [done|]. by rewrite IH.
Qed.

Lemma split_first_prefix c p name : all_chars (not_char c) name = true ->
  exists l r, split_first c (p +:+ String c name) = Some (l, r) /\
    (r = name \/ exists p', r = p' +:+ String c name /\ (String.length p' < String.length p)%nat).
Proof.
  intros Hn. induction p as [|a p IH]; cbn.
  - rewrite Ascii.eqb_refl. eauto.
  - destruct (Ascii.eqb a c).
    + do 2 eexists. split; [done|]. right. exists p. split; [done|lia].
    + destruct IH as (l & r & E & Hr). rewrite E. cbn. do 2 eexists. split; [done|].
      destruct Hr as [->|(p' & -> & Hl)]; [by left|]. right. exists p'. split; [done|lia].
Qed.

Lemma last_split_all fuel p name : all_chars (not_char "/") name = true ->
  (String.length p < fuel)%nat -> last (split_all fuel (p +:+ String "/" name)) = Some name.
Proof.
  intros Hn. revert p. induction fuel as [|fuel IH]; intros p Hf; [lia|]. cbn [split_all].
  destruct (split_first_prefix "/" p name Hn) as (l & r & -> & Hr).
  assert (last (split_all fuel r) = Some name) as Hl.
  { destruct Hr as [->|(p' & -> & Hp)]; [|apply IH; lia].
    destruct fuel; cbn; [done|]. by rewrite split_first_none. }
  rewrite last_cons, Hl. done.
Qed.

(** The last component of a joined path is the file's name. *)
Lemma last_path_new p name : all_chars (not_char "/") name = true -> name <> "" -> name <> "." ->
  last (path_new (p +:+ String "/" name)) = Some name.
Proof.
  intros Hn He Hd. unfold path_new.
  assert (Hl : last (split_all (String.length (p +:+ String "/" name)) (p +:+ String "/" name)) = Some name).
  { apply last_split_all; [done|]. clear. induction p; cbn; lia. }
  destruct (split_all _ _) as [|x l] using rev_ind; [done|].
  rewrite last_snoc in Hl. injection Hl as ->.
  rewrite filter_app, filter_cons_True by done. cbn [filter list_filter]. by rewrite !(app_assoc _ _ [name]), last_snoc.
Qed.

Lemma show06_suffix_chars n s : all_chars (not_char "/") s = true ->
  all_chars (not_char "/") (show06 n +:+ s) = true.
Proof.
  intros Hs. rewrite all_chars_app, Hs, andb_true_r.
  eapply all_chars_impl; [apply (digit_not_char "/"); reflexivity|apply show06_chars].
Qed.

Lemma temp_path_ne_current dbname n : is_u64 n ->
  path_new (temp_file_name dbname n) <> path_new (current_file_name dbname).
Proof.
  intros Hn E. apply (f_equal last) in E. unfold temp_file_name, make_file_name, current_file_name in E.
  destruct (show06_head n Hn) as (c & s & Es & Hc).
  cbn [String.append] in E. rewrite !last_path_new in E; try done.
  - rewrite Es in E. injection E as -> _. done.
  - by apply show06_suffix_chars.
  - by rewrite Es.
  - rewrite Es. intros [= -> Hs]. done.
Qed.

Lemma current_contents_eq dbname n :
  current_contents dbname n = list_byte_of_string ("MANIFEST-" +:+ show06 n +:+ String "010" "").
Proof.
  unfold current_contents, descriptor_file_name.
  replace (dbname +:+ "/MANIFEST-" +:+ show06 n) with ((dbname +:+ "/") +:+ ("MANIFEST-" +:+ show06 n))
    by (by rewrite <- string_app_assoc).
  rewrite strip_prefix_app. cbn [default from_option id].
  by rewrite <- string_app_assoc.
Qed.

Lemma parse_descriptor n dir : is_u64 n ->
  parse_file_name (dir +:+ "/MANIFEST-" +:+ show06 n) = Some (n, DescriptorFile) /\
  parse_file_name ("MANIFEST-" +:+ show06 n) = Some (n, DescriptorFile).
Proof.
  intros Hn. assert (Hc : all_chars (not_char "/") ("MANIFEST-" +:+ show06 n) = true).
  { rewrite <- (andb_true_r (all_chars _ _)). cbn.
    rewrite andb_true_r. eapply all_chars_impl; [apply (digit_not_char "/"); reflexivity|apply show06_chars]. }
  assert (forall b, (b = "MANIFEST-" +:+ show06 n)%string ->
    match strip_prefix "MANIFEST-" b with
    | Some rest => number ← parse_u64 rest; Some (number, DescriptorFile) | None => None end = Some (n, DescriptorFile)) as Hp.
  { intros b ->. rewrite strip_prefix_app, parse_show06 by done. done. }
  unfold parse_file_name. split.
  - change (dir +:+ "/MANIFEST-" +:+ show06 n) with (dir +:+ String "/" ("MANIFEST-" +:+ show06 n)).
    rewrite after_last_app by done. cbn [default from_option id].
    specialize (Hp _ eq_refl). cbn in Hp |- *. exact Hp.
  - rewrite after_last_none by done. cbn [default from_option id].
    specialize (Hp _ eq_refl). cbn in Hp |- *. exact Hp.
Qed.

(** ** Claims *)

(** File names. Every name the database gives to a file is recognised in a directory
    listing as the kind and the number it was made from, whatever the directory; in
    particular names of distinct kinds or numbers never collide. *)
Theorem file_names_parse dbname n : is_u64 n ->
  parse_file_name (log_file_name dbname n) = Some (n, LogFile) /\
  parse_file_name (table_file_name dbname n) = Some (n, TableFile) /\
  parse_file_name (sst_table_file_name dbname n) = Some (n, TableFile) /\
  parse_file_name (temp_file_name dbname n) = Some (n, TempFile) /\
  parse_file_name (descriptor_file_name dbname n) = Some (n, DescriptorFile) /\
  parse_file_name (current_file_name dbname) = Some (0, CurrentFile) /\
  parse_file_name (lock_file_name dbname) = Some (0, DbLockFile) /\
  parse_file_name (info_log_file_name dbname) = Some (0, InfoLogFile) /\
  parse_file_name (old_info_log_file_name dbname) = Some (0, InfoLogFile).
Proof.
  intros Hn. unfold log_file_name, table_file_name, sst_table_file_name, temp_file_name.
  split_and!; try (by apply parse_numbered).
  - by apply parse_descriptor.
  - unfold current_file_name, parse_file_name. cbn [String.append]. by rewrite after_last_app.
  - unfold lock_file_name, parse_file_name. cbn [String.append]. by rewrite after_last_app.
  - unfold info_log_file_name, parse_file_name. cbn [String.append]. by rewrite after_last_app.
  - unfold old_info_log_file_name, parse_file_name. cbn [String.append]. by rewrite after_last_app.
Qed.


(** CURRENT. In the in-memory environment [set_current_file] succeeds, leaves CURRENT
    holding the name of the given manifest and a newline, a name that parses back to the
    manifest's number, removes its temporary file, and touches no other file. *)
Theorem set_current_file_installs w dbname n : mem_wf w -> is_u64 n ->
  exists w' name,
    set_current_file dbname n w = (Ret tt, w') /\ mem_wf w' /\
    view w' = <[path_new (current_file_name dbname) := list_byte_of_string (name +:+ String "010" "")]>
                (delete (path_new (temp_file_name dbname n)) (view w)) /\
    parse_file_name name = Some (n, DescriptorFile).
Proof.
  intros Hwf Hn. unfold set_current_file.
  pose proof (temp_path_ne_current dbname n Hn) as Hne.
  set (tmp := path_new (temp_file_name dbname n)) in *. set (cur := path_new (current_file_name dbname)) in *.
  destruct (new_writable_spec w tmp (current_contents dbname n) Hwf)
    as (h & w1 & E1 & _ & _ & Ho & w2 & E2 & Hwf2 & Hv2).
  assert (write_temp tmp (current_contents dbname n) w = (Ret tt, w2)) as ->.
  { unfold write_temp. cbn [new_writable_file w_append w_sync w_close MemEnv_Env].
    rewrite (action_bind_ret _ _ _ _ _ E1), (action_bind_ret _ _ _ _ _ E2).
    unfold Mem.sync, Mem.close, Mem.ensure_open. unfold mem_open in Ho. by rewrite Ho. }
  destruct (rename_file_spec w2 tmp cur (current_contents dbname n)) as (w3 & E3 & Hwf3 & Hv3); [done| |].
  { by rewrite Hv2, lookup_insert_eq. }
  cbn [rename_file MemEnv_Env]. rewrite E3. exists w3, ("MANIFEST-" +:+ show06 n). split_and!; [done|done| |].
  - rewrite Hv3, Hv2, delete_insert_eq. by rewrite current_contents_eq, <- string_app_assoc.
  - by apply (parse_descriptor n "").
Qed.

