(* ===== verification/TableCache.v ===== *)
(** * TableCache.v: [table_cache/table_cache.rs].

    Open tables cached by file number, in front of the environment; the blocks of all of
    them share one block cache.  A method acts on the table cache, the file system and the
    block cache together.  A handle lives until the method that looked it up returns. *)
From S2P Require Import Prelude Status Comparator Format Filter Block Env Filename Cache TableBuilder Table.

Module TableCache.
Section TableCache.
Context {W C P Co K : Type} `{Env W} `{Comparator C} `{FilterPolicy P} `{Compressor Co} `{Cache K Block}.
Abbreviation table := (Table RandomAccess C P Co) (only parsing).

Record t := mk {
  dbname : string;
  comparator : C;
  cache : ShardedLRUCache.t table;
  filter_policy : option P;
  compressor : option Co;
}.

(** [new], [new_with_filter] and [new_with_block_cache] are [new_full] with defaults; the
    block cache is part of the state the methods run on. *)
Definition new_full (dbname : string) (c : C) (table_capacity : Z) (filter_policy : option P) (compressor : option Co) : t :=
  mk dbname c (ShardedLRUCache.new table_capacity) filter_policy compressor.
Definition new_with_block_cache dbname c table_capacity filter_policy : t := new_full dbname c table_capacity filter_policy None.
Definition new_with_filter dbname c table_capacity filter_policy : t := new_full dbname c table_capacity filter_policy None.
Definition new dbname c table_capacity : t := new_with_filter dbname c table_capacity None.

Abbreviation S := (t * (W * K))%type (only parsing).

(** *** The parts of the state *)

Definition reads {A} (f : t -> A) : action S A := fun s => (Ret (f s.1), s).
Definition on_io {A} (m : action (W * K) A) : action S A := fun s => let '(r, io) := m s.2 in (r, (s.1, io)).
Definition on_env {A} (m : action W A) : action S A := on_io (fun io => let '(r, w) := m io.1 in (r, (w, io.2))).
Definition with_cache (c : ShardedLRUCache.t table) (self : t) : t :=
  mk (dbname self) (comparator self) c (filter_policy self) (compressor self).
Definition on_cache {A} (f : ShardedLRUCache.t table -> outcome (A * ShardedLRUCache.t table)) : action S A := fun s =>
  match f (cache s.1) with
  | Ret (a, c) => (Ret a, (with_cache c s.1, s.2))
  | Fail e => (Fail e, s)
  | Panic => (Panic, s)
  end.

(** *** Methods *)

(** The path of the table: the [.ldb] name when it exists, the [.sst] name otherwise. *)
Definition table_path (number : Z) : action S path := fun s =>
  let ldb := path_new (table_file_name (dbname s.1) number) in
  let sst := path_new (sst_table_file_name (dbname s.1) number) in
  (Ret (if file_exists ldb s.2.1 then ldb else sst), s).
Definition cache_key_of (number : Z) : bytes := to_le_bytes 8 number.

Definition open_table (number : Z) : action S table :=
  path ← table_path number;
  file_size ← on_env (get_file_size path);
  file ← on_env (new_random_access_file path);
  self ← reads id;
  on_io (open_random_with_options file file_size (comparator self) true (filter_policy self) (compressor self)).
Definition find_table (number : Z) : action S (CacheHandle table) :=
  let cache_key := cache_key_of number in
  h ← on_cache (fun c => ShardedLRUCache.lookup c cache_key);
  match h with
  | Some h => mret h
  | None => table ← open_table number; on_cache (fun c => ShardedLRUCache.insert c cache_key table 1)
  end.

(** [let handle = self.find_table(n)?; f(handle.value())]: the handle is dropped on the way
    out, whatever [f] returns. *)
Definition then_drop {A} (number : Z) (h : CacheHandle table) (m : action (W * K) A) : action S A := fun s =>
  let '(r, s) := on_io m s in
  match r with
  | Panic => (Panic, s)
  | r => let '(_, s) := on_cache (fun c => ShardedLRUCache.drop_handle c (cache_key_of number) h) s in (r, s)
  end.
Definition with_table {A} (number : Z) (f : table -> action (W * K) A) : action S A :=
  h ← find_table number; then_drop number h (f (handle_value h)).

Definition get_full (number : Z) (key : bytes) (verify fill_cache : bool) : action S (option bytes) :=
  with_table number (fun t => Table.get_full t key verify fill_cache).
Definition get_verify number key verify : action S (option bytes) := get_full number key verify true.
Definition get number key : action S (option bytes) := get_verify number key true.

Definition internal_get_full (number : Z) (internal_key : bytes) (verify fill_cache : bool) : action S LookupResult :=
  with_table number (fun t => Table.internal_get_full t internal_key verify fill_cache).
Definition internal_get_verify number internal_key verify : action S LookupResult := internal_get_full number internal_key verify true.
Definition internal_get number internal_key : action S LookupResult := internal_get_verify number internal_key true.

Definition approximate_offset_of (number : Z) (key : bytes) : action S Z :=
  with_table number (fun t => lift (Table.approximate_offset_of t key)).
(** The iterator keeps a clone of the table, at the state it is made in. *)
Definition new_iterator_verify (number : Z) (verify : bool) : action S (TableIterator C) :=
  with_table number (fun t io => (Ret (Table.new_iterator_verify t verify io), io)).

Definition evict (number : Z) : action S unit := on_cache (fun c => ShardedLRUCache.erase c (cache_key_of number)).
End TableCache.
Arguments t W C P Co {_}.
End TableCache.
