(* ===== verification/TableCacheCorrect.v ===== *)
(** * TableCacheCorrect.v: correctness of TableCache.v.

    Over a directory of well-formed table files, lookups through the table cache answer
    from the entries of the named file, however often the cache has dropped and reopened
    it, and whatever other tables share the block cache. *)
From S2P Require Import Prelude Status Coding Comparator Format Cache DbIterator Filter Block Env.
From S2P Require Import CacheCorrect TableBuilder TableFormat TableBuilderCorrect Table TableCorrect.
From S2P Require Import TwoLevelIter Filename TableCache.

(** ** Files read at random *)

(** What table reading needs of an environment: it knows which files there are, and an open
    file keeps reading the data it was opened on (table files are written once). *)
Class RandomAccessLaws {W} `{Env W} (file_at : W -> path -> option bytes) : Prop := {
  exists_law p w : file_exists p w = is_some (file_at w p);
  size_law p w d : file_at w p = Some d -> get_file_size p w = (Ret (len d), w);
  open_law p w d : file_at w p = Some d -> len d < 2 ^ 64 ->
    exists f, new_random_access_file p w = (Ret f, w) /\ forall w', reads f w' d;
}.

#[export] Instance Mem_RandomAccessLaws : RandomAccessLaws (W:=MemEnv) (fun w p => view w !! p).
Proof.
  split; intros p w *; rewrite view_lookup; cbn [file_exists get_file_size new_random_access_file MemEnv_Env].
  - unfold Mem.file_exists. by destruct (files w !! p).
  - unfold Mem.get_file_size. destruct (files w !! p); cbn; [by intros [= <-]|done].
  - intros Hd Hl. unfold Mem.new_random_access_file. destruct (files w !! p) as [b|] eqn:E; [|done]. cbn in Hd. injection Hd as <-.
    exists (Mem.mk_random p (Mem.get_buf w b)). split; [|intros w'; by apply mem_reads].
    erewrite action_bind_ret by (unfold Mem.read_file; rewrite E; reflexivity). done.
Qed.

Lemma number_key_inj a b : TableCache.cache_key_of a = TableCache.cache_key_of b -> is_u64 a -> is_u64 b -> a = b.
Proof.
  unfold TableCache.cache_key_of. intros E Ha Hb. apply (f_equal le_combine) in E.
  rewrite !le_combine_split_id in E by (unfold is_u64 in *; lia). exact E.
Qed.

(** ** The open tables *)

Section sharded.
Context {V : Type}.
Implicit Types c : ShardedLRUCache.t V.

Lemma sharded_lookup c key : sharded_ok c -> exists r c', ShardedLRUCache.lookup c key = Ret (r, c') /\ sharded_ok c' /\
  (forall h, r = Some h -> sharded_cached c key (handle_value h)) /\ (forall key' v, sharded_cached c' key' v -> sharded_cached c key' v).
Proof. exact (lookup_law c key). Qed.
Lemma sharded_insert c key v ch : sharded_ok c -> exists h c', ShardedLRUCache.insert c key v ch = Ret (h, c') /\ sharded_ok c' /\
  (forall key' v', sharded_cached c' key' v' -> sharded_cached c key' v' \/ (key' = key /\ v' = v)).
Proof. exact (insert_law c key v ch). Qed.
(** A step on one shard that only forgets entries of it. *)
Lemma shard_forget {A} c key (f : LruShard.t V -> outcome (A * LruShard.t V)) : sharded_ok c ->
  (forall s, exists a s', f s = Ret (a, s') /\ LruShard.entries s' ⊆ LruShard.entries s) ->
  exists a c', ShardedLRUCache.on_shard c key f = Ret (a, c') /\ sharded_ok c' /\
    forall key' v, sharded_cached c' key' v -> sharded_cached c key' v.
Proof.
  intros Hok Hf. destruct (on_shard_ok c key f Hok) as (s & Hs & E). destruct (Hf s) as (a & s' & Ef & Hsub).
  rewrite Ef in E. cbn [mbind outcome_bind] in E. do 2 eexists. split; [exact E|]. split.
  { unfold sharded_ok. cbn [ShardedLRUCache.shards]. by rewrite length_insert. }
  intros key' v [Hc|(Hsh & e & He & ->)]%cached_update; [done| |done].
  exists s, e. rewrite Hsh. split_and!; [done| |done]. by eapply lookup_weaken.
Qed.
Lemma sharded_drop c key h : sharded_ok c -> exists c', ShardedLRUCache.drop_handle c key h = Ret (tt, c') /\ sharded_ok c' /\
  forall key' v, sharded_cached c' key' v -> sharded_cached c key' v.
Proof.
  intros Hok. destruct (shard_forget c key (fun s => Ret (tt, LruShard.arc_drop (arc h) s)) Hok) as ([] & c' & E & H').
  { intros s. by do 2 eexists. }
  by exists c'.
Qed.
Lemma sharded_erase c key : sharded_ok c -> exists c', ShardedLRUCache.erase c key = Ret (tt, c') /\ sharded_ok c' /\
  forall key' v, sharded_cached c' key' v -> sharded_cached c key' v.
Proof.
  intros Hok. destruct (shard_forget c key (fun s => Ret (tt, LruShard.erase s key)) Hok) as ([] & c' & E & H').
  { intros s. do 2 eexists. split; [done|]. rewrite erase_entries. apply delete_subseteq. }
  by exists c'.
Qed.
Lemma sharded_insert_value c key v ch h c' : ShardedLRUCache.insert c key v ch = Ret (h, c') -> handle_value h = v.
Proof.
  unfold ShardedLRUCache.insert, ShardedLRUCache.on_shard. destruct (index _ _) as [s| |]; [|done..]. cbn [mbind outcome_bind].
  unfold LruShard.insert. destruct (LruShard.evict_loop _ _ _); [|done..]. cbn [mbind outcome_bind].
  destruct (set_index _ _ _); [|done..]. cbn. by intros [= <- _].
Qed.
End sharded.

(** ** The invariant *)

Section cache.
Context {W C P Co K : Type} `{Env W} {file_at : W -> path -> option bytes} `{!RandomAccessLaws file_at}.
Context `{Comparator C} `{FilterPolicy P} `{Compressor Co} `{HK : Cache K Block}.
Context {cache_ok : K -> Prop} {cached : K -> bytes -> Block -> Prop} {next : K -> Z}
  `{!CacheLaws cache_ok cached} `{!CacheIdLaws cache_ok cached} `{!CacheFreshLaws next}.
Context (c : C) (ord : bytes -> bytes -> comparison) `{!ComparatorLaws c (fun _ => True) ord}.
Context (co : option Co) (Hco : forall x, co = Some x -> CompressorLaws x).
Context (policy : option P) (Hname : forall q, policy = Some q -> ik_ok (TableFileBuilder.filter_key (filter_name q))).
Abbreviation icmp := (mk_icmp c) (only parsing).
Abbreviation iord := (ik_ord ord) (only parsing).
Abbreviation table := (Table RandomAccess (InternalKeyComparator C) P Co) (only parsing).

(** A file of the directory: its bytes, the policy it was written with, its blocks. *)
Record table_file := mk_tfile { tf_bytes : bytes; tf_written : option P; tf_blocks : list dblock }.
Definition tfile_ok (f : table_file) : Prop :=
  table_ok icmp ik_ok iord co (tf_written f) (tf_bytes f) (tf_blocks f) /\ len (tf_bytes f) < 2 ^ 63 /\
  policies_agree (tf_written f) policy.
Definition tf_entries (f : table_file) : list entry := all_entries (tf_blocks f).

Context (dbname : string) (dir : Z -> option table_file).
Definition ldb_path (n : Z) : path := path_new (table_file_name dbname n).
Definition sst_path (n : Z) : path := path_new (sst_table_file_name dbname n).
Definition table_at (w : W) (n : Z) : option bytes :=
  match file_at w (ldb_path n) with Some d => Some d | None => file_at w (sst_path n) end.
Definition on_disk (w : W) : Prop := forall n f, dir n = Some f -> is_u64 n /\ tfile_ok f /\ table_at w n = Some (tf_bytes f).

(** Which table a block-cache id was given to; what the block cache may then hold. *)
Implicit Types owner : gmap Z (list dblock).
Definition good owner (key : bytes) (v : Block) : Prop := exists id ds d, owner !! id = Some ds /\ d ∈ ds /\
  key = to_le_bytes 8 id ++ to_le_bytes 8 (BlockHandle.offset (d_handle co d)) /\ v = d_block d.
Definition known owner (T : table) (f : table_file) : Prop :=
  (exists file, (forall w, reads file w (tf_bytes f)) /\ opened icmp ik_ok co file (tf_blocks f) T) /\
  block_cache T = true /\ owner !! cache_id T = Some (tf_blocks f).

Record inv (b : nat) (st : TableCache.t W (InternalKeyComparator C) P Co * (W * K)) (owner : gmap Z (list dblock)) : Prop := {
  i_dbname : TableCache.dbname st.1 = dbname;
  i_cmp : TableCache.comparator st.1 = icmp;
  i_policy : TableCache.filter_policy st.1 = policy;
  i_co : TableCache.compressor st.1 = co;
  i_disk : on_disk st.2.1;
  i_ok : sharded_ok (TableCache.cache st.1);
  i_tables : forall key T, sharded_cached (TableCache.cache st.1) key T ->
    exists n f, key = TableCache.cache_key_of n /\ dir n = Some f /\ known owner T f;
  i_blocks : cache_ok st.2.2 /\ forall key v, cached st.2.2 key v -> good owner key v;
  i_next : 0 <= next st.2.2 /\ next st.2.2 + Z.of_nat b < 2 ^ 64;
  i_owner : forall id ds, owner !! id = Some ds -> 0 <= id < next st.2.2;
}.
(** [b] more tables can be opened before the block cache runs out of ids. *)
Definition tc_inv (b : nat) st : Prop := exists owner, inv b st owner.

Lemma tc_inv_less b st : tc_inv (S b) st -> tc_inv b st.
Proof. intros (owner & [? ? ? ? ? ? ? ? [? ?] ?]). exists owner. split; try done. lia. Qed.

(** Reading keeps the ids where they are. *)
#[local] Instance pinned n : CacheLaws (fun k => cache_ok k /\ next k = n) cached.
Proof.
  split.
  - intros k key [Hok Hn]. destruct (lookup_law k key Hok) as (r & k' & E & Hok' & Ha1 & Ha2).
    exists r, k'. split_and!; try done. by rewrite (lookup_next _ _ _ _ E).
  - intros k key v ch [Hok Hn]. destruct (insert_law k key v ch Hok) as (h & k' & E & Hok' & Ha1).
    exists h, k'. split_and!; try done. by rewrite (insert_next _ _ _ _ _ _ E).
Qed.

Lemma known_owns owner T f : tfile_ok f -> known owner T f -> (forall id ds, owner !! id = Some ds -> 0 <= id < 2 ^ 64) ->
  owns co (tf_blocks f) (good owner) T.
Proof.
  intros (Ht & Hl & _) ((file & Hr & Ho) & Hb & Hown) Hids d v Hd. split.
  - intros (id & ds & d' & Hid & Hd' & E & ->). unfold cache_key in E.
    apply app_inj_1 in E as [E1 E2]; [|by rewrite !length_le_split].
    apply (f_equal (fun bs => from_le_bytes bs)) in E1. rewrite !le_combine_split_id in E1 by (apply Hids in Hid; apply Hids in Hown; lia).
    subst id. rewrite Hown in Hid. injection Hid as <-.
    f_equal. symmetry. apply (cache_key_inj icmp ik_ok iord co (tf_bytes f) Hl (tf_written f) (tf_blocks f) Ht T); [done|done|].
    unfold cache_key. by rewrite E2.
  - intros ->. exists (cache_id T), (tf_blocks f), d. done.
Qed.

Lemma inv_coherent b st owner T f n : inv b st owner -> dir n = Some f -> known owner T f ->
  coherent (cache_ok:=fun k => cache_ok k /\ next k = next st.2.2) (cached:=cached) co (tf_blocks f) (good owner) T st.2.2.
Proof.
  intros Hi Hd Hk _. destruct (i_disk _ _ _ Hi n f Hd) as (_ & Hf & _). split_and!.
  - apply known_owns; [done|done|]. intros id ds Hid%(i_owner _ _ _ Hi). pose proof (i_next _ _ _ Hi). lia.
  - apply (i_blocks _ _ _ Hi).
  - done.
  - apply (i_blocks _ _ _ Hi).
Qed.
(** Reading through an open table leaves the invariant. *)
Lemma inv_read b tcache w k k' owner T f : inv b (tcache, (w, k)) owner -> known owner T f ->
  coherent (cache_ok:=fun k0 => cache_ok k0 /\ next k0 = next k) (cached:=cached) co (tf_blocks f) (good owner) T k' ->
  inv b (tcache, (w, k')) owner.
Proof.
  intros [] (_ & Hb & _) Hcoh. destruct (Hcoh Hb) as (_ & [Hok Hn] & Hg). split; cbn [fst snd] in *; rewrite ?Hn; done.
Qed.
Lemma inv_cache b tcache io owner ca : inv b (tcache, io) owner -> sharded_ok ca ->
  (forall key v, sharded_cached ca key v -> sharded_cached (TableCache.cache tcache) key v) ->
  inv b (TableCache.with_cache ca tcache, io) owner.
Proof. intros [] Hok Hsub. split; try done. intros key T Hc%Hsub. by apply i_tables0. Qed.

(** Opening the table file of [n]. *)
Lemma open_table b tcache w k owner n f : inv (S b) (tcache, (w, k)) owner -> dir n = Some f ->
  exists T k', TableCache.open_table n (tcache, (w, k)) = (Ret T, (tcache, (w, k'))) /\
    inv b (tcache, (w, k')) (<[next k := tf_blocks f]> owner) /\ known (<[next k := tf_blocks f]> owner) T f.
Proof.
  intros [Idb Icmp Ipol Ico Idisk Iok Itab [Ib1 Ib2] [In1 In2] Iown] Hf. cbn [fst snd] in *.
  destruct (Idisk n f Hf) as (Hn & (Ht & Hl & Hag) & Hat).
  assert (Hp : exists p, TableCache.table_path n (tcache, (w, k)) = (Ret p, (tcache, (w, k))) /\ file_at w p = Some (tf_bytes f)).
  { unfold TableCache.table_path. cbn [fst snd]. rewrite Idb, exists_law. fold (ldb_path n) (sst_path n). unfold table_at in Hat.
    destruct (file_at w (ldb_path n)) eqn:E; cbn [is_some]; eexists; (split; [reflexivity|congruence]). }
  destruct Hp as (p & Ep & Hp). destruct (open_law p w _ Hp ltac:(lia)) as (file & Eo & Hr).
  destruct (open_ok (K:=K) icmp ik_ok iord co Hco (tf_bytes f) file w (Hr w) Hl (tf_written f) (tf_blocks f) Ht policy true k Hag Hname)
    as (T & ET & Hop & Hb & Hid & _).
  destruct (new_id_next k In1) as [Eid Enext]; [lia|]. destruct (new_id_law k Ib1) as [Hok' Hsub]. cbn [new_cache] in ET.
  exists T, (snd (cache_new_id k)). split; [|split].
  - unfold TableCache.open_table. erewrite action_bind_ret by exact Ep. unfold TableCache.on_env, TableCache.on_io. cbn [fst snd].
    erewrite action_bind_ret by (cbn [fst snd]; rewrite (size_law _ _ _ Hp); reflexivity).
    erewrite action_bind_ret by (cbn [fst snd]; rewrite Eo; reflexivity).
    erewrite action_bind_ret by reflexivity. cbn [fst snd id]. rewrite Icmp, Ipol, Ico, ET. done.
  - assert (Hfresh : owner !! next k = None) by (destruct (owner !! next k) eqn:E; [apply Iown in E; lia|done]).
    split; cbn [fst snd]; try done.
    + intros key T' (n' & f' & -> & Hd' & Hfile & Hbc & Ho')%Itab. exists n', f'. split_and!; [done..|].
      split_and!; [done..|]. rewrite lookup_insert_ne; [done|]. intros E. rewrite E in Hfresh. congruence.
    + split; [done|]. intros key v (id & ds & d & Hid' & Hd & Ek & Ev)%Hsub%Ib2. exists id, ds, d. split_and!; [|done..].
      rewrite lookup_insert_ne; [done|]. intros E. rewrite E in Hfresh. congruence.
    + rewrite Enext by lia. lia.
    + rewrite Enext by lia. intros id ds [[<- _]|[_ Hid']]%lookup_insert_Some; [lia|]. apply Iown in Hid'. lia.
  - split_and!; [by exists file|done|]. rewrite Hid, Eid. by rewrite lookup_insert_eq.
Qed.

Lemma find_table_ok b tcache w k n f : tc_inv (S b) (tcache, (w, k)) -> dir n = Some f ->
  exists h tcache' k' owner, TableCache.find_table n (tcache, (w, k)) = (Ret h, (tcache', (w, k'))) /\
    inv b (tcache', (w, k')) owner /\ known owner (handle_value h) f.
Proof.
  intros [owner Hi] Hf. pose proof Hi as [Idb Icmp Ipol Ico Idisk Iok Itab [Ib1 Ib2] [In1 In2] Iown]. cbn [fst snd] in *.
  unfold TableCache.find_table. destruct (sharded_lookup (TableCache.cache tcache) (TableCache.cache_key_of n) Iok)
    as (r & ca & El & Hok1 & Hr & Hsub).
  pose proof (inv_cache _ _ _ _ ca Hi Hok1 Hsub) as Hi1.
  erewrite action_bind_ret by (unfold TableCache.on_cache; cbn [fst snd]; rewrite El; reflexivity). destruct r as [h|].
  - destruct (Itab _ _ (Hr h eq_refl)) as (n' & f' & En & Hf' & Hk).
    assert (n' = n) as ->.
    { symmetry. apply number_key_inj; [done|apply (Idisk n f Hf)|apply (Idisk n' f' Hf')]. }
    rewrite Hf in Hf'. injection Hf' as <-. exists h, (TableCache.with_cache ca tcache), k, owner. split; [done|]. split; [|done].
    destruct Hi1 as [? ? ? ? ? ? ? ? [? ?] ?]. split; try done. cbn [fst snd] in *. lia.
  - destruct (open_table b _ w k owner n f Hi1 Hf) as (T & k' & Eo & Hi2 & Hk).
    set (tc1 := TableCache.with_cache ca tcache) in *. set (owner' := <[next k := tf_blocks f]> owner) in *.
    destruct (sharded_insert ca (TableCache.cache_key_of n) T 1 Hok1) as (h & ca' & Ei & Hok2 & Hs2).
    pose proof (sharded_insert_value _ _ _ _ _ _ Ei) as Hv.
    exists h, (TableCache.with_cache ca' tc1), k', owner'. split_and!.
    + erewrite action_bind_ret by exact Eo. unfold TableCache.on_cache. cbn [fst snd]. change (TableCache.cache tc1) with ca. by rewrite Ei.
    + destruct Hi2 as [? ? ? ? ? ? Itab2 ? ? ?]. split; try done. cbn [fst snd] in *.
      intros key v [Hc|[-> ->]]%Hs2; [by apply Itab2|]. by exists n, f.
    + by rewrite Hv.
Qed.

(** What is done with the table of [n], whichever way it was found. *)
Lemma with_table_ok {A} (m : table -> action (W * K) A) r b tcache w k n f : tc_inv (S b) (tcache, (w, k)) -> dir n = Some f -> r <> Panic ->
  (forall owner T k0, known owner T f ->
     coherent (cache_ok:=fun k => cache_ok k /\ next k = next k0) (cached:=cached) co (tf_blocks f) (good owner) T k0 ->
     exists k1, m T (w, k0) = (r, (w, k1)) /\
       coherent (cache_ok:=fun k => cache_ok k /\ next k = next k0) (cached:=cached) co (tf_blocks f) (good owner) T k1) ->
  exists tcache' k', TableCache.with_table n m (tcache, (w, k)) = (r, (tcache', (w, k'))) /\ tc_inv b (tcache', (w, k')).
Proof.
  intros Hi Hf Hr Hm. destruct (find_table_ok b tcache w k n f Hi Hf) as (h & tc1 & k1 & owner & E & Hi1 & Hk).
  destruct (Hm owner (handle_value h) k1 Hk) as (k2 & Em & Hcoh). { exact (inv_coherent _ _ _ _ _ _ Hi1 Hf Hk). }
  pose proof (inv_read _ _ _ _ _ _ _ _ Hi1 Hk Hcoh) as Hi2.
  destruct (sharded_drop (TableCache.cache tc1) (TableCache.cache_key_of n) h (i_ok _ _ _ Hi2)) as (ca & Ed & Hok & Hsub).
  exists (TableCache.with_cache ca tc1), k2. split; [|exists owner; by apply inv_cache].
  unfold TableCache.with_table. erewrite action_bind_ret by exact E. unfold TableCache.then_drop, TableCache.on_io. cbn [fst snd]. rewrite Em.
  unfold TableCache.on_cache. cbn [fst snd]. rewrite Ed. by destruct r.
Qed.

Lemma internal_get_full_ok b tcache w k n f key verify fill : tc_inv (S b) (tcache, (w, k)) -> dir n = Some f -> ik_ok key ->
  exists tcache' k', TableCache.internal_get_full n key verify fill (tcache, (w, k)) =
      (lookup_spec ord (tf_entries f) key, (tcache', (w, k'))) /\ tc_inv b (tcache', (w, k')).
Proof.
  intros Hi Hf Hk. pose proof Hi as [ow Hi0]. destruct (i_disk _ _ _ Hi0 n f Hf) as (_ & (Ht & Hl & _) & _).
  apply (with_table_ok _ (lookup_spec ord (tf_entries f) key)  b tcache w k n f Hi Hf).
  { unfold lookup_spec. by repeat case_match. }
  intros owner T k0 ((file & Hr & Ho) & _) Hcoh.
  apply (internal_get_ok c ord co Hco (tf_bytes f) file w (Hr w) Hl (tf_written f) (tf_blocks f) Ht (good owner) T k0 key verify fill Ho Hcoh Hk).
Qed.

(** The iterator the cache makes is a cursor over the entries of the file. *)
Lemma cached_iterator_ok b tcache w k n f verify : tc_inv (S b) (tcache, (w, k)) -> dir n = Some f ->
  exists it tcache' k', TableCache.new_iterator_verify n verify (tcache, (w, k)) = (Ret it, (tcache', (w, k'))) /\
    tc_inv b (tcache', (w, k')) /\
    exists stands, IterLaws (I:=TableIterator (InternalKeyComparator C)) iord (tf_entries f) ik_ok stands /\ stands it None.
Proof.
  intros Hi Hf. destruct (find_table_ok b tcache w k n f Hi Hf) as (h & tc1 & k1 & owner & E & Hi1 & Hk).
  pose proof (inv_coherent _ _ _ _ _ _ Hi1 Hf Hk) as Hcoh. pose proof Hk as ((file & Hr & Ho) & _).
  destruct (i_disk _ _ _ Hi1 n f Hf) as (_ & (Ht & Hl & _) & _).
  destruct (sharded_drop (TableCache.cache tc1) (TableCache.cache_key_of n) h (i_ok _ _ _ Hi1)) as (ca & Ed & Hok & Hsub).
  exists (Table.new_iterator_verify (handle_value h) verify (w, k1)), (TableCache.with_cache ca tc1), k1. split_and!.
  - unfold TableCache.new_iterator_verify, TableCache.with_table. erewrite action_bind_ret by exact E.
    unfold TableCache.then_drop, TableCache.on_io, TableCache.on_cache. cbn [fst snd]. by rewrite Ed.
  - exists owner. by apply inv_cache.
  - exact (iterator_cursor icmp ik_ok iord co Hco (tf_bytes f) file w (Hr w) Hl (tf_written f) (tf_blocks f) Ht (good owner) _ k1 verify Ho Hcoh).
Qed.

Lemma evict_ok b tcache io n : tc_inv b (tcache, io) ->
  exists tcache', TableCache.evict n (tcache, io) = (Ret tt, (tcache', io)) /\ tc_inv b (tcache', io).
Proof.
  intros [owner Hi]. destruct (sharded_erase (TableCache.cache tcache) (TableCache.cache_key_of n) (i_ok _ _ _ Hi)) as (ca & E & Hok & Hsub).
  exists (TableCache.with_cache ca tcache). split; [|exists owner; by apply inv_cache].
  unfold TableCache.evict, TableCache.on_cache. cbn [fst snd]. by rewrite E.
Qed.

(** A new table cache on a block cache that holds nothing. *)
Lemma new_tc_inv w k capacity b : on_disk w -> cache_ok k -> (forall key v, ~ cached k key v) ->
  0 <= next k -> next k + Z.of_nat b < 2 ^ 64 ->
  tc_inv b (TableCache.new_full dbname icmp capacity policy co, (w, k)).
Proof.
  intros Hd Hk Hno H0' Hb. exists ∅. split; cbn [fst snd]; try done.
  - intros key T Hc. by apply sharded_new_empty in Hc.
  - split; [done|]. intros key v Hc. by apply Hno in Hc.
Qed.

(** *** Any sequence of uses *)

Inductive tc_op := TcGet (n : Z) (key : bytes) (verify fill : bool) | TcEvict (n : Z).
Fixpoint tc_run (os : list tc_op) (st : TableCache.t W (InternalKeyComparator C) P Co * (W * K)) : list (outcome LookupResult) :=
  match os with
  | [] => []
  | TcGet n key verify fill :: os => let '(r, st) := TableCache.internal_get_full n key verify fill st in r :: tc_run os st
  | TcEvict n :: os => let '(_, st) := TableCache.evict n st in tc_run os st
  end.
Definition tc_answer (o : tc_op) : option (outcome LookupResult) :=
  match o with TcGet n key _ _ => f ← dir n; Some (lookup_spec ord (tf_entries f) key) | TcEvict _ => None end.
Definition tc_op_ok (o : tc_op) : Prop := match o with TcGet n key _ _ => is_Some (dir n) /\ ik_ok key | TcEvict _ => True end.

Lemma tc_run_get n key verify fill os st r st' : TableCache.internal_get_full n key verify fill st = (r, st') ->
  tc_run (TcGet n key verify fill :: os) st = r :: tc_run os st'.
Proof.
  intros E. change (tc_run (TcGet n key verify fill :: os) st) with
    (let '(r, st) := TableCache.internal_get_full n key verify fill st in r :: tc_run os st). by rewrite E.
Qed.
Lemma tc_run_evict n os st r st' : TableCache.evict n st = (r, st') -> tc_run (TcEvict n :: os) st = tc_run os st'.
Proof. intros E. change (tc_run (TcEvict n :: os) st) with (let '(_, st) := TableCache.evict n st in tc_run os st). by rewrite E. Qed.
Lemma tc_run_ok os : Forall tc_op_ok os -> forall tcache w k, tc_inv (length os) (tcache, (w, k)) -> tc_run os (tcache, (w, k)) = omap tc_answer os.
Proof.
  induction 1 as [|[n key verify fill|n] os Ho _ IH]; intros tcache w k Hi; [done| |].
  - destruct Ho as [[f Hf] Hk]. destruct (internal_get_full_ok (length os) tcache w k n f key verify fill Hi Hf Hk) as (tc1 & k1 & E & Hi1).
    rewrite (tc_run_get _ _ _ _ _ _ _ _ E), (IH _ _ _ Hi1).
    assert (Ea : tc_answer (TcGet n key verify fill) = Some (lookup_spec ord (tf_entries f) key)) by (unfold tc_answer; by rewrite Hf).
    unfold omap. cbn [list_omap]. by rewrite Ea.
  - destruct (evict_ok (length os) tcache (w, k) n) as (tc1 & E & Hi1); [by apply tc_inv_less|]. by rewrite (tc_run_evict _ _ _ _ _ E), (IH _ _ _ Hi1).
Qed.
End cache.

(** ** Claims *)

(** C24: (TableCache) A directory holds well-formed table files.  Whatever sequence of lookups and
    evictions a fresh table cache serves, of whatever capacity, each lookup in a stored file
    answers from the entries of that file alone: the first entry not below the key, if it is
    a version of the same user key.  Tables reopened after they were dropped get block-cache
    ids of their own, so no table is ever served another one's blocks. *)
Theorem table_cache_answers {W C P Co K} `{Env W} {file_at : W -> path -> option bytes} `{!RandomAccessLaws file_at}
    `{Comparator C} `{FilterPolicy P} `{Compressor Co} `{Cache K Block} {cache_ok : K -> Prop}
    {cached : K -> bytes -> Block -> Prop} {next : K -> Z}
    `{!CacheLaws cache_ok cached, !CacheIdLaws cache_ok cached, !CacheFreshLaws next}
    (c : C) ord `{!ComparatorLaws c (fun _ => True) ord} (co : option Co) (policy : option P) dbname dir w k capacity os :
  (forall x, co = Some x -> CompressorLaws x) ->
  (forall q, policy = Some q -> ik_ok (TableFileBuilder.filter_key (filter_name q))) ->
  on_disk (file_at:=file_at) c ord co policy dbname dir w ->
  cache_ok k -> (forall key v, ~ cached k key v) -> 0 <= next k -> next k + len os < 2 ^ 64 -> Forall (tc_op_ok dir) os ->
  tc_run os (TableCache.new_full dbname (mk_icmp c) capacity policy co, (w, k)) = omap (tc_answer ord dir) os.
Proof.
  intros Hco Hname Hd Hk Hno H0' Hb Hos.
  apply (tc_run_ok (file_at:=file_at) (cache_ok:=cache_ok) (cached:=cached) (next:=next) c ord co Hco policy Hname dbname dir os Hos).
  by apply (new_tc_inv (file_at:=file_at)).
Qed.

Lemma table_cache_answers_witness :
  let target k n := mk_ikey (list_byte_of_string k) (mk_tag n Value) in
  let ops := [TcGet 5 (target "apple" 6) true true; TcEvict 5; TcGet 5 (target "apricot" 8) false true; TcGet 5 (target "b" 9) true false]%string in
  exists b w', sample_build = (Ret b, w') /\
  let w := snd (Mem.write_file (path_new (table_file_name "db" 5)) (mem_contents sample_file.1 w') Mem.new) in
  tc_run ops (TableCache.new_full "db" (mk_icmp Bytewise) 0 (Some sample_policy) (Some reverser), (w, ShardedLRUCache.new (V:=Block) 0))
    = [Ret (LookupFound (list_byte_of_string "green")); Ret LookupDeleted; Ret LookupNotFound].
Proof.
  intros target ops.
  destruct (build_table_ok (W:=MemEnv) (H:=MemEnv_Env) (is_open:=mem_open) (contents:=mem_contents) (mk_icmp Bytewise) ik_ok (ik_ord bytes_cmp)
    sample_keys_ok (Some sample_policy) (Some reverser) sample_table 40 2 sample_file.1 sample_file.2 sample_ok ltac:(lia) eq_refl eq_refl)
    as (b & w' & ds & E & Hes & _ & _ & _ & _ & Ht).
  exists b, w'. split; [exact E|]. destruct (sample_sizes b w' E) as [H1 H2]. specialize (Ht H1 H2). intros w.
  set (f := mk_tfile (mem_contents sample_file.1 w') (Some sample_policy) ds).
  set (dir := fun n => if n =? 5 then Some f else None).
  rewrite (table_cache_answers (W:=MemEnv) (H:=MemEnv_Env) (file_at:=fun w p => view w !! p) (cache_ok:=sharded_ok) (cached:=sharded_cached)
    (next:=ShardedLRUCache.next_id) Bytewise bytes_cmp (Some reverser) (Some sample_policy) "db" dir w (ShardedLRUCache.new 0) 0 ops).
  - unfold ops, dir. cbn [omap list_omap tc_answer]. rewrite Z.eqb_refl. cbn [mbind option_bind]. unfold tf_entries. cbn [f tf_blocks].
    rewrite Hes. by vm_compute.
  - exact sample_compressors.
  - exact sample_names.
  - intros n g. unfold dir. destruct (Z.eqb_spec n 5) as [->|]; [|done]. intros [= <-]. split; [clear; unfold is_u64; lia|split; [exact (conj Ht (conj H1 sample_agree))|]].
    unfold table_at. assert (Hv : view w !! ldb_path "db" 5 = Some (mem_contents sample_file.1 w')); [|by rewrite Hv].
    unfold w, ldb_path. cbn [snd Mem.write_file]. rewrite alloc_view by apply new_wf. apply lookup_insert_eq.
  - apply sharded_new_ok.
  - apply sharded_new_empty.
  - by vm_compute.
  - by vm_compute.
  - clear. unfold ops, dir, tc_op_ok. repeat apply Forall_cons_2; try apply Forall_nil_2; try exact I.
    all: split; [by exists f|apply ik_ok_mk].
Defined.
