(* ===== verification/VersionEdit.v ===== *)
(** * VersionEdit.v: [version_set/file_meta_data.rs] and [version_set/version_edit.rs].

    The description of a table file and the record of a change to the set of files, as
    the manifest stores them. *)
From S2P Require Import Prelude Status Coding Format.

Module FileMetaData.
Record t := mk { number : Z; file_size : Z; smallest : bytes; largest : bytes }.

#[global] Instance t_eq_dec : EqDecision t.
Proof. solve_decision. Defined.

(** [FileMetaData::default()]. *)
Definition default_ : t := mk 0 0 [] [].

Definition encode_streaming (dst : bytes) (number file_size : Z) (smallest largest : bytes) : bytes :=
  let dst := put_varint64 dst number in
  let dst := put_varint64 dst file_size in
  let dst := put_length_prefixed_slice dst smallest in
  put_length_prefixed_slice dst largest.

Definition encode (m : t) (dst : bytes) : bytes :=
  let dst := put_varint64 dst (number m) in
  let dst := put_varint64 dst (file_size m) in
  let dst := put_length_prefixed_slice dst (smallest m) in
  put_length_prefixed_slice dst (largest m).

Definition decode_from : reader t :=
  number ← need get_varint64 "FileMetaData: missing number";
  file_size ← need get_varint64 "FileMetaData: missing file_size";
  smallest ← need get_length_prefixed_slice "FileMetaData: missing smallest";
  largest ← need get_length_prefixed_slice "FileMetaData: missing largest";
  mret (mk number file_size smallest largest).

Definition visit {R} (f : Z -> Z -> bytes -> bytes -> R) : reader R :=
  number ← need get_varint64 "FileMetaData: missing number";
  file_size ← need get_varint64 "FileMetaData: missing file_size";
  smallest ← need get_length_prefixed_slice "FileMetaData: missing smallest";
  largest ← need get_length_prefixed_slice "FileMetaData: missing largest";
  mret (f number file_size smallest largest).
End FileMetaData.

Record CompactPointer := mk_pointer { cp_level : Z; cp_key : bytes }.
Record DeletedFile := mk_deleted { df_level : Z; df_number : Z }.
Record NewFile := mk_new { nf_level : Z; nf_meta : FileMetaData.t }.

#[export] Instance CompactPointer_eq_dec : EqDecision CompactPointer.
Proof. solve_decision. Defined.
#[export] Instance DeletedFile_eq_dec : EqDecision DeletedFile.
Proof. solve_decision. Defined.
#[export] Instance NewFile_eq_dec : EqDecision NewFile.
Proof. solve_decision. Defined.

Module VersionEdit.
Record t := mk {
  comparator : option bytes;
  log_number : option Z;
  prev_log_number : option Z;
  next_file_number : option Z;
  last_sequence : option Z;
  compact_pointers : list CompactPointer;
  deleted_files : list DeletedFile;
  new_files : list NewFile;
}.

#[export] Instance t_eq_dec : EqDecision t.
Proof. solve_decision. Defined.

(** [VersionEdit::default()]. *)
Definition default_ : t := mk None None None None None [] [] [].

(** A field that is written when it is present. *)
Definition put_opt {A} (put : bytes -> A -> bytes) (tag : Z) (o : option A) (dst : bytes) : bytes :=
  match o with Some x => put (put_varint32 dst tag) x | None => dst end.
Definition put_pointer (dst : bytes) (item : CompactPointer) : bytes :=
  put_length_prefixed_slice (put_varint32 (put_varint32 dst 5) (cp_level item)) (cp_key item).
Definition put_deleted (dst : bytes) (item : DeletedFile) : bytes :=
  put_varint64 (put_varint32 (put_varint32 dst 6) (df_level item)) (df_number item).
Definition put_new (dst : bytes) (item : NewFile) : bytes :=
  FileMetaData.encode (nf_meta item) (put_varint32 (put_varint32 dst 7) (nf_level item)).

Definition encode (e : t) (dst : bytes) : bytes :=
  let dst := put_opt put_length_prefixed_slice 1 (comparator e) dst in
  let dst := put_opt put_varint64 2 (log_number e) dst in
  let dst := put_opt put_varint64 9 (prev_log_number e) dst in
  let dst := put_opt put_varint64 3 (next_file_number e) dst in
  let dst := put_opt put_varint64 4 (last_sequence e) dst in
  let dst := fold_left put_pointer (compact_pointers e) dst in
  let dst := fold_left put_deleted (deleted_files e) dst in
  fold_left put_new (new_files e) dst.

(** The level of an item, refused when it is out of range. *)
Definition get_level : reader Z :=
  level ← need get_varint32 "VersionEdit: missing level";
  if NUM_LEVELS <=? level then rfail (Stat.corruption "VersionEdit: level out of range")
  else mret level.

(** One iteration of the decoding loop: a tag and its payload, added to the fields
    decoded so far. *)
Definition decode_field (e : t) : reader t :=
  tag ← need get_varint32 "VersionEdit: missing tag";
  if tag =? 1 then
    name ← need get_length_prefixed_slice "VersionEdit: missing name";
    mret (mk (Some name) (log_number e) (prev_log_number e) (next_file_number e)
            (last_sequence e) (compact_pointers e) (deleted_files e) (new_files e))
  else if tag =? 2 then
    number ← need get_varint64 "VersionEdit: missing number";
    mret (mk (comparator e) (Some number) (prev_log_number e) (next_file_number e)
            (last_sequence e) (compact_pointers e) (deleted_files e) (new_files e))
  else if tag =? 9 then
    number ← need get_varint64 "VersionEdit: missing number";
    mret (mk (comparator e) (log_number e) (Some number) (next_file_number e)
            (last_sequence e) (compact_pointers e) (deleted_files e) (new_files e))
  else if tag =? 3 then
    number ← need get_varint64 "VersionEdit: missing number";
    mret (mk (comparator e) (log_number e) (prev_log_number e) (Some number)
            (last_sequence e) (compact_pointers e) (deleted_files e) (new_files e))
  else if tag =? 4 then
    seq ← need get_varint64 "VersionEdit: missing seq";
    mret (mk (comparator e) (log_number e) (prev_log_number e) (next_file_number e)
            (Some seq) (compact_pointers e) (deleted_files e) (new_files e))
  else if tag =? 5 then
    level ← get_level;
    key ← need get_length_prefixed_slice "VersionEdit: missing key";
    mret (mk (comparator e) (log_number e) (prev_log_number e) (next_file_number e)
            (last_sequence e) (compact_pointers e ++ [mk_pointer level key])
            (deleted_files e) (new_files e))
  else if tag =? 6 then
    level ← get_level;
    number ← need get_varint64 "VersionEdit: missing number";
    mret (mk (comparator e) (log_number e) (prev_log_number e) (next_file_number e)
            (last_sequence e) (compact_pointers e)
            (deleted_files e ++ [mk_deleted level number]) (new_files e))
  else if tag =? 7 then
    level ← get_level;
    meta ← FileMetaData.decode_from;
    mret (mk (comparator e) (log_number e) (prev_log_number e) (next_file_number e)
            (last_sequence e) (compact_pointers e) (deleted_files e)
            (new_files e ++ [mk_new level meta]))
  else rfail (Stat.corruption ("VersionEdit: unknown tag " +:+ show_u64 tag)).

(** [while !input.is_empty()]: every iteration reads at least one byte. *)
Fixpoint decode_loop (fuel : nat) (e : t) : reader t := fun input =>
  if bool_decide (input = []) then (Ret e, input)
  else
    match fuel with
    | O => (Panic, input)
    | S fuel => (e ← decode_field e; decode_loop fuel e) input
    end.
Definition decode_from : reader t := fun input => decode_loop (length input) default_ input.
End VersionEdit.

(** ** Well-formed edits: the values fit their types and the levels exist *)

Definition meta_ok (m : FileMetaData.t) : Prop :=
  is_u64 (FileMetaData.number m) /\ is_u64 (FileMetaData.file_size m) /\
  is_u32 (len (FileMetaData.smallest m)) /\ is_u32 (len (FileMetaData.largest m)).
Definition level_ok (level : Z) : Prop := 0 <= level < NUM_LEVELS.
Definition opt_ok {A} (P : A -> Prop) (o : option A) : Prop :=
  match o with Some x => P x | None => True end.

Record edit_ok (e : VersionEdit.t) : Prop := {
  ok_comparator : opt_ok (fun c => is_u32 (len c)) (VersionEdit.comparator e);
  ok_log : opt_ok is_u64 (VersionEdit.log_number e);
  ok_prev : opt_ok is_u64 (VersionEdit.prev_log_number e);
  ok_next : opt_ok is_u64 (VersionEdit.next_file_number e);
  ok_last : opt_ok is_u64 (VersionEdit.last_sequence e);
  ok_pointers : Forall (fun p => level_ok (cp_level p) /\ is_u32 (len (cp_key p))) (VersionEdit.compact_pointers e);
  ok_deleted : Forall (fun d => level_ok (df_level d) /\ is_u64 (df_number d)) (VersionEdit.deleted_files e);
  ok_new : Forall (fun n => level_ok (nf_level n) /\ meta_ok (nf_meta n)) (VersionEdit.new_files e);
}.

(** Decoding the fields of [b] after those of [a]: the later of two single fields wins,
    the lists accumulate. *)
Definition merge (a b : VersionEdit.t) : VersionEdit.t :=
  let later {A} (x y : option A) := match y with Some _ => y | None => x end in
  VersionEdit.mk
    (later (VersionEdit.comparator a) (VersionEdit.comparator b))
    (later (VersionEdit.log_number a) (VersionEdit.log_number b))
    (later (VersionEdit.prev_log_number a) (VersionEdit.prev_log_number b))
    (later (VersionEdit.next_file_number a) (VersionEdit.next_file_number b))
    (later (VersionEdit.last_sequence a) (VersionEdit.last_sequence b))
    (VersionEdit.compact_pointers a ++ VersionEdit.compact_pointers b)
    (VersionEdit.deleted_files a ++ VersionEdit.deleted_files b)
    (VersionEdit.new_files a ++ VersionEdit.new_files b).

Lemma merge_default e : merge VersionEdit.default_ e = e.
Proof. by destruct e as [[] [] [] [] [] ? ? ?]. Qed.

(** ** How much a reader consumes *)

(** A successful call returns a value in [P] and consumes [k] bytes or more; no call
    panics. *)
Definition reads {A} (k : Z) (P : A -> Prop) (m : reader A) : Prop := forall input,
  match m input with
  | (Ret a, input') => P a /\ k + len input' <= len input
  | (Fail _, _) => True
  | (Panic, _) => False
  end.

Lemma reads_bind {A B} j k l (P : A -> Prop) (Q : B -> Prop) (m : reader A) (f : A -> reader B) :
  reads j P m -> (forall a, P a -> reads k Q (f a)) -> l <= j + k -> reads l Q (m ≫= f).
Proof.
  intros Hm Hf Hl input. specialize (Hm input). unfold mbind, action_bind.
  destruct (m input) as [[a|s|] i]; [|done..]. destruct Hm as [Ha Hi].
  specialize (Hf a Ha i). destruct (f a i) as [[b|s|] i']; [|done..]. intuition lia.
Qed.

Lemma reads_ret {A} (P : A -> Prop) a : P a -> reads 0 P (mret a).
Proof. intros Ha input. cbn. split; [done|lia]. Qed.

Lemma reads_fail {A} k (P : A -> Prop) s : reads k P (rfail s).
Proof. done. Qed.

Lemma reads_need {A} k (P : A -> Prop) (c : cursor A) m :
  (forall input a input', c input = (Some a, input') -> P a /\ k + len input' <= len input) -> reads k P (need c m).
Proof.
  intros Hc input. unfold need. destruct (c input) as [[a|] i] eqn:E; [|done]. by eapply Hc.
Qed.

Lemma get_varint64_reads m : reads 1 is_u64 (need get_varint64 m).
Proof.
  apply reads_need. intros input a input'. unfold get_varint64. case_match eqn:E; [|done].
  case_match. intros ?; simplify_eq. split.
  - eapply (get_varint_loop_range _ 64); [..|done]; [lia|intros; apply as_u64_range|lia].
  - apply get_varint_loop_suffix in E as (pre & -> & ?). len_lia.
Qed.

Lemma get_varint32_reads m : reads 1 is_u32 (need get_varint32 m).
Proof.
  apply reads_need. intros input a input' E. split; [by eapply get_varint32_range|].
  unfold get_varint32 in E. case_match eqn:E1; [|done]. case_match. simplify_eq.
  apply get_varint_loop_suffix in E1 as (pre & -> & ?). len_lia.
Qed.

Lemma get_slice_reads m : reads 1 (fun s => is_u32 (len s)) (need get_length_prefixed_slice m).
Proof.
  apply reads_need. intros input a input' E. unfold get_length_prefixed_slice in E.
  destruct (get_varint32 input) as [[n|] i] eqn:E1; [|done].
  pose proof (get_varint32_range _ _ _ E1) as Hn. unfold is_u32 in *.
  pose proof (get_varint32_reads "" input) as Hr. unfold need in Hr. rewrite E1 in Hr.
  case_match eqn:Hl; [done|]. simplify_eq. apply Z.ltb_ge in Hl.
  rewrite len_ztake, len_zdrop by lia. unfold is_u32 in *. lia.
Qed.

Lemma get_level_reads : reads 1 level_ok VersionEdit.get_level.
Proof.
  unfold VersionEdit.get_level. apply (reads_bind 1 0 _ is_u32); [apply get_varint32_reads| |lia].
  intros l Hl. case_match eqn:E; [apply reads_fail|]. apply reads_ret. unfold level_ok, is_u32 in *. lia.
Qed.

Lemma meta_reads : reads 1 meta_ok FileMetaData.decode_from.
Proof.
  unfold FileMetaData.decode_from.
  apply (reads_bind 1 0 _ is_u64); [apply get_varint64_reads| |lia]. intros n Hn.
  apply (reads_bind 1 0 _ is_u64); [apply get_varint64_reads| |lia]. intros s Hs.
  eapply (reads_bind 1 0); [apply get_slice_reads| |lia]. intros a Ha.
  eapply (reads_bind 1 0); [apply get_slice_reads| |lia]. intros b Hb.
  by apply reads_ret.
Qed.

(** Read one item into a field, given how the item is read. *)
Ltac read_item :=
  first
    [ apply reads_fail
    | apply reads_ret; split; cbn; try apply Forall_app_2; by repeat first [done | constructor]
    | eapply (reads_bind 1 0); [solve [apply get_varint64_reads | apply get_slice_reads
        | apply get_level_reads | apply meta_reads]| |lia]; intros; read_item ].

Lemma decode_field_reads e : edit_ok e -> reads 1 edit_ok (VersionEdit.decode_field e).
Proof.
  intros [? ? ? ? ? ? ? ?]. unfold VersionEdit.decode_field.
  eapply (reads_bind 1 0); [apply get_varint32_reads| |lia]. intros tag _.
  repeat (case_match; [read_item|]). apply reads_fail.
Qed.

(** Any fuel that covers the input gives the same result. *)
Lemma decode_loop_fuel f g e input : (length input <= f)%nat -> (length input <= g)%nat -> edit_ok e ->
  VersionEdit.decode_loop f e input = VersionEdit.decode_loop g e input.
Proof.
  revert g e input. induction f as [|f IH]; intros g e input Hf Hg He.
  { destruct input; [by destruct g|cbn in Hf; lia]. }
  destruct g as [|g]; [destruct input; [done|cbn in Hg; lia]|].
  cbn [VersionEdit.decode_loop]. case_bool_decide; [done|].
  pose proof (decode_field_reads e He input) as Hr. unfold mbind, action_bind.
  destruct (VersionEdit.decode_field e input) as [[e'|s|] i]; [|done..].
  destruct Hr as [He' Hi]. unfold len in *. apply IH; [lia..|done].
Qed.

Lemma decode_loop_step e input e' input' : edit_ok e -> input <> [] ->
  VersionEdit.decode_field e input = (Ret e', input') ->
  VersionEdit.decode_loop (length input) e input = VersionEdit.decode_loop (length input') e' input'.
Proof.
  intros He Hi E. pose proof (decode_field_reads e He input) as Hr. rewrite E in Hr.
  destruct Hr as [He' Hl]. unfold len in Hl.
  destruct (length input) as [|n] eqn:En; [destruct input; [done|cbn in En; lia]|].
  cbn [VersionEdit.decode_loop]. rewrite bool_decide_eq_false_2 by done.
  rewrite (action_bind_ret _ _ _ _ _ E). apply decode_loop_fuel; [lia..|done].
Qed.

(** The decoder is total: on arbitrary bytes it returns a well-formed edit or an error. *)
Lemma decode_loop_total f e input : (length input <= f)%nat -> edit_ok e ->
  match (VersionEdit.decode_loop f e input).1 with Ret e' => edit_ok e' | Fail _ => True | Panic => False end.
Proof.
  revert e input. induction f as [|f IH]; intros e input Hf He; cbn [VersionEdit.decode_loop].
  { destruct input; [done|cbn in Hf; lia]. }
  case_bool_decide; [done|].
  pose proof (decode_field_reads e He input) as Hr. unfold mbind, action_bind.
  destruct (VersionEdit.decode_field e input) as [[e'|s|] i]; [|done..].
  destruct Hr as [He' Hi]. unfold len in *. apply IH; [lia|done].
Qed.

(** ** Round trips *)

Lemma put_varint32_cons v rest : is_u32 v -> put_varint32 [] v ++ rest <> [].
Proof. intros Hv E. pose proof (put_varint32_len v Hv). apply (f_equal len) in E. len_lia. Qed.

Lemma need_put {A} (c : cursor A) m pre a rest : c (pre ++ rest) = (Some a, rest) ->
  need c m (pre ++ rest) = (Ret a, rest).
Proof. apply need_some. Qed.

Lemma meta_encode_app m dst : FileMetaData.encode m dst = dst ++ FileMetaData.encode m [].
Proof.
  unfold FileMetaData.encode.
  rewrite (put_length_prefixed_slice_app _ (FileMetaData.largest m)),
    (put_length_prefixed_slice_app _ (FileMetaData.smallest m)),
    (put_varint64_app _ (FileMetaData.file_size m)), (put_varint64_app dst).
  rewrite (put_length_prefixed_slice_app (put_length_prefixed_slice _ _) (FileMetaData.largest m)),
    (put_length_prefixed_slice_app (put_varint64 _ _) (FileMetaData.smallest m)),
    (put_varint64_app (put_varint64 [] (FileMetaData.number m)) (FileMetaData.file_size m)).
  by rewrite <- !app_assoc.
Qed.

Lemma meta_decode_encode m rest : meta_ok m ->
  FileMetaData.decode_from (FileMetaData.encode m [] ++ rest) = (Ret m, rest).
Proof.
  intros (Hn & Hs & Ha & Hb). unfold FileMetaData.encode, FileMetaData.decode_from.
  rewrite (put_length_prefixed_slice_app (put_length_prefixed_slice _ _)),
    (put_length_prefixed_slice_app (put_varint64 _ _)),
    (put_varint64_app (put_varint64 [] _)), <- !app_assoc.
  erewrite action_bind_ret by (apply need_put, get_varint64_put, Hn).
  erewrite action_bind_ret by (apply need_put, get_varint64_put, Hs).
  erewrite action_bind_ret by (apply need_put, get_length_prefixed_put, Ha).
  erewrite action_bind_ret by (apply need_put, get_length_prefixed_put, Hb).
  by destruct m.
Qed.

Lemma get_level_put l rest : level_ok l ->
  VersionEdit.get_level (put_varint32 [] l ++ rest) = (Ret l, rest).
Proof.
  intros [H0 H7]. unfold VersionEdit.get_level.
  erewrite action_bind_ret by (apply need_put, get_varint32_put; unfold is_u32, NUM_LEVELS in *; lia).
  by rewrite (proj2 (Z.leb_gt _ _)).
Qed.

(** Decoding consumes the bytes [b] and turns [e] into [e'], whatever follows. *)
Definition decodes (e : VersionEdit.t) (b : bytes) (e' : VersionEdit.t) : Prop := forall rest,
  VersionEdit.decode_loop (length (b ++ rest)) e (b ++ rest)
  = VersionEdit.decode_loop (length rest) e' rest.

Lemma decodes_nil e : decodes e [] e.
Proof. done. Qed.

Lemma decodes_app e b e' c e'' : decodes e b e' -> decodes e' c e'' -> decodes e (b ++ c) e''.
Proof. intros H1 H2 rest. rewrite <- app_assoc, H1. apply H2. Qed.

Lemma decodes_field e tag b e' : edit_ok e -> is_u32 tag ->
  (forall rest, VersionEdit.decode_field e (put_varint32 [] tag ++ b ++ rest) = (Ret e', rest)) ->
  decodes e (put_varint32 [] tag ++ b) e'.
Proof.
  intros He Ht H rest. rewrite <- app_assoc. apply decode_loop_step; [done| |apply H].
  by apply put_varint32_cons.
Qed.

Ltac read_tag := intros rest; unfold VersionEdit.decode_field;
  erewrite action_bind_ret by (apply need_put, get_varint32_put; unfold is_u32; lia); cbn [Z.eqb Pos.eqb].

Lemma u32_small z : 0 <= z < 128 -> is_u32 z.
Proof. unfold is_u32. lia. Qed.

Lemma level_u32 l : level_ok l -> is_u32 l.
Proof. unfold level_ok, NUM_LEVELS, is_u32. lia. Qed.

Definition with_pointer (e : VersionEdit.t) p :=
  merge e (VersionEdit.mk None None None None None [p] [] []).
Definition with_deleted (e : VersionEdit.t) d :=
  merge e (VersionEdit.mk None None None None None [] [d] []).
Definition with_new (e : VersionEdit.t) n :=
  merge e (VersionEdit.mk None None None None None [] [] [n]).

Lemma opt_later {A} (P : A -> Prop) (x y : option A) : opt_ok P x -> opt_ok P y ->
  opt_ok P (match y with Some _ => y | None => x end).
Proof. by destruct y. Qed.

Lemma merge_ok a b : edit_ok a -> edit_ok b -> edit_ok (merge a b).
Proof. intros [] []. split; cbn; try (by apply Forall_app_2); by apply opt_later. Qed.

Lemma decodes_pointer e p : edit_ok e -> level_ok (cp_level p) -> is_u32 (len (cp_key p)) ->
  decodes e (VersionEdit.put_pointer [] p) (with_pointer e p).
Proof.
  intros He Hl Hk. unfold VersionEdit.put_pointer.
  rewrite put_length_prefixed_slice_app, (put_varint32_app (put_varint32 _ _)), <- app_assoc.
  apply decodes_field; [done|by apply u32_small|]. read_tag. rewrite <- app_assoc.
  erewrite action_bind_ret by (by apply get_level_put).
  erewrite action_bind_ret by (by apply need_put, get_length_prefixed_put).
  unfold with_pointer, merge. cbn. rewrite !app_nil_r. by destruct p.
Qed.

Lemma decodes_deleted e d : edit_ok e -> level_ok (df_level d) -> is_u64 (df_number d) ->
  decodes e (VersionEdit.put_deleted [] d) (with_deleted e d).
Proof.
  intros He Hl Hk. unfold VersionEdit.put_deleted.
  rewrite put_varint64_app, (put_varint32_app (put_varint32 _ _)), <- app_assoc.
  apply decodes_field; [done|by apply u32_small|]. read_tag. rewrite <- app_assoc.
  erewrite action_bind_ret by (by apply get_level_put).
  erewrite action_bind_ret by (by apply need_put, get_varint64_put).
  unfold with_deleted, merge. cbn. rewrite !app_nil_r. by destruct d.
Qed.

Lemma decodes_new e n : edit_ok e -> level_ok (nf_level n) -> meta_ok (nf_meta n) ->
  decodes e (VersionEdit.put_new [] n) (with_new e n).
Proof.
  intros He Hl Hk. unfold VersionEdit.put_new.
  rewrite meta_encode_app, (put_varint32_app (put_varint32 _ _)), <- app_assoc.
  apply decodes_field; [done|by apply u32_small|]. read_tag. rewrite <- app_assoc.
  erewrite action_bind_ret by (by apply get_level_put).
  erewrite action_bind_ret by (by apply meta_decode_encode).
  unfold with_new, merge. cbn. rewrite !app_nil_r. by destruct n.
Qed.

(** The single fields. *)
Definition with_field (tag : Z) (e : VersionEdit.t) (v : Z) : VersionEdit.t :=
  merge e (VersionEdit.mk None
    (if tag =? 2 then Some v else None) (if tag =? 9 then Some v else None)
    (if tag =? 3 then Some v else None) (if tag =? 4 then Some v else None) [] [] []).

Definition with_opt (tag : Z) (o : option Z) (e : VersionEdit.t) : VersionEdit.t :=
  match o with Some v => with_field tag e v | None => e end.

Lemma decodes_number tag e o : tag ∈ [2; 9; 3; 4] -> edit_ok e -> opt_ok is_u64 o ->
  decodes e (VersionEdit.put_opt put_varint64 tag o []) (with_opt tag o e).
Proof.
  intros Ht He Ho. unfold with_opt. destruct o as [v|]; cbn [VersionEdit.put_opt]; [|apply decodes_nil].
  rewrite put_varint64_app. repeat (apply elem_of_cons in Ht as [->|Ht]); [..|by apply elem_of_nil in Ht];
    (apply decodes_field; [done|by apply u32_small|]; read_tag;
     erewrite action_bind_ret by (by apply need_put, get_varint64_put);
     unfold with_field, merge; cbn; by rewrite !app_nil_r).
Qed.

Lemma decodes_comparator e o : edit_ok e -> opt_ok (fun c => is_u32 (len c)) o ->
  decodes e (VersionEdit.put_opt put_length_prefixed_slice 1 o [])
    (merge e (VersionEdit.mk o None None None None [] [] [])).
Proof.
  intros He Ho. destruct o as [v|]; cbn [VersionEdit.put_opt].
  - rewrite put_length_prefixed_slice_app. apply decodes_field; [done|by apply u32_small|]. read_tag.
    erewrite action_bind_ret by (by apply need_put, get_length_prefixed_put).
    unfold merge. cbn. by rewrite !app_nil_r.
  - replace (merge _ _) with e; [apply decodes_nil|]. unfold merge. cbn. rewrite !app_nil_r. by destruct e.
Qed.

Lemma decodes_fold {A} (put : bytes -> A -> bytes) (step : VersionEdit.t -> A -> VersionEdit.t) (P : A -> Prop) l e :
  (forall dst x, put dst x = dst ++ put [] x) ->
  (forall e x, edit_ok e -> P x -> decodes e (put [] x) (step e x) /\ edit_ok (step e x)) ->
  Forall P l -> edit_ok e ->
  decodes e (fold_left put l []) (fold_left step l e) /\ edit_ok (fold_left step l e).
Proof.
  intros Hp Hs Hl. revert e. induction Hl as [|x l Hx Hl IH]; intros e He.
  { split; [apply decodes_nil|done]. }
  cbn [fold_left]. destruct (Hs e x He Hx) as [H1 H2]. destruct (IH _ H2) as [H3 H4]. split; [|done].
  assert (Happ : forall l dst, fold_left put l dst = dst ++ fold_left put l []).
  { clear -Hp. induction l as [|y l IH]; intros dst; cbn; [by rewrite app_nil_r|].
    rewrite IH, (IH (put [] y)), Hp. by rewrite app_assoc. }
  rewrite Happ. by eapply decodes_app.
Qed.

Lemma put_opt_app {A} (put : bytes -> A -> bytes) tag o dst :
  (forall dst x, put dst x = dst ++ put [] x) ->
  VersionEdit.put_opt put tag o dst = dst ++ VersionEdit.put_opt put tag o [].
Proof.
  intros Hp. destruct o; cbn; [|by rewrite app_nil_r].
  rewrite Hp, put_varint32_app, (Hp (put_varint32 [] tag)). by rewrite <- app_assoc.
Qed.

Lemma fold_put_app {A} (put : bytes -> A -> bytes) l dst :
  (forall dst x, put dst x = dst ++ put [] x) -> fold_left put l dst = dst ++ fold_left put l [].
Proof.
  intros Hp. revert dst. induction l as [|y l IH]; intros dst; cbn; [by rewrite app_nil_r|].
  rewrite IH, (IH (put [] y)), Hp. by rewrite app_assoc.
Qed.

Lemma put_pointer_app dst p : VersionEdit.put_pointer dst p = dst ++ VersionEdit.put_pointer [] p.
Proof.
  unfold VersionEdit.put_pointer.
  rewrite (put_length_prefixed_slice_app (put_varint32 _ _)), (put_varint32_app (put_varint32 dst _)), (put_varint32_app dst).
  rewrite (put_length_prefixed_slice_app (put_varint32 (put_varint32 [] _) _)), (put_varint32_app (put_varint32 [] _)).
  by rewrite <- !app_assoc.
Qed.
Lemma put_deleted_app dst d : VersionEdit.put_deleted dst d = dst ++ VersionEdit.put_deleted [] d.
Proof.
  unfold VersionEdit.put_deleted.
  rewrite (put_varint64_app (put_varint32 _ _)), (put_varint32_app (put_varint32 dst _)), (put_varint32_app dst).
  rewrite (put_varint64_app (put_varint32 (put_varint32 [] _) _)), (put_varint32_app (put_varint32 [] _)).
  by rewrite <- !app_assoc.
Qed.
Lemma put_new_app dst n : VersionEdit.put_new dst n = dst ++ VersionEdit.put_new [] n.
Proof.
  unfold VersionEdit.put_new.
  rewrite (meta_encode_app _ (put_varint32 _ _)), (put_varint32_app (put_varint32 dst _)), (put_varint32_app dst).
  rewrite (meta_encode_app _ (put_varint32 (put_varint32 [] _) _)), (put_varint32_app (put_varint32 [] _)).
  by rewrite <- !app_assoc.
Qed.

(** The encoding, field by field. *)
Lemma encode_fields e dst : VersionEdit.encode e dst = dst ++
  VersionEdit.put_opt put_length_prefixed_slice 1 (VersionEdit.comparator e) [] ++
  VersionEdit.put_opt put_varint64 2 (VersionEdit.log_number e) [] ++
  VersionEdit.put_opt put_varint64 9 (VersionEdit.prev_log_number e) [] ++
  VersionEdit.put_opt put_varint64 3 (VersionEdit.next_file_number e) [] ++
  VersionEdit.put_opt put_varint64 4 (VersionEdit.last_sequence e) [] ++
  fold_left VersionEdit.put_pointer (VersionEdit.compact_pointers e) [] ++
  fold_left VersionEdit.put_deleted (VersionEdit.deleted_files e) [] ++
  fold_left VersionEdit.put_new (VersionEdit.new_files e) [].
Proof.
  unfold VersionEdit.encode.
  rewrite (fold_put_app VersionEdit.put_new) by apply put_new_app.
  rewrite (fold_put_app VersionEdit.put_deleted) by apply put_deleted_app.
  rewrite (fold_put_app VersionEdit.put_pointer) by apply put_pointer_app.
  do 4 rewrite (put_opt_app put_varint64) by apply put_varint64_app.
  rewrite (put_opt_app put_length_prefixed_slice) by apply put_length_prefixed_slice_app.
  by rewrite <- !app_assoc.
Qed.

Lemma fold_pointers l e : fold_left with_pointer l e = merge e (VersionEdit.mk None None None None None l [] []).
Proof.
  revert e. induction l as [|x l IH]; intros e; cbn [fold_left].
  - unfold merge. cbn. rewrite !app_nil_r. by destruct e.
  - rewrite IH. unfold with_pointer, merge. cbn. by rewrite !app_nil_r, <- app_assoc.
Qed.
Lemma fold_deleted l e : fold_left with_deleted l e = merge e (VersionEdit.mk None None None None None [] l []).
Proof.
  revert e. induction l as [|x l IH]; intros e; cbn [fold_left].
  - unfold merge. cbn. rewrite !app_nil_r. by destruct e.
  - rewrite IH. unfold with_deleted, merge. cbn. by rewrite !app_nil_r, <- app_assoc.
Qed.
Lemma fold_new l e : fold_left with_new l e = merge e (VersionEdit.mk None None None None None [] [] l).
Proof.
  revert e. induction l as [|x l IH]; intros e; cbn [fold_left].
  - unfold merge. cbn. rewrite !app_nil_r. by destruct e.
  - rewrite IH. unfold with_new, merge. cbn. by rewrite !app_nil_r, <- app_assoc.
Qed.

Lemma default_ok : edit_ok VersionEdit.default_.
Proof. by split. Qed.

Lemma with_field_ok tag e v : edit_ok e -> is_u64 v -> edit_ok (with_field tag e v).
Proof. intros He Hv. apply merge_ok; [done|]. split; cbn; try done; by case_match. Qed.

Lemma number_ok tag e o : edit_ok e -> opt_ok is_u64 o ->
  edit_ok (with_opt tag o e).
Proof. unfold with_opt. destruct o; [by apply with_field_ok|done]. Qed.

Lemma items_ok e : edit_ok e ->
  edit_ok (VersionEdit.mk (VersionEdit.comparator e) None None None None [] [] []).
Proof. intros []. by split. Qed.

Definition singles (a e : VersionEdit.t) : VersionEdit.t :=
  with_opt 4 (VersionEdit.last_sequence e) (with_opt 3 (VersionEdit.next_file_number e)
    (with_opt 9 (VersionEdit.prev_log_number e) (with_opt 2 (VersionEdit.log_number e)
      (merge a (VersionEdit.mk (VersionEdit.comparator e) None None None None [] [] []))))).

Lemma decodes_singles a e : edit_ok a -> edit_ok e ->
  decodes a (VersionEdit.put_opt put_length_prefixed_slice 1 (VersionEdit.comparator e) [] ++
    VersionEdit.put_opt put_varint64 2 (VersionEdit.log_number e) [] ++
    VersionEdit.put_opt put_varint64 9 (VersionEdit.prev_log_number e) [] ++
    VersionEdit.put_opt put_varint64 3 (VersionEdit.next_file_number e) [] ++
    VersionEdit.put_opt put_varint64 4 (VersionEdit.last_sequence e) []) (singles a e) /\
  edit_ok (singles a e).
Proof.
  intros Ha He. pose proof He as [Hc Hl Hp Hn Hs _ _ _]. unfold singles.
  pose proof (merge_ok a _ Ha (items_ok e He)) as H1.
  pose proof (number_ok 2 _ _ H1 Hl) as H2. pose proof (number_ok 9 _ _ H2 Hp) as H3.
  pose proof (number_ok 3 _ _ H3 Hn) as H4. pose proof (number_ok 4 _ _ H4 Hs) as H5.
  split; [|exact H5]. eapply decodes_app; [by apply decodes_comparator|].
  do 3 (eapply decodes_app; [by apply decodes_number; [set_solver|..]|]).
  by apply decodes_number; [set_solver|..].
Qed.

Lemma step_pointer e x : edit_ok e -> level_ok (cp_level x) /\ is_u32 (len (cp_key x)) ->
  decodes e (VersionEdit.put_pointer [] x) (with_pointer e x) /\ edit_ok (with_pointer e x).
Proof.
  intros He [? ?]. split; [by apply decodes_pointer|]. apply merge_ok; [done|]. split; cbn; auto.
Qed.

Lemma step_deleted e x : edit_ok e -> level_ok (df_level x) /\ is_u64 (df_number x) ->
  decodes e (VersionEdit.put_deleted [] x) (with_deleted e x) /\ edit_ok (with_deleted e x).
Proof.
  intros He [? ?]. split; [by apply decodes_deleted|]. apply merge_ok; [done|]. split; cbn; auto.
Qed.

Lemma step_new e x : edit_ok e -> level_ok (nf_level x) /\ meta_ok (nf_meta x) ->
  decodes e (VersionEdit.put_new [] x) (with_new e x) /\ edit_ok (with_new e x).
Proof.
  intros He [? ?]. split; [by apply decodes_new|]. apply merge_ok; [done|]. split; cbn; auto.
Qed.

Definition lists (a e : VersionEdit.t) : VersionEdit.t :=
  fold_left with_new (VersionEdit.new_files e)
    (fold_left with_deleted (VersionEdit.deleted_files e)
      (fold_left with_pointer (VersionEdit.compact_pointers e) a)).

Lemma decodes_lists a e : edit_ok a -> edit_ok e ->
  decodes a (fold_left VersionEdit.put_pointer (VersionEdit.compact_pointers e) [] ++
    fold_left VersionEdit.put_deleted (VersionEdit.deleted_files e) [] ++
    fold_left VersionEdit.put_new (VersionEdit.new_files e) []) (lists a e).
Proof.
  intros Ha He. pose proof He as [_ _ _ _ _ Hps Hds Hns].
  destruct (decodes_fold _ with_pointer _ _ a put_pointer_app step_pointer Hps Ha) as [D1 H1].
  destruct (decodes_fold _ with_deleted _ _ _ put_deleted_app step_deleted Hds H1) as [D2 H2].
  destruct (decodes_fold _ with_new _ _ _ put_new_app step_new Hns H2) as [D3 _].
  eapply decodes_app; [exact D1|]. by eapply decodes_app.
Qed.

Lemma merge_assoc a b c : merge (merge a b) c = merge a (merge b c).
Proof.
  unfold merge. cbn. rewrite <- !app_assoc.
  f_equal; repeat match goal with |- context [match ?o with _ => _ end] => destruct o end; done.
Qed.

Lemma with_opt_merge tag o a b : with_opt tag o (merge a b) = merge a (with_opt tag o b).
Proof. destruct o; [apply merge_assoc|done]. Qed.

Lemma singles_merge a e : singles a e = merge a
  (VersionEdit.mk (VersionEdit.comparator e) (VersionEdit.log_number e) (VersionEdit.prev_log_number e)
     (VersionEdit.next_file_number e) (VersionEdit.last_sequence e) [] [] []).
Proof.
  unfold singles. rewrite !with_opt_merge. f_equal.
  destruct (VersionEdit.log_number e), (VersionEdit.prev_log_number e),
    (VersionEdit.next_file_number e), (VersionEdit.last_sequence e); reflexivity.
Qed.

Lemma lists_singles a e : lists (singles a e) e = merge a e.
Proof.
  unfold lists. rewrite fold_new, fold_deleted, fold_pointers, singles_merge, !merge_assoc. f_equal.
  unfold merge. cbn. rewrite !app_nil_r. by destruct e.
Qed.

Lemma decodes_encode a e : edit_ok a -> edit_ok e -> decodes a (VersionEdit.encode e []) (merge a e).
Proof.
  intros Ha He. rewrite encode_fields. cbn [app].
  destruct (decodes_singles a e Ha He) as [D1 H1].
  pose proof (decodes_app _ _ _ _ _ D1 (decodes_lists _ e H1 He)) as D.
  rewrite lists_singles, <- !app_assoc in D. exact D.
Qed.

Lemma encode_app e dst : VersionEdit.encode e dst = dst ++ VersionEdit.encode e [].
Proof. by rewrite encode_fields, (encode_fields e []). Qed.

(** ** Claims *)

(** C33: (Manifest records) A well-formed version edit survives the manifest: decoding its
    encoding gives it back and consumes every byte, and decoding two encodings one after
    the other gives their merge, the later of two single fields winning and the lists
    accumulating.  The two encoders of a file's metadata agree. *)
Theorem version_edit_roundtrip a e : edit_ok a -> edit_ok e ->
  VersionEdit.decode_from (VersionEdit.encode e []) = (Ret e, []) /\
  VersionEdit.decode_from (VersionEdit.encode e (VersionEdit.encode a [])) = (Ret (merge a e), []) /\
  (forall m dst, FileMetaData.encode_streaming dst (FileMetaData.number m) (FileMetaData.file_size m)
     (FileMetaData.smallest m) (FileMetaData.largest m) = FileMetaData.encode m dst).
Proof.
  intros Ha He. split_and!; [| |done].
  - pose proof (decodes_encode _ e default_ok He []) as H. rewrite app_nil_r, merge_default in H. exact H.
  - rewrite encode_app.
    pose proof (decodes_encode _ a default_ok Ha) as D. rewrite merge_default in D.
    pose proof (decodes_app _ _ _ _ _ D (decodes_encode a e Ha He) []) as H.
    rewrite app_nil_r in H. exact H.
Qed.

Lemma version_edit_roundtrip_witness :
  let e := VersionEdit.mk (Some [as_u8 98]) (Some 3) None (Some 300) (Some (2 ^ 64 - 1))
             [mk_pointer 1 [as_u8 1]] [mk_deleted 6 9]
             [mk_new 0 (FileMetaData.mk 4 1000 [as_u8 1] [as_u8 2; as_u8 3])] in
  edit_ok e /\ VersionEdit.decode_from (VersionEdit.encode e []) = (Ret e, []).
Proof.
  cbv zeta. match goal with |- edit_ok ?e /\ _ => assert (He : edit_ok e) end.
  { split; cbn; unfold meta_ok, level_ok, NUM_LEVELS, is_u64, is_u32, len; cbn; rewrite ?Forall_singleton; cbn; try lia; by constructor. }
  split; [exact He|]. exact (proj1 (version_edit_roundtrip _ _ default_ok He)).
Defined.

(** C34: (Manifest decoder) On arbitrary bytes the decoder terminates without a panic, and
    whatever edit it returns is well formed: its levels exist, its numbers are 64-bit and
    its keys shorter than 4 GiB. *)
Theorem version_edit_decode_total input :
  match (VersionEdit.decode_from input).1 with Ret e => edit_ok e | Fail _ => True | Panic => False end.
Proof. apply decode_loop_total; [done|apply default_ok]. Qed.
