(* ===== verification/Version.v ===== *)
(** * Version.v: [Version] and [VersionBuilder] of [version_set/version_set.rs].

    The files of every level: which of them a key range touches, how a lookup walks them,
    and how an edit gives the next version.  The seek statistics of a version are shared
    behind a lock; they are fields here, and a method that changes them is an [action] on
    the version. *)
From S2P Require Import Prelude Status Comparator Format Filter VersionEdit Sort Table.
From Stdlib Require Import Floats.SpecFloat.

Definition TARGET_FILE_SIZE : Z := 2097152.
Definition MAX_GRANDPARENT_OVERLAP_BYTES : Z := 20971520.
Definition MAX_BYTES_FOR_LEVEL_BASE : Z := 10485760.
Definition MAX_BYTES_FOR_LEVEL_MULTIPLIER : Z := 10.

Abbreviation FileMeta := FileMetaData.t (only parsing).
Abbreviation smallest := FileMetaData.smallest (only parsing).
Abbreviation largest := FileMetaData.largest (only parsing).

(** ** [f64] *)

Definition f64_div : spec_float -> spec_float -> spec_float := SFdiv 53 1024.
Definition f64_minus_one : spec_float := SFopp (f64_of_Z 1).
(** [while lvl > 1 { result *= mult; lvl -= 1; }] *)
Fixpoint level_loop (lvl : nat) (result : spec_float) : spec_float :=
  match lvl with
  | S (S _ as lvl) => level_loop lvl (f64_mul result (f64_of_Z MAX_BYTES_FOR_LEVEL_MULTIPLIER))
  | _ => result
  end.
Definition max_bytes_for_level (level : Z) : spec_float :=
  level_loop (Z.to_nat level) (f64_of_Z MAX_BYTES_FOR_LEVEL_BASE).

(** [.sum()] on [u64]. *)
Definition total_file_size (files : list FileMeta) : Z :=
  fold_left (fun acc f => as_u64 (acc + FileMetaData.file_size f)) files 0.

(** [&k[..k.len() - 8]]: of a key shorter than its tag the subtraction underflows. *)
Definition strip_tag (k : bytes) : outcome bytes := n ← usub (len k) 8; slice_to k n.

(** [x as i64] of a [u64]. *)
Definition as_i64 (z : Z) : Z := (z + 2 ^ 63) mod 2 ^ 64 - 2 ^ 63.

Section find_file.
Context {C : Type} `{Comparator C}.

(** [while left < right]: the interval shrinks in every round. *)
Fixpoint find_loop (fuel : nat) (icmp : InternalKeyComparator C) (files : list FileMeta) (key : bytes) (left right : Z)
  : outcome Z :=
  if left <? right then
    match fuel with
    | O => Panic
    | S fuel =>
        let mid := left + (right - left) / 2 in
        f ← index files mid;
        o ← compare icmp (largest f) key;
        if is_lt o then find_loop fuel icmp files key (mid + 1) right
        else find_loop fuel icmp files key left mid
    end
  else Ret left.
Definition find_file (icmp : InternalKeyComparator C) (files : list FileMeta) (key : bytes) : outcome Z :=
  find_loop (length files) icmp files key 0 (len files).
End find_file.

(** ** [Version] *)

Module Version.
Record t (C : Type) := mk {
  files : list (list FileMeta);
  comparator : InternalKeyComparator C;
  compaction_score : spec_float;
  compaction_level : Z;
  seek_stats : gmap Z Z;
  file_to_compact : option (Z * Z);
}.
Arguments mk {C} _ _ _ _ _ _.
Arguments files {C} _.
Arguments comparator {C} _.
Arguments compaction_score {C} _.
Arguments compaction_level {C} _.
Arguments seek_stats {C} _.
Arguments file_to_compact {C} _.

Section ops.
Context {C : Type} `{Comparator C}.
Implicit Types self : t C.

Definition new (c : InternalKeyComparator C) : t C :=
  mk (replicate (Z.to_nat NUM_LEVELS) []) c f64_minus_one (-1) ∅ None.
Definition with_files self fs : t C :=
  mk fs (comparator self) (compaction_score self) (compaction_level self) (seek_stats self) (file_to_compact self).
Definition with_stats self st : t C :=
  mk (files self) (comparator self) (compaction_score self) (compaction_level self) st (file_to_compact self).
Definition with_file_to_compact self f : t C :=
  mk (files self) (comparator self) (compaction_score self) (compaction_level self) (seek_stats self) f.

Definition level_files self (level : Z) : outcome (list FileMeta) := index (files self) level.
Definition num_files self (level : Z) : outcome Z := len <$> level_files self level.

(** [for level in 0..(NUM_LEVELS - 1)] *)
Definition level_score (level : Z) (fs : list FileMeta) : spec_float :=
  if level =? 0 then f64_div (f64_of_Z (len fs)) (f64_of_Z L0_COMPACTION_TRIGGER)
  else f64_div (f64_of_Z (total_file_size fs)) (max_bytes_for_level level).
Fixpoint score_loop (levels : list Z) self (best : spec_float * Z) : outcome (spec_float * Z) :=
  match levels with
  | [] => Ret best
  | level :: levels =>
      fs ← level_files self level;
      let score := level_score level fs in
      score_loop levels self (if SFltb best.1 score then (score, level) else best)
  end.
Definition levels_from (a b : Z) : list Z := seqZ a (b - a).
Definition finalize self : outcome (t C) :=
  '(best_score, best_level) ← score_loop (levels_from 0 (NUM_LEVELS - 1)) self (f64_minus_one, -1);
  Ret (mk (files self) (comparator self) best_score best_level (seek_stats self) (file_to_compact self)).

(** *** [get_overlapping_inputs] *)

(** What the code does with a file that is not skipped: the range it grows to, and whether
    it starts over. *)
Definition grow_begin (ucmp : C) (f_start : bytes) (begin : option bytes) : outcome (option bytes * bool) :=
  match begin with
  | Some b => o ← compare ucmp f_start b; Ret (if is_lt o then (Some f_start, true) else (begin, false))
  | None => Ret (Some f_start, false)
  end.
Definition grow_end (ucmp : C) (f_limit : bytes) (end_ : option bytes) : outcome (option bytes * bool) :=
  match end_ with
  | Some e => o ← compare ucmp f_limit e; Ret (if is_gt o then (Some f_limit, true) else (end_, false))
  | None => Ret (Some f_limit, false)
  end.
Definition before_begin (ucmp : C) (f_limit : bytes) (begin : option bytes) : outcome bool :=
  match begin with Some b => o ← compare ucmp f_limit b; Ret (is_lt o) | None => Ret false end.
Definition after_end (ucmp : C) (f_start : bytes) (end_ : option bytes) : outcome bool :=
  match end_ with Some e => o ← compare ucmp f_start e; Ret (is_gt o) | None => Ret false end.

(** [while i < files.len()].  Starting over extends the range to the bound of a file, which
    [2 * files.len()] restarts exhaust: [fuel_of] rounds are enough
    ([overlapping_inputs_spec] in VersionCorrect.v). *)
Fixpoint overlap_loop (fuel : nat) (ucmp : C) (level : Z) (fs : list FileMeta) (i : Z) (begin end_ : option bytes)
    (result : list FileMeta) : outcome (list FileMeta) :=
  if i <? len fs then
    match fuel with
    | O => Panic
    | S fuel =>
        f ← index fs i;
        let i := i + 1 in
        f_start ← strip_tag (smallest f);
        f_limit ← strip_tag (largest f);
        skip ← before_begin ucmp f_limit begin;
        if skip : bool then overlap_loop fuel ucmp level fs i begin end_ result else
        skip ← after_end ucmp f_start end_;
        if skip : bool then overlap_loop fuel ucmp level fs i begin end_ result else
        let result := result ++ [f] in
        if level =? 0 then
          '(begin, r1) ← grow_begin ucmp f_start begin;
          '(end_, r2) ← grow_end ucmp f_limit end_;
          if r1 || r2 then overlap_loop fuel ucmp level fs 0 begin end_ []
          else overlap_loop fuel ucmp level fs i begin end_ result
        else overlap_loop fuel ucmp level fs i begin end_ result
    end
  else Ret result.
Definition overlap_fuel (fs : list FileMeta) : nat := (2 * length fs + 1) * (length fs + 1).
Definition get_overlapping_inputs self (level : Z) (user_begin user_end : option bytes) : outcome (list FileMeta) :=
  fs ← level_files self level;
  overlap_loop (overlap_fuel fs) (user_comparator (comparator self)) level fs 0 user_begin user_end [].
Definition overlap_in_level self (level : Z) (begin end_ : option bytes) : outcome bool :=
  r ← get_overlapping_inputs self level begin end_; Ret (negb (bool_decide (r = []))).

(** [while level < MAX_MEM_COMPACT_LEVEL] *)
Fixpoint pick_level_loop (fuel : nat) self (s l : bytes) (level : Z) : outcome Z :=
  if level <? MAX_MEM_COMPACT_LEVEL then
    match fuel with
    | O => Panic
    | S fuel =>
        o ← overlap_in_level self (level + 1) (Some s) (Some l);
        if o : bool then Ret level else
        stop ← (if level + 2 <? NUM_LEVELS then
                  overlaps ← get_overlapping_inputs self (level + 2) (Some s) (Some l);
                  Ret (total_file_size overlaps >? MAX_GRANDPARENT_OVERLAP_BYTES)
                else Ret false);
        if stop : bool then Ret level else pick_level_loop fuel self s l (level + 1)
    end
  else Ret level.
Definition pick_level_for_memtable_output self (smallest_user_key largest_user_key : bytes) : outcome Z :=
  o ← overlap_in_level self 0 (Some smallest_user_key) (Some largest_user_key);
  if o : bool then Ret 0
  else pick_level_loop (Z.to_nat MAX_MEM_COMPACT_LEVEL) self smallest_user_key largest_user_key 0.

(** *** Seek statistics *)

Definition take_file_to_compact : action (t C) (option (Z * Z)) := fun self =>
  (Ret (file_to_compact self), with_file_to_compact self None).
Definition has_file_to_compact self : bool := match file_to_compact self with Some _ => true | None => false end.
Definition init_seek_allowance (file_number file_size : Z) self : t C :=
  let allowed := Z.max (Z.quot (as_i64 file_size) READ_BYTES_PERIOD) 100 in
  with_stats self (<[file_number := allowed]> (seek_stats self)).
Definition decrement_seek_allowance (level file_number : Z) : action (t C) bool := fun self =>
  let entry := as_i64 (default 0 (seek_stats self !! file_number) - 1) in
  let self := with_stats self (<[file_number := entry]> (seek_stats self)) in
  if (entry <=? 0) && negb (has_file_to_compact self)
  then (Ret true, with_file_to_compact self (Some (level, file_number)))
  else (Ret false, self).

(** [smallest_uk <= user_key && user_key <= largest_uk] *)
Definition covers (ucmp : C) (user_key : bytes) (f : FileMeta) : outcome bool :=
  smallest_uk ← strip_tag (smallest f);
  largest_uk ← strip_tag (largest f);
  o ← compare ucmp user_key smallest_uk;
  if is_ge o then o ← compare ucmp user_key largest_uk; Ret (is_le o) else Ret false.

(** The file of a sorted level that may hold a key. *)
Definition level_candidate self (user_key internal_key : bytes) (fs : list FileMeta) : outcome (option FileMeta) :=
  if bool_decide (fs = []) then Ret None else
  idx ← find_file (comparator self) fs internal_key;
  if len fs <=? idx then Ret None else
  f ← index fs idx;
  smallest_uk ← strip_tag (smallest f);
  o ← compare (user_comparator (comparator self)) user_key smallest_uk;
  Ret (if is_lt o then None else Some f).

(** [first_match] and [match_count]; both loops stop at the second match. *)
Definition sampled : Type := option (Z * Z) * Z.
Definition add_match (level : Z) (f : FileMeta) (m : sampled) : sampled :=
  (match m.1 with None => Some (level, FileMetaData.number f) | some => some end, m.2 + 1).
Fixpoint sample_l0 (ucmp : C) (user_key : bytes) (fs : list FileMeta) (m : sampled) : outcome sampled :=
  match fs with
  | [] => Ret m
  | f :: fs =>
      c ← covers ucmp user_key f;
      if c : bool then let m := add_match 0 f m in if 2 <=? m.2 then Ret m else sample_l0 ucmp user_key fs m
      else sample_l0 ucmp user_key fs m
  end.
Fixpoint sample_levels self (user_key internal_key : bytes) (levels : list Z) (m : sampled) : outcome sampled :=
  match levels with
  | [] => Ret m
  | level :: levels =>
      fs ← level_files self level;
      c ← level_candidate self user_key internal_key fs;
      match c with
      | None => sample_levels self user_key internal_key levels m
      | Some f =>
          let m := add_match level f m in
          if 2 <=? m.2 then Ret m else sample_levels self user_key internal_key levels m
      end
  end.
Definition record_read_sample (internal_key : bytes) : action (t C) bool :=
  if len internal_key <? 8 then mret false else
  user_key ← lift (strip_tag internal_key);
  self ← get_state;
  fs ← lift (level_files self 0);
  m ← lift (sample_l0 (user_comparator (comparator self)) user_key fs (None, 0));
  m ← lift (if m.2 <? 2 then sample_levels self user_key internal_key (levels_from 1 NUM_LEVELS) m else Ret m);
  if m.2 <? 2 then mret false else
  '(level, num) ← lift (expect m.1);
  decrement_seek_allowance level num.
End ops.

(** *** [get] *)

Section get.
Context {C S : Type} `{Comparator C} (lookup : Z -> bytes -> action S LookupResult).

Definition on_version {A} (m : action (t C) A) : action (S * t C) A := fun s =>
  let '(r, v) := m s.2 in (r, (s.1, v)).
Definition on_lookup {A} (m : action S A) : action (S * t C) A := fun s =>
  let '(r, x) := m s.1 in (r, (x, s.2)).

(** [last_file_read] and [charged_seek_file]. *)
Definition charge_state : Type := option (Z * Z) * bool.
Definition charge (st : charge_state) : action (S * t C) bool :=
  if st.2 then mret true else
  match st.1 with
  | Some (level, file_number) => _ ← on_version (decrement_seek_allowance level file_number); mret true
  | None => mret false
  end.
(** One file: charge the previous one, look the key up.  [Some r] ends the search. *)
Definition probe (level : Z) (f : FileMeta) (internal_key : bytes) (st : charge_state)
  : action (S * t C) (option (option bytes) * charge_state) :=
  charged ← charge st;
  let st := (Some (level, FileMetaData.number f), charged) in
  r ← on_lookup (lookup (FileMetaData.number f) internal_key);
  mret (match r with
        | LookupFound v => Some (Some v)
        | LookupDeleted => Some None
        | LookupNotFound => None
        end, st).

Fixpoint covering (ucmp : C) (user_key : bytes) (fs : list FileMeta) : outcome (list FileMeta) :=
  match fs with
  | [] => Ret []
  | f :: fs => c ← covers ucmp user_key f; fs ← covering ucmp user_key fs; Ret (if c : bool then f :: fs else fs)
  end.
Definition newer_first (a b : FileMeta) : comparison := Z.compare (FileMetaData.number b) (FileMetaData.number a).

Fixpoint l0_loop (fs : list FileMeta) (internal_key : bytes) (st : charge_state)
  : action (S * t C) (option (option bytes) * charge_state) :=
  match fs with
  | [] => mret (None, st)
  | f :: fs =>
      '(r, st) ← probe 0 f internal_key st;
      match r with Some r => mret (Some r, st) | None => l0_loop fs internal_key st end
  end.
Fixpoint deep_loop (levels : list Z) (user_key internal_key : bytes) (st : charge_state) : action (S * t C) (option bytes) :=
  match levels with
  | [] => mret None
  | level :: levels =>
      s ← get_state;
      fs ← lift (level_files s.2 level);
      c ← lift (level_candidate s.2 user_key internal_key fs);
      match c with
      | None => deep_loop levels user_key internal_key st
      | Some f =>
          '(r, st) ← probe level f internal_key st;
          match r with Some r => mret r | None => deep_loop levels user_key internal_key st end
      end
  end.
Definition get (user_key internal_key : bytes) : action (S * t C) (option bytes) :=
  s ← get_state;
  fs ← lift (level_files s.2 0);
  l0 ← lift (covering (user_comparator (comparator s.2)) user_key fs);
  '(r, st) ← l0_loop (isort newer_first l0) internal_key (None, false);
  match r with
  | Some r => mret r
  | None => deep_loop (levels_from 1 NUM_LEVELS) user_key internal_key st
  end.
End get.
End Version.

(** ** [VersionBuilder] *)

Module VersionBuilder.
Record t (C : Type) := mk {
  base : Version.t C;
  deleted_files : list (gset Z);
  added_files : list (list FileMeta);
}.
Arguments mk {C} _ _ _.
Arguments base {C} _.
Arguments deleted_files {C} _.
Arguments added_files {C} _.

Section ops.
Context {C : Type} `{Comparator C}.
Implicit Types self : t C.

Definition new (base : Version.t C) : t C :=
  mk base (replicate (Z.to_nat NUM_LEVELS) ∅) (replicate (Z.to_nat NUM_LEVELS) []).

Definition delete_one self (d : DeletedFile) : outcome (t C) :=
  s ← index (deleted_files self) (df_level d);
  ds ← set_index (deleted_files self) (df_level d) ({[df_number d]} ∪ s);
  Ret (mk (base self) ds (added_files self)).
Definition add_one self (nf : NewFile) : outcome (t C) :=
  s ← index (deleted_files self) (nf_level nf);
  ds ← set_index (deleted_files self) (nf_level nf) (s ∖ {[FileMetaData.number (nf_meta nf)]});
  l ← index (added_files self) (nf_level nf);
  ads ← set_index (added_files self) (nf_level nf) (l ++ [nf_meta nf]);
  Ret (mk (base self) ds ads).
Definition apply self (edit : VersionEdit.t) : outcome (t C) :=
  self ← fold_m delete_one self (VersionEdit.deleted_files edit);
  fold_m add_one self (VersionEdit.new_files edit).

(** The seek allowances of the files that stay. *)
Fixpoint keep_stats (base_stats : gmap Z Z) (deleted : gset Z) (fs : list FileMeta) (stats : gmap Z Z) : gmap Z Z :=
  match fs with
  | [] => stats
  | f :: fs =>
      let n := FileMetaData.number f in
      keep_stats base_stats deleted fs
        (if decide (n ∈ deleted) then stats
         else match base_stats !! n with Some allowed => <[n := allowed]> stats | None => stats end)
  end.
Fixpoint migrate (levels : list Z) self (v : Version.t C) : outcome (Version.t C) :=
  match levels with
  | [] => Ret v
  | level :: levels =>
      fs ← index (Version.files (base self)) level;
      deleted ← index (deleted_files self) level;
      migrate levels self (Version.with_stats v (keep_stats (Version.seek_stats (base self)) deleted fs (Version.seek_stats v)))
  end.

Definition live (deleted : gset Z) (fs : list FileMeta) : list FileMeta :=
  base.filter (fun f => FileMetaData.number f ∉ deleted) fs.
Definition by_number (a b : FileMeta) : comparison := Z.compare (FileMetaData.number a) (FileMetaData.number b).
Definition sort_level (icmp : InternalKeyComparator C) (level : Z) (fs : list FileMeta) : outcome (list FileMeta) :=
  if level =? 0 then Ret (isort by_number fs)
  else sort_by (fun a b => compare icmp (smallest a) (smallest b)) fs.
Fixpoint fill_levels (levels : list Z) self (v : Version.t C) : outcome (Version.t C) :=
  match levels with
  | [] => Ret v
  | level :: levels =>
      fs ← index (Version.files (base self)) level;
      deleted ← index (deleted_files self) level;
      added ← index (added_files self) level;
      let new := live deleted added in
      let v := fold_left (fun v f => Version.init_seek_allowance (FileMetaData.number f) (FileMetaData.file_size f) v) new v in
      sorted ← sort_level (Version.comparator v) level (live deleted fs ++ new);
      all ← set_index (Version.files v) level sorted;
      fill_levels levels self (Version.with_files v all)
  end.
Definition save_to self (c : InternalKeyComparator C) : outcome (Version.t C) :=
  v ← migrate (Version.levels_from 0 NUM_LEVELS) self (Version.new c);
  v ← fill_levels (Version.levels_from 0 NUM_LEVELS) self v;
  Version.finalize v.
End ops.
End VersionBuilder.
