(* ===== verification/VersionCorrect.v ===== *)
(** * VersionCorrect.v: correctness of Version.v.

    The binary search over a sorted level, the overlap queries and their termination, the
    files of the next version, and the lookup: over files that hold newer entries above
    older ones, [Version::get] finds the newest visible version of a key. *)
From S2P Require Import Prelude Status Comparator Format DbIterator VersionEdit Sort Table TableCorrect Newest Version.
From Stdlib Require Import Sorting.Sorted.

Lemma strip_tag_ok k : ik_ok k -> strip_tag k = Ret (ukey k).
Proof.
  unfold ik_ok, strip_tag, usub. intros Hk. rewrite (proj2 (Z.leb_le _ _)) by lia. cbn [mbind outcome_bind].
  unfold slice_to. rewrite slice_ok by lia. rewrite zdrop_0, Z.sub_0_r. done.
Qed.

Lemma index_lookup_ok {A} (l : list A) (i : Z) x : 0 <= i -> l !! Z.to_nat i = Some x -> index l i = Ret x.
Proof. intros Hi E. unfold index. rewrite (proj2 (Z.leb_le _ _)) by done. by rewrite E. Qed.
Lemma index_in_range {A} (l : list A) i : 0 <= i < len l -> exists x, index l i = Ret x /\ l !! Z.to_nat i = Some x.
Proof.
  intros Hi. destruct (lookup_lt_is_Some_2 l (Z.to_nat i)) as [x Hx]; [unfold len in Hi; lia|].
  exists x. split; [|done]. apply index_lookup_ok; [lia|done].
Qed.
Lemma index_inv {A} (l : list A) i x : index l i = Ret x -> 0 <= i < len l /\ l !! Z.to_nat i = Some x.
Proof.
  unfold index. destruct (Z.leb_spec 0 i); [|done]. destruct (l !! Z.to_nat i) eqn:E; [|done]. cbn. intros [= <-].
  split; [|done]. apply lookup_lt_Some in E. unfold len. lia.
Qed.

(** ** The files of a level *)

Definition lo (f : FileMeta) : bytes := ukey (smallest f).
Definition hi (f : FileMeta) : bytes := ukey (largest f).
Definition file_ok (f : FileMeta) : Prop := ik_ok (smallest f) /\ ik_ok (largest f).

Section version.
Context {C : Type} `{Comparator C} (c : C) (ord : bytes -> bytes -> comparison) `{HL : !ComparatorLaws c (fun _ => True) ord}.
Abbreviation iord := (ik_ord ord) (only parsing).

(** *** Binary search *)

(** The first file whose largest key is not below [key]. *)
Definition largest_below (key : bytes) (f : FileMeta) : bool := is_lt (iord (largest f) key).
Fixpoint first_file (fs : list FileMeta) (key : bytes) : nat :=
  match fs with
  | [] => O
  | f :: fs => if largest_below key f then S (first_file fs key) else O
  end.
(** The largest keys ascend. *)
Definition level_ascending (fs : list FileMeta) : Prop :=
  forall i j a b, (i < j)%nat -> fs !! i = Some a -> fs !! j = Some b -> iord (largest a) (largest b) <> Gt.

Lemma first_file_le fs key : (first_file fs key <= length fs)%nat.
Proof. induction fs as [|f fs IH]; cbn; [lia|]. destruct (largest_below key f); lia. Qed.
Lemma first_file_before fs key j f : (j < first_file fs key)%nat -> fs !! j = Some f -> largest_below key f = true.
Proof.
  revert j. induction fs as [|g fs IH]; intros j Hj E; [done|]. cbn in Hj. destruct (largest_below key g) eqn:Eg; [|lia].
  destruct j as [|j]; [by injection E as <-|]. apply (IH j); [lia|done].
Qed.
Lemma first_file_at fs key f : fs !! first_file fs key = Some f -> largest_below key f = false.
Proof.
  induction fs as [|g fs IH]; cbn; [done|]. destruct (largest_below key g) eqn:Eg; [by apply IH|]. by intros [= <-].
Qed.
Lemma first_file_unique fs key n : (n <= length fs)%nat ->
  (forall j f, (j < n)%nat -> fs !! j = Some f -> largest_below key f = true) ->
  (forall f, fs !! n = Some f -> largest_below key f = false) -> n = first_file fs key.
Proof.
  intros Hn Hb Ha. destruct (lt_eq_lt_dec n (first_file fs key)) as [[Hlt| ->]|Hgt]; [|done|].
  - destruct (lookup_lt_is_Some_2 fs n) as [f Hf]; [pose proof (first_file_le fs key); lia|].
    pose proof (Ha f Hf). pose proof (first_file_before _ _ _ _ Hlt Hf). congruence.
  - destruct (lookup_lt_is_Some_2 fs (first_file fs key)) as [f Hf]; [lia|].
    pose proof (first_file_at _ _ _ Hf). pose proof (Hb _ _ Hgt Hf). congruence.
Qed.

Lemma compare_internal a b : ik_ok a -> ik_ok b -> compare (mk_icmp c) a b = Ret (iord a b).
Proof. intros Ha Hb. by apply (compare_ord (ComparatorLaws:=InternalKey_Laws c ord)). Qed.
Lemma compare_user a b : compare c a b = Ret (ord a b).
Proof. by apply compare_ord. Qed.

Lemma find_file_loop_ok fs key : Forall file_ok fs -> level_ascending fs -> ik_ok key -> forall fuel left right,
  0 <= left -> right <= len fs -> right - left <= Z.of_nat fuel -> left <= right ->
  (forall j f, (j < Z.to_nat left)%nat -> fs !! j = Some f -> largest_below key f = true) ->
  (forall f, fs !! Z.to_nat right = Some f -> largest_below key f = false) ->
  find_loop fuel (mk_icmp c) fs key left right = Ret (Z.of_nat (first_file fs key)).
Proof.
  intros Hok Hasc Hk. induction fuel as [|fuel IH]; intros left right Hl Hr Hf Hlr Hb Ha; cbn [find_loop].
  all: destruct (Z.ltb_spec left right) as [Hlt|Hge].
  1: lia.
  1,3: assert (left = right) as -> by lia; f_equal; rewrite <- (Z2Nat.id right) by lia; f_equal;
       apply first_file_unique; [unfold len in Hr; lia|done|done].
  set (mid := left + (right - left) / 2). assert (Hm : left <= mid < right).
  { unfold mid. pose proof (Z.div_pos (right - left) 2 ltac:(lia) ltac:(lia)).
    pose proof (Z.div_lt (right - left) 2 ltac:(lia) ltac:(lia)). lia. }
  destruct (index_in_range fs mid) as (f & -> & Ef); [lia|]. cbn [mbind outcome_bind].
  pose proof (proj1 (Forall_lookup _ _) Hok _ _ Ef) as [_ Hfl].
  rewrite compare_internal by done. cbn [mbind outcome_bind].
  destruct (is_lt (iord (largest f) key)) eqn:Eo.
  - apply IH; try lia; [|done]. intros j g Hj Hg.
    destruct (decide (j = Z.to_nat mid)) as [->|Hne]; [by simplify_eq|].
    unfold largest_below. destruct (iord (largest g) key) eqn:Eg; [| done |]; exfalso.
    all: assert (Hgf : iord (largest g) (largest f) <> Gt) by (apply (Hasc j (Z.to_nat mid)); [lia|done|done]);
      assert (Hfk : iord (largest f) key = Lt) by (by destruct (iord (largest f) key));
      by rewrite (ord_le_lt_trans (ord:=iord) _ _ _ Hgf Hfk) in Eg.
  - apply IH; try lia; [done|]. intros g Hg. by simplify_eq.
Qed.
Lemma find_file_ok fs key : Forall file_ok fs -> level_ascending fs -> ik_ok key ->
  find_file (mk_icmp c) fs key = Ret (Z.of_nat (first_file fs key)).
Proof.
  intros Hok Hasc Hk. apply find_file_loop_ok; try done; unfold len; try lia.
  intros f. rewrite Nat2Z.id, lookup_ge_None_2 by lia. done.
Qed.

(** *** Overlapping files *)

(** The file touches the range; a missing bound is no bound. *)
Definition not_before (begin : option bytes) (f : FileMeta) : bool :=
  match begin with Some b => negb (is_lt (ord (hi f) b)) | None => true end.
Definition not_after (end_ : option bytes) (f : FileMeta) : bool :=
  match end_ with Some e => negb (is_gt (ord (lo f) e)) | None => true end.
Definition hits (begin end_ : option bytes) (f : FileMeta) : bool := not_before begin f && not_after end_ f.
Definition overlapping begin end_ (fs : list FileMeta) : list FileMeta := List.filter (hits begin end_) fs.

Lemma overlapping_snoc b e fs f : overlapping b e (fs ++ [f]) = overlapping b e fs ++ (if hits b e f then [f] else []).
Proof. unfold overlapping. rewrite List.filter_app. cbn. by destruct (hits b e f). Qed.
Lemma overlapping_elem b e fs f : f ∈ overlapping b e fs <-> f ∈ fs /\ hits b e f = true.
Proof. unfold overlapping. rewrite !list_elem_of_In. apply filter_In. Qed.

(** What a hit at level 0 does to the bounds. *)
Definition grown_begin (begin : option bytes) (f : FileMeta) : option bytes * bool :=
  match begin with Some b => if is_lt (ord (lo f) b) then (Some (lo f), true) else (begin, false) | None => (Some (lo f), false) end.
Definition grown_end (end_ : option bytes) (f : FileMeta) : option bytes * bool :=
  match end_ with Some e => if is_gt (ord (hi f) e) then (Some (hi f), true) else (end_, false) | None => (Some (hi f), false) end.

(** One round, with the checks decided. *)
Lemma overlap_step fuel level fs i begin end_ result f : Forall file_ok fs -> fs !! i = Some f ->
  Version.overlap_loop (S fuel) c level fs (Z.of_nat i) begin end_ result =
    let i := Z.of_nat (S i) in
    if negb (hits begin end_ f) then Version.overlap_loop fuel c level fs i begin end_ result
    else if level =? 0 then
      let '(begin, r1) := grown_begin begin f in
      let '(end_, r2) := grown_end end_ f in
      if r1 || r2 then Version.overlap_loop fuel c level fs 0 begin end_ []
      else Version.overlap_loop fuel c level fs i begin end_ (result ++ [f])
    else Version.overlap_loop fuel c level fs i begin end_ (result ++ [f]).
Proof.
  intros Hok Hf. pose proof (proj1 (Forall_lookup _ _) Hok _ _ Hf) as [Hs Hl]. cbn [Version.overlap_loop].
  apply lookup_lt_Some in Hf as Hlt. rewrite (proj2 (Z.ltb_lt _ _)) by (unfold len; lia).
  rewrite (index_lookup_ok _ _ f) by (rewrite ?Nat2Z.id; done || lia). cbn [mbind outcome_bind].
  rewrite !strip_tag_ok by done. cbn [mbind outcome_bind]. replace (Z.of_nat i + 1) with (Z.of_nat (S i)) by lia.
  unfold hits, not_before, not_after, grown_begin, grown_end, Version.before_begin, Version.after_end,
    Version.grow_begin, Version.grow_end. fold (lo f) (hi f).
  destruct begin as [b|], end_ as [e|]; rewrite ?compare_user; cbn [mbind outcome_bind].
  all: repeat (match goal with |- context [ord ?x ?y] => destruct (ord x y) end;
    cbn [is_lt is_gt negb andb orb mbind outcome_bind fst snd]); done.
Qed.
Lemma overlap_end fuel level fs begin end_ result : Version.overlap_loop fuel c level fs (Z.of_nat (length fs)) begin end_ result = Ret result.
Proof. destruct fuel; cbn [Version.overlap_loop]; by rewrite (proj2 (Z.ltb_ge _ _)) by (unfold len; lia). Qed.

(** Below level 0: one pass. *)
Lemma overlap_deep level fs begin end_ : level <> 0 -> Forall file_ok fs -> forall k fuel i result,
  (k = length fs - i)%nat -> (i <= length fs)%nat -> (k <= fuel)%nat ->
  Version.overlap_loop fuel c level fs (Z.of_nat i) begin end_ result = Ret (result ++ overlapping begin end_ (drop i fs)).
Proof.
  intros Hlv Hok. induction k as [|k IH]; intros fuel i result Hk Hi Hf.
  { assert (i = length fs) as -> by lia. rewrite overlap_end, drop_ge by lia. by rewrite app_nil_r. }
  destruct fuel as [|fuel]; [lia|]. destruct (lookup_lt_is_Some_2 fs i) as [f Ef]; [lia|].
  rewrite (overlap_step _ _ _ _ _ _ _ f) by done. cbv zeta. rewrite (drop_S _ f i) by done.
  rewrite (proj2 (Z.eqb_neq _ _)) by done. unfold overlapping. cbn [List.filter]. fold (overlapping begin end_ (drop (S i) fs)).
  destruct (hits begin end_ f); cbn [negb]; rewrite IH by lia; [|done]. by rewrite <- app_assoc.
Qed.

(** *** Level 0: the range grows to a fixed point *)

(** How many files could still move a bound. *)
Definition starts_before (begin : option bytes) (fs : list FileMeta) : nat :=
  match begin with Some b => length (List.filter (fun f => is_lt (ord (lo f) b)) fs) | None => length fs end.
Definition limits_after (end_ : option bytes) (fs : list FileMeta) : nat :=
  match end_ with Some e => length (List.filter (fun f => is_gt (ord (hi f) e)) fs) | None => length fs end.

Lemma filter_len_le {A} (p q : A -> bool) l : (forall x, p x = true -> q x = true) ->
  (length (List.filter p l) <= length (List.filter q l))%nat.
Proof.
  intros Hpq. induction l as [|x l IH]; cbn; [done|]. destruct (p x) eqn:E; [rewrite (Hpq x E); cbn; lia|].
  destruct (q x); cbn; lia.
Qed.
Lemma filter_len_lt {A} (p q : A -> bool) l x : (forall x, p x = true -> q x = true) -> x ∈ l -> p x = false -> q x = true ->
  (length (List.filter p l) < length (List.filter q l))%nat.
Proof.
  intros Hpq Hx Hp Hq. apply list_elem_of_In in Hx. revert Hx. induction l as [|y l IH]; [done|]. intros [->|Hx]; cbn.
  - rewrite Hp, Hq. cbn. pose proof (filter_len_le p q l Hpq). lia.
  - apply IH in Hx. destruct (p y) eqn:E; [rewrite (Hpq y E); cbn; lia|]. destruct (q y); cbn; lia.
Qed.
Lemma filter_len_all {A} (p : A -> bool) l : (length (List.filter p l) <= length l)%nat.
Proof. induction l as [|x l IH]; cbn; [done|]. destruct (p x); cbn; lia. Qed.

Lemma grown_begin_measure begin f fs : f ∈ fs ->
  let '(b, r) := grown_begin begin f in
  (starts_before b fs + (if r then 1 else 0) <= starts_before begin fs)%nat.
Proof.
  intros Hf. unfold grown_begin. destruct begin as [b|]; cbn.
  - destruct (is_lt (ord (lo f) b)) eqn:E; cbn; [|lia].
    assert (ord (lo f) b = Lt) as Hlt by (by destruct (ord (lo f) b)). rewrite Nat.add_comm.
    apply (filter_len_lt _ _ _ f); [|done|by rewrite ord_refl|done].
    intros g. destruct (ord (lo g) (lo f)) eqn:Eg; [done| |done]. intros _. by rewrite (ord_lt_trans _ _ _ Eg Hlt).
  - pose proof (filter_len_all (fun g => is_lt (ord (lo g) (lo f))) fs). lia.
Qed.
Lemma grown_end_measure end_ f fs : f ∈ fs ->
  let '(e, r) := grown_end end_ f in
  (limits_after e fs + (if r then 1 else 0) <= limits_after end_ fs)%nat.
Proof.
  intros Hf. unfold grown_end. destruct end_ as [e|]; cbn.
  - destruct (is_gt (ord (hi f) e)) eqn:E; cbn; [|lia].
    assert (ord e (hi f) = Lt) as Hlt by (apply ord_gt_lt; by destruct (ord (hi f) e)). rewrite Nat.add_comm.
    apply (filter_len_lt _ _ _ f); [|done|by rewrite ord_refl|done].
    intros g. destruct (ord (hi g) (hi f)) eqn:Eg; [done..|]. intros _. apply ord_gt_lt in Eg.
    pose proof (ord_lt_trans _ _ _ Hlt Eg) as Hx. apply ord_gt_lt in Hx. by rewrite Hx.
  - pose proof (filter_len_all (fun g => is_gt (ord (hi g) (hi f))) fs). lia.
Qed.

(** A bound of the search. *)
Definition below_begin (a : bytes) (begin : option bytes) : Prop := match begin with Some b => ord a b <> Gt | None => False end.
Definition inside (begin end_ : option bytes) (f : FileMeta) : Prop :=
  match begin with Some b => ord b (lo f) <> Gt | None => True end /\
  match end_ with Some e => ord (hi f) e <> Gt | None => True end.
(** Every file a range touches lies inside it. *)
Definition closed_range (begin end_ : bytes) (fs : list FileMeta) : Prop :=
  forall f, f ∈ fs -> hits (Some begin) (Some end_) f = true -> inside (Some begin) (Some end_) f.
(** The measure of the loop: each restart uses up a bound of some file. *)
Definition rounds_left (i : nat) begin end_ (fs : list FileMeta) : nat :=
  ((starts_before begin fs + limits_after end_ fs) * (length fs + 1) + (length fs - i))%nat.

Lemma grown_rounds i begin end_ fs f : fs !! i = Some f ->
  let '(b, r1) := grown_begin begin f in
  let '(e, r2) := grown_end end_ f in
  (rounds_left (if r1 || r2 then 0 else S i) b e fs < rounds_left i begin end_ fs)%nat.
Proof.
  intros Hf. apply lookup_lt_Some in Hf as Hlt. apply list_elem_of_lookup_2 in Hf.
  pose proof (grown_begin_measure begin f fs Hf) as H1. pose proof (grown_end_measure end_ f fs Hf) as H2.
  destruct (grown_begin begin f) as [b r1], (grown_end end_ f) as [e r2]. unfold rounds_left.
  destruct r1, r2; cbn [orb]; nia.
Qed.

(** The loop always ends. *)
Lemma overlap_returns level fs : Forall file_ok fs -> forall fuel i begin end_ result, (i <= length fs)%nat ->
  (rounds_left i begin end_ fs <= fuel)%nat -> exists r, Version.overlap_loop fuel c level fs (Z.of_nat i) begin end_ result = Ret r.
Proof.
  intros Hok. induction fuel as [|fuel IH]; intros i begin end_ result Hi Hm.
  { assert (i = length fs) as -> by (unfold rounds_left in Hm; nia). rewrite overlap_end. by eexists. }
  destruct (decide (i = length fs)) as [->|Hne]; [rewrite overlap_end; by eexists|].
  destruct (lookup_lt_is_Some_2 fs i) as [f Ef]; [lia|]. rewrite (overlap_step _ _ _ _ _ _ _ f) by done. cbv zeta.
  assert (Hskip : (rounds_left (S i) begin end_ fs <= fuel)%nat) by (unfold rounds_left in *; lia).
  destruct (hits begin end_ f); cbn [negb]; [|apply IH; [lia|done]].
  destruct (level =? 0); [|apply IH; [lia|done]].
  pose proof (grown_rounds i begin end_ fs f Ef) as Hg.
  destruct (grown_begin begin f) as [b r1], (grown_end end_ f) as [e r2].
  destruct (r1 || r2); [apply (IH 0%nat); lia|apply IH; lia].
Qed.

(** [b', e'] lies inside [b, e]. *)
Definition within (b' e' b e : bytes) : Prop := ord b b' <> Gt /\ ord e' e <> Gt.


Lemma is_lt_true o : is_lt o = true <-> o = Lt.
Proof. by destruct o. Qed.
Lemma is_gt_true o : is_gt o = true <-> o = Gt.
Proof. by destruct o. Qed.
Lemma hits_some b e f : hits (Some b) (Some e) f = true <-> ord (hi f) b <> Lt /\ ord (lo f) e <> Gt.
Proof.
  unfold hits. cbn. rewrite andb_true_iff, !negb_true_iff. destruct (ord (hi f) b), (ord (lo f) e); cbn; intuition congruence.
Qed.
Lemma hits_mono b e b' e' f : within b' e' b e -> hits (Some b') (Some e') f = true -> hits (Some b) (Some e) f = true.
Proof.
  intros [Hb He] [H1 H2]%hits_some. apply hits_some. split.
  - apply ord_not_lt. apply ord_not_lt in H1. by apply (ord_le_trans b b' (hi f)).
  - by apply (ord_le_trans (lo f) e' e).
Qed.
Lemma within_refl b e : within b e b e.
Proof. unfold within. by rewrite !ord_refl. Qed.
Lemma within_trans b e b' e' b'' e'' : within b e b' e' -> within b' e' b'' e'' -> within b e b'' e''.
Proof. intros [H1 H2] [H3 H4]. split; [by apply (ord_le_trans b'' b' b)|by apply (ord_le_trans e e' e'')]. Qed.

(** Growing the range to a file it touches. *)
Lemma grown_spec b e f : hits (Some b) (Some e) f = true ->
  exists b' e' r1 r2, grown_begin (Some b) f = (Some b', r1) /\ grown_end (Some e) f = (Some e', r2) /\
    within b e b' e' /\ inside (Some b') (Some e') f /\ (r1 || r2 = false -> b' = b /\ e' = e) /\
    (forall B E, within b e B E -> inside (Some B) (Some E) f -> within b' e' B E).
Proof.
  intros Hh. unfold grown_begin, grown_end.
  destruct (is_lt (ord (lo f) b)) eqn:E1, (is_gt (ord (hi f) e)) eqn:E2; do 4 eexists; (split; [done|]; split; [done|]).
  all: rewrite ?is_lt_true, ?is_gt_true in *; unfold within, inside; rewrite ?ord_refl.
  all: try (apply ord_gt_lt in E2).
  all: split_and!; try done; try (by rewrite E1 || by rewrite E2).
  all: try (intros B E [H1 H2] [H3 H4]; by split).
  all: try (apply ord_not_lt; intros Hx; by rewrite Hx in E1).
  all: try (intros Hx; by rewrite Hx in E2).
  all: by intros [].
Qed.

Lemma overlap_level0 fs ub ue : Forall file_ok fs -> forall fuel i b e,
  (i <= length fs)%nat -> (rounds_left i (Some b) (Some e) fs <= fuel)%nat ->
  within ub ue b e -> (forall B E, closed_range B E fs -> within ub ue B E -> within b e B E) ->
  (forall f, f ∈ take i fs -> hits (Some b) (Some e) f = true -> inside (Some b) (Some e) f) ->
  exists b' e', Version.overlap_loop fuel c 0 fs (Z.of_nat i) (Some b) (Some e) (overlapping (Some b) (Some e) (take i fs))
      = Ret (overlapping (Some b') (Some e') fs) /\
    within ub ue b' e' /\ closed_range b' e' fs /\ (forall B E, closed_range B E fs -> within ub ue B E -> within b' e' B E).
Proof.
  intros Hok. induction fuel as [|fuel IH]; intros i b e Hi Hm Hw Hleast Hin.
  { assert (i = length fs) as -> by (unfold rounds_left in Hm; nia). rewrite overlap_end, take_ge in * by lia. by exists b, e. }
  destruct (decide (i = length fs)) as [->|Hne]; [rewrite overlap_end, take_ge in * by lia; by exists b, e|].
  destruct (lookup_lt_is_Some_2 fs i) as [f Ef]; [lia|]. rewrite (overlap_step _ _ _ _ _ _ _ f) by done. cbv zeta.
  assert (Hskip : (rounds_left (S i) (Some b) (Some e) fs <= fuel)%nat) by (unfold rounds_left in *; lia).
  pose proof (overlapping_snoc (Some b) (Some e) (take i fs) f) as Hsn. rewrite <- take_S_r in Hsn by done.
  destruct (hits (Some b) (Some e) f) eqn:Eh; cbn [negb].
  2: { rewrite app_nil_r in Hsn. rewrite <- Hsn. apply IH; [lia|done|done|done|]. rewrite (take_S_r _ _ f) by done.
       intros g [Hg| ->%list_elem_of_singleton]%elem_of_app; [by apply Hin|congruence]. }
  pose proof (grown_rounds i (Some b) (Some e) fs f Ef) as Hg.
  destruct (grown_spec b e f Eh) as (b' & e' & r1 & r2 & E1 & E2 & Hw' & Hf & Hsame & Hl). rewrite E1, E2 in *.
  change (0 =? 0) with true. cbn iota.
  assert (Hleast' : forall B E, closed_range B E fs -> within ub ue B E -> within b' e' B E).
  { intros B E Hc HB. pose proof (Hleast _ _ Hc HB) as HB'. apply Hl; [done|]. apply Hc; [by eapply list_elem_of_lookup_2|].
    by apply (hits_mono _ _ b e). }
  destruct (r1 || r2) eqn:Er.
  - destruct (IH 0%nat b' e') as (b2 & e2 & E & Hrest); [lia|lia| |done| |].
    + by eapply within_trans.
    + by intros g Hgg%elem_of_nil.
    + exists b2, e2. split; [|done]. rewrite take_0 in E. exact E.
  - destruct (Hsame eq_refl) as [-> ->]. rewrite <- Hsn. apply IH; [lia|lia|done|done|]. rewrite (take_S_r _ _ f) by done.
    intros g [Hgg| ->%list_elem_of_singleton]%elem_of_app Hh; [by apply Hin|done].
Qed.

(** *** The query *)

Lemma overlap_fuel_enough begin end_ fs : (rounds_left 0 begin end_ fs <= Version.overlap_fuel fs)%nat.
Proof.
  unfold rounds_left, Version.overlap_fuel.
  assert (starts_before begin fs <= length fs)%nat by (destruct begin; [apply filter_len_all|done]).
  assert (limits_after end_ fs <= length fs)%nat by (destruct end_; [apply filter_len_all|done]). nia.
Qed.

Section query.
Context (v : Version.t C) (level : Z) (fs : list FileMeta).
Context (Hv : Version.comparator v = mk_icmp c) (Hfs : Version.level_files v level = Ret fs) (Hok : Forall file_ok fs).

Lemma query_unfold begin end_ : Version.get_overlapping_inputs v level begin end_ =
  Version.overlap_loop (Version.overlap_fuel fs) c level fs (Z.of_nat 0) begin end_ [].
Proof. unfold Version.get_overlapping_inputs. rewrite Hfs. cbn [mbind outcome_bind]. by rewrite Hv. Qed.
Lemma query_returns begin end_ : exists r, Version.get_overlapping_inputs v level begin end_ = Ret r.
Proof. rewrite query_unfold. apply overlap_returns; [done|lia|apply overlap_fuel_enough]. Qed.
Lemma query_deep begin end_ : level <> 0 -> Version.get_overlapping_inputs v level begin end_ = Ret (overlapping begin end_ fs).
Proof.
  intros Hl. rewrite query_unfold, (overlap_deep level fs begin end_ Hl Hok (length fs)); [done|lia|lia|].
  unfold Version.overlap_fuel. nia.
Qed.
Lemma query_level0 ub ue : level = 0 -> exists b e,
  Version.get_overlapping_inputs v level (Some ub) (Some ue) = Ret (overlapping (Some b) (Some e) fs) /\
  within ub ue b e /\ closed_range b e fs /\ (forall B E, closed_range B E fs -> within ub ue B E -> within b e B E).
Proof.
  intros Hl. rewrite query_unfold, Hl. apply (overlap_level0 fs ub ue Hok _ 0%nat ub ue).
  - lia.
  - apply overlap_fuel_enough.
  - apply within_refl.
  - done.
  - by intros f Hf%elem_of_nil.
Qed.
(** Nothing comes back exactly when nothing touches the range. *)
Lemma query_empty ub ue : exists r, Version.get_overlapping_inputs v level (Some ub) (Some ue) = Ret r /\
  (forall f, f ∈ r -> f ∈ fs) /\ (forall f, f ∈ fs -> hits (Some ub) (Some ue) f = true -> f ∈ r) /\
  (r <> [] -> exists f, f ∈ fs /\ hits (Some ub) (Some ue) f = true).
Proof.
  destruct (decide (level = 0)) as [Hl|Hl].
  - destruct (query_level0 ub ue Hl) as (b & e & E & Hw & Hc & Hleast). eexists. split; [exact E|]. split_and!.
    + by intros f [? _]%overlapping_elem.
    + intros f Hf Hh. apply overlapping_elem. split; [done|]. by apply (hits_mono b e ub ue).
    + intros Hne. destruct (List.filter (hits (Some ub) (Some ue)) fs) as [|f l] eqn:Ef.
      * exfalso. assert (Hcl : closed_range ub ue fs).
        { intros f Hf Hh. assert (f ∈ overlapping (Some ub) (Some ue) fs) as Hin by by apply overlapping_elem.
          unfold overlapping in Hin. rewrite Ef in Hin. by apply elem_of_nil in Hin. }
        pose proof (Hleast _ _ Hcl (within_refl ub ue)) as Hw'. apply Hne.
        destruct (overlapping (Some b) (Some e) fs) as [|g l] eqn:Eg; [done|].
        assert (g ∈ overlapping (Some b) (Some e) fs) as [Hg Hgh]%overlapping_elem by (rewrite Eg; by left).
        pose proof (hits_mono _ _ _ _ _ Hw' Hgh) as Hgu.
        assert (g ∈ overlapping (Some ub) (Some ue) fs) as Hin by by apply overlapping_elem.
        unfold overlapping in Hin. rewrite Ef in Hin. by apply elem_of_nil in Hin.
      * assert (f ∈ overlapping (Some ub) (Some ue) fs) as [? ?]%overlapping_elem by (unfold overlapping; rewrite Ef; by left).
        by exists f.
  - eexists. split; [by apply query_deep|]. split_and!.
    + by intros f [? _]%overlapping_elem.
    + intros f Hf Hh. by apply overlapping_elem.
    + destruct (overlapping (Some ub) (Some ue) fs) as [|f l] eqn:Eg; [done|]. intros _.
      assert (f ∈ overlapping (Some ub) (Some ue) fs) as [? ?]%overlapping_elem by (rewrite Eg; by left). by exists f.
Qed.
End query.

(** ** The next version *)

Definition by_smallest (a b : FileMeta) : comparison := iord (smallest a) (smallest b).
#[local] Instance by_smallest_ord : TotalOrd by_smallest.
Proof. split; unfold by_smallest; intros; [apply ord_opp|by eapply ord_le_trans]. Qed.
Definition level_order (level : nat) : FileMeta -> FileMeta -> comparison :=
  match level with O => VersionBuilder.by_number | _ => by_smallest end.
#[local] Instance by_number_ord : TotalOrd VersionBuilder.by_number.
Proof. split; unfold VersionBuilder.by_number; intros *; [apply Z.compare_antisym|]. rewrite <- !Z.le_ngt || unfold not; rewrite !Z.compare_gt_iff; lia. Qed.
#[local] Instance level_order_ord level : TotalOrd (level_order level).
Proof. destruct level; apply _. Qed.

Lemma sort_level_ok (level : nat) fs : Forall file_ok fs ->
  VersionBuilder.sort_level (mk_icmp c) (Z.of_nat level) fs = Ret (isort (level_order level) fs).
Proof.
  intros Hok. unfold VersionBuilder.sort_level. destruct level as [|level]; [done|].
  rewrite (proj2 (Z.eqb_neq _ _)) by lia. apply (sort_by_ok _ _ file_ok); [|done].
  intros a b [Ha _] [Hb _]. by apply compare_internal.
Qed.

Lemma set_level_ok {A} (l : list A) (i : nat) x : (i < length l)%nat -> set_index l (Z.of_nat i) x = Ret (<[i := x]> l).
Proof.
  intros Hi. unfold set_index. rewrite (proj2 (Z.leb_le _ _)), (proj2 (Z.ltb_lt _ _)) by (unfold len; lia). by rewrite Nat2Z.id.
Qed.
Lemma index_nat {A} (l : list A) (i : nat) x : l !! i = Some x -> index l (Z.of_nat i) = Ret x.
Proof. intros E. apply index_lookup_ok; [lia|]. by rewrite Nat2Z.id. Qed.

(** What is below the next version's level. *)
Definition next_level (b : VersionBuilder.t C) (level : nat) : list FileMeta :=
  let deleted := default ∅ (VersionBuilder.deleted_files b !! level) in
  isort (level_order level)
    (VersionBuilder.live deleted (default [] (Version.files (VersionBuilder.base b) !! level)) ++
     VersionBuilder.live deleted (default [] (VersionBuilder.added_files b !! level))).

Record builder_ok (b : VersionBuilder.t C) : Prop := {
  b_base : length (Version.files (VersionBuilder.base b)) = Z.to_nat NUM_LEVELS;
  b_deleted : length (VersionBuilder.deleted_files b) = Z.to_nat NUM_LEVELS;
  b_added : length (VersionBuilder.added_files b) = Z.to_nat NUM_LEVELS;
  b_files : Forall (Forall file_ok) (Version.files (VersionBuilder.base b));
  b_new : Forall (Forall file_ok) (VersionBuilder.added_files b);
}.

Lemma live_ok deleted fs : Forall file_ok fs -> Forall file_ok (VersionBuilder.live deleted fs).
Proof. rewrite !Forall_forall. intros Hf f [_ Hin]%list_elem_of_filter. by apply Hf. Qed.
Lemma level_ok_of (ls : list (list FileMeta)) i fs : Forall (Forall file_ok) ls -> ls !! i = Some fs -> Forall file_ok fs.
Proof. intros Hl E. exact (proj1 (Forall_lookup _ _) Hl _ _ E). Qed.

Lemma migrate_ok b levels v : builder_ok b -> Forall (fun l => 0 <= l < NUM_LEVELS) levels ->
  exists st, VersionBuilder.migrate levels b v = Ret (Version.with_stats v st).
Proof.
  intros Hb. revert v. induction levels as [|l levels IH]; intros v Hl; cbn [VersionBuilder.migrate].
  { exists (Version.seek_stats v). by destruct v. }
  apply Forall_cons in Hl as [Hl Hls]. destruct Hb as [B1 B2 B3 B4 B5].
  destruct (index_in_range (Version.files (VersionBuilder.base b)) l) as (fs & -> & _); [unfold len; rewrite B1; unfold NUM_LEVELS in *; lia|].
  destruct (index_in_range (VersionBuilder.deleted_files b) l) as (d & -> & _); [unfold len; rewrite B2; unfold NUM_LEVELS in *; lia|].
  cbn [mbind outcome_bind]. destruct (IH (Version.with_stats v (VersionBuilder.keep_stats (Version.seek_stats (VersionBuilder.base b)) d fs (Version.seek_stats v))) Hls)
    as [st ->]. by exists st.
Qed.

Lemma init_all_files new (v : Version.t C) : let v' := fold_left (fun v f => Version.init_seek_allowance (FileMetaData.number f) (FileMetaData.file_size f) v) new v in
  Version.files v' = Version.files v /\ Version.comparator v' = Version.comparator v.
Proof. revert v. induction new as [|f new IH]; intros v; [done|]. cbn. destruct (IH (Version.init_seek_allowance (FileMetaData.number f) (FileMetaData.file_size f) v)) as [-> ->]. done. Qed.

Lemma fill_levels_ok b n : builder_ok b -> forall k v, (k + n = Z.to_nat NUM_LEVELS)%nat ->
  Version.comparator v = mk_icmp c -> length (Version.files v) = Z.to_nat NUM_LEVELS ->
  exists v', VersionBuilder.fill_levels (seqZ (Z.of_nat k) (Z.of_nat n)) b v = Ret v' /\ Version.comparator v' = mk_icmp c /\
    length (Version.files v') = Z.to_nat NUM_LEVELS /\
    forall i, (i < Z.to_nat NUM_LEVELS)%nat -> Version.files v' !! i = if decide (k <= i)%nat then Some (next_level b i) else Version.files v !! i.
Proof.
  intros Hb. induction n as [|n IH]; intros k v Hk Hc Hl.
  { exists v. rewrite seqZ_nil by lia. split_and!; [done..|]. intros i Hi. by rewrite decide_False by lia. }
  rewrite seqZ_cons by lia. cbn [VersionBuilder.fill_levels]. destruct Hb as [B1 B2 B3 B4 B5] eqn:EHb.
  destruct (lookup_lt_is_Some_2 (Version.files (VersionBuilder.base b)) k) as [fs Efs]; [lia|].
  destruct (lookup_lt_is_Some_2 (VersionBuilder.deleted_files b) k) as [d Ed]; [lia|].
  destruct (lookup_lt_is_Some_2 (VersionBuilder.added_files b) k) as [ad Ead]; [lia|].
  rewrite (index_nat _ _ _ Efs), (index_nat _ _ _ Ed), (index_nat _ _ _ Ead). cbn [mbind outcome_bind].
  set (v1 := fold_left _ _ v). destruct (init_all_files (VersionBuilder.live d ad) v) as [Ev1 Ec1]. fold v1 in Ev1, Ec1.
  rewrite Ec1, Hc, sort_level_ok by (apply Forall_app_2; apply live_ok;
    [exact (level_ok_of _ _ _ B4 Efs)|exact (level_ok_of _ _ _ B5 Ead)]).
  cbn [mbind outcome_bind]. rewrite set_level_ok by (rewrite Ev1; lia). cbn [mbind outcome_bind].
  set (fs' := isort _ _). replace (Z.succ (Z.of_nat k)) with (Z.of_nat (S k)) by lia. replace (Z.pred (Z.of_nat (S n))) with (Z.of_nat n) by lia.
  destruct (IH (S k) (Version.with_files v1 (<[k := fs']> (Version.files v1)))) as (v' & E & Hc' & Hl' & Hi);
    [lia|cbn; congruence|cbn; by rewrite length_insert, Ev1|].
  exists v'. split_and!; [done..|]. intros i Hlt. rewrite Hi by done.
  destruct (decide (S k <= i)%nat); [by rewrite decide_True by lia|]. cbn [Version.files Version.with_files].
  destruct (decide (k <= i)%nat).
  - assert (i = k) as -> by lia. rewrite list_lookup_insert_eq by (rewrite Ev1; lia). f_equal. unfold next_level.
    by rewrite Efs, Ed, Ead.
  - by rewrite list_lookup_insert_ne, Ev1 by lia.
Qed.

Lemma score_loop_ok (v : Version.t C) levels best : Forall (fun l => 0 <= l < len (Version.files v)) levels ->
  exists r, Version.score_loop levels v best = Ret r.
Proof.
  revert best. induction levels as [|l levels IH]; intros best Hl; [by eexists|]. apply Forall_cons in Hl as [Hl Hls].
  cbn [Version.score_loop]. unfold Version.level_files. destruct (index_in_range _ _ Hl) as (fs & -> & _). by apply IH.
Qed.
Lemma levels_in a b : Forall (fun l => a <= l < b) (Version.levels_from a b).
Proof. apply Forall_forall. intros l Hl%elem_of_seqZ. lia. Qed.

Lemma finalize_ok (v : Version.t C) : length (Version.files v) = Z.to_nat NUM_LEVELS ->
  exists s l, Version.finalize v = Ret (Version.mk (Version.files v) (Version.comparator v) s l (Version.seek_stats v) (Version.file_to_compact v)).
Proof.
  intros Hl. unfold Version.finalize.
  destruct (score_loop_ok v (Version.levels_from 0 (NUM_LEVELS - 1)) (f64_minus_one, -1)) as [[s l] ->]; [|by eexists _, _].
  apply (Forall_impl _ _ _ (levels_in _ _)). intros l Hx. unfold len. rewrite Hl. unfold NUM_LEVELS in *. lia.
Qed.

(** [save_to]: on every level the files that stay and the added ones, in the level's order. *)
Lemma save_to_ok b : builder_ok b -> exists v, VersionBuilder.save_to b (mk_icmp c) = Ret v /\
  Version.comparator v = mk_icmp c /\ length (Version.files v) = Z.to_nat NUM_LEVELS /\
  forall i, (i < Z.to_nat NUM_LEVELS)%nat -> Version.files v !! i = Some (next_level b i).
Proof.
  intros Hb. unfold VersionBuilder.save_to.
  destruct (migrate_ok b (Version.levels_from 0 NUM_LEVELS) (Version.new (mk_icmp c)) Hb (levels_in _ _)) as [st ->].
  cbn [mbind outcome_bind].
  destruct (fill_levels_ok b 7 Hb 0 (Version.with_stats (Version.new (mk_icmp c)) st)) as (v & E & Hc & Hl & Hi); [done..|].
  unfold Version.levels_from. change (seqZ 0 (NUM_LEVELS - 0)) with (seqZ (Z.of_nat 0) (Z.of_nat 7)). rewrite E. cbn [mbind outcome_bind].
  destruct (finalize_ok v Hl) as (s & l & ->). eexists. split; [done|]. cbn. split_and!; [done..|].
  intros i Hlt. by rewrite Hi, decide_True by lia.
Qed.


(** ** The lookup *)

(** What a file holds, as its metadata promises. *)
Record file_holds (f : FileMeta) (es : list entry) : Prop := {
  fh_keys : file_ok f;
  fh_wf : Forall entry_wf es;
  fh_sorted : sorted_entries iord es;
  fh_lower e : e ∈ es -> iord (smallest f) e.1 <> Gt;
  fh_upper e : e ∈ es -> iord e.1 (largest f) <> Gt;
  fh_last : exists v, (largest f, v) ∈ es;
}.
(** The files of a level below 0 follow each other. *)
Definition level_disjoint (fs : list FileMeta) : Prop :=
  forall i j a b, (i < j)%nat -> fs !! i = Some a -> fs !! j = Some b -> iord (largest a) (smallest b) = Lt.

Section get.
Context {S : Type} (lookup : Z -> bytes -> action S LookupResult) (stored : Z -> Prop) (ready : nat -> S -> Prop) (contents : Z -> list entry).
Context (Hanti : forall a b, ord a b = Eq -> a = b).
(** [ready b]: at least [b] more lookups of stored files will be answered. *)
Context (Hless : forall b s, ready (Datatypes.S b) s -> ready b s).
Context (Hlookup : forall n t s b, stored n -> ready (Datatypes.S b) s -> ik_ok t ->
  exists s', lookup n t s = (lookup_spec ord (contents n) t, s') /\ ready b s').
Context (t : bytes) (Ht : ik_ok t).

Definition holds (f : FileMeta) : Prop := file_holds f (contents (FileMetaData.number f)).
Definition stored_in (fs : list FileMeta) : list entry := concat (map (fun f => contents (FileMetaData.number f)) fs).

Lemma stored_in_elem fs e : e ∈ stored_in fs <-> exists f, f ∈ fs /\ e ∈ contents (FileMetaData.number f).
Proof.
  unfold stored_in. rewrite list_elem_of_In, in_concat. setoid_rewrite in_map_iff. setoid_rewrite list_elem_of_In. naive_solver.
Qed.
Lemma ik_user_le a b : iord a b <> Gt -> ord (ukey a) (ukey b) <> Gt.
Proof. unfold ik_ord. by destruct (ord (ukey a) (ukey b)). Qed.

(** *** One file *)

(** Only the seek statistics of the version, and the file they mark, have changed. *)
Definition same_files (v v' : Version.t C) : Prop := Version.files v' = Version.files v /\ Version.comparator v' = Version.comparator v /\
  Version.compaction_score v' = Version.compaction_score v /\ Version.compaction_level v' = Version.compaction_level v.
Lemma same_trans v v' v'' : same_files v v' -> same_files v' v'' -> same_files v v''.
Proof. unfold same_files. intros (-> & -> & -> & ->) (-> & -> & -> & ->). done. Qed.
Definition answered (r : option (option bytes)) (res : LookupResult) : Prop :=
  r = match res with LookupNotFound => None | res => Some (told res) end.

Lemma decrement_same level n v : exists b v', Version.decrement_seek_allowance level n v = (Ret b, v') /\ same_files v v'.
Proof. unfold Version.decrement_seek_allowance. case_match; by do 2 eexists. Qed.
Lemma charge_same st (s : S) v : exists b v', Version.charge st (s, v) = (Ret b, (s, v')) /\ same_files v v'.
Proof.
  unfold Version.charge. destruct st as [[[level n]|] []]; cbn [fst snd]; try (by exists true, v); try (by exists false, v).
  destruct (decrement_same level n v) as (b & v' & E & Hs). exists true, v'. split; [|done].
  erewrite action_bind_ret by (unfold Version.on_version; cbn [fst snd]; by rewrite E). done.
Qed.
Definition available (f : FileMeta) : Prop := stored (FileMetaData.number f).
Lemma ready_less a b s : ready (a + b) s -> ready b s.
Proof. induction a as [|a IH]; [done|]. intros Hr. apply IH, Hless, Hr. Qed.
Lemma probe_ok level f st s v b : ready (Datatypes.S b) s -> available f -> holds f ->
  exists r res st' s' v', Version.probe lookup level f t st (s, v) = (Ret (r, st'), (s', v')) /\ ready b s' /\ same_files v v' /\
    answers t (contents (FileMetaData.number f)) res /\ answered r res.
Proof.
  intros Hr Hav Hf. destruct (charge_same st s v) as (ch & v' & E & Hs). unfold Version.probe. erewrite action_bind_ret by exact E.
  destruct (Hlookup (FileMetaData.number f) t s b Hav Hr Ht) as (s' & El & Hr').
  destruct (lookup_answers ord Hanti (contents (FileMetaData.number f)) t (fh_sorted _ _ Hf) (fh_wf _ _ Hf)) as (res & Eres & Ha).
  erewrite action_bind_ret by (unfold Version.on_lookup; cbn [fst snd]; by rewrite El, Eres).
  do 5 eexists. split; [done|]. split_and!; [done..| exact Ha|]. by destruct res.
Qed.

(** *** Level 0 *)

Lemma covers_ok f : file_ok f ->
  Version.covers c (ukey t) f = Ret (is_ge (ord (ukey t) (lo f)) && is_le (ord (ukey t) (hi f))).
Proof.
  intros [H1 H2]. unfold Version.covers. rewrite !strip_tag_ok by done. cbn [mbind outcome_bind].
  rewrite !compare_user. cbn [mbind outcome_bind]. fold (lo f) (hi f). by destruct (is_ge _).
Qed.
Definition may_hold (f : FileMeta) : bool := is_ge (ord (ukey t) (lo f)) && is_le (ord (ukey t) (hi f)).
Lemma covering_ok fs : Forall file_ok fs -> Version.covering c (ukey t) fs = Ret (List.filter may_hold fs).
Proof.
  induction 1 as [|f fs Hf _ IH]; [done|]. cbn [Version.covering List.filter]. rewrite covers_ok, IH by done.
  cbn [mbind outcome_bind]. fold (may_hold f). by destruct (may_hold f).
Qed.
Lemma not_covered f : holds f -> may_hold f = false -> none_in t (contents (FileMetaData.number f)).
Proof.
  intros Hf Hm e He [Hu _]. pose proof (ik_user_le _ _ (fh_lower _ _ Hf e He)) as H1.
  pose proof (ik_user_le _ _ (fh_upper _ _ Hf e He)) as H2. rewrite Hu in H1, H2.
  fold (lo f) in H1. fold (hi f) in H2. unfold may_hold in Hm. apply ord_not_lt in H1.
  destruct (ord (ukey t) (lo f)), (ord (ukey t) (hi f)); done.
Qed.

(** Newer files come first in the list. *)
Definition newest_first (fs : list FileMeta) : Prop :=
  forall i j a b, (i < j)%nat -> fs !! i = Some a -> fs !! j = Some b ->
    newer (contents (FileMetaData.number a)) (contents (FileMetaData.number b)).
Lemma newest_first_tail f fs : newest_first (f :: fs) -> newest_first fs /\ newer (contents (FileMetaData.number f)) (stored_in fs).
Proof.
  intros Hn. split; [intros i j a b Hij Ha Hb; apply (Hn (Datatypes.S i) (Datatypes.S j)); [lia|done..]|].
  intros x y Hx (g & [i Hi]%list_elem_of_lookup & Hy)%stored_in_elem Hu.
  exact (Hn 0%nat (Datatypes.S i) f g ltac:(lia) eq_refl Hi x y Hx Hy Hu).
Qed.

Lemma l0_loop_ok fs b : Forall available fs -> Forall holds fs -> newest_first fs -> forall st s v, ready (length fs + b) s ->
  exists r res st' s' v', Version.l0_loop lookup fs t st (s, v) = (Ret (r, st'), (s', v')) /\ ready b s' /\ same_files v v' /\
    answers t (stored_in fs) res /\ answered r res.
Proof.
  induction fs as [|f fs IH]; intros Hav Hf Hn st s v Hr.
  { exists None, LookupNotFound, st, s, v. split_and!; [done..| |done]. constructor. by intros e He%elem_of_nil. }
  apply Forall_cons in Hav as [Hav Havs]. apply Forall_cons in Hf as [Hf Hfs].
  destruct (newest_first_tail _ _ Hn) as [Hn' Hnew]. cbn [Version.l0_loop].
  destruct (probe_ok 0 f st s v _ Hr Hav Hf) as (r & res & st' & s' & v' & E & Hr' & Hs & Ha & Hans).
  erewrite action_bind_ret by exact E. change (stored_in (f :: fs)) with (contents (FileMetaData.number f) ++ stored_in fs).
  destruct (IH Havs Hfs Hn' st' s' v' Hr') as (r2 & res2 & st2 & s2 & v2 & E2 & Hr2 & Hs2 & Ha2 & Hans2).
  pose proof (answers_app _ _ _ _ _ Hnew Ha Ha2) as Happ. destruct res; cbn in Hans; rewrite Hans; cbn iota.
  1,2: do 5 eexists; split; [done|]; split_and!; [by eapply ready_less|done..].
  exists r2, res2, st2, s2, v2. split_and!; [done|done| |done|done]. by apply (same_trans v v' v2).
Qed.

(** *** The sorted levels *)

Lemma disjoint_ascending fs : Forall holds fs -> level_disjoint fs -> level_ascending fs.
Proof.
  intros Hf Hd i j a b Hij Ha Hb. pose proof (Hd _ _ _ _ Hij Ha Hb) as Hlt.
  pose proof (proj1 (Forall_lookup _ _) Hf _ _ Hb) as Hb'. destruct (fh_last _ _ Hb') as [x Hx].
  pose proof (fh_lower _ _ Hb' _ Hx) as Hle. cbn in Hle. by rewrite (ord_lt_le_trans (ord:=iord) _ _ _ Hlt Hle).
Qed.

(** The one file of a level that can answer. *)
Definition candidate (fs : list FileMeta) : option FileMeta :=
  f ← fs !! first_file fs t; if is_lt (ord (ukey t) (lo f)) then None else Some f.

Lemma level_candidate_ok v fs : Version.comparator v = mk_icmp c -> Forall holds fs -> level_disjoint fs ->
  Version.level_candidate v (ukey t) t fs = Ret (candidate fs).
Proof.
  intros Hv Hf Hd. unfold Version.level_candidate, candidate. case_bool_decide as Hnil; [by subst|].
  assert (Hok : Forall file_ok fs) by (apply (Forall_impl _ _ _ Hf); intros f Hfh; apply Hfh).
  rewrite Hv, find_file_ok by (try done; by apply disjoint_ascending). cbn [mbind outcome_bind].
  destruct (fs !! first_file fs t) as [f|] eqn:Ef; cbn [mbind option_bind].
  - apply lookup_lt_Some in Ef as Hlt. rewrite (proj2 (Z.leb_gt _ _)) by (unfold len; lia).
    rewrite (index_nat _ _ _ Ef). cbn [mbind outcome_bind].
    pose proof (proj1 (Forall_lookup _ _) Hok _ _ Ef) as [Hs _]. rewrite strip_tag_ok by done. cbn [mbind outcome_bind].
    cbn [user_comparator]. rewrite compare_user. cbn [mbind outcome_bind]. fold (lo f). by destruct (is_lt _).
  - apply lookup_ge_None_1 in Ef. by rewrite (proj2 (Z.leb_le _ _)) by (unfold len; lia).
Qed.

Lemma level_before fs i f : Forall holds fs -> (i < first_file fs t)%nat -> fs !! i = Some f -> none_in t (contents (FileMetaData.number f)).
Proof.
  intros Hf Hi Ef e He [_ Hge]%(visible_ge ord Hanti). pose proof (first_file_before _ _ _ _ Hi Ef) as Hb.
  pose proof (fh_upper _ _ (proj1 (Forall_lookup _ _) Hf _ _ Ef) e He) as Hup. unfold largest_below in Hb. apply is_lt_true in Hb.
  pose proof (ord_le_lt_trans (ord:=iord) _ _ _ Hup Hb) as Hlt. apply ord_gt_lt in Hlt. done.
Qed.
(** What lies after the candidate is older. *)
Lemma level_after fs i j f g x y : Forall holds fs -> level_disjoint fs -> (i < j)%nat -> fs !! i = Some f -> fs !! j = Some g ->
  x ∈ contents (FileMetaData.number f) -> y ∈ contents (FileMetaData.number g) -> iord x.1 y.1 = Lt.
Proof.
  intros Hf Hd Hij Ef Eg Hx Hy. pose proof (fh_upper _ _ (proj1 (Forall_lookup _ _) Hf _ _ Ef) x Hx) as Hup.
  pose proof (fh_lower _ _ (proj1 (Forall_lookup _ _) Hf _ _ Eg) y Hy) as Hlow. pose proof (Hd _ _ _ _ Hij Ef Eg) as Hlt.
  apply (ord_le_lt_trans (ord:=iord) _ _ _ Hup). by apply (ord_lt_le_trans (ord:=iord) _ _ _ Hlt).
Qed.

Lemma candidate_none fs : Forall holds fs -> level_disjoint fs -> candidate fs = None -> none_in t (stored_in fs).
Proof.
  intros Hf Hd Hc e (g & [j Hj]%list_elem_of_lookup & He)%stored_in_elem Hv.
  destruct (decide (j < first_file fs t)%nat) as [Hlt|Hge]; [by apply (level_before fs j g Hf Hlt Hj e)|].
  unfold candidate in Hc. destruct (fs !! first_file fs t) as [f|] eqn:Ef.
  2: { apply lookup_ge_None_1 in Ef. apply lookup_lt_Some in Hj. lia. }
  cbn [mbind option_bind] in Hc. destruct (is_lt (ord (ukey t) (lo f))) eqn:El; [|done]. apply is_lt_true in El.
  assert (Hle : iord (smallest f) e.1 <> Gt).
  { destruct (decide (j = first_file fs t)) as [->|Hne]; [simplify_eq; by apply (fh_lower _ _ (proj1 (Forall_lookup _ _) Hf _ _ Ef))|].
    pose proof (proj1 (Forall_lookup _ _) Hf _ _ Ef) as Hff. destruct (fh_last _ _ Hff) as [x Hx].
    pose proof (fh_lower _ _ Hff _ Hx) as H1. pose proof (level_after fs (first_file fs t) j f g (largest f, x) e Hf Hd ltac:(lia) Ef Hj Hx He) as H2.
    by rewrite (ord_le_lt_trans (ord:=iord) _ _ _ H1 H2). }
  apply ik_user_le in Hle. rewrite (proj1 Hv) in Hle. apply ord_gt_lt in El. by fold (lo f) in Hle.
Qed.

Lemma candidate_some fs f res : Forall holds fs -> level_disjoint fs -> candidate fs = Some f ->
  answers t (contents (FileMetaData.number f)) res -> f ∈ fs /\ answers t (stored_in fs) res.
Proof.
  intros Hf Hd Hc Ha. unfold candidate in Hc. destruct (fs !! first_file fs t) as [f'|] eqn:Ef; [|done].
  cbn [mbind option_bind] in Hc. destruct (is_lt (ord (ukey t) (lo f'))) eqn:El; [done|]. injection Hc as ->.
  split; [by eapply list_elem_of_lookup_2|].
  pose proof (take_drop_middle fs _ _ Ef) as Hsplit. set (k := first_file fs t) in *.
  pose proof (proj1 (Forall_lookup _ _) Hf _ _ Ef) as Hff.
  assert (Hafter : forall y, y ∈ stored_in (drop (Datatypes.S k) fs) -> forall x, x ∈ contents (FileMetaData.number f) -> iord x.1 y.1 = Lt).
  { intros y (g & [j Hj]%list_elem_of_lookup & Hy)%stored_in_elem x Hx. rewrite lookup_drop in Hj.
    by apply (level_after fs k (Datatypes.S k + j) f g x y Hf Hd ltac:(lia) Ef Hj). }
  assert (Hold : newer (contents (FileMetaData.number f)) (stored_in (drop (Datatypes.S k) fs))).
  { intros x y Hx Hy Hu. apply (same_user_tag ord Hanti); [done|]. by rewrite (Hafter y Hy x Hx). }
  (* the largest key of [f] is not below the target *)
  assert (Hnone : res = LookupNotFound -> none_in t (stored_in (drop (Datatypes.S k) fs))).
  { intros -> y Hy [Huy Hgy]%(visible_ge ord Hanti). inversion Ha as [| |Hn]. destruct (fh_last _ _ Hff) as [x Hx].
    pose proof (Hafter y Hy _ Hx) as Hlt. cbn in Hlt. apply (Hn _ Hx). apply (visible_ge ord Hanti). cbn.
    pose proof (first_file_at _ _ _ Ef) as Hb. unfold largest_below in Hb.
    assert (Hge : iord t (largest f) <> Gt) by (intros Hg; apply ord_gt_lt in Hg; by rewrite Hg in Hb). split; [|done].
    apply Hanti. pose proof (ik_user_le _ _ Hge) as H1.
    assert (H2 : ord (ukey (largest f)) (ukey t) <> Gt) by (rewrite <- Huy; apply ik_user_le; by rewrite Hlt).
    destruct (ord (ukey (largest f)) (ukey t)) eqn:E; [done| |done]. apply ord_gt_lt in E. done. }
  rewrite <- Hsplit. unfold stored_in. rewrite map_app, concat_app. cbn [map concat].
  apply answers_skip.
  - intros e (g & [i Hi]%list_elem_of_lookup & He)%stored_in_elem. apply lookup_take_Some in Hi as [Hi Hlt].
    by apply (level_before fs i g Hf Hlt Hi).
  - assert (res = LookupNotFound \/ res <> LookupNotFound) as [->|Hne] by (destruct res; [by right|by right|by left]); [|by apply answers_newer].
    apply answers_skip; [by inversion Ha|]. constructor. by apply Hnone.
Qed.

(** Older and older levels. *)
Fixpoint levels_newer (ess : list (list entry)) : Prop :=
  match ess with [] => True | es :: ess => newer es (concat ess) /\ levels_newer ess end.

Lemma deep_loop_ok v b levels fss : Version.comparator v = mk_icmp c ->
  Forall2 (fun l fs => index (Version.files v) l = Ret fs) levels fss -> Forall (Forall available) fss -> Forall (Forall holds) fss -> Forall level_disjoint fss ->
  levels_newer (map stored_in fss) -> forall st s v', ready (length fss + b) s -> same_files v v' ->
  exists res s' v'', Version.deep_loop lookup levels (ukey t) t st (s, v') = (Ret (told res), (s', v'')) /\ ready b s' /\ same_files v v'' /\
    answers t (concat (map stored_in fss)) res.
Proof.
  intros Hc Hl. induction Hl as [|level fs levels fss Hidx _ IH]; intros Hav Hf Hd Hn st s v' Hr Hs.
  { exists LookupNotFound, s, v'. split_and!; [done..|]. constructor. by intros e He%elem_of_nil. }
  apply Forall_cons in Hav as [Hav Havs]. apply Forall_cons in Hf as [Hf Hfs]. apply Forall_cons in Hd as [Hd Hds]. destruct Hn as [Hn Hns]. cbn [Version.deep_loop].
  erewrite action_bind_ret by reflexivity. cbn [snd]. unfold Version.level_files. pose proof Hs as [Hsf [Hsc _]].
  erewrite action_bind_ret by (unfold lift; rewrite Hsf, Hidx; reflexivity).
  erewrite action_bind_ret by (unfold lift; rewrite level_candidate_ok by (done || congruence); reflexivity).
  cbn [map concat]. destruct (candidate fs) as [f|] eqn:Ec.
  2: { destruct (IH Havs Hfs Hds Hns st s v' (Hless _ _ Hr) Hs) as (res & s' & v'' & E & Hr' & Hs' & Ha). exists res, s', v''.
       split_and!; [done..|]. apply answers_skip; [by apply candidate_none|done]. }
  assert (Hin : f ∈ fs) by (unfold candidate in Ec; destruct (fs !! _) eqn:E; [|done]; cbn in Ec;
    destruct (is_lt _); [done|]; injection Ec as <-; by eapply list_elem_of_lookup_2).
  rewrite Forall_forall in Hf, Hav.
  destruct (probe_ok level f st s v' _ Hr (Hav f Hin) (Hf f Hin)) as (r & res & st' & s' & v'' & E & Hr' & Hs' & Ha & Hans).
  rewrite <- Forall_forall in Hf.
  erewrite action_bind_ret by exact E. destruct (candidate_some fs f res Hf Hd Ec Ha) as [_ Hfa].
  pose proof (same_trans _ _ _ Hs Hs') as Hs2.
  destruct (IH Havs Hfs Hds Hns st' s' v'' Hr' Hs2) as (res2 & s2 & v2 & E2 & Hr2 & Hs3 & Ha2).
  pose proof (answers_app _ _ _ _ _ Hn Hfa Ha2) as Happ. destruct res; cbn in Hans; rewrite Hans; cbn iota.
  1,2: do 3 eexists; split; [done|]; split_and!; [by eapply ready_less|done..].
  by exists res2, s2, v2.
Qed.

(** *** The whole version *)

Definition version_entries (v : Version.t C) : list entry := concat (map stored_in (Version.files v)).

(** What the levels of a version promise each other. *)
Record version_wf (v : Version.t C) : Prop := {
  wf_comparator : Version.comparator v = mk_icmp c;
  wf_levels : length (Version.files v) = Z.to_nat NUM_LEVELS;
  wf_holds : Forall (Forall holds) (Version.files v);
  wf_disjoint : Forall level_disjoint (drop 1 (Version.files v));
  wf_numbers : forall l0, Version.files v !! 0%nat = Some l0 -> NoDup (map FileMetaData.number l0);
  wf_level0 : forall l0 a b, Version.files v !! 0%nat = Some l0 -> a ∈ l0 -> b ∈ l0 ->
    FileMetaData.number b < FileMetaData.number a -> newer (contents (FileMetaData.number a)) (contents (FileMetaData.number b));
  wf_newer : levels_newer (map stored_in (Version.files v));
}.

Lemma newer_first_ord : TotalOrd Version.newer_first.
Proof. split; unfold Version.newer_first; intros *; [apply Z.compare_antisym|]. rewrite !Z.compare_gt_iff. lia. Qed.
Lemma isort_newest_first l : NoDup (map FileMetaData.number l) ->
  (forall a b, a ∈ l -> b ∈ l -> FileMetaData.number b < FileMetaData.number a ->
     newer (contents (FileMetaData.number a)) (contents (FileMetaData.number b))) -> newest_first (isort Version.newer_first l).
Proof.
  intros Hnd Hn i j a b Hij Ha Hb. pose proof (isort_perm Version.newer_first l) as Hp.
  apply Hn; [rewrite <- Hp; by eapply list_elem_of_lookup_2..|].
  pose proof newer_first_ord as Ho. pose proof (isort_sorted Version.newer_first l) as Hs.
  assert (Hle : FileMetaData.number b <= FileMetaData.number a).
  { pose proof (ord_sorted_lookup _ _ i j a b Hs Hij Ha Hb) as H1. unfold Version.newer_first in H1. by rewrite Z.compare_le_iff in H1. }
  assert (Hnd' : NoDup (map FileMetaData.number (isort Version.newer_first l))) by by rewrite Hp.
  assert (FileMetaData.number a <> FileMetaData.number b); [|lia]. intros E.
  assert (i = j); [|lia]. apply (NoDup_lookup _ i j (FileMetaData.number a) Hnd'); apply list_lookup_fmap_Some; [by exists a|by exists b].
Qed.

Lemma stored_in_perm a b : a ≡ₚ b -> stored_in a ≡ₚ stored_in b.
Proof. unfold stored_in. intros Hp. rewrite Hp. done. Qed.
Lemma filter_split {A} (p : A -> bool) l : l ≡ₚ List.filter (fun x => negb (p x)) l ++ List.filter p l.
Proof.
  induction l as [|x l IH]; [done|]. cbn [List.filter]. destruct (p x); cbn [negb].
  - rewrite <- Permutation_middle. by constructor.
  - by constructor.
Qed.
Lemma level0_rest fs res : Forall holds fs -> answers t (stored_in (List.filter may_hold fs)) res -> answers t (stored_in fs) res.
Proof.
  intros Hf Ha. rewrite (stored_in_perm _ _ (filter_split may_hold fs)). unfold stored_in. rewrite map_app, concat_app.
  apply answers_skip; [|exact Ha]. intros e (f & Hin & He)%stored_in_elem. apply list_elem_of_In, filter_In in Hin as [Hin Hm].
  rewrite Forall_forall in Hf. apply (not_covered f); [apply Hf; by apply list_elem_of_In|by apply negb_true_iff|done].
Qed.
Lemma NoDup_filter_map {A B} (g : A -> B) (p : A -> bool) l : NoDup (map g l) -> NoDup (map g (List.filter p l)).
Proof.
  induction l as [|x l IH]; [done|]. cbn. rewrite NoDup_cons. intros [Hx Hl]. destruct (p x); [|by apply IH].
  cbn. apply NoDup_cons. split; [|by apply IH]. rewrite !list_elem_of_In, !in_map_iff in *.
  intros (y & Ey & [Hy _]%filter_In). apply Hx. by exists y.
Qed.

Lemma levels_split (v : Version.t C) : length (Version.files v) = Z.to_nat NUM_LEVELS ->
  exists l0 rest, Version.files v = l0 :: rest /\ length rest = 6%nat /\
    Forall2 (fun l fs => index (Version.files v) l = Ret fs) (Version.levels_from 1 NUM_LEVELS) rest.
Proof.
  intros Hl. destruct (Version.files v) as [|l0 rest]; [done|]. exists l0, rest. injection Hl as Hl. split_and!; [done..|].
  apply Forall2_same_length_lookup_2; [by rewrite Hl|].
  intros i l fs Hi Hfs. unfold Version.levels_from in Hi.
  assert (Hlt : (i < 6)%nat) by (apply lookup_lt_Some in Hfs; rewrite Hl in Hfs; exact Hfs).
  rewrite lookup_seqZ_lt in Hi by (unfold NUM_LEVELS; lia). injection Hi as <-.
  apply index_lookup_ok; [lia|]. replace (Z.to_nat (1 + Z.of_nat i)) with (Datatypes.S i) by lia. done.
Qed.

Definition all_stored (v : Version.t C) : Prop := Forall (Forall available) (Version.files v).
(** The lookups one [get] may make: the files of level 0, and one per deeper level. *)
Definition lookups (v : Version.t C) : nat := length (default [] (Version.files v !! 0%nat)) + 6.
Lemma get_ok v s b : version_wf v -> all_stored v -> ready (lookups v + b) s ->
  exists res s' v', Version.get lookup (ukey t) t (s, v) = (Ret (told res), (s', v')) /\ ready b s' /\ same_files v v' /\
    answers t (version_entries v) res.
Proof.
  intros [W1 W2 W3 W4 W5 W6 W7] Hav Hr. destruct (levels_split v W2) as (l0 & rest & Ev & Hrest & Hidx).
  unfold version_entries, all_stored, lookups in *. rewrite Ev in *. cbn [map concat] in *. destruct W7 as [Wn Wns].
  apply Forall_cons in W3 as [Wl0 Wrest]. apply Forall_cons in Hav as [Hav0 Hav]. change (default [] ((l0 :: rest) !! 0%nat)) with l0 in Hr. cbn [drop] in W4. rewrite drop_0 in W4.
  specialize (W5 l0 eq_refl). specialize (fun a b => W6 l0 a b eq_refl).
  assert (Hok : Forall file_ok l0) by (apply (Forall_impl _ _ _ Wl0); intros f Hfh; apply Hfh).
  unfold Version.get. erewrite action_bind_ret by reflexivity. cbn [snd]. unfold Version.level_files.
  erewrite action_bind_ret by (unfold lift; rewrite Ev; reflexivity). rewrite W1. cbn [user_comparator].
  erewrite action_bind_ret by (unfold lift; rewrite covering_ok by done; reflexivity).
  set (cov := List.filter may_hold l0).
  assert (Hsub : forall f, f ∈ isort Version.newer_first cov -> f ∈ l0).
  { intros f. rewrite (isort_perm Version.newer_first cov), !list_elem_of_In. by intros [Hf _]%filter_In. }
  assert (Hlen : (length (isort Version.newer_first cov) <= length l0)%nat).
  { rewrite (isort_perm Version.newer_first cov). apply List.filter_length_le. }
  assert (Hcov : Forall holds (isort Version.newer_first cov)).
  { rewrite Forall_forall in Wl0 |- *. intros f Hf. by apply Wl0, Hsub. }
  destruct (l0_loop_ok (isort Version.newer_first cov) (length rest + b)) with (st := (@None (Z * Z), false)) (s := s) (v := v)
    as (r & res & st' & s' & v' & E & Hr' & Hs & Ha & Hans); [|done| | |].
  { rewrite Forall_forall in Hav0 |- *. intros f Hf. by apply Hav0, Hsub. }
  { apply isort_newest_first; [by apply NoDup_filter_map|]. intros f g Hca Hcb. apply W6.
    - apply list_elem_of_In in Hca. apply filter_In in Hca as [Hca _]. by apply list_elem_of_In.
    - apply list_elem_of_In in Hcb. apply filter_In in Hcb as [Hcb _]. by apply list_elem_of_In. }
  { apply (ready_less (length l0 - length (isort Version.newer_first cov))). rewrite Hrest.
    by replace (_ - _ + _)%nat with (length l0 + 6 + b)%nat by lia. }
  erewrite action_bind_ret by exact E. rewrite (stored_in_perm _ _ (isort_perm Version.newer_first cov)) in Ha.
  apply level0_rest in Ha; [|done].
  destruct (deep_loop_ok v b (Version.levels_from 1 NUM_LEVELS) rest W1) with (st := st') (s := s') (v' := v')
    as (res2 & s2 & v2 & E2 & Hr2 & Hs2 & Ha2); [by rewrite Ev|done..|].
  pose proof (answers_app _ _ _ _ _ Wn Ha Ha2) as Happ. destruct res; cbn in Hans; rewrite Hans; cbn iota.
  1,2: do 3 eexists; split; [done|]; split_and!; [by eapply ready_less|done..].
  by exists res2, s2, v2.
Qed.
End get.
End version.

(** ** Claims *)

(** C17: (Version::get) Over a version whose files hold what their metadata says, newer versions
    of a key above or in later files, a lookup returns the value of the newest version
    visible to the snapshot key and nothing when that version is a deletion or there is
    none: skipping the files that do not cover the key, and stopping at the first that
    answers, loses nothing.  It changes only the seek statistics and the file they
    mark for compaction, and looks up at most the files of level 0 and one file of each
    deeper level. *)
Theorem version_get_newest {C S} `{Comparator C} (c : C) ord `{!ComparatorLaws c (fun _ => True) ord}
    (lookup : Z -> bytes -> action S LookupResult) (stored : Z -> Prop) (ready : nat -> S -> Prop) contents v s b uk tag :
  (forall a b, ord a b = Eq -> a = b) ->
  (forall b s, ready (Datatypes.S b) s -> ready b s) ->
  (forall n t s b, stored n -> ready (Datatypes.S b) s -> ik_ok t ->
     exists s', lookup n t s = (lookup_spec ord (contents n) t, s') /\ ready b s') ->
  version_wf c ord contents v -> all_stored stored v -> ready (lookups v + b)%nat s -> is_u64 tag ->
  exists res s' v', Version.get lookup uk (mk_ikey uk tag) (s, v) = (Ret (told res), (s', v')) /\ ready b s' /\
    answers (mk_ikey uk tag) (version_entries contents v) res /\
    same_files v v'.
Proof.
  intros Hanti Hless Hl Hv Hav Hs Ht.
  destruct (get_ok c ord lookup stored ready contents Hanti Hless Hl (mk_ikey uk tag) (ik_ok_mk _ _) v s b Hv Hav Hs)
    as (res & s' & v' & E & Hr & Hf & Ha).
  rewrite ukey_mk in E. by exists res, s', v'.
Qed.

(** Two versions of a key in level 0 files, one in level 1 that a lower file repeats. *)
Definition sample_contents (n : Z) : list entry :=
  let b := list_byte_of_string in
  let e k n t v := (mk_ikey (b k) (mk_tag n t), b v) in
  if n =? 4 then [e "b" 5 Value "new"; e "c" 9 Value "x"]%string
  else if n =? 3 then [e "a" 2 Value "y"; e "c" 7 Deletion ""]%string
  else if n =? 2 then [e "b" 4 Value "old"; e "c" 3 Value "z"]%string
  else [].
Definition sample_meta (n : Z) : FileMeta :=
  FileMetaData.mk n 100 (default [] (fst <$> head (sample_contents n))) (default [] (fst <$> last (sample_contents n))).
Definition sample_version : Version.t BytewiseComparator :=
  Version.mk [[sample_meta 3; sample_meta 4]; [sample_meta 2]; []; []; []; []; []] (mk_icmp Bytewise) f64_minus_one (-1) ∅ None.

Lemma sample_holds n : n = 2 \/ n = 3 \/ n = 4 -> holds bytes_cmp sample_contents (sample_meta n).
Proof.
  intros Hn. split.
  - destruct Hn as [->|[->| ->]]; by vm_compute.
  - destruct Hn as [->|[->| ->]]; repeat constructor; first [by vm_compute | by left; vm_compute | by right; vm_compute].
  - apply sortedb_sound; [apply _|]. destruct Hn as [->|[->| ->]]; by vm_compute.
  - intros e He. destruct Hn as [->|[->| ->]]; cbn in He; repeat (apply elem_of_cons in He as [->|He]; [by vm_compute|]);
      by apply elem_of_nil in He.
  - intros e He. destruct Hn as [->|[->| ->]]; cbn in He; repeat (apply elem_of_cons in He as [->|He]; [by vm_compute|]);
      by apply elem_of_nil in He.
  - destruct Hn as [->|[->| ->]]; eexists; apply list_elem_of_lookup; by exists 1%nat.
Qed.

(** Recency of two stores, decided. *)
Definition newerb (a b : list entry) : bool :=
  forallb (fun x => forallb (fun y => negb (bool_decide (ukey x.1 = ukey y.1)) || (utag y.1 <=? utag x.1)) b) a.
Lemma newerb_sound a b : newerb a b = true -> newer a b.
Proof.
  unfold newerb. rewrite forallb_forall. setoid_rewrite forallb_forall. intros Hb x y Hx Hy Hu.
  specialize (Hb x (proj1 (list_elem_of_In _ _) Hx) y (proj1 (list_elem_of_In _ _) Hy)).
  rewrite bool_decide_eq_true_2 in Hb by done. cbn in Hb. by apply Z.leb_le.
Qed.

Lemma sample_version_wf : version_wf Bytewise bytes_cmp sample_contents sample_version.
Proof.
  split.
  - done.
  - done.
  - repeat (apply Forall_cons; split; [repeat (apply Forall_cons; split; [apply sample_holds; lia|]); done|]). done.
  - repeat (apply Forall_cons; split; [intros [|[|i]] [|[|j]] a b Hij Ha Hb; cbn in *; first [done|lia]|]). done.
  - intros l0 [= <-]. apply (bool_decide_unpack _). by vm_compute.
  - intros l0 a b [= <-] Ha Hb Hlt. apply newerb_sound.
    repeat (apply elem_of_cons in Ha as [->|Ha]); [..|by apply elem_of_nil in Ha].
    all: repeat (apply elem_of_cons in Hb as [->|Hb]); [..|by apply elem_of_nil in Hb]; first [by vm_compute | cbn in Hlt; lia].
  - repeat (split; [apply newerb_sound; by vm_compute|]). done.
Qed.

Lemma version_get_newest_witness :
  let lookup n t (s : unit) := (lookup_spec bytes_cmp (sample_contents n) t, s) in
  let b := list_byte_of_string in
  let get k n := fst (Version.get lookup (b k) (mk_ikey (b k) (mk_tag n Value)) (tt, sample_version)) in
  get "b"%string 9 = Ret (Some (b "new"%string)) /\ get "c"%string 8 = Ret None /\
  exists res, answers (mk_ikey (b "b"%string) (mk_tag 9 Value)) (version_entries sample_contents sample_version) res /\ told res = Some (b "new"%string).
Proof.
  intros lookup b get. split; [by vm_compute|]. split; [by vm_compute|].
  destruct (version_get_newest Bytewise bytes_cmp lookup (fun _ => True) (fun _ _ => True) sample_contents sample_version tt 0 (b "b"%string) (mk_tag 9 Value))
    as (res & s' & v' & E & _ & Ha & _).
  - intros x y. apply bytes_cmp_eq.
  - done.
  - intros n t s m _ _ _. by exists s.
  - exact sample_version_wf.
  - repeat constructor.
  - done.
  - by vm_compute.
  - exists res. split; [exact Ha|]. apply (f_equal fst) in E. cbn [fst] in E. vm_compute in E. injection E as E. symmetry. exact E.
Defined.

(** C39: (Version::get_overlapping_inputs) The scan always ends, whatever the bounds.  Below
    level 0 it returns exactly the files whose user keys meet the range, whatever the
    bounds.  At level 0 and with both bounds given it returns the files that meet the
    smallest range which contains the one asked for and is closed: no file reaches across
    its ends.  With both bounds given, on any level, every file that meets the range is
    returned, and none is returned exactly when none meets it. *)
Theorem overlapping_inputs_closed {C} `{Comparator C} (c : C) ord `{!ComparatorLaws c (fun _ => True) ord}
    (v : Version.t C) level fs :
  Version.comparator v = mk_icmp c -> Version.level_files v level = Ret fs -> Forall file_ok fs ->
  (forall begin end_, exists r, Version.get_overlapping_inputs v level begin end_ = Ret r) /\
  (level <> 0 -> forall begin end_, Version.get_overlapping_inputs v level begin end_ = Ret (overlapping ord begin end_ fs)) /\
  (level = 0 -> forall ub ue, exists b e,
     Version.get_overlapping_inputs v level (Some ub) (Some ue) = Ret (overlapping ord (Some b) (Some e) fs) /\
     within ord ub ue b e /\ closed_range ord b e fs /\
     (forall B E, closed_range ord B E fs -> within ord ub ue B E -> within ord b e B E)) /\
  (forall ub ue, exists r, Version.get_overlapping_inputs v level (Some ub) (Some ue) = Ret r /\
     (forall f, f ∈ fs -> hits ord (Some ub) (Some ue) f = true -> f ∈ r) /\
     (r = [] <-> forall f, f ∈ fs -> hits ord (Some ub) (Some ue) f = false)).
Proof.
  intros Hv Hfs Hok. split_and!.
  - by apply (query_returns c ord v level fs).
  - intros Hl begin end_. by apply (query_deep c ord v level fs).
  - intros Hl ub ue. by apply (query_level0 c ord v level fs).
  - intros ub ue. destruct (query_empty c ord v level fs Hv Hfs Hok ub ue) as (r & E & _ & Hall & Hsome).
    exists r. split_and!; [done|done|]. split.
    + intros -> f Hf. destruct (hits ord (Some ub) (Some ue) f) eqn:Eh; [|done]. pose proof (Hall f Hf Eh) as Hin. by apply elem_of_nil in Hin.
    + intros Hnone. destruct r as [|g r]; [done|]. destruct (Hsome ltac:(done)) as (f & Hf & Hh). by rewrite Hnone in Hh.
Qed.

Lemma overlapping_inputs_closed_witness :
  let b := list_byte_of_string in
  Version.get_overlapping_inputs sample_version 0 (Some (b "a"%string)) (Some (b "a"%string)) = Ret [sample_meta 3; sample_meta 4] /\
  (forall begin end_, exists r, Version.get_overlapping_inputs sample_version 0 begin end_ = Ret r).
Proof.
  split; [by vm_compute|].
  apply (overlapping_inputs_closed Bytewise bytes_cmp sample_version 0 [sample_meta 3; sample_meta 4]); [done|done|].
  repeat constructor; by vm_compute.
Defined.

(** Open-ended range at level 0. With a missing bound the level 0 scan narrows the range to
    the first file it meets: the query for everything returns one of two files, although
    both meet the range and the next level returns all of its files. *)
Theorem overlapping_open_range_misses :
  let f n k := FileMetaData.mk n 10 (mk_ikey (list_byte_of_string k) (mk_tag n Value)) (mk_ikey (list_byte_of_string k) (mk_tag n Value)) in
  let fs := [f 3 "a"; f 4 "b"]%string in
  let v := Version.mk [fs; fs; []; []; []; []; []] (mk_icmp Bytewise) f64_minus_one (-1) ∅ None in
  Version.get_overlapping_inputs v 0 None None = Ret [f 3 "a"%string] /\
  Forall (fun x => hits bytes_cmp None None x = true) fs /\
  Version.get_overlapping_inputs v 1 None None = Ret fs.
Proof. split_and!; [by vm_compute|repeat constructor|by vm_compute]. Qed.
