(* ===== verification/VersionSet.v ===== *)
(** * VersionSet.v: [VersionSet] and [Compaction] of [version_set/version_set.rs].

    The mutable manager of the versions: counters, the manifest, recovery, and the choice
    of compactions.  A method acts on the version set and the file system together.  The
    edit handed to [log_and_apply] belongs to the caller, who drops it afterwards. *)
From S2P Require Import Prelude Status Comparator Format Env Utf8 Log Filename VersionEdit Sort Table.
From S2P Require Import Filter Version.
From Stdlib Require Import Floats.SpecFloat.

(** ** [Compaction] *)

Module Compaction.
Record t (C : Type) := mk {
  level : Z;
  max_output_file_size : Z;
  inputs0 : list FileMeta;
  inputs1 : list FileMeta;
  grandparents : list FileMeta;
  input_version : Version.t C;
  edit : VersionEdit.t;
}.
Arguments mk {C} _ _ _ _ _ _ _.
Arguments level {C} _.
Arguments max_output_file_size {C} _.
Arguments inputs0 {C} _.
Arguments inputs1 {C} _.
Arguments grandparents {C} _.
Arguments input_version {C} _.
Arguments edit {C} _.

Section ops.
Context {C : Type} `{Comparator C}.
Implicit Types self : t C.

Definition inputs self (which : Z) : outcome (list FileMeta) := index [inputs0 self; inputs1 self] which.
Definition num_input_files self (which : Z) : outcome Z := len <$> inputs self which.
Definition input self (which i : Z) : outcome FileMeta := fs ← inputs self which; index fs i.

Definition is_trivial_move self : bool :=
  (len (inputs0 self) =? 1) && (len (inputs1 self) =? 0) &&
  (total_file_size (grandparents self) <=? MAX_GRANDPARENT_OVERLAP_BYTES).

(** The two nested loops; the first file that covers the key ends them. *)
Fixpoint covered_by (ucmp : C) (user_key : bytes) (fs : list FileMeta) : outcome bool :=
  match fs with
  | [] => Ret false
  | f :: fs => c ← Version.covers ucmp user_key f; if c : bool then Ret true else covered_by ucmp user_key fs
  end.
Fixpoint base_loop (v : Version.t C) (user_key : bytes) (levels : list Z) : outcome bool :=
  match levels with
  | [] => Ret true
  | level :: levels =>
      fs ← Version.level_files v level;
      c ← covered_by (user_comparator (Version.comparator v)) user_key fs;
      if c : bool then Ret false else base_loop v user_key levels
  end.
Definition is_base_level_for_key self (user_key : bytes) : outcome bool :=
  base_loop (input_version self) user_key (Version.levels_from (level self + 2) NUM_LEVELS).
End ops.
End Compaction.

(** *** The ranges of a compaction's files

    The bounds are compared as byte strings, whatever the comparator. *)
Definition min_key (s smallest : bytes) : bytes := if is_lt (bytes_cmp s smallest) then s else smallest.
Definition max_key (l largest : bytes) : bytes := if is_gt (bytes_cmp l largest) then l else largest.
Definition get_user_range (files : list FileMeta) : outcome (bytes * bytes) :=
  match files with
  | [] => Panic
  | f :: files =>
      s ← strip_tag (smallest f);
      l ← strip_tag (largest f);
      fold_m (fun r f =>
        s ← strip_tag (smallest f);
        l ← strip_tag (largest f);
        Ret (min_key s r.1, max_key l r.2)) (s, l) files
  end.
Definition get_user_range_pair (a b : list FileMeta) : outcome (bytes * bytes) :=
  match a, b with
  | [], _ => get_user_range b
  | _, [] => get_user_range a
  | _, _ =>
      '(a_lo, a_hi) ← get_user_range a;
      '(b_lo, b_hi) ← get_user_range b;
      Ret (if is_le (bytes_cmp a_lo b_lo) then a_lo else b_lo, if is_ge (bytes_cmp a_hi b_hi) then a_hi else b_hi)
  end.
Definition largest_internal_key {C} `{Comparator C} (files : list FileMeta) (icmp : InternalKeyComparator C) : outcome bytes :=
  match files with
  | [] => Panic
  | f :: files =>
      fold_m (fun best f => o ← compare icmp (largest f) best; Ret (if is_gt o then largest f else best)) (largest f) files
  end.

(** ** [VersionSet] *)

Module VersionSet.
Record t (C W : Type) {E : Env W} := mk {
  dbname : string;
  icmp : InternalKeyComparator C;
  current : Version.t C;
  next_file_number : Z;
  manifest_file_number : Z;
  last_sequence : Z;
  log_number : Z;
  prev_log_number : Z;
  manifest_log : option LogWriter.t;
  manifest_file : option Writable;
  compact_pointer : list bytes;
  recovered_comparator_name : option bytes;
}.
Arguments mk {C W E} _ _ _ _ _ _ _ _ _ _ _ _.
Arguments dbname {C W E} _.
Arguments icmp {C W E} _.
Arguments current {C W E} _.
Arguments next_file_number {C W E} _.
Arguments manifest_file_number {C W E} _.
Arguments last_sequence {C W E} _.
Arguments log_number {C W E} _.
Arguments prev_log_number {C W E} _.
Arguments manifest_log {C W E} _.
Arguments manifest_file {C W E} _.
Arguments compact_pointer {C W E} _.
Arguments recovered_comparator_name {C W E} _.

Section ops.
Context {C W : Type} `{Comparator C} {E : Env W}.
Abbreviation set := (t C W) (only parsing).
Implicit Types self : set.
Abbreviation M := (action (set * W)) (only parsing).

Definition new (dbname : string) (c : C) : set :=
  let icmp := mk_icmp c in
  mk dbname icmp (Version.new icmp) 2 0 0 0 0 None None (replicate (Z.to_nat NUM_LEVELS) []) None.

(** *** Field updates *)

Definition with_current v self : set :=
  mk (dbname self) (icmp self) v (next_file_number self) (manifest_file_number self) (last_sequence self) (log_number self)
    (prev_log_number self) (manifest_log self) (manifest_file self) (compact_pointer self) (recovered_comparator_name self).
Definition with_next n self : set :=
  mk (dbname self) (icmp self) (current self) n (manifest_file_number self) (last_sequence self) (log_number self)
    (prev_log_number self) (manifest_log self) (manifest_file self) (compact_pointer self) (recovered_comparator_name self).
Definition with_manifest_number n self : set :=
  mk (dbname self) (icmp self) (current self) (next_file_number self) n (last_sequence self) (log_number self)
    (prev_log_number self) (manifest_log self) (manifest_file self) (compact_pointer self) (recovered_comparator_name self).
Definition with_logs l p self : set :=
  mk (dbname self) (icmp self) (current self) (next_file_number self) (manifest_file_number self) (last_sequence self) l
    p (manifest_log self) (manifest_file self) (compact_pointer self) (recovered_comparator_name self).
Definition with_manifest l f self : set :=
  mk (dbname self) (icmp self) (current self) (next_file_number self) (manifest_file_number self) (last_sequence self)
    (log_number self) (prev_log_number self) l f (compact_pointer self) (recovered_comparator_name self).
Definition with_pointers ps self : set :=
  mk (dbname self) (icmp self) (current self) (next_file_number self) (manifest_file_number self) (last_sequence self)
    (log_number self) (prev_log_number self) (manifest_log self) (manifest_file self) ps (recovered_comparator_name self).
Definition with_recovered n self : set :=
  mk (dbname self) (icmp self) (current self) (next_file_number self) (manifest_file_number self) (last_sequence self)
    (log_number self) (prev_log_number self) (manifest_log self) (manifest_file self) (compact_pointer self) n.

Definition set_last_sequence (s : Z) self : set :=
  mk (dbname self) (icmp self) (current self) (next_file_number self) (manifest_file_number self) s (log_number self)
    (prev_log_number self) (manifest_log self) (manifest_file self) (compact_pointer self) (recovered_comparator_name self).
Definition new_file_number self : Z * set := (next_file_number self, with_next (as_u64 (next_file_number self + 1)) self).
Definition reuse_file_number (n : Z) self : set :=
  if next_file_number self =? as_u64 (n + 1) then with_next n self else self.
Definition set_next_file_number (n : Z) self : set := if next_file_number self <? n then with_next n self else self.

(** *** Reading and changing the two halves of the state *)

Definition on_env {A} (m : action W A) : M A := fun s => let '(r, w) := m s.2 in (r, (s.1, w)).
Definition reads {A} (f : set -> A) : M A := fun s => (Ret (f s.1), s).
Definition modify (f : set -> set) : M unit := fun s => (Ret tt, (f s.1, s.2)).

Definition set_pointer (ps : list bytes) (cp : CompactPointer) : outcome (list bytes) := set_index ps (cp_level cp) (cp_key cp).
Definition apply_pointers (edit : VersionEdit.t) : M unit :=
  ps ← reads compact_pointer;
  ps ← lift (fold_m set_pointer ps (VersionEdit.compact_pointers edit));
  modify (with_pointers ps).

(** *** The manifest *)

Fixpoint pointers_from (level : Z) (ps : list bytes) : list CompactPointer :=
  match ps with
  | [] => []
  | key :: ps => (if bool_decide (key = []) then [] else [mk_pointer level key]) ++ pointers_from (level + 1) ps
  end.
Fixpoint new_files_from (level : Z) (fss : list (list FileMeta)) : list NewFile :=
  match fss with [] => [] | fs :: fss => map (mk_new level) fs ++ new_files_from (level + 1) fss end.
(** [for level in 0..NUM_LEVELS] over the [NUM_LEVELS] lists of the version. *)
Definition snapshot_edit self : VersionEdit.t :=
  VersionEdit.mk (Some (list_byte_of_string (cmp_name (user_comparator (icmp self))))) (Some (log_number self))
    (Some (prev_log_number self)) (Some (next_file_number self)) (Some (last_sequence self))
    (pointers_from 0 (compact_pointer self)) [] (new_files_from 0 (Version.files (current self))).

Definition append_to_manifest (edit : VersionEdit.t) : M unit := fun s =>
  let buf := VersionEdit.encode edit [] in
  match manifest_log s.1, manifest_file s.1 with
  | Some log, Some file =>
      let '(r, (log, w)) := LogWriter.add_record_to file buf (log, s.2) in
      (r, (with_manifest (Some log) (Some file) s.1, w))
  | _, _ => (Panic, s)
  end.
Definition sync_manifest : M unit :=
  file ← reads manifest_file; file ← lift (expect file); on_env (w_sync file).
(** What [close] returns is dropped. *)
Definition abandon_manifest : M unit := fun s =>
  let w := match manifest_file s.1 with Some file => snd (w_close file s.2) | None => s.2 end in
  (Ret tt, (with_manifest None None s.1, w)).
Definition set_current_file_ : M unit :=
  self ← reads id; on_env (set_current_file (dbname self) (manifest_file_number self)).

(** [if let Err(error) = m { if abandon { self.abandon_manifest(); } return Err(error); }] *)
Definition or_abandon (abandon : bool) (m : M unit) : M unit := fun s =>
  match m s with
  | (Fail error, s) => (Fail error, if abandon then snd (abandon_manifest s) else s)
  | r => r
  end.

Definition stash_edit self (edit : VersionEdit.t) : VersionEdit.t :=
  VersionEdit.mk (VersionEdit.comparator edit)
    (match VersionEdit.log_number edit with None => Some (log_number self) | some => some end)
    (match VersionEdit.prev_log_number edit with None => Some (prev_log_number self) | some => some end)
    (Some (next_file_number self)) (Some (last_sequence self))
    (VersionEdit.compact_pointers edit) (VersionEdit.deleted_files edit) (VersionEdit.new_files edit).

Definition open_manifest : M unit :=
  number ← reads next_file_number;
  _ ← modify (fun self => with_manifest_number number (new_file_number self).2);
  self ← reads id;
  file ← on_env (new_writable_file (path_new (descriptor_file_name (dbname self) number)));
  _ ← modify (with_manifest (Some LogWriter.new) (Some file));
  self ← reads id;
  or_abandon true (append_to_manifest (snapshot_edit self)).

Definition log_and_apply (edit : VersionEdit.t) : M unit :=
  self ← reads id;
  let edit := stash_edit self edit in
  builder ← lift (VersionBuilder.apply (VersionBuilder.new (current self)) edit);
  _ ← apply_pointers edit;
  new_version ← lift (VersionBuilder.save_to builder (icmp self));
  let new_manifest := match manifest_log self with None => true | Some _ => false end in
  _ ← (if new_manifest then open_manifest else mret tt);
  _ ← or_abandon new_manifest (append_to_manifest edit);
  _ ← or_abandon new_manifest sync_manifest;
  _ ← (if new_manifest then or_abandon true set_current_file_ else mret tt);
  modify (fun self => with_current new_version
    (with_logs (default (log_number self) (VersionEdit.log_number edit))
       (default (prev_log_number self) (VersionEdit.prev_log_number edit)) self)).

(** *** [recover] *)

(** [s.trim_end_matches('\n')] *)
Fixpoint trim_newlines (bs : bytes) : bytes :=
  match bs with
  | [] => []
  | b :: bs =>
      match trim_newlines bs with
      | [] => if u8 b =? 10 then [] else [b]
      | rest => b :: rest
      end
  end.

(** One record of the manifest. *)
Definition recover_record (builder : VersionBuilder.t C) (record : bytes) : M (VersionBuilder.t C * bool * bool) :=
  edit ← lift (fst (VersionEdit.decode_from record));
  builder ← lift (VersionBuilder.apply builder edit);
  _ ← apply_pointers edit;
  _ ← modify (fun self => with_logs (default (log_number self) (VersionEdit.log_number edit))
                (default (prev_log_number self) (VersionEdit.prev_log_number edit)) self);
  _ ← modify (fun self => with_next (default (next_file_number self) (VersionEdit.next_file_number edit)) self);
  _ ← modify (fun self => set_last_sequence (default (last_sequence self) (VersionEdit.last_sequence edit)) self);
  _ ← modify (fun self => with_recovered (match VersionEdit.comparator edit with Some n => Some n | None => recovered_comparator_name self end) self);
  mret (builder, match VersionEdit.next_file_number edit with Some _ => true | None => false end,
          match VersionEdit.last_sequence edit with Some _ => true | None => false end).

Definition on_reader {A} (m : action (LogSequentialReader.t * W) A) (r : LogSequentialReader.t)
  : M (A * LogSequentialReader.t) := fun s =>
  match m (r, s.2) with
  | (Ret a, (r, w)) => (Ret (a, r), (s.1, w))
  | (Fail e, (_, w)) => (Fail e, (s.1, w))
  | (Panic, (_, w)) => (Panic, (s.1, w))
  end.

(** [while let Some(record) = reader.read_record()?]: [fuel] bounds the bytes of the manifest,
    and so its records. *)
Fixpoint recover_loop (fuel records : nat) (reader : LogSequentialReader.t) (builder : VersionBuilder.t C) (have_next have_last : bool)
  : M (VersionBuilder.t C * bool * bool) :=
  match records with
  | O => lift Panic
  | S records =>
      '(record, reader) ← on_reader (LogSequentialReader.read_record fuel) reader;
      match record with
      | None => mret (builder, have_next, have_last)
      | Some record =>
          '(builder, n, l) ← recover_record builder record;
          recover_loop fuel records reader builder (have_next || n) (have_last || l)
      end
  end.

Definition recover (fuel : nat) : M unit :=
  self ← reads id;
  current_bytes ← on_env (read_file (path_new (current_file_name (dbname self))));
  current_str ← lift (ok_or (from_utf8 current_bytes) (Stat.corruption "CURRENT contains non-UTF-8 bytes"));
  let manifest_name := string_of_list_byte (trim_newlines (list_byte_of_string current_str)) in
  manifest_file ← on_env (new_sequential_file (path_new (dbname self +:+ "/" +:+ manifest_name)));
  let builder := VersionBuilder.new (Version.new (icmp self)) in
  '(builder, have_next_file, have_last_sequence) ←
    recover_loop fuel fuel (LogSequentialReader.new manifest_file) builder false false;
  if negb (have_next_file && have_last_sequence) then lift (Fail (Stat.corruption "manifest: missing required fields")) else
  new_version ← lift (VersionBuilder.save_to builder (icmp self));
  _ ← modify (with_current new_version);
  modify (with_manifest None None).

(** *** Picking compactions *)

Definition set_at (ps : list bytes) (level : Z) (key : bytes) : outcome (list bytes) := set_index ps level key.

(** The attempt to grow [inputs[0]] without growing [inputs[1]]. *)
Definition expand_inputs (v : Version.t C) (level : Z) (inputs0 inputs1 : list FileMeta) (all_start all_limit : bytes)
  : outcome (list FileMeta * list FileMeta * (bytes * bytes)) :=
  if bool_decide (inputs1 = []) then Ret (inputs0, inputs1, (all_start, all_limit)) else
  expanded0 ← Version.get_overlapping_inputs v level (Some all_start) (Some all_limit);
  let inputs1_size := total_file_size inputs1 in
  let expanded0_size := total_file_size expanded0 in
  let expanded_limit := 25 * TARGET_FILE_SIZE in
  if (len inputs0 <? len expanded0) && (as_u64 (inputs1_size + expanded0_size) <? expanded_limit) then
    '(new_start, new_limit) ← get_user_range expanded0;
    expanded1 ← Version.get_overlapping_inputs v (level + 1) (Some new_start) (Some new_limit);
    if len expanded1 =? len inputs1 then
      pair ← get_user_range_pair expanded0 expanded1;
      Ret (expanded0, expanded1, pair)
    else Ret (inputs0, inputs1, (all_start, all_limit))
  else Ret (inputs0, inputs1, (all_start, all_limit)).

(** The compaction gets its other inputs and its edit, the version set its pointer. *)
Definition setup_other_inputs self (level : Z) (inputs0 : list FileMeta) : outcome (Compaction.t C * set) :=
  let v := current self in
  '(s, l) ← get_user_range inputs0;
  inputs1 ← Version.get_overlapping_inputs v (level + 1) (Some s) (Some l);
  '(all_start, all_limit) ← get_user_range_pair inputs0 inputs1;
  '(inputs0, inputs1, (all_start, all_limit)) ← expand_inputs v level inputs0 inputs1 all_start all_limit;
  grandparents ← (if level + 2 <? NUM_LEVELS
                  then Version.get_overlapping_inputs v (level + 2) (Some all_start) (Some all_limit) else Ret []);
  largest_internal ← largest_internal_key inputs0 (icmp self);
  ps ← set_at (compact_pointer self) level largest_internal;
  let edit := VersionEdit.mk None None None None None [mk_pointer level largest_internal] [] [] in
  Ret (Compaction.mk level TARGET_FILE_SIZE inputs0 inputs1 grandparents v edit, with_pointers ps self).

(** At level 0 the picked file brings the files it overlaps. *)
Definition with_overlaps self (level : Z) (inputs0 : list FileMeta) : outcome (list FileMeta) :=
  if level =? 0 then
    '(s, l) ← get_user_range inputs0;
    Version.get_overlapping_inputs (current self) 0 (Some s) (Some l)
  else Ret inputs0.

(** The first file whose largest key is above the level's pointer. *)
Fixpoint first_after (icmp : InternalKeyComparator C) (pointer : bytes) (fs : list FileMeta) : outcome (option FileMeta) :=
  match fs with
  | [] => Ret None
  | f :: fs =>
      if bool_decide (pointer = []) then Ret (Some f) else
      o ← compare icmp (largest f) pointer;
      if is_gt o then Ret (Some f) else first_after icmp pointer fs
  end.

Definition pick_by_size self : outcome (option (Compaction.t C) * set) :=
  let v := current self in
  if SFltb (Version.compaction_score v) (f64_of_Z 1) then Ret (None, self) else
  let level := as_u64 (Version.compaction_level v) in
  _ ← assert (as_u64 (level + 1) <? NUM_LEVELS);
  pointer ← index (compact_pointer self) level;
  fs ← Version.level_files v level;
  f ← first_after (icmp self) pointer fs;
  f ← (match f with Some f => Ret f | None => index fs 0 end);
  inputs0 ← with_overlaps self level [f];
  '(c, self) ← setup_other_inputs self level inputs0;
  Ret (Some c, self).

Definition pick_compaction self : outcome (option (Compaction.t C) * set) :=
  match Version.take_file_to_compact (current self) with
  | (Ret (Some (level, file_number)), v) =>
      let self := with_current v self in
      if level + 1 <? NUM_LEVELS then
        fs ← Version.level_files v level;
        match List.find (fun f => FileMetaData.number f =? file_number) fs with
        | Some f =>
            inputs0 ← with_overlaps self level [f];
            '(c, self) ← setup_other_inputs self level inputs0;
            Ret (Some c, self)
        | None => pick_by_size self
        end
      else pick_by_size self
  | (_, v) => pick_by_size (with_current v self)
  end.

Definition pick_manual_compaction (level : Z) (begin end_ : option bytes) self : outcome (option (Compaction.t C) * set) :=
  if NUM_LEVELS <=? level + 1 then Ret (None, self) else
  inputs ← Version.get_overlapping_inputs (current self) level begin end_;
  if bool_decide (inputs = []) then Ret (None, self) else
  '(c, self) ← setup_other_inputs self level inputs;
  Ret (Some c, self).
End ops.
End VersionSet.
