(* ===== verification/VersionSetCorrect.v ===== *)
(** * VersionSetCorrect.v: correctness of VersionSet.v.

    Replaying the edits of a manifest at once gives the version that applying them one by
    one gave; so recovery restores what was logged.  Compactions take every file of the
    next level that they touch. *)
From S2P Require Import Prelude Status Comparator Format Env Utf8 Log LogCorrect LogFile Filename VersionEdit Sort Table.
From S2P Require Import Version VersionCorrect VersionSet.
From Stdlib Require Import Ascii.
#[local] Open Scope string_scope.
#[local] Open Scope list_scope.
#[local] Open Scope Z_scope.

(** ** Applying an edit *)

(** What an edit does to a level. *)
Definition edit_deleted (ds : list DeletedFile) (i : nat) : list Z :=
  map df_number (List.filter (fun d => df_level d =? Z.of_nat i) ds).
Definition edit_new (ns : list NewFile) (i : nat) : list FileMeta :=
  map nf_meta (List.filter (fun n => nf_level n =? Z.of_nat i) ns).
Definition numbers (fs : list FileMeta) : gset Z := list_to_set (map FileMetaData.number fs).

Section builder.
Context {C : Type} `{Comparator C}.
Implicit Types b : VersionBuilder.t C.

Definition dels b (i : nat) : gset Z := default ∅ (VersionBuilder.deleted_files b !! i).
Definition adds b (i : nat) : list FileMeta := default [] (VersionBuilder.added_files b !! i).
Definition sized b : Prop :=
  length (VersionBuilder.deleted_files b) = Z.to_nat NUM_LEVELS /\ length (VersionBuilder.added_files b) = Z.to_nat NUM_LEVELS.

Lemma level_nat level : level_ok level -> exists k : nat, level = Z.of_nat k /\ (k < Z.to_nat NUM_LEVELS)%nat.
Proof. unfold level_ok, NUM_LEVELS. intros Hl. exists (Z.to_nat level). lia. Qed.
Lemma default_insert {A} (d : A) (l : list A) (k i : nat) x : (k < length l)%nat ->
  default d (<[k := x]> l !! i) = if decide (i = k) then x else default d (l !! i).
Proof.
  intros Hk. destruct (decide (i = k)) as [->|Hne]; [by rewrite list_lookup_insert_eq|by rewrite list_lookup_insert_ne].
Qed.
Lemma level_is (k i : nat) : (Z.of_nat k =? Z.of_nat i) = bool_decide (i = k).
Proof. case_bool_decide; [subst; apply Z.eqb_refl|apply Z.eqb_neq; lia]. Qed.

Lemma delete_one_ok b d : sized b -> level_ok (df_level d) ->
  exists b', VersionBuilder.delete_one b d = Ret b' /\ VersionBuilder.base b' = VersionBuilder.base b /\ sized b' /\
    (forall i, dels b' i = dels b i ∪ list_to_set (edit_deleted [d] i)) /\ (forall i, adds b' i = adds b i).
Proof.
  intros [H1 H2] (k & Ek & Hk)%level_nat. unfold VersionBuilder.delete_one. rewrite Ek.
  destruct (lookup_lt_is_Some_2 (VersionBuilder.deleted_files b) k) as [s Es]; [lia|].
  rewrite (index_nat _ _ _ Es). cbn [mbind outcome_bind]. rewrite set_level_ok by lia. cbn [mbind outcome_bind].
  eexists. split; [done|]. split_and!; [done|by split; cbn; rewrite ?length_insert| |done]. intros i.
  unfold dels, edit_deleted. cbn [VersionBuilder.deleted_files List.filter]. rewrite Ek, level_is, default_insert by lia.
  destruct (decide (i = k)) as [->|Hne].
  - rewrite bool_decide_eq_true_2, Es by done. cbn. set_solver.
  - rewrite bool_decide_eq_false_2 by done. cbn. set_solver.
Qed.
Lemma add_one_ok b n : sized b -> level_ok (nf_level n) ->
  exists b', VersionBuilder.add_one b n = Ret b' /\ VersionBuilder.base b' = VersionBuilder.base b /\ sized b' /\
    (forall i, dels b' i = dels b i ∖ numbers (edit_new [n] i)) /\ (forall i, adds b' i = adds b i ++ edit_new [n] i).
Proof.
  intros [H1 H2] (k & Ek & Hk)%level_nat. unfold VersionBuilder.add_one. rewrite Ek.
  destruct (lookup_lt_is_Some_2 (VersionBuilder.deleted_files b) k) as [s Es]; [lia|].
  destruct (lookup_lt_is_Some_2 (VersionBuilder.added_files b) k) as [l El]; [lia|].
  rewrite (index_nat _ _ _ Es). cbn [mbind outcome_bind]. rewrite set_level_ok by lia. cbn [mbind outcome_bind].
  rewrite (index_nat _ _ _ El). cbn [mbind outcome_bind]. rewrite set_level_ok by lia. cbn [mbind outcome_bind].
  eexists. split; [done|]. split_and!; [done|by split; cbn; rewrite ?length_insert| |]; intros i;
    unfold dels, adds, numbers, edit_new; cbn [VersionBuilder.deleted_files VersionBuilder.added_files List.filter];
    rewrite Ek, level_is, default_insert by lia; destruct (decide (i = k)) as [->|Hne].
  - rewrite bool_decide_eq_true_2, Es by done. cbn. set_solver.
  - rewrite bool_decide_eq_false_2 by done. cbn. set_solver.
  - rewrite bool_decide_eq_true_2, El by done. done.
  - rewrite bool_decide_eq_false_2 by done. cbn. by rewrite app_nil_r.
Qed.

Lemma edit_deleted_cons d ds i : edit_deleted (d :: ds) i = edit_deleted [d] i ++ edit_deleted ds i.
Proof. unfold edit_deleted. cbn [List.filter]. by destruct (_ =? _). Qed.
Lemma edit_new_cons n ns i : edit_new (n :: ns) i = edit_new [n] i ++ edit_new ns i.
Proof. unfold edit_new. cbn [List.filter]. by destruct (_ =? _). Qed.
Lemma numbers_app (fs gs : list FileMeta) : numbers (fs ++ gs) = numbers fs ∪ numbers gs.
Proof. unfold numbers. by rewrite map_app, list_to_set_app_L. Qed.

Lemma delete_all_ok ds b : sized b -> Forall (fun d => level_ok (df_level d)) ds ->
  exists b', fold_m VersionBuilder.delete_one b ds = Ret b' /\ VersionBuilder.base b' = VersionBuilder.base b /\ sized b' /\
    (forall i, dels b' i = dels b i ∪ list_to_set (edit_deleted ds i)) /\ (forall i, adds b' i = adds b i).
Proof.
  intros Hs Hl. revert b Hs. induction Hl as [|d ds Hd Hl IH]; intros b Hs.
  { exists b. split_and!; [done..| |done]. intros i. unfold edit_deleted. cbn. set_solver. }
  cbn [fold_m]. destruct (delete_one_ok b d Hs Hd) as (b1 & -> & B1 & S1 & D1 & A1). cbn [mbind outcome_bind].
  destruct (IH b1 S1) as (b2 & -> & B2 & S2 & D2 & A2). exists b2. split_and!; [done|congruence|done| |].
  - intros i. rewrite D2, D1, (edit_deleted_cons d ds), list_to_set_app_L. set_solver +.
  - intros i. by rewrite A2, A1.
Qed.
Lemma builder_add_all_ok ns b : sized b -> Forall (fun n => level_ok (nf_level n)) ns ->
  exists b', fold_m VersionBuilder.add_one b ns = Ret b' /\ VersionBuilder.base b' = VersionBuilder.base b /\ sized b' /\
    (forall i, dels b' i = dels b i ∖ numbers (edit_new ns i)) /\ (forall i, adds b' i = adds b i ++ edit_new ns i).
Proof.
  intros Hs Hl. revert b Hs. induction Hl as [|n ns Hn Hl IH]; intros b Hs.
  { exists b. split_and!; [done..| |]; intros i; unfold numbers, edit_new; cbn; [set_solver|by rewrite app_nil_r]. }
  cbn [fold_m]. destruct (add_one_ok b n Hs Hn) as (b1 & -> & B1 & S1 & D1 & A1). cbn [mbind outcome_bind].
  destruct (IH b1 S1) as (b2 & -> & B2 & S2 & D2 & A2). exists b2. split_and!; [done|congruence|done| |].
  - intros i. rewrite D2, D1, (edit_new_cons n ns), numbers_app. set_solver +.
  - intros i. by rewrite A2, A1, (edit_new_cons n ns), app_assoc.
Qed.

(** The edits whose levels exist. *)
Definition levels_ok (e : VersionEdit.t) : Prop :=
  Forall (fun d => level_ok (df_level d)) (VersionEdit.deleted_files e) /\
  Forall (fun n => level_ok (nf_level n)) (VersionEdit.new_files e).
Lemma edit_levels e : edit_ok e -> levels_ok e.
Proof. intros [_ _ _ _ _ _ Hd Hn]. split; [apply (Forall_impl _ _ _ Hd)|apply (Forall_impl _ _ _ Hn)]; tauto. Qed.

Lemma apply_ok b e : sized b -> levels_ok e ->
  exists b', VersionBuilder.apply b e = Ret b' /\ VersionBuilder.base b' = VersionBuilder.base b /\ sized b' /\
    (forall i, dels b' i = (dels b i ∪ list_to_set (edit_deleted (VersionEdit.deleted_files e) i)) ∖ numbers (edit_new (VersionEdit.new_files e) i)) /\
    (forall i, adds b' i = adds b i ++ edit_new (VersionEdit.new_files e) i).
Proof.
  intros Hs [Hd Hn]. unfold VersionBuilder.apply.
  destruct (delete_all_ok _ b Hs Hd) as (b1 & -> & B1 & S1 & D1 & A1). cbn [mbind outcome_bind].
  destruct (builder_add_all_ok _ b1 S1 Hn) as (b2 & -> & B2 & S2 & D2 & A2). exists b2. split_and!; [done|congruence|done| |].
  - intros i. by rewrite D2, D1.
  - intros i. by rewrite A2, A1.
Qed.

Lemma new_sized v : sized (VersionBuilder.new v).
Proof. split; cbn; apply length_replicate. Qed.
Lemma dels_new (v : Version.t C) i : dels (VersionBuilder.new v) i = ∅.
Proof. unfold dels. cbn [VersionBuilder.new VersionBuilder.deleted_files]. destruct (_ !! i) eqn:E; [|done]. by apply lookup_replicate in E as [-> _]. Qed.
Lemma adds_new (v : Version.t C) i : adds (VersionBuilder.new v) i = [].
Proof. unfold adds. cbn [VersionBuilder.new VersionBuilder.added_files]. destruct (_ !! i) eqn:E; [|done]. by apply lookup_replicate in E as [-> _]. Qed.

(** ** One by one or all at once *)

Lemma live_live d1 d2 fs : VersionBuilder.live d2 (VersionBuilder.live d1 fs) = VersionBuilder.live (d1 ∪ d2) fs.
Proof.
  unfold VersionBuilder.live. rewrite list_filter_filter. apply list_filter_iff. intros f. set_solver.
Qed.
Lemma live_ext d1 d2 fs : (forall f, f ∈ fs -> (FileMetaData.number f ∈ d1 <-> FileMetaData.number f ∈ d2)) ->
  VersionBuilder.live d1 fs = VersionBuilder.live d2 fs.
Proof.
  unfold VersionBuilder.live. induction fs as [|f fs IH]; intros Hx; [done|]. rewrite !filter_cons.
  rewrite IH by (intros g Hg; apply Hx; by right). pose proof (Hx f ltac:(by left)) as Hf.
  destruct (decide _), (decide _); tauto || done.
Qed.

Context (c : C) (ord : bytes -> bytes -> comparison) `{HL : !ComparatorLaws c (fun _ => True) ord}.

(** The files an edit adds have numbers no file of their level has had. *)
Definition fresh_for b (e : VersionEdit.t) : Prop :=
  forall i, numbers (edit_new (VersionEdit.new_files e) i) ## numbers (adds b i).

Lemma next_level_eq b i : next_level ord b i =
  isort (level_order ord i) (VersionBuilder.live (dels b i) (default [] (Version.files (VersionBuilder.base b) !! i)) ++
    VersionBuilder.live (dels b i) (adds b i)).
Proof. done. Qed.

Lemma elem_numbers f fs : f ∈ fs -> FileMetaData.number f ∈ numbers fs.
Proof. intros Hf. unfold numbers. apply elem_of_list_to_set. by apply list_elem_of_fmap_2. Qed.

Lemma incremental b b1 b2 v e i : (forall j, default [] (Version.files (VersionBuilder.base b) !! j) = []) ->
  default [] (Version.files v !! i) = next_level ord b i -> fresh_for b e -> sized b -> levels_ok e ->
  VersionBuilder.apply (VersionBuilder.new v) e = Ret b1 -> VersionBuilder.apply b e = Ret b2 ->
  next_level ord b1 i = next_level ord b2 i.
Proof using Type*.
  intros Hbase Hv Hfresh Hs Hl E1 E2.
  destruct (apply_ok (VersionBuilder.new v) e (new_sized v) Hl) as (b1' & E1' & B1 & _ & D1 & A1).
  destruct (apply_ok b e Hs Hl) as (b2' & E2' & B2 & _ & D2 & A2).
  rewrite E1 in E1'. injection E1' as <-. rewrite E2 in E2'. injection E2' as <-.
  rewrite (next_level_eq b1), (next_level_eq b2), B1, B2, D1, D2, A1, A2, Hbase, dels_new, adds_new. cbn [VersionBuilder.new VersionBuilder.base app].
  rewrite Hv, next_level_eq, Hbase. cbn [VersionBuilder.live app]. rewrite (left_id_L ∅ (∪)).
  set (D := dels b i). set (N := edit_new _ i). set (X := list_to_set _ : gset Z).
  pose proof (level_order_ord c ord i) as Ho. specialize (Hfresh i). fold N in Hfresh.
  change (VersionBuilder.live D []) with (@nil FileMeta). change (VersionBuilder.live ((D ∪ X) ∖ numbers N) []) with (@nil FileMeta).
  cbn [app]. unfold VersionBuilder.live at 1. rewrite (filter_isort (level_order ord i)). fold (VersionBuilder.live (X ∖ numbers N) (VersionBuilder.live D (adds b i))).
  rewrite (isort_app_l (level_order ord i)), live_live. f_equal.
  assert (Happ : forall d fs gs, VersionBuilder.live d (fs ++ gs) = VersionBuilder.live d fs ++ VersionBuilder.live d gs) by (intros; apply filter_app).
  rewrite Happ. f_equal.
  - apply live_ext. intros f Hf%elem_numbers. set_solver.
  - apply live_ext. intros f Hf%elem_numbers. set_solver.
Qed.
End builder.

(** ** The manifest's name *)

Definition manifest_path (dbname : string) (n : Z) : path := path_new (descriptor_file_name dbname n).
Definition current_path (dbname : string) : path := path_new (current_file_name dbname).

Lemma last_manifest dbname n : is_u64 n -> last (manifest_path dbname n) = Some ("MANIFEST-" +:+ show06 n).
Proof.
  intros Hn. unfold manifest_path, descriptor_file_name.
  change (dbname +:+ "/MANIFEST-" +:+ show06 n) with (dbname +:+ String "/" ("MANIFEST-" +:+ show06 n)).
  apply last_path_new; [|done|done]. rewrite all_chars_app. apply andb_true_iff. split; [done|].
  eapply all_chars_impl; [apply (digit_not_char "/"); reflexivity|apply show06_chars].
Qed.
Lemma last_current dbname : last (current_path dbname) = Some "CURRENT"%string.
Proof. unfold current_path, current_file_name. by apply (last_path_new dbname "CURRENT"). Qed.
Lemma manifest_ne_current dbname n : is_u64 n -> manifest_path dbname n <> current_path dbname.
Proof. intros Hn E. apply (f_equal last) in E. rewrite last_manifest, last_current in E by done. done. Qed.
Lemma manifest_ne_temp dbname n : is_u64 n -> manifest_path dbname n <> path_new (temp_file_name dbname n).
Proof.
  intros Hn E. apply (f_equal last) in E. rewrite last_manifest in E by done. unfold temp_file_name, make_file_name in E.
  destruct (show06_head n Hn) as (c & s & Es & Hc). 
  change (dbname +:+ "/" +:+ show06 n +:+ "." +:+ "dbtmp") with (dbname +:+ String "/" (show06 n +:+ ".dbtmp")) in E.
  rewrite last_path_new in E.
  - rewrite Es in E. injection E as <- _. done.
  - by apply show06_suffix_chars.
  - by rewrite Es.
  - rewrite Es. intros [= -> Hs]. done.
Qed.

(** What [recover] reads out of CURRENT. *)
Definition plain (c : Ascii.ascii) : bool := is_digit c || bool_decide (c ∈ list_ascii_of_string "MANIFEST-").
Lemma plain_byte a : plain a = true -> u8 (byte_of_ascii a) < 128 /\ u8 (byte_of_ascii a) <> 10.
Proof. destruct a as [[] [] [] [] [] [] [] []]; vm_compute; done. Qed.
Lemma plain_bytes s : all_chars plain s = true -> Forall (fun x => u8 x < 128 /\ u8 x <> 10) (list_byte_of_string s).
Proof.
  induction s as [|a s IH]; [constructor|]. cbn [all_chars]. intros [Ha Hs]%andb_true_iff.
  change (list_byte_of_string (String a s)) with (byte_of_ascii a :: list_byte_of_string s).
  constructor; [by apply plain_byte|by apply IH].
Qed.
Lemma list_byte_app a b : list_byte_of_string (a +:+ b) = list_byte_of_string a ++ list_byte_of_string b.
Proof.
  induction a as [|x a IH]; [done|]. change (list_byte_of_string (String x a +:+ b)) with (byte_of_ascii x :: list_byte_of_string (a +:+ b)).
  by rewrite IH.
Qed.
Lemma trim_one l nl : Forall (fun x => u8 x < 128 /\ u8 x <> 10) l -> u8 nl = 10 -> VersionSet.trim_newlines (l ++ [nl]) = l.
Proof.
  intros Hl Hn. induction Hl as [|x l [_ Hx] _ IH]; cbn [app VersionSet.trim_newlines]; [by rewrite Hn|].
  rewrite IH. destruct l as [|y l]; [|done]. by rewrite (proj2 (Z.eqb_neq _ _)).
Qed.
Lemma manifest_name_plain n : all_chars plain ("MANIFEST-" +:+ show06 n) = true.
Proof.
  rewrite all_chars_app. apply andb_true_iff. split; [by vm_compute|].
  eapply all_chars_impl; [|apply show06_chars]. intros a Ha. unfold plain. by rewrite Ha.
Qed.
Lemma read_current dbname n : let bs := current_contents dbname n in
  exists s, from_utf8 bs = Some s /\
    string_of_list_byte (VersionSet.trim_newlines (list_byte_of_string s)) = "MANIFEST-" +:+ show06 n.
Proof.
  intros bs. pose proof (plain_bytes _ (manifest_name_plain n)) as Hp.
  assert (Ebs : bs = list_byte_of_string ("MANIFEST-" +:+ show06 n) ++ [as_u8 10]).
  { unfold bs. rewrite current_contents_eq, string_app_assoc, list_byte_app. done. }
  exists (string_of_list_byte bs). split.
  - apply from_utf8_ascii. rewrite Ebs. apply Forall_app. split; [|by repeat constructor].
    apply (Forall_impl _ _ _ Hp). tauto.
  - rewrite list_byte_of_string_of_list_byte, Ebs, trim_one by (done || exact Hp). apply string_of_list_byte_of_string.
Qed.

(** ** Appending to the manifest in the in-memory environment *)

(** Only the contents of one buffer have changed. *)
Definition only_buf (b : nat) (w w' : MemEnv) : Prop :=
  files w' = files w /\ Env.fresh w' = Env.fresh w /\ forall b', b' <> b -> bufs w' !! b' = bufs w !! b'.
#[local] Instance only_buf_pre b : PreOrder (only_buf b).
Proof.
  split; [by split|]. intros w1 w2 w3 (F1 & N1 & B1) (F2 & N2 & B2). split_and!; [congruence..|].
  intros b' Hb. by rewrite B2, B1.
Qed.
Lemma append_only h d w : only_buf (Mem.buf h) w (Mem.append h d w).2.
Proof.
  unfold Mem.append, Mem.ensure_open. destruct (Mem.closed h); cbn; [reflexivity|]. split_and!; [done..|].
  intros b' Hb. cbn. by rewrite lookup_insert_ne.
Qed.
Lemma flush_only h w : only_buf (Mem.buf h) w (Mem.flush h w).2.
Proof. reflexivity. Qed.
Lemma only_buf_wf b w w' : only_buf b w w' -> mem_wf w -> mem_wf w'.
Proof. intros (F & N & _) [Hi Hf]. split; intros *; rewrite F, ?N; [apply Hi|apply Hf]. Qed.
Lemma only_buf_view b w w' p q : only_buf b w w' -> mem_wf w -> files w !! p = Some b -> q <> p -> view w' !! q = view w !! q.
Proof.
  intros (F & N & B) [Hi Hf] Hp Hq. rewrite !view_lookup, F. destruct (files w !! q) as [b'|] eqn:E; [|done]. cbn. f_equal.
  unfold Mem.get_buf. rewrite B; [done|]. intros ->. apply Hq. by eapply Hi.
Qed.

Lemma mem_add_record h d lw w p : Mem.closed h = false -> in_block (LogWriter.block_offset lw) -> mem_wf w ->
  files w !! p = Some (Mem.buf h) ->
  let r := enc_record (LogWriter.block_offset lw) d in
  exists w', LogWriter.add_record_to (W:=MemEnv) (H:=MemEnv_Env) h d (lw, w) = (Ret tt, (LogWriter.mk (LogWriter.sink lw) r.2, w')) /\
    mem_wf w' /\ in_block r.2 /\ only_buf (Mem.buf h) w w' /\ Mem.get_buf w' (Mem.buf h) = Mem.get_buf w (Mem.buf h) ++ r.1.
Proof.
  intros Ho Hb Hwf Hp r. destruct (add_record_to_ok (W:=MemEnv) (H:=MemEnv_Env) (is_open:=mem_open) (contents:=mem_contents) h d lw w Ho Hb)
    as (w' & E & Hc & Hb'). exists w'. fold r in E, Hc, Hb'.
  pose proof (add_record_framed (W:=MemEnv) (H:=MemEnv_Env) (only_buf (Mem.buf h)) h (fun d w => append_only h d w) (fun w => flush_only h w) d (lw, w)) as Hf.
  rewrite E in Hf. cbn [fst snd] in Hf. split_and!; [exact E|by eapply only_buf_wf|done|done|exact Hc].
Qed.

(** A file and its buffer are left alone. *)
Definition keeps (p : path) (w w' : MemEnv) : Prop :=
  files w' !! p = files w !! p /\ forall b, files w !! p = Some b -> bufs w' !! b = bufs w !! b.
Lemma keeps_trans p w1 w2 w3 : keeps p w1 w2 -> keeps p w2 w3 -> keeps p w1 w3.
Proof. intros [F1 B1] [F2 B2]. split; [congruence|]. intros b Hb. rewrite B2 by congruence. by apply B1. Qed.
Lemma keeps_view p w w' : keeps p w w' -> view w' !! p = view w !! p.
Proof.
  intros [F B]. rewrite !view_lookup, F. destruct (files w !! p) as [b|] eqn:E; [|done]. cbn. unfold Mem.get_buf. by rewrite B.
Qed.
Lemma only_buf_keeps b w w' p q : only_buf b w w' -> mem_wf w -> files w !! p = Some b -> q <> p -> keeps q w w'.
Proof. intros (F & N & B) [Hi _] Hp Hq. split; [by rewrite F|]. intros b' Hb'. apply B. intros ->. apply Hq. by eapply Hi. Qed.

Lemma new_writable_ok p w : mem_wf w -> exists h w', Mem.new_writable_file p w = (Ret h, w') /\ mem_wf w' /\ Mem.closed h = false /\
  files w' !! p = Some (Mem.buf h) /\ Mem.get_buf w' (Mem.buf h) = [] /\ forall q, q <> p -> keeps q w w'.
Proof.
  intros Hwf. pose proof Hwf as [Hi Hf]. unfold Mem.new_writable_file. destruct (files w !! p) as [b|] eqn:E.
  - eexists _, _. split; [done|]. split_and!; [by apply set_buf_wf|done|done|apply get_set_buf|].
    intros q Hq. split; [done|]. intros b' Hb'. cbn. rewrite lookup_insert_ne; [done|]. intros ->. apply Hq. by eapply Hi.
  - eexists _, _. split; [done|]. split_and!; [by apply alloc_wf|done|cbn; by rewrite lookup_insert_eq| |].
    + unfold Mem.get_buf. cbn. by rewrite lookup_insert_eq.
    + intros q Hq. split; cbn; [by rewrite lookup_insert_ne|]. intros b' Hb'. rewrite lookup_insert_ne; [done|]. apply Hf in Hb'. lia.
Qed.

Lemma set_current_ok w dbname n : mem_wf w -> is_u64 n ->
  exists w', set_current_file dbname n w = (Ret tt, w') /\ mem_wf w' /\
    view w' !! current_path dbname = Some (current_contents dbname n) /\
    forall q, q <> current_path dbname -> q <> path_new (temp_file_name dbname n) -> keeps q w w'.
Proof.
  intros Hwf Hn. unfold set_current_file. set (tmp := path_new (temp_file_name dbname n)). set (cur := current_path dbname).
  change (path_new (current_file_name dbname)) with cur.
  destruct (new_writable_ok tmp w Hwf) as (h & w1 & E1 & Hwf1 & Ho & Hp1 & Hb1 & Hk1).
  set (d := current_contents dbname n).
  assert (E2 : Mem.append h d w1 = (Ret tt, Mem.set_buf w1 (Mem.buf h) d)).
  { unfold Mem.append, Mem.ensure_open. by rewrite Ho, Hb1. }
  assert (write_temp tmp d w = (Ret tt, Mem.set_buf w1 (Mem.buf h) d)) as ->.
  { unfold write_temp. cbn [new_writable_file w_append w_sync w_close MemEnv_Env].
    rewrite (action_bind_ret _ _ _ _ _ E1), (action_bind_ret _ _ _ _ _ E2).
    unfold Mem.sync, Mem.close, Mem.ensure_open. by rewrite Ho. }
  set (w2 := Mem.set_buf w1 (Mem.buf h) d). assert (Hwf2 : mem_wf w2) by by apply set_buf_wf.
  destruct (rename_file_spec w2 tmp cur d Hwf2) as (w3 & E3 & Hwf3 & Hv3).
  { rewrite view_lookup. unfold w2. cbn. rewrite Hp1. cbn. f_equal. apply get_set_buf. }
  cbn [rename_file MemEnv_Env]. pose proof E3 as E3'. unfold Mem.rename_file in E3'. change (files w2) with (files w1) in E3'.
  rewrite Hp1 in E3'. injection E3' as Hw3. rewrite E3. exists w3. split_and!; [done|done|by rewrite Hv3, lookup_insert_eq|].
  intros q Hqc Hqt. apply (keeps_trans q w w1); [by apply Hk1|]. subst w3. split; cbn.
  - by rewrite lookup_insert_ne, lookup_delete_ne by done.
  - intros b Hb. rewrite lookup_insert_ne; [done|]. intros <-. apply Hqt. destruct Hwf1 as [Hi _]. by eapply Hi.
Qed.

(** ** What the manifest records *)

Section manifest.
Context {C : Type} `{Comparator C} (c : C) (ord : bytes -> bytes -> comparison) `{HL : !ComparatorLaws c (fun _ => True) ord}.
Context (Hname : is_u32 (len (list_byte_of_string (cmp_name c)))).
Abbreviation set := (VersionSet.t C MemEnv) (only parsing).
Implicit Types self : set.

Definition replay (es : list VersionEdit.t) : outcome (VersionBuilder.t C) :=
  fold_m VersionBuilder.apply (VersionBuilder.new (Version.new (mk_icmp c))) es.
Definition pointers_of (es : list VersionEdit.t) : list CompactPointer := concat (map VersionEdit.compact_pointers es).
Definition replay_pointers (es : list VersionEdit.t) : outcome (list bytes) :=
  fold_m VersionSet.set_pointer (replicate (Z.to_nat NUM_LEVELS) []) (pointers_of es).
(** The last edit that carries a field sets it. *)
Definition last_field {A} (f : VersionEdit.t -> option A) (es : list VersionEdit.t) (x : A) : A :=
  fold_left (fun x e => default x (f e)) es x.
Definition encode_edit (e : VersionEdit.t) : bytes := VersionEdit.encode e [].

(** The open manifest holds these edits. *)
Record in_manifest self (w : MemEnv) (es : list VersionEdit.t) : Prop := {
  im_wf : mem_wf w;
  im_number : is_u64 (VersionSet.manifest_file_number self);
  im_open : exists lw h, VersionSet.manifest_log self = Some lw /\ VersionSet.manifest_file self = Some h /\
    Mem.closed h = false /\
    files w !! manifest_path (VersionSet.dbname self) (VersionSet.manifest_file_number self) = Some (Mem.buf h) /\
    Mem.get_buf w (Mem.buf h) = (enc_records 0 (map encode_edit es)).1 /\
    LogWriter.block_offset lw = (enc_records 0 (map encode_edit es)).2 /\ in_block (LogWriter.block_offset lw);
}.

Lemma append_manifest_ok self w es e : in_manifest self w es ->
  exists lw' w', VersionSet.append_to_manifest e (self, w) =
      (Ret tt, (VersionSet.with_manifest (Some lw') (VersionSet.manifest_file self) self, w')) /\
    in_manifest (VersionSet.with_manifest (Some lw') (VersionSet.manifest_file self) self) w' (es ++ [e]) /\
    forall q, q <> manifest_path (VersionSet.dbname self) (VersionSet.manifest_file_number self) -> keeps q w w'.
Proof.
  intros [Hwf Hn (lw & h & El & Ef & Ho & Hp & Hc & Hoff & Hb)].
  destruct (mem_add_record h (encode_edit e) lw w _ Ho Hb Hwf Hp) as (w' & E & Hwf' & Hb' & Honly & Hc').
  unfold VersionSet.append_to_manifest. cbn [fst snd]. rewrite El, Ef. fold (encode_edit e). rewrite E.
  eexists _, w'. split; [done|]. split.
  - split; [done|done|]. cbn. eexists _, h. split_and!; try done.
    + by rewrite (proj1 Honly).
    + rewrite Hc', Hc, map_app, (proj1 (len_enc_records_app _ _ _)), Hoff. cbn. by rewrite app_nil_r.
    + rewrite map_app, (proj2 (len_enc_records_app _ _ _)), <- Hoff. done.
  - intros q Hq. by eapply only_buf_keeps.
Qed.
Lemma sync_manifest_ok self w es : in_manifest self w es -> VersionSet.sync_manifest (self, w) = (Ret tt, (self, w)).
Proof.
  intros [_ _ (lw & h & El & Ef & Ho & _)]. unfold VersionSet.sync_manifest.
  erewrite action_bind_ret by reflexivity. cbn [fst]. rewrite Ef. erewrite action_bind_ret by reflexivity.
  unfold VersionSet.on_env. cbn [w_sync MemEnv_Env fst snd]. unfold Mem.sync, lift, Mem.ensure_open. by rewrite Ho.
Qed.
Lemma keeps_in_manifest self w w' es : in_manifest self w es -> mem_wf w' ->
  keeps (manifest_path (VersionSet.dbname self) (VersionSet.manifest_file_number self)) w w' -> in_manifest self w' es.
Proof.
  intros [Hwf Hn (lw & h & El & Ef & Ho & Hp & Hc & Hoff & Hb)] Hwf' [F B]. split; [done|done|].
  exists lw, h. split_and!; try done; [by rewrite F|]. unfold Mem.get_buf in *. by rewrite (B _ Hp).
Qed.
Lemma set_current_manifest_ok self w es : in_manifest self w es ->
  exists w', VersionSet.set_current_file_ (self, w) = (Ret tt, (self, w')) /\ in_manifest self w' es /\
    view w' !! current_path (VersionSet.dbname self) = Some (current_contents (VersionSet.dbname self) (VersionSet.manifest_file_number self)) /\
    forall q, q <> current_path (VersionSet.dbname self) -> q <> path_new (temp_file_name (VersionSet.dbname self) (VersionSet.manifest_file_number self)) -> keeps q w w'.
Proof.
  intros Hm. pose proof Hm as [Hwf Hn _]. destruct (set_current_ok w (VersionSet.dbname self) _ Hwf Hn) as (w' & E & Hwf' & Hv & Hk).
  exists w'. split_and!; [|apply (keeps_in_manifest self w); [done|done|apply Hk]|done|exact Hk].
  - unfold VersionSet.set_current_file_. erewrite action_bind_ret by reflexivity. unfold VersionSet.on_env. cbn [fst snd id]. by rewrite E.
  - by apply manifest_ne_current.
  - by apply manifest_ne_temp.
Qed.

(** *** Pointers *)

Definition set_all (ps : list bytes) (cps : list CompactPointer) : list bytes :=
  fold_left (fun ps cp => <[Z.to_nat (cp_level cp) := cp_key cp]> ps) cps ps.
Lemma set_all_len ps cps : length (set_all ps cps) = length ps.
Proof. revert ps. induction cps as [|cp cps IH]; intros ps; [done|]. etransitivity; [apply IH|apply length_insert]. Qed.
Lemma set_pointers_ok ps cps : length ps = Z.to_nat NUM_LEVELS -> Forall (fun p => level_ok (cp_level p)) cps ->
  fold_m VersionSet.set_pointer ps cps = Ret (set_all ps cps).
Proof.
  intros Hl Hc. revert ps Hl. induction Hc as [|cp cps Hcp _ IH]; intros ps Hl; [done|]. cbn [fold_m].
  apply level_nat in Hcp as (k & Ek & Hk). change (VersionSet.set_pointer ps cp) with (set_index ps (cp_level cp) (cp_key cp)). rewrite Ek, set_level_ok by lia.
  cbn [mbind outcome_bind]. rewrite IH by (by rewrite length_insert). f_equal.
  change (set_all ps (cp :: cps)) with (set_all (<[Z.to_nat (cp_level cp) := cp_key cp]> ps) cps). by rewrite Ek, Nat2Z.id.
Qed.
(** The last key given for a level. *)
Definition last_key (cps : list CompactPointer) (i : nat) : option bytes :=
  last (map cp_key (List.filter (fun cp => bool_decide (Z.to_nat (cp_level cp) = i)) cps)).
Lemma set_all_lookup ps cps i : (i < length ps)%nat ->
  set_all ps cps !! i = match last_key cps i with Some k => Some k | None => ps !! i end.
Proof.
  revert ps. induction cps as [|cp cps IH]; intros ps Hi; [done|]. unfold set_all. cbn [fold_left]. fold (set_all (<[Z.to_nat (cp_level cp):=cp_key cp]> ps) cps).
  rewrite IH by (by rewrite length_insert). unfold last_key. cbn [List.filter]. case_bool_decide as Hk.
  - cbn [map]. rewrite last_cons. destruct (last _); [done|]. subst i. by rewrite list_lookup_insert_eq.
  - destruct (last _); [done|]. by rewrite list_lookup_insert_ne.
Qed.
Lemma set_all_twice ps cps : set_all (set_all ps cps) cps = set_all ps cps.
Proof.
  apply list_eq. intros i. destruct (decide (i < length ps)%nat) as [Hi|Hi].
  - rewrite set_all_lookup by (by rewrite set_all_len). rewrite set_all_lookup by done. by destruct (last_key cps i).
  - rewrite !lookup_ge_None_2 by (rewrite ?set_all_len; lia). done.
Qed.
Lemma set_all_app ps a b : set_all ps (a ++ b) = set_all (set_all ps a) b.
Proof. apply fold_left_app. Qed.
Lemma set_all_forall (P : bytes -> Prop) ps cps : Forall P ps -> Forall (fun p => P (cp_key p)) cps -> Forall P (set_all ps cps).
Proof.
  intros Hps Hc. revert ps Hps. induction Hc as [|cp cps Hcp _ IH]; intros ps Hps; [done|]. apply IH. by apply Forall_insert.
Qed.
Lemma pointers_from_ok pre ps : set_all (pre ++ replicate (length ps) []) (VersionSet.pointers_from (len pre) ps) = pre ++ ps.
Proof.
  revert pre. induction ps as [|key ps IH]; intros pre; [done|]. cbn [VersionSet.pointers_from length replicate].
  specialize (IH (pre ++ [key])). rewrite len_app, <- !app_assoc in IH. cbn [app] in IH. change (len [key]) with 1 in IH.
  case_bool_decide as Hk; cbn [app]; [by subst|]. unfold set_all. cbn [fold_left cp_level cp_key].
  fold (set_all (<[Z.to_nat (len pre):=key]> (pre ++ [] :: replicate (length ps) [])) (VersionSet.pointers_from (len pre + 1) ps)).
  rewrite insert_app_r_alt by (unfold len; lia). replace (Z.to_nat (len pre) - length pre)%nat with 0%nat by (unfold len; lia). exact IH.
Qed.
Lemma pointers_from_levels k ps : Forall (fun p => k <= cp_level p < k + len ps /\ cp_key p ∈ ps) (VersionSet.pointers_from k ps).
Proof.
  revert k. induction ps as [|key ps IH]; intros k; [constructor|]. cbn [VersionSet.pointers_from]. apply Forall_app. split.
  - case_bool_decide; constructor; [|constructor]. cbn. split; [len_lia|by left].
  - apply (Forall_impl _ _ _ (IH (k + 1))). intros p [Hl Hk]. split; [len_lia|by right].
Qed.

(** *** The snapshot *)

Lemma new_files_from_edit k fss i : edit_new (VersionSet.new_files_from (Z.of_nat k) fss) i =
  if decide (k <= i)%nat then default [] (fss !! (i - k)%nat) else [].
Proof.
  revert k. induction fss as [|fs fss IH]; intros k; [by destruct (decide _)|]. cbn [VersionSet.new_files_from].
  replace (Z.of_nat k + 1) with (Z.of_nat (S k)) by lia. unfold edit_new. rewrite List.filter_app, map_app.
  fold (edit_new (VersionSet.new_files_from (Z.of_nat (S k)) fss) i). rewrite IH. clear IH.
  assert (Hf : map nf_meta (List.filter (fun n => nf_level n =? Z.of_nat i) (map (mk_new (Z.of_nat k)) fs)) = if decide (i = k) then fs else []).
  { destruct (decide (i = k)) as [->|Hne]; induction fs as [|f fs IHf]; cbn [map List.filter nf_level]; try done.
    - rewrite Z.eqb_refl. cbn. by rewrite IHf.
    - rewrite (proj2 (Z.eqb_neq _ _)) by lia. exact IHf. }
  rewrite Hf. destruct (decide (i = k)) as [->|Hne].
  - rewrite decide_False, decide_True by lia. rewrite Nat.sub_diag, app_nil_r. done.
  - destruct (decide (S k <= i)%nat); [|by rewrite decide_False by lia]. rewrite decide_True by lia. cbn [app].
    replace (i - k)%nat with (S (i - S k)) by lia. done.
Qed.
Lemma new_files_from_in k fss n : n ∈ VersionSet.new_files_from (Z.of_nat k) fss ->
  exists i fs, nf_level n = Z.of_nat (k + i) /\ fss !! i = Some fs /\ nf_meta n ∈ fs.
Proof.
  revert k. induction fss as [|fs fss IH]; intros k Hin; [by apply elem_of_nil in Hin|]. cbn [VersionSet.new_files_from] in Hin.
  apply elem_of_app in Hin as [Hin|Hin].
  - apply list_elem_of_fmap in Hin as (f & -> & Hf). exists 0%nat, fs. by rewrite Nat.add_0_r.
  - replace (Z.of_nat k + 1) with (Z.of_nat (S k)) in Hin by lia. apply IH in Hin as (i & fs' & E & Hfs & Hm).
    exists (S i), fs'. split_and!; [rewrite E; f_equal; lia|done|done].
Qed.

(** *** Well-formed version sets *)

Record set_ok self : Prop := {
  so_icmp : VersionSet.icmp self = mk_icmp c;
  so_comparator : Version.comparator (VersionSet.current self) = mk_icmp c;
  so_levels : length (Version.files (VersionSet.current self)) = Z.to_nat NUM_LEVELS;
  so_files : Forall (Forall (fun f => file_ok f /\ meta_ok f)) (Version.files (VersionSet.current self));
  so_sorted i fs : Version.files (VersionSet.current self) !! i = Some fs -> ord_sorted (level_order ord i) fs;
  so_pointers : length (VersionSet.compact_pointer self) = Z.to_nat NUM_LEVELS;
  so_keys : Forall (fun k => is_u32 (len k)) (VersionSet.compact_pointer self);
  so_next : is_u64 (VersionSet.next_file_number self);
  so_last : is_u64 (VersionSet.last_sequence self);
  so_log : is_u64 (VersionSet.log_number self);
  so_prev : is_u64 (VersionSet.prev_log_number self);
}.
Definition edit_fit (e : VersionEdit.t) : Prop := edit_ok e /\ Forall (fun n => file_ok (nf_meta n)) (VersionEdit.new_files e).

Lemma set_level self i : set_ok self -> exists fs, Version.files (VersionSet.current self) !! i = Some fs \/
  (Version.files (VersionSet.current self) !! i = None /\ fs = []).
Proof. intros _. destruct (_ !! i) as [fs|]; [by exists fs; left|by exists []; right]. Qed.

Lemma snapshot_ok self : set_ok self -> edit_ok (VersionSet.snapshot_edit self).
Proof.
  intros [S1 S2 S3 S4 S5 S6 S7 S8 S9 S10 S11]. split; cbn; try done.
  - by rewrite S1.
  - apply (Forall_impl _ _ _ (pointers_from_levels 0 _)). intros p [Hl Hk]. split.
    + unfold len in Hl. rewrite S6 in Hl. unfold level_ok, NUM_LEVELS in *. lia.
    + rewrite Forall_forall in S7. by apply S7.
  - apply Forall_forall. intros n Hn. apply (new_files_from_in 0) in Hn as (i & fs & E & Hfs & Hm). split.
    + apply lookup_lt_Some in Hfs. rewrite E. unfold level_ok, NUM_LEVELS in *. lia.
    + pose proof (proj1 (Forall_lookup _ _) S4 _ _ Hfs) as Hf. rewrite Forall_forall in Hf. by apply Hf.
Qed.
Lemma snapshot_fit self : set_ok self -> edit_fit (VersionSet.snapshot_edit self).
Proof.
  intros Hs. split; [by apply snapshot_ok|]. apply Forall_forall. intros n Hn. cbn in Hn.
  apply (new_files_from_in 0) in Hn as (i & fs & E & Hfs & Hm). pose proof (proj1 (Forall_lookup _ _) (so_files _ Hs) _ _ Hfs) as Hf.
  rewrite Forall_forall in Hf. by apply Hf.
Qed.
Lemma stash_ok self e : set_ok self -> edit_ok e -> edit_ok (VersionSet.stash_edit self e).
Proof.
  intros [S1 S2 S3 S4 S5 S6 S7 S8 S9 S10 S11] [E1 E2 E3 E4 E5 E6 E7 E8]. split; cbn; try done; by case_match.
Qed.

(** *** The next version of a version set *)

Lemma edit_new_in ns i f : f ∈ edit_new ns i -> exists n, n ∈ ns /\ nf_meta n = f.
Proof.
  unfold edit_new. intros (n & -> & Hn)%list_elem_of_fmap. exists n. split; [|done].
  apply list_elem_of_In in Hn. apply filter_In in Hn as [Hn _]. by apply list_elem_of_In.
Qed.
Lemma next_elem (b : VersionBuilder.t C) i f : f ∈ next_level ord b i -> f ∈ default [] (Version.files (VersionBuilder.base b) !! i) \/ f ∈ adds b i.
Proof.
  rewrite next_level_eq, isort_perm, elem_of_app. intros [[_ Hf]%list_elem_of_filter|[_ Hf]%list_elem_of_filter]; [by left|by right].
Qed.

Lemma next_version_ok self e : set_ok self -> edit_fit e ->
  exists b v, VersionBuilder.apply (VersionBuilder.new (VersionSet.current self)) e = Ret b /\
    VersionBuilder.save_to b (mk_icmp c) = Ret v /\ Version.comparator v = mk_icmp c /\
    length (Version.files v) = Z.to_nat NUM_LEVELS /\
    (forall i, (i < Z.to_nat NUM_LEVELS)%nat -> Version.files v !! i = Some (next_level ord b i)) /\
    Forall (Forall (fun f => file_ok f /\ meta_ok f)) (Version.files v).
Proof.
  intros Hs [He Hnew]. pose proof Hs as [_ S2 S3 S4 _ _ _ _ _ _ _].
  destruct (apply_ok (VersionBuilder.new (VersionSet.current self)) e (new_sized _) (edit_levels e He)) as (b & Eb & Bb & [Sd Sa] & D & A).
  cbn [VersionBuilder.new VersionBuilder.base] in Bb.
  assert (Hadds : forall i f, f ∈ adds b i -> file_ok f /\ meta_ok f).
  { intros i f Hf. rewrite A, adds_new in Hf. apply edit_new_in in Hf as (n & Hn & <-).
    rewrite Forall_forall in Hnew. split; [by apply Hnew|]. pose proof (ok_new _ He) as Hm. rewrite Forall_forall in Hm. by apply Hm. }
  assert (Hbo : builder_ok b).
  { split; [by rewrite Bb|done|done| |].
    - rewrite Bb. apply (Forall_impl _ _ _ S4). intros fs Hfs. apply (Forall_impl _ _ _ Hfs). tauto.
    - apply Forall_lookup. intros i fs Hfs. apply Forall_forall. intros f Hf. apply (Hadds i). unfold adds. by rewrite Hfs. }
  destruct (save_to_ok c ord b Hbo) as (v & Ev & Hc & Hl & Hi). exists b, v. split_and!; try done.
  apply Forall_lookup. intros i fs Hfs. assert (Hlt : (i < Z.to_nat NUM_LEVELS)%nat) by (apply lookup_lt_Some in Hfs; lia).
  rewrite Hi in Hfs by done. injection Hfs as <-. apply Forall_forall. intros f [Hf|Hf]%next_elem; [|by eapply Hadds].
  rewrite Bb in Hf. destruct (Version.files (VersionSet.current self) !! i) as [fs0|] eqn:E0; [|by apply elem_of_nil in Hf].
  pose proof (proj1 (Forall_lookup _ _) S4 _ _ E0) as Hf0. rewrite Forall_forall in Hf0. by apply Hf0.
Qed.

(** *** The invariant *)

Definition history (es : list VersionEdit.t) (i : nat) : list FileMeta :=
  concat (map (fun e => edit_new (VersionEdit.new_files e) i) es).
(** The numbers a level has seen. *)
Definition known self (es : list VersionEdit.t) (i : nat) : gset Z :=
  numbers (default [] (Version.files (VersionSet.current self) !! i)) ∪ numbers (history es i).

Record logged self (w : MemEnv) (es : list VersionEdit.t) : Prop := {
  lg_in : in_manifest self w es;
  lg_current : view w !! current_path (VersionSet.dbname self) =
    Some (current_contents (VersionSet.dbname self) (VersionSet.manifest_file_number self));
  lg_edits : Forall edit_fit es;
  lg_files : exists b, replay es = Ret b /\ sized b /\ (forall i, default [] (Version.files (VersionBuilder.base b) !! i) = []) /\
    (forall i, adds b i = history es i) /\
    forall i, (i < Z.to_nat NUM_LEVELS)%nat -> Version.files (VersionSet.current self) !! i = Some (next_level ord b i);
  lg_pointers : set_all (replicate (Z.to_nat NUM_LEVELS) []) (pointers_of es) = VersionSet.compact_pointer self;
  lg_log : VersionSet.log_number self = last_field VersionEdit.log_number es 0;
  lg_prev : VersionSet.prev_log_number self = last_field VersionEdit.prev_log_number es 0;
  lg_fields : Exists (fun e => is_Some (VersionEdit.next_file_number e) /\ is_Some (VersionEdit.last_sequence e)) es;
  lg_name : VersionSet.icmp self = mk_icmp c;
}.
Definition usable self w es : Prop := (VersionSet.manifest_log self = None /\ es = [] /\ mem_wf w) \/ logged self w es.

Lemma last_field_snoc {A} (f : VersionEdit.t -> option A) es e x : last_field f (es ++ [e]) x = default (last_field f es x) (f e).
Proof. unfold last_field. by rewrite fold_left_app. Qed.
Lemma fold_m_app {A B} (f : B -> A -> outcome B) b l1 l2 : fold_m f b (l1 ++ l2) = (b ← fold_m f b l1; fold_m f b l2).
Proof. revert b. induction l1 as [|a l1 IH]; intros b; [done|]. cbn. destruct (f b a); [apply IH|done..]. Qed.
Lemma history_snoc es e i : history (es ++ [e]) i = history es i ++ edit_new (VersionEdit.new_files e) i.
Proof. unfold history. rewrite map_app, concat_app. cbn. by rewrite app_nil_r. Qed.
Lemma base_empty i : default [] (Version.files (Version.new (mk_icmp c)) !! i) = [].
Proof. cbn [Version.new Version.files]. destruct (replicate _ _ !! i) as [l|] eqn:E; [|done]. by apply lookup_replicate in E as [-> _]. Qed.

(** A new manifest holds the snapshot. *)
Lemma open_manifest_ok self w : set_ok self -> mem_wf w ->
  exists self' w', VersionSet.open_manifest (self, w) = (Ret tt, (self', w')) /\
    in_manifest self' w' [VersionSet.snapshot_edit self'] /\ set_ok self' /\
    VersionSet.dbname self' = VersionSet.dbname self /\ VersionSet.current self' = VersionSet.current self /\
    VersionSet.compact_pointer self' = VersionSet.compact_pointer self /\ VersionSet.log_number self' = VersionSet.log_number self /\
    VersionSet.prev_log_number self' = VersionSet.prev_log_number self /\ VersionSet.last_sequence self' = VersionSet.last_sequence self /\
    forall q, q <> manifest_path (VersionSet.dbname self') (VersionSet.manifest_file_number self') -> keeps q w w'.
Proof.
  intros Hs Hwf. unfold VersionSet.open_manifest. set (n := VersionSet.next_file_number self).
  assert (Hn : is_u64 n) by apply Hs. erewrite action_bind_ret by reflexivity. erewrite action_bind_ret by reflexivity.
  erewrite action_bind_ret by reflexivity. cbn [fst id].
  destruct (new_writable_ok (manifest_path (VersionSet.dbname self) n) w Hwf) as (h & w1 & E1 & Hwf1 & Ho & Hp & Hb & Hk).
  erewrite action_bind_ret by (unfold VersionSet.on_env; cbn [new_writable_file MemEnv_Env fst snd];
    change (path_new (descriptor_file_name _ _)) with (manifest_path (VersionSet.dbname self) n); rewrite E1; reflexivity).
  erewrite action_bind_ret by reflexivity. erewrite action_bind_ret by reflexivity. cbn [fst snd id].
  match goal with |- context [VersionSet.or_abandon true (VersionSet.append_to_manifest (VersionSet.snapshot_edit ?s)) _] => set (self2 := s) end.
  assert (Hm : in_manifest self2 w1 []).
  { split; [done|done|]. exists LogWriter.new, h. by split_and!. }
  destruct (append_manifest_ok self2 w1 [] (VersionSet.snapshot_edit self2) Hm) as (lw' & w2 & E2 & Hm2 & Hk2).
  unfold VersionSet.or_abandon. rewrite E2. eexists _, w2. split; [done|]. split_and!; try done;
    [|intros q Hq; apply (keeps_trans q w w1); [by apply Hk|by apply Hk2]].
  destruct Hs as [S1 S2 S3 S4 S5 S6 S7 S8 S9 S10 S11]. split; cbn; try done. apply as_u64_range.
Qed.

(** The snapshot replays to the version it was taken of. *)
Lemma replay_snapshot self : set_ok self -> exists b, replay [VersionSet.snapshot_edit self] = Ret b /\ sized b /\
  (forall i, default [] (Version.files (VersionBuilder.base b) !! i) = []) /\
  (forall i, adds b i = history [VersionSet.snapshot_edit self] i) /\
  forall i, default [] (Version.files (VersionSet.current self) !! i) = next_level ord b i.
Proof.
  intros Hs. pose proof Hs as [S1 S2 S3 S4 S5 S6 S7 S8 S9 S10 S11]. unfold replay. cbn [fold_m].
  destruct (apply_ok (VersionBuilder.new (Version.new (mk_icmp c))) (VersionSet.snapshot_edit self) (new_sized _)
    (edit_levels _ (snapshot_ok self Hs))) as (b & -> & Bb & Sb & D & A).
  cbn [mbind outcome_bind]. exists b. cbn [VersionBuilder.new VersionBuilder.base] in Bb.
  assert (Ha : forall i, adds b i = default [] (Version.files (VersionSet.current self) !! i)).
  { intros i. rewrite A, adds_new. cbn [VersionEdit.new_files VersionSet.snapshot_edit app].
    rewrite (new_files_from_edit 0), decide_True by lia. by rewrite Nat.sub_0_r. }
  split_and!; [done|done|by rewrite Bb; apply base_empty| |].
  - intros i. unfold history. cbn [map concat]. rewrite app_nil_r, A, adds_new. done.
  - intros i. rewrite next_level_eq, Bb, base_empty, Ha.
    assert (Hd : dels b i = ∅). { rewrite D, dels_new. cbn. unfold edit_deleted. cbn. set_solver +. }
    rewrite Hd. change (VersionBuilder.live ∅ []) with (@nil FileMeta). cbn [app].
    assert (Hf : forall fs : list FileMeta, VersionBuilder.live ∅ fs = fs).
    { induction fs as [|f fs IH]; [done|]. unfold VersionBuilder.live. rewrite filter_cons_True by set_solver +. f_equal. exact IH. }
    rewrite Hf. symmetry. pose proof (level_order_ord c ord i). apply isort_id.
    destruct (_ !! i) as [fs|] eqn:E; [by apply S5|constructor].
Qed.

(** *** Logging one edit *)

Lemma apply_pointers_ok self w e : set_ok self -> edit_ok e ->
  VersionSet.apply_pointers e (self, w) =
    (Ret tt, (VersionSet.with_pointers (set_all (VersionSet.compact_pointer self) (VersionEdit.compact_pointers e)) self, w)).
Proof.
  intros Hs He. unfold VersionSet.apply_pointers. erewrite action_bind_ret by reflexivity. cbn [fst].
  assert (Hp : Forall (fun p => level_ok (cp_level p)) (VersionEdit.compact_pointers e))
    by (apply (Forall_impl _ _ _ (ok_pointers _ He)); tauto).
  erewrite action_bind_ret by (unfold lift; rewrite set_pointers_ok by (done || apply Hs); reflexivity). done.
Qed.
Lemma with_pointers_ok self e : set_ok self -> edit_ok e ->
  set_ok (VersionSet.with_pointers (set_all (VersionSet.compact_pointer self) (VersionEdit.compact_pointers e)) self).
Proof.
  intros [S1 S2 S3 S4 S5 S6 S7 S8 S9 S10 S11] He. split; cbn; try done; [by rewrite set_all_len|].
  apply set_all_forall; [done|]. apply (Forall_impl _ _ _ (ok_pointers _ He)). tauto.
Qed.

(** The edits in the manifest just before [e] is appended. *)
Lemma manifest_ready self w e es : set_ok self -> edit_ok e -> usable self w es ->
  let ps := set_all (VersionSet.compact_pointer self) (VersionEdit.compact_pointers e) in
  exists self1 w1 es1,
    (if (match VersionSet.manifest_log self with None => true | Some _ => false end) then VersionSet.open_manifest else mret tt)
      (VersionSet.with_pointers ps self, w) = (Ret tt, (self1, w1)) /\
    set_ok self1 /\ in_manifest self1 w1 es1 /\ Forall edit_fit es1 /\
    VersionSet.dbname self1 = VersionSet.dbname self /\ VersionSet.current self1 = VersionSet.current self /\
    VersionSet.compact_pointer self1 = ps /\ VersionSet.log_number self1 = VersionSet.log_number self /\
    VersionSet.prev_log_number self1 = VersionSet.prev_log_number self /\ VersionSet.last_sequence self1 = VersionSet.last_sequence self /\
    (exists b, replay es1 = Ret b /\ sized b /\ (forall i, default [] (Version.files (VersionBuilder.base b) !! i) = []) /\
      (forall i, adds b i = history es1 i) /\
      forall i, (i < Z.to_nat NUM_LEVELS)%nat -> default [] (Version.files (VersionSet.current self) !! i) = next_level ord b i) /\
    set_all (replicate (Z.to_nat NUM_LEVELS) []) (pointers_of es1 ++ VersionEdit.compact_pointers e) = ps /\
    (forall i, numbers (history es1 i) ⊆ known self es i) /\
    (VersionSet.manifest_log self <> None ->
       view w1 !! current_path (VersionSet.dbname self) = Some (current_contents (VersionSet.dbname self) (VersionSet.manifest_file_number self)) /\
       VersionSet.manifest_file_number self1 = VersionSet.manifest_file_number self) /\
    (forall q, q <> manifest_path (VersionSet.dbname self1) (VersionSet.manifest_file_number self1) -> keeps q w w1).
Proof.
  intros Hs He Hu ps. pose proof (with_pointers_ok self e Hs He) as Hs1. fold ps in Hs1.
  destruct Hu as [(Hnone & -> & Hwf)|[Hin Hcur Hed Hfiles Hptr Hlog Hprev Hfl Hic]].
  - rewrite Hnone. destruct (open_manifest_ok _ w Hs1 Hwf) as (self1 & w1 & E & Hm & Hs' & E1 & E2 & E3 & E4 & E5 & E6 & E7).
    exists self1, w1, [VersionSet.snapshot_edit self1]. split; [exact E|].
    destruct (replay_snapshot self1 Hs') as (b & R1 & R2 & R3 & R4 & R5).
    split_and!; try done; [by constructor; [apply snapshot_fit|]| | |].
    + exists b. split_and!; try done. intros i _. rewrite <- R5, E2. done.
    + unfold pointers_of. cbn [map concat VersionSet.snapshot_edit VersionEdit.compact_pointers]. rewrite app_nil_r, set_all_app.
      pose proof (pointers_from_ok [] (VersionSet.compact_pointer self1)) as Hp. cbn [app] in Hp. change (len (@nil bytes)) with 0 in Hp.
      rewrite (so_pointers _ Hs') in Hp. rewrite Hp, E3. cbn [VersionSet.with_pointers VersionSet.compact_pointer]. apply set_all_twice.
    + intros i. unfold history, known. cbn [map concat]. rewrite app_nil_r. cbn [VersionEdit.new_files VersionSet.snapshot_edit].
      rewrite (new_files_from_edit 0), decide_True by lia. rewrite Nat.sub_0_r, E2. cbn [VersionSet.with_pointers VersionSet.current]. set_solver +.
  - destruct Hin as [Hwf Hn (lw & h & El & Hrest)] eqn:EHin. rewrite El.
    eexists _, w, es. split; [done|]. split_and!; try done.
    + split; [done|done|]. cbn. by exists lw, h.
    + destruct Hfiles as (b & R1 & R2 & R3 & R4 & R5). exists b. split_and!; try done. intros i Hi. by rewrite R5.
    + rewrite set_all_app, Hptr. done.
    + intros i. unfold known. set_solver +.
Qed.

Lemma next_sorted (b : VersionBuilder.t C) i : ord_sorted (level_order ord i) (next_level ord b i).
Proof. exact (isort_sorted (level_order ord i) (TotalOrd0 := level_order_ord c ord i) _). Qed.

Lemma log_and_apply_full self w e es : set_ok self -> edit_fit e -> usable self w es ->
  (forall i, numbers (edit_new (VersionEdit.new_files e) i) ## known self es i) ->
  exists self' w' es', VersionSet.log_and_apply e (self, w) = (Ret tt, (self', w')) /\ set_ok self' /\ logged self' w' es' /\
    VersionSet.dbname self' = VersionSet.dbname self /\ VersionSet.last_sequence self' = VersionSet.last_sequence self /\
    last es' = Some (VersionSet.stash_edit self e) /\
    (forall i, known self' es' i ⊆ known self es i ∪ numbers (edit_new (VersionEdit.new_files e) i)) /\
    (exists b, VersionBuilder.apply (VersionBuilder.new (VersionSet.current self)) (VersionSet.stash_edit self e) = Ret b /\
      forall i, (i < Z.to_nat NUM_LEVELS)%nat -> Version.files (VersionSet.current self') !! i = Some (next_level ord b i)) /\
    (forall q, q <> manifest_path (VersionSet.dbname self) (VersionSet.manifest_file_number self') -> q <> current_path (VersionSet.dbname self) ->
      q <> path_new (temp_file_name (VersionSet.dbname self) (VersionSet.manifest_file_number self')) -> keeps q w w').
Proof.
  intros Hs Hfit Hu Hfresh. set (e' := VersionSet.stash_edit self e).
  assert (Hfit' : edit_fit e') by (split; [by apply stash_ok, Hfit|apply Hfit]).
  destruct (next_version_ok self e' Hs Hfit') as (b1 & v & Eb1 & Ev & Hvc & Hvl & Hvi & Hvf).
  destruct (manifest_ready self w e' es Hs (proj1 Hfit') Hu)
    as (self1 & w1 & es1 & Eopen & Hs1 & Hin1 & Hes1 & D1 & D2 & D3 & D4 & D5 & D6 & (b & R1 & R2 & R3 & R4 & R5) & Hptr & Hknown & Hcur & Hk1).
  destruct (append_manifest_ok self1 w1 es1 e' Hin1) as (lw & w2 & Eapp & Hin2 & Hk2).
  set (self2 := VersionSet.with_manifest (Some lw) (VersionSet.manifest_file self1) self1) in *.
  assert (Hfr : fresh_for b e').
  { intros i. rewrite R4. generalize (Hfresh i) (Hknown i). cbn [e' VersionSet.stash_edit VersionEdit.new_files]. clear. set_solver. }
  destruct (apply_ok b e' R2 (edit_levels _ (proj1 Hfit'))) as (b2 & Eb2 & Bb2 & S2 & _ & A2).
  assert (Hset : exists w3, (if (match VersionSet.manifest_log self with None => true | Some _ => false end)
      then VersionSet.or_abandon true VersionSet.set_current_file_ else mret tt) (self2, w2) = (Ret tt, (self2, w3)) /\
      in_manifest self2 w3 (es1 ++ [e']) /\
      view w3 !! current_path (VersionSet.dbname self) = Some (current_contents (VersionSet.dbname self) (VersionSet.manifest_file_number self1)) /\
      forall q, q <> current_path (VersionSet.dbname self) -> q <> path_new (temp_file_name (VersionSet.dbname self) (VersionSet.manifest_file_number self1)) -> keeps q w2 w3).
  { destruct (VersionSet.manifest_log self) as [lw0|] eqn:El.
    - exists w2. split; [done|]. split; [done|]. split; [|intros q _ _; by split]. destruct (Hcur ltac:(done)) as [Hc1 Hc2]. rewrite Hc2, <- Hc1. apply keeps_view, Hk2.
      rewrite D1. intros Heq. symmetry in Heq. revert Heq. apply manifest_ne_current, Hin1.
    - destruct (set_current_manifest_ok self2 w2 (es1 ++ [e']) Hin2) as (w3 & E3 & Hin3 & Hv3 & Hk3). exists w3.
      unfold VersionSet.or_abandon. rewrite E3. cbn [self2 VersionSet.with_manifest VersionSet.dbname VersionSet.manifest_file_number] in Hv3, Hk3.
      rewrite D1 in Hv3, Hk3. by split_and!. }
  destruct Hset as (w3 & Eset & Hin3 & Hv3 & Hk3).
  set (self3 := VersionSet.with_current v (VersionSet.with_logs (default (VersionSet.log_number self2) (VersionEdit.log_number e'))
    (default (VersionSet.prev_log_number self2) (VersionEdit.prev_log_number e')) self2)).
  exists self3, w3, (es1 ++ [e']). split; [|split_and!].
  - unfold VersionSet.log_and_apply. erewrite action_bind_ret by reflexivity. cbn [fst id]. fold e'.
    erewrite action_bind_ret by (unfold lift; rewrite Eb1; reflexivity).
    erewrite action_bind_ret by (by apply apply_pointers_ok, Hfit').
    erewrite action_bind_ret by (unfold lift; rewrite (so_icmp _ Hs), Ev; reflexivity).
    erewrite action_bind_ret by exact Eopen.
    erewrite action_bind_ret by (unfold VersionSet.or_abandon; rewrite Eapp; reflexivity). fold self2.
    erewrite action_bind_ret by (unfold VersionSet.or_abandon; rewrite (sync_manifest_ok self2 w2 _ Hin2); reflexivity).
    erewrite action_bind_ret by exact Eset. done.
  - destruct Hs1 as [T1 T2 T3 T4 T5 T6 T7 T8 T9 T10 T11]. split; cbn; try done.
    + intros i fs Hfs. assert (Hi : (i < Z.to_nat NUM_LEVELS)%nat) by (apply lookup_lt_Some in Hfs; lia).
      rewrite Hvi in Hfs by done. injection Hfs as <-. apply next_sorted.
    + pose proof (ok_log _ (proj1 Hfit')) as Hl. cbn in Hl. by destruct (VersionEdit.log_number e).
    + pose proof (ok_prev _ (proj1 Hfit')) as Hl. cbn in Hl. by destruct (VersionEdit.prev_log_number e).
  - split.
    + destruct Hin3 as [I1 I2 I3]. by split.
    + cbn. rewrite D1. exact Hv3.
    + apply Forall_app. split; [done|]. by constructor.
    + exists b2. split_and!.
      * unfold replay. rewrite fold_m_app. unfold replay in R1. rewrite R1. cbn [mbind outcome_bind fold_m]. by rewrite Eb2.
      * done.
      * by rewrite Bb2.
      * intros i. by rewrite A2, R4, history_snoc.
      * intros i Hi. cbn [self3 VersionSet.with_current VersionSet.current]. rewrite Hvi by done. f_equal.
        apply (incremental c ord b b1 b2 (VersionSet.current self) e' i); try done; [by apply R5|by apply edit_levels, Hfit'].
    + unfold pointers_of. rewrite map_app, concat_app. cbn [map concat]. rewrite app_nil_r.
      cbn [self3 VersionSet.with_current VersionSet.with_logs self2 VersionSet.with_manifest VersionSet.compact_pointer]. rewrite D3. exact Hptr.
    + rewrite last_field_snoc. cbn. by destruct (VersionEdit.log_number e).
    + rewrite last_field_snoc. cbn. by destruct (VersionEdit.prev_log_number e).
    + apply Exists_app. right. constructor. cbn. split; by eexists.
    + apply Hs1.
  - cbn. done.
  - cbn. done.
  - by rewrite last_snoc.
  - intros i. unfold known. rewrite history_snoc, numbers_app. pose proof (Hknown i) as Hki.
    assert (Hn : numbers (default [] (Version.files (VersionSet.current self3) !! i)) ⊆
        numbers (default [] (Version.files (VersionSet.current self) !! i)) ∪ numbers (edit_new (VersionEdit.new_files e) i)).
    { cbn [self3 VersionSet.with_current VersionSet.current]. destruct (Version.files v !! i) as [fs|] eqn:Efs; [|cbn; set_solver +].
      assert (Hi : (i < Z.to_nat NUM_LEVELS)%nat) by (apply lookup_lt_Some in Efs; lia). rewrite Hvi in Efs by done. injection Efs as <-.
      cbn [default from_option id]. intros x Hx. unfold numbers in Hx at 1. rewrite elem_of_list_to_set in Hx.
      apply list_elem_of_fmap in Hx as (f & -> & Hf). apply next_elem in Hf as [Hf|Hf]; apply elem_of_union.
      - left. destruct (apply_ok (VersionBuilder.new (VersionSet.current self)) e' (new_sized _) (edit_levels _ (proj1 Hfit'))) as (bx & Ex & Bx & _).
        rewrite Eb1 in Ex. injection Ex as <-. rewrite Bx in Hf. by apply elem_numbers.
      - right. destruct (apply_ok (VersionBuilder.new (VersionSet.current self)) e' (new_sized _) (edit_levels _ (proj1 Hfit'))) as (bx & Ex & _ & _ & _ & Ax).
        rewrite Eb1 in Ex. injection Ex as <-. rewrite Ax, adds_new in Hf. by apply elem_numbers. }
    unfold known in Hki. cbn [e' VersionSet.stash_edit VersionEdit.new_files]. revert Hki Hn. clear. set_solver.
  - exists b1. split; [exact Eb1|exact Hvi].
  - intros q Hm Hcu Ht. apply (keeps_trans q w w1); [apply Hk1; by rewrite D1|]. apply (keeps_trans q w1 w2); [apply Hk2; by rewrite D1|]. by apply Hk3.
Qed.
Lemma log_and_apply_ok self w e es : set_ok self -> edit_fit e -> usable self w es ->
  (forall i, numbers (edit_new (VersionEdit.new_files e) i) ## known self es i) ->
  exists self' w' es', VersionSet.log_and_apply e (self, w) = (Ret tt, (self', w')) /\ set_ok self' /\ logged self' w' es' /\
    VersionSet.dbname self' = VersionSet.dbname self /\ VersionSet.last_sequence self' = VersionSet.last_sequence self /\
    last es' = Some (VersionSet.stash_edit self e) /\
    (forall i, known self' es' i ⊆ known self es i ∪ numbers (edit_new (VersionEdit.new_files e) i)).
Proof.
  intros H1 H2 H3 H4. destruct (log_and_apply_full self w e es H1 H2 H3 H4) as (self' & w' & es' & E1 & E2 & E3 & E4 & E5 & E6 & E7 & _).
  by exists self', w', es'.
Qed.

(** *** Recovery *)

Lemma decode_encode_edit e : edit_ok e -> VersionEdit.decode_from (encode_edit e) = (Ret e, []).
Proof.
  intros He. pose proof (decodes_encode _ e default_ok He []) as Hd. rewrite app_nil_r, merge_default in Hd. exact Hd.
Qed.

Definition has {A} (f : VersionEdit.t -> option A) (es : list VersionEdit.t) : bool :=
  existsb (fun e => match f e with Some _ => true | None => false end) es.

(** The fields recovery sets. *)
Record replayed self self' (es : list VersionEdit.t) : Prop := {
  rp_dbname : VersionSet.dbname self' = VersionSet.dbname self;
  rp_icmp : VersionSet.icmp self' = VersionSet.icmp self;
  rp_current : VersionSet.current self' = VersionSet.current self;
  rp_pointers : VersionSet.compact_pointer self' = set_all (VersionSet.compact_pointer self) (pointers_of es);
  rp_log : VersionSet.log_number self' = last_field VersionEdit.log_number es (VersionSet.log_number self);
  rp_prev : VersionSet.prev_log_number self' = last_field VersionEdit.prev_log_number es (VersionSet.prev_log_number self);
  rp_next : VersionSet.next_file_number self' = last_field VersionEdit.next_file_number es (VersionSet.next_file_number self);
  rp_last : VersionSet.last_sequence self' = last_field VersionEdit.last_sequence es (VersionSet.last_sequence self);
  rp_name : VersionSet.recovered_comparator_name self' =
    last_field (fun e => Some <$> VersionEdit.comparator e) es (VersionSet.recovered_comparator_name self);
}.

Lemma recover_record_ok self w b e b' : length (VersionSet.compact_pointer self) = Z.to_nat NUM_LEVELS -> edit_ok e ->
  VersionBuilder.apply b e = Ret b' ->
  exists self', VersionSet.recover_record b (encode_edit e) (self, w) =
      (Ret (b', has VersionEdit.next_file_number [e], has VersionEdit.last_sequence [e]), (self', w)) /\ replayed self self' [e].
Proof.
  intros Hl He Eb. unfold VersionSet.recover_record.
  erewrite action_bind_ret by (unfold lift; rewrite decode_encode_edit by done; reflexivity).
  erewrite action_bind_ret by (unfold lift; rewrite Eb; reflexivity).
  assert (Hp : Forall (fun p => level_ok (cp_level p)) (VersionEdit.compact_pointers e))
    by (apply (Forall_impl _ _ _ (ok_pointers _ He)); tauto).
  assert (Ep : VersionSet.apply_pointers e (self, w) =
    (Ret tt, (VersionSet.with_pointers (set_all (VersionSet.compact_pointer self) (VersionEdit.compact_pointers e)) self, w))).
  { unfold VersionSet.apply_pointers. erewrite action_bind_ret by reflexivity. cbn [fst].
    erewrite action_bind_ret by (unfold lift; rewrite set_pointers_ok by done; reflexivity). done. }
  erewrite action_bind_ret by exact Ep. do 4 erewrite action_bind_ret by reflexivity.
  unfold has. cbn [existsb]. rewrite !orb_false_r. eexists. split; [reflexivity|].
  split; cbn; try done; [unfold pointers_of; cbn; by rewrite app_nil_r|by destruct (VersionEdit.comparator e)].
Qed.

Lemma replayed_cons self self1 self2 e es : replayed self self1 [e] -> replayed self1 self2 es -> replayed self self2 (e :: es).
Proof.
  intros [A1 A2 A3 A4 A5 A6 A7 A8 A9] [B1 B2 B3 B4 B5 B6 B7 B8 B9]. split; try congruence.
  - rewrite B4, A4. unfold pointers_of. cbn [map concat]. by rewrite app_nil_r, set_all_app.
  - by rewrite B5, A5.
  - by rewrite B6, A6.
  - by rewrite B7, A7.
  - by rewrite B8, A8.
  - by rewrite B9, A9.
Qed.

(** Reading a log file changes nothing in memory. *)
Lemma mem_physical_keeps fuel : forall s : LogSequentialReader.t (W:=MemEnv) * MemEnv, (LogSequentialReader.physical_loop fuel s).2.2 = s.2.
Proof.
  induction fuel as [|fuel IH]; intros s; cbn [LogSequentialReader.physical_loop]; [done|].
  assert (Hfill : (LogSequentialReader.fill_block s).2.2 = s.2).
  { unfold LogSequentialReader.fill_block. destruct (LogSequentialReader.eof s.1); [done|]. cbn [seq_read MemEnv_Env]. unfold Mem.seq_read.
    by destruct (slice _ _ _) as [x|e|]. }
  assert (Hstep : forall s' : LogSequentialReader.t (W:=MemEnv) * MemEnv, (match LogSequentialReader.physical_step s'.1 with
      | (Ret (inl r), _) => LogSequentialReader.physical_loop fuel (r, s'.2) | (Ret (inr o), r) => (Ret o, (r, s'.2))
      | (Fail e, r) => (Fail e, (r, s'.2)) | (Panic, r) => (Panic, (r, s'.2)) end).2.2 = s'.2).
  { intros s'. destruct (LogSequentialReader.physical_step s'.1) as [[[r|o]|e|] r']; [by rewrite IH|done..]. }
  destruct (_ <=? _); [|apply Hstep]. destruct (LogSequentialReader.fill_block s) as [[u|e|] s']; [|done..]. cbn [snd] in Hfill.
  destruct (LogSequentialReader.eof s'.1); [done|]. by rewrite Hstep.
Qed.
Lemma mem_reader_keeps fuel (s : LogSequentialReader.t (W:=MemEnv) * MemEnv) : (LogSequentialReader.read_record fuel s).2.2 = s.2.
Proof.
  unfold LogSequentialReader.read_record, LogSequentialReader.read_physical. generalize fuel at 2. intros n. generalize (@nil byte), false. revert s.
  induction n as [|n IH]; intros s data b; cbn [assemble]; [done|]. unfold mbind at 1, action_bind at 1.
  pose proof (mem_physical_keeps fuel s) as Hp. destruct (LogSequentialReader.physical_loop fuel s) as [[[[k p]|]|e|] s']; cbn [snd] in Hp.
  all: cbn [snd]; repeat (case_match; [|]); try (by rewrite IH); try done.
Qed.

Lemma recover_loop_ok fuel es : forall records self (w : MemEnv) r b b' hn hl,
  results (LogSequentialReader.read_record fuel) (length es + 1) (r, w) = map (fun d => Ret (Some d)) (map encode_edit es) ++ [Ret None] ->
  (length es < records)%nat -> Forall edit_ok es -> length (VersionSet.compact_pointer self) = Z.to_nat NUM_LEVELS ->
  fold_m VersionBuilder.apply b es = Ret b' ->
  exists self', VersionSet.recover_loop fuel records r b hn hl (self, w) =
      (Ret (b', hn || has VersionEdit.next_file_number es, hl || has VersionEdit.last_sequence es), (self', w)) /\ replayed self self' es.
Proof.
  induction es as [|e es IH]; intros records self w r b b' hn hl Hres Hrec Hed Hl Hb; (destruct records as [|records]; [cbn in Hrec; lia|]);
    cbn [length Nat.add results map app] in Hres; cbn [VersionSet.recover_loop];
    pose proof (mem_reader_keeps fuel (r, w)) as Hw; destruct (LogSequentialReader.read_record fuel (r, w)) as [o [r' w']] eqn:Er; cbn [snd] in Hw; subst w'.
  - injection Hres as ->. erewrite action_bind_ret by (unfold VersionSet.on_reader; cbn [fst snd]; rewrite Er; reflexivity).
    injection Hb as ->. exists self. rewrite !orb_false_r. split; [done|]. by split.
  - injection Hres as -> Hres. erewrite action_bind_ret by (unfold VersionSet.on_reader; cbn [fst snd]; rewrite Er; reflexivity).
    apply Forall_cons in Hed as [He Hed]. cbn [fold_m] in Hb. destruct (VersionBuilder.apply b e) as [b1| |] eqn:Eb; [|done..].
    destruct (recover_record_ok self w b e b1 Hl He Eb) as (self1 & E1 & Hr1). erewrite action_bind_ret by exact E1.
    destruct (IH records self1 w r' b1 b' (hn || has VersionEdit.next_file_number [e]) (hl || has VersionEdit.last_sequence [e]))
      as (self2 & E2 & Hr2); [done|cbn in Hrec; lia|done|by rewrite (rp_pointers _ _ _ Hr1), set_all_len|done|].
    exists self2. rewrite E2. split; [|by eapply replayed_cons]. unfold has. cbn [existsb]. by rewrite !orb_false_r, !orb_assoc.
Qed.

Lemma has_exists {A} (f : VersionEdit.t -> option A) es : Exists (fun e => is_Some (f e)) es -> has f es = true.
Proof. intros He. apply existsb_exists. apply Exists_exists in He as (e & Hin & [x Hx]). exists e. rewrite Hx. split; [by apply list_elem_of_In|done]. Qed.

Lemma read_viewed (w : MemEnv) p d : view w !! p = Some d -> Mem.read_file p w = (Ret d, w).
Proof.
  rewrite view_lookup. unfold Mem.read_file. destruct (files w !! p) as [b|]; [|done]. cbn. by intros [= ->].
Qed.
Lemma last_field_default {A} (f : VersionEdit.t -> option A) es x y : Exists (fun e => is_Some (f e)) es -> last_field f es x = last_field f es y.
Proof.
  intros He. revert x y. induction He as [e es [z Hz]|e es He IH]; intros x y; unfold last_field; cbn [fold_left].
  - by rewrite Hz.
  - apply IH.
Qed.

Lemma replay_base es : forall b0 b, Forall edit_ok es -> sized b0 -> fold_m VersionBuilder.apply b0 es = Ret b ->
  VersionBuilder.base b = VersionBuilder.base b0 :> Version.t C.
Proof.
  induction es as [|e es IH]; intros b0 b He Hs Hf; [by injection Hf as ->|]. apply Forall_cons in He as [He Hes]. cbn [fold_m] in Hf.
  destruct (apply_ok b0 e Hs (edit_levels _ He)) as (b1 & E1 & B1 & S1 & _). rewrite E1 in Hf. rewrite <- B1. by apply (IH b1).
Qed.
Lemma history_ok es i f : Forall edit_fit es -> f ∈ history es i -> file_ok f.
Proof.
  intros He Hf. unfold history in Hf. apply list_elem_of_In, in_concat in Hf as (l & Hl & Hf). apply in_map_iff in Hl as (e & <- & Hin).
  apply list_elem_of_In in Hf. apply edit_new_in in Hf as (n & Hn & <-). rewrite Forall_forall in He.
  destruct (He e (proj2 (list_elem_of_In _ _) Hin)) as [_ Hok]. rewrite Forall_forall in Hok. by apply Hok.
Qed.

(** The bytes of the manifest. *)
Definition manifest_size self (w : MemEnv) : Z :=
  len (default [] (view w !! manifest_path (VersionSet.dbname self) (VersionSet.manifest_file_number self))).

Lemma last_field_inv {A} (Q : A -> Prop) (f : VersionEdit.t -> option A) es : forall x, Q x -> Forall (fun e => opt_ok Q (f e)) es -> Q (last_field f es x).
Proof.
  induction es as [|e es IH]; intros x Hx He; [done|]. apply Forall_cons in He as [He Hes]. apply IH; [|done]. by destruct (f e).
Qed.
Lemma recover_full self w es fuel : set_ok self -> logged self w es -> manifest_size self w < 2 ^ 63 ->
  manifest_size self w + 8 <= Z.of_nat fuel ->
  exists self', VersionSet.recover fuel (VersionSet.new (VersionSet.dbname self) c, w) = (Ret tt, (self', w)) /\
    Version.files (VersionSet.current self') = Version.files (VersionSet.current self) /\
    VersionSet.compact_pointer self' = VersionSet.compact_pointer self /\
    VersionSet.log_number self' = VersionSet.log_number self /\ VersionSet.prev_log_number self' = VersionSet.prev_log_number self /\
    (forall e, last es = Some e -> is_Some (VersionEdit.last_sequence e) -> is_Some (VersionEdit.next_file_number e) ->
       VersionEdit.last_sequence e = Some (VersionSet.last_sequence self') /\
       VersionEdit.next_file_number e = Some (VersionSet.next_file_number self')) /\
    VersionSet.manifest_log self' = None /\ set_ok self' /\ VersionSet.dbname self' = VersionSet.dbname self /\
    VersionSet.recovered_comparator_name self' = last_field (fun e => Some <$> VersionEdit.comparator e) es None.
Proof.
  intros Hs [Hin Hcur Hed (b & R1 & R2 & R3 & R4 & R5) Hptr Hlog Hprev Hfl Hic] Hsz Hfuel.
  set (mp := manifest_path (VersionSet.dbname self) (VersionSet.manifest_file_number self)) in *.
  pose proof Hin as [Hwf Hn (lw & h & El & Ef & Ho & Hp & Hc & Hoff & Hb)].
  assert (Hmv : view w !! mp = Some (enc_records 0 (map encode_edit es)).1) by (rewrite view_lookup; fold mp in Hp; rewrite Hp; cbn; by rewrite Hc).
  unfold manifest_size in Hsz, Hfuel. fold mp in Hsz, Hfuel. rewrite Hmv in Hsz, Hfuel. cbn [default from_option id] in Hsz, Hfuel.
  set (data := (enc_records 0 (map encode_edit es)).1) in *.
  set (self0 := VersionSet.new (VersionSet.dbname self) c). unfold VersionSet.recover.
  erewrite action_bind_ret by reflexivity. cbn [fst id]. change (VersionSet.dbname self0) with (VersionSet.dbname self).
  change (path_new (current_file_name (VersionSet.dbname self))) with (current_path (VersionSet.dbname self)).
  erewrite action_bind_ret by (unfold VersionSet.on_env; cbn [read_file MemEnv_Env fst snd]; rewrite (read_viewed _ _ _ Hcur); reflexivity).
  destruct (read_current (VersionSet.dbname self) (VersionSet.manifest_file_number self)) as (str & Estr & Ename).
  erewrite action_bind_ret by (unfold lift; rewrite Estr; reflexivity). cbv zeta. rewrite Ename.
  change (path_new (VersionSet.dbname self +:+ "/" +:+ ("MANIFEST-" +:+ show06 (VersionSet.manifest_file_number self)))) with mp.
  assert (Eopen : Mem.new_sequential_file mp w = (Ret (Mem.mk_seq mp data 0), w)).
  { unfold Mem.new_sequential_file. erewrite action_bind_ret by (by apply read_viewed). done. }
  erewrite action_bind_ret by (unfold VersionSet.on_env; cbn [new_sequential_file MemEnv_Env fst snd]; rewrite Eopen; reflexivity).
  assert (Hcnt : Z.of_nat (length es) <= len data) by (unfold data; rewrite <- (length_map encode_edit); apply enc_records_count).
  destruct (recover_loop_ok fuel es fuel self0 w (LogSequentialReader.new (H:=MemEnv_Env) (Mem.mk_seq mp data 0)) (VersionBuilder.new (Version.new (mk_icmp c)))
    b false false) as (self1 & E1 & Hr); [|lia|apply (Forall_impl _ _ _ Hed); intros e He; apply He|by cbn|exact R1|].
  { rewrite <- (length_map encode_edit).
    apply (sequential_results (W:=MemEnv) (H:=MemEnv_Env) (seq_ok:=mem_seq_ok) (rest:=mem_rest) (Mem.mk_seq mp data 0) w fuel (map encode_edit es)).
    - split; cbn; [pose proof (len_nonneg data); lia|done].
    - done.
    - unfold mem_rest. cbn [Mem.sq_offset Mem.sq_data]. by rewrite zdrop_0. }
  erewrite action_bind_ret by exact E1. cbn [orb].
  assert (Hx1 : Exists (fun e => is_Some (VersionEdit.next_file_number e)) es) by (eapply Exists_impl; [exact Hfl|]; cbn; tauto).
  assert (Hx2 : Exists (fun e => is_Some (VersionEdit.last_sequence e)) es) by (eapply Exists_impl; [exact Hfl|]; cbn; tauto).
  rewrite (has_exists _ _ Hx1), (has_exists _ _ Hx2). cbn [andb negb].
  assert (Hedo : Forall edit_ok es) by (apply (Forall_impl _ _ _ Hed); intros e He; apply He).
  assert (Hbb : VersionBuilder.base b = Version.new (mk_icmp c)) by exact (replay_base es _ b Hedo (new_sized _) R1).
  assert (Hbo : builder_ok b).
  { destruct R2 as [Sd Sa]. split; [by rewrite Hbb|done|done|rewrite Hbb; cbn; repeat constructor|].
    apply Forall_lookup. intros i fs Hfs. assert (Ha : adds b i = fs) by (unfold adds; by rewrite Hfs).
    apply Forall_forall. intros f Hf. rewrite <- Ha, R4 in Hf. by eapply history_ok. }
  destruct (save_to_ok c ord b Hbo) as (v & Ev & Hvc & Hvl & Hvi).
  change (VersionSet.icmp self0) with (mk_icmp c). erewrite action_bind_ret by (unfold lift; rewrite Ev; reflexivity).
  erewrite action_bind_ret by reflexivity. eexists. split; [reflexivity|]. cbn [fst snd]. destruct Hr as [P1 P2 P3 P4 P5 P6 P7 P8 P9].
  assert (Hfs : Version.files v = Version.files (VersionSet.current self)).
  { apply list_eq. intros i. destruct (decide (i < Z.to_nat NUM_LEVELS)%nat) as [Hi|Hi]; [by rewrite Hvi, R5|].
    rewrite !lookup_ge_None_2 by (rewrite ?Hvl, ?(so_levels _ Hs); lia). done. }
  split_and!; cbn.
  - exact Hfs.
  - by rewrite P4.
  - by rewrite P5, Hlog.
  - by rewrite P6, Hprev.
  - intros e Hlast [x Hx] [y Hy]. rewrite P7, P8. apply last_Some in Hlast as (pre & ->). rewrite !last_field_snoc, Hx, Hy. done.
  - done.
  - destruct Hs as [S1 S2 S3 S4 S5 S6 S7 S8 S9 S10 S11]. split; cbn; rewrite ?Hfs; try done.
    + replace (VersionSet.compact_pointer self1) with (VersionSet.compact_pointer self); [done|]. by rewrite P4.
    + replace (VersionSet.compact_pointer self1) with (VersionSet.compact_pointer self); [done|]. by rewrite P4.
    + rewrite P7. apply (last_field_inv is_u64); [by unfold is_u64|]. apply (Forall_impl _ _ _ Hedo). intros e He. apply (ok_next _ He).
    + rewrite P8. apply (last_field_inv is_u64); [by unfold is_u64|]. apply (Forall_impl _ _ _ Hedo). intros e He. apply (ok_last _ He).
    + rewrite P5. change (VersionSet.log_number self0) with 0. by rewrite <- Hlog.
    + rewrite P6. change (VersionSet.prev_log_number self0) with 0. by rewrite <- Hprev.
  - by rewrite P1.
  - by rewrite P9.
Qed.
Lemma recover_ok self w es fuel : set_ok self -> logged self w es -> manifest_size self w < 2 ^ 63 ->
  manifest_size self w + 8 <= Z.of_nat fuel ->
  exists self' w', VersionSet.recover fuel (VersionSet.new (VersionSet.dbname self) c, w) = (Ret tt, (self', w')) /\
    Version.files (VersionSet.current self') = Version.files (VersionSet.current self) /\
    VersionSet.compact_pointer self' = VersionSet.compact_pointer self /\
    VersionSet.log_number self' = VersionSet.log_number self /\ VersionSet.prev_log_number self' = VersionSet.prev_log_number self /\
    (forall e, last es = Some e -> is_Some (VersionEdit.last_sequence e) -> is_Some (VersionEdit.next_file_number e) ->
       VersionEdit.last_sequence e = Some (VersionSet.last_sequence self') /\
       VersionEdit.next_file_number e = Some (VersionSet.next_file_number self')) /\
    VersionSet.manifest_log self' = None.
Proof.
  intros Hs Hl H1 H2. destruct (recover_full self w es fuel Hs Hl H1 H2) as (self' & E & F1 & F2 & F3 & F4 & F5 & F6 & _). by exists self', w.
Qed.

(** *** A life of a version set *)

Inductive op := OpLog (e : VersionEdit.t) | OpNumber | OpSequence (s : Z).
Definition run_op (o : op) : action (set * MemEnv) unit :=
  match o with
  | OpLog e => VersionSet.log_and_apply e
  | OpNumber => VersionSet.modify (fun self => (VersionSet.new_file_number self).2)
  | OpSequence s => VersionSet.modify (VersionSet.set_last_sequence s)
  end.
Fixpoint run_ops (os : list op) : action (set * MemEnv) unit :=
  match os with [] => mret tt | o :: os => _ ← run_op o; run_ops os end.
Definition op_fit (o : op) : Prop := match o with OpLog e => edit_fit e | OpNumber => True | OpSequence s => is_u64 s end.
Definition logged_edits (os : list op) : list VersionEdit.t := omap (fun o => match o with OpLog e => Some e | _ => None end) os.
(** No level gets two files with one number. *)
Definition numbers_fresh (os : list op) (seen : nat -> gset Z) : Prop :=
  forall i, NoDup (map FileMetaData.number (history (logged_edits os) i)) /\ numbers (history (logged_edits os) i) ## seen i.

Record alive dbname self w es : Prop := {
  al_ok : set_ok self;
  al_usable : usable self w es;
  al_dbname : VersionSet.dbname self = dbname;
}.

Lemma numbers_NoDup_app (fs gs : list FileMeta) : NoDup (map FileMetaData.number (fs ++ gs)) ->
  NoDup (map FileMetaData.number gs) /\ numbers gs ## numbers fs.
Proof.
  rewrite map_app, NoDup_app. intros (_ & Hd & Hn). split; [done|]. intros x. unfold numbers.
  rewrite !elem_of_list_to_set. intros Hg Hf. by apply (Hd x).
Qed.

Lemma run_op_ok dbname o self w es : alive dbname self w es -> op_fit o -> numbers_fresh [o] (known self es) ->
  exists self' w' es', run_op o (self, w) = (Ret tt, (self', w')) /\ alive dbname self' w' es' /\
    (forall i, known self' es' i ⊆ known self es i ∪ numbers (history (logged_edits [o]) i)) /\
    match o with OpLog e => last es' = Some (VersionSet.stash_edit self e) /\ logged self' w' es' | _ => es' = es end.
Proof.
  intros [Hs Hu Hdb] Ho Hf. destruct o as [e| |s]; cbn [run_op].
  - destruct (log_and_apply_ok self w e es Hs Ho Hu) as (self' & w' & es' & E & Hs' & Hl & Hdb' & _ & Hlast & Hk).
    { intros i. destruct (Hf i) as [_ Hd]. unfold history in Hd. cbn in Hd. by rewrite app_nil_r in Hd. }
    exists self', w', es'. split_and!; try done; [split; [done|by right|congruence]|].
    intros i. unfold history. cbn. rewrite app_nil_r. apply Hk.
  - eexists _, w, es. split; [reflexivity|]. split_and!; [|intros i; set_solver +|done]. split; [|destruct Hu as [?|[? ? ? ? ? ? ? ? ?]]|done].
    + destruct Hs. split; cbn; try done. apply as_u64_range.
    + by left.
    + right. split; try done. by destruct lg_in0.
  - eexists _, w, es. split; [reflexivity|]. split_and!; [|intros i; set_solver +|done]. split; [|destruct Hu as [?|[? ? ? ? ? ? ? ? ?]]|done].
    + destruct Hs. by split.
    + by left.
    + right. split; try done. by destruct lg_in0.
Qed.

Lemma logged_edits_cons o os : logged_edits (o :: os) = logged_edits [o] ++ logged_edits os.
Proof. unfold logged_edits. destruct o; done. Qed.
Lemma history_app a b i : history (a ++ b) i = history a i ++ history b i.
Proof. unfold history. by rewrite map_app, concat_app. Qed.
Lemma numbers_fresh_cons o os seen : numbers_fresh (o :: os) seen -> numbers_fresh [o] seen /\
  forall seen', (forall i, seen' i ⊆ seen i ∪ numbers (history (logged_edits [o]) i)) -> numbers_fresh os seen'.
Proof.
  intros Hf. split.
  - intros i. destruct (Hf i) as [Hn Hd]. rewrite logged_edits_cons, history_app in Hn, Hd. rewrite numbers_app in Hd. split; [|set_solver].
    rewrite map_app in Hn. by apply NoDup_app in Hn as [? _].
  - intros seen' Hs i. destruct (Hf i) as [Hn Hd]. rewrite logged_edits_cons, history_app in Hn, Hd. rewrite numbers_app in Hd.
    apply numbers_NoDup_app in Hn as [Hn Hx]. split; [done|]. specialize (Hs i). revert Hx Hd Hs. clear. set_solver.
Qed.

Lemma union_grows (a b d x y : gset Z) : b ⊆ a ∪ x -> d ⊆ b ∪ y -> d ⊆ a ∪ (x ∪ y).
Proof. set_solver. Qed.

Lemma logged_counters self w es : logged self w es ->
  logged (VersionSet.new_file_number self).2 w es /\ forall s, logged (VersionSet.set_last_sequence s self) w es.
Proof. intros [[] ? ? ? ? ? ? ? ?]. split; [|intros s]; (split; [split; assumption|assumption..]). Qed.

Lemma run_ops_ok dbname os : forall self w es, alive dbname self w es -> Forall op_fit os -> numbers_fresh os (known self es) ->
  exists self' w' es', run_ops os (self, w) = (Ret tt, (self', w')) /\ alive dbname self' w' es' /\
    (forall i, known self' es' i ⊆ known self es i ∪ numbers (history (logged_edits os) i)) /\
    (logged_edits os = [] -> es' = es /\ (logged self w es -> logged self' w' es' )).
Proof.
  induction os as [|o os IH]; intros self w es Ha Ho Hf.
  { exists self, w, es. split_and!; [done|done|set_solver +|done]. }
  apply Forall_cons in Ho as [Ho Hos]. destruct (numbers_fresh_cons _ _ _ Hf) as [Hf1 Hf2].
  destruct (run_op_ok dbname o self w es Ha Ho Hf1) as (self1 & w1 & es1 & E1 & Ha1 & Hk1 & Hm).
  destruct (IH self1 w1 es1 Ha1 Hos (Hf2 _ Hk1)) as (self2 & w2 & es2 & E2 & Ha2 & Hk2 & Hn2).
  exists self2, w2, es2. cbn [run_ops]. erewrite action_bind_ret by exact E1. split_and!; [done|done| |].
  - intros i. rewrite logged_edits_cons, history_app, numbers_app. exact (union_grows _ _ _ _ _ (Hk1 i) (Hk2 i)).
  - intros Hnil. destruct o as [e| |s]; [done|..]; cbn in Hnil, Hm; subst es1.
    all: destruct (Hn2 Hnil) as [-> Hl]; split; [done|]; intros Hlg; apply Hl.
    all: cbn [run_op] in E1; injection E1 as <- <-; clear -Hlg; by apply logged_counters.
Qed.

Lemma new_alive dbname w : mem_wf w -> alive dbname (VersionSet.new dbname c) w [].
Proof.
  intros Hw. split; [|by left|done]. split; cbn; try done; try (by repeat constructor).
  intros i fs Hfs. apply (lookup_replicate (Z.to_nat NUM_LEVELS) []) in Hfs as [-> _]. constructor.
Qed.
End manifest.

(** ** Claims *)

(** C18: (manifest round trip) Run a sequence of logged edits that fit, number allocations and
    sequence updates on a new version set in the in-memory environment, without ever giving
    a level two files of one number.  Every call succeeds, and recovering the directory
    afterwards rebuilds the files of every level, the compaction pointers and the log
    numbers; the last sequence number and the next file number come back as they stood just
    before the last edit was logged, not as they are after it. *)
Theorem manifest_recovers {C} `{Comparator C} (c : C) ord `{!ComparatorLaws c (fun _ => True) ord} dbname w before e after fuel :
  is_u32 (len (list_byte_of_string (cmp_name c))) -> mem_wf w -> logged_edits after = [] ->
  Forall op_fit (before ++ OpLog e :: after) -> numbers_fresh (before ++ OpLog e :: after) (fun _ => ∅) ->
  exists self1 w1 self w', run_ops before (VersionSet.new dbname c, w) = (Ret tt, (self1, w1)) /\
    run_ops (OpLog e :: after) (self1, w1) = (Ret tt, (self, w')) /\
    (manifest_size self w' < 2 ^ 63 -> manifest_size self w' + 8 <= Z.of_nat fuel ->
     exists self2 w2, VersionSet.recover fuel (VersionSet.new dbname c, w') = (Ret tt, (self2, w2)) /\
       Version.files (VersionSet.current self2) = Version.files (VersionSet.current self) /\
       VersionSet.compact_pointer self2 = VersionSet.compact_pointer self /\
       VersionSet.log_number self2 = VersionSet.log_number self /\ VersionSet.prev_log_number self2 = VersionSet.prev_log_number self /\
       VersionSet.last_sequence self2 = VersionSet.last_sequence self1 /\
       VersionSet.next_file_number self2 = VersionSet.next_file_number self1).
Proof.
  intros Hname Hwf Hafter Hfit Hfr. apply Forall_app in Hfit as [Hf1 Hf2]. apply Forall_cons in Hf2 as [He Hf2].
  pose proof (new_alive c ord dbname w Hwf) as Ha.
  assert (Hsplit : numbers_fresh before (fun _ => ∅) /\ forall seen, (forall i, seen i ⊆ numbers (history (logged_edits before) i)) -> numbers_fresh (OpLog e :: after) seen).
  { assert (Hap : forall i, history (logged_edits (before ++ OpLog e :: after)) i = history (logged_edits before) i ++ history (logged_edits (OpLog e :: after)) i).
    { intros i. unfold logged_edits. rewrite omap_app. apply history_app. }
    split; [|intros seen Hs]; intros i; destruct (Hfr i) as [Hn Hd]; rewrite Hap in Hn, Hd; rewrite numbers_app in Hd.
    - split; [|set_solver]. rewrite map_app in Hn. by apply NoDup_app in Hn as [? _].
    - apply numbers_NoDup_app in Hn as [Hn Hx]. split; [done|]. specialize (Hs i). revert Hx Hd Hs. clear. set_solver. }
  destruct Hsplit as [Hfb Hfa].
  assert (Hk0 : forall i, known (VersionSet.new dbname c) [] i = ∅).
  { intros i. unfold known. cbn [VersionSet.new VersionSet.current]. rewrite (base_empty c). done. }
  destruct (run_ops_ok c ord Hname dbname before _ w [] Ha Hf1) as (self1 & w1 & es1 & E1 & Ha1 & Hk1 & _).
  { intros i. rewrite Hk0. apply Hfb. }
  assert (Hfa1 : numbers_fresh (OpLog e :: after) (known self1 es1)).
  { apply Hfa. intros i. specialize (Hk1 i). rewrite Hk0 in Hk1. set_solver. }
  destruct (numbers_fresh_cons c ord Hname _ _ _ Hfa1) as [Hg1 Hg2].
  destruct (run_op_ok c ord Hname dbname (OpLog e) self1 w1 es1 Ha1 He Hg1) as (self2 & w2 & es2 & E2 & Ha2 & Hk2 & Hlast & Hlg).
  destruct (run_ops_ok c ord Hname dbname after self2 w2 es2 Ha2 Hf2 (Hg2 _ Hk2)) as (self3 & w3 & es3 & E3 & Ha3 & _ & Hsame).
  destruct (Hsame Hafter) as [-> Hlg3]. exists self1, w1, self3, w3. split; [exact E1|].
  split; [change (run_ops (OpLog e :: after)) with (_ ← run_op (OpLog e); run_ops after); erewrite action_bind_ret by exact E2; exact E3|].
  intros Hsz Hfuel.
  destruct (recover_ok c ord self3 w3 es2 fuel (al_ok _ _ _ _ _ _ Ha3) (Hlg3 Hlg) Hsz Hfuel)
    as (self4 & w4 & E4 & F1 & F2 & F3 & F4 & F5 & _).
  rewrite (al_dbname _ _ _ _ _ _ Ha3) in E4. destruct (F5 _ Hlast) as [G1 G2]; [by eexists..|].
  exists self4, w4. injection G1 as G1. injection G2 as G2. by split_and!.
Qed.

Definition sample_edit : VersionEdit.t := VersionEdit.mk None (Some 4) None None None [] [] [mk_new 1 (sample_meta 3)].

Lemma manifest_recovers_witness :
  logged_edits [OpSequence 7] = [] /\
  exists self1 w1 self w', run_ops [OpNumber; OpSequence 5] (VersionSet.new "db" Bytewise, Mem.new) = (Ret tt, (self1, w1)) /\
    run_ops [OpLog sample_edit; OpSequence 7] (self1, w1) = (Ret tt, (self, w')) /\
    (manifest_size self w' < 2 ^ 63 -> manifest_size self w' + 8 <= Z.of_nat 500 ->
     exists self2 w2, VersionSet.recover 500 (VersionSet.new "db" Bytewise, w') = (Ret tt, (self2, w2)) /\
       Version.files (VersionSet.current self2) = Version.files (VersionSet.current self) /\
       VersionSet.compact_pointer self2 = VersionSet.compact_pointer self /\
       VersionSet.log_number self2 = VersionSet.log_number self /\ VersionSet.prev_log_number self2 = VersionSet.prev_log_number self /\
       VersionSet.last_sequence self2 = VersionSet.last_sequence self1 /\
       VersionSet.next_file_number self2 = VersionSet.next_file_number self1).
Proof.
  split; [done|].
  apply (manifest_recovers Bytewise bytes_cmp "db" Mem.new [OpNumber; OpSequence 5] sample_edit [OpSequence 7] 500).
  - by vm_compute.
  - apply new_wf.
  - done.
  - repeat constructor; by vm_compute.
  - intros i. unfold logged_edits, history, edit_new. cbn.
    split; [|apply disjoint_empty_r]. destruct (match Z.of_nat i with Z.pos q => _ | _ => _ end); cbn; repeat constructor. intros Hx. by apply elem_of_nil in Hx.
Defined.
