(* ===== verification/VersionAdd.v ===== *)
(** * VersionAdd.v: one more file in a version.

    A table of newer entries is added to a well-formed version, at level 0 or, where no
    file down to the level touches its range, deeper; the version stays well-formed and
    holds the entries of both.  [pick_level_for_memtable_output] returns such a level. *)
From S2P Require Import Prelude Status Coding Comparator Format Sort TableCorrect Newest VersionEdit Version VersionCorrect VersionSet VersionSetCorrect DbIterator.

(** ** A version with one more file *)

(** Any two different places of a list. *)
Definition pairwise {A} (R : A -> A -> Prop) (l : list A) : Prop :=
  forall i j a b, i <> j -> l !! i = Some a -> l !! j = Some b -> R a b.
Lemma pairwise_perm {A} (R : A -> A -> Prop) l l' : l' ≡ₚ l -> pairwise R l -> pairwise R l'.
Proof.
  intros [_ (f & Hf & Hl)]%Permutation_inj Hp i j a b Hij Ha Hb. apply (Hp (f i) (f j)); [|by rewrite <- Hl..].
  intros E%Hf. done.
Qed.
Lemma levels_newer_iff ess : levels_newer ess <-> forall i j a b, (i < j)%nat -> ess !! i = Some a -> ess !! j = Some b -> newer a b.
Proof.
  induction ess as [|es ess IH]; cbn [levels_newer]; [split; [intros _ i j a b _ Ha; by rewrite lookup_nil in Ha|done]|]. rewrite IH. split.
  - intros [Hn H] [|i] [|j] a b Hij Ha Hb; cbn in Ha, Hb; [lia| |lia|by apply (H i j); [lia|..]]. injection Ha as <-.
    intros x y Hx Hy. apply Hn; [done|]. apply list_elem_of_In, in_concat. exists b. split; [apply list_elem_of_In; by eapply list_elem_of_lookup_2|by apply list_elem_of_In].
  - intros H. split; [|intros i j a b Hij Ha Hb; by apply (H (S i) (S j)); [lia|..]].
    intros x y Hx Hy. apply list_elem_of_In, in_concat in Hy as (b & Hb%list_elem_of_In & Hy%list_elem_of_In).
    apply list_elem_of_lookup in Hb as [j Hj]. by apply (H 0%nat (S j) es b ltac:(lia) eq_refl Hj).
Qed.

Section add_file.
Context {C : Type} `{Comparator C} (c : C) (ord : bytes -> bytes -> comparison) `{!ComparatorLaws c (fun _ => True) ord}.
Abbreviation iord := (ik_ord ord) (only parsing).
#[local] Instance add_user_total : TotalOrd ord := laws_ord (c:=c).
Implicit Types (f g : FileMeta) (fs : list FileMeta).

(** Files whose ranges lie apart, either way round. *)
Definition apart f g : Prop := iord (FileMetaData.largest f) (FileMetaData.smallest g) = Lt \/ iord (FileMetaData.largest g) (FileMetaData.smallest f) = Lt.
Lemma user_lt a b : ord (ukey a) (ukey b) = Lt -> iord a b = Lt.
Proof. unfold ik_ord. by intros ->. Qed.
Lemma miss_apart f g : hits ord (Some (lo f)) (Some (hi f)) g = false -> apart g f.
Proof.
  unfold hits, not_before, not_after. intros [Hb%negb_false_iff|Ha%negb_false_iff]%andb_false_iff.
  - left. apply user_lt. unfold hi, lo in Hb. by destruct (ord _ _).
  - right. apply user_lt. unfold hi, lo in Ha. destruct (ord _ _) eqn:E; [done..|]. by apply ord_gt_lt.
Qed.
Lemma apart_disjoint fs : Forall (fun f => iord (FileMetaData.smallest f) (FileMetaData.largest f) <> Gt) fs -> ord_sorted (by_smallest ord) fs ->
  pairwise apart fs -> level_disjoint ord fs.
Proof.
  intros Hr Hs Hp i j a b Hij Ha Hb. destruct (Hp i j a b ltac:(lia) Ha Hb) as [|Hba]; [done|]. exfalso.
  pose proof (ord_sorted_lookup (by_smallest ord) fs i j a b Hs Hij Ha Hb) as Hle. unfold by_smallest in Hle.
  rewrite Forall_lookup in Hr. pose proof (Hr _ _ Hb) as Hrb. cbn in Hrb.
  pose proof (ord_le_lt_trans (ord:=iord) _ _ _ Hrb Hba) as Hlt. apply Hle. by apply (ord_gt_lt (ord:=iord)).
Qed.
Lemma disjoint_apart fs : level_disjoint ord fs -> pairwise apart fs.
Proof.
  intros Hd i j a b Hij Ha Hb. destruct (decide (i < j)%nat) as [Hlt|]; [left; by apply (Hd i j)|right; apply (Hd j i); [lia|done..]].
Qed.

Context (con con' : Z -> list entry) (v v' : Version.t C) (L : nat) (f : FileMeta) (es : list entry) (old new : list FileMeta).
Context (Hwf : version_wf c ord con v) (Hcmp : Version.comparator v' = mk_icmp c) (Hlen : length (Version.files v') = Z.to_nat NUM_LEVELS)
  (Hsame : forall i, (i < Z.to_nat NUM_LEVELS)%nat -> i <> L -> Version.files v' !! i = Version.files v !! i)
  (Hold : Version.files v !! L = Some old) (Hnew : Version.files v' !! L = Some new) (Hperm : new ≡ₚ f :: old)
  (Hsorted : ord_sorted (level_order ord L) new)
  (Hcon : con' (FileMetaData.number f) = es)
  (Hkeep : forall i fs g, Version.files v !! i = Some fs -> g ∈ fs -> con' (FileMetaData.number g) = con (FileMetaData.number g) /\ FileMetaData.number g < FileMetaData.number f)
  (Hf : file_holds ord f es) (Hnewer : newer es (version_entries con v))
  (Hmiss : (0 < L)%nat -> forall i fs g, (i <= L)%nat -> Version.files v !! i = Some fs -> g ∈ fs -> hits ord (Some (lo f)) (Some (hi f)) g = false).

Lemma in_level i fs g : Version.files v' !! i = Some fs -> g ∈ fs ->
  (i = L /\ g = f) \/ exists fs0, Version.files v !! i = Some fs0 /\ g ∈ fs0 /\ VersionCorrect.holds ord con' g.
Proof.
  intros Hfs Hg. assert (Hi : (i < Z.to_nat NUM_LEVELS)%nat) by (apply lookup_lt_Some in Hfs; lia).
  assert (Hh : forall fs0, Version.files v !! i = Some fs0 -> g ∈ fs0 -> VersionCorrect.holds ord con' g).
  { intros fs0 Hfs0 Hg0. unfold VersionCorrect.holds. rewrite (proj1 (Hkeep i fs0 g Hfs0 Hg0)).
    pose proof (proj1 (Forall_lookup _ _) (wf_holds _ _ _ _ Hwf) _ _ Hfs0) as Hl. rewrite Forall_forall in Hl. by apply Hl. }
  destruct (decide (i = L)) as [->|Hne].
  - rewrite Hnew in Hfs. injection Hfs as <-. rewrite Hperm in Hg. apply elem_of_cons in Hg as [->|Hg]; [by left|right]. exists old. split_and!; [done|done|by apply (Hh old)].
  - right. rewrite Hsame in Hfs by done. exists fs. split_and!; [done|done|by apply (Hh fs)].
Qed.
Lemma stored_entry i fs0 g e : Version.files v !! i = Some fs0 -> g ∈ fs0 -> e ∈ con (FileMetaData.number g) -> e ∈ stored_in con fs0 /\ e ∈ version_entries con v.
Proof.
  intros Hfs Hg He. assert (Hs : e ∈ stored_in con fs0) by (apply stored_in_elem; by exists g). split; [done|].
  apply list_elem_of_In, in_concat. exists (stored_in con fs0). split; [|by apply list_elem_of_In]. apply in_map, list_elem_of_In. by eapply list_elem_of_lookup_2.
Qed.
Lemma con_old i fs0 g : Version.files v !! i = Some fs0 -> g ∈ fs0 -> con' (FileMetaData.number g) = con (FileMetaData.number g).
Proof. intros Hfs Hg. by apply (Hkeep i fs0). Qed.
(** A key of the new file is in no file above it. *)
Lemma not_above i fs0 g x y : (0 < L)%nat -> (i <= L)%nat -> Version.files v !! i = Some fs0 -> g ∈ fs0 -> x ∈ con (FileMetaData.number g) -> y ∈ es -> ukey x.1 <> ukey y.1.
Proof.
  intros HL Hi Hfs Hg Hx Hy E. pose proof (Hmiss HL i fs0 g Hi Hfs Hg) as Hm.
  pose proof (proj1 (Forall_lookup _ _) (wf_holds _ _ _ _ Hwf) _ _ Hfs) as Hl. rewrite Forall_forall in Hl. pose proof (Hl g Hg) as Hgh.
  pose proof (ik_user_le ord _ _ (fh_lower _ _ _ Hgh x Hx)) as H1. pose proof (ik_user_le ord _ _ (fh_upper _ _ _ Hgh x Hx)) as H2.
  pose proof (ik_user_le ord _ _ (fh_lower _ _ _ Hf y Hy)) as H3. pose proof (ik_user_le ord _ _ (fh_upper _ _ _ Hf y Hy)) as H4.
  rewrite E in H1, H2. pose proof (ord_le_trans (ord:=ord) _ _ _ H3 H2) as H5. pose proof (ord_le_trans (ord:=ord) _ _ _ H1 H4) as H6.
  unfold hits, not_before, not_after, lo, hi in Hm. apply andb_false_iff in Hm as [Hm%negb_false_iff|Hm%negb_false_iff].
  - apply H5. destruct (ord (ukey (FileMetaData.largest g)) _) eqn:Eo; [done| |done]. by apply (ord_gt_lt (ord:=ord)).
  - apply H6. by destruct (ord _ _).
Qed.
Lemma range_ok g es' : file_holds ord g es' -> iord (FileMetaData.smallest g) (FileMetaData.largest g) <> Gt.
Proof. intros [_ _ _ Hlow _ [x Hx]]. exact (Hlow _ Hx). Qed.
Lemma entries_added e : e ∈ version_entries con' v' <-> e ∈ es \/ e ∈ version_entries con v.
Proof.
  unfold version_entries at 1. split.
  - intros He. apply list_elem_of_In, in_concat in He as (l & (fs & <- & [i Hi]%list_elem_of_In%list_elem_of_lookup)%in_map_iff & He%list_elem_of_In).
    apply stored_in_elem in He as (g & Hg & He). destruct (in_level i fs g Hi Hg) as [[-> ->]|(fs0 & Hfs0 & Hg0 & _)]; [left; by rewrite <- Hcon|right].
    rewrite (con_old i fs0) in He by done. by apply (stored_entry i fs0 g).
  - assert (Hin : forall i fs g, Version.files v' !! i = Some fs -> g ∈ fs -> e ∈ con' (FileMetaData.number g) -> e ∈ concat (map (stored_in con') (Version.files v'))).
    { intros i fs g Hfs Hg He. apply list_elem_of_In, in_concat. exists (stored_in con' fs). split; [apply in_map, list_elem_of_In; by eapply list_elem_of_lookup_2|].
      apply list_elem_of_In, stored_in_elem. by exists g. }
    intros [He|He]; [apply (Hin L new f Hnew); [rewrite Hperm; left|by rewrite Hcon]|].
    apply list_elem_of_In, in_concat in He as (l & (fs & <- & [i Hi]%list_elem_of_In%list_elem_of_lookup)%in_map_iff & He%list_elem_of_In).
    apply stored_in_elem in He as (g & Hg & He). rewrite <- (con_old i fs g Hi Hg) in He. destruct (decide (i = L)) as [->|Hne].
    + apply (Hin L new g Hnew); [|done]. rewrite Hperm. rewrite Hold in Hi. injection Hi as <-. by right.
    + apply (Hin i fs g); [|done..]. rewrite Hsame; [done| |done]. apply lookup_lt_Some in Hi. rewrite (wf_levels _ _ _ _ Hwf) in Hi. done.
Qed.

Lemma newer_added i j a b x y : (i < j)%nat -> Version.files v' !! i = Some a -> Version.files v' !! j = Some b ->
  x ∈ stored_in con' a -> y ∈ stored_in con' b -> ukey x.1 = ukey y.1 -> utag y.1 <= utag x.1.
Proof.
  intros Hij Ha Hb (g & Hg & Hx)%stored_in_elem (k & Hk & Hy)%stored_in_elem Hu.
  destruct (in_level i a g Ha Hg) as [[-> ->]|(a0 & Ha0 & Hg0 & _)].
  - destruct (in_level j b k Hb Hk) as [[? _]|(b0 & Hb0 & Hk0 & _)]; [lia|]. rewrite (con_old j b0) in Hy by done. rewrite Hcon in Hx.
    apply (Hnewer x y Hx); [|done]. by apply (stored_entry j b0 k).
  - rewrite (con_old i a0) in Hx by done. destruct (in_level j b k Hb Hk) as [[-> ->]|(b0 & Hb0 & Hk0 & _)].
    + rewrite Hcon in Hy. destruct (not_above i a0 g x y ltac:(lia) ltac:(lia) Ha0 Hg0 Hx Hy Hu).
    + rewrite (con_old j b0) in Hy by done. pose proof (wf_newer _ _ _ _ Hwf) as Hn. rewrite levels_newer_iff in Hn.
      apply (Hn i j (stored_in con a0) (stored_in con b0) Hij); [by rewrite list_lookup_fmap, Ha0|by rewrite list_lookup_fmap, Hb0|..|done].
      * by apply (stored_entry i a0 g).
      * by apply (stored_entry j b0 k).
Qed.
Lemma disjoint_added i fs : Version.files v' !! i = Some fs -> (0 < i)%nat -> level_disjoint ord fs.
Proof.
  intros Hfs Hi. assert (Hdis : forall fs0, Version.files v !! i = Some fs0 -> level_disjoint ord fs0).
  { intros fs0 Hfs0. pose proof (wf_disjoint _ _ _ _ Hwf) as Hd. rewrite Forall_lookup in Hd. apply (Hd (i - 1)%nat). rewrite lookup_drop.
    by replace (1 + (i - 1))%nat with i by lia. }
  destruct (decide (i = L)) as [->|Hne].
  2: { apply Hdis. rewrite <- Hsame; [done| |done]. apply lookup_lt_Some in Hfs. by rewrite <- Hlen. }
  rewrite Hnew in Hfs. injection Hfs as <-. apply apart_disjoint.
  - apply Forall_forall. intros g Hg. destruct (in_level L new g Hnew Hg) as [[_ ->]|(fs0 & _ & _ & Hh)]; by eapply range_ok.
  - destruct L as [|L']; [lia|]. exact Hsorted.
  - apply (pairwise_perm apart _ _ Hperm). pose proof (disjoint_apart _ (Hdis _ Hold)) as Hp.
    assert (Hfa : forall g, g ∈ old -> apart g f) by (intros g Hg; apply miss_apart, (Hmiss Hi L old g); done).
    intros [|k] [|j] a b Hkj Ha Hb; cbn in Ha, Hb; simplify_eq.
    + apply list_elem_of_lookup_2, Hfa in Hb. destruct Hb; [by right|by left].
    + by apply list_elem_of_lookup_2, Hfa in Ha.
    + apply (Hp k j); [lia|done..].
Qed.
Lemma added_wf : version_wf c ord con' v'.
Proof.
  split; [done|done| | | | |].
  - apply Forall_lookup. intros i fs Hfs. apply Forall_forall. intros g Hg.
    destruct (in_level i fs g Hfs Hg) as [[_ ->]|(fs0 & _ & _ & Hh)]; [|done]. unfold VersionCorrect.holds. by rewrite Hcon.
  - apply Forall_lookup. intros i fs Hfs. rewrite lookup_drop in Hfs. by apply (disjoint_added (1 + i)); [|lia].
  - intros l0 Hl0. destruct (decide (L = 0%nat)) as [HL|Hne].
    + assert (Hn0 : Version.files v' !! 0%nat = Some new) by by rewrite <- HL. assert (Ho0 : Version.files v !! 0%nat = Some old) by by rewrite <- HL.
      rewrite Hn0 in Hl0. injection Hl0 as <-. rewrite Hperm. cbn. constructor; [|by apply (wf_numbers _ _ _ _ Hwf)].
      intros (g & E & Hg)%list_elem_of_fmap. destruct (Hkeep 0%nat old g Ho0 Hg) as [_ Hlt]. lia.
    + assert (Hz : (0 < Z.to_nat NUM_LEVELS)%nat) by (by apply Nat.ltb_lt). rewrite Hsame in Hl0 by first [exact Hz|by intros <-]. by apply (wf_numbers _ _ _ _ Hwf).
  - intros l0 a b Hl0 Ha Hb Hlt. destruct (in_level 0 l0 a Hl0 Ha) as [[E0 ->]|(fa & Hfa & Ha0 & _)];
      destruct (in_level 0 l0 b Hl0 Hb) as [[E ->]|(fb & Hfb & Hb0 & _)].
    + lia.
    + rewrite Hcon, (con_old 0 fb b Hfb Hb0). intros x y Hx Hy. apply (Hnewer x y Hx). by apply (stored_entry 0 fb b).
    + destruct (Hkeep 0 fa a Hfa Ha0). lia.
    + rewrite (con_old 0 fa a Hfa Ha0), (con_old 0 fb b Hfb Hb0). rewrite Hfa in Hfb. injection Hfb as <-. by apply (wf_level0 _ _ _ _ Hwf fa).
  - apply levels_newer_iff. intros i j a b Hij Ha Hb x y Hx Hy Hu. rewrite list_lookup_fmap in Ha, Hb.
    destruct (Version.files v' !! i) as [fa|] eqn:Ea; [|done]. destruct (Version.files v' !! j) as [fb|] eqn:Eb; [|done].
    injection Ha as <-. injection Hb as <-. by apply (newer_added i j fa fb).
Qed.
End add_file.

(** ** The level of a new table *)

Section pick.
Context {C : Type} `{Comparator C} (c : C) (ord : bytes -> bytes -> comparison) `{!ComparatorLaws c (fun _ => True) ord}.
Context (v : Version.t C) (Hcmp : Version.comparator v = mk_icmp c) (Hlen : length (Version.files v) = Z.to_nat NUM_LEVELS)
  (Hok : Forall (Forall file_ok) (Version.files v)) (s l : bytes).

(** No file of the level touches the range. *)
Definition untouched (i : nat) : Prop := forall fs g, Version.files v !! i = Some fs -> g ∈ fs -> hits ord (Some s) (Some l) g = false.
Lemma query_level (i : nat) : (i < Z.to_nat NUM_LEVELS)%nat ->
  exists r, Version.get_overlapping_inputs v (Z.of_nat i) (Some s) (Some l) = Ret r /\ (r = [] -> untouched i).
Proof using Type*.
  intros Hi. destruct (lookup_lt_is_Some_2 (Version.files v) i ltac:(lia)) as [fs Hfs].
  assert (Hlf : Version.level_files v (Z.of_nat i) = Ret fs) by (apply index_lookup_ok; [lia|by rewrite Nat2Z.id]).
  destruct (query_empty c ord v (Z.of_nat i) fs Hcmp Hlf) with (ub := s) (ue := l) as (r & E & _ & Hall & _).
  { by apply (proj1 (Forall_lookup _ _) Hok i). }
  exists r. split; [done|]. intros -> fs' g Hfs' Hg. rewrite Hfs in Hfs'. injection Hfs' as <-. destruct (hits ord _ _ g) eqn:Eh; [|done].
  by apply (Hall g Hg), elem_of_nil in Eh.
Qed.
Lemma overlap_level (i : nat) : (i < Z.to_nat NUM_LEVELS)%nat ->
  exists o, Version.overlap_in_level v (Z.of_nat i) (Some s) (Some l) = Ret o /\ (o = false -> untouched i).
Proof using Type*.
  intros Hi. destruct (query_level i Hi) as (r & E & Hr). unfold Version.overlap_in_level. rewrite E. eexists. split; [reflexivity|].
  intros Ho%negb_false_iff%bool_decide_eq_true. by apply Hr.
Qed.
Lemma pick_level_loop_ok fuel : forall n : nat, (n + fuel = Z.to_nat MAX_MEM_COMPACT_LEVEL)%nat -> (forall i, (i <= n)%nat -> untouched i) ->
  exists k : nat, Version.pick_level_loop fuel v s l (Z.of_nat n) = Ret (Z.of_nat k) /\ (k <= Z.to_nat MAX_MEM_COMPACT_LEVEL)%nat /\
    forall i, (i <= k)%nat -> untouched i.
Proof using Type*.
  assert (HM : Z.to_nat MAX_MEM_COMPACT_LEVEL = 2%nat) by done. assert (HN : Z.to_nat NUM_LEVELS = 7%nat) by done. rewrite HM.
  induction fuel as [|fuel IH]; intros n Hn Hun; cbn [Version.pick_level_loop]; unfold MAX_MEM_COMPACT_LEVEL.
  { rewrite (proj2 (Z.ltb_ge _ _)) by lia. exists n. split_and!; [done|lia|done]. }
  rewrite (proj2 (Z.ltb_lt _ _)) by lia. replace (Z.of_nat n + 1) with (Z.of_nat (S n)) by lia.
  destruct (overlap_level (S n) ltac:(lia)) as (o & -> & Ho). cbn [mbind outcome_bind].
  assert (Hstop : exists k : nat, Ret (Z.of_nat n) = Ret (Z.of_nat k) /\ (k <= 2)%nat /\ forall i, (i <= k)%nat -> untouched i) by (exists n; split_and!; [done|lia|done]).
  destruct o; [exact Hstop|]. rewrite (proj2 (Z.ltb_lt (Z.of_nat n + 2) NUM_LEVELS)) by (unfold NUM_LEVELS; lia).
  replace (Z.of_nat n + 2) with (Z.of_nat (n + 2)) by lia. destruct (query_level (n + 2) ltac:(lia)) as (r & -> & _). cbn [mbind outcome_bind].
  destruct (_ >? _); [exact Hstop|]. apply IH; [lia|]. intros i Hi. destruct (decide (i = S n)) as [->|]; [by apply Ho|apply Hun; lia].
Qed.
Lemma pick_level_ok : exists k : nat, Version.pick_level_for_memtable_output v s l = Ret (Z.of_nat k) /\
  (k <= Z.to_nat MAX_MEM_COMPACT_LEVEL)%nat /\ ((0 < k)%nat -> forall i, (i <= k)%nat -> untouched i).
Proof using Type*.
  unfold Version.pick_level_for_memtable_output. destruct (overlap_level 0 ltac:(by apply Nat.ltb_lt)) as (o & Eo & Ho).
  change (Z.of_nat 0) with 0 in Eo. rewrite Eo. cbn [mbind outcome_bind]. destruct o; [exists 0%nat; split_and!; [done|lia|lia]|].
  destruct (pick_level_loop_ok (Z.to_nat MAX_MEM_COMPACT_LEVEL) 0) as (k & E & Hk & Hun); [done|intros i Hi; replace i with 0%nat by lia; by apply Ho|].
  exists k. split_and!; [exact E|done|done].
Qed.
End pick.
