(* ===== verification/SkipListCorrect.v ===== *)
(** * SkipListCorrect.v: the links of a skiplist describe one sorted sequence.

    The invariant [linked] ties the forward links of every level to a sequence of nodes;
    it holds for the empty list, survives each publication of an insertion (not only the
    whole insertion), and determines what every search returns. *)
From S2P Require Import Prelude Status Comparator SkipList.
From Stdlib Require Import Sorted.
Import SkipList.

(** ** Strongly sorted lists *)

Lemma ss_app {A} (R : A -> A -> Prop) a b : StronglySorted R (a ++ b) <->
  StronglySorted R a /\ StronglySorted R b /\ (forall x y, x ∈ a -> y ∈ b -> R x y).
Proof.
  induction a as [|z a IH]; cbn.
  { split; [intros Hb; split_and!; [constructor|done|set_solver]|tauto]. }
  split.
  - intros [Hs Hz]%StronglySorted_inv. destruct (proj1 IH Hs) as (Ha & Hb & Hab). rewrite Forall_forall in Hz.
    split_and!; [constructor; [done|]; apply Forall_forall; set_solver|done|].
    intros x y [->|Hx]%elem_of_cons Hy; [apply Hz; set_solver|by apply Hab].
  - intros ([Ha Hz]%StronglySorted_inv & Hb & Hab). constructor; [apply (proj2 IH); split_and!; [done..|set_solver]|].
    rewrite Forall_forall in Hz |- *. intros y [Hy|Hy]%elem_of_app; [by apply Hz|apply Hab; set_solver].
Qed.

Lemma ss_filter {A} (R : A -> A -> Prop) f l : StronglySorted R l -> StronglySorted R (List.filter f l).
Proof.
  induction 1 as [|x l Hl IH Hx]; cbn; [constructor|]. destruct (f x); [|done]. constructor; [done|].
  rewrite Forall_forall in Hx |- *. intros y Hy. apply Hx.
  rewrite list_elem_of_In, filter_In in Hy. destruct Hy as [Hy _]. by apply list_elem_of_In.
Qed.

Section correct.
Context {C : Type} `{Comparator C} {c : C} {key_ok : bytes -> Prop}
  {ord : bytes -> bytes -> comparison} `{!ComparatorLaws c key_ok ord}.
Implicit Types s : SkipList.t C.

#[local] Instance ord_total : TotalOrd ord := laws_ord (c:=c).

(** ** Views of the store *)

Definition key_at s (x : nat) : bytes := default [] (node_key <$> nodes s !! x).
Definition tower s (x : nat) : nat := length (default [] (node_next <$> nodes s !! x)).
Definition link_at s (x level : nat) : option nat :=
  default None (nd ← nodes s !! x; node_next nd !! level).

(** The first node of a sequence that is linked at a level. *)
Definition find_tall (lh : nat -> nat) (level : nat) (l : list nat) : option nat :=
  List.find (fun x => (level <? lh x)%nat) l.

(** [sq] is the sequence of nodes behind the head, [lh x] how many levels of [x] are
    published: a node that is allocated but not yet published has [lh x = 0]. *)
Record linked s (sq : list nat) (lh : nat -> nat) : Prop := {
  l_comparator : comparator s = c;
  l_nodup : NoDup (head :: sq);
  l_head : lh head = MAX_HEIGHT;
  l_node x : x ∈ head :: sq -> is_Some (nodes s !! x) /\ (lh x <= tower s x <= MAX_HEIGHT)%nat;
  l_link a x b level : head :: sq = a ++ x :: b -> (level < lh x)%nat ->
    link_at s x level = find_tall lh level b;
  l_key x : x ∈ sq -> key_ok (key_at s x);
  l_sorted : StronglySorted (fun x y => ord (key_at s x) (key_at s y) = Lt) sq;
  l_height : (1 <= height s <= MAX_HEIGHT)%nat;
  l_low x : x ∈ sq -> (lh x <= height s)%nat;
}.

(** The keys a reader can reach. *)
Definition published (lh : nat -> nat) (sq : list nat) : list nat :=
  List.filter (fun x => (0 <? lh x)%nat) sq.
Definition contents s (lh : nat -> nat) (sq : list nat) : list bytes :=
  map (key_at s) (published lh sq).

(** ** Elementary steps *)

Lemma next_at_ok s sq lh x level : linked s sq lh -> x ∈ head :: sq -> (level < lh x)%nat ->
  next_at s x level = Ret (link_at s x level).
Proof.
  intros Hl Hx Hlt. destruct (l_node _ _ _ Hl x Hx) as [[nd Hnd] Ht].
  unfold next_at, link_at, tower in *. rewrite Hnd in Ht |- *. cbn in *.
  destruct (lookup_lt_is_Some_2 (node_next nd) level) as [o Ho]; [lia|]. by rewrite Ho.
Qed.

Lemma key_ok_at s sq lh x : linked s sq lh -> x ∈ head :: sq -> key s x = Ret (key_at s x).
Proof.
  intros Hl Hx. destruct (l_node _ _ _ Hl x Hx) as [[nd Hnd] _].
  unfold key, key_at. by rewrite Hnd.
Qed.

Lemma find_tall_app lh level a b :
  find_tall lh level (a ++ b) =
  match find_tall lh level a with Some x => Some x | None => find_tall lh level b end.
Proof. unfold find_tall. induction a as [|x a IH]; [done|]. cbn [app List.find]. destruct (level <? lh x)%nat; [done|exact IH]. Qed.

Lemma find_tall_split lh level l x : find_tall lh level l = Some x ->
  exists m b, l = m ++ x :: b /\ (level < lh x)%nat /\ find_tall lh level m = None.
Proof.
  unfold find_tall. induction l as [|y l IH]; [done|]. cbn [List.find].
  destruct (Nat.ltb_spec level (lh y)).
  - intros [= ->]. by exists [], l.
  - intros Hf. destruct (IH Hf) as (m & b & -> & Hx & Hm). exists (y :: m), b.
    split_and!; [done|done|]. cbn [List.find]. by rewrite (proj2 (Nat.ltb_ge level (lh y))).
Qed.

Lemma find_tall_none lh level l : find_tall lh level l = None <-> Forall (fun x => (lh x <= level)%nat) l.
Proof.
  unfold find_tall. induction l as [|y l IH]; cbn [List.find]; [by split; [constructor|]|].
  rewrite Forall_cons. destruct (Nat.ltb_spec level (lh y)); [split; [done|lia]|]. rewrite IH. tauto.
Qed.

Lemma find_tall_ext lh lh' level l :
  (forall x, x ∈ l -> (level < lh x)%nat <-> (level < lh' x)%nat) ->
  find_tall lh level l = find_tall lh' level l.
Proof.
  unfold find_tall. induction l as [|y l IH]; intros Hl; [done|]. cbn [List.find].
  rewrite IH by (intros; apply Hl; by constructor).
  specialize (Hl y ltac:(by constructor)).
  destruct (Nat.ltb_spec level (lh y)), (Nat.ltb_spec level (lh' y)); try done; lia.
Qed.

Lemma in_split_mid (l : list nat) a x b : l = a ++ x :: b -> x ∈ l.
Proof. intros ->. set_solver. Qed.

(** A node is at one place only. *)
Lemma nodup_split (a b a' b' : list nat) x : NoDup (a ++ x :: b) ->
  a ++ x :: b = a' ++ x :: b' -> a = a' /\ b = b'.
Proof.
  revert a'. induction a as [|y a IH]; intros [|y' a'] Hn E; cbn in *.
  - by simplify_eq.
  - injection E as -> ->. apply NoDup_cons in Hn as [Hn _]. set_solver.
  - injection E as -> E. apply NoDup_cons in Hn as [Hn _]. set_solver.
  - injection E as -> E. apply NoDup_cons in Hn as [_ Hn]. destruct (IH _ Hn E) as [-> ->]. done.
Qed.

(** ** Where a reader stands *)

(** The walk stands at a node it can follow at its level, with every key up to it below
    the target. *)
Definition below s (target : bytes) (x : nat) : Prop := x = head \/ ord (key_at s x) target = Lt.
Definition standing s sq lh (target : bytes) (x level : nat) : Prop :=
  x ∈ head :: sq /\ (level < lh x)%nat /\ below s target x.

(** The answer of a search: all reachable keys up to [x] are below the target, those from
    [n] on are not. *)
Definition found s sq lh (target : bytes) (x : nat) (n : option nat) : Prop :=
  exists a b, published lh sq = a ++ b /\ last (head :: a) = Some x /\ n = hd_error b /\
    Forall (fun y => ord (key_at s y) target = Lt) a /\
    Forall (fun y => ord (key_at s y) target <> Lt) b.

Lemma head_before s sq lh a x b : linked s sq lh -> head :: sq = a ++ x :: b -> head ∉ b.
Proof.
  intros Hl E Hb. pose proof (l_nodup _ _ _ Hl) as Hn. destruct a as [|z a]; cbn in E; simplify_eq.
  - by apply NoDup_cons in Hn as [? _].
  - apply NoDup_cons in Hn as [Hn _]. apply Hn. set_solver.
Qed.

Lemma standing_split s sq lh target x level : standing s sq lh target x level ->
  exists a b, head :: sq = a ++ x :: b.
Proof. intros (Hx & _). by apply list_elem_of_split. Qed.

Lemma look_ok s sq lh target x level a b : linked s sq lh -> key_ok target ->
  standing s sq lh target x level -> head :: sq = a ++ x :: b ->
  exists go, look s target x level = Ret (find_tall lh level b, go) /\
    (go = true -> exists m n b', b = m ++ n :: b' /\ find_tall lh level b = Some n /\
       standing s sq lh target n level) /\
    (go = false -> forall n, find_tall lh level b = Some n -> ord (key_at s n) target <> Lt).
Proof.
  intros Hl Ht (Hx & Hlt & Hb) E. unfold look.
  rewrite (next_at_ok _ _ _ _ _ Hl Hx Hlt). cbn [mbind outcome_bind].
  rewrite (l_link _ _ _ Hl _ _ _ _ E Hlt).
  destruct (find_tall lh level b) as [n|] eqn:Ef; [|by exists false].
  destruct (find_tall_split _ _ _ _ Ef) as (m & b' & -> & Hn & _).
  assert (Hin : n ∈ sq).
  { destruct a as [|z a]; cbn in E; simplify_eq; set_solver. }
  rewrite (key_ok_at _ _ _ _ Hl) by (by constructor). cbn [mbind outcome_bind].
  rewrite (l_comparator _ _ _ Hl), compare_ord by (done || by apply (l_key _ _ _ Hl)).
  cbn [mbind outcome_bind]. eexists. split; [done|]. split.
  - intros Hgo. exists m, n, b'. split_and!; [done|done|]. split_and!; [by constructor|done|].
    right. by destruct (ord (key_at s n) target).
  - intros Hgo n' [= <-]. by destruct (ord (key_at s n) target).
Qed.

Lemma published_app lh a b : published lh (a ++ b) = published lh a ++ published lh b.
Proof. apply List.filter_app. Qed.

Lemma published_hd lh l : hd_error (published lh l) = find_tall lh 0 l.
Proof. unfold published, find_tall. induction l as [|x l IH]; [done|]. cbn [List.filter List.find]. by destruct (0 <? lh x)%nat. Qed.

Lemma published_in lh l x : x ∈ published lh l -> x ∈ l.
Proof. unfold published. rewrite !list_elem_of_In, filter_In. by intros [? _]. Qed.

(** At the bottom level the node after the place where the walk stops is the answer. *)
Lemma found_bottom s sq lh target x a b : linked s sq lh -> standing s sq lh target x 0 ->
  head :: sq = a ++ x :: b ->
  (forall n, find_tall lh 0 b = Some n -> ord (key_at s n) target <> Lt) ->
  found s sq lh target x (find_tall lh 0 b).
Proof.
  intros Hl (Hx & Hlt & Hb) E Hn. pose proof (l_head _ _ _ Hl) as Hh.
  assert (Hp : head :: published lh sq = published lh a ++ x :: published lh b).
  { transitivity (published lh (head :: sq)).
    - unfold published. cbn [List.filter]. by rewrite Hh.
    - rewrite E, published_app. unfold published at 2. cbn [List.filter].
      by rewrite (proj2 (Nat.ltb_lt _ _)). }
  rewrite <- published_hd in Hn |- *.
  pose proof (ss_filter _ (fun x => (0 <? lh x)%nat) _ (l_sorted _ _ _ Hl)) as Hs.
  change (List.filter _ sq) with (published lh sq) in Hs.
  assert (Hafter : forall a', published lh sq = a' ++ published lh b ->
    Forall (fun y => ord (key_at s y) target <> Lt) (published lh b)).
  { intros a' Ea. rewrite Ea in Hs. apply ss_app in Hs as (_ & Hs & _).
    destruct (published lh b) as [|n q]; [constructor|]. specialize (Hn n eq_refl).
    apply StronglySorted_inv in Hs as [_ Hq]. constructor; [done|].
    eapply Forall_impl; [exact Hq|]. intros y Hy Hlt'. apply Hn. by apply (ord_lt_trans _ (key_at s y)). }
  destruct (published lh a) as [|z a']; cbn in Hp; simplify_eq.
  - exists [], (published lh b). split_and!; [done..|constructor|]. by apply (Hafter []).
  - exists (a' ++ [x]), (published lh b). rewrite <- app_assoc in *. cbn [app].
    split_and!; [done|by rewrite app_comm_cons, last_snoc|done| |apply (Hafter (a' ++ [x])); by rewrite <- app_assoc].
    rewrite H1 in Hs. apply ss_app in Hs as (_ & _ & Hs).
    assert (Hxt : ord (key_at s x) target = Lt).
    { destruct Hb as [->|Hb]; [|done]. exfalso.
      pose proof (l_nodup _ _ _ Hl) as [Hnh _]%NoDup_cons. apply Hnh, (published_in lh).
      rewrite H1. set_solver. }
    apply Forall_app. split; [|by constructor]. apply Forall_forall. intros y Hy.
    apply (ord_lt_trans _ (key_at s x)); [|done]. apply Hs; set_solver.
Qed.

(** ** The searches *)

(** A place where the walk left a level: nothing it could follow there. *)
Definition stopped s sq lh (target : bytes) (x level : nat) : Prop :=
  standing s sq lh target x level /\
  forall a b n, head :: sq = a ++ x :: b -> find_tall lh level b = Some n -> ord (key_at s n) target <> Lt.

Lemma stopped_intro s sq lh target x level a b : linked s sq lh ->
  standing s sq lh target x level -> head :: sq = a ++ x :: b ->
  (forall n, find_tall lh level b = Some n -> ord (key_at s n) target <> Lt) ->
  stopped s sq lh target x level.
Proof.
  intros Hl Hst E Hn. split; [done|]. intros a' b' n E' Hf.
  destruct (nodup_split a b a' b' x) as [-> ->]; [rewrite <- E; apply (l_nodup _ _ _ Hl)|congruence|].
  by apply Hn.
Qed.

Lemma standing_down s sq lh target x level :
  standing s sq lh target x (S level) -> standing s sq lh target x level.
Proof. intros (? & ? & ?). split_and!; [done|lia|done]. Qed.

Lemma find_loop_ok fuel s sq lh target x level a b prev : linked s sq lh -> key_ok target ->
  standing s sq lh target x level -> head :: sq = a ++ x :: b -> (length b + level < fuel)%nat ->
  exists n prev', find_loop fuel s target x level prev = Ret (n, prev') /\
    (exists y, found s sq lh target y n) /\ length prev' = length prev /\
    (forall l, (level < l)%nat -> prev' !! l = prev !! l) /\
    (forall l, (l <= level)%nat -> (l < length prev)%nat ->
       exists p, prev' !! l = Some (Some p) /\ stopped s sq lh target p l).
Proof.
  intros Hl Ht. revert x level a b prev.
  induction fuel as [|fuel IH]; intros x level a b prev Hst E Hf; [lia|]. cbn [find_loop].
  destruct (look_ok _ _ _ _ _ _ _ _ Hl Ht Hst E) as (go & -> & Hgo & Hno). cbn [mbind outcome_bind].
  destruct go.
  { destruct (Hgo eq_refl) as (m & n & b' & -> & Hfi & Hst'). rewrite Hfi. cbn [default from_option id].
    apply (IH n level (a ++ x :: m) b'); [done|by rewrite <- app_assoc|].
    rewrite length_app in Hf. cbn in Hf. lia. }
  specialize (Hno eq_refl). pose proof (stopped_intro _ _ _ _ _ _ _ _ Hl Hst E Hno) as Hstop.
  destruct level as [|level].
  { do 2 eexists. split; [done|]. split; [exists x; by eapply found_bottom|]. rewrite length_insert.
    split_and!; [done|intros l ?; apply list_lookup_insert_ne; lia|].
    intros l Hl0 Hlen. assert (l = 0)%nat as -> by lia. exists x. by rewrite list_lookup_insert_eq. }
  destruct (IH x level a b (<[S level := Some x]> prev)) as (n & prev' & -> & H1 & H2 & H3 & H4);
    [by apply standing_down|done|lia|].
  rewrite length_insert in *. do 2 eexists. split; [done|]. split_and!; [done|done| |].
  - intros l Hlt. rewrite H3 by lia. apply list_lookup_insert_ne. lia.
  - intros l Hle Hlen. destruct (decide (l = S level)) as [->|Hne].
    + exists x. rewrite H3 by lia. by rewrite list_lookup_insert_eq.
    + apply H4; [lia|done].
Qed.

Lemma less_loop_ok fuel s sq lh target x level a b : linked s sq lh -> key_ok target ->
  standing s sq lh target x level -> head :: sq = a ++ x :: b -> (length b + level < fuel)%nat ->
  exists y n, less_loop fuel s target x level = Ret y /\ found s sq lh target y n.
Proof.
  intros Hl Ht. revert x level a b.
  induction fuel as [|fuel IH]; intros x level a b Hst E Hf; [lia|]. cbn [less_loop].
  destruct (look_ok _ _ _ _ _ _ _ _ Hl Ht Hst E) as (go & -> & Hgo & Hno). cbn [mbind outcome_bind].
  destruct go.
  { destruct (Hgo eq_refl) as (m & n & b' & -> & Hfi & Hst'). rewrite Hfi. cbn [default from_option id].
    apply (IH n level (a ++ x :: m) b'); [done|by rewrite <- app_assoc|].
    rewrite length_app in Hf. cbn in Hf. lia. }
  destruct level as [|level].
  - do 2 eexists. split; [done|]. eapply found_bottom; [done..|]. by apply Hno.
  - apply (IH x level a b); [by apply standing_down|done|lia].
Qed.

Lemma last_published lh l x : last (published lh l) = Some x -> x ∈ l.
Proof. intros Hx. apply (published_in lh). by apply last_Some_elem_of in Hx. Qed.

Lemma walk_last_ok fuel s sq lh x level a b : linked s sq lh ->
  head :: sq = a ++ x :: b -> (level < lh x)%nat -> (length b + level < fuel)%nat ->
  exists y, last_loop fuel s x level = Ret y /\ last (head :: published lh sq) = Some y.
Proof.
  intros Hl. revert x level a b.
  induction fuel as [|fuel IH]; intros x level a b E Hlt Hf; [lia|]. cbn [last_loop].
  rewrite (next_at_ok _ sq lh) by (try done; rewrite E; set_solver). cbn [mbind outcome_bind].
  rewrite (l_link _ _ _ Hl _ _ _ _ E Hlt).
  destruct (find_tall lh level b) as [n|] eqn:Ef.
  { destruct (find_tall_split _ _ _ _ Ef) as (m & b' & -> & Hn & _).
    apply (IH n level (a ++ x :: m) b'); [by rewrite <- app_assoc|done|].
    rewrite length_app in Hf. cbn in Hf. lia. }
  destruct level as [|level]; [|apply (IH x level a b); [done|lia..]].
  eexists. split; [done|].
  assert (published lh b = []) as Hb.
  { rewrite <- published_hd in Ef. by destruct (published lh b). }
  transitivity (last (published lh (head :: sq))).
  - unfold published. cbn [List.filter]. by rewrite (l_head _ _ _ Hl).
  - rewrite E, published_app. unfold published at 2. cbn [List.filter].
    rewrite (proj2 (Nat.ltb_lt _ _)) by done. fold (published lh b). by rewrite Hb, last_snoc.
Qed.

(** Both searches start at the head. *)
Lemma standing_head s sq lh target level : linked s sq lh -> (level < MAX_HEIGHT)%nat ->
  standing s sq lh target head level.
Proof.
  intros Hl Hlt. split_and!; [by constructor|by rewrite (l_head _ _ _ Hl)|by left].
Qed.

Lemma sequence_fits s sq lh : linked s sq lh -> (length (head :: sq) <= length (nodes s))%nat.
Proof.
  intros Hl. rewrite <- (length_seq (length (nodes s)) 0). apply submseteq_length, NoDup_submseteq.
  - apply (l_nodup _ _ _ Hl).
  - intros x Hx. destruct (l_node _ _ _ Hl x Hx) as [Hs _]. apply lookup_lt_is_Some in Hs.
    apply elem_of_seq. lia.
Qed.

Lemma search_start s sq lh : linked s sq lh -> (length sq + (height s - 1) < search_fuel s)%nat.
Proof.
  intros Hl. pose proof (sequence_fits _ _ _ Hl) as Hf. pose proof (l_height _ _ _ Hl).
  unfold search_fuel. cbn in Hf. lia.
Qed.

Lemma find_ok s sq lh target prev : linked s sq lh -> key_ok target ->
  exists n prev', find_greater_or_equal s target prev = Ret (n, prev') /\
    (exists y, found s sq lh target y n) /\ length prev' = length prev /\
    (forall l, (height s <= l)%nat -> prev' !! l = prev !! l) /\
    (forall l, (l < height s)%nat -> (l < length prev)%nat ->
       exists p, prev' !! l = Some (Some p) /\ stopped s sq lh target p l).
Proof.
  intros Hl Ht. pose proof (l_height _ _ _ Hl).
  destruct (find_loop_ok (search_fuel s) s sq lh target head (height s - 1) [] sq prev)
    as (n & prev' & E & H1 & H2 & H3 & H4); [done|done| |done|by eapply search_start|].
  { apply standing_head; [done|lia]. }
  exists n, prev'. split_and!; [done..| |]; intros; [apply H3|apply H4]; lia.
Qed.

Lemma find_less_ok s sq lh target : linked s sq lh -> key_ok target ->
  exists y n, find_less_than s target = Ret y /\ found s sq lh target y n.
Proof.
  intros Hl Ht. pose proof (l_height _ _ _ Hl).
  apply (less_loop_ok _ _ _ _ _ _ _ [] sq); [done|done| |done|by eapply search_start].
  apply standing_head; [done|lia].
Qed.

Lemma find_last_ok s sq lh : linked s sq lh ->
  exists y, find_last s = Ret y /\ last (head :: published lh sq) = Some y.
Proof.
  intros Hl. pose proof (l_height _ _ _ Hl).
  apply (walk_last_ok _ _ _ _ _ _ [] sq); [done|done|rewrite (l_head _ _ _ Hl); lia|by eapply search_start].
Qed.

(** ** The writer's steps *)

(** Two stores that agree on everything but links. *)
Definition same_nodes s s' : Prop :=
  length (nodes s') = length (nodes s) /\ comparator s' = comparator s /\ height s' = height s /\
  forall x, key_at s' x = key_at s x /\ tower s' x = tower s x.

Lemma same_nodes_trans s1 s2 s3 : same_nodes s1 s2 -> same_nodes s2 s3 -> same_nodes s1 s3.
Proof.
  intros (a1 & b1 & c1 & d1) (a2 & b2 & c2 & d2). split_and!; [congruence..|].
  intros x. destruct (d1 x), (d2 x). split; congruence.
Qed.

Lemma set_next_ok s x level p : (level < tower s x)%nat ->
  exists s', set_next s x level p = Ret s' /\ same_nodes s s' /\ link_at s' x level = p /\
    (forall y l, (y, l) <> (x, level) -> link_at s' y l = link_at s y l) /\
    (forall y, is_Some (nodes s' !! y) <-> is_Some (nodes s !! y)).
Proof.
  unfold set_next, tower. destruct (nodes s !! x) as [nd|] eqn:Hx; cbn; [|lia]. intros Hlt.
  destruct (lookup_lt_is_Some_2 (node_next nd) level Hlt) as [o Ho]. rewrite Ho. cbn.
  pose proof (lookup_lt_Some _ _ _ Hx) as Hxl.
  unfold same_nodes. eexists. split; [done|]. split_and!.
  - apply length_insert.
  - done.
  - done.
  - intros y. unfold key_at, tower. cbn [nodes set_nodes]. destruct (decide (x = y)) as [<-|Hne].
    + rewrite list_lookup_insert_eq, Hx by done. split; [done|]. apply length_insert.
    + by rewrite list_lookup_insert_ne.
  - unfold link_at. cbn [nodes set_nodes]. rewrite list_lookup_insert_eq by done. cbn [default from_option id mbind option_bind node_next]. by rewrite list_lookup_insert_eq.
  - intros y l Hne. unfold link_at. cbn [nodes set_nodes]. destruct (decide (x = y)) as [<-|Hxy].
    + rewrite list_lookup_insert_eq, Hx by done. cbn [default from_option id mbind option_bind node_next].
      rewrite list_lookup_insert_ne; [done|]. congruence.
    + by rewrite list_lookup_insert_ne.
  - intros y. cbn [nodes set_nodes]. destruct (decide (x = y)) as [<-|Hxy].
    + rewrite list_lookup_insert_eq, Hx by done. by split.
    + by rewrite list_lookup_insert_ne.
Qed.

(** Placing an allocated node in the sequence before any link to it exists. *)
Lemma place_unlinked s a b n lh : linked s (a ++ b) lh -> n ∉ head :: a ++ b -> lh n = 0%nat ->
  is_Some (nodes s !! n) -> (tower s n <= MAX_HEIGHT)%nat -> key_ok (key_at s n) ->
  Forall (fun x => ord (key_at s x) (key_at s n) = Lt) a ->
  Forall (fun x => ord (key_at s n) (key_at s x) = Lt) b -> linked s (a ++ n :: b) lh.
Proof.
  intros Hl Hn Hlh Hs Ht Hk Ha Hb. pose proof Hl as [? Hnd ? Hno Hli Hke Hso ? Hlo].
  rewrite Forall_forall in Ha, Hb.
  assert (Hin : forall x, x ∈ a ++ n :: b -> x = n \/ x ∈ a ++ b) by set_solver.
  split; try done.
  - rewrite app_comm_cons. rewrite <- Permutation_middle. constructor; [done|exact Hnd].
  - intros x [->|[->|Hx]%Hin]%elem_of_cons.
    + apply Hno. by constructor.
    + split; [done|]. lia.
    + apply Hno. by constructor.
  - intros d x e level E Hlev. assert (x <> n) by (intros ->; lia).
    rewrite app_comm_cons in E. apply app_eq_inv in E as [(k & E1 & E2)|(k & E1 & E2)].
    + destruct k as [|y k]; cbn in E2; [congruence|]. injection E2 as <- ->.
      rewrite (Hli d x (k ++ b)); [|by rewrite app_comm_cons, E1, <- app_assoc|done].
      rewrite !find_tall_app. destruct (find_tall lh level k); [done|].
      unfold find_tall. cbn [List.find]. by rewrite (proj2 (Nat.ltb_ge level (lh n))) by lia.
    + destruct k as [|y k]; cbn in E2; [congruence|]. injection E2 as <- ->.
      apply (Hli ((head :: a) ++ k) x e); [|done]. cbn. by rewrite <- app_assoc.
  - intros x [->|Hx]%Hin; [done|by apply Hke].
  - apply ss_app in Hso as (Hsa & Hsb & Hab). apply ss_app. split_and!; [done| |].
    + constructor; [done|]. by apply Forall_forall.
    + intros x y Hx [->|Hy]%elem_of_cons; [by apply Ha|by apply Hab].
  - intros x [->|Hx]%Hin; [lia|by apply Hlo].
Qed.

Definition set_lh (lh : nat -> nat) (n h : nat) : nat -> nat := fun x => if decide (x = n) then h else lh x.
Lemma set_lh_eq lh n h : set_lh lh n h n = h.
Proof. unfold set_lh. by rewrite decide_True. Qed.
Lemma set_lh_ne lh n h x : x <> n -> set_lh lh n h x = lh x.
Proof. intros. unfold set_lh. by rewrite decide_False. Qed.

(** Which searches of a level see a newly linked node. *)
Lemma set_lh_other lh n l l' e : lh n = l -> l' <> l ->
  find_tall lh l' e = find_tall (set_lh lh n (S l)) l' e.
Proof.
  intros Hn Hne. apply find_tall_ext. intros y _. unfold set_lh. case_decide; [subst; lia|done].
Qed.

Lemma set_lh_before lh n l a p m b d x e : NoDup (a ++ p :: m ++ n :: b) ->
  a ++ p :: m ++ n :: b = d ++ x :: e -> x <> n -> x <> p -> (l < lh p)%nat -> (l < lh x)%nat ->
  find_tall lh l m = None -> find_tall lh l e = find_tall (set_lh lh n (S l)) l e.
Proof.
  intros Hnd E Hxn Hxp Hp Hx Hm.
  assert (Hnb : n ∉ b /\ n ∉ m /\ n ∉ a /\ n <> p).
  { apply NoDup_app in Hnd as (_ & Hd & Hnd). apply NoDup_cons in Hnd as [? Hnd].
    apply NoDup_app in Hnd as (_ & Hd' & Hnd). apply NoDup_cons in Hnd as [? _]. set_solver. }
  assert (Hsame : forall k, n ∉ k -> find_tall lh l k = find_tall (set_lh lh n (S l)) l k).
  { intros k Hk. apply find_tall_ext. intros y Hy. by rewrite set_lh_ne by set_solver. }
  assert (Hxm : x ∉ m).
  { apply find_tall_none in Hm. rewrite Forall_forall in Hm. intros Hin. specialize (Hm x Hin). lia. }
  apply app_eq_inv in E as [(k & -> & E)|(k & -> & E)]; cycle 1.
  - destruct k as [|y k]; cbn in E; [congruence|]. injection E as -> E.
    apply app_eq_inv in E as [(k' & E1 & E2)|(k' & -> & E2)].
    + destruct k' as [|z k']; cbn in E2; [congruence|]. injection E2 as -> _. set_solver.
    + destruct k' as [|z k']; cbn in E2; [congruence|]. injection E2 as -> ->. apply Hsame. set_solver.
  - destruct k as [|y k]; cbn in E; [congruence|]. injection E as -> ->.
    rewrite !find_tall_app. rewrite <- Hsame by set_solver. destruct (find_tall lh l k); [done|].
    unfold find_tall. cbn [List.find]. rewrite set_lh_ne by set_solver.
    by rewrite (proj2 (Nat.ltb_lt l (lh p))).
Qed.

(** Publishing one more level of [n]: [p] is the last node before [n] linked there. *)
Lemma link_ok s sq lh prev n l a p m b : linked s sq lh -> head :: sq = a ++ p :: m ++ n :: b ->
  prev !! l = Some (Some p) -> (l < lh p)%nat -> find_tall lh l m = None ->
  lh n = l -> (l < tower s n)%nat -> (l < height s)%nat ->
  exists s', link prev n s l = Ret s' /\ linked s' sq (set_lh lh n (S l)) /\ same_nodes s s'.
Proof.
  intros Hl E Hp Hlp Hm Hn Htn Hh. unfold link. rewrite Hp. cbn [expect mbind outcome_bind].
  pose proof Hl as [Hc Hnd Hhd Hno Hli Hke Hso Hhe Hlo].
  assert (Hnp : n <> p) by (intros ->; lia).
  assert (Hpin : p ∈ head :: sq) by (rewrite E; set_solver).
  assert (Hnin : n ∈ head :: sq) by (rewrite E; set_solver).
  assert (Hnh : n <> head) by (intros ->; rewrite Hhd in Hn; lia).
  rewrite (next_at_ok _ _ _ _ _ Hl Hpin Hlp). cbn [mbind outcome_bind].
  destruct (set_next_ok s n l (link_at s p l) Htn) as (s1 & -> & Hs1 & Hl1 & Hlo1 & Hi1). cbn [mbind outcome_bind].
  destruct (Hno p Hpin) as [_ Htp].
  destruct (set_next_ok s1 p l (Some n)) as (s2 & -> & Hs2 & Hl2 & Hlo2 & Hi2).
  { destruct Hs1 as (_ & _ & _ & Hs1). rewrite (proj2 (Hs1 p)). lia. }
  exists s2. split; [done|]. pose proof (same_nodes_trans _ _ _ Hs1 Hs2) as Hs. split; [|done].
  destruct Hs as (Hlen & Hcs & Hhs & Hk).
  assert (Hnb : n ∉ b /\ n ∉ m /\ n ∉ a).
  { rewrite E in Hnd. apply NoDup_app in Hnd as (_ & Hd & Hnd). apply NoDup_cons in Hnd as [_ Hnd].
    apply NoDup_app in Hnd as (_ & Hd' & Hnd). apply NoDup_cons in Hnd as [? _]. set_solver. }
  assert (Hold : find_tall lh l (m ++ n :: b) = find_tall lh l b).
  { rewrite find_tall_app, Hm. unfold find_tall. cbn [List.find]. by rewrite (proj2 (Nat.ltb_ge l (lh n))) by lia. }
  split.
  - congruence.
  - done.
  - by rewrite set_lh_ne by done.
  - intros x Hx. destruct (Hno x Hx) as [? ?]. rewrite Hi2, Hi1, (proj2 (Hk x)). split; [done|].
    unfold set_lh. case_decide; [subst; lia|done].
  - intros d x e l' E' Hlev. destruct (decide (l' = l)) as [->|Hll].
    + destruct (decide (x = n)) as [->|Hxn].
      { rewrite Hlo2, Hl1 by congruence. rewrite (Hli a p (m ++ n :: b)), Hold by done.
        assert (e = b) as ->.
        { destruct (nodup_split d e (a ++ p :: m) b n) as [_ ->]; [rewrite <- E'; done| |done].
          rewrite <- E', E. by rewrite <- app_assoc. }
        apply find_tall_ext. intros y Hy. by rewrite set_lh_ne by set_solver. }
      rewrite set_lh_ne in Hlev by done.
      destruct (decide (x = p)) as [->|Hxp].
      { rewrite Hl2. destruct (nodup_split d e a (m ++ n :: b) p) as [_ ->];
          [rewrite <- E'; done|congruence|].
        rewrite find_tall_app. rewrite (proj2 (find_tall_none _ _ m)).
        - unfold find_tall. cbn [List.find]. rewrite set_lh_eq. by rewrite (proj2 (Nat.ltb_lt _ _)) by lia.
        - apply find_tall_none in Hm. rewrite Forall_forall in Hm |- *. intros y Hy.
          rewrite set_lh_ne by set_solver. by apply Hm. }
      rewrite Hlo2, Hlo1 by congruence. rewrite (Hli d x e) by done.
      apply (set_lh_before lh n l a p m b d x); [by rewrite <- E|congruence|done..].
    + rewrite Hlo2, Hlo1 by congruence. rewrite (Hli d x e); [by apply set_lh_other|done|].
      revert Hlev. unfold set_lh. case_decide; [subst; lia|done].
  - intros x Hx. rewrite (proj1 (Hk x)). by apply Hke.
  - clear -Hso Hk. induction Hso as [|x q Hq IH Hx]; constructor; [done|].
    eapply Forall_impl; [exact Hx|]. intros y Hy. by rewrite (proj1 (Hk x)), (proj1 (Hk y)).
  - lia.
  - intros x Hx. rewrite Hhs. unfold set_lh. case_decide; [lia|by apply Hlo].
Qed.

Lemma linked_ext s sq lh lh' : (forall x, x ∈ head :: sq -> lh x = lh' x) ->
  linked s sq lh -> linked s sq lh'.
Proof.
  intros He [Hc Hnd Hhd Hno Hli Hke Hso Hhe Hlo]. split; try done.
  - rewrite <- He; [done|by constructor].
  - intros x Hx. rewrite <- He by done. by apply Hno.
  - intros a x b l E Hl. rewrite (Hli a x b) by first [done | rewrite He; [done|rewrite E; set_solver]].
    apply find_tall_ext. intros y Hy. rewrite He; [done|]. rewrite E. set_solver.
  - intros x Hx. rewrite <- He by (by constructor). by apply Hlo.
Qed.

(** The predecessors the search left are good for every level of the loop. *)
Definition ready sq lh (prev : list (option nat)) (n l : nat) : Prop :=
  exists a p m b, prev !! l = Some (Some p) /\ head :: sq = a ++ p :: m ++ n :: b /\
    (l < lh p)%nat /\ find_tall lh l m = None.

Lemma ready_set sq lh prev n l h : NoDup (head :: sq) -> ready sq lh prev n l ->
  ready sq (set_lh lh n h) prev n l.
Proof.
  intros Hnd (a & p & m & b & Hp & E & Hl & Hm). exists a, p, m, b. rewrite E in Hnd.
  apply NoDup_app in Hnd as (_ & _ & Hnd). apply NoDup_cons in Hnd as [? Hnd].
  apply NoDup_app in Hnd as (_ & Hd & _).
  assert (n <> p) by set_solver. assert (n ∉ m) by set_solver.
  split_and!; [done|done|by rewrite set_lh_ne|].
  rewrite <- Hm. symmetry. apply find_tall_ext. intros y Hy. by rewrite set_lh_ne by set_solver.
Qed.

Lemma link_loop_ok s sq lh prev n i k : linked s sq lh -> n ∈ head :: sq -> lh n = i ->
  (i + k <= tower s n)%nat -> (i + k <= height s)%nat ->
  (forall l, (i <= l < i + k)%nat -> ready sq lh prev n l) ->
  exists s', link_loop prev n s (seq i k) = Ret s' /\ linked s' sq (set_lh lh n (i + k)) /\ same_nodes s s'.
Proof.
  revert s lh i. induction k as [|k IH]; intros s lh i Hl Hin Hn Ht Hh Hr; cbn [seq link_loop].
  - exists s. split_and!; [done| |done]. eapply linked_ext; [|exact Hl].
    intros x _. unfold set_lh. case_decide; [subst; lia|done].
  - destruct (Hr i ltac:(lia)) as (a & p & m & b & Hp & E & Hlp & Hm).
    destruct (link_ok s sq lh prev n i a p m b) as (s1 & -> & Hl1 & Hs1); [done..|lia|lia|].
    cbn [mbind outcome_bind]. pose proof Hs1 as (_ & _ & Hh1 & Hk1).
    destruct (IH s1 (set_lh lh n (S i)) (S i)) as (s2 & -> & Hl2 & Hs2); [done|done| | |lia| |].
    + apply set_lh_eq.
    + rewrite (proj2 (Hk1 n)). lia.
    + intros l Hlr. apply ready_set; [apply (l_nodup _ _ _ Hl)|]. apply Hr. lia.
    + exists s2. split_and!; [done| |by eapply same_nodes_trans]. eapply linked_ext; [|exact Hl2].
      intros x _. unfold set_lh. case_decide; lia.
Qed.

(** ** Insertion *)

Lemma height_loop_range fuel h st : (1 <= h <= MAX_HEIGHT)%nat ->
  (1 <= (height_loop fuel h st).1 <= MAX_HEIGHT)%nat.
Proof.
  revert h st. induction fuel as [|fuel IH]; intros h st Hh; cbn [height_loop]; [done|].
  destruct (Nat.ltb_spec h MAX_HEIGHT); [|done]. destruct (_ =? 0); [|done]. apply IH. lia.
Qed.

Lemma raise_prev_ok current h prev l : (h <= length prev)%nat ->
  length (raise_prev current h prev) = length prev /\
  raise_prev current h prev !! l =
    (if decide (current <= l < h)%nat then Some (Some head) else prev !! l).
Proof.
  unfold raise_prev. intros Hh. remember (h - current)%nat as k eqn:Ek.
  assert (Hk : (current + k <= length prev \/ k = 0)%nat) by lia.
  assert (Hd : (current <= l < h <-> current <= l < current + k)%nat) by lia.
  rewrite (decide_ext _ _ _ _ Hd). clear Ek Hh Hd h. revert current prev Hk.
  induction k as [|k IH]; intros current prev Hk; cbn [seq fold_left].
  - split; [done|]. rewrite decide_False by lia. done.
  - destruct (IH (S current) (<[current := Some head]> prev)) as [IH1 IH2]; [rewrite length_insert; lia|].
    rewrite IH1, IH2, length_insert. split; [done|].
    destruct (decide (l = current)) as [->|Hne].
    + rewrite decide_False, decide_True by lia. apply list_lookup_insert_eq. lia.
    + rewrite list_lookup_insert_ne by done.
      destruct (decide (S current <= l < S current + k)%nat), (decide (current <= l < current + S k)%nat); done || lia.
Qed.

Lemma partition_keys s sq lh key : linked s sq lh -> exists A B, sq = A ++ B /\
  Forall (fun x => ord (key_at s x) key = Lt) A /\ Forall (fun x => ord (key_at s x) key <> Lt) B.
Proof.
  intros Hl. pose proof (l_sorted _ _ _ Hl) as Hs. clear Hl. induction Hs as [|x q Hq IH Hx]; [by exists [], []|].
  destruct (decide (ord (key_at s x) key = Lt)) as [Hlt|Hge].
  - destruct IH as (A & B & -> & HA & HB). exists (x :: A), B. split_and!; [done|by constructor|done].
  - exists [], (x :: q). split_and!; [done|constructor|]. constructor; [done|].
    eapply Forall_impl; [exact Hx|]. intros y Hy Hlt. apply Hge. by apply (ord_lt_trans _ (key_at s y)).
Qed.

(** A predecessor found before the new node is placed precedes its place. *)
Lemma stopped_ready s A B lh prev n key p l : linked s (A ++ B) lh ->
  Forall (fun x => ord (key_at s x) key = Lt) A -> Forall (fun x => ord (key_at s x) key <> Lt) B ->
  prev !! l = Some (Some p) -> stopped s (A ++ B) lh key p l -> ready (A ++ n :: B) lh prev n l.
Proof.
  intros Hl HA HB Hp [(Hin & Hlp & Hb) Hst]. rewrite Forall_forall in HA, HB.
  assert (HpA : p ∈ head :: A).
  { destruct Hb as [->|Hb]; [by constructor|]. apply elem_of_cons in Hin as [->|Hin]; [by constructor|].
    apply elem_of_app in Hin as [?|Hin]; [by constructor|]. by apply HB in Hin. }
  apply list_elem_of_split in HpA as (a & m & E). exists a, p, m, B.
  split_and!; [done|by rewrite app_comm_cons, E, <- app_assoc|done|].
  destruct (find_tall lh l m) as [y|] eqn:Ef; [exfalso|done].
  apply (Hst a (m ++ B) y); [by rewrite app_comm_cons, E, <- app_assoc| |].
  - by rewrite find_tall_app, Ef.
  - apply HA. destruct (find_tall_split _ _ _ _ Ef) as (d & e & -> & _ & _).
    destruct a as [|z a]; cbn in E; simplify_eq; set_solver.
Qed.

(** Raising the height, drawing from the generator and allocating change no link. *)
Lemma linked_alloc s sq lh key h rng : linked s sq lh -> (1 <= h <= MAX_HEIGHT)%nat ->
  let s1 := raise_height (mk (nodes s) (comparator s) (height s) rng) h in
  let s2 := set_nodes s1 (nodes s1 ++ [mk_node key (replicate h None)]) in
  linked s2 sq lh /\ (h <= height s2)%nat /\ (height s <= height s2)%nat /\
  nodes s2 !! length (nodes s) = Some (mk_node key (replicate h None)) /\
  (forall x, is_Some (nodes s !! x) -> nodes s2 !! x = nodes s !! x).
Proof.
  intros Hl Hh s1 s2. pose proof Hl as [Hc Hnd Hhd Hno Hli Hke Hso Hhe Hlo].
  assert (Hold : forall x, is_Some (nodes s !! x) -> nodes s2 !! x = nodes s !! x).
  { intros x Hx%lookup_lt_is_Some. cbn. by apply lookup_app_l. }
  assert (Hheight : (height s <= height s2)%nat /\ (h <= height s2)%nat /\ (1 <= height s2 <= MAX_HEIGHT)%nat).
  { cbn [s2 s1 height set_nodes raise_height]. destruct (Nat.ltb_spec (height s) h); lia. }
  assert (Hsame : forall x, x ∈ head :: sq -> key_at s2 x = key_at s x /\ tower s2 x = tower s x /\
    forall l, link_at s2 x l = link_at s x l).
  { intros x Hx. destruct (Hno x Hx) as [Hs _]. unfold key_at, tower, link_at. by rewrite Hold. }
  split_and!; try tauto; [|cbn; by rewrite lookup_app_r, Nat.sub_diag by lia].
  split; try done; try tauto.
  - intros x Hx. destruct (Hno x Hx) as [Hs ?]. rewrite Hold by done. split; [done|].
    by rewrite (proj1 (proj2 (Hsame x Hx))).
  - intros a x b l E Hlt. rewrite (proj2 (proj2 (Hsame x ltac:(rewrite E; set_solver)))). by apply (Hli a).
  - intros x Hx. rewrite (proj1 (Hsame x ltac:(by constructor))). by apply Hke.
  - assert (Hsub : forall x, x ∈ sq -> key_at s2 x = key_at s x) by (intros; apply Hsame; by constructor).
    clear -Hso Hsub. induction Hso as [|x q Hq IH Hx]; constructor.
    + apply IH. intros y Hy. apply Hsub. by constructor.
    + rewrite Forall_forall in Hx |- *. intros y Hy. rewrite !Hsub by (by constructor). by apply Hx.
  - intros x Hx. specialize (Hlo x Hx). lia.
Qed.

(** Any number of rounds of the linking loop leaves a well-linked list in which the new
    node is published up to that level and nothing else has changed. *)
Lemma insert_upto_ok s sq lh key : linked s sq lh -> key_ok key ->
  (forall x, x ∈ sq -> ord (key_at s x) key <> Eq) ->
  exists A B h, let n := length (nodes s) in
    sq = A ++ B /\ n ∉ head :: sq /\
    Forall (fun x => ord (key_at s x) key = Lt) A /\ Forall (fun x => ord key (key_at s x) = Lt) B /\
    (1 <= h <= MAX_HEIGHT)%nat /\
    forall rounds, exists s', insert_upto rounds s key = Ret s' /\
      linked s' (A ++ n :: B) (set_lh lh n (h `min` rounds)) /\
      key_at s' n = key /\ (forall x, x ∈ head :: sq -> key_at s' x = key_at s x).
Proof.
  intros Hl Hk Hfresh. destruct (partition_keys s sq lh key Hl) as (A & B & -> & HA & HB).
  set (n := length (nodes s)).
  destruct (find_ok s (A ++ B) lh key (replicate MAX_HEIGHT None) Hl Hk)
    as (ex & prev & Ef & _ & Hlen & Hhi & Hlow). rewrite length_replicate in *.
  pose proof (height_loop_range MAX_HEIGHT 1 (rng_state s) ltac:(unfold MAX_HEIGHT; lia)) as Hr.
  destruct (height_loop MAX_HEIGHT 1 (rng_state s)) as [h rng] eqn:Eh. cbn in Hr.
  assert (Hn : n ∉ head :: A ++ B).
  { intros Hx. destruct (l_node _ _ _ Hl n Hx) as [Hs _]. apply lookup_lt_is_Some in Hs. lia. }
  assert (HB' : Forall (fun x => ord key (key_at s x) = Lt) B).
  { rewrite Forall_forall in HB |- *. intros x Hx. specialize (HB x Hx).
    specialize (Hfresh x (proj2 (elem_of_app _ _ _) (or_intror Hx))). apply ord_gt_lt. by destruct (ord (key_at s x) key). }
  exists A, B, h. cbv zeta. fold n. split_and!; [done|done|done|done|lia|lia|]. intros rounds.
  pose proof (linked_alloc s _ lh key h rng Hl Hr) as Ha. cbv zeta in Ha. revert Ha.
  set (s2 := set_nodes _ _). intros (Hl2 & Hh2 & Hh1 & Hnn & Hold). fold n in Hnn.
  set (prev' := if (height s <? h)%nat then raise_prev (height s) h prev else prev).
  assert (Hready : forall l, (l < h)%nat -> ready (A ++ n :: B) lh prev' n l).
  { intros l Hlh. assert (Hp : exists p, prev' !! l = Some (Some p) /\ stopped s (A ++ B) lh key p l).
    - destruct (raise_prev_ok (height s) h prev l) as [_ Hrp]; [lia|]. unfold prev'.
      destruct (decide (l < height s)%nat) as [Hlt|Hge].
      + destruct (Hlow l Hlt) as (p & Hp & Hst); [lia|]. exists p. split; [|done].
        destruct (height s <? h)%nat; [|done]. rewrite Hrp, decide_False by lia. done.
      + exists head. rewrite (proj2 (Nat.ltb_lt _ _)), Hrp, decide_True by lia. split; [done|].
        eapply (stopped_intro _ _ _ _ _ _ []); [done|apply standing_head; [done|lia]|done|].
        intros y Hy. destruct (find_tall_split _ _ _ _ Hy) as (d & e & E & Hly & _).
        pose proof (l_low _ _ _ Hl y ltac:(rewrite E; apply elem_of_app; right; constructor)). lia.
    - destruct Hp as (p & Hp & Hst). by apply (stopped_ready s A B lh prev' n key p l). }
  assert (Hplace : linked s2 (A ++ n :: B) (set_lh lh n 0)).
  { assert (Hkn : key_at s2 n = key) by (unfold key_at; by rewrite Hnn).
    assert (Hks : forall x, x ∈ head :: A ++ B -> key_at s2 x = key_at s x).
    { intros x Hx. unfold key_at. rewrite Hold; [done|]. apply (l_node _ _ _ Hl x Hx). }
    apply place_unlinked; [|done|apply set_lh_eq|by rewrite Hnn| |by rewrite Hkn|..].
    - eapply linked_ext; [|exact Hl2]. intros x Hx. rewrite set_lh_ne; [done|]. by intros ->.
    - unfold tower. rewrite Hnn. cbn. rewrite length_replicate. lia.
    - rewrite Forall_forall in HA |- *. intros x Hx. rewrite Hkn, Hks by (apply elem_of_cons; right; apply elem_of_app; auto). by apply HA.
    - rewrite Forall_forall in HB' |- *. intros x Hx. rewrite Hkn, Hks by (apply elem_of_cons; right; apply elem_of_app; auto). by apply HB'. }
  destruct (link_loop_ok s2 (A ++ n :: B) (set_lh lh n 0) prev' n 0 (h `min` rounds))
    as (s' & Eloop & Hl' & Hs'); [done|apply elem_of_cons; right; apply elem_of_app; right; constructor|apply set_lh_eq| |lia| |].
  { unfold tower. rewrite Hnn. cbn. rewrite length_replicate. lia. }
  { intros l Hlr. apply ready_set; [apply (l_nodup _ _ _ Hplace)|]. apply Hready. lia. }
  exists s'. split_and!.
  - unfold insert_upto, random_height. rewrite Ef. cbn [mbind outcome_bind]. rewrite Eh.
    exact Eloop.
  - eapply linked_ext; [|exact Hl']. intros x _. unfold set_lh. by case_decide.
  - destruct Hs' as (_ & _ & _ & Hs'). rewrite (proj1 (Hs' n)). unfold key_at. by rewrite Hnn.
  - intros x Hx. destruct Hs' as (_ & _ & _ & Hs'). rewrite (proj1 (Hs' x)). unfold key_at.
    rewrite Hold; [done|]. apply (l_node _ _ _ Hl x Hx).
Qed.

(** ** A list between insertions *)

(** Every node of the sequence is published: the contents are all its keys. *)
Definition complete (lh : nat -> nat) (sq : list nat) : Prop := forall x, x ∈ sq -> (0 < lh x)%nat.
Definition keys s (sq : list nat) : list bytes := map (key_at s) sq.
Definition holds s (ks : list bytes) : Prop :=
  exists sq lh, linked s sq lh /\ complete lh sq /\ ks = keys s sq.

Lemma published_all lh sq : complete lh sq -> published lh sq = sq.
Proof.
  unfold published. induction sq as [|x sq IH]; intros Hc; cbn [List.filter]; [done|].
  rewrite (proj2 (Nat.ltb_lt 0 (lh x))) by (apply Hc; by constructor).
  f_equal. apply IH. intros y Hy. apply Hc. by constructor.
Qed.

Lemma new_holds : holds (SkipList.new c) [].
Proof.
  exists [], (fun x => if decide (x = head) then MAX_HEIGHT else 0%nat). split_and!; [|by intros x ?%elem_of_nil|done].
  split; try done.
  - repeat constructor. apply not_elem_of_nil.
  - intros x [->|Hx%elem_of_nil]%elem_of_cons; [|done]. rewrite decide_True by done.
    split; [by eexists|]. change (tower _ head) with MAX_HEIGHT. lia.
  - intros a x b l E Hl. destruct a as [|y a]; cbn in E; [|by destruct a].
    injection E as <- <-. cbn in Hl. unfold link_at, find_tall. cbn [nodes SkipList.new List.find].
    change (([mk_node [] (replicate MAX_HEIGHT None)] : list Node) !! head) with (Some (mk_node [] (replicate MAX_HEIGHT None))).
    cbn [mbind option_bind node_next]. by rewrite lookup_replicate_2.
  - intros x Hx. by apply elem_of_nil in Hx.
  - constructor.
  - cbn. unfold MAX_HEIGHT. lia.
  - intros x Hx. by apply elem_of_nil in Hx.
Qed.

(** Insertion into a sorted list of keys. *)
Fixpoint insert_key (key : bytes) (ks : list bytes) : list bytes :=
  match ks with
  | [] => [key]
  | k :: ks' => if is_lt (ord k key) then k :: insert_key key ks' else key :: ks
  end.

Lemma insert_key_split key a b : Forall (fun k => ord k key = Lt) a ->
  Forall (fun k => ord key k = Lt) b -> insert_key key (a ++ b) = a ++ key :: b.
Proof.
  induction 1 as [|k a Hk Ha IH]; intros Hb; cbn.
  - destruct Hb as [|k b Hk Hb]; cbn; [done|]. apply ord_gt_lt in Hk. by rewrite Hk.
  - rewrite Hk. cbn. by rewrite IH.
Qed.

Lemma insert_ok s ks key : holds s ks -> key_ok key -> (forall k, k ∈ ks -> ord k key <> Eq) ->
  exists s', insert s key = Ret s' /\ holds s' (insert_key key ks).
Proof.
  intros (sq & lh & Hl & Hc & ->) Hk Hf.
  destruct (insert_upto_ok s sq lh key Hl Hk) as (A & B & h & -> & Hn & HA & HB & Hh & Hr).
  { intros x Hx. apply Hf. unfold keys. apply list_elem_of_In, in_map, list_elem_of_In, Hx. }
  destruct (Hr MAX_HEIGHT) as (s' & E & Hl' & Hkn & Hks). exists s'. split; [exact E|].
  do 2 eexists. split_and!; [exact Hl'| |].
  - intros x Hx. unfold set_lh. case_decide; [lia|]. apply Hc. set_solver.
  - unfold keys. rewrite !map_app. cbn [map]. rewrite Hkn.
    assert (Hmap : forall l, (forall x, x ∈ l -> x ∈ head :: A ++ B) -> map (key_at s') l = map (key_at s) l).
    { intros l Hlin. apply map_ext_in. intros x Hx%list_elem_of_In. apply Hks, Hlin, Hx. }
    rewrite !Hmap by set_solver. apply insert_key_split; by apply Forall_map.
Qed.

(** Searches, by position. *)
Lemma found_pos s sq lh target x n : complete lh sq -> found s sq lh target x n ->
  exists i, (i <= length sq)%nat /\ n = sq !! i /\
    x = match i with O => head | S j => nth j sq head end /\
    (forall j y, (j < i)%nat -> sq !! j = Some y -> ord (key_at s y) target = Lt) /\
    (forall j y, (i <= j)%nat -> sq !! j = Some y -> ord (key_at s y) target <> Lt).
Proof.
  intros Hc (a & b & E & Hx & Hn & Ha & Hb). rewrite published_all in E by done.
  rewrite Forall_forall in Ha, Hb. exists (length a). split_and!.
  - rewrite E, length_app. lia.
  - rewrite Hn, E, lookup_app_r, Nat.sub_diag by lia. by destruct b.
  - destruct a as [|z a _] using rev_ind; [by injection Hx as <-|].
    rewrite app_comm_cons, last_snoc in Hx. injection Hx as <-. rewrite length_app. cbn [length].
    rewrite Nat.add_1_r. rewrite E, <- app_assoc, app_nth2, Nat.sub_diag by lia. done.
  - intros j y Hj Hy. apply Ha. rewrite E, lookup_app_l in Hy by done. by eapply list_elem_of_lookup_2.
  - intros j y Hj Hy. apply Hb. rewrite E, lookup_app_r in Hy by done. by eapply list_elem_of_lookup_2.
Qed.

(** ** The cursor as a position *)

Section cursor.
Context s sq lh (Hl : linked s sq lh) (Hc : complete lh sq).

(** The cursor walks [s] and stands at the [i]-th node, or at none. *)
Definition cursor_at (cur : SkipListCursor.t C) (p : option nat) : Prop :=
  SkipListCursor.list cur = s /\
  match p with
  | Some i => exists x, SkipListCursor.node cur = Some x /\ sq !! i = Some x
  | None => SkipListCursor.node cur = None
  end.

Lemma cursor_valid cur p : cursor_at cur p -> SkipListCursor.valid cur = bool_decide (is_Some p).
Proof.
  intros [_ Hn]. unfold SkipListCursor.valid. destruct p as [i|].
  - destruct Hn as (x & -> & _). by rewrite !bool_decide_eq_true_2.
  - rewrite Hn. by rewrite !bool_decide_eq_false_2 by (by intros []).
Qed.

Lemma cursor_key cur i x : cursor_at cur (Some i) -> sq !! i = Some x ->
  SkipListCursor.key cur = Ret (key_at s x).
Proof.
  intros (El & y & En & Hy) Hx. simplify_eq. unfold SkipListCursor.key, SkipListCursor.current.
  rewrite En. cbn [expect mbind outcome_bind]. apply (key_ok_at _ sq lh); [done|].
  apply elem_of_cons. right. by eapply list_elem_of_lookup_2.
Qed.

Lemma find_tall_head l : (forall x, x ∈ l -> x ∈ sq) -> find_tall lh 0 l = hd_error l.
Proof.
  intros Hin. rewrite <- published_hd, published_all; [done|]. intros x Hx. by apply Hc, Hin.
Qed.

Lemma cursor_intro i n : (i <= length sq)%nat -> n = sq !! i ->
  cursor_at (SkipListCursor.mk s n) (if decide (i < length sq)%nat then Some i else None).
Proof.
  intros Hi ->. split; [done|]. cbn. case_decide as Hd.
  - destruct (lookup_lt_is_Some_2 sq i Hd) as [x Hx]. eauto.
  - apply lookup_ge_None_2. lia.
Qed.

Lemma cursor_first cur p : cursor_at cur p -> exists cur',
  SkipListCursor.seek_to_first cur = Ret cur' /\
  cursor_at cur' (if decide (0 < length sq)%nat then Some 0%nat else None).
Proof.
  intros [El _]. unfold SkipListCursor.seek_to_first. rewrite El.
  pose proof (l_head _ _ _ Hl). rewrite (next_at_ok _ sq lh); [|done|by constructor|unfold MAX_HEIGHT in *; lia].
  eexists. split; [done|]. apply cursor_intro; [lia|].
  rewrite (l_link _ _ _ Hl [] head sq) by (try done; unfold MAX_HEIGHT in *; lia).
  rewrite find_tall_head by done. by destruct sq.
Qed.

Lemma cursor_last cur p : cursor_at cur p -> exists cur',
  SkipListCursor.seek_to_last cur = Ret cur' /\
  cursor_at cur' (if decide (0 < length sq)%nat then Some (length sq - 1)%nat else None).
Proof.
  intros [El _]. unfold SkipListCursor.seek_to_last. rewrite El.
  destruct (find_last_ok _ _ _ Hl) as (y & -> & Hy). cbn [mbind outcome_bind].
  rewrite published_all in Hy by done. eexists. split; [done|]. unfold SkipListCursor.not_head.
  pose proof (l_nodup _ _ _ Hl) as [Hnh _]%NoDup_cons.
  destruct (decide (0 < length sq)%nat) as [Hd|Hd].
  - assert (Hyl : sq !! (length sq - 1)%nat = Some y).
    { destruct sq as [|z q] eqn:Eq; [cbn in Hd; lia|]. rewrite last_cons_cons in Hy.
      rewrite last_lookup in Hy. rewrite <- Hy. f_equal. lia. }
    assert (y <> head) by (intros ->; apply Hnh; by eapply list_elem_of_lookup_2).
    rewrite (proj2 (Nat.eqb_neq _ _)) by done. split; [done|]. eauto.
  - destruct sq; [|cbn in Hd; lia]. injection Hy as <-. by rewrite Nat.eqb_refl.
Qed.

Lemma cursor_seek cur p t : cursor_at cur p -> key_ok t -> exists cur' i,
  SkipListCursor.seek cur t = Ret cur' /\ (i <= length sq)%nat /\
  cursor_at cur' (if decide (i < length sq)%nat then Some i else None) /\
  (forall j y, (j < i)%nat -> sq !! j = Some y -> ord (key_at s y) t = Lt) /\
  (forall j y, (i <= j)%nat -> sq !! j = Some y -> ord (key_at s y) t <> Lt).
Proof.
  intros [El _] Ht. unfold SkipListCursor.seek. rewrite El.
  destruct (find_ok s sq lh t [] Hl Ht) as (n & prev' & -> & (x & Hf) & _). cbn [mbind outcome_bind].
  destruct (found_pos _ _ _ _ _ _ Hc Hf) as (i & Hi & Hn & _ & H1 & H2).
  do 2 eexists. split; [done|]. split; [exact Hi|]. split; [by apply cursor_intro|done].
Qed.

Lemma cursor_next cur i : cursor_at cur (Some i) -> exists cur',
  SkipListCursor.next cur = Ret cur' /\
  cursor_at cur' (if decide (S i < length sq)%nat then Some (S i) else None).
Proof.
  intros (El & x & En & Hx). unfold SkipListCursor.next, SkipListCursor.current.
  rewrite En, El. cbn [expect mbind outcome_bind].
  pose proof (list_elem_of_lookup_2 _ _ _ Hx) as Hin. pose proof (lookup_lt_Some _ _ _ Hx) as Hlt.
  rewrite (next_at_ok _ sq lh); [|done|by constructor|by apply Hc].
  eexists. split; [done|]. apply cursor_intro; [lia|].
  rewrite (l_link _ _ _ Hl (head :: take i sq) x (drop (S i) sq)); [| |by apply Hc].
  - rewrite find_tall_head; [|intros y Hy; rewrite <- (take_drop (S i) sq); apply elem_of_app; by right].
    rewrite <- (Nat.add_0_r (S i)), <- lookup_drop, Nat.add_0_r. by destruct (drop (S i) sq).
  - cbn. by rewrite take_drop_middle.
Qed.

Lemma cursor_prev cur i : cursor_at cur (Some i) -> exists cur',
  SkipListCursor.prev cur = Ret cur' /\
  cursor_at cur' (match i with O => None | S j => Some j end).
Proof.
  intros (El & x & En & Hx). unfold SkipListCursor.prev, SkipListCursor.current.
  rewrite En, El. cbn [expect mbind outcome_bind].
  pose proof (list_elem_of_lookup_2 _ _ _ Hx) as Hin.
  rewrite (key_ok_at _ sq lh) by (done || by constructor). cbn [mbind outcome_bind].
  destruct (find_less_ok s sq lh (key_at s x) Hl) as (y & n & -> & Hf); [by apply (l_key _ _ _ Hl)|].
  destruct (found_pos _ _ _ _ _ _ Hc Hf) as (k & Hk & _ & Hy & H1 & H2). cbn [mbind outcome_bind].
  assert (k = i) as ->.
  { destruct (lt_eq_lt_dec k i) as [[Hlt| ->]|Hlt]; [|done|].
    - destruct (lookup_lt_is_Some_2 sq k) as [z Hz]; [apply lookup_lt_Some in Hx; lia|].
      exfalso. apply (H2 k z); [lia|done|].
      pose proof (l_sorted _ _ _ Hl) as Hs. rewrite <- (take_drop i sq) in Hs.
      apply ss_app in Hs as (_ & _ & Hs). apply Hs.
      + apply (list_elem_of_lookup_2 _ k). by rewrite lookup_take_lt.
      + apply (list_elem_of_lookup_2 _ 0). by rewrite lookup_drop, Nat.add_0_r.
    - pose proof (H1 i x Hlt Hx) as Hxx. by rewrite ord_refl in Hxx. }
  eexists. split; [done|]. split; [done|]. unfold SkipListCursor.not_head. cbn [SkipListCursor.node].
  destruct i as [|j]; [by rewrite Hy, Nat.eqb_refl|].
  pose proof (lookup_lt_Some _ _ _ Hx) as Hlt.
  destruct (lookup_lt_is_Some_2 sq j) as [z Hz]; [lia|]. rewrite (nth_lookup_Some _ _ _ _ Hz) in Hy. subst y.
  pose proof (l_nodup _ _ _ Hl) as [Hnh _]%NoDup_cons.
  assert (z <> head) by (intros ->; apply Hnh; by eapply list_elem_of_lookup_2).
  rewrite (proj2 (Nat.eqb_neq _ _)) by done. eauto.
Qed.
End cursor.
End correct.

(** ** A reader racing with the writer *)

(** The [i]-th round of a reader's walk runs against the store [states (sched i)]; the
    result is the round in which the walk ended and the node it returns. *)
Fixpoint race_run {C} `{Comparator C} (fuel : nat) (states : nat -> SkipList.t C) (sched : nat -> nat)
    (i : nat) (target : bytes) (x level : nat) : outcome (nat * option nat) :=
  match fuel with
  | O => Panic
  | S fuel =>
      '(nxt, go) ← look (states (sched i)) target x level;
      if go : bool then race_run fuel states sched (S i) target (default x nxt) level
      else match level with
           | O => Ret (i, nxt)
           | S level => race_run fuel states sched (S i) target x level
           end
  end.

Section race.
Context {C : Type} `{Comparator C} {c : C} {key_ok : bytes -> Prop}
  {ord : bytes -> bytes -> comparison} `{!ComparatorLaws c key_ok ord}.

(** Stores that share their nodes and only gain links. *)
Definition evolving (states : nat -> SkipList.t C) (sq : list nat) (lhs : nat -> nat -> nat) : Prop :=
  (forall j, linked (c:=c) (key_ok:=key_ok) (ord:=ord) (states j) sq (lhs j)) /\
  (forall j x, x ∈ head :: sq -> key_at (states j) x = key_at (states 0%nat) x) /\
  (forall j k x, (j <= k)%nat -> (lhs j x <= lhs k x)%nat).

Lemma standing_later states sq lhs j k t x level : evolving states sq lhs -> (j <= k)%nat ->
  standing (ord:=ord) (states j) sq (lhs j) t x level -> standing (ord:=ord) (states k) sq (lhs k) t x level.
Proof.
  intros (_ & Hk & Hm) Hjk (Hx & Hlt & Hb). specialize (Hm j k x Hjk). split_and!; [done|lia|].
  destruct Hb as [->|Hb]; [by left|]. right. by rewrite (Hk k), <- (Hk j).
Qed.

Lemma race_ok states sq lhs sched t : evolving states sq lhs -> key_ok t ->
  (forall i, (sched i <= sched (S i))%nat) ->
  forall fuel i x level a b, standing (ord:=ord) (states (sched i)) sq (lhs (sched i)) t x level ->
  head :: sq = a ++ x :: b -> (length b + level < fuel)%nat ->
  exists k y n, race_run fuel states sched i t x level = Ret (k, n) /\
    found (ord:=ord) (states (sched k)) sq (lhs (sched k)) t y n.
Proof.
  intros Hev Ht Hs. induction fuel as [|fuel IH]; intros i x level a b Hst E Hf; [lia|]. cbn [race_run].
  pose proof (proj1 Hev (sched i)) as Hl.
  destruct (look_ok _ _ _ _ _ _ _ _ Hl Ht Hst E) as (go & -> & Hgo & Hno). cbn [mbind outcome_bind].
  destruct go.
  { destruct (Hgo eq_refl) as (m & n & b' & -> & Hfi & Hst'). rewrite Hfi. cbn [default from_option id].
    apply (IH (S i) n level (a ++ x :: m) b'); [|by rewrite <- app_assoc|].
    - by apply (standing_later states sq lhs (sched i)).
    - rewrite length_app in Hf. cbn in Hf. lia. }
  destruct level as [|level].
  - do 3 eexists. split; [done|]. eapply (found_bottom (c:=c) (key_ok:=key_ok)); [done..|]. by apply Hno.
  - apply (IH (S i) x level a b); [|done|lia]. apply (standing_later states sq lhs (sched i)); [done|apply Hs|]. by apply standing_down.
Qed.
End race.

(** ** A list grown by insertions *)

Lemma find_lookup {A} (f : A -> bool) l i : (i <= length l)%nat ->
  (forall j y, (j < i)%nat -> l !! j = Some y -> f y = false) ->
  (forall y, l !! i = Some y -> f y = true) -> List.find f l = l !! i.
Proof.
  revert i. induction l as [|x l IH]; intros i Hi H1 H2; [by destruct i|]. destruct i as [|i]; cbn.
  - by rewrite (H2 x).
  - rewrite (H1 O x) by (done || lia). apply IH; [cbn in Hi; lia| |exact H2].
    intros j y Hj. apply (H1 (S j)). lia.
Qed.

Lemma existsb_perm {A} (f : A -> bool) l k : l ≡ₚ k -> existsb f l = existsb f k.
Proof.
  induction 1 as [|x l1 l2 Hp IH|x y l1|l1 l2 l3 Hp1 IH1 Hp2 IH2]; cbn; [done|by rewrite IH| |by rewrite IH1].
  by rewrite !orb_assoc, (orb_comm (f x)).
Qed.

Section grown.
Context {C : Type} `{Comparator C} {c : C} {key_ok : bytes -> Prop}
  {ord : bytes -> bytes -> comparison} `{!ComparatorLaws c key_ok ord}.
Notation holds := (holds (c:=c) (key_ok:=key_ok) (ord:=ord)).
Notation insert_key := (insert_key (ord:=ord)).

#[local] Instance ord_total' : TotalOrd ord := laws_ord (c:=c).

Lemma insert_key_perm k l : insert_key k l ≡ₚ k :: l.
Proof.
  induction l as [|x l IH]; cbn; [done|]. destruct (is_lt _); [|done].
  rewrite IH. apply Permutation_swap.
Qed.

Lemma fold_insert_perm ks l : fold_left (fun l k => insert_key k l) ks l ≡ₚ l ++ ks.
Proof.
  revert l. induction ks as [|k ks IH]; intros l; cbn; [by rewrite app_nil_r|].
  rewrite IH, insert_key_perm. by rewrite <- Permutation_middle.
Qed.

Lemma grow_ok ks s l : holds s l -> Forall key_ok ks ->
  (forall k x, k ∈ ks -> x ∈ l -> ord x k <> Eq) ->
  (forall i j a b, (i < j)%nat -> ks !! i = Some a -> ks !! j = Some b -> ord a b <> Eq) ->
  exists s', fold_left (fun s k => s ← s; SkipList.insert s k) ks (Ret s) = Ret s' /\
    holds s' (fold_left (fun l k => insert_key k l) ks l).
Proof.
  revert s l. induction ks as [|k ks IH]; intros s l Hh Hok Hf Hd; cbn [fold_left]; [eauto|].
  apply Forall_cons in Hok as [Hk Hok].
  destruct (insert_ok s l k Hh Hk) as (s1 & E & Hh1); [intros x Hx; apply Hf; [by constructor|done]|].
  cbn [mbind outcome_bind]. rewrite E. apply IH; [done|done| |].
  - intros k' x Hk' Hx. rewrite insert_key_perm in Hx. apply elem_of_cons in Hx as [->|Hx].
    + apply list_elem_of_lookup in Hk' as [j Hj]. apply (Hd 0%nat (S j)); [lia|done|done].
    + apply Hf; [by constructor|done].
  - intros i j a b Hij. apply (Hd (S i) (S j)). lia.
Qed.

Lemma holds_sorted s l : holds s l -> StronglySorted (fun a b => ord a b = Lt) l.
Proof.
  intros (sq & lh & Hl & _ & ->). pose proof (l_sorted _ _ _ Hl) as Hs. clear Hl.
  induction Hs as [|x q Hq IH Hx]; cbn; constructor; [done|]. by apply Forall_map.
Qed.

Lemma grown_contains_ok s l t : holds s l -> key_ok t ->
  contains s t = Ret (existsb (fun k => is_eq (ord k t)) l).
Proof.
  intros Hh Ht. pose proof (holds_sorted _ _ Hh) as Hso. destruct Hh as (sq & lh & Hl & Hc & ->).
  unfold contains. destruct (find_ok s sq lh t [] Hl Ht) as (n & prev' & -> & (x & Hf) & _).
  cbn [mbind outcome_bind].
  destruct (found_pos _ _ _ _ _ _ Hc Hf) as (i & Hi & Hn & _ & H1 & H2).
  assert (Hbefore : existsb (fun k => is_eq (ord k t)) (keys s (take i sq)) = false).
  { apply not_true_iff_false. rewrite existsb_exists. intros (k & Hk & Heq).
    unfold keys in Hk. apply in_map_iff in Hk as (y & <- & Hy%list_elem_of_In).
    apply list_elem_of_lookup in Hy as [j Hj]. apply lookup_take_Some in Hj as [Hj Hji].
    by rewrite (H1 j y Hji Hj) in Heq. }
  rewrite <- (take_drop i sq) at 1. unfold keys in *. rewrite map_app, existsb_app, Hbefore. cbn [orb].
  destruct n as [n|].
  - symmetry in Hn. rewrite (key_ok_at _ _ _ _ Hl) by (apply elem_of_cons; right; by eapply list_elem_of_lookup_2).
    cbn [mbind outcome_bind]. rewrite (l_comparator _ _ _ Hl), compare_ord; [|apply (l_key _ _ _ Hl); by eapply list_elem_of_lookup_2|done].
    cbn [mbind outcome_bind]. f_equal. rewrite (drop_S _ _ _ Hn). cbn [map existsb].
    destruct (ord (key_at s n) t) eqn:E; cbn [is_eq orb]; [done|exfalso; by apply (H2 i n)|].
    symmetry. apply not_true_iff_false. rewrite existsb_exists. intros (k & Hk & Heq).
    rewrite <- (take_drop_middle _ _ _ Hn), map_app in Hso. apply ss_app in Hso as (_ & Hso & _).
    cbn [map] in Hso. apply StronglySorted_inv in Hso as [_ Hso]. rewrite Forall_forall in Hso.
    specialize (Hso k (proj2 (list_elem_of_In _ _) Hk)).
    assert (Hkt : ord k t = Eq) by (by destruct (ord k t)). apply ord_gt_lt in E.
    apply ord_eq_sym in Hkt. by rewrite (ord_lt_trans _ _ _ E Hso) in Hkt.
  - symmetry in Hn. apply lookup_ge_None_1 in Hn. by rewrite drop_ge by done.
Qed.

Lemma grown_seek_ok s l t : holds s l -> key_ok t ->
  exists cur, SkipListCursor.seek (SkipListCursor.new s) t = Ret cur /\
    match List.find (fun k => is_ge (ord k t)) l with
    | Some k => SkipListCursor.valid cur = true /\ SkipListCursor.key cur = Ret k
    | None => SkipListCursor.valid cur = false
    end.
Proof.
  intros (sq & lh & Hl & Hc & ->) Ht.
  destruct (cursor_seek s sq lh Hl Hc (SkipListCursor.new s) None t) as (cur & i & E & Hi & Hcur & H1 & H2);
    [by split|done|].
  exists cur. split; [exact E|].
  assert (Hfind : List.find (fun k => is_ge (ord k t)) (keys s sq) = key_at s <$> sq !! i).
  { rewrite (find_lookup _ _ i); unfold keys.
    - apply list_lookup_fmap.
    - by rewrite length_map.
    - intros j y Hj Hy. apply list_lookup_fmap_Some in Hy as (z & -> & Hz). by rewrite (H1 j z).
    - intros y Hy. apply list_lookup_fmap_Some in Hy as (z & -> & Hz).
      specialize (H2 i z ltac:(lia) Hz). by destruct (ord (key_at s z) t). }
  rewrite Hfind, (cursor_valid s sq _ _ Hcur). destruct (decide (i < length sq)%nat) as [Hd|Hd].
  - destruct (lookup_lt_is_Some_2 sq i Hd) as [x Hx]. rewrite Hx. cbn [fmap option_fmap option_map]. split; [by apply bool_decide_eq_true_2|].
    by eapply cursor_key.
  - rewrite lookup_ge_None_2 by lia. cbn [fmap option_fmap option_map]. apply bool_decide_eq_false_2. by intros [].
Qed.

Lemma found_find (s : SkipList.t C) sq lh t x n : found (ord:=ord) s sq lh t x n ->
  List.find (fun k => is_ge (ord k t)) (map (key_at s) (published lh sq)) = key_at s <$> n.
Proof.
  intros (a & b & -> & _ & -> & Ha & Hb). rewrite map_app.
  rewrite (find_lookup _ _ (length a)).
  - rewrite lookup_app_r by (by rewrite length_map). rewrite length_map, Nat.sub_diag. by destruct b.
  - rewrite length_app, length_map. lia.
  - intros j y Hj Hy. rewrite lookup_app_l in Hy by (by rewrite length_map).
    apply list_lookup_fmap_Some in Hy as (z & -> & Hz). rewrite Forall_lookup in Ha. by rewrite (Ha j z).
  - intros y Hy. rewrite lookup_app_r, length_map, Nat.sub_diag in Hy by (by rewrite length_map).
    destruct Hb as [|z b Hz Hb]; [done|]. cbn in Hy. simplify_eq. by destruct (ord (key_at s z) t).
Qed.

(** What a reader can reach while a node is being inserted. *)
Lemma published_during A B n lh h r : complete lh (A ++ B) -> n ∉ A ++ B -> (1 <= h)%nat ->
  published (set_lh lh n (h `min` r)) (A ++ n :: B) = if (r =? 0)%nat then A ++ B else A ++ n :: B.
Proof.
  intros Hc Hn Hh. destruct (Nat.eqb_spec r 0) as [->|Hr].
  - rewrite Nat.min_0_r. unfold published. rewrite List.filter_app. cbn [List.filter].
    rewrite set_lh_eq. cbn [Nat.ltb Nat.leb].
    change (published (set_lh lh n 0) A ++ published (set_lh lh n 0) B = A ++ B).
    rewrite <- published_app. apply published_all. intros x Hx. rewrite set_lh_ne by (by intros ->). by apply Hc.
  - apply published_all. intros x Hx. unfold set_lh. case_decide; [lia|]. apply Hc. set_solver.
Qed.

Lemma race_insert s ks key t : holds s ks -> key_ok key -> key_ok t ->
  (forall k, k ∈ ks -> ord k key <> Eq) ->
  exists states, (forall j, insert_upto j s key = Ret (states j)) /\
    forall sched level, (forall i, (sched i <= sched (S i))%nat) -> (level < MAX_HEIGHT)%nat ->
    exists k n, race_run (search_fuel (states 0%nat)) states sched 0 t head level = Ret (k, n) /\
      key_at (states (sched k)) <$> n =
      List.find (fun k => is_ge (ord k t)) (if (sched k =? 0)%nat then ks else insert_key key ks).
Proof.
  intros (sq & lh & Hl & Hc & ->) Hk Ht Hf.
  destruct (insert_upto_ok s sq lh key Hl Hk) as (A & B & h & -> & Hn & HA & HB & Hh & Hr).
  { intros x Hx. apply Hf. unfold keys. apply list_elem_of_In, in_map, list_elem_of_In, Hx. }
  set (n0 := length (nodes s)) in *.
  set (states := fun j => match insert_upto j s key with Ret s' => s' | _ => s end).
  exists states. split; [intros j; unfold states; by destruct (Hr j) as (s' & -> & _)|].
  assert (Hr' : forall j, linked (c:=c) (key_ok:=key_ok) (ord:=ord) (states j) (A ++ n0 :: B) (set_lh lh n0 (h `min` j)) /\
    key_at (states j) n0 = key /\ forall x, x ∈ head :: A ++ B -> key_at (states j) x = key_at s x).
  { intros j. unfold states. by destruct (Hr j) as (s' & -> & ? & ? & ?). }
  assert (Hmem : forall x, x ∈ head :: A ++ n0 :: B -> x = n0 \/ x ∈ head :: A ++ B) by set_solver.
  assert (Hev : evolving (c:=c) (key_ok:=key_ok) (ord:=ord) states (A ++ n0 :: B) (fun j => set_lh lh n0 (h `min` j))).
  { split_and!.
    - intros j. apply Hr'.
    - intros j x [->|Hx]%Hmem; [transitivity key; [|symmetry]; apply Hr'|].
      transitivity (key_at s x); [|symmetry]; by apply Hr'.
    - intros j k x Hjk. unfold set_lh. case_decide; lia. }
  intros sched level Hs Hlev. destruct (Hr' (sched 0%nat)) as (Hl0 & _ & _).
  destruct (race_ok states _ _ sched t Hev Ht Hs (search_fuel (states 0%nat)) 0 head level [] (A ++ n0 :: B))
    as (k & y & n & E & Hfound); [exact (standing_head _ _ _ t level Hl0 Hlev)|done| |].
  { pose proof (sequence_fits _ _ _ (proj1 (Hr' 0%nat))) as Hfit. unfold search_fuel. cbn in Hfit. lia. }
  exists k, n. split; [exact E|]. rewrite <- (found_find _ _ _ _ _ _ Hfound).
  destruct (Hr' (sched k)) as (_ & Hkn & Hks).
  rewrite published_during by (done || lia || set_solver).
  assert (Hmap : forall l, (forall x, x ∈ l -> x ∈ head :: A ++ B) -> map (key_at (states (sched k))) l = map (key_at s) l).
  { intros l Hlin. apply map_ext_in. intros x Hx%list_elem_of_In. apply Hks, Hlin, Hx. }
  destruct (sched k =? 0)%nat; [by rewrite Hmap by set_solver|].
  f_equal. rewrite map_app. cbn [map]. rewrite Hkn, !Hmap by set_solver. unfold keys. rewrite map_app.
  symmetry. apply insert_key_split; by apply Forall_map.
Qed.
End grown.

(** ** The height generator *)

Lemma random_next_spec st : 0 < st < 2147483647 ->
  random_next st = st * 16807 mod 2147483647 /\ 0 < random_next st < 2147483647.
Proof.
  intros Hst. unfold random_next. cbv zeta. rewrite (as_u64_id (st * 16807)) by (unfold is_u64; lia).
  assert (Hland : forall x, Z.land x 2147483647 = x mod 2 ^ 31) by (intros; by apply (Z.land_ones _ 31)).
  rewrite Z.shiftr_div_pow2, Hland by lia.
  set (q := st * 16807 / 2 ^ 31). set (r := st * 16807 mod 2 ^ 31).
  pose proof (Z.div_mod (st * 16807) (2 ^ 31) ltac:(lia)) as Hdm. fold q r in Hdm.
  pose proof (Z.mod_pos_bound (st * 16807) (2 ^ 31) ltac:(lia)) as Hr. fold r in Hr.
  assert (Hq : 0 <= q < 16807) by (split; [apply Z.div_pos; lia|apply Z.div_lt_upper_bound; lia]).
  rewrite (as_u64_id (q + r)), (as_u32_id (q + r)) by (unfold is_u64, is_u32; lia).
  assert (Hm : st * 16807 = q * 2147483647 + (q + r)) by lia.
  assert (Hne : q + r <> 2147483647 /\ q + r <> 0 /\ q + r <> 2 * 2147483647).
  { assert (Hdiv : forall k, q + r <> k * 2147483647); [|split_and!; [apply (Hdiv 1)|apply (Hdiv 0)|apply (Hdiv 2)]].
    intros k Hk. assert (Hd : (2147483647 | 16807 * st)) by (exists (q + k); lia).
    apply Z.gauss in Hd; [|vm_compute; reflexivity]. apply Z.divide_pos_le in Hd; lia. }
  assert (Hmod : st * 16807 mod 2147483647 = (q + r) mod 2147483647).
  { rewrite Hm, Z.add_comm. apply Z_mod_plus_full. }
  rewrite Hmod.
  destruct (Z.ltb_spec 2147483647 (q + r)) as [Hlt|Hge].
  - split; [|lia]. rewrite <- (Z_mod_plus_full _ (-1)), Z.mod_small; lia.
  - split; [|lia]. rewrite Z.mod_small; lia.
Qed.

(** ** Claims *)

(** C16: (SkipList) A list grown from empty by inserting keys that are pairwise distinct holds
    exactly these keys in sorted order: [contains] decides membership, [seek] returns the
    first key not below the target, and no operation panics, loops or follows a bad link. *)
Theorem skiplist_sorted_set {C} `{Comparator C} (c : C) key_ok ord `{!ComparatorLaws c key_ok ord} ks t :
  Forall key_ok ks -> key_ok t ->
  (forall i j a b, (i < j)%nat -> ks !! i = Some a -> ks !! j = Some b -> ord a b <> Eq) ->
  let sorted := fold_left (fun l k => insert_key (ord:=ord) k l) ks [] in
  exists s, fold_left (fun s k => s ← s; SkipList.insert s k) ks (Ret (SkipList.new c)) = Ret s /\
    StronglySorted (fun a b => ord a b = Lt) sorted /\ sorted ≡ₚ ks /\
    SkipList.contains s t = Ret (existsb (fun k => is_eq (ord k t)) ks) /\
    exists cur, SkipListCursor.seek (SkipListCursor.new s) t = Ret cur /\
      match List.find (fun k => is_ge (ord k t)) sorted with
      | Some k => SkipListCursor.valid cur = true /\ SkipListCursor.key cur = Ret k
      | None => SkipListCursor.valid cur = false
      end.
Proof.
  intros Hks Ht Hd sorted.
  destruct (grow_ok (c:=c) ks (SkipList.new c) []) as (s & E & Hh); [apply new_holds|done|..|].
  { intros k x _ Hx. by apply elem_of_nil in Hx. }
  { exact Hd. }
  fold sorted in Hh. exists s. pose proof (fold_insert_perm (ord:=ord) ks []) as Hp.
  split_and!; [done|exact (holds_sorted _ _ Hh)|done| |].
  - rewrite (grown_contains_ok _ _ _ Hh Ht). f_equal. by apply existsb_perm.
  - exact (grown_seek_ok _ _ _ Hh Ht).
Qed.

Lemma skiplist_sorted_set_witness :
  let ks := map list_byte_of_string ["m"; "c"; "x"; "a"; "t"]%string in
  let t := list_byte_of_string "d" in
  exists s, fold_left (fun s k => s ← s; SkipList.insert s k) ks (Ret (SkipList.new Bytewise)) = Ret s /\
    SkipList.contains s t = Ret false /\
    exists cur, SkipListCursor.seek (SkipListCursor.new s) t = Ret cur /\
      SkipListCursor.key cur = Ret (list_byte_of_string "m").
Proof.
  intros ks t.
  destruct (skiplist_sorted_set Bytewise (fun _ => True) bytes_cmp ks t) as (s & E & _ & _ & Hc & cur & Hs & Hk).
  - by apply Forall_forall.
  - done.
  - intros i j a b Hij Ha Hb. apply lookup_lt_Some in Hb as Hj. cbn in Hj.
    do 5 (destruct i as [|i]; [do 5 (destruct j as [|j]; [try lia; cbn in Ha, Hb; by simplify_eq|]); lia|]). lia.
  - exists s. split_and!; [done|exact Hc|]. exists cur. by split; [|apply Hk].
Defined.

(** C15: (SkipList, concurrent readers) A search that runs while one key is being inserted,
    each of its rounds against the store after any number of publications, terminates and
    returns the first key not below the target of the contents at its last round: the old
    keys before the first publication, the old keys with the new one after it. *)
Theorem skiplist_racing_reader {C} `{Comparator C} (c : C) key_ok ord `{!ComparatorLaws c key_ok ord} ks key t :
  Forall key_ok ks -> key_ok key -> key_ok t ->
  (forall i j a b, (i < j)%nat -> ks !! i = Some a -> ks !! j = Some b -> ord a b <> Eq) ->
  (forall k, k ∈ ks -> ord k key <> Eq) ->
  let sorted := fold_left (fun l k => insert_key (ord:=ord) k l) ks [] in
  exists s states, fold_left (fun s k => s ← s; SkipList.insert s k) ks (Ret (SkipList.new c)) = Ret s /\
    (forall j, SkipList.insert_upto j s key = Ret (states j)) /\
    SkipList.insert s key = Ret (states MAX_HEIGHT) /\
    forall sched level, (forall i, (sched i <= sched (S i))%nat) -> (level < MAX_HEIGHT)%nat ->
    exists k n, race_run (search_fuel (states 0%nat)) states sched 0 t head level = Ret (k, n) /\
      key_at (states (sched k)) <$> n =
      List.find (fun k => is_ge (ord k t))
        (if (sched k =? 0)%nat then sorted else insert_key (ord:=ord) key sorted).
Proof.
  intros Hks Hk Ht Hd Hf sorted.
  destruct (grow_ok (c:=c) ks (SkipList.new c) []) as (s & E & Hh); [apply new_holds|done| |exact Hd|].
  { intros k x _ Hx. by apply elem_of_nil in Hx. }
  fold sorted in Hh. pose proof (fold_insert_perm (ord:=ord) ks []) as Hp. fold sorted in Hp.
  destruct (race_insert _ _ key t Hh Hk Ht) as (states & Hst & Hrace).
  { intros k Hin. apply Hf. by rewrite Hp in Hin. }
  exists s, states. split_and!; [done|done|apply Hst|exact Hrace].
Qed.

Lemma skiplist_racing_reader_witness :
  let ks := map list_byte_of_string ["m"; "c"]%string in
  let key := list_byte_of_string "h" in let t := list_byte_of_string "d" in
  exists s states, fold_left (fun s k => s ← s; SkipList.insert s k) ks (Ret (SkipList.new Bytewise)) = Ret s /\
    SkipList.insert s key = Ret (states MAX_HEIGHT) /\
    exists k n, race_run (search_fuel (states 0%nat)) states (fun _ => 1%nat) 0 t head 1 = Ret (k, n) /\
      key_at (states 1%nat) <$> n = Some key.
Proof.
  intros ks key t.
  destruct (skiplist_racing_reader Bytewise (fun _ => True) bytes_cmp ks key t) as (s & states & E & Hst & Hi & Hr).
  - by apply Forall_forall.
  - done.
  - done.
  - intros i j a b Hij Ha Hb. apply lookup_lt_Some in Hb as Hj. cbn in Hj.
    do 2 (destruct i as [|i]; [do 2 (destruct j as [|j]; [try lia; cbn in Ha, Hb; by simplify_eq|]); lia|]). lia.
  - intros k Hk. cbn in Hk. apply elem_of_cons in Hk as [->|Hk]; [done|].
    apply elem_of_cons in Hk as [->|Hk]; [done|]. by apply elem_of_nil in Hk.
  - exists s, states. split; [done|]. split; [done|].
    destruct (Hr (fun _ => 1%nat) 1%nat) as (k & n & Ek & En); [lia|unfold MAX_HEIGHT; lia|].
    exists k, n. split; [exact Ek|]. rewrite En. vm_compute. reflexivity.
Defined.

(** C35: (SkipList heights) The generator is the multiplicative congruential one of the
    comment, [state * 16807 mod (2^31 - 1)], without overflow on [u32], and never reaches
    its absorbing state 0; the heights drawn lie in [1, MAX_HEIGHT]. *)
Theorem skiplist_heights {C} (s : SkipList.t C) : 0 < SkipList.rng_state s < 2147483647 ->
  random_next (SkipList.rng_state s) = SkipList.rng_state s * 16807 mod 2147483647 /\
  0 < random_next (SkipList.rng_state s) < 2147483647 /\
  (1 <= (random_height s).1 <= MAX_HEIGHT)%nat.
Proof.
  intros Hs. destruct (random_next_spec _ Hs) as [H1 H2]. split_and!; [done|lia|lia|..];
    pose proof (height_loop_range MAX_HEIGHT 1 (rng_state s) ltac:(unfold MAX_HEIGHT; lia));
    unfold random_height; destruct (height_loop _ _ _); cbn in *; lia.
Qed.

Lemma skiplist_heights_witness :
  0 < SkipList.rng_state (SkipList.new Bytewise) < 2147483647 /\
  (1 <= (random_height (SkipList.new Bytewise)).1 <= MAX_HEIGHT)%nat.
Proof.
  assert (H : 0 < SkipList.rng_state (SkipList.new Bytewise) < 2147483647) by (split; vm_compute; reflexivity).
  split; [exact H|]. apply (skiplist_heights (SkipList.new Bytewise) H).
Defined.
