(* ===== verification/MemTable.v ===== *)
(** * MemTable.v: [memtable/memtable.rs].

    The in-memory write buffer over the skiplist: the two decoders of a memtable entry
    (checked and unchecked), the comparator of encoded entries, insertion, lookup, and
    the iterator.  An [unsafe] read outside the entry has no meaning in the code and is
    a [Panic] here; the claims show it does not happen on keys built by the memtable.
    [SharedMemTable] only shares a memtable between its owner and its iterators; an
    iterator holds the memtable it walks. *)
From S2P Require Import Prelude Status Coding Comparator Format DbIterator SkipList SkipListCorrect.

(** ** Decoding an entry *)

(** The [for index in 1..5] loop. *)
Fixpoint prefix_loop (fuel : nat) (data : bytes) (index result : Z) : option (bytes * Z) :=
  match fuel with
  | O => None
  | S fuel =>
      b ← data !! Z.to_nat index;
      if negb (Z.land (u8 b) 0x80 =? 0)
      then prefix_loop fuel data (index + 1)
             (Z.lor result (as_u32 (Z.shiftl (Z.land (u8 b) 0x7f) (7 * index))))
      else
        let result := Z.lor result (as_u32 (Z.shiftl (u8 b) (7 * index))) in
        let start := index + 1 in
        let end_ := start + result in
        if end_ <=? len data then Some (ztake (end_ - start) (zdrop start data), end_) else None
  end.
Definition get_memtable_length_prefixed_slice (data : bytes) : option (bytes * Z) :=
  first ← head data;
  if u8 first <? 0x80 then
    let end_ := 1 + u8 first in
    if end_ <=? len data then Some (ztake (end_ - 1) (zdrop 1 data), end_) else None
  else prefix_loop 4 data 1 (Z.land (u8 first) 0x7f).

(** The unchecked decoder's [loop]: a shift of 64 bits or more is outside its contract,
    so nine rounds are enough. *)
Fixpoint unchecked_loop (fuel : nat) (entry : bytes) (l shift : Z) (idx : nat) : outcome (Z * Z) :=
  match fuel with
  | O => Panic
  | S fuel =>
      b ← expect (entry !! idx);
      if Z.land (u8 b) 0x80 =? 0
      then Ret (Z.lor l (as_u64 (Z.shiftl (u8 b) shift)), Z.of_nat (S idx))
      else unchecked_loop fuel entry (Z.lor l (as_u64 (Z.shiftl (Z.land (u8 b) 0x7f) shift)))
             (shift + 7) (S idx)
  end.
Definition memtable_internal_key_unchecked (entry : bytes) : outcome bytes :=
  first ← expect (entry !! 0%nat);
  if u8 first <? 0x80 then slice entry 1 (1 + u8 first)
  else
    '(l, idx) ← unchecked_loop 9 entry (Z.land (u8 first) 0x7f) 7 1;
    slice entry idx (idx + l).

(** ** [KeyComparator] *)

Record KeyComparator (C : Type) := mk_kcmp { inner : InternalKeyComparator C }.
Arguments mk_kcmp {C} _.
Arguments inner {C} _.

Section KeyComparator.
Context {C : Type} `{Comparator C}.

Definition key_compare (self : KeyComparator C) (a b : bytes) : outcome comparison :=
  a_ik ← memtable_internal_key_unchecked a;
  b_ik ← memtable_internal_key_unchecked b;
  a_split ← usub (len a_ik) 8;
  b_split ← usub (len b_ik) 8;
  let a_user := ztake a_split a_ik in let a_tag := zdrop a_split a_ik in
  let b_user := ztake b_split b_ik in let b_tag := zdrop b_split b_ik in
  o ← compare (user_comparator (inner self)) a_user b_user;
  match o with
  | Eq => Ret (Z.compare (from_le_bytes b_tag) (from_le_bytes a_tag))
  | other => Ret other
  end.

#[export] Instance Key_Comparator : Comparator (KeyComparator C) := {|
  cmp_name _ := "pulsearc-db.MemTableKeyComparator";
  compare := key_compare;
  find_shortest_separator _ start _ := Ret start;
  find_short_successor _ key := Ret key;
|}.
End KeyComparator.

(** ** [MemTable] *)

Module MemTable.
Record t (C : Type) := mk { comparator : InternalKeyComparator C; list : SkipList.t (KeyComparator C) }.
Arguments mk {C} _ _.
Arguments comparator {C} _.
Arguments list {C} _.

Section ops.
Context {C : Type} `{Comparator C}.
Implicit Types self : t C.

Definition new (c : C) : t C :=
  let internal := mk_icmp c in
  mk internal (SkipList.new (mk_kcmp internal)).

(** Writing a varint into the entry at an offset. *)
Definition encode_at (entry : bytes) (offset value : Z) : outcome (bytes * Z) :=
  sub ← slice_from entry offset;
  '(sub, n) ← encode_varint32 sub value;
  Ret (ztake offset entry ++ sub, offset + n).

(** The closure given to [insert_with]. *)
Definition fill (key : bytes) (tag : Z) (value : bytes) (entry : bytes) : outcome bytes :=
  '(entry, offset) ← encode_at entry 0 (as_u32 (len key + 8));
  entry ← copy_from_slice entry offset (offset + len key) key;
  let offset := offset + len key in
  sub ← slice entry offset (offset + 8);
  sub ← encode_fixed64 sub tag;
  let entry := ztake offset entry ++ sub ++ zdrop (offset + 8) entry in
  let offset := offset + 8 in
  '(entry, offset) ← encode_at entry offset (as_u32 (len value));
  copy_from_slice entry offset (offset + len value) value.

Definition encoded_size (key value : bytes) : Z :=
  varint_length (len key + 8) + (len key + 8) + varint_length (len value) + len value.

(** [raw] are the arena bytes the entry is written over. *)
Definition add self (raw : bytes) (sequence : Z) (value_type : ValueType) (key value : bytes)
  : outcome (Z * t C) :=
  let size := encoded_size key value in
  let tag := as_u64 (Z.lor (as_u64 (Z.shiftl sequence 8)) (value_type_u8 value_type)) in
  l ← SkipList.insert_with (list self) (ztake size raw) (fill key tag value);
  Ret (size, mk (comparator self) l).

(** [None]: not here; [Some (Fail s)]: the [Err]; [Some (Ret v)]: the value. *)
Definition get self (lookup_key : LookupKey) : outcome (option (outcome bytes)) :=
  let mem_key := memtable_key lookup_key in
  iter ← SkipListCursor.seek (SkipListCursor.new (list self)) mem_key;
  if negb (SkipListCursor.valid iter) then Ret None else
  entry ← SkipListCursor.key iter;
  match get_memtable_length_prefixed_slice entry with
  | None => Ret None
  | Some (internal_key, value_offset) =>
      if len internal_key <? 8 then Ret (Some (Fail (Stat.corruption "memtable: short internal key"))) else
      entry_user_key ← slice_to internal_key (len internal_key - 8);
      lookup_user ← lookup_user_key lookup_key;
      o ← compare (user_comparator (comparator self)) entry_user_key lookup_user;
      if negb (is_eq o) then Ret None else
      tag ← read_tag internal_key;
      if Z.land tag 0xff =? value_type_u8 Deletion
      then Ret (Some (Fail (Stat.not_found "memtable tombstone"))) else
      rest ← slice_from entry value_offset;
      match get_memtable_length_prefixed_slice rest with
      | Some (value, _) => Ret (Some (Ret value))
      | None => Ret (Some (Fail (Stat.corruption "memtable: missing value")))
      end
  end.

(** The two halves of the entry a cursor stands at; the [expect]s of the code. *)
Definition entry_key (entry : bytes) : outcome bytes :=
  fst <$> expect (get_memtable_length_prefixed_slice entry).
Definition entry_value (entry : bytes) : outcome bytes :=
  '(_, value_offset) ← expect (get_memtable_length_prefixed_slice entry);
  rest ← slice_from entry value_offset;
  fst <$> expect (get_memtable_length_prefixed_slice rest).

(** [while iter.valid()]: one round per node. *)
Fixpoint collect_loop (fuel : nat) (iter : SkipListCursor.t (KeyComparator C)) (out : Datatypes.list (bytes * bytes))
  : outcome (Datatypes.list (bytes * bytes)) :=
  if SkipListCursor.valid iter then
    match fuel with
    | O => Panic
    | S fuel =>
        entry ← SkipListCursor.key iter;
        k ← entry_key entry;
        v ← entry_value entry;
        iter ← SkipListCursor.next iter;
        collect_loop fuel iter (out ++ [(k, v)])
    end
  else Ret out.
Definition collect_entries self : outcome (Datatypes.list (bytes * bytes)) :=
  iter ← SkipListCursor.seek_to_first (SkipListCursor.new (list self));
  collect_loop (length (SkipList.nodes (list self))) iter [].
End ops.
End MemTable.

(** ** [MemTableIterator] *)

Module MemTableIterator.
Record t (C : Type) := mk {
  table : MemTable.t C;
  iter : SkipListCursor.t (KeyComparator C);
  tmp : bytes;
}.
Arguments mk {C} _ _ _.
Arguments table {C} _.
Arguments iter {C} _.
Arguments tmp {C} _.

Section ops.
Context {C : Type} `{Comparator C}.
Implicit Types self : t C.

Definition new (m : MemTable.t C) : t C := mk m (SkipListCursor.new (MemTable.list m)) [].
Definition entry self : outcome bytes := SkipListCursor.key (iter self).
Definition with_iter self (it : outcome (SkipListCursor.t (KeyComparator C))) : outcome (t C) :=
  it ← it; Ret (mk (table self) it (tmp self)).
Definition seek self (target : bytes) : outcome (t C) :=
  let tmp := put_varint32 [] (as_u32 (len target)) ++ target in
  it ← SkipListCursor.seek (iter self) tmp; Ret (mk (table self) it tmp).
Definition key self : outcome bytes := e ← entry self; MemTable.entry_key e.
Definition value self : outcome bytes := e ← entry self; MemTable.entry_value e.

#[export] Instance MemTable_DbIterator : DbIterator (t C) := {|
  DbIterator.valid self := Ret (SkipListCursor.valid (iter self));
  DbIterator.seek_to_first self := with_iter self (SkipListCursor.seek_to_first (iter self));
  DbIterator.seek_to_last self := with_iter self (SkipListCursor.seek_to_last (iter self));
  DbIterator.seek := seek;
  DbIterator.next self := with_iter self (SkipListCursor.next (iter self));
  DbIterator.prev self := with_iter self (SkipListCursor.prev (iter self));
  DbIterator.iter_key := key;
  DbIterator.iter_value := value;
  DbIterator.iter_status _ := Ret tt;
|}.
End ops.
End MemTableIterator.
#[export] Existing Instance MemTableIterator.MemTable_DbIterator.

Example memtable_sample :
  let b := list_byte_of_string in
  let raw := replicate 100 Byte.x55 in
  (m ← Ret (MemTable.new Bytewise);
   '(_, m) ← MemTable.add m raw 1 Value (b "k") (b "one");
   '(n, m) ← MemTable.add m raw 2 Value (b "k") (b "two");
   '(_, m) ← MemTable.add m raw 3 Deletion (b "a") [];
   l1 ← LookupKey_new (b "k") 1; l2 ← LookupKey_new (b "k") 9; l3 ← LookupKey_new (b "a") 9;
   l4 ← LookupKey_new (b "a") 2;
   r1 ← MemTable.get m l1; r2 ← MemTable.get m l2; r3 ← MemTable.get m l3; r4 ← MemTable.get m l4;
   es ← MemTable.collect_entries m;
   Ret (n, r1, r2, r3, r4, map snd es))
  = Ret (14, Some (Ret (b "one")), Some (Ret (b "two")), Some (Fail (Stat.not_found "memtable tombstone")), None,
         [[]; b "two"; b "one"]).
Proof. vm_compute. reflexivity. Qed.
