(* ===== verification/MemTableCorrect.v ===== *)
(** * MemTableCorrect.v: the memtable is a sorted multi-version map.

    The two entry decoders agree with the length-prefixed codec, the entry comparator is
    the internal-key order, insertion writes every byte of an entry, and lookups and the
    iterator see the inserted records in internal-key order. *)
From S2P Require Import Prelude Status Coding Comparator Format DbIterator SkipList SkipListCorrect MemTable.
From Stdlib Require Import Sorted.

(** ** The decoders *)

Lemma drop_head (data : bytes) i : data !! i = head (drop i data).
Proof. by rewrite head_lookup, lookup_drop, Nat.add_0_r. Qed.

Lemma prefix_loop_get n data index result : 0 <= index -> (1 <= n)%nat ->
  prefix_loop n data index result =
  match get_varint_loop as_u32 (step_by7 (7 * index) n) (zdrop index data) result with
  | Some (l, rest) => if l <=? len rest then Some (ztake l rest, len data - len rest + l) else None
  | None => None
  end.
Proof.
  intros Hi _. revert index result Hi. induction n as [|n IH]; intros index result Hi; [done|].
  cbn [prefix_loop step_by7 get_varint_loop]. rewrite drop_head. change (zdrop index data) with (drop (Z.to_nat index) data).
  destruct (drop (Z.to_nat index) data) as [|b rest] eqn:Ed; [done|]. cbn [head mbind option_bind].
  assert (Hrest : zdrop (index + 1) data = rest).
  { rewrite <- zdrop_zdrop by lia. unfold zdrop at 2. by rewrite Ed. }
  assert (Hlen : len data = index + 1 + len rest).
  { assert (Hl : (Z.to_nat index < length data)%nat).
    { destruct (decide (Z.to_nat index < length data)%nat); [done|]. by rewrite drop_ge in Ed by lia. }
    apply (f_equal length) in Ed. rewrite length_drop in Ed. cbn in Ed. unfold len. lia. }
  destruct (Z.land (u8 b) 128 =? 0); cbn [negb].
  - rewrite Hrest. set (l := Z.lor result _).
    replace (index + 1 + l - (index + 1)) with l by lia.
    replace (len data - len rest + l) with (index + 1 + l) by lia.
    destruct (Z.leb_spec (index + 1 + l) (len data)), (Z.leb_spec l (len rest)); done || lia.
  - rewrite IH by lia. replace (7 * (index + 1)) with (7 * index + 7) by lia. by rewrite Hrest.
Qed.

(** The flag bit of a byte, both ways it is tested. *)
Lemma byte_flag b : (u8 b <? 0x80) = (Z.land (u8 b) 0x80 =? 0).
Proof. by destruct b. Qed.
Lemma byte_small b : Z.lor 0 (as_u32 (Z.shiftl (u8 b) 0)) = u8 b /\
  Z.lor 0 (as_u32 (Z.shiftl (Z.land (u8 b) 0x7f) 0)) = Z.land (u8 b) 0x7f /\
  Z.lor 0 (as_u64 (Z.shiftl (u8 b) 0)) = u8 b /\
  Z.lor 0 (as_u64 (Z.shiftl (Z.land (u8 b) 0x7f) 0)) = Z.land (u8 b) 0x7f.
Proof. by destruct b. Qed.

(** The hand-written decoder is the length-prefixed codec, with the offset behind the
    slice as its second result. *)
Lemma checked_decoder data :
  get_memtable_length_prefixed_slice data =
  match get_length_prefixed_slice data with
  | (Some s, rest) => Some (s, len data - len rest)
  | (None, _) => None
  end.
Proof.
  unfold get_memtable_length_prefixed_slice, get_length_prefixed_slice, get_varint32.
  destruct data as [|b data]; [done|]. cbn [head mbind option_bind].
  change (step_by7 0 5) with (0 :: step_by7 7 4). cbn [get_varint_loop]. rewrite byte_flag.
  destruct (byte_small b) as (-> & -> & _). destruct (Z.land (u8 b) 128 =? 0); cbn [negb].
  - replace (1 + u8 b - 1) with (u8 b) by lia. change (zdrop 1 (b :: data)) with data.
    rewrite len_cons. pose proof (u8_range b).
    destruct (Z.leb_spec (1 + u8 b) (1 + len data)), (Z.ltb_spec (len data) (u8 b)); try lia; [|done].
    do 2 f_equal. rewrite len_zdrop by len_lia. lia.
  - rewrite (prefix_loop_get 4) by lia. change (7 * 1) with 7. change (zdrop 1 (b :: data)) with data.
    destruct (get_varint_loop as_u32 (step_by7 7 4) data (Z.land (u8 b) 127)) as [[l rest]|] eqn:Eg; [|done].
    assert (0 <= l).
    { apply (get_varint_loop_range as_u32 32) in Eg; [lia|lia|intros; apply as_u32_range|].
      pose proof (u8_range b). split; [apply Z.land_nonneg; lia|].
      change 127 with (Z.ones 7). rewrite Z.land_ones by lia. pose proof (Z.mod_pos_bound (u8 b) (2 ^ 7)). lia. }
    destruct (Z.leb_spec l (len rest)), (Z.ltb_spec (len rest) l); try lia; [|done].
    do 2 f_equal. rewrite len_zdrop by len_lia. lia.
Qed.

Lemma unchecked_loop_get n entry l shift idx :
  unchecked_loop n entry l shift idx =
  match get_varint_loop as_u64 (step_by7 shift n) (drop idx entry) l with
  | Some (l, rest) => Ret (l, len entry - len rest)
  | None => Panic
  end.
Proof.
  revert l shift idx. induction n as [|n IH]; intros l shift idx; [done|].
  cbn [unchecked_loop step_by7 get_varint_loop]. rewrite drop_head.
  destruct (drop idx entry) as [|b rest] eqn:Ed; [done|]. cbn [head expect mbind outcome_bind].
  assert (Hrest : drop (S idx) entry = rest).
  { replace (S idx) with (idx + 1)%nat by lia. rewrite <- drop_drop, Ed. done. }
  destruct (Z.land (u8 b) 128 =? 0); cbn [negb].
  - apply (f_equal length) in Ed. rewrite length_drop in Ed. cbn in Ed. do 2 f_equal. unfold len. lia.
  - by rewrite IH, Hrest.
Qed.

(** The unchecked decoder reads a 64-bit length and trusts it. *)
Lemma unchecked_decoder entry :
  memtable_internal_key_unchecked entry =
  match get_varint64 entry with
  | (Some n, rest) => if n <=? len rest then Ret (ztake n rest) else Panic
  | (None, _) => Panic
  end.
Proof.
  unfold memtable_internal_key_unchecked, get_varint64.
  destruct entry as [|b entry]; [done|]. cbn [lookup list_lookup expect mbind outcome_bind].
  change (step_by7 0 10) with (0 :: step_by7 7 9). cbn [get_varint_loop]. rewrite byte_flag.
  destruct (byte_small b) as (_ & _ & -> & ->). destruct (Z.land (u8 b) 128 =? 0); cbn [negb].
  - pose proof (u8_range b). unfold slice. rewrite len_cons. change (zdrop 1 (b :: entry)) with entry.
    replace (1 + u8 b - 1) with (u8 b) by lia. cbn [Z.leb Z.compare andb].
    rewrite (proj2 (Z.leb_le 1 (1 + u8 b))) by lia. cbn [andb].
    destruct (Z.leb_spec (1 + u8 b) (1 + len entry)), (Z.leb_spec (u8 b) (len entry)); done || lia.
  - rewrite unchecked_loop_get. change (drop 1 (b :: entry)) with entry.
    destruct (get_varint_loop as_u64 (step_by7 7 9) entry (Z.land (u8 b) 127)) as [[l rest]|] eqn:Eg; [|done].
    cbn [mbind outcome_bind].
    assert (0 <= l).
    { apply (get_varint_loop_range as_u64 64) in Eg; [lia|lia|intros; apply as_u64_range|].
      pose proof (u8_range b). split; [apply Z.land_nonneg; lia|].
      change 127 with (Z.ones 7). rewrite Z.land_ones by lia. pose proof (Z.mod_pos_bound (u8 b) (2 ^ 7)). lia. }
    apply get_varint_loop_suffix in Eg as (pre & -> & _). unfold slice.
    rewrite len_cons, len_app. set (i := 1 + (len pre + len rest) - len rest).
    assert (Hi : i = len (b :: pre)) by (unfold i; len_lia).
    rewrite (proj2 (Z.leb_le 0 i)), (proj2 (Z.leb_le i (i + l))) by len_lia. cbn [andb].
    replace (i + l - i) with l by lia. rewrite app_comm_cons, zdrop_app_len by done.
    destruct (Z.leb_spec (i + l) (1 + (len pre + len rest))), (Z.leb_spec l (len rest)); done || len_lia.
Qed.

(** ** Memtable entries *)

(** An entry as [MemTable::add] writes it, and the keys the skiplist compares: an
    internal key with its length in front, and anything behind. *)
Definition mem_entry (ik v : bytes) : bytes :=
  put_length_prefixed_slice [] ik ++ put_length_prefixed_slice [] v.
Definition mem_ik (k : bytes) : bytes := default [] (get_length_prefixed_slice k).1.
Definition mem_val (k : bytes) : bytes := default [] (get_length_prefixed_slice (get_length_prefixed_slice k).2).1.
Definition mem_key_ok (k : bytes) : Prop :=
  exists ik rest, k = put_length_prefixed_slice [] ik ++ rest /\ ik_ok ik /\ is_u32 (len ik).
Definition mem_ord (ord : bytes -> bytes -> comparison) (a b : bytes) : comparison :=
  ik_ord ord (mem_ik a) (mem_ik b).

Lemma mem_ik_put ik rest : is_u32 (len ik) -> mem_ik (put_length_prefixed_slice [] ik ++ rest) = ik.
Proof. intros Hik. unfold mem_ik. by rewrite get_length_prefixed_put. Qed.

Lemma unchecked_put ik rest : is_u32 (len ik) ->
  memtable_internal_key_unchecked (put_length_prefixed_slice [] ik ++ rest) = Ret ik.
Proof.
  intros Hik. rewrite unchecked_decoder. unfold put_length_prefixed_slice.
  rewrite as_u32_id, <- app_assoc by done. change (put_varint32 [] (len ik)) with (put_varint64 [] (len ik)).
  rewrite get_varint64_put by (by apply is_u32_u64). rewrite (proj2 (Z.leb_le _ _)) by len_lia.
  by rewrite ztake_app_len.
Qed.

Section laws.
Context {C : Type} `{Comparator C} {c : C} {ord : bytes -> bytes -> comparison}
  `{!ComparatorLaws c (fun _ => True) ord}.

#[local] Instance mem_user_total : TotalOrd ord := laws_ord (c:=c).

#[export] Instance mem_ord_total : TotalOrd (mem_ord ord).
Proof.
  split; unfold mem_ord.
  - intros a b. apply (ord_opp (ord:=ik_ord ord)).
  - intros a b d. apply (ord_le_trans (ord:=ik_ord ord)).
Qed.

Lemma key_compare_ok a b : mem_key_ok a -> mem_key_ok b ->
  key_compare (mk_kcmp (mk_icmp c)) a b = Ret (mem_ord ord a b).
Proof.
  intros (ika & ra & -> & Ha & Hla) (ikb & rb & -> & Hb & Hlb). unfold key_compare, mem_ord.
  rewrite !unchecked_put, !mem_ik_put by done. cbn [mbind outcome_bind].
  unfold usub. rewrite !(proj2 (Z.leb_le 8 _)) by done. cbn [mbind outcome_bind inner user_comparator].
  rewrite compare_ord by done. cbn [mbind outcome_bind]. unfold ik_ord, ukey, utag.
  by destruct (ord _ _).
Qed.

#[export] Instance Key_Laws : ComparatorLaws (mk_kcmp (mk_icmp c)) mem_key_ok (mem_ord ord).
Proof.
  split; [apply _|exact key_compare_ok| |].
  - intros a b Ha _ _. exists a. rewrite (ord_refl (ord:=mem_ord ord)). by split_and!.
  - intros a Ha. exists a. rewrite (ord_refl (ord:=mem_ord ord)). by split_and!.
Qed.
End laws.

(** ** Writing an entry *)

Lemma encode_at_ok pre buf offset v : offset = len pre -> is_u64 v ->
  let e := put_varint32 [] v in len e <= len buf ->
  MemTable.encode_at (pre ++ buf) offset v = Ret (pre ++ e ++ zdrop (len e) buf, offset + len e).
Proof.
  intros -> Hv e He. unfold MemTable.encode_at. rewrite slice_from_app by done. cbn [mbind outcome_bind].
  unfold encode_varint32. rewrite encode_varint64_spec by done. cbn [mbind outcome_bind].
  by rewrite ztake_app_len.
Qed.

Lemma fill_ok key tag value raw : is_u32 (len key + 8) -> is_u32 (len value) ->
  len raw = MemTable.encoded_size key value ->
  MemTable.fill key tag value raw = Ret (mem_entry (mk_ikey key tag) value).
Proof.
  intros Hk Hv Hraw. unfold MemTable.encoded_size in Hraw.
  rewrite !varint_length_put in Hraw by (by apply is_u32_u64).
  unfold MemTable.fill, mem_entry, put_length_prefixed_slice, mk_ikey. rewrite !len_app, len_le_split, !as_u32_id by done.
  change (Z.of_nat 8) with 8 in *. set (e1 := put_varint32 [] (len key + 8)). set (e2 := put_varint32 [] (len value)).
  change (put_varint64 [] (len key + 8)) with e1 in Hraw. change (put_varint64 [] (len value)) with e2 in Hraw.
  rewrite <- (app_nil_l raw) at 1. rewrite encode_at_ok by first [done | by apply is_u32_u64 | fold e1; len_lia].
  fold e1. cbn [app mbind outcome_bind]. set (R1 := zdrop (len e1) raw).
  assert (HR1 : len R1 = len key + 8 + len e2 + len value) by (unfold R1; rewrite len_zdrop; len_lia).
  rewrite Z.add_0_l, <- (ztake_zdrop (len key) R1).
  rewrite copy_from_slice_app by (rewrite ?len_ztake; len_lia). cbn [mbind outcome_bind].
  set (R2 := zdrop (len key) R1). assert (HR2 : len R2 = 8 + len e2 + len value) by (unfold R2; rewrite len_zdrop; len_lia).
  rewrite <- (ztake_zdrop 8 R2), (app_assoc e1 key).
  rewrite slice_app by (rewrite ?len_ztake; len_lia). cbn [mbind outcome_bind].
  unfold encode_fixed64. rewrite <- (app_nil_r (ztake 8 R2)) at 1.
  rewrite copy_from_slice_prefix by (rewrite ?len_le_split, ?len_ztake; len_lia). cbn [mbind outcome_bind].
  set (R3 := zdrop 8 R2). assert (HR3 : len R3 = len e2 + len value) by (unfold R3; rewrite len_zdrop; len_lia).
  rewrite ztake_app_len by len_lia. rewrite (app_assoc (e1 ++ key) (ztake 8 R2)), zdrop_app_len by (rewrite !len_app, len_ztake by len_lia; len_lia).
  rewrite app_nil_r, (app_assoc (e1 ++ key)).
  rewrite encode_at_ok by first [by apply is_u32_u64 | rewrite ?len_app, ?len_le_split; len_lia | fold e2; len_lia].
  fold e2. cbn [mbind outcome_bind]. set (R4 := zdrop (len e2) R3).
  assert (HR4 : len R4 = len value) by (unfold R4; rewrite len_zdrop; len_lia).
  rewrite (app_assoc _ e2), <- (app_nil_r R4).
  rewrite copy_from_slice_app by (rewrite ?len_app, ?len_le_split; len_lia).
  rewrite app_nil_r. cbn [app]. by rewrite <- !app_assoc.
Qed.

Lemma add_tag seq ty : 0 <= seq <= MAX_SEQUENCE_NUMBER ->
  as_u64 (Z.lor (as_u64 (Z.shiftl seq 8)) (value_type_u8 ty)) = mk_tag seq ty.
Proof.
  intros Hs. rewrite (as_u64_id (Z.shiftl seq 8)).
  - rewrite lor_tag. apply as_u64_id. by apply mk_tag_u64.
  - rewrite Z.shiftl_mul_pow2 by lia. unfold is_u64, MAX_SEQUENCE_NUMBER in *. lia.
Qed.

Lemma mem_entry_len key tag value : is_u32 (len key + 8) -> is_u32 (len value) ->
  len (mem_entry (mk_ikey key tag) value) = MemTable.encoded_size key value.
Proof.
  intros Hk Hv. unfold mem_entry, put_length_prefixed_slice, MemTable.encoded_size, mk_ikey.
  rewrite !len_app, len_le_split, !as_u32_id, !varint_length_put by (done || by apply is_u32_u64).
  change (put_varint32 [] ?v) with (put_varint64 [] v). change (Z.of_nat 8) with 8. lia.
Qed.

(** ** Contents *)

Section contents.
Context {C : Type} `{Comparator C} {c : C} {ord : bytes -> bytes -> comparison}
  `{!ComparatorLaws c (fun _ => True) ord}.

#[local] Instance mem_user_total' : TotalOrd ord := laws_ord (c:=c).

Notation kcmp := (mk_kcmp (mk_icmp c)).
Notation iord := (ik_ord ord).

Definition entry_ok (e : bytes * bytes) : Prop := ik_ok e.1 /\ is_u32 (len e.1) /\ is_u32 (len e.2).
Definition encode_entry (e : bytes * bytes) : bytes := mem_entry e.1 e.2.

(** The memtable holds the entries [es], in the order of internal keys. *)
Definition mem_holds (m : MemTable.t C) (es : list (bytes * bytes)) : Prop :=
  MemTable.comparator m = mk_icmp c /\ Forall entry_ok es /\
  holds (c:=kcmp) (key_ok:=mem_key_ok) (ord:=mem_ord ord) (MemTable.list m) (map encode_entry es).

Lemma encode_entry_ok e : entry_ok e -> mem_key_ok (encode_entry e) /\ mem_ik (encode_entry e) = e.1.
Proof.
  intros (Hi & Hl & Hv). unfold encode_entry, mem_entry. split.
  - by exists e.1, (put_length_prefixed_slice [] e.2).
  - by apply mem_ik_put.
Qed.

Lemma mem_ord_entries a b : entry_ok a -> entry_ok b ->
  mem_ord ord (encode_entry a) (encode_entry b) = iord a.1 b.1.
Proof. intros Ha Hb. unfold mem_ord. by rewrite (proj2 (encode_entry_ok a Ha)), (proj2 (encode_entry_ok b Hb)). Qed.

(** Insertion of an entry in internal-key order. *)
Fixpoint insert_entry (x : bytes * bytes) (es : list (bytes * bytes)) : list (bytes * bytes) :=
  match es with
  | [] => [x]
  | e :: es' => if is_lt (iord e.1 x.1) then e :: insert_entry x es' else x :: es
  end.

Lemma insert_entry_map x es : entry_ok x -> Forall entry_ok es ->
  insert_key (ord:=mem_ord ord) (encode_entry x) (map encode_entry es) = map encode_entry (insert_entry x es).
Proof.
  intros Hx. induction 1 as [|e es He Hes IH]; [done|]. cbn.
  rewrite mem_ord_entries by done. destruct (is_lt _); [|done]. cbn. by rewrite IH.
Qed.

Lemma insert_entry_perm x es : insert_entry x es ≡ₚ x :: es.
Proof.
  induction es as [|e es IH]; cbn; [done|]. destruct (is_lt _); [|done].
  rewrite IH. apply Permutation_swap.
Qed.

Lemma mem_new_holds : mem_holds (MemTable.new c) [].
Proof. split_and!; [done|constructor|apply new_holds]. Qed.

(** One record: its internal key is new, its sequence number and sizes are in range. *)
Definition record_ok (r : ParsedInternalKey * bytes) : Prop :=
  0 <= sequence r.1 <= MAX_SEQUENCE_NUMBER /\ is_u32 (len (user_key r.1) + 8) /\ is_u32 (len r.2).
Definition record_entry (r : ParsedInternalKey * bytes) : bytes * bytes :=
  (mk_ikey (user_key r.1) (mk_tag (sequence r.1) (value_type r.1)), r.2).

Lemma record_entry_ok r : record_ok r -> entry_ok (record_entry r).
Proof.
  intros (Hs & Hk & Hv). split_and!; [apply ik_ok_mk| |done]. unfold record_entry, mk_ikey. cbn [fst].
  by rewrite len_app, len_le_split.
Qed.

Lemma add_ok m es raw r : mem_holds m es -> record_ok r ->
  MemTable.encoded_size (user_key r.1) r.2 <= len raw ->
  (forall e, e ∈ es -> iord e.1 (record_entry r).1 <> Eq) ->
  exists m', MemTable.add m raw (sequence r.1) (value_type r.1) (user_key r.1) r.2
      = Ret (MemTable.encoded_size (user_key r.1) r.2, m') /\
    mem_holds m' (insert_entry (record_entry r) es).
Proof.
  intros (Hc & Hes & Hh) Hr Hraw Hf. pose proof (record_entry_ok r Hr) as He.
  destruct Hr as (Hs & Hk & Hv). unfold MemTable.add, SkipList.insert_with.
  assert (Hsz : 0 <= MemTable.encoded_size (user_key r.1) r.2).
  { rewrite <- (mem_entry_len _ 0) by done. apply len_nonneg. }
  rewrite add_tag, fill_ok by (done || (apply len_ztake; lia)). cbn [mbind outcome_bind].
  change (mem_entry _ _) with (encode_entry (record_entry r)).
  destruct (insert_ok (c:=kcmp) (MemTable.list m) _ (encode_entry (record_entry r)) Hh) as (l & -> & Hl).
  - by apply encode_entry_ok.
  - intros k Hk'. apply list_elem_of_In, in_map_iff in Hk' as (e & <- & Hin%list_elem_of_In).
    rewrite Forall_forall in Hes. rewrite mem_ord_entries by (done || by apply Hes). by apply Hf.
  - cbn [mbind outcome_bind]. eexists. split; [done|]. split_and!; [done| |].
    + rewrite insert_entry_perm. by constructor.
    + cbn [MemTable.list]. by rewrite <- insert_entry_map.
Qed.

Lemma holds_entries_sorted m es : mem_holds m es -> sorted_entries iord es.
Proof.
  intros (_ & Hes & Hh). apply holds_sorted in Hh. rewrite Forall_forall in Hes.
  assert (Hsub : forall e, e ∈ es -> entry_ok e) by done. clear Hes.
  induction es as [|e es IH]; [by intros i j a b _ ?|].
  cbn in Hh. apply StronglySorted_inv in Hh as [Hh He].
  apply sorted_cons; [|apply IH; [done|intros; apply Hsub; by constructor]].
  intros x Hx. rewrite Forall_forall in He. rewrite <- mem_ord_entries by (apply Hsub; first [by apply elem_of_cons; left | by apply elem_of_cons; right]).
  apply He. apply list_elem_of_In, in_map, list_elem_of_In, Hx.
Qed.

(** The entry a node holds. *)
Lemma node_entry (m : MemTable.t C) es sq i x :
  map encode_entry es = keys (MemTable.list m) sq -> sq !! i = Some x ->
  exists e, es !! i = Some e /\ key_at (MemTable.list m) x = encode_entry e.
Proof.
  intros Hk Hx. apply (f_equal (fun l => l !! i)) in Hk. unfold keys in Hk.
  rewrite !list_lookup_fmap, Hx in Hk. cbn in Hk. destruct (es !! i) as [e|]; [|done].
  exists e. cbn in Hk. split; [done|]. congruence.
Qed.

Lemma entry_key_ok e : entry_ok e ->
  get_memtable_length_prefixed_slice (encode_entry e) = Some (e.1, len (put_length_prefixed_slice [] e.1)) /\
  slice_from (encode_entry e) (len (put_length_prefixed_slice [] e.1)) = Ret (put_length_prefixed_slice [] e.2) /\
  get_memtable_length_prefixed_slice (put_length_prefixed_slice [] e.2) = Some (e.2, len (put_length_prefixed_slice [] e.2)).
Proof.
  intros (Hi & Hl & Hv). unfold encode_entry, mem_entry. split_and!.
  - rewrite checked_decoder, get_length_prefixed_put by done. do 2 f_equal. len_lia.
  - by apply slice_from_app.
  - rewrite checked_decoder, <- (app_nil_r (put_length_prefixed_slice [] e.2)) at 1.
    rewrite get_length_prefixed_put by done. do 2 f_equal. rewrite len_nil. lia.
Qed.

Lemma entry_halves e : entry_ok e ->
  MemTable.entry_key (encode_entry e) = Ret e.1 /\ MemTable.entry_value (encode_entry e) = Ret e.2.
Proof.
  intros He. destruct (entry_key_ok e He) as (H1 & H2 & H3).
  unfold MemTable.entry_key, MemTable.entry_value. rewrite H1. cbn [expect fmap outcome_fmap mbind outcome_bind fst].
  by rewrite H2; cbn [mbind outcome_bind]; rewrite H3.
Qed.

(** ** The iterator *)

Definition mem_at (m : MemTable.t C) (sq : list nat) (it : MemTableIterator.t C) (p : option nat) : Prop :=
  MemTableIterator.table it = m /\ cursor_at (MemTable.list m) sq (MemTableIterator.iter it) p.
Definition mem_target_ok (t : bytes) : Prop := ik_ok t /\ is_u32 (len t).

(** The iterator's own encoding of a target. *)
Lemma target_key_ok t : mem_target_ok t ->
  mem_key_ok (put_varint32 [] (as_u32 (len t)) ++ t) /\ mem_ik (put_varint32 [] (as_u32 (len t)) ++ t) = t.
Proof.
  intros [Hi Hl]. change (put_varint32 [] (as_u32 (len t)) ++ t) with (put_length_prefixed_slice [] t).
  rewrite <- (app_nil_r (put_length_prefixed_slice [] t)). split; [by exists t, []|by apply mem_ik_put].
Qed.

Lemma pos_first_decide {A} (es : list A) : pos_first es = if decide (0 < length es)%nat then Some 0%nat else None.
Proof. destruct es; cbn [pos_first length]; case_decide; done || lia. Qed.
Lemma pos_last_decide {A} (es : list A) :
  pos_last es = if decide (0 < length es)%nat then Some (length es - 1)%nat else None.
Proof. destruct es; cbn [pos_last length]; case_decide; done || lia. Qed.

(** Where a seek of an encoded key lands, in the list of entries. *)
Lemma seek_position es (ks : nat -> option bytes) t i : Forall entry_ok es -> mem_target_ok (mem_ik t) ->
  (forall j, ks j = encode_entry <$> es !! j) -> (i <= length es)%nat ->
  (forall j k, (j < i)%nat -> ks j = Some k -> mem_ord ord k t = Lt) ->
  (forall j k, (i <= j)%nat -> ks j = Some k -> mem_ord ord k t <> Lt) ->
  pos_seek iord es (mem_ik t) = if decide (i < length es)%nat then Some i else None.
Proof.
  intros Hes Ht Hks Hi H1 H2. rewrite Forall_lookup in Hes.
  assert (Hord : forall j e, es !! j = Some e -> mem_ord ord (encode_entry e) t = iord e.1 (mem_ik t)).
  { intros j e He. unfold mem_ord. by rewrite (proj2 (encode_entry_ok e (Hes _ _ He))). }
  case_decide as Hd.
  - apply pos_seek_intro; [done| |].
    + intros e He. rewrite <- (Hord i) by done. apply (H2 i); [lia|]. by rewrite Hks, He.
    + intros j e Hj He. rewrite <- (Hord j) by done. apply (H1 j); [lia|]. by rewrite Hks, He.
  - apply pos_seek_intro_none. intros j e He. rewrite <- (Hord j) by done.
    apply (H1 j); [apply lookup_lt_Some in He; lia|]. by rewrite Hks, He.
Qed.

Lemma cursor_seek_entry m es sq lh cur p k t : Forall entry_ok es ->
  linked (c:=kcmp) (key_ok:=mem_key_ok) (ord:=mem_ord ord) (MemTable.list m) sq lh ->
  complete lh sq -> map encode_entry es = keys (MemTable.list m) sq ->
  cursor_at (MemTable.list m) sq cur p -> mem_key_ok k -> mem_ik k = t -> mem_target_ok t ->
  exists cur', SkipListCursor.seek cur k = Ret cur' /\
    cursor_at (MemTable.list m) sq cur' (pos_seek iord es t).
Proof.
  intros Hes Hl Hc Hk Hp Hkey Hik Htok.
  assert (Hlen : length es = length sq).
  { apply (f_equal length) in Hk. unfold keys in Hk. by rewrite !length_map in Hk. }
  destruct (cursor_seek _ _ _ Hl Hc _ _ _ Hp Hkey) as (cur' & i & E & Hi & Hcur & H1 & H2).
  exists cur'. split; [done|]. rewrite <- Hlen in Hi, Hcur. subst t.
  rewrite (seek_position es (fun j => key_at (MemTable.list m) <$> sq !! j) _ i); try done.
  - intros j. apply (f_equal (fun l => l !! j)) in Hk. unfold keys in Hk. by rewrite !list_lookup_fmap in Hk.
  - intros j y Hj Hy. destruct (sq !! j) as [z|] eqn:Ez; [|done]. cbn in Hy. simplify_eq. by apply (H1 j).
  - intros j y Hj Hy. destruct (sq !! j) as [z|] eqn:Ez; [|done]. cbn in Hy. simplify_eq. by apply (H2 j).
Qed.

Lemma mem_iter_laws m es sq lh : Forall entry_ok es ->
  linked (c:=kcmp) (key_ok:=mem_key_ok) (ord:=mem_ord ord) (MemTable.list m) sq lh ->
  complete lh sq -> map encode_entry es = keys (MemTable.list m) sq ->
  IterLaws iord es mem_target_ok (mem_at m sq).
Proof.
  intros Hes Hl Hc Hk. assert (Hlen : length es = length sq).
  { apply (f_equal length) in Hk. unfold keys in Hk. by rewrite !length_map in Hk. }
  split.
  - intros it p [_ Hp]. cbn. f_equal. rewrite (cursor_valid _ _ _ _ Hp). by destruct p.
  - intros it i [_ (_ & x & _ & Hx)]. rewrite Hlen. by eapply lookup_lt_Some.
  - intros it p [Ht Hp]. destruct (cursor_first _ _ _ Hl Hc _ _ Hp) as (cur & E & Hcur).
    cbn. unfold MemTableIterator.with_iter. rewrite E. eexists. split; [done|]. split; [done|].
    by rewrite pos_first_decide, Hlen.
  - intros it p [Ht Hp]. destruct (cursor_last _ _ _ Hl Hc _ _ Hp) as (cur & E & Hcur).
    cbn. unfold MemTableIterator.with_iter. rewrite E. eexists. split; [done|]. split; [done|].
    by rewrite pos_last_decide, Hlen.
  - intros it p t [Ht Hp] Htok. destruct (target_key_ok t Htok) as [Hkey Hik].
    destruct (cursor_seek_entry m es sq lh _ p _ t Hes Hl Hc Hk Hp Hkey Hik Htok) as (cur & E & Hcur).
    cbn. unfold MemTableIterator.seek. rewrite E. eexists. by split.
  - intros it i [Ht Hp]. destruct (cursor_next _ _ _ Hl Hc _ _ Hp) as (cur & E & Hcur).
    cbn. unfold MemTableIterator.with_iter. rewrite E. eexists. split; [done|]. split; [done|].
    unfold pos_next. by rewrite Hlen.
  - intros it i [Ht Hp]. destruct (cursor_prev _ _ _ Hl Hc _ _ Hp) as (cur & E & Hcur).
    cbn. unfold MemTableIterator.with_iter. rewrite E. eexists. split; [done|]. split; [done|].
    by destruct i.
  - intros it i e [Ht Hp] He. pose proof Hp as (_ & x & _ & Hx).
    destruct (node_entry m es sq i x Hk Hx) as (e' & He' & Hkx). simplify_eq.
    rewrite Forall_lookup in Hes. destruct (entry_halves e (Hes _ _ He)) as [E1 E2].
    cbn. unfold MemTableIterator.key, MemTableIterator.value, MemTableIterator.entry.
    rewrite (cursor_key _ _ _ Hl _ _ _ Hp Hx), Hkx. cbn [mbind outcome_bind]. by rewrite E1, E2.
  - done.
Qed.

(** ** Lookup *)

Lemma lookup_key_ok uk seq : 0 <= seq <= MAX_SEQUENCE_NUMBER -> is_u32 (len uk + 8) ->
  exists l, LookupKey_new uk seq = Ret l /\
    memtable_key l = put_length_prefixed_slice [] (mk_ikey uk (mk_tag seq Value)) /\
    lookup_user_key l = Ret uk.
Proof.
  intros Hs Hu. unfold LookupKey_new. rewrite pack_ok by lia. cbn [mbind outcome_bind].
  eexists. split; [done|]. unfold memtable_key, lookup_user_key. cbn [lk_rep kstart]. unfold put_fixed64, mk_ikey.
  split.
  - unfold put_length_prefixed_slice. rewrite len_app, len_le_split, <- app_assoc. done.
  - unfold usub. rewrite !len_app, len_le_split. change (Z.of_nat 8) with 8.
    rewrite (proj2 (Z.leb_le 8 _)) by len_lia. cbn [mbind outcome_bind].
    rewrite <- app_assoc. apply slice_app; len_lia.
Qed.

(** A lookup returns what the first entry at or after the lookup key says about the user
    key. *)
Lemma get_spec m es uk seq : mem_holds m es -> 0 <= seq <= MAX_SEQUENCE_NUMBER -> is_u32 (len uk + 8) ->
  exists l, LookupKey_new uk seq = Ret l /\
    MemTable.get m l = Ret
      (i ← pos_seek iord es (mk_ikey uk (mk_tag seq Value));
       e ← es !! i;
       if negb (is_eq (ord (ukey e.1) uk)) then None
       else if Z.land (utag e.1) 0xff =? value_type_u8 Deletion
            then Some (Fail (Stat.not_found "memtable tombstone")) else Some (Ret e.2)).
Proof.
  intros (Hcmp & Hes & sq & lh & Hl & Hc & Hk) Hs Hu.
  destruct (lookup_key_ok uk seq Hs Hu) as (l & El & Hmk & Huk). exists l. split; [done|].
  unfold MemTable.get. rewrite Hmk. set (tik := mk_ikey uk (mk_tag seq Value)) in *.
  assert (Htok : mem_target_ok tik).
  { split; [apply ik_ok_mk|]. unfold tik, mk_ikey. by rewrite len_app, len_le_split. }
  destruct (target_key_ok tik Htok) as [Hkey Hik].
  change (put_varint32 [] (as_u32 (len tik)) ++ tik) with (put_length_prefixed_slice [] tik) in *.
  destruct (cursor_seek_entry m es sq lh (SkipListCursor.new (MemTable.list m)) None _ tik Hes Hl Hc Hk
    ltac:(by split) Hkey Hik Htok) as (cur & -> & Hcur). cbn [mbind outcome_bind].
  rewrite (cursor_valid _ _ _ _ Hcur). destruct (pos_seek iord es tik) as [i|]; [|done].
  rewrite bool_decide_eq_true_2 by done. cbn [negb].
  pose proof Hcur as (_ & x & _ & Hx).
  destruct (node_entry m es sq i x Hk Hx) as (e & He & Hkx).
  rewrite (cursor_key _ _ _ Hl _ _ _ Hcur Hx), Hkx. cbn [mbind outcome_bind option_bind]. rewrite He. cbn [mbind option_bind].
  rewrite Forall_lookup in Hes. pose proof (Hes _ _ He) as Heok. pose proof Heok as (Hik8 & _ & _).
  destruct (entry_key_ok e Heok) as (E1 & E2 & E3). rewrite E1, Huk.
  rewrite (proj2 (Z.ltb_ge _ _)) by done.
  unfold slice_to. rewrite slice_ok by (unfold ik_ok in *; lia). cbn [mbind outcome_bind].
  rewrite zdrop_0, Z.sub_0_r. change (ztake (len e.1 - 8) e.1) with (ukey e.1).
  rewrite Hcmp. cbn [user_comparator]. rewrite compare_ord by done. cbn [mbind outcome_bind].
  destruct (negb _); [done|]. rewrite read_tag_ok by done. cbn [mbind outcome_bind].
  destruct (_ =? _); [done|]. rewrite E2. cbn [mbind outcome_bind]. by rewrite E3.
Qed.

(** ** A memtable built from records *)

Abbreviation record := (ParsedInternalKey * bytes)%type (only parsing).

Definition add_record (raw : bytes) (m : outcome (MemTable.t C)) (r : record) : outcome (MemTable.t C) :=
  m ← m; snd <$> MemTable.add m raw (sequence r.1) (value_type r.1) (user_key r.1) r.2.
Definition build (raw : bytes) (ops : list record) : outcome (MemTable.t C) :=
  fold_left (add_record raw) ops (Ret (MemTable.new c)).
Definition built_entries (ops : list record) : list (bytes * bytes) :=
  fold_left (fun es r => insert_entry (record_entry r) es) ops [].

(** Every record fits, its arena bytes are there, and sequence numbers are not reused. *)
Definition ops_ok (raw : bytes) (ops : list record) : Prop :=
  Forall (fun r => record_ok r /\ MemTable.encoded_size (user_key r.1) r.2 <= len raw) ops /\
  NoDup (map (fun r => sequence r.1) ops).

Lemma built_perm ops es : fold_left (fun es r => insert_entry (record_entry r) es) ops es ≡ₚ es ++ map record_entry ops.
Proof.
  revert es. induction ops as [|r ops IH]; intros es; cbn; [by rewrite app_nil_r|].
  rewrite IH, insert_entry_perm. by rewrite <- Permutation_middle.
Qed.

Lemma record_entries_differ r r' : record_ok r -> record_ok r' -> sequence r.1 <> sequence r'.1 ->
  iord (record_entry r).1 (record_entry r').1 <> Eq.
Proof.
  intros (Hs & _) (Hs' & _) Hne E. unfold ik_ord, record_entry in E. cbn [fst] in E.
  rewrite !ukey_mk, !utag_mk in E by (by apply mk_tag_u64).
  destruct (ord _ _); [|done..]. apply Z.compare_eq_iff in E. unfold mk_tag in E.
  destruct (value_type r.1), (value_type r'.1); cbn in E; lia.
Qed.

Lemma build_ok raw ops : ops_ok raw ops ->
  exists m, build raw ops = Ret m /\ mem_holds m (built_entries ops).
Proof.
  intros [Hok Hnd]. unfold build, built_entries.
  assert (Hgen : forall m es done, mem_holds m es -> es ≡ₚ map record_entry done ->
    Forall record_ok done -> NoDup (map (fun r => sequence r.1) (done ++ ops)) ->
    exists m', fold_left (add_record raw) ops (Ret m) = Ret m' /\
      mem_holds m' (fold_left (fun es r => insert_entry (record_entry r) es) ops es)).
  2: { apply (Hgen _ _ []); [apply mem_new_holds|done|constructor|done]. }
  clear Hnd. induction Hok as [|r ops [Hr Hraw] Hok IH]; intros m es old Hm Hp Hold Hnd; cbn [fold_left]; [eauto|].
  destruct (add_ok m es raw r Hm Hr Hraw) as (m' & E & Hm').
  { intros e He. rewrite Hp in He. apply list_elem_of_In, in_map_iff in He as (r' & <- & Hr'%list_elem_of_In).
    apply record_entries_differ; [|done|].
    - rewrite Forall_forall in Hold. by apply Hold.
    - rewrite map_app in Hnd. apply NoDup_app in Hnd as (_ & Hd & _). intros Heq.
      apply (Hd (sequence r'.1)); [apply list_elem_of_In, (in_map (fun r => sequence r.1)), list_elem_of_In, Hr'|].
      rewrite Heq. by constructor. }
  unfold add_record at 2. cbn [mbind outcome_bind]. rewrite E. cbn [fmap outcome_fmap snd].
  apply (IH m' _ (old ++ [r])); [done| | |by rewrite <- app_assoc].
  - rewrite insert_entry_perm, Hp, map_app. apply Permutation_cons_append.
  - apply Forall_app. split; [done|by constructor].
Qed.

(** The newest record of a user key visible at a sequence number. *)
Definition visible (uk : bytes) (snap : Z) (r : record) : bool :=
  is_eq (ord (user_key r.1) uk) && (sequence r.1 <=? snap).
Fixpoint newest (uk : bytes) (snap : Z) (ops : list record) : option record :=
  match ops with
  | [] => None
  | r :: ops =>
      match newest uk snap ops with
      | Some b => if visible uk snap r && (sequence b.1 <? sequence r.1) then Some r else Some b
      | None => if visible uk snap r then Some r else None
      end
  end.
Definition answer (r : option record) : option (outcome bytes) :=
  r ← r; Some (match value_type r.1 with
               | Deletion => Fail (Stat.not_found "memtable tombstone")
               | Value => Ret r.2
               end).

Lemma newest_spec uk snap ops :
  match newest uk snap ops with
  | Some b => b ∈ ops /\ visible uk snap b = true /\
      forall r, r ∈ ops -> visible uk snap r = true -> sequence r.1 <= sequence b.1
  | None => forall r, r ∈ ops -> visible uk snap r = false
  end.
Proof.
  induction ops as [|r ops IH]; cbn [newest]; [by intros r ?%elem_of_nil|].
  destruct (newest uk snap ops) as [b|].
  - destruct IH as (Hin & Hv & Hmax). destruct (visible uk snap r) eqn:Er; cbn [andb].
    + destruct (Z.ltb_spec (sequence b.1) (sequence r.1)).
      * split_and!; [by constructor|done|]. intros r' [->|Hr']%elem_of_cons Hv'; [lia|]. specialize (Hmax r' Hr' Hv'). lia.
      * split_and!; [by constructor|done|]. intros r' [->|Hr']%elem_of_cons Hv'; [lia|by apply Hmax].
    + split_and!; [by constructor|done|]. intros r' [->|Hr']%elem_of_cons Hv'; [congruence|by apply Hmax].
  - destruct (visible uk snap r) eqn:Er.
    + split_and!; [by constructor|done|]. intros r' [->|Hr']%elem_of_cons Hv'; [lia|]. by rewrite IH in Hv'.
    + intros r' [->|Hr']%elem_of_cons; [done|by apply IH].
Qed.

(** A record is visible exactly if its entry is a version of the key that does not sort
    before the lookup key. *)
Lemma visible_entry uk snap r : record_ok r -> 0 <= snap <= MAX_SEQUENCE_NUMBER ->
  visible uk snap r = is_eq (ord (ukey (record_entry r).1) uk) &&
    is_ge (iord (record_entry r).1 (mk_ikey uk (mk_tag snap Value))).
Proof.
  intros (Hs & _) Hsnap. unfold visible, ik_ord, record_entry. cbn [fst].
  rewrite !ukey_mk, !utag_mk by (by apply mk_tag_u64).
  destruct (ord (user_key r.1) uk); [cbn [is_eq andb]|done..]. unfold mk_tag.
  destruct (Z.leb_spec (sequence r.1) snap), (Z.compare_spec (snap * 256 + value_type_u8 Value)
    (sequence r.1 * 256 + value_type_u8 (value_type r.1))) as [E|E|E]; try done;
    destruct (value_type r.1); cbn in E; lia.
Qed.

Lemma ik_ord_user a b : iord a b <> Gt -> ord (ukey a) (ukey b) <> Gt.
Proof. unfold ik_ord. by destruct (ord (ukey a) (ukey b)). Qed.

Lemma same_sequence (ops : list record) a b : NoDup (map (fun r => sequence r.1) ops) ->
  a ∈ ops -> b ∈ ops -> sequence a.1 = sequence b.1 -> a = b.
Proof.
  intros Hnd [i Hi]%list_elem_of_lookup [j Hj]%list_elem_of_lookup E.
  assert (i = j) as ->; [|congruence]. eapply (NoDup_lookup _ _ _ (sequence a.1) Hnd).
  - by rewrite list_lookup_fmap, Hi.
  - by rewrite list_lookup_fmap, Hj, E.
Qed.

(** Two entries between which only versions of one key lie. *)
Lemma between_versions uk t e b : ukey t = uk -> iord e t <> Lt -> iord e b <> Gt ->
  ord (ukey b) uk = Eq -> ord (ukey e) uk = Eq /\ utag b <= utag e.
Proof.
  intros <- Het Heb Hb.
  assert (H1 : ord (ukey t) (ukey e) <> Gt).
  { apply ik_ord_user. rewrite (ord_opp (ord:=iord) e t). by destruct (iord e t). }
  pose proof (ik_ord_user _ _ Heb) as H2.
  assert (Heq : ord (ukey e) (ukey t) = Eq).
  { destruct (ord (ukey e) (ukey t)) eqn:E; [done|exfalso|exfalso].
    - apply ord_gt_lt in E. by rewrite E in H1.
    - apply H2. destruct (ord (ukey e) (ukey b)) eqn:E2; [|exfalso|done].
      + rewrite (ord_eq_l _ _ _ E2), Hb in E. done.
      + apply ord_gt_lt in E. apply ord_eq_sym in Hb. by rewrite (ord_lt_trans _ _ _ E E2) in Hb. }
  split; [done|]. unfold ik_ord in Heb.
  assert (ord (ukey e) (ukey b) = Eq) as E. { apply (ord_eq_trans _ (ukey t)); [done|]. by apply ord_eq_sym. }
  rewrite E in Heb. by apply Z.compare_le_iff in Heb.
Qed.

Lemma lookup_newest raw ops es uk snap : ops_ok raw ops -> 0 <= snap <= MAX_SEQUENCE_NUMBER ->
  sorted_entries iord es -> es ≡ₚ map record_entry ops ->
  (i ← pos_seek iord es (mk_ikey uk (mk_tag snap Value));
   e ← es !! i;
   if negb (is_eq (ord (ukey e.1) uk)) then None
   else if Z.land (utag e.1) 0xff =? value_type_u8 Deletion
        then Some (Fail (Stat.not_found "memtable tombstone")) else Some (Ret e.2))
  = answer (newest uk snap ops).
Proof.
  intros [Hok Hnd] Hsnap Hsort Hperm. set (t := mk_ikey uk (mk_tag snap Value)).
  rewrite Forall_forall in Hok.
  assert (Hrec : forall i e, es !! i = Some e -> exists r, r ∈ ops /\ e = record_entry r).
  { intros i e He%list_elem_of_lookup_2. rewrite Hperm in He.
    apply list_elem_of_In, in_map_iff in He as (r & <- & Hr%list_elem_of_In). eauto. }
  pose proof (newest_spec uk snap ops) as Hn. destruct (newest uk snap ops) as [b|].
  - destruct Hn as (Hb & Hvb & Hmax). destruct (Hok b Hb) as [Hbok _].
    pose proof Hvb as Hvb'. rewrite visible_entry in Hvb' by done. apply andb_true_iff in Hvb' as [Hbu Hbt].
    assert (exists j, es !! j = Some (record_entry b)) as [j Hj].
    { apply list_elem_of_lookup. rewrite Hperm. apply list_elem_of_In, in_map, list_elem_of_In, Hb. }
    destruct (pos_seek iord es t) as [i|] eqn:Ep.
    2: { pose proof (pos_seek_none _ _ _ Ep _ _ Hj) as Hlt. fold t in Hbt. by rewrite Hlt in Hbt. }
    apply pos_seek_some in Ep as (Hi & Hge & Hlt). destruct (lookup_lt_is_Some_2 es i Hi) as [e He].
    assert (Hij : (i <= j)%nat).
    { destruct (le_lt_dec i j) as [|Hji]; [done|]. specialize (Hlt j _ Hji Hj). fold t in Hbt. by rewrite Hlt in Hbt. }
    cbn [mbind option_bind]. rewrite He. cbn [mbind option_bind].
    destruct (Hrec i e He) as (r & Hr & ->). destruct (Hok r Hr) as [Hrok _].
    destruct (between_versions uk t (record_entry r).1 (record_entry b).1) as [Heu Htag].
    { apply ukey_mk. }
    { by apply Hge. }
    { by apply (sorted_le es i j). }
    { by destruct (ord (ukey (record_entry b).1) uk). }
    assert (r = b) as ->.
    { apply (same_sequence ops); [done..|].
      assert (sequence r.1 <= sequence b.1).
      { apply Hmax; [done|]. rewrite visible_entry by done. rewrite Heu. cbn [is_eq andb]. fold t.
        specialize (Hge _ He). by destruct (iord (record_entry r).1 t). }
      unfold record_entry in Htag. cbn [fst] in Htag. destruct Hrok as (Hrs & _), Hbok as (Hbs & _).
      rewrite !utag_mk in Htag by (by apply mk_tag_u64). unfold mk_tag in Htag.
      destruct (value_type r.1), (value_type b.1); cbn in Htag; lia. }
    rewrite Heu. cbn [is_eq negb]. unfold record_entry. cbn [fst snd]. destruct Hbok as (Hbs & _).
    rewrite utag_mk, mk_tag_type by (by apply mk_tag_u64). unfold answer. cbn [mbind option_bind].
    by destruct (value_type b.1).
  - cbn [answer mbind option_bind]. destruct (pos_seek iord es t) as [i|] eqn:Ep; [|done].
    apply pos_seek_some in Ep as (Hi & Hge & _). destruct (lookup_lt_is_Some_2 es i Hi) as [e He].
    cbn [mbind option_bind]. rewrite He. cbn [mbind option_bind].
    destruct (Hrec i e He) as (r & Hr & ->). destruct (Hok r Hr) as [Hrok _].
    specialize (Hn r Hr). rewrite visible_entry in Hn by done. specialize (Hge _ He). fold t in Hn.
    destruct (ord (ukey (record_entry r).1) uk); [|done..].
    cbn [is_eq andb] in Hn. by destruct (iord (record_entry r).1 t).
Qed.

(** [collect_entries] drains the list. *)
Lemma collect_ok m es : mem_holds m es -> MemTable.collect_entries m = Ret es.
Proof.
  intros (Hcmp & Hes & sq & lh & Hl & Hc & Hk).
  assert (Hlen : length es = length sq).
  { apply (f_equal length) in Hk. unfold keys in Hk. by rewrite !length_map in Hk. }
  unfold MemTable.collect_entries.
  destruct (cursor_first _ _ _ Hl Hc (SkipListCursor.new (MemTable.list m)) None ltac:(by split)) as (cur & -> & Hcur).
  cbn [mbind outcome_bind].
  assert (Hloop : forall fuel cur i out, (length es - i <= fuel)%nat -> (i <= length es)%nat ->
    cursor_at (MemTable.list m) sq cur (if decide (i < length sq)%nat then Some i else None) ->
    MemTable.collect_loop fuel cur out = Ret (out ++ drop i es)).
  { induction fuel as [|fuel IH]; intros cur' i out Hf Hi Hcur'; cbn [MemTable.collect_loop];
      rewrite (cursor_valid _ _ _ _ Hcur').
    - rewrite decide_False by lia. rewrite bool_decide_eq_false_2 by (by intros []).
      by rewrite drop_ge, app_nil_r by lia.
    - destruct (decide (i < length sq)%nat) as [Hd|Hd].
      2: { rewrite bool_decide_eq_false_2 by (by intros []). by rewrite drop_ge, app_nil_r by lia. }
      rewrite bool_decide_eq_true_2 by done. pose proof Hcur' as (_ & x & _ & Hx).
      destruct (node_entry m es sq i x Hk Hx) as (e & He & Hkx).
      rewrite (cursor_key _ _ _ Hl _ _ _ Hcur' Hx), Hkx. cbn [mbind outcome_bind].
      rewrite Forall_lookup in Hes. destruct (entry_halves e (Hes _ _ He)) as [-> ->]. cbn [mbind outcome_bind].
      destruct (cursor_next _ _ _ Hl Hc _ _ Hcur') as (cur2 & -> & Hcur2). cbn [mbind outcome_bind].
      rewrite (IH cur2 (S i)) by (done || lia). rewrite <- app_assoc, (drop_S _ _ _ He). by destruct e. }
  pose proof (sequence_fits _ _ _ Hl) as Hfit. cbn in Hfit.
  rewrite (Hloop _ _ 0%nat) by (done || lia). done.
Qed.
End contents.

(** ** Claims *)

(** C20: (MemTable::get) In a memtable built by [add], a lookup at a snapshot finds, among
    the records of the user key with a sequence number up to the snapshot, the newest one:
    its value, or NotFound when it is a deletion; without such a record it says so with
    [None].  No operation panics or reads outside an entry. *)
Theorem memtable_get_newest {C} `{Comparator C} (c : C) ord `{!ComparatorLaws c (fun _ => True) ord}
    raw ops uk snap : ops_ok raw ops -> 0 <= snap <= MAX_SEQUENCE_NUMBER -> is_u32 (len uk + 8) ->
  exists m l, build (c:=c) raw ops = Ret m /\ LookupKey_new uk snap = Ret l /\
    MemTable.get m l = Ret (answer (newest (ord:=ord) uk snap ops)).
Proof.
  intros Hok Hs Hu. destruct (build_ok raw ops Hok) as (m & Hb & Hm).
  destruct (get_spec m _ uk snap Hm Hs Hu) as (l & Hl & Hg). exists m, l. split_and!; [done|done|].
  rewrite Hg. f_equal. eapply lookup_newest; [done|done| |apply built_perm].
  by eapply holds_entries_sorted.
Qed.

Definition sample_ops : list (ParsedInternalKey * bytes) :=
  let b := list_byte_of_string in
  [(mk_parsed (b "k") 1 Value, b "one"); (mk_parsed (b "a") 2 Value, b "x");
   (mk_parsed (b "k") 3 Value, b "two"); (mk_parsed (b "a") 4 Deletion, [])].

Lemma sample_ops_ok : ops_ok (replicate 64 Byte.x00) sample_ops.
Proof.
  split; [|apply (bool_decide_unpack _); vm_compute; exact I].
  unfold sample_ops. repeat apply Forall_cons_2; try apply Forall_nil_2; unfold record_ok, is_u32, MAX_SEQUENCE_NUMBER;
    vm_compute; repeat split; congruence.
Qed.

Lemma memtable_get_newest_witness :
  let b := list_byte_of_string in
  exists m l1 l2, build (c:=Bytewise) (replicate 64 Byte.x00) sample_ops = Ret m /\
    LookupKey_new (b "k") 2 = Ret l1 /\ MemTable.get m l1 = Ret (Some (Ret (b "one"))) /\
    LookupKey_new (b "a") 9 = Ret l2 /\
    MemTable.get m l2 = Ret (Some (Fail (Stat.not_found "memtable tombstone"))).
Proof.
  intros b.
  destruct (memtable_get_newest Bytewise bytes_cmp _ _ (b "k") 2 sample_ops_ok) as (m & l1 & Hm & Hl1 & Hg1);
    [unfold MAX_SEQUENCE_NUMBER; lia|unfold is_u32; vm_compute; split; congruence|].
  destruct (memtable_get_newest Bytewise bytes_cmp _ _ (b "a") 9 sample_ops_ok) as (m' & l2 & Hm' & Hl2 & Hg2);
    [unfold MAX_SEQUENCE_NUMBER; lia|unfold is_u32; vm_compute; split; congruence|].
  rewrite Hm in Hm'. injection Hm' as <-. exists m, l1, l2. split_and!; done.
Defined.

(** C28: (MemTable iteration) The entries of a memtable built by [add] are its records in
    internal-key order, newest version first: [collect_entries] returns them, and the
    iterator is a cursor over them, forwards, backwards and from any target. *)
Theorem memtable_iterates_sorted {C} `{Comparator C} (c : C) ord `{!ComparatorLaws c (fun _ => True) ord}
    raw ops t : ops_ok raw ops -> mem_target_ok t ->
  exists m es, build (c:=c) raw ops = Ret m /\ sorted_entries (ik_ord ord) es /\
    es ≡ₚ map record_entry ops /\ MemTable.collect_entries m = Ret es /\
    scan_forward (length es) (MemTableIterator.new m) = Ret es /\
    scan_backward (length es) (MemTableIterator.new m) = Ret (rev es) /\
    scan_from (length es) (MemTableIterator.new m) t = Ret (List.filter (not_below (ik_ord ord) t) es).
Proof.
  intros Hok Ht. destruct (build_ok raw ops Hok) as (m & Hb & Hm).
  pose proof (holds_entries_sorted _ _ Hm) as Hs. pose proof (laws_ord (c:=c)) as Ho.
  pose proof (collect_ok _ _ Hm) as Hco. destruct Hm as (Hcmp & Hes & sq & lh & Hl & Hc & Hk).
  pose proof (mem_iter_laws m _ sq lh Hes Hl Hc Hk) as Hlaws.
  assert (Hat : mem_at m sq (MemTableIterator.new m) None) by (split; [done|by split]).
  exists m, (built_entries (ord:=ord) ops). split_and!; [done|done|apply built_perm|done| | |].
  - by eapply scan_forward_ok.
  - by eapply scan_backward_ok.
  - rewrite <- (from_pos_filter (ik_ord ord) _ t Hs). by apply (scan_from_ok (Hlaws:=Hlaws) _ _ None).
Qed.

Lemma memtable_iterates_sorted_witness :
  let t := mk_ikey (list_byte_of_string "b") (mk_tag 9 Value) in
  exists m es, build (c:=Bytewise) (replicate 64 Byte.x00) sample_ops = Ret m /\
    MemTable.collect_entries m = Ret es /\ length es = 4%nat /\
    scan_from (length es) (MemTableIterator.new m) t = Ret (List.filter (not_below (ik_ord bytes_cmp) t) es).
Proof.
  intros t.
  destruct (memtable_iterates_sorted Bytewise bytes_cmp _ _ t sample_ops_ok) as (m & es & H1 & _ & H3 & H4 & _ & _ & H7).
  { split; [apply ik_ok_mk|unfold is_u32; vm_compute; split; congruence]. }
  exists m, es. split_and!; [done|done| |done]. by rewrite H3.
Defined.

(** Memtable decoders. On every byte string the memtable's hand-written decoder is the
    length-prefixed codec; and the unchecked one, which the skiplist's comparator uses,
    agrees with it on every key the memtable builds. *)
Theorem memtable_decoders data ik rest : is_u32 (len ik) ->
  get_memtable_length_prefixed_slice data =
    match get_length_prefixed_slice data with
    | (Some s, tail) => Some (s, len data - len tail)
    | (None, _) => None
    end /\
  memtable_internal_key_unchecked (put_length_prefixed_slice [] ik ++ rest) = Ret ik /\
  get_memtable_length_prefixed_slice (put_length_prefixed_slice [] ik ++ rest) =
    Some (ik, len (put_length_prefixed_slice [] ik)).
Proof.
  intros Hik. split_and!; [apply checked_decoder|by apply unchecked_put|].
  rewrite checked_decoder, get_length_prefixed_put by done. do 2 f_equal. len_lia.
Qed.

