(* ===== verification/SharedMem.v ===== *)
(** * SharedMem.v: [SharedMemTable] of [memtable/memtable.rs] and [MemTableInserter] of
      [db_impl/db_impl.rs].

    A shared memtable is a reference; the memtables they refer to live in a heap, so that a
    writer that holds a reference keeps inserting into the same memtable whatever the
    database has meanwhile made of it.  [arena n] is what [n] bytes of fresh arena memory
    hold: the code writes over all of them. *)
From S2P Require Import Prelude Status Comparator Format WriteBatch DbIterator SkipList MemTable.

Definition mem_heap (C : Type) : Type := gmap nat (MemTable.t C).

Module SharedMemTable.
Section ops.
Context {C : Type} `{Comparator C} (arena : Z -> bytes).
Implicit Types (heap : mem_heap C) (self : nat).

(** A reference not in use yet. *)
Definition new_ref heap : nat := fresh (dom heap).
Definition new (c : C) heap : nat * mem_heap C := let r := new_ref heap in (r, <[r := MemTable.new c]> heap).
Definition deref heap self : outcome (MemTable.t C) := expect (heap !! self).

Definition add heap self (sequence : Z) (value_type : ValueType) (key value : bytes) : outcome (Z * mem_heap C) :=
  m ← deref heap self;
  '(n, m) ← MemTable.add m (arena (MemTable.encoded_size key value)) sequence value_type key value;
  Ret (n, <[self := m]> heap).
Definition get heap self (lookup_key : LookupKey) : outcome (option (outcome bytes)) :=
  m ← deref heap self; MemTable.get m lookup_key.
Definition collect_entries heap self : outcome (list (bytes * bytes)) :=
  m ← deref heap self; MemTable.collect_entries m.
Definition new_iterator heap self : outcome (MemTableIterator.t C) :=
  m ← deref heap self; Ret (MemTableIterator.new m).
End ops.
End SharedMemTable.

(** ** [MemTableInserter] *)

Record MemTableInserter := mk_inserter { ins_sequence : Z; ins_mem : nat; bytes_added : Z }.

Section inserter.
Context {C : Type} `{Comparator C} (arena : Z -> bytes).

(** The handler's state: the inserter and the heap, unless an insertion panicked. *)
Definition inserting : Type := outcome (MemTableInserter * mem_heap C).
Definition insert_record (value_type : ValueType) (h : inserting) (key value : bytes) : inserting :=
  '(i, heap) ← h;
  '(n, heap) ← SharedMemTable.add arena heap (ins_mem i) (ins_sequence i) value_type key value;
  Ret (mk_inserter (as_u64 (ins_sequence i + 1)) (ins_mem i) (bytes_added i + n), heap).
#[local] Instance Inserter_Handler : WriteBatchHandler inserting := {|
  handler_put h key value := insert_record Value h key value;
  handler_delete h key := insert_record Deletion h key [];
|}.

(** [batch.iterate(&mut inserter)]: what was inserted before an error stays. *)
Definition insert_batch (batch : WriteBatch) (i : MemTableInserter) (heap : mem_heap C)
  : outcome (MemTableInserter * mem_heap C * outcome unit) :=
  match Batch.iterate batch (Ret (i, heap) : inserting) with
  | (Ret (i, heap), Panic) => Panic
  | (Ret (i, heap), r) => Ret (i, heap, r)
  | (_, _) => Panic
  end.
End inserter.
