(* ===== verification/DbState.v ===== *)
(** * DbState.v: the data of [db_impl/db_impl.rs].

    [Options], snapshots, read and write options, the writer queue's entries, and
    [DBImplCore], the state behind the database's mutex.  What the code reaches through an
    [Arc] from several places, a reference names: memtables in [heap], the strong counts
    of the snapshots handed out in [snap_refs], the followers' result slots in
    [results].  The environment and the block cache, which others hold handles on too,
    are not in the record: a method acts on the record and on both of them. *)
From S2P Require Import Prelude Status Comparator Format WriteBatch Filter Block Env Log Cache.
From S2P Require Import TableBuilder Table TableCache VersionEdit Version VersionSet SharedMem.

Definition DEFAULT_WRITE_BUFFER_SIZE : Z := 4194304.
Definition DEFAULT_BLOCK_CACHE_SIZE : Z := 8388608.
Definition DEFAULT_MAX_OPEN_FILES : Z := 1000.
Definition MAX_BATCH_GROUP_SIZE : Z := Z.shiftl 1 20.
Definition MAX_BATCH_GROUP_OVERHEAD : Z := Z.shiftl 128 10.

(** The logger's messages go nowhere the database reads; [info_log] says there is one. *)
Record Options (P Co K : Type) := mk_options {
  write_buffer_size : Z;
  block_cache_size : Z;
  max_open_files : Z;
  create_if_missing : bool;
  error_if_exists : bool;
  paranoid_checks : bool;
  filter_policy : option P;
  block_cache : option K;
  compressor : option Co;
  block_size : Z;
  block_restart_interval : Z;
  info_log : bool;
  sync_mode : SyncMode;
}.
Arguments mk_options {P Co K} _ _ _ _ _ _ _ _ _ _ _ _ _.
Arguments write_buffer_size {P Co K} _.
Arguments block_cache_size {P Co K} _.
Arguments max_open_files {P Co K} _.
Arguments create_if_missing {P Co K} _.
Arguments error_if_exists {P Co K} _.
Arguments paranoid_checks {P Co K} _.
Arguments filter_policy {P Co K} _.
Arguments block_cache {P Co K} _.
Arguments compressor {P Co K} _.
Arguments block_size {P Co K} _.
Arguments block_restart_interval {P Co K} _.
Arguments info_log {P Co K} _.
Arguments sync_mode {P Co K} _.
Definition Options_default {P Co K} : Options P Co K :=
  mk_options DEFAULT_WRITE_BUFFER_SIZE DEFAULT_BLOCK_CACHE_SIZE DEFAULT_MAX_OPEN_FILES true false false None None None
    DEFAULT_BLOCK_SIZE DEFAULT_BLOCK_RESTART_INTERVAL false Data.

(** An [Arc<Snapshot>]: which snapshot, and the sequence number it pins. *)
Record Snapshot := mk_snapshot { snap_id : nat; snap_sequence : Z }.

Record ReadOptions := mk_read { snapshot : option Snapshot; verify_checksums : bool; fill_cache : bool }.
Definition ReadOptions_default : ReadOptions := mk_read None false true.
Record WriteOptions := mk_write { sync : bool }.
Definition WriteOptions_default : WriteOptions := mk_write false.
Record Range := mk_range { start : bytes; limit : bytes }.

Module CompactionStats.
Record t := mk { micros : Z; bytes_read : Z; bytes_written : Z }.
Definition default : t := mk 0 0 0.
Definition add (self c : t) : t :=
  mk (as_i64 (micros self + micros c)) (as_i64 (bytes_read self + bytes_read c)) (as_i64 (bytes_written self + bytes_written c)).
End CompactionStats.

(** [result] names the slot a follower waits on. *)
Record PendingWriter := mk_writer { w_id : Z; w_batch : option WriteBatch; w_sync : bool; w_result : option nat }.

Module DBImplCore.
Record t {W C P Co K : Type} {E : Env W} := mk {
  dbname : string;
  comparator : C;
  icmp : InternalKeyComparator C;
  options : Options P Co K;
  mem : nat;
  imm : option nat;
  log_writer : option LogWriter.t;
  log_file : option Writable;
  db_lock : Lock;
  log_file_number : Z;
  version_set : VersionSet.t C W;
  table_cache : TableCache.t W (InternalKeyComparator C) P Co;
  snapshots : list nat;
  active_iterators : Z;
  obsolete_table_file_numbers : list Z;
  shutting_down : bool;
  bg_work_scheduled : bool;
  bg_work_running : bool;
  manual_compaction_running : bool;
  bg_error : option Status;
  writers : list PendingWriter;
  next_writer_id : Z;
  stats : list CompactionStats.t;
  mem_memory_usage : Z;
  heap : mem_heap C;
  snap_refs : gmap nat (Z * nat);
  results : gmap nat (option (outcome unit));
}.
Arguments t W C P Co K {E}.
Arguments mk {W C P Co K E} _ _ _ _ _ _ _ _ _ _ _ _ _ _ _ _ _ _ _ _ _ _ _ _ _ _ _.
Arguments dbname {W C P Co K E} _.
Arguments comparator {W C P Co K E} _.
Arguments icmp {W C P Co K E} _.
Arguments options {W C P Co K E} _.
Arguments mem {W C P Co K E} _.
Arguments imm {W C P Co K E} _.
Arguments log_writer {W C P Co K E} _.
Arguments log_file {W C P Co K E} _.
Arguments db_lock {W C P Co K E} _.
Arguments log_file_number {W C P Co K E} _.
Arguments version_set {W C P Co K E} _.
Arguments table_cache {W C P Co K E} _.
Arguments snapshots {W C P Co K E} _.
Arguments active_iterators {W C P Co K E} _.
Arguments obsolete_table_file_numbers {W C P Co K E} _.
Arguments shutting_down {W C P Co K E} _.
Arguments bg_work_scheduled {W C P Co K E} _.
Arguments bg_work_running {W C P Co K E} _.
Arguments manual_compaction_running {W C P Co K E} _.
Arguments bg_error {W C P Co K E} _.
Arguments writers {W C P Co K E} _.
Arguments next_writer_id {W C P Co K E} _.
Arguments stats {W C P Co K E} _.
Arguments mem_memory_usage {W C P Co K E} _.
Arguments heap {W C P Co K E} _.
Arguments snap_refs {W C P Co K E} _.
Arguments results {W C P Co K E} _.

Section state.
Context {W C P Co K : Type} `{E : Env W}.
Abbreviation db := (t W C P Co K) (only parsing).
Implicit Types self : db.
Definition with_mem (x : nat) self : db := mk
    (dbname self) (comparator self) (icmp self) (options self) x (imm self) (log_writer self) (log_file self) (db_lock
    self) (log_file_number self) (version_set self) (table_cache self) (snapshots self) (active_iterators self)
    (obsolete_table_file_numbers self) (shutting_down self) (bg_work_scheduled self) (bg_work_running self)
    (manual_compaction_running self) (bg_error self) (writers self) (next_writer_id self) (stats self) (mem_memory_usage
    self) (heap self) (snap_refs self) (results self).
Definition with_imm (x : option nat) self : db := mk
    (dbname self) (comparator self) (icmp self) (options self) (mem self) x (log_writer self) (log_file self) (db_lock
    self) (log_file_number self) (version_set self) (table_cache self) (snapshots self) (active_iterators self)
    (obsolete_table_file_numbers self) (shutting_down self) (bg_work_scheduled self) (bg_work_running self)
    (manual_compaction_running self) (bg_error self) (writers self) (next_writer_id self) (stats self) (mem_memory_usage
    self) (heap self) (snap_refs self) (results self).
Definition with_log_writer (x : option LogWriter.t) self : db := mk
    (dbname self) (comparator self) (icmp self) (options self) (mem self) (imm self) x (log_file self) (db_lock self)
    (log_file_number self) (version_set self) (table_cache self) (snapshots self) (active_iterators self)
    (obsolete_table_file_numbers self) (shutting_down self) (bg_work_scheduled self) (bg_work_running self)
    (manual_compaction_running self) (bg_error self) (writers self) (next_writer_id self) (stats self) (mem_memory_usage
    self) (heap self) (snap_refs self) (results self).
Definition with_log_file (x : option Writable) self : db := mk
    (dbname self) (comparator self) (icmp self) (options self) (mem self) (imm self) (log_writer self) x (db_lock self)
    (log_file_number self) (version_set self) (table_cache self) (snapshots self) (active_iterators self)
    (obsolete_table_file_numbers self) (shutting_down self) (bg_work_scheduled self) (bg_work_running self)
    (manual_compaction_running self) (bg_error self) (writers self) (next_writer_id self) (stats self) (mem_memory_usage
    self) (heap self) (snap_refs self) (results self).
Definition with_log_file_number (x : Z) self : db := mk
    (dbname self) (comparator self) (icmp self) (options self) (mem self) (imm self) (log_writer self) (log_file self)
    (db_lock self) x (version_set self) (table_cache self) (snapshots self) (active_iterators self)
    (obsolete_table_file_numbers self) (shutting_down self) (bg_work_scheduled self) (bg_work_running self)
    (manual_compaction_running self) (bg_error self) (writers self) (next_writer_id self) (stats self) (mem_memory_usage
    self) (heap self) (snap_refs self) (results self).
Definition with_version_set (x : VersionSet.t C W) self : db := mk
    (dbname self) (comparator self) (icmp self) (options self) (mem self) (imm self) (log_writer self) (log_file self)
    (db_lock self) (log_file_number self) x (table_cache self) (snapshots self) (active_iterators self)
    (obsolete_table_file_numbers self) (shutting_down self) (bg_work_scheduled self) (bg_work_running self)
    (manual_compaction_running self) (bg_error self) (writers self) (next_writer_id self) (stats self) (mem_memory_usage
    self) (heap self) (snap_refs self) (results self).
Definition with_table_cache (x : TableCache.t W (InternalKeyComparator C) P Co) self : db := mk
    (dbname self) (comparator self) (icmp self) (options self) (mem self) (imm self) (log_writer self) (log_file self)
    (db_lock self) (log_file_number self) (version_set self) x (snapshots self) (active_iterators self)
    (obsolete_table_file_numbers self) (shutting_down self) (bg_work_scheduled self) (bg_work_running self)
    (manual_compaction_running self) (bg_error self) (writers self) (next_writer_id self) (stats self) (mem_memory_usage
    self) (heap self) (snap_refs self) (results self).
Definition with_snapshots (x : list nat) self : db := mk
    (dbname self) (comparator self) (icmp self) (options self) (mem self) (imm self) (log_writer self) (log_file self)
    (db_lock self) (log_file_number self) (version_set self) (table_cache self) x (active_iterators self)
    (obsolete_table_file_numbers self) (shutting_down self) (bg_work_scheduled self) (bg_work_running self)
    (manual_compaction_running self) (bg_error self) (writers self) (next_writer_id self) (stats self) (mem_memory_usage
    self) (heap self) (snap_refs self) (results self).
Definition with_active_iterators (x : Z) self : db := mk
    (dbname self) (comparator self) (icmp self) (options self) (mem self) (imm self) (log_writer self) (log_file self)
    (db_lock self) (log_file_number self) (version_set self) (table_cache self) (snapshots self) x
    (obsolete_table_file_numbers self) (shutting_down self) (bg_work_scheduled self) (bg_work_running self)
    (manual_compaction_running self) (bg_error self) (writers self) (next_writer_id self) (stats self) (mem_memory_usage
    self) (heap self) (snap_refs self) (results self).
Definition with_obsolete (x : list Z) self : db := mk
    (dbname self) (comparator self) (icmp self) (options self) (mem self) (imm self) (log_writer self) (log_file self)
    (db_lock self) (log_file_number self) (version_set self) (table_cache self) (snapshots self) (active_iterators self) x
    (shutting_down self) (bg_work_scheduled self) (bg_work_running self) (manual_compaction_running self) (bg_error self)
    (writers self) (next_writer_id self) (stats self) (mem_memory_usage self) (heap self) (snap_refs self) (results self).
Definition with_shutting_down (x : bool) self : db := mk
    (dbname self) (comparator self) (icmp self) (options self) (mem self) (imm self) (log_writer self) (log_file self)
    (db_lock self) (log_file_number self) (version_set self) (table_cache self) (snapshots self) (active_iterators self)
    (obsolete_table_file_numbers self) x (bg_work_scheduled self) (bg_work_running self) (manual_compaction_running self)
    (bg_error self) (writers self) (next_writer_id self) (stats self) (mem_memory_usage self) (heap self) (snap_refs self)
    (results self).
Definition with_scheduled (x : bool) self : db := mk
    (dbname self) (comparator self) (icmp self) (options self) (mem self) (imm self) (log_writer self) (log_file self)
    (db_lock self) (log_file_number self) (version_set self) (table_cache self) (snapshots self) (active_iterators self)
    (obsolete_table_file_numbers self) (shutting_down self) x (bg_work_running self) (manual_compaction_running self)
    (bg_error self) (writers self) (next_writer_id self) (stats self) (mem_memory_usage self) (heap self) (snap_refs self)
    (results self).
Definition with_running (x : bool) self : db := mk
    (dbname self) (comparator self) (icmp self) (options self) (mem self) (imm self) (log_writer self) (log_file self)
    (db_lock self) (log_file_number self) (version_set self) (table_cache self) (snapshots self) (active_iterators self)
    (obsolete_table_file_numbers self) (shutting_down self) (bg_work_scheduled self) x (manual_compaction_running self)
    (bg_error self) (writers self) (next_writer_id self) (stats self) (mem_memory_usage self) (heap self) (snap_refs self)
    (results self).
Definition with_manual (x : bool) self : db := mk
    (dbname self) (comparator self) (icmp self) (options self) (mem self) (imm self) (log_writer self) (log_file self)
    (db_lock self) (log_file_number self) (version_set self) (table_cache self) (snapshots self) (active_iterators self)
    (obsolete_table_file_numbers self) (shutting_down self) (bg_work_scheduled self) (bg_work_running self) x (bg_error
    self) (writers self) (next_writer_id self) (stats self) (mem_memory_usage self) (heap self) (snap_refs self) (results
    self).
Definition with_bg_error (x : option Status) self : db := mk
    (dbname self) (comparator self) (icmp self) (options self) (mem self) (imm self) (log_writer self) (log_file self)
    (db_lock self) (log_file_number self) (version_set self) (table_cache self) (snapshots self) (active_iterators self)
    (obsolete_table_file_numbers self) (shutting_down self) (bg_work_scheduled self) (bg_work_running self)
    (manual_compaction_running self) x (writers self) (next_writer_id self) (stats self) (mem_memory_usage self) (heap
    self) (snap_refs self) (results self).
Definition with_writers (x : list PendingWriter) self : db := mk
    (dbname self) (comparator self) (icmp self) (options self) (mem self) (imm self) (log_writer self) (log_file self)
    (db_lock self) (log_file_number self) (version_set self) (table_cache self) (snapshots self) (active_iterators self)
    (obsolete_table_file_numbers self) (shutting_down self) (bg_work_scheduled self) (bg_work_running self)
    (manual_compaction_running self) (bg_error self) x (next_writer_id self) (stats self) (mem_memory_usage self) (heap
    self) (snap_refs self) (results self).
Definition with_next_writer_id (x : Z) self : db := mk
    (dbname self) (comparator self) (icmp self) (options self) (mem self) (imm self) (log_writer self) (log_file self)
    (db_lock self) (log_file_number self) (version_set self) (table_cache self) (snapshots self) (active_iterators self)
    (obsolete_table_file_numbers self) (shutting_down self) (bg_work_scheduled self) (bg_work_running self)
    (manual_compaction_running self) (bg_error self) (writers self) x (stats self) (mem_memory_usage self) (heap self)
    (snap_refs self) (results self).
Definition with_stats (x : list CompactionStats.t) self : db := mk
    (dbname self) (comparator self) (icmp self) (options self) (mem self) (imm self) (log_writer self) (log_file self)
    (db_lock self) (log_file_number self) (version_set self) (table_cache self) (snapshots self) (active_iterators self)
    (obsolete_table_file_numbers self) (shutting_down self) (bg_work_scheduled self) (bg_work_running self)
    (manual_compaction_running self) (bg_error self) (writers self) (next_writer_id self) x (mem_memory_usage self) (heap
    self) (snap_refs self) (results self).
Definition with_memory_usage (x : Z) self : db := mk
    (dbname self) (comparator self) (icmp self) (options self) (mem self) (imm self) (log_writer self) (log_file self)
    (db_lock self) (log_file_number self) (version_set self) (table_cache self) (snapshots self) (active_iterators self)
    (obsolete_table_file_numbers self) (shutting_down self) (bg_work_scheduled self) (bg_work_running self)
    (manual_compaction_running self) (bg_error self) (writers self) (next_writer_id self) (stats self) x (heap self)
    (snap_refs self) (results self).
Definition with_heap (x : mem_heap C) self : db := mk
    (dbname self) (comparator self) (icmp self) (options self) (mem self) (imm self) (log_writer self) (log_file self)
    (db_lock self) (log_file_number self) (version_set self) (table_cache self) (snapshots self) (active_iterators self)
    (obsolete_table_file_numbers self) (shutting_down self) (bg_work_scheduled self) (bg_work_running self)
    (manual_compaction_running self) (bg_error self) (writers self) (next_writer_id self) (stats self) (mem_memory_usage
    self) x (snap_refs self) (results self).
Definition with_snap_refs (x : gmap nat (Z * nat)) self : db := mk
    (dbname self) (comparator self) (icmp self) (options self) (mem self) (imm self) (log_writer self) (log_file self)
    (db_lock self) (log_file_number self) (version_set self) (table_cache self) (snapshots self) (active_iterators self)
    (obsolete_table_file_numbers self) (shutting_down self) (bg_work_scheduled self) (bg_work_running self)
    (manual_compaction_running self) (bg_error self) (writers self) (next_writer_id self) (stats self) (mem_memory_usage
    self) (heap self) x (results self).
Definition with_results (x : gmap nat (option (outcome unit))) self : db := mk
    (dbname self) (comparator self) (icmp self) (options self) (mem self) (imm self) (log_writer self) (log_file self)
    (db_lock self) (log_file_number self) (version_set self) (table_cache self) (snapshots self) (active_iterators self)
    (obsolete_table_file_numbers self) (shutting_down self) (bg_work_scheduled self) (bg_work_running self)
    (manual_compaction_running self) (bg_error self) (writers self) (next_writer_id self) (stats self) (mem_memory_usage
    self) (heap self) (snap_refs self) x.
End state.
End DBImplCore.
