(* ===== verification/DbCore.v ===== *)
(** * DbCore.v: the methods of [DBImplCore] ([db_impl/db_impl.rs]) that run under the mutex.

    Reads, snapshots, iterator accounting, obsolete files, the write group, properties
    and size estimates.  A method acts on the database record, the file system and the
    block cache.  Iterators are in DbScan.v, flushing and compaction in Compact.v, the
    write path in DbWrite.v. *)
From S2P Require Import Prelude Status Coding Comparator Format WriteBatch Filter Block Env Filename Sort Cache.
From S2P Require Import TableBuilder Table Log TableCache VersionEdit Version VersionSet MemTable SharedMem DbState.
From Stdlib Require Import Floats.SpecFloat.

(** ** The standard library *)

(** [Path::file_name] followed by [OsStr::to_str]: the last component when it is a name. *)
Definition file_name (p : path) : option string :=
  n ← last p; if (n =? "/")%string || (n =? ".")%string || (n =? "..")%string then None else Some n.

(** A [for] loop whose body acts on the state. *)
Fixpoint for_each {S A} (f : A -> action S unit) (l : list A) : action S unit :=
  match l with [] => mret tt | a :: l => f a;; for_each f l end.
(** [let _ = m;] and [if let Ok(x) = m]: an error is dropped, a panic is not. *)
Definition attempt {S A} (m : action S A) : action S (option A) := fun s => let '(r, s) := m s in (catch r, s).

(** [Vec::dedup]. *)
Fixpoint dedup_from (x : Z) (l : list Z) : list Z :=
  match l with [] => [] | y :: l => if x =? y then dedup_from x l else y :: dedup_from y l end.
Definition dedup (l : list Z) : list Z := match l with [] => [] | x :: l => x :: dedup_from x l end.

Definition saturating_add (a b : Z) : Z := Z.min (a + b) (2 ^ 64 - 1).

(** [format!]: [{:>n}] pads on the left, [{:?}] of a byte slice, [{:.0}] of an [f64]
    rounds its exact value half to even. *)
Fixpoint spaces (n : nat) : string := match n with O => EmptyString | S n => String (Ascii.ascii_of_nat 32) (spaces n) end.
Definition pad (width : nat) (s : string) : string := spaces (width - String.length s) +:+ s.
Definition debug_bytes (bs : bytes) : string := "[" +:+ String.concat ", " (map (fun b => show_u64 (u8 b)) bs) +:+ "]".
Definition show_nat_Z (n : Z) : string := show_digits (S (Z.to_nat (Z.log2 n))) n "".
Definition round_half_even (n d : Z) : Z :=
  let q := n / d in
  match Z.compare (2 * (n mod d)) d with Lt => q | Gt => q + 1 | Eq => if Z.even q then q else q + 1 end.
Definition fmt_f64_0 (x : spec_float) : string :=
  let sign (s : bool) := if s then "-" else "" in
  match x with
  | S754_nan => "NaN"
  | S754_infinity s => sign s +:+ "inf"
  | S754_zero s => sign s +:+ "0"
  | S754_finite s m e =>
      sign s +:+ show_nat_Z (if 0 <=? e then Z.pos m * 2 ^ e else round_half_even (Z.pos m) (2 ^ (- e)))
  end.
Example fmt_samples : map fmt_f64_0 [f64_div (f64_of_Z 5) (f64_of_Z 2); f64_div (f64_of_Z 7) (f64_of_Z 2);
    f64_div (f64_of_Z (-1)) (f64_of_Z 4); f64_of_Z 1048576] = ["2"; "4"; "-0"; "1048576"]%string.
Proof. by vm_compute. Qed.

Module Core.
Import DBImplCore.
Section ops.
Context {W C P Co K : Type} `{E : Env W} `{HC : Comparator C} `{HP : FilterPolicy P} `{HCo : Compressor Co} `{HK : Cache K Block}.
Abbreviation db := (DBImplCore.t W C P Co K) (only parsing).
Abbreviation tables := (TableCache.t W (InternalKeyComparator C) P Co) (only parsing).
Abbreviation M := (action (db * (W * K))) (only parsing).
Implicit Types self : db.

(** ** The parts of the state *)

Definition reads {A} (f : db -> A) : M A := fun s => (Ret (f s.1), s).
Definition modify (f : db -> db) : M unit := fun s => (Ret tt, (f s.1, s.2)).
Definition on_env {A} (m : action W A) : M A := fun s => let '(r, w) := m s.2.1 in (r, (s.1, (w, s.2.2))).
Definition on_tables {A} (m : action (tables * (W * K)) A) : M A := fun s =>
  let '(r, (tc, io)) := m (table_cache s.1, s.2) in (r, (with_table_cache tc s.1, io)).
Definition on_versions {A} (m : action (VersionSet.t C W * W) A) : M A := fun s =>
  let '(r, (vs, w)) := m (version_set s.1, s.2.1) in (r, (with_version_set vs s.1, (w, s.2.2))).
(** [self.version_set.current()], whose seek statistics change in place. *)
Definition current self : Version.t C := VersionSet.current (version_set self).
Definition with_current v self : db := with_version_set (VersionSet.with_current v (version_set self)) self.
Definition on_current {A} (m : action (Version.t C) A) : M A := fun s =>
  let '(r, v) := m (current s.1) in (r, (with_current v s.1, s.2)).
(** A lookup in the current version, table by table through the table cache. *)
Definition on_get {A} (m : action (tables * (W * K) * Version.t C) A) : M A := fun s =>
  let '(r, (tc, io, v)) := m (table_cache s.1, s.2, current s.1) in (r, (with_current v (with_table_cache tc s.1), io)).
Definition new_file_number : M Z := fun s =>
  let '(n, vs) := VersionSet.new_file_number (version_set s.1) in (Ret n, (with_version_set vs s.1, s.2)).

Definition last_sequence self : Z := VersionSet.last_sequence (version_set self).
Definition approximate_memtable_usage self : Z := mem_memory_usage self.

(** ** Reading a key *)

(** A memtable's answer ends the search. *)
Definition memtable_answer (r : outcome bytes) : outcome (option bytes) :=
  match r with
  | Ret v => Ret (Some v)
  | Fail e => if Stat.is_not_found e then Ret None else Fail e
  | Panic => Panic
  end.
Definition read_sequence self (options : ReadOptions) : Z :=
  match snapshot options with Some s => snap_sequence s | None => last_sequence self end.
Definition get_with_options (ro : ReadOptions) (key : bytes) : M (option bytes) :=
  self ← reads id;
  lookup ← lift (LookupKey_new key (read_sequence self ro));
  r ← lift (SharedMemTable.get (heap self) (mem self) lookup);
  match r with
  | Some r => lift (memtable_answer r)
  | None =>
      r ← lift (match imm self with Some imm => SharedMemTable.get (heap self) imm lookup | None => Ret None end);
      match r with
      | Some r => lift (memtable_answer r)
      | None =>
          let verify := paranoid_checks (options self) || verify_checksums ro in
          ik ← lift (internal_key lookup);
          on_get (Version.get (fun number ik => TableCache.internal_get_full number ik verify (fill_cache ro)) key ik)
      end
  end.

(** ** Logs and obsolete files *)

Definition open_log_file (log_file_number : Z) : M Writable :=
  self ← reads id; on_env (new_writable_file (path_new (log_file_name (dbname self) log_file_number))).
(** A close that fails leaves the old log in place. *)
Definition switch_active_log (new_log : Z) : M unit :=
  new_log_file ← open_log_file new_log;
  self ← reads id;
  _ ← (match log_file self with Some f => _ ← on_env (w_close f); mret tt | None => mret tt end);
  modify (fun self => with_log_file (Some new_log_file) (with_log_file_number new_log (with_log_writer (Some LogWriter.new) self))).

(** [self.env.list_dir(..).unwrap_or_default()], by name and parsed. *)
Definition directory : M (list (option (Z * FileType))) :=
  self ← reads id;
  entries ← attempt (on_env (list_dir (path_new (dbname self))));
  mret (map (fun p => n ← file_name p; parse_file_name n) (default [] entries)).
Definition remove (name : string) : M unit := _ ← attempt (on_env (delete_file (path_new name))); mret tt.
Definition delete_obsolete_logs : M unit :=
  entries ← directory;
  for_each (fun e => match e with
    | Some (number, LogFile) =>
        self ← reads id;
        if number <? log_file_number self then remove (log_file_name (dbname self) number) else mret tt
    | _ => mret tt
    end) entries.
Definition delete_obsolete_manifests : M unit :=
  live ← reads (fun self => VersionSet.manifest_file_number (version_set self));
  entries ← directory;
  for_each (fun e => match e with
    | Some (number, DescriptorFile) =>
        self ← reads id;
        if negb (number =? live) then remove (descriptor_file_name (dbname self) number) else mret tt
    | _ => mret tt
    end) entries.

Definition delete_table (number : Z) : M unit :=
  on_tables (TableCache.evict number);;
  self ← reads id;
  remove (table_file_name (dbname self) number);;
  remove (sst_table_file_name (dbname self) number).
Definition delete_table_file_numbers (numbers : list Z) : M unit := for_each delete_table numbers.
(** [sort_unstable] then [dedup]. *)
Definition distinct (numbers : list Z) : list Z := dedup (isort Z.compare numbers).
Definition retire_table_file_numbers (numbers : list Z) : M unit :=
  if bool_decide (numbers = []) then mret tt else
  let numbers := distinct numbers in
  self ← reads id;
  if active_iterators self =? 0 then delete_table_file_numbers numbers
  else
    for_each (fun number => on_tables (TableCache.evict number)) numbers;;
    modify (fun self => with_obsolete (obsolete_table_file_numbers self ++ numbers) self).
Definition register_iterator : M unit := modify (fun self => with_active_iterators (active_iterators self + 1) self).
Definition release_iterator : M unit :=
  _ ← modify (fun self => if 0 <? active_iterators self then with_active_iterators (active_iterators self - 1) self else self);
  self ← reads id;
  if (active_iterators self =? 0) && negb (bool_decide (obsolete_table_file_numbers self = [])) then
    modify (with_obsolete []);;
    delete_table_file_numbers (distinct (obsolete_table_file_numbers self))
  else mret tt.

Definition record_read_sample (internal_key : bytes) : M bool := on_current (Version.record_read_sample internal_key).
Definition has_pending_seek_compaction self : bool := Version.has_file_to_compact (current self).
(** ** Snapshots

    [snap_refs] maps a snapshot to the number it pins and its strong count; the list
    [snapshots] holds weak references to them. *)

Definition strong_count self (i : nat) : nat := default 0%nat (snd <$> snap_refs self !! i).
Definition live self (i : nat) : bool := (0 <? strong_count self i)%nat.
(** [self.snapshots.retain(|w| w.strong_count() > 0)]. *)
Definition retain_live self : db := with_snapshots (List.filter (live self) (snapshots self)) self.
Definition get_snapshot self : Snapshot * db :=
  let i := base.fresh (dom (snap_refs self)) in
  let seq := last_sequence self in
  let self := with_snap_refs (<[i := (seq, 1%nat)]> (snap_refs self)) self in
  let self := retain_live self in
  (mk_snapshot i seq, with_snapshots (snapshots self ++ [i]) self).
(** What holders of an [Arc] may do to its count: clone it and drop it. *)
Definition clone_snapshot (s : Snapshot) self : db :=
  with_snap_refs (alter (fun r => (r.1, S r.2)) (snap_id s) (snap_refs self)) self.
Definition drop_snapshot (s : Snapshot) self : db :=
  with_snap_refs (alter (fun r => (r.1, Nat.pred r.2)) (snap_id s) (snap_refs self)) self.
Definition release_snapshot (s : Snapshot) self : db := retain_live (drop_snapshot s self).
(** The sequence number of an upgraded weak reference. *)
Definition upgrade self (i : nat) : option Z :=
  r ← snap_refs self !! i; if (0 <? r.2)%nat then Some r.1 else None.
Definition minimum (l : list Z) : option Z := match l with [] => None | x :: l => Some (fold_left Z.min l x) end.
Definition smallest_snapshot_sequence self : Z :=
  default (last_sequence self) (minimum (omap (upgrade self) (snapshots self))).

(** ** The write group *)

Fixpoint group_loop (first_sync : bool) (max_size : Z) (ws : list PendingWriter) (result : WriteBatch) (size count : Z)
  : outcome (WriteBatch * Z) :=
  match ws with
  | [] => Ret (result, count)
  | w :: ws =>
      if w_sync w && negb first_sync then Ret (result, count) else
      batch ← expect (w_batch w);
      let new_size := saturating_add size (Batch.approximate_size batch) in
      if max_size <? new_size then Ret (result, count) else
      result ← Batch.append result batch;
      group_loop first_sync max_size ws result new_size (count + 1)
  end.
Definition group_limit (size : Z) : Z :=
  if size <=? MAX_BATCH_GROUP_OVERHEAD then size + MAX_BATCH_GROUP_OVERHEAD else MAX_BATCH_GROUP_SIZE.
(** The front writer's batch is moved out; the others stay where they are. *)
Definition build_batch_group self : outcome (WriteBatch * Z * bool * db) :=
  match writers self with
  | [] => Panic
  | first :: rest =>
      result ← expect (w_batch first);
      let size := Batch.approximate_size result in
      '(result, count) ← group_loop (w_sync first) (group_limit size) rest result size 1;
      Ret (result, count, w_sync first, with_writers (mk_writer (w_id first) None (w_sync first) (w_result first) :: rest) self)
  end.
Fixpoint finish_loop (count : nat) (status : outcome unit) self : outcome db :=
  match count with
  | O => Ret self
  | S count =>
      match writers self with
      | [] => Panic
      | w :: ws =>
          let self := with_writers ws self in
          finish_loop count status
            match w_result w with Some r => with_results (<[r := Some status]> (results self)) self | None => self end
      end
  end.
Definition finish_writer_group (count : Z) (status : outcome unit) self : outcome db := finish_loop (Z.to_nat count) status self.

(** ** Properties *)

Definition NUM_FILES_PREFIX : string := "pulsearc-db.num-files-at-level".
(** [for level in 0..NUM_LEVELS] appending to a string. *)
Definition per_level (f : Z -> outcome string) : outcome string :=
  fold_m (fun out level => line ← f level; Ret (out +:+ line)) "" (Version.levels_from 0 NUM_LEVELS).
Definition newline : string := String (Ascii.ascii_of_nat 10) EmptyString.
Definition stats_line self (level : Z) : outcome string :=
  files ← Version.num_files (current self) level;
  s ← index (stats self) level;
  if (CompactionStats.micros s =? 0) && (files =? 0) then Ret "" else
  level_files ← Version.level_files (current self) level;
  let mega n := fmt_f64_0 (f64_div (f64_of_Z n) (f64_of_Z 1048576)) in
  Ret (pad 3 (show_u64 level) +:+ " " +:+ pad 8 (show_u64 files) +:+ " " +:+ pad 8 (mega (total_file_size level_files)) +:+ " " +:+
       pad 9 (fmt_f64_0 (f64_div (f64_of_Z (CompactionStats.micros s)) (f64_of_Z 1000000))) +:+ " " +:+
       pad 8 (mega (CompactionStats.bytes_read s)) +:+ " " +:+ pad 9 (mega (CompactionStats.bytes_written s)) +:+ newline).
Definition sstable_line (f : FileMeta) : string :=
  "  " +:+ show_u64 (FileMetaData.number f) +:+ ": " +:+ show_u64 (FileMetaData.file_size f) +:+ " bytes [" +:+
  debug_bytes (ztake 8 (smallest f)) +:+ ".." +:+ debug_bytes (ztake 8 (largest f)) +:+ "]" +:+ newline.
Definition sstables_of_level self (level : Z) : outcome string :=
  files ← Version.level_files (current self) level;
  if bool_decide (files = []) then Ret "" else
  Ret ("--- level " +:+ show_u64 level +:+ " ---" +:+ newline +:+ String.concat "" (map sstable_line files)).
Definition get_property self (property : string) : outcome (option string) :=
  match strip_prefix NUM_FILES_PREFIX property with
  | Some suffix =>
      match parse_u64 suffix with
      | None => Ret None
      | Some level =>
          if NUM_LEVELS <=? level then Ret None else n ← Version.num_files (current self) level; Ret (Some (show_u64 n))
      end
  | None =>
      if (property =? "pulsearc-db.stats")%string then
        body ← per_level (stats_line self);
        Ret (Some ("                               Compactions" +:+ newline +:+
                   "Level  Files Size(MB) Time(sec) Read(MB) Write(MB)" +:+ newline +:+
                   "--------------------------------------------------" +:+ newline +:+ body))
      else if (property =? "pulsearc-db.sstables")%string then
        body ← per_level (sstables_of_level self); Ret (Some body)
      else Ret None
  end.

(** ** Size estimates *)

(** A file below the key counts whole; below level 0 the first file above it ends the
    level; a file that covers it counts up to the key, unless it cannot be opened. *)
Fixpoint offset_in_level (icmp : InternalKeyComparator C) (level : Z) (fs : list FileMeta) (internal_key : bytes) (result : Z) : M Z :=
  match fs with
  | [] => mret result
  | f :: fs =>
      o ← lift (compare icmp (largest f) internal_key);
      if is_le o then offset_in_level icmp level fs internal_key (saturating_add result (FileMetaData.file_size f)) else
      o ← lift (compare icmp (smallest f) internal_key);
      if is_gt o then (if 0 <? level then mret result else offset_in_level icmp level fs internal_key result) else
      r ← attempt (on_tables (TableCache.approximate_offset_of (FileMetaData.number f) internal_key));
      offset_in_level icmp level fs internal_key (match r with Some offset => saturating_add result offset | None => result end)
  end.
Fixpoint offset_in_levels (v : Version.t C) (levels : list Z) (internal_key : bytes) (result : Z) : M Z :=
  match levels with
  | [] => mret result
  | level :: levels =>
      fs ← lift (Version.level_files v level);
      result ← offset_in_level (Version.comparator v) level fs internal_key result;
      offset_in_levels v levels internal_key result
  end.
Definition approximate_offset_of (v : Version.t C) (internal_key : bytes) : M Z :=
  offset_in_levels v (Version.levels_from 0 NUM_LEVELS) internal_key 0.
Fixpoint sizes_loop (v : Version.t C) (tag : bytes) (ranges : list Range) : M (list Z) :=
  match ranges with
  | [] => mret []
  | r :: ranges =>
      start ← approximate_offset_of v (start r ++ tag);
      limit ← approximate_offset_of v (limit r ++ tag);
      sizes ← sizes_loop v tag ranges;
      mret (LruShard.saturating_sub limit start :: sizes)
  end.
Definition get_approximate_sizes (ranges : list Range) : M (list Z) :=
  v ← reads current;
  tag ← lift (pack_sequence_and_type MAX_SEQUENCE_NUMBER VALUE_TYPE_FOR_SEEK);
  sizes_loop v (to_le_bytes 8 tag) ranges.
End ops.
End Core.
