(* ===== verification/DbCoreCorrect.v ===== *)
(** * DbCoreCorrect.v: what readers of the database see.

    Reads combine the two memtables and the current version, newest first; snapshots stay
    covered by [smallest_snapshot_sequence]; a write group is a run of the queue; table
    files are deleted only while no iterator is registered. *)
From S2P Require Import Prelude Status Coding Comparator Format WriteBatch Filter Block Env Cache Sort.
From S2P Require Import CacheCorrect TableBuilder TableFormat TableBuilderCorrect Table TableCorrect Newest Filename Log.
From S2P Require Import TableCache TableCacheCorrect VersionEdit Version VersionCorrect VersionSet SkipList SkipListCorrect.
From S2P Require Import MemTable MemTableCorrect SharedMem DbState DbCore DbIterator.

(** ** What the parts hold *)

Section view.
Context {W C P Co K : Type} `{E : Env W} {file_at : W -> path -> option bytes} `{!RandomAccessLaws file_at}.
Context `{HC : Comparator C} `{HP : FilterPolicy P} `{HCo : Compressor Co} `{HK : Cache K Block}.
Context {cache_ok : K -> Prop} {cached : K -> bytes -> Block -> Prop} {next : K -> Z}
  `{!CacheLaws cache_ok cached} `{!CacheIdLaws cache_ok cached} `{!CacheFreshLaws next}.
Context (c : C) (ord : bytes -> bytes -> comparison) `{!ComparatorLaws c (fun _ => True) ord}.
Context (Hanti : forall a b, ord a b = Eq -> a = b).
Context (co : option Co) (Hco : forall x, co = Some x -> CompressorLaws x).
Context (policy : option P) (Hname : forall q, policy = Some q -> ik_ok (TableFileBuilder.filter_key (filter_name q))).
Abbreviation icmp := (mk_icmp c) (only parsing).
Abbreviation iord := (ik_ord ord) (only parsing).
Abbreviation db := (DBImplCore.t W C P Co K) (only parsing).
Context (dbname : string) (dir : Z -> option (table_file (P:=P))).
#[local] Instance view_user_total : TotalOrd ord := laws_ord (c:=c).

Abbreviation ready b st := (tc_inv (file_at:=file_at) (cache_ok:=cache_ok) (cached:=cached) (next:=next) c ord co policy dbname dir b st).
Definition contents (n : Z) : list entry := match dir n with Some f => tf_entries f | None => [] end.
Definition on_file (n : Z) : Prop := is_Some (dir n).

(** A memtable behind a reference. *)
Definition mem_at_ref (h : mem_heap C) (r : nat) (es : list entry) : Prop :=
  Forall entry_wf es /\ exists m, h !! r = Some m /\ mem_holds (c:=c) (ord:=ord) m es.
Definition imm_at_ref (h : mem_heap C) (r : option nat) (es : list entry) : Prop :=
  match r with Some r => mem_at_ref h r es | None => es = [] end.

(** The database holds [em] in its memtable, [ei] in the immutable one, and a well-formed
    version; newer versions of a key are in the earlier of the three.  The block cache has
    ids for [b] more tables. *)
Record db_view (b : nat) (s : db * (W * K)) (em ei : list entry) : Prop := {
  dv_mem : mem_at_ref (DBImplCore.heap s.1) (DBImplCore.mem s.1) em;
  dv_imm : imm_at_ref (DBImplCore.heap s.1) (DBImplCore.imm s.1) ei;
  dv_version : version_wf c ord contents (Core.current s.1);
  dv_stored : all_stored on_file (Core.current s.1);
  dv_tables : ready b (DBImplCore.table_cache s.1, s.2);
  dv_newer : newer em (ei ++ version_entries contents (Core.current s.1));
  dv_newer_imm : newer ei (version_entries contents (Core.current s.1));
}.
(** All that is stored, newest stores first. *)
Definition db_entries (s : db * (W * K)) (em ei : list entry) : list entry :=
  em ++ ei ++ version_entries contents (Core.current s.1).

(** *** Memtables *)

Lemma mem_answers h r es uk seq : mem_at_ref h r es -> 0 <= seq <= MAX_SEQUENCE_NUMBER -> is_u32 (len uk + 8) ->
  exists l res, LookupKey_new uk seq = Ret l /\ answers (mk_ikey uk (mk_tag seq Value)) es res /\
    option_map Core.memtable_answer <$> SharedMemTable.get h r l =
      Ret (match res with LookupNotFound => None | res => Some (Ret (told res)) end).
Proof using Hanti ComparatorLaws0.
  intros (Hwf & m & Hm & Hh) Hs Hu. destruct (get_spec m es uk seq Hh Hs Hu) as (l & El & Eg).
  destruct (lookup_answers ord Hanti es (mk_ikey uk (mk_tag seq Value)) (holds_entries_sorted m es Hh) Hwf) as (res & Er & Ha).
  exists l, res. split_and!; [done..|]. unfold SharedMemTable.get, SharedMemTable.deref. rewrite Hm. cbn [expect mbind outcome_bind].
  rewrite Eg. unfold lookup_spec in Er. rewrite first_ge_pos in Er.
  destruct (pos_seek _ es _) as [i|]; cbn [mbind option_bind] in *; [|by injection Er as <-].
  destruct (es !! i) as [e|] eqn:Ee; cbn [mbind option_bind] in *; [|by injection Er as <-].
  rewrite ukey_mk in Er. case_decide as Hk.
  - rewrite Hk, (ord_refl (ord:=ord)). cbn [is_eq negb]. rewrite Forall_lookup in Hwf. destruct (Hwf _ _ Ee) as [_ [Hz|Hz]]; unfold ekind in Hz.
    all: rewrite Hz in Er |- *; cbn in Er |- *; injection Er as <-; done.
  - destruct (ord (ukey e.1) uk) eqn:Eo; [by apply Hanti in Eo|..]; cbn; by injection Er as <-.
Qed.

(** *** A read *)

Lemma contents_on_file n : on_file n -> exists f, dir n = Some f /\ contents n = tf_entries f.
Proof. unfold contents. intros [f Hf]. exists f. by rewrite Hf. Qed.

Lemma view_with_version b s em ei v tc io : db_view (b + lookups (Core.current s.1)) s em ei ->
  same_files (Core.current s.1) v -> ready b (tc, io) ->
  db_view b (Core.with_current v (DBImplCore.with_table_cache tc s.1), io) em ei.
Proof.
  intros [Hm Hi [] Hs Ht Hn Hni] [Hf [Hc _]] Hr. split; cbn; unfold version_entries, all_stored in *; rewrite ?Hf; try done.
  split; rewrite ?Hf, ?Hc; done.
Qed.

Lemma internal_key_of uk seq l : 0 <= seq <= MAX_SEQUENCE_NUMBER -> LookupKey_new uk seq = Ret l ->
  internal_key l = Ret (mk_ikey uk (mk_tag seq Value)).
Proof.
  intros Hs. unfold LookupKey_new. rewrite pack_ok by lia. cbn [mbind outcome_bind]. intros [= <-]. unfold internal_key. cbn [lk_rep kstart].
  unfold put_fixed64. rewrite <- app_assoc. by apply slice_from_app.
Qed.

Lemma view_less b n s em ei : db_view (n + b) s em ei -> db_view b s em ei.
Proof.
  induction n as [|n IH]; [done|]. intros [Hm Hi Hv Hs Ht Hn Hni]. apply IH. split; try done.
  by apply (tc_inv_less (file_at:=file_at)).
Qed.

Lemma tables_answer verify fill n t st b : on_file n -> ready (S b) st -> ik_ok t ->
  exists st', TableCache.internal_get_full n t verify fill st = (lookup_spec ord (contents n) t, st') /\ ready b st' /\ st'.2.1 = st.2.1.
Proof using Type*.
  intros Hn Hr Ht. destruct (contents_on_file n Hn) as (f & Hf & ->). destruct st as [tc [w k]].
  destruct (internal_get_full_ok (file_at:=file_at) (cache_ok:=cache_ok) (cached:=cached) (next:=next) c ord co Hco policy Hname dbname dir b tc w k n f t verify fill Hr Hf Ht)
    as (tc' & k' & E1 & Hr'). exists (tc', (w, k')). by split.
Qed.
Lemma tables_keep_files verify fill w n t st b : on_file n -> ready (S b) st /\ st.2.1 = w -> ik_ok t ->
  exists st', TableCache.internal_get_full n t verify fill st = (lookup_spec ord (contents n) t, st') /\ ready b st' /\ st'.2.1 = w.
Proof using Type*. intros Hn [Hr <-] Ht. by apply tables_answer. Qed.
(** One memtable of the search: it answers, or the search goes on. *)
Definition search {S} (m : outcome (option (outcome bytes))) (k : action S (option bytes)) : action S (option bytes) :=
  r ← lift m; match r with Some r => lift (Core.memtable_answer r) | None => k end.
Definition goes_on {S} (res : LookupResult) (k : action S (option bytes)) : action S (option bytes) :=
  match res with LookupNotFound => k | res => mret (told res) end.
Lemma search_imm {S} h r es uk seq l (k : action S (option bytes)) s : imm_at_ref h r es -> 0 <= seq <= MAX_SEQUENCE_NUMBER -> is_u32 (len uk + 8) ->
  LookupKey_new uk seq = Ret l -> exists res, answers (mk_ikey uk (mk_tag seq Value)) es res /\
    search (match r with Some r => SharedMemTable.get h r l | None => Ret None end) k s = goes_on res k s.
Proof using Hanti ComparatorLaws0.
  intros Hr Hs Hu El. destruct r as [r|]; [|exists LookupNotFound; split; [|done]; rewrite Hr; constructor; by intros e ?%elem_of_nil].
  destruct (mem_answers h r es uk seq Hr Hs Hu) as (l' & res & El' & Ha & Eg). rewrite El in El'. injection El' as <-.
  exists res. split; [done|]. unfold search, lift, mbind, action_bind. destruct (SharedMemTable.get h r l) as [o| |]; [|done..].
  cbn in Eg. injection Eg as Eg. destruct o as [o|], res; cbn in Eg |- *; try done; injection Eg as Eg; by rewrite Eg.
Qed.

(** What a read may change: the table cache, the block cache and the seek statistics of the
    current version.  Every other field, and the file system, is as it was. *)
Definition only_caches (s s' : db * (W * K)) : Prop := exists v tc k,
  s' = (Core.with_current v (DBImplCore.with_table_cache tc s.1), (s.2.1, k)) /\ same_files (Core.current s.1) v.
Lemma only_caches_refl s : only_caches s s.
Proof.
  exists (Core.current s.1), (DBImplCore.table_cache s.1), s.2.2. split; [|done].
  destruct s as [[] [w k]]. unfold Core.with_current, Core.current, DBImplCore.with_version_set, DBImplCore.with_table_cache. cbn. by destruct version_set.
Qed.
Lemma get_with_options_ok b s em ei ro uk : db_view (lookups (Core.current s.1) + b) s em ei ->
  0 <= Core.read_sequence s.1 ro <= MAX_SEQUENCE_NUMBER -> is_u32 (len uk + 8) ->
  exists res s', Core.get_with_options ro uk s = (Ret (told res), s') /\ db_view b s' em ei /\ only_caches s s' /\
    answers (mk_ikey uk (mk_tag (Core.read_sequence s.1 ro) Value)) (db_entries s em ei) res.
Proof.
  intros Hv Hs Hu. set (seq := Core.read_sequence s.1 ro) in *. set (t := mk_ikey uk (mk_tag seq Value)).
  destruct (lookup_key_ok uk seq Hs Hu) as (l & El & _).
  pose proof Hv as [Hm Hi Hver Hst Ht Hn Hni].
  unfold Core.get_with_options. erewrite action_bind_ret by reflexivity. cbn [id fst].
  erewrite action_bind_ret by (unfold lift; fold seq; rewrite El; reflexivity).
  match goal with |- context [lift (SharedMemTable.get ?h ?r l) ≫= fun x => match x with Some y => lift (Core.memtable_answer y) | None => ?k end] =>
    set (k1 := k); change (lift (SharedMemTable.get h r l) ≫= _) with (search (SharedMemTable.get h r l) k1) end.
  destruct (search_imm _ (Some (DBImplCore.mem s.1)) em uk seq l k1 s Hm Hs Hu El) as (ra & Ha & ->).
  set (k2 := ik ← lift (internal_key l); Core.on_get (Version.get (fun number ik => TableCache.internal_get_full number ik
    (paranoid_checks (DBImplCore.options s.1) || verify_checksums ro) (fill_cache ro)) uk ik)).
  destruct (search_imm _ (DBImplCore.imm s.1) ei uk seq l k2 s Hi Hs Hu El) as (ri & Hai & E2).
  destruct (get_ok c ord (fun n t => TableCache.internal_get_full n t (paranoid_checks (DBImplCore.options s.1) || verify_checksums ro) (fill_cache ro)) on_file (fun b st => ready b st /\ st.2.1 = s.2.1) contents Hanti
      (fun b st '(conj Hrb Hw) => conj (tc_inv_less (file_at:=file_at) c ord co policy dbname dir b st Hrb) Hw)
      (tables_keep_files (paranoid_checks (DBImplCore.options s.1) || verify_checksums ro) (fill_cache ro) s.2.1) t (ik_ok_mk _ _)
      (Core.current s.1) (DBImplCore.table_cache s.1, s.2) b Hver Hst (conj Ht eq_refl)) as (rv & [tc [w k]] & v & Ev & [Hr Hw] & Hsame & Hav).
  cbn [fst snd] in Hw. subst w.
  assert (Ek2 : k2 s = (Ret (told rv), (Core.with_current v (DBImplCore.with_table_cache tc s.1), (s.2.1, k)))).
  { unfold k2. erewrite action_bind_ret by (unfold lift; rewrite (internal_key_of uk seq l Hs El); reflexivity).
    unfold Core.on_get. unfold t in Ev. rewrite ukey_mk in Ev. by rewrite Ev. }
  pose proof (answers_app _ _ _ _ _ Hni Hai Hav) as H1. pose proof (answers_app _ _ _ _ _ Hn Ha H1) as H2.
  unfold db_entries.
  destruct ra as [x| |]; cbn in H2 |- *; [exists (LookupFound x), s|exists LookupDeleted, s|]; [split_and!; [done|by eapply view_less|by apply only_caches_refl|done]..|].
  change (k1 s) with (search (match DBImplCore.imm s.1 with Some r => SharedMemTable.get (DBImplCore.heap s.1) r l | None => Ret None end) k2 s).
  rewrite E2. destruct ri as [x| |]; cbn in H2 |- *; [exists (LookupFound x), s|exists LookupDeleted, s|]; [split_and!; [done|by eapply view_less|by apply only_caches_refl|done]..|].
  do 2 eexists. split_and!; [exact Ek2| |by exists v, tc, k|exact H2]. apply view_with_version; [|done..]. by rewrite Nat.add_comm.
Qed.
End view.

(** ** Snapshots *)

Section snapshots.
Context {W C P Co K : Type} `{E : Env W}.
Abbreviation db := (DBImplCore.t W C P Co K) (only parsing).
Implicit Types self : db.

(** What users of the database and its writers do to the snapshots. *)
Inductive snap_step : db -> db -> Prop :=
| step_get self : snap_step self (Core.get_snapshot self).2
| step_clone self s : Core.live self (snap_id s) = true -> snap_step self (Core.clone_snapshot s self)
| step_drop self s : snap_step self (Core.drop_snapshot s self)
| step_release self s : snap_step self (Core.release_snapshot s self)
| step_write self n : Core.last_sequence self <= n ->
    snap_step self (DBImplCore.with_version_set (VersionSet.set_last_sequence n (DBImplCore.version_set self)) self).

(** Every snapshot somebody holds is in the list, and pins a number that was current. *)
Definition snaps_ok self : Prop := forall i seq n, DBImplCore.snap_refs self !! i = Some (seq, S n) ->
  i ∈ DBImplCore.snapshots self /\ seq <= Core.last_sequence self.

Lemma retain_live_ok self : snaps_ok self -> snaps_ok (Core.retain_live self).
Proof.
  intros Hs i seq n Hi. cbn in Hi. destruct (Hs i seq n Hi) as [Hin Hle]. split; [|done]. cbn.
  apply list_elem_of_In, filter_In. split; [by apply list_elem_of_In|]. unfold Core.live, Core.strong_count. by rewrite Hi.
Qed.
Lemma drop_ok s self : snaps_ok self -> snaps_ok (Core.drop_snapshot s self).
Proof.
  intros Hs i seq n. cbn. rewrite lookup_alter_Some. intros [(<- & [seq' n'] & Hi & E1)|[_ Hi]]; [|by apply (Hs i seq n)].
  cbn in E1. destruct n' as [|n']; [done|]. injection E1 as -> _. by apply (Hs _ _ n').
Qed.
Lemma get_snapshot_ok self : snaps_ok self -> snaps_ok (Core.get_snapshot self).2.
Proof.
  intros Hs i seq n. cbn. unfold Core.last_sequence. cbn. set (j := base.fresh (dom (DBImplCore.snap_refs self))).
  rewrite lookup_insert_Some. intros [[<- [= <- _]]|[Hne Hi]].
  - split; [|done]. apply elem_of_app. right. by constructor.
  - destruct (Hs i seq n Hi) as [Hin Hle]. split; [|done]. apply elem_of_app. left.
    apply list_elem_of_In, filter_In. split; [by apply list_elem_of_In|]. unfold Core.live, Core.strong_count. cbn.
    by rewrite lookup_insert_ne, Hi.
Qed.
Lemma snap_step_ok self self' : snap_step self self' -> snaps_ok self -> snaps_ok self'.
Proof.
  destruct 1 as [self|self s Hl|self s|self s|self n Hn]; intros Hs.
  - by apply get_snapshot_ok.
  - intros i seq n. cbn. rewrite lookup_alter_Some. intros [(<- & [seq' n'] & Hi & [= -> ->])|[_ Hi]]; [|by apply (Hs i seq n)].
    unfold Core.live, Core.strong_count in Hl. rewrite Hi in Hl. cbn in Hl. destruct n' as [|n']; [done|]. by apply (Hs _ _ n').
  - by apply drop_ok.
  - by apply retain_live_ok, drop_ok.
  - intros i seq m Hi. destruct (Hs i seq m Hi) as [Hin Hle]. split; [done|]. unfold Core.last_sequence in *. cbn. lia.
Qed.

Lemma minimum_spec l m : Core.minimum l = Some m -> m ∈ l /\ forall x, x ∈ l -> m <= x.
Proof.
  destruct l as [|y l]; [done|]. intros [= <-]. revert y. induction l as [|z l IH]; intros y; cbn [fold_left].
  - split; [by constructor|]. intros x ->%list_elem_of_singleton. lia.
  - destruct (IH (Z.min y z)) as [H1 H2]. split.
    + apply elem_of_cons in H1 as [->|H1]; [|by do 2 right]. destruct (Z.min_spec y z) as [[_ ->]|[_ ->]]; [left|right; left].
    + intros x [->|[->|Hx]%elem_of_cons]%elem_of_cons; [..|apply H2; by right].
      all: pose proof (H2 (Z.min y z) ltac:(by left)); lia.
Qed.
Lemma upgrade_live self i seq : Core.upgrade self i = Some seq <-> exists n, DBImplCore.snap_refs self !! i = Some (seq, S n).
Proof.
  unfold Core.upgrade. destruct (DBImplCore.snap_refs self !! i) as [[s [|n]]|]; cbn; naive_solver.
Qed.
Lemma smallest_spec self : snaps_ok self -> let m := Core.smallest_snapshot_sequence self in
  m <= Core.last_sequence self /\ (forall i seq n, DBImplCore.snap_refs self !! i = Some (seq, S n) -> m <= seq) /\
  (m = Core.last_sequence self \/ exists i n, DBImplCore.snap_refs self !! i = Some (m, S n)).
Proof.
  intros Hs m. unfold m, Core.smallest_snapshot_sequence. destruct (Core.minimum _) as [x|] eqn:Em; cbn.
  - destruct (minimum_spec _ _ Em) as [Hin Hmin]. apply list_elem_of_omap in Hin as (i & Hi & [n Hn]%upgrade_live).
    split_and!; [by destruct (Hs i x n Hn)| |right; by exists i, n].
    intros j seq k Hj. apply Hmin. apply list_elem_of_omap. exists j. split; [by destruct (Hs j seq k Hj)|].
    apply upgrade_live. by exists k.
  - split_and!; [done| |by left]. intros i seq n Hi. exfalso. destruct (Hs i seq n Hi) as [Hin _].
    assert (Hx : seq ∈ omap (Core.upgrade self) (DBImplCore.snapshots self)).
    { apply list_elem_of_omap. exists i. split; [done|]. apply upgrade_live. by exists n. }
    destruct (omap _ _); [by apply elem_of_nil in Hx|done].
Qed.
End snapshots.

(** ** The write group *)

(** The batch of a queued writer holds these operations. *)
Definition queued (w : PendingWriter) (ops : list WriteBatchRecord) : Prop :=
  exists rep seq, w_batch w = Some rep /\ batch_repr rep seq ops.

Lemma enc_all_long ops : len ops <= len (enc_all ops).
Proof.
  induction ops as [|r ops IH]; [done|]. change (enc_all (r :: ops)) with (enc r ++ enc_all ops).
  rewrite len_cons, len_app. pose proof (enc_len_pos r). lia.
Qed.
Lemma ops_fit rep seq ops : batch_repr rep seq ops -> len ops <= len rep - 12.
Proof. intros Hr. rewrite (batch_len _ _ _ Hr). pose proof (enc_all_long ops). lia. Qed.

Lemma group_loop_ok first_sync max_size ws opss : Forall2 queued ws opss -> max_size < 2 ^ 31 ->
  forall result seq ops size count, batch_repr result seq ops -> len result <= size -> 0 <= size ->
  exists n result', (n <= length ws)%nat /\ Core.group_loop first_sync max_size ws result size count = Ret (result', count + Z.of_nat n) /\
    batch_repr result' seq (ops ++ concat (take n opss)) /\ (n = 0%nat \/ len result' <= max_size) /\
    (first_sync = false -> Forall (fun w => w_sync w = false) (take n ws)).
Proof.
  intros Hq Hmax. induction Hq as [|w wops ws opss (rep & sq & Hb & Hrep) _ IH]; intros result seq ops size count Hr Hsize H0; cbn [Core.group_loop].
  { exists 0%nat, result. rewrite Z.add_0_r. cbn. rewrite app_nil_r. by split_and!; [lia|..|left|constructor]. }
  assert (Hstop : exists n result', (n <= length (w :: ws))%nat /\ Ret (result, count) = Ret (result', count + Z.of_nat n) /\
    batch_repr result' seq (ops ++ concat (take n (wops :: opss))) /\ (n = 0%nat \/ len result' <= max_size) /\
    (first_sync = false -> Forall (fun w => w_sync w = false) (take n (w :: ws)))).
  { exists 0%nat, result. rewrite Z.add_0_r. cbn [take concat]. rewrite app_nil_r. by split_and!; [lia|..|left|constructor]. }
  destruct (w_sync w && negb first_sync) eqn:Esync; [done|]. rewrite Hb. cbn [expect mbind outcome_bind].
  unfold saturating_add, Batch.approximate_size. pose proof (len_nonneg rep).
  destruct (Z.ltb_spec max_size (Z.min (size + len rep) (2 ^ 64 - 1))) as [|Hle]; [done|]. clear Hstop.
  rewrite Z.min_l in Hle |- * by lia. pose proof (ops_fit _ _ _ Hr). pose proof (ops_fit _ _ _ Hrep).
  destruct (batch_append _ _ _ _ _ _ Hr Hrep) as (result2 & -> & Hr2); [lia|]. cbn [mbind outcome_bind].
  assert (Hl2 : len result2 <= size + len rep).
  { rewrite (batch_len _ _ _ Hr2), enc_all_app, len_app. rewrite (batch_len _ _ _ Hr) in Hsize. rewrite (batch_len _ _ _ Hrep). lia. }
  destruct (IH result2 seq (ops ++ wops) (size + len rep) (count + 1) Hr2 Hl2 ltac:(lia)) as (n & r & Hn & E & Hrr & Hlim & Hs).
  exists (S n), r. cbn [take concat length]. rewrite app_assoc. split_and!; [lia| |done| |].
  - rewrite E. do 2 f_equal. lia.
  - right. destruct Hlim as [->|]; [|done]. cbn [take concat] in Hrr. rewrite app_nil_r in Hrr. destruct Hr2 as (-> & _), Hrr as (-> & _). lia.
  - intros Hf. constructor; [|by apply Hs]. rewrite Hf in Esync. cbn in Esync. by rewrite andb_true_r in Esync.
Qed.

Section group.
Context {W C P Co K : Type} `{E : Env W}.
Abbreviation db := (DBImplCore.t W C P Co K) (only parsing).
Implicit Types self : db.

Lemma build_group_ok self opss : Forall2 queued (DBImplCore.writers self) opss -> opss <> [] ->
  exists first rest n updates seq, DBImplCore.writers self = first :: rest /\ (1 <= n <= length (DBImplCore.writers self))%nat /\
    Core.build_batch_group self = Ret (updates, Z.of_nat n, w_sync first,
      DBImplCore.with_writers (mk_writer (w_id first) None (w_sync first) (w_result first) :: rest) self) /\
    batch_repr updates seq (concat (take n opss)) /\
    (n = 1%nat \/ len updates <= Z.max (2 * MAX_BATCH_GROUP_OVERHEAD) MAX_BATCH_GROUP_SIZE) /\
    (w_sync first = false -> Forall (fun w => w_sync w = false) (take n (DBImplCore.writers self))).
Proof.
  intros Hq Hne. unfold Core.build_batch_group. destruct Hq as [|first fops rest opss (rep & seq & Hb & Hrep) Hq]; [done|].
  rewrite Hb. cbn [expect mbind outcome_bind].
  assert (Hl : Core.group_limit (Batch.approximate_size rep) < 2 ^ 31 /\
    Core.group_limit (Batch.approximate_size rep) <= Z.max (2 * MAX_BATCH_GROUP_OVERHEAD) MAX_BATCH_GROUP_SIZE).
  { unfold Core.group_limit, Batch.approximate_size. change MAX_BATCH_GROUP_OVERHEAD with 131072. change MAX_BATCH_GROUP_SIZE with 1048576.
    destruct (Z.leb_spec (len rep) 131072); lia. }
  destruct (group_loop_ok (w_sync first) _ rest opss Hq (proj1 Hl) rep seq fops (Batch.approximate_size rep) 1 Hrep ltac:(done) (len_nonneg _))
    as (n & updates & Hn & E1 & Hr & Hlim & Hsync).
  exists first, rest, (S n), updates, seq. rewrite E1. cbn [mbind outcome_bind take concat length]. split_and!; try done; [lia|lia| | |].
  - do 4 f_equal. lia.
  - destruct Hlim as [->|]; [by left|right; lia].
  - intros Hf. constructor; [done|by apply Hsync].
Qed.

(** The slots of the first [n] writers. *)
Definition slots (ws : list PendingWriter) : list nat := omap w_result ws.
Lemma finish_loop_ok n status self : (n <= length (DBImplCore.writers self))%nat ->
  exists self', Core.finish_loop n status self = Ret self' /\ DBImplCore.writers self' = drop n (DBImplCore.writers self) /\
    self' = DBImplCore.with_results (DBImplCore.results self') (DBImplCore.with_writers (DBImplCore.writers self') self) /\
    (forall r, r ∈ slots (take n (DBImplCore.writers self)) -> DBImplCore.results self' !! r = Some (Some status)) /\
    (forall r, r ∉ slots (take n (DBImplCore.writers self)) -> DBImplCore.results self' !! r = DBImplCore.results self !! r).
Proof.
  revert self. induction n as [|n IH]; intros self Hn.
  { exists self. split_and!; [done|by rewrite drop_0|by destruct self|by intros r ?%elem_of_nil|done]. }
  cbn [Core.finish_loop]. destruct (DBImplCore.writers self) as [|w ws] eqn:Ew; [cbn in Hn; lia|]. cbn [length] in Hn.
  match goal with |- context [Core.finish_loop n status ?s] => set (self1 := s) end.
  assert (Hw : DBImplCore.writers self1 = ws) by (unfold self1; by destruct (w_result w)).
  destruct (IH self1) as (self' & -> & Hws & Hself & Hin & Hout); [rewrite Hw; lia|]. rewrite Hw in *.
  exists self'. split_and!; [done|by rewrite Hws| | |].
  - rewrite Hself at 1. unfold self1. by destruct (w_result w).
  - intros r Hr. destruct (decide (r ∈ slots (take n ws))) as [|Hno]; [by apply Hin|]. rewrite Hout by done. unfold self1.
    unfold slots in Hr. cbn [take omap list_omap] in Hr. destruct (w_result w) as [r'|]; cbn in Hr; [|done].
    apply elem_of_cons in Hr as [->|Hr]; [|done]. cbn. apply lookup_insert_eq.
  - intros r Hr. unfold slots in Hr. cbn [take omap list_omap] in Hr. unfold self1 in Hout |- *.
    destruct (w_result w) as [r'|]; cbn in Hr, Hout |- *; [|by apply Hout].
    rewrite Hout by (intros Hx; apply Hr; by right). apply lookup_insert_ne. intros ->. apply Hr. by left.
Qed.
End group.

(** ** Sample: a memtable over one table file *)

Definition sample_record (k : string) (n : Z) (t : ValueType) (v : string) : ParsedInternalKey * bytes :=
  (mk_parsed (list_byte_of_string k) n t, list_byte_of_string v).
Definition sample_records : list (ParsedInternalKey * bytes) :=
  [sample_record "banana" 11 Value "brown"; sample_record "apple" 12 Deletion ""; sample_record "date" 13 Value "sweet"].
Definition sample_mem (ops : list (ParsedInternalKey * bytes)) : MemTable.t BytewiseComparator :=
  match build (c:=Bytewise) (replicate 64 Byte.x00) ops with Ret m => m | _ => MemTable.new Bytewise end.
Definition sample_meta5 : FileMeta :=
  FileMetaData.mk 5 300 (default [] (fst <$> head sample_table)) (default [] (fst <$> last sample_table)).
Definition sample_version5 : Version.t BytewiseComparator :=
  Version.mk [[]; [sample_meta5]; []; []; []; []; []] (mk_icmp Bytewise) f64_minus_one (-1) ∅ None.
Abbreviation sample_db_type := (DBImplCore.t MemEnv BytewiseComparator BloomFilterPolicy Reverser (ShardedLRUCache.t Block)) (only parsing).
Definition sample_options : Options BloomFilterPolicy Reverser (ShardedLRUCache.t Block) :=
  mk_options DEFAULT_WRITE_BUFFER_SIZE DEFAULT_BLOCK_CACHE_SIZE DEFAULT_MAX_OPEN_FILES true false false
    (Some sample_policy) None (Some reverser) DEFAULT_BLOCK_SIZE DEFAULT_BLOCK_RESTART_INTERVAL false Data.
(** A database in "db" with this memtable, this version and no immutable memtable. *)
Definition sample_db (m : MemTable.t BytewiseComparator) (v : Version.t BytewiseComparator) (last : Z) : sample_db_type :=
  DBImplCore.mk (E:=MemEnv_Env) "db" Bytewise (mk_icmp Bytewise) sample_options 0 None
    (Some LogWriter.new) (Some (Mem.mk_writable 0 false)) (Mem.mk_lock (path_new "db/LOCK")) 2
    (VersionSet.mk (E:=MemEnv_Env) "db" (mk_icmp Bytewise) v 10 4 last 2 0 None None (replicate 7 []) None)
    (TableCache.new_full "db" (mk_icmp Bytewise) 100 (Some sample_policy) (Some reverser))
    [] 0 [] false false false false None [] 1 (replicate 7 CompactionStats.default) 0 {[0%nat := m]} ∅ ∅.
Definition sample_dir (ds : list dblock) (data : bytes) (n : Z) : option (table_file (P:=BloomFilterPolicy)) :=
  if n =? 5 then Some (mk_tfile data (Some sample_policy) ds) else None.

Lemma sample_records_ok : ops_ok (replicate 64 Byte.x00) sample_records.
Proof.
  split; [|apply (bool_decide_unpack _); vm_compute; exact I].
  unfold sample_records. repeat apply Forall_cons_2; try apply Forall_nil_2; unfold record_ok, is_u32, MAX_SEQUENCE_NUMBER;
    vm_compute; repeat split; congruence.
Qed.
Lemma sample_mem_holds : mem_holds (c:=Bytewise) (ord:=bytes_cmp) (sample_mem sample_records) (built_entries (ord:=bytes_cmp) sample_records).
Proof.
  destruct (build_ok (c:=Bytewise) (ord:=bytes_cmp) _ _ sample_records_ok) as (m & Hm & Hh). unfold sample_mem. by rewrite Hm.
Qed.

Lemma sample_entries_wf es : forallb (fun e => (8 <=? len e.1) && ((ekind e =? 0) || (ekind e =? 1))) es = true -> Forall entry_wf es.
Proof.
  rewrite forallb_forall, Forall_forall. intros Hb e He%list_elem_of_In. specialize (Hb e He).
  apply andb_true_iff in Hb as [?%Z.leb_le Hk]. split; [done|]. apply orb_true_iff in Hk as [?%Z.eqb_eq|?%Z.eqb_eq]; [by left|by right].
Qed.

Section sample_view.
Context (ds : list dblock) (data : bytes) (Hes : all_entries ds = sample_table) (b : nat) (last : Z).
Context (Hok : tfile_ok Bytewise bytes_cmp (Some reverser) (Some sample_policy) (mk_tfile data (Some sample_policy) ds)).

Lemma sample_contents5 : contents (sample_dir ds data) 5 = sample_table.
Proof. unfold contents, sample_dir. rewrite Z.eqb_refl. exact Hes. Qed.
Lemma sample_version5_wf : version_wf Bytewise bytes_cmp (contents (sample_dir ds data)) sample_version5.
Proof.
  split; try done.
  - repeat (apply Forall_cons; split; [|]); try apply Forall_nil_2. split; cbn [FileMetaData.number sample_meta5]; rewrite ?sample_contents5.
    + split; by vm_compute.
    + apply sample_entries_wf. by vm_compute.
    + apply sortedb_sound; [apply _|]. by vm_compute.
    + intros e He. repeat (apply elem_of_cons in He as [->|He]; [by vm_compute|]). by apply elem_of_nil in He.
    + intros e He. repeat (apply elem_of_cons in He as [->|He]; [by vm_compute|]). by apply elem_of_nil in He.
    + eexists. apply list_elem_of_lookup. by exists 5%nat.
  - repeat (apply Forall_cons; split; [intros [|i] [|j] a x Hij Ha Hx; cbn in *; first [done|lia]|]). done.
  - intros l0 [= <-]. constructor.
  - intros l0 a x [= <-] Ha. by apply elem_of_nil in Ha.
  - unfold sample_version5. cbn [Version.files map stored_in concat]. unfold stored_in. cbn [map concat]. cbn [FileMetaData.number sample_meta5].
    rewrite sample_contents5. repeat split; apply newerb_sound; by vm_compute.
Qed.

Abbreviation sample_disk := (snd (Mem.write_file (path_new (table_file_name "db" 5)) data Mem.new)) (only parsing).
Lemma sample_on_disk : on_disk (W:=MemEnv) (file_at:=fun w p => view w !! p) Bytewise bytes_cmp (Some reverser) (Some sample_policy)
  "db" (sample_dir ds data) sample_disk.
Proof.
  intros n f. unfold sample_dir. destruct (Z.eqb_spec n 5) as [->|]; [|done]. intros [= <-].
  split; [clear; unfold is_u64; lia|]. split; [exact Hok|].
  unfold table_at. assert (Hv : view sample_disk !! ldb_path "db" 5 = Some data); [|by rewrite Hv].
  unfold ldb_path. cbn [snd Mem.write_file]. rewrite alloc_view by apply new_wf. apply lookup_insert_eq.
Qed.
Abbreviation sample_state := (sample_db (sample_mem sample_records) sample_version5 last, (sample_disk, ShardedLRUCache.new (V:=Block) 100)) (only parsing).
Lemma sample_db_view : Z.of_nat b < 2 ^ 63 ->
  db_view (E:=MemEnv_Env) (file_at:=fun w p => view w !! p) (cache_ok:=sharded_ok) (cached:=sharded_cached) (next:=ShardedLRUCache.next_id)
    Bytewise bytes_cmp (Some reverser) (Some sample_policy) "db" (sample_dir ds data) b
    sample_state (built_entries (ord:=bytes_cmp) sample_records) [].
Proof.
  intros Hb. split.
  - split; [apply sample_entries_wf; by vm_compute|]. exists (sample_mem sample_records). split; [reflexivity|apply sample_mem_holds].
  - done.
  - exact sample_version5_wf.
  - repeat (apply Forall_cons; split; [|]); try apply Forall_nil_2. by eexists.
  - apply (new_tc_inv (W:=MemEnv) (file_at:=fun w p => view w !! p)).
    + exact sample_on_disk.
    + apply sharded_new_ok.
    + apply sharded_new_empty.
    + by vm_compute.
    + change (ShardedLRUCache.next_id (ShardedLRUCache.new (V:=Block) 100)) with 1. lia.
  - unfold Core.current, version_entries. cbn [fst sample_db DBImplCore.version_set VersionSet.current sample_version5 Version.files map stored_in concat app].
    unfold stored_in. cbn [map concat]. cbn [FileMetaData.number sample_meta5]. rewrite sample_contents5. apply newerb_sound. by vm_compute.
  - intros x y Hx. by apply elem_of_nil in Hx.
Qed.
End sample_view.

(** ** Claims *)

(** C1: (DB::get) Over a memtable, an immutable memtable and a version, newer versions of a key
    in the earlier of them, a read at the latest sequence number or at a snapshot tells
    the newest version visible there among all that is stored: its value, or nothing when
    it is a deletion or there is none.  It only changes caches and seek statistics: the
    files, levels and compaction score of the version, every other field of the database
    and the file system stay as they are. *)
Theorem db_get_newest {W C P Co K} `{E : Env W} {file_at : W -> path -> option bytes} `{!RandomAccessLaws file_at}
    `{Comparator C} `{FilterPolicy P} `{Compressor Co} `{Cache K Block} {cache_ok : K -> Prop}
    {cached : K -> bytes -> Block -> Prop} {next : K -> Z}
    `{!CacheLaws cache_ok cached, !CacheIdLaws cache_ok cached, !CacheFreshLaws next}
    (c : C) ord `{!ComparatorLaws c (fun _ => True) ord} (co : option Co) (policy : option P) dbname dir b
    (s : DBImplCore.t W C P Co K * (W * K)) em ei ro uk :
  (forall a b, ord a b = Eq -> a = b) -> (forall x, co = Some x -> CompressorLaws x) ->
  (forall q, policy = Some q -> ik_ok (TableFileBuilder.filter_key (filter_name q))) ->
  db_view (file_at:=file_at) (cache_ok:=cache_ok) (cached:=cached) (next:=next) c ord co policy dbname dir (lookups (Core.current s.1) + b) s em ei ->
  0 <= Core.read_sequence s.1 ro <= MAX_SEQUENCE_NUMBER -> is_u32 (len uk + 8) ->
  exists res s', Core.get_with_options ro uk s = (Ret (told res), s') /\
    answers (mk_ikey uk (mk_tag (Core.read_sequence s.1 ro) Value)) (db_entries dir s em ei) res /\
    db_view (file_at:=file_at) (cache_ok:=cache_ok) (cached:=cached) (next:=next) c ord co policy dbname dir b s' em ei /\
    exists v tc k, s' = (Core.with_current v (DBImplCore.with_table_cache tc s.1), (s.2.1, k)) /\ same_files (Core.current s.1) v.
Proof.
  intros Hanti Hco Hname Hv Hs Hu.
  destruct (get_with_options_ok c ord Hanti co Hco policy Hname dbname dir b s em ei ro uk Hv Hs Hu) as (res & s' & E1 & Hv' & Hch & Ha).
  exists res, s'. by split_and!.
Qed.

Lemma db_get_newest_witness :
  exists b w', sample_build = (Ret b, w') /\
  let data := mem_contents sample_file.1 w' in
  let s := (sample_db (sample_mem sample_records) sample_version5 13,
            (snd (Mem.write_file (path_new (table_file_name "db" 5)) data Mem.new), ShardedLRUCache.new (V:=Block) 100)) in
  let key := list_byte_of_string in
  let get ro k := exists res s', Core.get_with_options ro (key k) s = (Ret (told res), s') /\
    answers (mk_ikey (key k) (mk_tag (Core.read_sequence s.1 ro) Value)) (built_entries (ord:=bytes_cmp) sample_records ++ [] ++ sample_table) res in
  get ReadOptions_default "apple"%string /\ get (mk_read (Some (mk_snapshot 0 8)) true false) "apple"%string.
Proof.
  destruct (build_table_ok (W:=MemEnv) (H:=MemEnv_Env) (is_open:=mem_open) (contents:=mem_contents) (mk_icmp Bytewise) ik_ok (ik_ord bytes_cmp)
    sample_keys_ok (Some sample_policy) (Some reverser) sample_table 40 2 sample_file.1 sample_file.2 sample_ok ltac:(lia) eq_refl eq_refl)
    as (b & w' & ds & E & Hes & _ & _ & _ & _ & Ht).
  exists b, w'. split; [exact E|]. destruct (sample_sizes b w' E) as [H1 H2]. specialize (Ht H1 H2). intros data s key get.
  assert (Hview := sample_db_view ds data Hes 6 13 (conj Ht (conj H1 sample_agree)) ltac:(clear; lia)).
  assert (Hall : db_entries (sample_dir ds data) s (built_entries (ord:=bytes_cmp) sample_records) [] =
    built_entries (ord:=bytes_cmp) sample_records ++ [] ++ sample_table).
  { unfold db_entries. do 2 f_equal. unfold s, Core.current, version_entries. cbn [fst sample_db DBImplCore.version_set VersionSet.current sample_version5 Version.files map stored_in concat app].
    unfold stored_in. cbn [map concat]. cbn [FileMetaData.number sample_meta5]. rewrite sample_contents5 by exact Hes. by vm_compute. }
  assert (Hget : forall ro k, 0 <= Core.read_sequence s.1 ro <= MAX_SEQUENCE_NUMBER -> is_u32 (len (key k) + 8) -> get ro k).
  { intros ro k Hs Hu.
    destruct (db_get_newest (E:=MemEnv_Env) (file_at:=fun w p => view w !! p) (cache_ok:=sharded_ok) (cached:=sharded_cached)
      (next:=ShardedLRUCache.next_id) Bytewise bytes_cmp (Some reverser) (Some sample_policy) "db" (sample_dir ds data) 0 s _ _
      ro (key k) (fun x y => proj1 (bytes_cmp_eq x y)) sample_compressors sample_names Hview Hs Hu) as (res & s' & Eg & Ha & _).
    exists res, s'. split; [exact Eg|]. rewrite <- Hall. exact Ha. }
  split; apply Hget; (split; by vm_compute).
Defined.

(** C4: (snapshots) However snapshots are taken, cloned, dropped and released between writes,
    [smallest_snapshot_sequence] is not above any snapshot somebody still holds, nor above
    the last sequence number, and it is one of these: compaction keeps what they can see
    and nothing more. *)
Theorem snapshots_covered {W C P Co K} `{E : Env W} (self0 self : DBImplCore.t W C P Co K) :
  DBImplCore.snap_refs self0 = ∅ -> rtc snap_step self0 self ->
  let m := Core.smallest_snapshot_sequence self in
  m <= Core.last_sequence self /\ (forall i seq n, DBImplCore.snap_refs self !! i = Some (seq, S n) -> m <= seq) /\
  (m = Core.last_sequence self \/ exists i n, DBImplCore.snap_refs self !! i = Some (m, S n)).
Proof.
  intros H0 Hsteps. apply smallest_spec.
  assert (Hok : snaps_ok self0) by (intros i seq n; by rewrite H0, lookup_empty).
  clear H0. induction Hsteps as [|x y z Hxy _ IH]; [done|]. apply IH. by apply (snap_step_ok x).
Qed.

(** Two snapshots, at 13 and at 20; the first is cloned, released and dropped. *)
Definition snap_d0 : sample_db_type := sample_db (MemTable.new Bytewise) sample_version5 13.
Definition snap_d1 := (Core.get_snapshot snap_d0).2.
Definition snap_d2 := DBImplCore.with_version_set (VersionSet.set_last_sequence 20 (DBImplCore.version_set snap_d1)) snap_d1.
Definition snap_d3 := (Core.get_snapshot snap_d2).2.
Definition snap_d4 := Core.release_snapshot (mk_snapshot 0 13) (Core.clone_snapshot (mk_snapshot 0 13) snap_d3).
Definition snap_d5 := Core.drop_snapshot (mk_snapshot 0 13) snap_d4.
Lemma snapshots_covered_witness :
  map Core.smallest_snapshot_sequence [snap_d3; snap_d4; snap_d5] = [13; 13; 20] /\
  DBImplCore.snap_refs snap_d5 !! 1%nat = Some (20, 1%nat) /\ Core.smallest_snapshot_sequence snap_d5 <= 20.
Proof.
  assert (Hs : rtc snap_step snap_d0 snap_d5).
  { eapply rtc_l; [apply step_get|]. fold snap_d1. apply rtc_l with snap_d2; [apply step_write; vm_compute; discriminate|].
    eapply rtc_l; [apply step_get|]. fold snap_d3. eapply rtc_l; [apply (step_clone _ (mk_snapshot 0 13)); vm_compute; reflexivity|].
    eapply rtc_l; [apply (step_release _ (mk_snapshot 0 13))|]. apply rtc_once. apply step_drop. }
  split; [vm_compute; reflexivity|]. split; [vm_compute; reflexivity|].
  exact (proj1 (proj2 (snapshots_covered snap_d0 snap_d5 eq_refl Hs)) 1%nat 20 0%nat ltac:(vm_compute; reflexivity)).
Defined.

(** C5: (write group) Over a queue of well-formed batches the leader's group is a run of the
    queue from the front: its operations are those of the grouped writers in order, no
    synced write rides on an unsynced one, and it is longer than one writer only within
    the size limit.  Finishing the group removes exactly its writers, hands each of their
    waiting threads the status, and touches no other. *)
Theorem write_group_run {W C P Co K} `{E : Env W} (self : DBImplCore.t W C P Co K) opss status :
  Forall2 queued (DBImplCore.writers self) opss -> opss <> [] ->
  exists first n updates seq self1 self2,
    head (DBImplCore.writers self) = Some first /\ (1 <= n <= length (DBImplCore.writers self))%nat /\
    Core.build_batch_group self = Ret (updates, Z.of_nat n, w_sync first, self1) /\ batch_repr updates seq (concat (take n opss)) /\
    (w_sync first = false -> Forall (fun w => w_sync w = false) (take n (DBImplCore.writers self))) /\
    (n = 1%nat \/ len updates <= Z.max (2 * MAX_BATCH_GROUP_OVERHEAD) MAX_BATCH_GROUP_SIZE) /\
    Core.finish_writer_group (Z.of_nat n) status self1 = Ret self2 /\
    DBImplCore.writers self2 = drop n (DBImplCore.writers self) /\
    forall r, DBImplCore.results self2 !! r =
      if decide (r ∈ slots (take n (DBImplCore.writers self))) then Some (Some status) else DBImplCore.results self !! r.
Proof.
  intros Hq Hne. destruct (build_group_ok self opss Hq Hne) as (first & rest & n & updates & seq & Ew & Hn & Eb & Hr & Hlim & Hs).
  set (self1 := DBImplCore.with_writers _ self) in Eb.
  destruct (finish_loop_ok n status self1) as (self2 & E2 & Hws & _ & Hin & Hout).
  { unfold self1. cbn. rewrite Ew in Hn. cbn in Hn. lia. }
  exists first, n, updates, seq, self1, self2. split_and!; try done.
  - by rewrite Ew.
  - lia.
  - lia.
  - unfold Core.finish_writer_group. by rewrite Nat2Z.id.
  - rewrite Hws, Ew. unfold self1. cbn. destruct n; [lia|done].
  - assert (Hsl : slots (take n (DBImplCore.writers self1)) = slots (take n (DBImplCore.writers self))).
    { rewrite Ew. unfold self1. cbn. destruct n; [lia|done]. }
    rewrite Hsl in Hin, Hout. intros r. case_decide as Hd; [by apply Hin|by rewrite Hout].
Qed.

Definition sample_batch (ops : list WriteBatchRecord) : WriteBatch := to_le_bytes 8 0 ++ to_le_bytes 4 (len ops) ++ enc_all ops.
Definition sample_put (k v : string) : WriteBatchRecord := Put (list_byte_of_string k) (list_byte_of_string v).
Definition sample_queue : list PendingWriter :=
  [mk_writer 1 (Some (sample_batch [sample_put "a" "1"])) false None;
   mk_writer 2 (Some (sample_batch [sample_put "b" "2"; Delete (list_byte_of_string "a")])) false (Some 0%nat);
   mk_writer 3 (Some (sample_batch [sample_put "c" "3"])) true (Some 1%nat)]%string.
Definition queue_db : sample_db_type :=
  DBImplCore.with_writers sample_queue (DBImplCore.with_results {[0%nat := None; 1%nat := None]} (sample_db (MemTable.new Bytewise) sample_version5 13)).
Lemma sample_batch_repr ops : len ops < 2 ^ 32 -> Forall WriteBatch.record_ok ops -> batch_repr (sample_batch ops) 0 ops.
Proof. intros Hl Ho. split; [done|]. split; [by unfold is_u64|done]. Qed.
Lemma sample_queue_ok : Forall2 queued sample_queue
  [[sample_put "a" "1"]; [sample_put "b" "2"; Delete (list_byte_of_string "a")]; [sample_put "c" "3"]]%string.
Proof.
  repeat apply Forall2_cons_2; try apply Forall2_nil_2.
  all: eexists _, 0; (split; [reflexivity|apply sample_batch_repr; [by vm_compute|]]).
  all: repeat apply Forall_cons_2; try apply Forall_nil_2; unfold WriteBatch.record_ok, is_u32; vm_compute; repeat split; congruence.
Qed.

Lemma write_group_run_witness :
  exists updates self1 self2, Core.build_batch_group queue_db = Ret (updates, 2, false, self1) /\
    Batch.records updates = Ret [sample_put "a" "1"; sample_put "b" "2"; Delete (list_byte_of_string "a")]%string /\
    Core.finish_writer_group 2 (Ret tt) self1 = Ret self2 /\ DBImplCore.writers self2 = drop 2 sample_queue /\
    DBImplCore.results self2 !! 0%nat = Some (Some (Ret tt)) /\ DBImplCore.results self2 !! 1%nat = Some None.
Proof.
  destruct (write_group_run queue_db _ (Ret tt) sample_queue_ok ltac:(discriminate))
    as (first & n & updates & seq & self1 & self2 & Hf & Hn & Eb & Hr & _ & _ & Ef & Hws & Hres).
  assert (n = 2%nat) as ->.
  { assert (E2 : match Core.build_batch_group queue_db with Ret (_, n, _, _) => n = 2 | _ => False end) by (vm_compute; reflexivity).
    rewrite Eb in E2. lia. }
  injection Hf as <-. exists updates, self1, self2. split; [exact Eb|]. split; [exact (batch_records _ _ _ Hr)|]. split; [exact Ef|].
  split; [exact Hws|]. split; rewrite Hres; vm_compute; reflexivity.
Defined.
