(* ===== verification/Compact.v ===== *)
(** * Compact.v: flushing and compaction ([db_impl/db_impl.rs]).

    [compact_memtable_async] and [do_compaction_work_async] in the sections between which
    they give the mutex back, the cycle of the background thread, and the rotation of the
    memtable that the write path and [force_flush] share.  [micros] is the measured time.
    Only the environment is used outside the mutex, and the table files written there are
    new.  Log messages are left out. *)
From S2P Require Import Prelude Status Coding Comparator Format WriteBatch Filter Block Env Filename Sort Cache.
From S2P Require Import TableBuilder TableBuilderCorrect Table TwoLevelIter Log TableCache VersionEdit Version VersionSet.
From S2P Require Import MemTable SharedMem DbState DbCore DbIterator.

Module Compact.
Import DBImplCore Core.
Section ops.
Context {W C P Co K : Type} `{E : Env W} `{HC : Comparator C} `{HP : FilterPolicy P} `{HCo : Compressor Co} `{HK : Cache K Block}.
Abbreviation db := (DBImplCore.t W C P Co K) (only parsing).
Abbreviation M := (action (db * (W * K))) (only parsing).
Abbreviation builder := (TableFileBuilder.t W (InternalKeyComparator C) P Co) (only parsing).
Implicit Types self : db.

(** ** Writing a table file *)

(** A builder's method, on the builder at hand. *)
Definition on_builder {A} (m : action (builder * W) A) (b : builder) : action W (A * builder) := fun w =>
  let '(r, (b, w)) := m (b, w) in ((fun a => (a, b)) <$> r, w).
(** [finish], [file_size], [sync], [close]. *)
Definition seal (b : builder) : action W Z :=
  '(_, b) ← on_builder TableFileBuilder.finish b;
  let file_size := TableFileBuilder.file_size b in
  '(_, b) ← on_builder TableFileBuilder.sync b;
  _ ← on_builder TableFileBuilder.close b;
  mret file_size.
Definition new_builder (icmp : InternalKeyComparator C) (options : Options P Co K) (dbname : string) (number : Z) : action W builder :=
  file ← new_writable_file (path_new (table_file_name dbname number));
  lift (TableFileBuilder.with_options icmp (block_size options) (block_restart_interval options) file (filter_policy options) (compressor options)).
(** The whole file for sorted entries: [Result] is its size. *)
Definition write_table (icmp : InternalKeyComparator C) (options : Options P Co K) (dbname : string) (number : Z) (entries : list entry) : action W Z :=
  b ← new_builder icmp options dbname number;
  '(_, b) ← on_builder (TableFileBuilder.add_all entries) b;
  seal b.

(** ** [compact_memtable_async] *)

Record flush_job := mk_job { j_entries : list entry; j_number : Z; j_level : Z; j_log_number : Z }.

(** Step 1, under the lock.  An empty memtable is dropped without a file. *)
Definition flush_begin : M (option flush_job) :=
  self ← reads id;
  match imm self with
  | None => mret None
  | Some m =>
      entries ← lift (SharedMemTable.collect_entries (heap self) m);
      match entries with
      | [] => modify (with_imm None);; mret None
      | first :: _ =>
          smallest ← lift (strip_tag first.1);
          largest ← lift (strip_tag (default first (last entries)).1);
          output_level ← lift (Version.pick_level_for_memtable_output (current self) smallest largest);
          file_number ← new_file_number;
          mret (Some (mk_job entries file_number output_level (log_file_number self)))
      end
  end.
(** Step 2, without the lock. *)
Definition flush_write (job : flush_job) : M Z :=
  self ← reads id;
  on_env (write_table (icmp self) (options self) (dbname self) (j_number job) (j_entries job)).
(** Step 3, under the lock: the new table is registered, then the memtable dropped. *)
Definition entry_range (entries : list entry) : bytes * bytes :=
  (default [] (fst <$> head entries), default [] (fst <$> last entries)).
Definition add_stats (level : Z) (c : CompactionStats.t) : M unit :=
  self ← reads id;
  s ← lift (index (stats self) level);
  ss ← lift (set_index (stats self) level (CompactionStats.add s c));
  modify (with_stats ss).
Definition new_table_edit (log_number : option Z) (level number file_size : Z) (entries : list entry) : VersionEdit.t :=
  VersionEdit.mk None log_number None None None [] []
    [mk_new (as_u32 level) (FileMetaData.mk number file_size (entry_range entries).1 (entry_range entries).2)].
Definition flush_install (job : flush_job) (file_size micros : Z) : M unit :=
  on_versions (VersionSet.log_and_apply (new_table_edit (Some (j_log_number job)) (j_level job) (j_number job) file_size (j_entries job)));;
  delete_obsolete_logs;;
  add_stats (j_level job) (CompactionStats.mk (as_i64 micros) 0 (as_i64 file_size));;
  modify (with_imm None).
Definition compact_memtable (micros : Z) : M unit :=
  job ← flush_begin;
  match job with
  | None => mret tt
  | Some job => file_size ← flush_write job; flush_install job file_size micros
  end.

(** ** [do_compaction_work_async] *)

Definition trivial_move (c : Compaction.t C) : M unit :=
  f ← lift (Compaction.input c 0 0);
  let level := Compaction.level c in
  on_versions (VersionSet.log_and_apply (VersionEdit.mk None None None None None []
    [mk_deleted (as_u32 level) (FileMetaData.number f)] [mk_new (as_u32 (level + 1)) f])).

(** Step 2: every entry of every input, table by table, sorted.  [fuel] bounds the entries
    read from one table. *)
Definition input_files (c : Compaction.t C) : list FileMeta := Compaction.inputs0 c ++ Compaction.inputs1 c.
Fixpoint read_all {I} `{DbIterator I} (fuel : nat) (iter : I) (all : list entry) : outcome (list entry * I) :=
  v ← valid iter;
  if negb v then Ret (all, iter) else
  match fuel with
  | O => Panic
  | S fuel =>
      key ← iter_key iter;
      value ← iter_value iter;
      iter ← next iter;
      read_all fuel iter (all ++ [(key, value)])
  end.
Definition on_world {A} (m : action (W * K) A) : M A := fun s => let '(r, io) := m s.2 in (r, (s.1, io)).
Definition read_input (fuel : nat) (icmp : InternalKeyComparator C) (verify : bool) (compressor : option Co) (p : path) : action (W * K) (list entry) :=
  file_size ← Table.on_file (get_file_size p);
  file ← Table.on_file (new_random_access_file p);
  table ← open_random_with_options file file_size icmp false (None : option P) compressor;
  io ← get_state;
  iter ← lift (seek_to_first (Table.new_iterator_verify table verify io));
  '(es, iter) ← lift (read_all fuel iter []);
  _ ← lift (iter_status iter);
  mret es.
Fixpoint read_inputs (fuel : nat) (icmp : InternalKeyComparator C) (verify : bool) (compressor : option Co) (paths : list path) : action (W * K) (list entry) :=
  match paths with
  | [] => mret []
  | p :: paths => es ← read_input fuel icmp verify compressor p; rest ← read_inputs fuel icmp verify compressor paths; mret (es ++ rest)
  end.

(** Step 3: the state of the loop. *)
Record merging := mk_merging {
  outputs : list FileMeta;
  builder_ : option builder;
  current_file_number : Z;
  current_smallest : bytes;
  current_largest : bytes;
  last_user_key : option bytes;
  last_sequence_for_key : Z;
}.
Definition merging_start : merging := mk_merging [] None 0 [] [] None (2 ^ 64 - 1).

Definition decode_tag (ik : bytes) : outcome Z := n ← usub (len ik) 8; bs ← slice_from ik n; decode_fixed64 bs.
(** Whether the entry is hidden from every snapshot by a newer one, or a deletion that
    hides nothing any more. *)
Definition drops (c : Compaction.t C) (smallest_snapshot : Z) (last_seq : Z) (user_key : bytes) (value_type sequence : Z) : outcome bool :=
  if last_seq <=? smallest_snapshot then Ret true
  else if (value_type =? value_type_u8 Deletion) && (sequence <=? smallest_snapshot)
  then Compaction.is_base_level_for_key c user_key else Ret false.
Definition finish_compaction_output (b : builder) (number : Z) (smallest largest : bytes) : action W FileMeta :=
  file_size ← seal b; mret (FileMetaData.mk number file_size smallest largest).
Definition open_output (ik : bytes) (st : merging) : M merging :=
  match builder_ st with
  | Some _ => mret st
  | None =>
      n ← new_file_number;
      self ← reads id;
      b ← on_env (new_builder (icmp self) (options self) (dbname self) n);
      mret (mk_merging (outputs st) (Some b) n ik (current_largest st) (last_user_key st) (last_sequence_for_key st))
  end.
Definition close_output (st : merging) : M merging :=
  match builder_ st with
  | None => mret st
  | Some b =>
      meta ← on_env (finish_compaction_output b (current_file_number st) (current_smallest st) (current_largest st));
      mret (mk_merging (outputs st ++ [meta]) None (current_file_number st) (current_smallest st) (current_largest st)
             (last_user_key st) (last_sequence_for_key st))
  end.
Definition write_entry (max_output_file_size : Z) (ik value : bytes) (st : merging) : M merging :=
  st ← open_output ik st;
  b ← lift (expect (builder_ st));
  '(_, b) ← on_env (on_builder (TableFileBuilder.add ik value) b);
  let st := mk_merging (outputs st) (Some b) (current_file_number st) (current_smallest st) ik (last_user_key st) (last_sequence_for_key st) in
  if max_output_file_size <=? TableFileBuilder.file_size b then close_output st else mret st.
Definition merge_entry (c : Compaction.t C) (smallest_snapshot : Z) (e : entry) (st : merging) : M merging :=
  user_key ← lift (strip_tag e.1);
  tag ← lift (decode_tag e.1);
  let value_type := Z.land tag 0xff in
  let sequence := Z.shiftr tag 8 in
  let last_seq := if bool_decide (last_user_key st = Some user_key) then last_sequence_for_key st else 2 ^ 64 - 1 in
  drop ← lift (drops c smallest_snapshot last_seq user_key value_type sequence);
  let st := mk_merging (outputs st) (builder_ st) (current_file_number st) (current_smallest st) (current_largest st) (Some user_key) sequence in
  if drop : bool then mret st else write_entry (Compaction.max_output_file_size c) e.1 e.2 st.
Fixpoint merge_loop (c : Compaction.t C) (smallest_snapshot : Z) (all : list entry) (st : merging) : M merging :=
  match all with
  | [] => mret st
  | e :: all => st ← merge_entry c smallest_snapshot e st; merge_loop c smallest_snapshot all st
  end.
Definition merge_outputs (c : Compaction.t C) (smallest_snapshot : Z) (all : list entry) : M (list FileMeta) :=
  st ← merge_loop c smallest_snapshot all merging_start;
  st ← close_output st;
  mret (outputs st).

(** Step 4, under the lock. *)
Definition deleted_of (level : Z) (fs : list FileMeta) : list DeletedFile := map (fun f => mk_deleted (as_u32 level) (FileMetaData.number f)) fs.
Definition compaction_edit (c : Compaction.t C) (outputs : list FileMeta) : VersionEdit.t :=
  VersionEdit.mk None None None None None (VersionEdit.compact_pointers (Compaction.edit c))
    (deleted_of (Compaction.level c) (Compaction.inputs0 c) ++ deleted_of (Compaction.level c + 1) (Compaction.inputs1 c))
    (map (mk_new (as_u32 (Compaction.level c + 1))) outputs).
Definition sum_i64 (fs : list FileMeta) : Z := fold_left (fun n f => as_i64 (n + as_i64 (FileMetaData.file_size f))) fs 0.
Definition compaction_install (c : Compaction.t C) (outputs : list FileMeta) (micros : Z) : M unit :=
  on_versions (VersionSet.log_and_apply (compaction_edit c outputs));;
  retire_table_file_numbers (map FileMetaData.number (input_files c));;
  add_stats (Compaction.level c + 1) (CompactionStats.mk (as_i64 micros) (sum_i64 (input_files c)) (sum_i64 outputs)).
Definition do_compaction_work (fuel : nat) (c : Compaction.t C) (micros : Z) : M unit :=
  if Compaction.is_trivial_move c then trivial_move c else
  self ← reads id;
  let smallest_snapshot := smallest_snapshot_sequence self in
  let paths := map (fun f => path_new (table_file_name (dbname self) (FileMetaData.number f))) (input_files c) in
  all ← on_world (read_inputs fuel (icmp self) (paranoid_checks (options self)) (compressor (options self)) paths);
  all ← lift (sort_by (fun a b => compare (icmp self) a.1 b.1) all);
  outputs ← merge_outputs c smallest_snapshot all;
  compaction_install c outputs micros.

(** ** The background thread *)

(** [self.version_set.pick_compaction()] and [pick_manual_compaction]. *)
Definition on_pick {A} (f : VersionSet.t C W -> outcome (A * VersionSet.t C W)) : M A := fun s =>
  match f (version_set s.1) with
  | Ret (a, vs) => (Ret a, (with_version_set vs s.1, s.2))
  | Fail e => (Fail e, s)
  | Panic => (Panic, s)
  end.
Definition pick_compaction : M (option (Compaction.t C)) := on_pick VersionSet.pick_compaction.
Definition pick_manual_compaction (level : Z) (begin end_ : option bytes) : M (option (Compaction.t C)) :=
  on_pick (VersionSet.pick_manual_compaction level begin end_).
(** Compactions until none is wanted; [false] when [rounds] of them were not enough. *)
Fixpoint drain (rounds fuel : nat) (micros : Z) : M bool :=
  c ← pick_compaction;
  match c with
  | None => mret true
  | Some c =>
      match rounds with
      | O => mret false
      | S rounds => do_compaction_work fuel c micros;; drain rounds fuel micros
      end
  end.
Definition bg_step (rounds fuel : nat) (micros : Z) : M bool :=
  has_imm ← reads (fun self => is_some (imm self));
  (if has_imm : bool then compact_memtable micros else mret tt);;
  drain rounds fuel micros.

(** [bg_loop]: whether the thread parks, what it does when it wakes and when it is done.
    [bg_wake] is [Some true] when there is work to run, [Some false] to go round again,
    [None] to exit. *)
Definition bg_parks self : bool :=
  negb (shutting_down self) && (manual_compaction_running self || (negb (bg_work_scheduled self) && negb (is_some (imm self)))).
Definition bg_wake self : option bool * db :=
  if shutting_down self then (None, self)
  else if is_some (bg_error self) then (Some false, with_scheduled false self)
  else (Some true, with_running true (with_scheduled false self)).
Definition bg_done {A} (result : outcome A) self : db :=
  let self := with_running false self in
  match result with Fail e => with_bg_error (Some e) self | _ => self end.

(** ** Rotating the memtable

    The same lines in [write_owned] and in [force_flush]. *)
Definition switch_memtable self : db :=
  let '(new_mem, h) := SharedMemTable.new (comparator self) (heap self) in
  with_scheduled true (with_memory_usage 0 (with_imm (Some (mem self)) (with_mem new_mem (with_heap h self)))).
Definition rotate : M unit :=
  new_log ← new_file_number;
  switch_active_log new_log;;
  modify switch_memtable.
End ops.
End Compact.
