(* ===== verification/CompactCorrect.v ===== *)
(** * CompactCorrect.v: what compaction keeps.

    The merge loop writes the entries that [kept] selects, in order, cut into table files.
    What it leaves out no snapshot can see: every read at or above the smallest snapshot is
    told the same before and after. *)
From S2P Require Import Prelude Status Coding Comparator Format Filter Block Env Sort Cache.
From S2P Require Import TableBuilder TableBuilderCorrect Table TableCorrect Newest VersionEdit Version VersionCorrect VersionSet.
From S2P Require Import DbState DbCore Compact DbIterator.

(** ** The entries that stay *)

Definition esequence (e : entry) : Z := Z.shiftr (utag e.1) 8.
(** [prev]: the user key and the sequence number of the entry before. *)
Definition hidden_by (smallest : Z) (prev : option (bytes * Z)) (uk : bytes) : bool :=
  match prev with Some (k, s) => bool_decide (k = uk) && (s <=? smallest) | None => false end.
Definition dropped (smallest : Z) (base : bytes -> bool) (prev : option (bytes * Z)) (e : entry) : bool :=
  hidden_by smallest prev (ukey e.1) || ((ekind e =? 0) && (esequence e <=? smallest) && base (ukey e.1)).
Fixpoint kept (smallest : Z) (base : bytes -> bool) (prev : option (bytes * Z)) (es : list entry) : list entry :=
  match es with
  | [] => []
  | e :: es =>
      let rest := kept smallest base (Some (ukey e.1, esequence e)) es in
      if dropped smallest base prev e then rest else e :: rest
  end.

Lemma kept_sublist smallest base es : forall prev, kept smallest base prev es `sublist_of` es.
Proof. induction es as [|e es IH]; intros prev; [done|]. cbn. destruct (dropped _ _ _ _); by constructor. Qed.
Lemma kept_elem smallest base prev es e : e ∈ kept smallest base prev es -> e ∈ es.
Proof. intros He. eapply elem_of_submseteq; [exact He|]. apply sublist_submseteq, kept_sublist. Qed.

(** The first visible entry of a sorted list is the newest. *)
Definition first_visible (t : bytes) (es : list entry) : option entry :=
  List.find (fun e => bool_decide (ukey e.1 = ukey t) && (utag e.1 <=? utag t)) es.
Lemma visible_test t e : bool_decide (ukey e.1 = ukey t) && (utag e.1 <=? utag t) = true <-> visible_to t e.
Proof. unfold visible_to. by rewrite andb_true_iff, bool_decide_eq_true, Z.leb_le. Qed.

(** Tags of the two kinds. *)
Lemma tag_parts e : ekind e = 0 \/ ekind e = 1 -> utag e.1 = esequence e * 256 + ekind e.
Proof.
  intros _. unfold esequence, ekind. rewrite Z.shiftr_div_pow2 by lia. change 0xff with (Z.ones 8). rewrite Z.land_ones by lia.
  change (2 ^ 8) with 256. pose proof (Z.div_mod (utag e.1) 256 ltac:(lia)). lia.
Qed.

Section kept.
Context (ord : bytes -> bytes -> comparison) `{!TotalOrd ord} (Hanti : forall a b, ord a b = Eq -> a = b).
Abbreviation iord := (ik_ord ord) (only parsing).
Context (smallest : Z) (base : bytes -> bool).
(** A lookup key that a snapshot not below [smallest] makes. *)
Context (t : bytes) (seq : Z) (Ht : utag t = seq * 256 + 1) (Hseq : smallest <= seq).

Lemma first_visible_none es : first_visible t es = None <-> none_in t es.
Proof.
  unfold none_in, first_visible. split.
  - intros Hf e He Hv. pose proof (find_none _ _ Hf e ltac:(by apply list_elem_of_In)) as Hn. apply visible_test in Hv. congruence.
  - intros Hn. destruct (List.find _ es) as [e|] eqn:Ef; [|done]. apply find_some in Ef as [Hin Hv]. apply visible_test in Hv.
    by destruct (Hn e); [apply list_elem_of_In|].
Qed.
Lemma first_visible_newest es e : sorted_entries iord es -> first_visible t es = Some e -> newest_in t es e.
Proof using Type*.
  intros Hs Hf. pose proof (find_some _ _ Hf) as [Hin Hv]. apply visible_test in Hv. split_and!; [by apply list_elem_of_In|done|].
  clear Hin. intros e' He' Hv'. unfold first_visible in Hf. induction es as [|x es IH]; [done|]. cbn in Hf.
  destruct (_ && _) eqn:Ex.
  - injection Hf as ->. apply elem_of_cons in He' as [->|He']; [done|]. pose proof (sorted_head _ _ _ _ Hs He') as Hlt.
    apply (same_user_tag ord Hanti); [by rewrite (proj1 Hv), (proj1 Hv')|]. by rewrite Hlt.
  - apply elem_of_cons in He' as [->|He']; [apply visible_test in Hv'; congruence|]. apply IH; [by eapply sorted_tail|done..].
Qed.

(** Entries with the user key looked up come together. *)
Lemma key_passed e es : sorted_entries iord (e :: es) -> ord (ukey t) (ukey e.1) = Lt -> first_visible t es = None.
Proof using Type*.
  intros Hs Hlt. apply first_visible_none. intros x Hx [Hu _]. pose proof (sorted_head _ _ _ _ Hs Hx) as Hl.
  unfold ik_ord in Hl. rewrite Hu in Hl. apply ord_gt_lt in Hlt. rewrite Hlt in Hl. done.
Qed.
Lemma kept_none prev es : first_visible t es = None -> first_visible t (kept smallest base prev es) = None.
Proof. rewrite !first_visible_none. intros Hn e He%kept_elem. by apply Hn. Qed.

Lemma sequence_mono a b : utag a.1 <= utag b.1 -> esequence a <= esequence b.
Proof. unfold esequence. rewrite !Z.shiftr_div_pow2 by lia. intros. apply Z.div_le_mono; lia. Qed.
(** Behind a version no snapshot is below, nothing of the key stays. *)
Lemma kept_hidden es : forall p, sorted_entries iord (p :: es) -> ukey p.1 = ukey t -> esequence p <= smallest ->
  first_visible t (kept smallest base (Some (ukey p.1, esequence p)) es) = None.
Proof using Type*.
  induction es as [|e es IH]; intros p Hs Hp Hle; [done|]. cbn [kept].
  pose proof (sorted_tail _ _ _ Hs) as Hs'. pose proof (sorted_head _ _ _ e Hs ltac:(by left)) as Hpe.
  destruct (decide (ukey e.1 = ukey t)) as [Hk|Hk].
  - unfold dropped, hidden_by. rewrite bool_decide_eq_true_2 by congruence. rewrite (proj2 (Z.leb_le _ _)) by done. cbn [andb orb].
    apply IH; [done..|]. assert (esequence e <= esequence p); [|lia]. apply sequence_mono.
    apply (same_user_tag ord Hanti); [congruence|]. by rewrite Hpe.
  - assert (Hlt : ord (ukey t) (ukey e.1) = Lt).
    { unfold ik_ord in Hpe. rewrite Hp in Hpe. destruct (ord (ukey t) (ukey e.1)) eqn:Eo; [|done..]. apply Hanti in Eo. congruence. }
    pose proof (key_passed e es Hs' Hlt) as Hn. pose proof (kept_none (Some (ukey e.1, esequence e)) es Hn) as Hk2.
    destruct (dropped _ _ _ _); [done|]. unfold first_visible. cbn [List.find]. by rewrite bool_decide_eq_false_2.
Qed.

(** What a reader sees of the kept entries: what it saw before, unless that was a deletion
    with nothing underneath. *)
Definition gone (e : entry) : bool := (ekind e =? 0) && (esequence e <=? smallest) && base (ukey e.1).
Lemma kept_visible es : forall prev, sorted_entries iord es -> Forall entry_wf es -> hidden_by smallest prev (ukey t) = false ->
  first_visible t (kept smallest base prev es) =
    match first_visible t es with Some e => if gone e then None else Some e | None => None end.
Proof using Type*.
  induction es as [|e es IH]; intros prev Hs Hwf Hh; [done|]. cbn [kept].
  pose proof (sorted_tail _ _ _ Hs) as Hs'. apply Forall_cons in Hwf as [[_ Hkind] Hwf]. pose proof (tag_parts e Hkind) as Htag.
  assert (Hnext : ~ visible_to t e -> hidden_by smallest (Some (ukey e.1, esequence e)) (ukey t) = false).
  { intros Hv. unfold hidden_by. destruct (decide (ukey e.1 = ukey t)) as [Hk|Hk]; [|by rewrite bool_decide_eq_false_2].
    rewrite bool_decide_eq_true_2 by done. cbn [andb]. apply Z.leb_gt. assert (~ utag e.1 <= utag t) by (intros Hle; by apply Hv). lia. }
  unfold first_visible at 2. cbn [List.find]. fold (first_visible t es). destruct (bool_decide (ukey e.1 = ukey t) && (utag e.1 <=? utag t)) eqn:Ev.
  - pose proof Ev as Hv. apply visible_test in Hv as [Hk _]. unfold dropped. rewrite Hk, Hh. cbn [orb]. fold (gone e). rewrite <- Hk. fold (gone e).
    unfold gone at 1. destruct (gone e) eqn:Eg.
    + unfold gone in Eg. rewrite Eg. apply kept_hidden; [done|done|]. apply andb_true_iff in Eg as [[_ ?%Z.leb_le]%andb_true_iff _]. done.
    + unfold gone in Eg. rewrite Eg. unfold first_visible. cbn [List.find]. by rewrite Ev.
  - assert (Hnv : ~ visible_to t e) by (intros Hv%visible_test; congruence).
    rewrite <- (IH _ Hs' Hwf (Hnext Hnv)). destruct (dropped _ _ _ _); [done|]. unfold first_visible at 1. cbn [List.find]. by rewrite Ev.
Qed.

(** Reads over the whole database: [up] is searched before the compacted entries, [low]
    after them. *)
Lemma kept_answers up all low res : sorted_entries iord all -> Forall entry_wf all -> newer up all -> one_per_key (up ++ all ++ low) ->
  (base (ukey t) = true -> forall e, e ∈ low -> ukey e.1 <> ukey t) ->
  answers t (up ++ all ++ low) res -> exists res', answers t (up ++ kept smallest base None all ++ low) res' /\ told res' = told res.
Proof using Type*.
  intros Hs Hwf Hup H1 Hbase Ha. set (K := kept smallest base None all).
  assert (Hsub : forall e, e ∈ up ++ K ++ low -> e ∈ up ++ all ++ low).
  { intros e. rewrite !elem_of_app. intros [?|[?%kept_elem|?]]; tauto. }
  assert (Hstay : forall e, newest_in t (up ++ all ++ low) e -> e ∈ up ++ K ++ low -> newest_in t (up ++ K ++ low) e).
  { intros e (_ & Hv & Hm) Hin. split_and!; [done|done|]. intros e' He'%Hsub. by apply Hm. }
  pose proof (kept_visible all None Hs Hwf eq_refl) as Hfv. fold K in Hfv.
  assert (Hcase : forall e, newest_in t (up ++ all ++ low) e ->
    newest_in t (up ++ K ++ low) e \/ (ekind e = 0 /\ none_in t (up ++ K ++ low))).
  { intros e Hn. pose proof Hn as (Hin & Hv & Hm). destruct (decide (e ∈ up ++ K ++ low)) as [Hk|Hk]; [left; by apply Hstay|right].
    assert (Hall : e ∈ all) by (rewrite !elem_of_app in Hin, Hk; tauto).
    destruct (first_visible t all) as [x|] eqn:Ex; [|by apply first_visible_none in Ex; destruct (Ex e)].
    destruct (first_visible_newest all x Hs Ex) as (Hx & Hvx & Hmx).
    assert (x = e) as ->.
    { apply H1; [rewrite !elem_of_app; tauto|done|by rewrite (proj1 Hv), (proj1 Hvx)|].
      apply Z.le_antisymm; [apply Hm; [rewrite !elem_of_app; tauto|done]|by apply Hmx]. }
    destruct (gone e) eqn:Eg.
    2: { exfalso. apply Hk. apply find_some in Hfv as [HK _]. rewrite !elem_of_app. right. left. by apply list_elem_of_In. }
    apply first_visible_none in Hfv. unfold gone in Eg. apply andb_true_iff in Eg as [[?%Z.eqb_eq _]%andb_true_iff Hb]. split; [done|].
    intros y Hy Hvy. rewrite !elem_of_app in Hy. destruct Hy as [Hy|[Hy|Hy]].
    - apply Hk. assert (y = e) as <-; [|rewrite !elem_of_app; tauto].
      apply H1; [rewrite !elem_of_app; tauto|done|by rewrite (proj1 Hv), (proj1 Hvy)|].
      apply Z.le_antisymm; [apply Hm; [rewrite !elem_of_app; tauto|done]|]. apply Hup; [done..|]. by rewrite (proj1 Hv), (proj1 Hvy).
    - by apply (Hfv y).
    - rewrite (proj1 Hv) in Hb. by apply (Hbase Hb y Hy), Hvy. }
  destruct Ha as [e Hn Hkd|e Hn Hkd|Hn].
  - destruct (Hcase e Hn) as [Hn'|[Hz _]]; [|congruence]. exists (LookupFound e.2). split; [by eapply answers_found|done].
  - destruct (Hcase e Hn) as [Hn'|[_ Hno]]; [exists LookupDeleted; split; [by eapply answers_deleted|done]|].
    exists LookupNotFound. split; [by constructor|done].
  - exists LookupNotFound. split; [constructor; intros e He%Hsub; by apply Hn|done].
Qed.
End kept.

(** ** The merge loop writes chunks *)

Section merge.
Import DBImplCore.
Context {W C P Co K : Type} `{E : Env W} `{HC : Comparator C} `{HP : FilterPolicy P} `{HCo : Compressor Co} `{HK : Cache K Block}.
Abbreviation db := (DBImplCore.t W C P Co K) (only parsing).
Abbreviation M := (action (db * (W * K))) (only parsing).
Abbreviation builder := (TableFileBuilder.t W (InternalKeyComparator C) P Co) (only parsing).
Abbreviation merging := (Compact.merging (W:=W) (C:=C) (P:=P) (Co:=Co)) (only parsing).
Implicit Types (self : db) (st : merging).

(** One table file per chunk. *)
Definition write_chunk (n : Z) (chunk : list entry) : M FileMeta :=
  self ← Core.reads id;
  size ← Core.on_env (Compact.write_table (icmp self) (options self) (dbname self) n chunk);
  mret (FileMetaData.mk n size (Compact.entry_range chunk).1 (Compact.entry_range chunk).2).
Fixpoint write_chunks (chunks : list (list entry)) : M (list FileMeta) :=
  match chunks with
  | [] => mret []
  | chunk :: chunks => n ← Core.new_file_number; m ← write_chunk n chunk; ms ← write_chunks chunks; mret (m :: ms)
  end.

(** A builder on a new file, the entries added so far. *)
Definition started (icmp : InternalKeyComparator C) (options : Options P Co K) (dbname : string) (n : Z) (es : list entry) : action W builder :=
  b ← Compact.new_builder icmp options dbname n;
  '(_, b) ← Compact.on_builder (TableFileBuilder.add_all es) b;
  mret b.

Lemma write_table_started icmp options dbname n es w :
  Compact.write_table icmp options dbname n es w = (b ← started icmp options dbname n es; Compact.seal b) w.
Proof.
  unfold Compact.write_table, started, mbind, action_bind. destruct (Compact.new_builder _ _ _ _ _) as [[b|e|] w1]; [|done..].
  by destruct (Compact.on_builder _ b w1) as [[[[] b2]|e|] w2].
Qed.
Lemma add_all_snoc es e (b : builder) w : TableFileBuilder.add_all (es ++ [e]) (b, w) =
  (_ ← TableFileBuilder.add_all es; TableFileBuilder.add e.1 e.2) (b, w).
Proof.
  revert b w. induction es as [|[k v] es IH]; intros b w.
  - cbn [app TableFileBuilder.add_all]. destruct e as [k v]. cbn [fst snd]. unfold mbind, action_bind, mret, action_ret.
    by destruct (TableFileBuilder.add k v (b, w)) as [[[]|?|] [? ?]].
  - cbn [app TableFileBuilder.add_all]. unfold mbind, action_bind. destruct (TableFileBuilder.add k v (b, w)) as [[[]|?|] [b1 w1]]; [|done..].
    apply IH.
Qed.
Lemma started_snoc icmp options dbname n es e w b w' : started icmp options dbname n es w = (Ret b, w') ->
  started icmp options dbname n (es ++ [e]) w = ('(_, b) ← Compact.on_builder (TableFileBuilder.add e.1 e.2) b; mret b) w'.
Proof.
  unfold started, mbind, action_bind. destruct (Compact.new_builder _ _ _ _ _) as [[b0|?|] w0]; [|done..].
  unfold Compact.on_builder. rewrite add_all_snoc. unfold mbind, action_bind.
  destruct (TableFileBuilder.add_all es (b0, w0)) as [[[]|?|] [b1 w1]]; cbn; try done. by intros [= -> ->].
Qed.

Lemma action_assoc {S A B D} (m : action S A) (f : A -> action S B) (g : B -> action S D) s :
  ((m ≫= f) ≫= g) s = (m ≫= fun a => f a ≫= g) s.
Proof. unfold mbind, action_bind. by destruct (m s) as [[a|e|] s']. Qed.

Context (c : Compaction.t C) (smallest : Z) (base : bytes -> bool).
Context (Hbase : forall uk, Compaction.is_base_level_for_key c uk = Ret (base uk)) (Hsmall : smallest < 2 ^ 64 - 1).
Definition prev_of st : option (bytes * Z) := k ← Compact.last_user_key st; Some (k, Compact.last_sequence_for_key st).
Definition seen (e : entry) st : merging :=
  Compact.mk_merging (Compact.outputs st) (Compact.builder_ st) (Compact.current_file_number st) (Compact.current_smallest st)
    (Compact.current_largest st) (Some (ukey e.1)) (esequence e).

Lemma decode_tag_ok k : ik_ok k -> Compact.decode_tag k = Ret (utag k).
Proof.
  intros Hk. rewrite (ikey_eta k Hk) at 1. unfold Compact.decode_tag, mk_ikey, usub. rewrite len_app, len_le_split. change (Z.of_nat 8) with 8.
  rewrite (proj2 (Z.leb_le _ _)) by len_lia. cbn [mbind outcome_bind]. rewrite slice_from_app by lia. cbn [mbind outcome_bind].
  apply decode_fixed64_le. by apply utag_u64.
Qed.
Lemma merge_entry_ok e st (s : db * (W * K)) : ik_ok e.1 -> Compact.merge_entry c smallest e st s =
  (if dropped smallest base (prev_of st) e then mret (seen e st)
   else Compact.write_entry (Compaction.max_output_file_size c) e.1 e.2 (seen e st)) s.
Proof.
  intros He. unfold Compact.merge_entry. erewrite action_bind_ret by (unfold lift; rewrite strip_tag_ok by done; reflexivity).
  erewrite action_bind_ret by (unfold lift; rewrite decode_tag_ok by done; reflexivity).
  assert (Ed : Compact.drops c smallest (if bool_decide (Compact.last_user_key st = Some (ukey e.1)) then Compact.last_sequence_for_key st else 2 ^ 64 - 1)
    (ukey e.1) (Z.land (utag e.1) 0xff) (Z.shiftr (utag e.1) 8) = Ret (dropped smallest base (prev_of st) e)).
  { unfold Compact.drops, dropped, hidden_by, prev_of, ekind, esequence. rewrite Hbase. change (value_type_u8 Deletion) with 0.
    destruct (Compact.last_user_key st) as [k|]; cbn [mbind option_bind].
    - rewrite (bool_decide_ext (Some k = Some (ukey e.1)) (k = ukey e.1)) by naive_solver.
      destruct (bool_decide (k = ukey e.1)); cbn [andb orb].
      + destruct (_ <=? smallest); [done|]. cbn [orb]. by destruct (_ && _).
      + rewrite (proj2 (Z.leb_gt _ _)) by lia. cbn [orb]. by destruct (_ && _).
    - rewrite bool_decide_eq_false_2 by done. rewrite (proj2 (Z.leb_gt _ _)) by lia. cbn [orb]. by destruct (_ && _). }
  erewrite action_bind_ret by (unfold lift; rewrite Ed; reflexivity). by destruct (dropped _ _ _ _).
Qed.

(** *** The loop *)

Context (icmp0 : InternalKeyComparator C) (opts0 : Options P Co K) (name0 : string).
Definition conf self : Prop := icmp self = icmp0 /\ options self = opts0 /\ dbname self = name0.
Abbreviation start_on n es := (started icmp0 opts0 name0 n es) (only parsing).
(** The file system lets every part of the kept entries be written to a new file. *)
Context (wok : W -> Prop) (all_kept : list entry).
Context (Hstart : forall n es w, wok w -> es <> [] -> es `sublist_of` all_kept -> exists b w', start_on n es w = (Ret b, w')).
Context (Hseal : forall n es w b w' size w'', wok w -> es <> [] -> es `sublist_of` all_kept -> start_on n es w = (Ret b, w') -> Compact.seal b w' = (Ret size, w'') -> wok w'').

Lemma new_number_conf self io : conf self -> exists n self', Core.new_file_number (self, io) = (Ret n, (self', io)) /\ conf self'.
Proof. intros Hc. unfold Core.new_file_number. cbn. by eexists _, _. Qed.

(** The state of the loop while [pre] is in the open builder; its file was created at [w0]. *)
Record open_at st (w0 w : W) (b : builder) (pre : list entry) : Prop := {
  oa_builder : Compact.builder_ st = Some b;
  oa_started : start_on (Compact.current_file_number st) pre w0 = (Ret b, w);
  oa_wok : wok w0;
  oa_range : (Compact.current_smallest st, Compact.current_largest st) = Compact.entry_range pre;
}.
Definition closed_with st (m : FileMeta) : merging :=
  Compact.mk_merging (Compact.outputs st ++ [m]) None (Compact.current_file_number st) (Compact.current_smallest st)
    (Compact.current_largest st) (Compact.last_user_key st) (Compact.last_sequence_for_key st).

Lemma close_open st w0 w b pre self k : open_at st w0 w b pre -> conf self ->
  Compact.close_output st (self, (w, k)) =
  (m ← write_chunk (Compact.current_file_number st) pre; mret (closed_with st m)) (self, (w0, k)).
Proof.
  intros [Hb Hs _ Hr] (H1 & H2 & H3). unfold Compact.close_output. rewrite Hb. unfold write_chunk, Compact.finish_compaction_output.
  unfold mbind, action_bind, Core.reads, Core.on_env. cbn [fst snd id]. rewrite H1, H2, H3, write_table_started. unfold mbind, action_bind. rewrite Hs.
  destruct (Compact.seal b w) as [[size|e|] w'']; [|done..]. unfold closed_with. rewrite <- Hr. done.
Qed.

Lemma start_entry st self w k e : Compact.builder_ st = None -> conf self -> wok w -> [e] `sublist_of` all_kept ->
  exists n self' st' b w', Core.new_file_number (self, (w, k)) = (Ret n, (self', (w, k))) /\ conf self' /\ open_at st' w w' b [e] /\
    Compact.outputs st' = Compact.outputs st /\ prev_of st' = prev_of st /\ Compact.current_file_number st' = n /\
    Compact.write_entry (Compaction.max_output_file_size c) e.1 e.2 st (self, (w, k)) =
      (if Compaction.max_output_file_size c <=? TableFileBuilder.file_size b then Compact.close_output st' else mret st') (self', (w', k)).
Proof.
  intros Hn Hc Hw Hsub. destruct (new_number_conf self (w, k) Hc) as (n & self' & En & Hc').
  destruct (Hstart n [e] w Hw ltac:(done) Hsub) as (b & w' & Es). pose proof Es as Es0. pose proof Hc' as (H1 & H2 & H3).
  unfold started, mbind, action_bind in Es0. destruct (Compact.new_builder _ _ _ n w) as [[b0|?|] w1] eqn:Enb; [|done..].
  exists n, self', (Compact.mk_merging (Compact.outputs st) (Some b) n e.1 e.1 (Compact.last_user_key st) (Compact.last_sequence_for_key st)), b, w'.
  split_and!; try done.
  unfold Compact.write_entry, Compact.open_output. rewrite Hn, action_assoc. erewrite action_bind_ret by exact En. rewrite action_assoc.
  erewrite action_bind_ret by reflexivity. cbn [id fst]. rewrite H1, H2, H3, action_assoc.
  erewrite action_bind_ret by (unfold Core.on_env; cbn [fst snd]; rewrite Enb; reflexivity).
  erewrite action_bind_ret by reflexivity. cbn [Compact.builder_]. erewrite action_bind_ret by reflexivity.
  destruct e as [key v]. cbn [fst snd] in *. unfold Compact.on_builder in Es0. cbn [TableFileBuilder.add_all] in Es0. unfold mbind, action_bind in Es0.
  unfold Core.on_env at 1. unfold Compact.on_builder, mbind, action_bind. cbn [fst snd].
  destruct (TableFileBuilder.add key v (b0, w1)) as [[[]|?|] [b1 w2]]; cbn in Es0; [|done..]. injection Es0 as -> ->. reflexivity.
Qed.
Lemma extend_entry st self w0 w k b pre e : open_at st w0 w b pre -> conf self -> pre <> [] -> pre ++ [e] `sublist_of` all_kept ->
  exists st' b' w', open_at st' w0 w' b' (pre ++ [e]) /\
    Compact.outputs st' = Compact.outputs st /\ prev_of st' = prev_of st /\ Compact.current_file_number st' = Compact.current_file_number st /\
    Compact.write_entry (Compaction.max_output_file_size c) e.1 e.2 st (self, (w, k)) =
      (if Compaction.max_output_file_size c <=? TableFileBuilder.file_size b' then Compact.close_output st' else mret st') (self, (w', k)).
Proof.
  intros [Hb Hs Hw Hr] Hc Hne Hsub. set (n := Compact.current_file_number st) in *.
  destruct (Hstart n (pre ++ [e]) w0 Hw ltac:(by destruct pre) Hsub) as (b' & w' & Es). pose proof Es as Es0.
  rewrite (started_snoc _ _ _ _ _ _ _ _ _ Hs) in Es0.
  exists (Compact.mk_merging (Compact.outputs st) (Some b') n (Compact.current_smallest st) e.1 (Compact.last_user_key st) (Compact.last_sequence_for_key st)), b', w'.
  split_and!; try done.
  - split; try done. cbn. unfold Compact.entry_range in *. injection Hr as Hr1 _. rewrite last_snoc. cbn. f_equal. rewrite Hr1. by destruct pre.
  - unfold Compact.write_entry, Compact.open_output. rewrite Hb. erewrite action_bind_ret by reflexivity. rewrite Hb.
    erewrite action_bind_ret by reflexivity. unfold Compact.on_builder, mbind, action_bind in Es0.
    unfold Core.on_env at 1. unfold Compact.on_builder, mbind, action_bind. cbn [fst snd].
    destruct (TableFileBuilder.add e.1 e.2 (b, w)) as [[[]|?|] [b1 w2]]; cbn in Es0; [|done..]. injection Es0 as -> ->. reflexivity.
Qed.

Definition run_out (all : list entry) st : M (list FileMeta) :=
  st ← Compact.merge_loop c smallest all st; st ← Compact.close_output st; mret (Compact.outputs st).
Definition from_closed (all : list entry) : Prop := forall st self w k,
  Compact.builder_ st = None -> conf self -> wok w -> kept smallest base (prev_of st) all `sublist_of` all_kept ->
  exists chunks, concat chunks = kept smallest base (prev_of st) all /\ Forall (fun ch => ch <> []) chunks /\
    run_out all st (self, (w, k)) = (ms ← write_chunks chunks; mret (Compact.outputs st ++ ms)) (self, (w, k)).
Definition from_open (all : list entry) : Prop := forall st self w0 w k b pre,
  open_at st w0 w b pre -> conf self -> pre <> [] -> pre ++ kept smallest base (prev_of st) all `sublist_of` all_kept ->
  exists chunk chunks, chunk ++ concat chunks = pre ++ kept smallest base (prev_of st) all /\ chunk <> [] /\ Forall (fun ch => ch <> []) chunks /\
    run_out all st (self, (w, k)) =
      (m ← write_chunk (Compact.current_file_number st) chunk; ms ← write_chunks chunks; mret (Compact.outputs st ++ m :: ms)) (self, (w0, k)).

Lemma run_out_cons e all st (s : db * (W * K)) : ik_ok e.1 -> run_out (e :: all) st s =
  ((if dropped smallest base (prev_of st) e then mret (seen e st)
    else Compact.write_entry (Compaction.max_output_file_size c) e.1 e.2 (seen e st)) ≫= run_out all) s.
Proof.
  intros He. unfold run_out at 1. cbn [Compact.merge_loop]. rewrite action_assoc. unfold mbind at 1. unfold action_bind at 1.
  rewrite merge_entry_ok by done. done.
Qed.
Lemma prev_seen e st : prev_of (seen e st) = Some (ukey e.1, esequence e).
Proof. done. Qed.

(** Writing a chunk leaves the file system fit for the next. *)
Lemma write_chunk_conf n pre self w0 w k b m s : start_on n pre w0 = (Ret b, w) -> wok w0 -> pre <> [] -> pre `sublist_of` all_kept -> conf self ->
  write_chunk n pre (self, (w0, k)) = (Ret m, s) -> exists w', s = (self, (w', k)) /\ wok w'.
Proof using Hseal.
  intros Hs Hw Hne Hsub (H1 & H2 & H3). unfold write_chunk, mbind, action_bind, Core.reads, Core.on_env. cbn [fst snd id].
  rewrite H1, H2, H3, write_table_started. unfold mbind, action_bind. rewrite Hs.
  destruct (Compact.seal b w) as [[size|e|] w''] eqn:Es; [|done..]. intros [= _ <-]. exists w''. split; [done|]. by eapply Hseal.
Qed.

(** After an entry has been added: the file is closed, or stays open. *)
Lemma after_add all st self w0 w k b pre (close : bool) : from_closed all -> from_open all ->
  open_at st w0 w b pre -> conf self -> pre <> [] -> pre ++ kept smallest base (prev_of st) all `sublist_of` all_kept ->
  exists chunk chunks, chunk ++ concat chunks = pre ++ kept smallest base (prev_of st) all /\ chunk <> [] /\ Forall (fun ch => ch <> []) chunks /\
    ((if close then Compact.close_output st else mret st) ≫= run_out all) (self, (w, k)) =
      (m ← write_chunk (Compact.current_file_number st) chunk; ms ← write_chunks chunks; mret (Compact.outputs st ++ m :: ms)) (self, (w0, k)).
Proof using All.
  intros Hcl Hop Ho Hc Hne Hsub. destruct close.
  2: { destruct (Hop st self w0 w k b pre Ho Hc Hne Hsub) as (chunk & chunks & H1 & H2 & H3 & H4). exists chunk, chunks. split_and!; [done..|].
       erewrite action_bind_ret by reflexivity. exact H4. }
  unfold mbind at 1. unfold action_bind at 1. rewrite (close_open st w0 w b pre self k Ho Hc). fold (@mbind (action (db * (W * K))) _).
  set (n := Compact.current_file_number st).
  destruct (write_chunk n pre (self, (w0, k))) as [[m|e|] s1] eqn:Ew.
  - destruct (write_chunk_conf n pre self w0 w k b m s1) as (w' & -> & Hw'); [by apply Ho|by apply Ho|done| |done|done|].
    { etransitivity; [|exact Hsub]. by apply sublist_inserts_r. }
    assert (Hp : prev_of (closed_with st m) = prev_of st) by done.
    destruct (Hcl (closed_with st m) self w' k) as (chunks & H1 & H2 & H3); [done..| |].
    { rewrite Hp. etransitivity; [|exact Hsub]. by apply sublist_inserts_l. }
    exists pre, chunks. rewrite H1, Hp. split_and!; [done..|]. unfold mbind, action_bind. rewrite Ew. cbn.
    etransitivity; [exact H3|]. unfold mbind, action_bind. destruct (write_chunks chunks _) as [[ms|e|] s2]; [|done..]. cbn. by rewrite <- app_assoc.
  - exists pre, (match kept smallest base (prev_of st) all with [] => [] | l => [l] end). split_and!; [|done| |].
    + f_equal. destruct (kept _ _ _ all); [done|]. cbn. by rewrite app_nil_r.
    + destruct (kept _ _ _ all); [done|]. by repeat constructor.
    + unfold mbind, action_bind. by rewrite Ew.
  - exists pre, (match kept smallest base (prev_of st) all with [] => [] | l => [l] end). split_and!; [|done| |].
    + f_equal. destruct (kept _ _ _ all); [done|]. cbn. by rewrite app_nil_r.
    + destruct (kept _ _ _ all); [done|]. by repeat constructor.
    + unfold mbind, action_bind. by rewrite Ew.
Qed.

Lemma kept_cons e all prev : kept smallest base prev (e :: all) =
  (if dropped smallest base prev e then [] else [e]) ++ kept smallest base (Some (ukey e.1, esequence e)) all.
Proof. cbn. by destruct (dropped _ _ _ _). Qed.

Lemma merge_steps all : Forall (fun e : entry => ik_ok e.1) all -> from_closed all /\ from_open all.
Proof using All.
  induction all as [|e all IH]; intros Hok.
  - split.
    + intros st self w k Hn Hc Hw _. exists []. split_and!; [done|constructor|]. unfold run_out. cbn [Compact.merge_loop write_chunks].
      erewrite action_bind_ret by reflexivity. unfold Compact.close_output. rewrite Hn. erewrite action_bind_ret by reflexivity.
      erewrite action_bind_ret by reflexivity. by rewrite app_nil_r.
    + intros st self w0 w k b pre Ho Hc Hne _. exists pre, []. split_and!; [done|done|constructor|]. unfold run_out. cbn [Compact.merge_loop write_chunks].
      erewrite action_bind_ret by reflexivity. unfold mbind at 1. unfold action_bind at 1. rewrite (close_open st w0 w b pre self k Ho Hc).
      unfold mbind, action_bind. by destruct (write_chunk _ pre _) as [[m|e|] s1].
  - apply Forall_cons in Hok as [He Hok]. destruct (IH Hok) as [Hcl Hop]. split.
    + intros st self w k Hn Hc Hw Hsub. rewrite kept_cons in Hsub |- *. rewrite run_out_cons by done. destruct (dropped _ _ _ _) eqn:Ed.
      * destruct (Hcl (seen e st) self w k Hn Hc Hw Hsub) as (chunks & H1 & H2 & H3). exists chunks. split_and!; [done..|].
        erewrite action_bind_ret by reflexivity. exact H3.
      * destruct (start_entry (seen e st) self w k e Hn Hc Hw) as (n & self' & st' & b & w' & En & Hc' & Ho & Eo & Ep & Enum & Ew).
        { etransitivity; [|exact Hsub]. by apply sublist_inserts_r. }
        destruct (after_add all st' self' w w' k b [e] (Compaction.max_output_file_size c <=? TableFileBuilder.file_size b) Hcl Hop Ho Hc' ltac:(done))
          as (chunk & chunks & H1 & H2 & H3 & H4); [by rewrite Ep|].
        exists (chunk :: chunks). rewrite Ep, prev_seen in H1. split_and!; [exact H1|by constructor|].
        unfold mbind at 1. unfold action_bind at 1. rewrite Ew. unfold mbind at 1 in H4. unfold action_bind at 1 in H4. etransitivity; [exact H4|].
        symmetry. cbn [write_chunks]. rewrite action_assoc. erewrite action_bind_ret by exact En. rewrite action_assoc, Eo, Enum.
        unfold mbind, action_bind. destruct (write_chunk n chunk _) as [[m|?|] s1]; [|done..]. by destruct (write_chunks chunks s1) as [[ms|?|] s2].
    + intros st self w0 w k b pre Ho Hc Hne Hsub. rewrite kept_cons in Hsub |- *. rewrite run_out_cons by done. destruct (dropped _ _ _ _) eqn:Ed.
      * assert (Ho' : open_at (seen e st) w0 w b pre) by (destruct Ho; by split).
        destruct (Hop (seen e st) self w0 w k b pre Ho' Hc Hne Hsub) as (chunk & chunks & H1 & H2 & H3 & H4). exists chunk, chunks. split_and!; [done..|].
        erewrite action_bind_ret by reflexivity. exact H4.
      * assert (Ho' : open_at (seen e st) w0 w b pre) by (destruct Ho; by split).
        destruct (extend_entry (seen e st) self w0 w k b pre e Ho' Hc Hne) as (st' & b' & w' & Ho2 & Eo & Ep & Enum & Ew).
        { etransitivity; [|exact Hsub]. rewrite app_assoc. by apply sublist_inserts_r. }
        destruct (after_add all st' self w0 w' k b' (pre ++ [e]) (Compaction.max_output_file_size c <=? TableFileBuilder.file_size b') Hcl Hop Ho2 Hc)
          as (chunk & chunks & H1 & H2 & H3 & H4); [by destruct pre|by rewrite Ep, prev_seen, <- app_assoc|].
        exists chunk, chunks. rewrite Ep, prev_seen, <- app_assoc in H1. split_and!; [exact H1|done..|].
        unfold mbind at 1. unfold action_bind at 1. rewrite Ew. unfold mbind at 1 in H4. unfold action_bind at 1 in H4. etransitivity; [exact H4|].
        by rewrite Eo, Enum.
Qed.

Lemma merge_outputs_ok all self w k : Forall (fun e : entry => ik_ok e.1) all -> conf self -> wok w -> all_kept = kept smallest base None all ->
  exists chunks, concat chunks = kept smallest base None all /\ Forall (fun ch => ch <> []) chunks /\
    Compact.merge_outputs c smallest all (self, (w, k)) = write_chunks chunks (self, (w, k)).
Proof using All.
  intros Hok Hc Hw Hk. destruct (merge_steps all Hok) as [Hcl _].
  destruct (Hcl Compact.merging_start self w k eq_refl Hc Hw) as (chunks & H1 & H2 & H3); [by rewrite Hk|].
  exists chunks. split_and!; [done..|]. etransitivity; [exact H3|]. unfold mbind, action_bind. cbn [Compact.merging_start Compact.outputs app].
  by destruct (write_chunks chunks _) as [[ms|?|] s].
Qed.
End merge.
