(* ===== verification/TableFile.v ===== *)
(** * TableFile.v: table files written to disk.

    A table builder touches nothing but the file it writes.  So [write_table] on a new
    file number, in the in-memory environment, leaves a well-formed table of exactly the
    entries it was given and every other file as it was. *)
From S2P Require Import Prelude Status Comparator Format Filter FilterBlock Block Env LogFile Filename Cache TableBuilder TableFormat TableBuilderCorrect.
From S2P Require Import Table TableCorrect TableCacheCorrect Log VersionEdit Version VersionSet VersionSetCorrect DbState DbCore Compact CompactCorrect DbIterator.

Section frame.
Context {W C P Co : Type} `{E : Env W} `{HC : Comparator C} `{HP : FilterPolicy P} `{HCo : Compressor Co}.
Abbreviation builder := (TableFileBuilder.t W C P Co) (only parsing).
Context (R : W -> W -> Prop) `{!PreOrder R} (dest : Writable).
Context (Happend : forall d w, R w (w_append dest d w).2) (Hflush : forall w, R w (w_flush dest w).2) (Hsync : forall w, R w (Env.w_sync dest w).2).
Import TableFileBuilder.

(** A method that writes to the builder's file alone and keeps it. *)
Definition frames {A} (m : action (builder * W) A) : Prop := forall b w, file b = dest -> R w (m (b, w)).2.2 /\ file (m (b, w)).2.1 = dest.
Lemma frames_bind {A B} (m : action (builder * W) A) (f : A -> action (builder * W) B) : frames m -> (forall a, frames (f a)) -> frames (m ≫= f).
Proof using PreOrder0.
  intros Hm Hf b w Hb. destruct (Hm b w Hb) as [H1 H2]. unfold mbind, action_bind. destruct (m (b, w)) as [[a|e|] [b' w']]; [|done..].
  destruct (Hf a b' w' H2) as [H3 H4]. split; [by etransitivity|done].
Qed.
Lemma frames_ret {A} (a : A) : frames (mret a).
Proof using PreOrder0. intros b w Hb. by split. Qed.
Lemma frames_lift {A} (m : outcome A) : frames (lift m).
Proof using PreOrder0. intros b w Hb. by split. Qed.
Lemma frames_gets {A} (f : builder -> A) : frames (gets f).
Proof using PreOrder0. intros b w Hb. by split. Qed.
Lemma frames_modify (f : builder -> builder) : (forall b, file (f b) = file b) -> frames (modify f).
Proof using PreOrder0. intros Hf b w Hb. split; [done|]. cbn. by rewrite Hf. Qed.
(** The file is read off the builder, then used. *)
Lemma frames_get {A} (f : builder -> action (builder * W) A) : (forall b, file b = dest -> frames (f b)) -> frames (gets id ≫= f).
Proof using PreOrder0. intros Hf b w Hb. by apply (Hf b Hb b w). Qed.
Lemma frames_fs {A} (m : action W A) : (forall w, R w (m w).2) -> frames (on_fs m).
Proof using PreOrder0. intros Hm b w Hb. unfold on_fs. specialize (Hm w). cbn [snd fst]. destruct (m w) as [r w']. by split. Qed.

Lemma write_block_frames data : frames (write_block data).
Proof using All.
  intros b w Hb. unfold write_block, mbind, action_bind, gets, on_fs, modify. cbn [fst snd id].
  destruct (compress_block _ _) as [kind body]. cbn [fst snd]. rewrite Hb.
  set (d := BlockTrailer.encode _ body). pose proof (Happend d w) as Ha.
  destruct (w_append dest d w) as [[[]|e|] w']; cbn [fst snd]; by split.
Qed.
Lemma flush_frames : frames flush.
Proof using All.
  unfold flush. apply frames_bind; [apply frames_gets|]. intros b0. apply frames_bind; [apply frames_lift|]. intros _.
  destruct (BlockBuilder.empty _); [apply frames_ret|]. apply frames_bind; [apply frames_lift|]. intros _.
  destruct (BlockBuilder.finish _) as [data bs]. apply frames_bind; [by apply frames_modify|]. intros _.
  apply frames_bind; [apply write_block_frames|]. intros h.
  do 3 (apply frames_bind; [by apply frames_modify|]; intros _). apply frames_bind; [apply frames_gets|]. intros b1.
  destruct (filter_block b1); [|apply frames_ret]. apply frames_bind; [apply frames_lift|]. intros fb. by apply frames_modify.
Qed.
Lemma add_index_frames k : frames (add_index k).
Proof using PreOrder0.
  unfold add_index. apply frames_bind; [by apply frames_modify|]. intros _. apply frames_bind; [apply frames_gets|]. intros b.
  apply frames_bind; [apply frames_lift|]. intros i. apply frames_bind; [by apply frames_modify|]. intros _. by apply frames_modify.
Qed.
Lemma add_frames k v : frames (add k v).
Proof using All.
  unfold add. apply frames_bind; [apply frames_gets|]. intros b. apply frames_bind; [apply frames_lift|]. intros _.
  apply frames_bind; [apply frames_lift|]. intros o. apply frames_bind; [apply frames_lift|]. intros _.
  apply frames_bind.
  { destruct (pending_index_entry b); [|apply frames_ret]. apply frames_bind; [apply frames_lift|]. intros _.
    apply frames_bind; [apply frames_lift|]. intros s. apply add_index_frames. }
  intros _. do 3 (apply frames_bind; [by apply frames_modify|]; intros _). apply frames_bind; [apply frames_lift|]. intros d.
  apply frames_bind; [by apply frames_modify|]. intros _. destruct (_ <=? _); [apply flush_frames|apply frames_ret].
Qed.
Lemma add_all_frames es : frames (add_all es).
Proof using All.
  induction es as [|[k v] es IH]; cbn [add_all]; [apply frames_ret|]. apply frames_bind; [apply add_frames|done].
Qed.
Lemma finish_frames : frames finish.
Proof using All.
  unfold finish. apply frames_bind; [apply frames_gets|]. intros b. apply frames_bind; [apply frames_lift|]. intros _.
  apply frames_bind; [apply flush_frames|]. intros _. apply frames_bind; [apply frames_gets|]. intros b1.
  apply frames_bind.
  { destruct (filter_block b1); [|apply frames_ret]. apply frames_bind; [apply frames_lift|]. intros [fb bs].
    apply frames_bind; [by apply frames_modify|]. intros _. apply frames_bind; [apply write_block_frames|]. intros h. apply frames_ret. }
  intros fh. apply frames_bind; [apply frames_lift|]. intros meta.
  apply frames_bind; [destruct fh, (filter_policy_name b1); first [apply frames_lift|apply frames_ret]|]. intros meta'.
  apply frames_bind; [apply write_block_frames|]. intros mh. apply frames_bind; [apply frames_gets|]. intros b2.
  apply frames_bind.
  { destruct (pending_index_entry b2); [|apply frames_ret]. apply frames_bind; [apply frames_lift|]. intros s. apply add_index_frames. }
  intros _. apply frames_bind; [apply frames_gets|]. intros b3. destruct (BlockBuilder.finish _) as [ix ibs].
  apply frames_bind; [by apply frames_modify|]. intros _. apply frames_bind; [apply write_block_frames|]. intros ih.
  apply frames_get. intros b4 ->. apply frames_bind; [apply frames_fs, Happend|]. intros _.
  apply frames_bind; [by apply frames_modify|]. intros _. apply frames_bind; [apply frames_fs, Hflush|]. intros _. by apply frames_modify.
Qed.
Lemma sync_frames : frames sync.
Proof using All.
  unfold sync. apply frames_get. intros b ->. apply frames_bind; [apply frames_lift|]. intros _. apply frames_fs, Hsync.
Qed.
End frame.

(** *** The bytes depend on the entries alone

    Two runs of the builder on two files of two file systems do the same. *)
Section twice.
Context {C P Co : Type} `{HC : Comparator C} `{HP : FilterPolicy P} `{HCo : Compressor Co}.
Abbreviation builder := (TableFileBuilder.t MemEnv C P Co) (only parsing).
Context (h1 h2 : Mem.writable) (Ho1 : Mem.closed h1 = false) (Ho2 : Mem.closed h2 = false).
Import TableFileBuilder.

Definition alike (s1 s2 : builder * MemEnv) : Prop :=
  s2.1 = set_file (W:=MemEnv) (H:=MemEnv_Env) h2 s1.1 /\ file s1.1 = h1 /\ mem_contents h1 s1.2 = mem_contents h2 s2.2.
Definition agree {A} (m1 m2 : action (builder * MemEnv) A) : Prop := forall s1 s2, alike s1 s2 -> (m1 s1).1 = (m2 s2).1 /\ alike (m1 s1).2 (m2 s2).2.
Lemma agree_bind {A B} (m1 m2 : action (builder * MemEnv) A) (f1 f2 : A -> action (builder * MemEnv) B) :
  agree m1 m2 -> (forall a, agree (f1 a) (f2 a)) -> agree (m1 ≫= f1) (m2 ≫= f2).
Proof.
  intros Hm Hf s1 s2 Hs. destruct (Hm s1 s2 Hs) as [H1 H2]. unfold mbind, action_bind.
  destruct (m1 s1) as [r1 s1'], (m2 s2) as [r2 s2']. cbn in H1, H2. subst r2. destruct r1 as [a|e|]; [by apply Hf|by split..].
Qed.
Lemma agree_ret {A} (a : A) : agree (mret a) (mret a).
Proof. by split. Qed.
Lemma agree_lift {A} (m : outcome A) : agree (lift m) (lift m).
Proof. by split. Qed.
Lemma agree_get {A} (f : builder -> action (builder * MemEnv) A) :
  (forall b, file b = h1 -> agree (f b) (f (set_file (W:=MemEnv) (H:=MemEnv_Env) h2 b))) -> agree (gets id ≫= f) (gets id ≫= f).
Proof. intros Hf [b1 w1] [b2 w2] Hs. pose proof Hs as (E1 & E2 & _). cbn in E1, E2. subst b2. by apply (Hf b1 E2). Qed.
Lemma agree_modify (f : builder -> builder) : (forall b, f (set_file (W:=MemEnv) (H:=MemEnv_Env) h2 b) = set_file (W:=MemEnv) (H:=MemEnv_Env) h2 (f b) /\ file (f b) = file b) ->
  agree (modify f) (modify f).
Proof. intros Hf [b1 w1] [b2 w2] (E1 & E2 & E3). cbn in *. subst b2. split; [done|]. destruct (Hf b1) as [F1 F2]. split_and!; cbn; [done|by rewrite F2|done]. Qed.
Lemma agree_append d : agree (on_fs (Mem.append h1 d)) (on_fs (Mem.append h2 d)).
Proof using Ho1 Ho2.
  intros [b1 w1] [b2 w2] (E1 & E2 & E3). unfold on_fs, Mem.append, Mem.ensure_open. cbn [fst snd] in *. rewrite Ho1, Ho2. cbn [fst snd].
  split; [done|]. split_and!; [done|done|]. unfold mem_contents in *. cbn [fst snd]. rewrite !get_set_buf. by rewrite E3.
Qed.
Lemma agree_flush : agree (on_fs (Mem.flush h1)) (on_fs (Mem.flush h2)).
Proof using Ho1 Ho2.
  intros [b1 w1] [b2 w2] (E1 & E2 & E3). unfold on_fs, Mem.flush, Mem.ensure_open, lift. cbn [fst snd] in *. by rewrite Ho1, Ho2.
Qed.

Lemma write_block_agree data : agree (write_block (H:=MemEnv_Env) data) (write_block (H:=MemEnv_Env) data).
Proof using Ho1 Ho2.
  unfold write_block. apply agree_get. intros b Hb. cbn [compressor set_file offset file]. destruct (compress_block _ _) as [kind body]. rewrite Hb.
  apply agree_bind; [apply agree_append|]. intros _. apply agree_bind; [by apply agree_modify|]. intros _. apply agree_ret.
Qed.
Lemma flush_agree : agree (flush (H:=MemEnv_Env)) (flush (H:=MemEnv_Env)).
Proof using Ho1 Ho2.
  unfold flush. apply agree_get. intros b0 _. cbn [closed data_block pending_index_entry set_file]. apply agree_bind; [apply agree_lift|]. intros _.
  destruct (BlockBuilder.empty _); [apply agree_ret|]. apply agree_bind; [apply agree_lift|]. intros _.
  destruct (BlockBuilder.finish _) as [data bs]. apply agree_bind; [by apply agree_modify|]. intros _.
  apply agree_bind; [apply write_block_agree|]. intros h.
  do 3 (apply agree_bind; [by apply agree_modify|]; intros _). apply agree_get. intros b1 _. cbn [filter_block offset set_file].
  destruct (filter_block b1); [|apply agree_ret]. apply agree_bind; [apply agree_lift|]. intros fb. by apply agree_modify.
Qed.
Lemma add_index_agree k : agree (add_index (H:=MemEnv_Env) k) (add_index (H:=MemEnv_Env) k).
Proof.
  unfold add_index. apply agree_bind; [by apply agree_modify|]. intros _. apply agree_get. intros b _. cbn [index_block pending_handle set_file].
  apply agree_bind; [apply agree_lift|]. intros i. apply agree_bind; [by apply agree_modify|]. intros _. by apply agree_modify.
Qed.
Lemma add_agree k v : agree (add (H:=MemEnv_Env) k v) (add (H:=MemEnv_Env) k v).
Proof using Ho1 Ho2.
  unfold add. apply agree_get. intros b _. cbn [closed num_entries comparator last_key pending_index_entry data_block block_size set_file].
  apply agree_bind; [apply agree_lift|]. intros _.
  apply agree_bind; [apply agree_lift|]. intros o. apply agree_bind; [apply agree_lift|]. intros _.
  apply agree_bind.
  { destruct (pending_index_entry b); [|apply agree_ret]. apply agree_bind; [apply agree_lift|]. intros _.
    apply agree_bind; [apply agree_lift|]. intros s. apply add_index_agree. }
  intros _. do 3 (apply agree_bind; [by apply agree_modify|]; intros _). apply agree_bind; [apply agree_lift|]. intros d.
  apply agree_bind; [by apply agree_modify|]. intros _. destruct (_ <=? _); [apply flush_agree|apply agree_ret].
Qed.
Lemma add_all_agree es : agree (add_all (H:=MemEnv_Env) es) (add_all (H:=MemEnv_Env) es).
Proof using Ho1 Ho2.
  induction es as [|[k v] es IH]; cbn [add_all]; [apply agree_ret|]. apply agree_bind; [apply add_agree|done].
Qed.
Lemma finish_agree : agree (finish (H:=MemEnv_Env)) (finish (H:=MemEnv_Env)).
Proof using Ho1 Ho2.
  unfold finish. apply agree_get. intros b _. cbn [closed comparator set_file]. apply agree_bind; [apply agree_lift|]. intros _.
  apply agree_bind; [apply flush_agree|]. intros _. apply agree_get. intros b1 _. cbn [filter_block filter_policy_name comparator set_file].
  apply agree_bind.
  { destruct (filter_block b1); [|apply agree_ret]. apply agree_bind; [apply agree_lift|]. intros [fb bs].
    apply agree_bind; [by apply agree_modify|]. intros _. apply agree_bind; [apply write_block_agree|]. intros h. apply agree_ret. }
  intros fh. apply agree_bind; [apply agree_lift|]. intros meta.
  apply agree_bind; [destruct fh, (filter_policy_name b1); first [apply agree_lift|apply agree_ret]|]. intros meta'.
  apply agree_bind; [apply write_block_agree|]. intros mh. apply agree_get. intros b2 _. cbn [pending_index_entry comparator last_key set_file].
  apply agree_bind.
  { destruct (pending_index_entry b2); [|apply agree_ret]. apply agree_bind; [apply agree_lift|]. intros s. apply add_index_agree. }
  intros _. apply agree_get. intros b3 _. cbn [index_block set_file]. destruct (BlockBuilder.finish _) as [ix ibs].
  apply agree_bind; [by apply agree_modify|]. intros _. apply agree_bind; [apply write_block_agree|]. intros ih.
  apply agree_get. intros b4 ->. cbn [file set_file]. apply agree_bind; [apply agree_append|]. intros _.
  apply agree_bind; [by apply agree_modify|]. intros _. apply agree_bind; [apply agree_flush|]. intros _. by apply agree_modify.
Qed.
End twice.

(** ** In memory *)

Section memory.
Context {C P Co K : Type} `{HC : Comparator C} `{HP : FilterPolicy P} `{HCo : Compressor Co}.
Context (c : C) (ord : bytes -> bytes -> comparison) `{!ComparatorLaws c (fun _ => True) ord}.
Context (opts : Options P Co K) (dbname : string) (keys_ok : list bytes -> Prop).
Abbreviation icmp := (mk_icmp c) (only parsing).
Abbreviation iord := (ik_ord ord) (only parsing).
Abbreviation builds es := (build_ok ik_ok iord keys_ok (filter_policy opts) es) (only parsing).
Abbreviation builder := (TableFileBuilder.t MemEnv (InternalKeyComparator C) P Co) (only parsing).
Context `{!ShortHints (mk_icmp c)}.
Context (Hinterval : 1 <= block_restart_interval opts).
Abbreviation start_on n es := (started (E:=MemEnv_Env) icmp opts dbname n es) (only parsing).

Lemma new_builder_fresh n (w : MemEnv) : mem_wf w -> exists h w1, Mem.new_writable_file (ldb_path dbname n) w = (Ret h, w1) /\
  mem_wf w1 /\ Mem.closed h = false /\ files w1 !! ldb_path dbname n = Some (Mem.buf h) /\ Mem.get_buf w1 (Mem.buf h) = [] /\
  (forall q, q <> ldb_path dbname n -> keeps q w w1) /\
  Compact.new_builder (E:=MemEnv_Env) icmp opts dbname n w =
    (TableFileBuilder.with_options (W:=MemEnv) (H:=MemEnv_Env) icmp (block_size opts) (block_restart_interval opts) h (filter_policy opts) (compressor opts), w1).
Proof.
  intros Hw. destruct (new_writable_ok (ldb_path dbname n) w Hw) as (h & w1 & E1 & H1 & H2 & H3 & H4 & H5).
  exists h, w1. split_and!; try done. unfold Compact.new_builder. by erewrite action_bind_ret by exact E1.
Qed.

Lemma on_builder_ret {A} (m : action (builder * MemEnv) A) b w a b' w' : Compact.on_builder (E:=MemEnv_Env) m b w = (Ret (a, b'), w') <-> m (b, w) = (Ret a, (b', w')).
Proof.
  unfold Compact.on_builder. destruct (m (b, w)) as [[x|e|] [b1 w1]]; cbn; split; intros H1; try done; by injection H1 as -> -> ->.
Qed.

(** What a started table, and then a written one, is. *)
Lemma built n es (w : MemEnv) : builds es -> mem_wf w ->
  exists b1 w1 b ds w', start_on n es w = (Ret b1, w1) /\ TableFileBuilder.finish (b1, w1) = (Ret tt, (b, w')) /\
    mem_wf w' /\ Mem.closed (TableFileBuilder.file b) = false /\ TableFileBuilder.closed b = true /\ all_entries ds = es /\
    TableFileBuilder.file_size b = as_u64 (len (mem_contents (TableFileBuilder.file b) w')) /\
    view w' !! ldb_path dbname n = Some (mem_contents (TableFileBuilder.file b) w') /\
    (forall q, q <> ldb_path dbname n -> keeps q w w') /\
    (len (mem_contents (TableFileBuilder.file b) w') < 2 ^ 63 -> len (filter_bytes b) < 2 ^ 32 ->
     table_ok icmp ik_ok iord (compressor opts) (filter_policy opts) (mem_contents (TableFileBuilder.file b) w') ds).
Proof using Type*.
  intros Hb Hw. destruct (new_builder_fresh n w Hw) as (h & w0 & E0 & Hw0 & Ho & Hp & Hc & Hk & En).
  destruct (build_table_ok (W:=MemEnv) (H:=MemEnv_Env) (is_open:=mem_open) (contents:=mem_contents) icmp ik_ok iord keys_ok (filter_policy opts)
    (compressor opts) es (block_size opts) (block_restart_interval opts) h w0 Hb Hinterval Ho Hc) as (b & w' & ds & Eb & Hes & Hf & Hcl & Hsz & _ & Ht).
  unfold build_table in Eb. destruct (TableFileBuilder.with_options _ _ _ _ _ _) as [b0|?|] eqn:Ew; [|done..].
  destruct ((TableFileBuilder.add_all es ≫= fun _ => TableFileBuilder.finish) (b0, w0)) as [[[]|?|] [bx wx]] eqn:Es; [|done..]. injection Eb as -> ->.
  apply bind_ret_inv in Es as ([] & [b1 w1] & Ea & Ef).
  assert (Hb0 : TableFileBuilder.file b0 = h).
  { clear -Ew. unfold TableFileBuilder.with_options in Ew. destruct (assert _); [|done..]. cbn [mbind outcome_bind] in Ew.
    destruct (filter_policy opts) as [p|]; [destruct (FilterBlockBuilder.start_block _ _); [|done..]|];
      cbn [mbind outcome_bind] in Ew; destruct (BlockBuilder.new _ _); try done; cbn [mbind outcome_bind] in Ew;
      destruct (BlockBuilder.new _ _); try done; cbn [mbind outcome_bind] in Ew; by injection Ew as <-. }
  pose proof (only_buf_pre (Mem.buf h)) as Hpre.
  destruct (add_all_frames (E:=MemEnv_Env) (only_buf (Mem.buf h)) h (fun d w => append_only h d w) (fun w => flush_only h w) (fun w => flush_only h w) es b0 w0 Hb0) as [F1 F2].
  rewrite Ea in F1, F2. cbn [fst snd] in F1, F2.
  destruct (finish_frames (E:=MemEnv_Env) (only_buf (Mem.buf h)) h (fun d w => append_only h d w) (fun w => flush_only h w) (fun w => flush_only h w) b1 w1 F2) as [F3 F4].
  rewrite Ef in F3, F4. cbn [fst snd] in F3, F4. assert (F5 : only_buf (Mem.buf h) w0 w') by (by etransitivity).
  exists b1, w1, b, ds, w'. rewrite F4. split_and!; try done.
  - unfold started, mbind, action_bind. rewrite En. pose proof (proj2 (on_builder_ret _ _ _ _ _ _) Ea) as Eo. rewrite Eo. done.
  - by eapply only_buf_wf.
  - rewrite view_lookup. destruct F5 as (F5 & _). by rewrite F5, Hp.
  - intros q Hq. apply (keeps_trans q w w0); [by apply Hk|]. by eapply only_buf_keeps.
Qed.

(** *** The bytes of a table

    A run of the builder on a file of its own. *)
Definition blank_file : Mem.writable := Mem.mk_writable 0 false.
Definition blank_fs : MemEnv := mk_mem ∅ {[ 0%nat := [] ]} 1 ∅.
Definition image_run es := build_table (W:=MemEnv) (H:=MemEnv_Env) icmp (block_size opts) (block_restart_interval opts) blank_file
  (filter_policy opts) (compressor opts) es blank_fs.
Definition image es : bytes := mem_contents blank_file (image_run es).2.
(** The file and its filter fit the fields that hold their lengths. *)
Definition fits es : Prop := exists b, (image_run es).1 = Ret b /\ len (image es) < 2 ^ 63 /\ len (filter_bytes b) < 2 ^ 32.

Lemma with_options_file h1 h2 b : TableFileBuilder.with_options (W:=MemEnv) (H:=MemEnv_Env) icmp (block_size opts) (block_restart_interval opts) h1 (filter_policy opts) (compressor opts) = Ret b ->
  TableFileBuilder.file b = h1 /\ TableFileBuilder.with_options (W:=MemEnv) (H:=MemEnv_Env) icmp (block_size opts) (block_restart_interval opts) h2 (filter_policy opts) (compressor opts) =
    Ret (TableFileBuilder.set_file (W:=MemEnv) (H:=MemEnv_Env) h2 b).
Proof.
  unfold TableFileBuilder.with_options. destruct (assert _); [|done..]. cbn [mbind outcome_bind].
  destruct (filter_policy opts) as [p|]; [destruct (FilterBlockBuilder.start_block _ _); [|done..]|];
    cbn [mbind outcome_bind]; destruct (BlockBuilder.new _ _); try done; cbn [mbind outcome_bind];
    destruct (BlockBuilder.new _ _); try done; cbn [mbind outcome_bind]; by intros [= <-].
Qed.

(** A finished builder is synced and closed; neither changes the in-memory file. *)
Lemma seal_ok (b1 b : builder) (w1 w' : MemEnv) : TableFileBuilder.finish (b1, w1) = (Ret tt, (b, w')) ->
  Mem.closed (TableFileBuilder.file b) = false -> TableFileBuilder.closed b = true ->
  Compact.seal (E:=MemEnv_Env) b1 w1 = (Ret (TableFileBuilder.file_size b), w').
Proof.
  intros E2 Ho Hcl. unfold Compact.seal. erewrite action_bind_ret by (apply on_builder_ret; exact E2).
  cbn beta iota zeta. erewrite action_bind_ret.
  2: { apply on_builder_ret. unfold TableFileBuilder.sync, mbind, action_bind, TableFileBuilder.gets, lift. cbn [fst snd id]. rewrite Hcl.
       unfold TableFileBuilder.on_fs. cbn [fst snd Env.w_sync MemEnv_Env]. unfold Mem.sync, Mem.ensure_open, lift. rewrite Ho. reflexivity. }
  cbn beta iota. erewrite action_bind_ret; [done|].
  unfold TableFileBuilder.close. apply on_builder_ret. unfold mbind, action_bind, TableFileBuilder.gets. cbn. reflexivity.
Qed.

(** The finished file is the image. *)
Lemma image_is n es (w : MemEnv) b1 w1 b w' : mem_wf w -> start_on n es w = (Ret b1, w1) ->
  TableFileBuilder.finish (b1, w1) = (Ret tt, (b, w')) ->
  image es = mem_contents (TableFileBuilder.file b) w' /\ (fits es -> len (image es) < 2 ^ 63 /\ len (filter_bytes b) < 2 ^ 32).
Proof using Type*.
  intros Hw E1 E2. destruct (new_builder_fresh n w Hw) as (h & w0 & _ & _ & Hoh & _ & Hc0 & _ & En).
  unfold started, mbind, action_bind in E1. rewrite En in E1.
  destruct (TableFileBuilder.with_options _ _ _ _ _ _) as [b0|?|] eqn:Ew; [|done..].
  destruct (Compact.on_builder (TableFileBuilder.add_all es) b0 w0) as [[[[] bx]|?|] wx] eqn:Eo; [|done..]. injection E1 as -> ->.
  apply on_builder_ret in Eo. destruct (with_options_file h blank_file b0 Ew) as [Hf0 Ew'].
  assert (Ha : alike h blank_file (b0, w0) (TableFileBuilder.set_file (W:=MemEnv) (H:=MemEnv_Env) blank_file b0, blank_fs)) by by split_and!.
  destruct (add_all_agree h blank_file Hoh eq_refl es _ _ Ha) as [A1 A2]. rewrite Eo in A1, A2. cbn [fst snd] in A1, A2.
  destruct (finish_agree h blank_file Hoh eq_refl _ _ A2) as [A3 A4]. rewrite E2 in A3, A4. cbn [fst snd] in A3, A4.
  assert (Er : exists w2, image_run es = (Ret (TableFileBuilder.set_file (W:=MemEnv) (H:=MemEnv_Env) blank_file b), w2) /\
    mem_contents (TableFileBuilder.file b) w' = mem_contents blank_file w2).
  { unfold image_run, build_table. rewrite Ew'. unfold mbind, action_bind.
    destruct (TableFileBuilder.add_all es (TableFileBuilder.set_file (W:=MemEnv) (H:=MemEnv_Env) blank_file b0, blank_fs)) as [r s2]. cbn [fst snd] in *. subst r.
    destruct (TableFileBuilder.finish s2) as [r [b2 w2]]. cbn [fst snd] in *. subst r. destruct A4 as (B1 & B2 & B3). cbn [fst snd] in B1, B2, B3. subst b2.
    exists w2. by rewrite B2. }
  destruct Er as (w2 & Er & Him). unfold fits, image. rewrite Er. split; [done|]. cbn [fst snd]. intros (bi & [= <-] & Hl & Hfl). done.
Qed.

(** The file written is the image, whatever its number and the other files. *)
Lemma written n es (w : MemEnv) : builds es -> mem_wf w ->
  exists b1 w1 w' ds, start_on n es w = (Ret b1, w1) /\ Compact.seal (E:=MemEnv_Env) b1 w1 = (Ret (as_u64 (len (image es))), w') /\
    mem_wf w' /\ view w' !! ldb_path dbname n = Some (image es) /\ (forall q, q <> ldb_path dbname n -> keeps q w w') /\
    all_entries ds = es /\ (fits es -> table_ok icmp ik_ok iord (compressor opts) (filter_policy opts) (image es) ds).
Proof using Type*.
  intros Hb Hw. destruct (built n es w Hb Hw) as (b1 & w1 & b & ds & w' & E1 & E2 & Hw' & Ho & Hcl & Hes & Hsz & Hv & Hk & Ht).
  destruct (image_is n es w b1 w1 b w' Hw E1 E2) as [Him Hfit]. exists b1, w1, w', ds. split; [done|].
  split; [by rewrite (seal_ok b1 b w1 w' E2 Ho Hcl), Hsz, Him|]. split_and!; [done|by rewrite Him|done|done|].
  intros [Hl Hfl]%Hfit. rewrite Him in Hl |- *. by apply Ht.
Qed.
Lemma write_table_ok n es (w : MemEnv) : builds es -> mem_wf w ->
  exists w' ds, Compact.write_table (E:=MemEnv_Env) icmp opts dbname n es w = (Ret (as_u64 (len (image es))), w') /\
    mem_wf w' /\ view w' !! ldb_path dbname n = Some (image es) /\ (forall q, q <> ldb_path dbname n -> keeps q w w') /\
    all_entries ds = es /\ (fits es -> table_ok icmp ik_ok iord (compressor opts) (filter_policy opts) (image es) ds).
Proof using Type*.
  intros Hb Hw. destruct (written n es w Hb Hw) as (b1 & w1 & w' & ds & E1 & E2 & H). exists w', ds. split; [|exact H].
  rewrite write_table_started. by rewrite (action_bind_ret _ _ _ _ _ E1).
Qed.
End memory.
