(* ===== verification/CompactFiles.v ===== *)
(** * CompactFiles.v: the files a compaction leaves.

    In the in-memory environment the merge loop leaves one well-formed table per chunk of
    the kept entries, under consecutive new file numbers, and no other file is touched;
    and a reader at or above the smallest snapshot is told what it was told before. *)
From S2P Require Import Prelude Status Coding Comparator Format Filter Block Env Sort Cache Filename.
From S2P Require Import TableBuilder TableFormat TableBuilderCorrect Table TableCorrect Newest TableCacheCorrect VersionEdit Version VersionCorrect VersionSet VersionSetCorrect.
From S2P Require Import MemTable DbState DbCore DbCoreCorrect Compact CompactCorrect TableFile DbIterator.

(** ** The names of table files *)

Lemma ldb_path_inj dbname a b : is_u64 a -> is_u64 b -> ldb_path dbname a = ldb_path dbname b -> a = b.
Proof.
  intros Ha Hb E. apply (f_equal last) in E. unfold ldb_path, table_file_name, make_file_name in E.
  assert (Hl : forall n, is_u64 n -> last (path_new (dbname +:+ "/" +:+ show06 n +:+ "." +:+ "ldb")) = Some (show06 n +:+ ".ldb")).
  { intros n Hn. destruct (show06_head n Hn) as (x & s & Es & Hx).
    change (dbname +:+ "/" +:+ show06 n +:+ "." +:+ "ldb") with (dbname +:+ String (Ascii.Ascii true true true true false true false false) (show06 n +:+ ".ldb")).
    apply last_path_new; [by apply show06_suffix_chars|by rewrite Es|]. rewrite Es. intros [= -> _]. done. }
  rewrite !Hl in E by done. injection E as E.
  assert (Hp : forall n, is_u64 n -> parse_file_name ("/" +:+ show06 n +:+ ".ldb") = Some (n, TableFile)).
  { intros n Hn. apply (parse_numbered n "ldb" TableFile Hn eq_refl eq_refl ""). }
  pose proof (Hp a Ha) as H1. rewrite E, (Hp b Hb) in H1. by injection H1.
Qed.

(** ** The levels below the output *)

Section base.
Context {C : Type} `{HC : Comparator C} (c : C) (ord : bytes -> bytes -> comparison) `{!ComparatorLaws c (fun _ => True) ord}.
Context (contents : Z -> list entry).
Definition covers_key (uk : bytes) (f : FileMeta) : bool := is_ge (ord uk (lo f)) && is_le (ord uk (hi f)).
Definition deeper (v : Version.t C) (level : Z) : list (list FileMeta) := drop (Z.to_nat level + 2) (Version.files v).
Definition base_of (v : Version.t C) (level : Z) (uk : bytes) : bool :=
  negb (existsb (existsb (covers_key uk)) (deeper v level)).
(** What the levels below the output hold. *)
Definition deeper_entries (v : Version.t C) (level : Z) : list entry := concat (map (stored_in contents) (deeper v level)).

Lemma covered_by_ok uk fs : Forall file_ok fs -> Compaction.covered_by c uk fs = Ret (existsb (covers_key uk) fs).
Proof.
  induction 1 as [|f fs Hf _ IH]; [done|]. cbn [Compaction.covered_by existsb].
  pose proof (covers_ok c ord (mk_ikey uk 0) f Hf) as Hc. rewrite ukey_mk in Hc. rewrite Hc. cbn [mbind outcome_bind].
  fold (covers_key uk f). by destruct (covers_key uk f).
Qed.
Lemma base_loop_ok v uk rest : Version.comparator v = mk_icmp c -> Forall (Forall file_ok) rest -> forall k,
  rest = drop k (Version.files v) ->
  Compaction.base_loop v uk (seqZ (Z.of_nat k) (len rest)) = Ret (negb (existsb (existsb (covers_key uk)) rest)).
Proof.
  intros Hv. induction 1 as [|fs rest Hf Hr IH]; intros k Hk; [done|].
  assert (Hfs : Version.files v !! k = Some fs) by (rewrite <- (Nat.add_0_r k), <- lookup_drop, <- Hk; done).
  rewrite seqZ_cons by len_lia. cbn [Compaction.base_loop]. unfold Version.level_files.
  rewrite (index_lookup_ok _ _ fs) by (first [lia|by rewrite Nat2Z.id]). cbn [mbind outcome_bind]. rewrite Hv. cbn [user_comparator].
  rewrite covered_by_ok by done. cbn [mbind outcome_bind existsb]. destruct (existsb (covers_key uk) fs); [done|]. cbn [orb].
  replace (Z.succ (Z.of_nat k)) with (Z.of_nat (S k)) by lia. replace (Z.pred (len (fs :: rest))) with (len rest) by len_lia.
  apply IH. change rest with (drop 1 (fs :: rest)). rewrite Hk, drop_drop. f_equal. lia.
Qed.

Lemma is_base_ok (comp : Compaction.t C) uk : version_wf c ord contents (Compaction.input_version comp) -> 0 <= Compaction.level comp < NUM_LEVELS - 1 ->
  Compaction.is_base_level_for_key comp uk = Ret (base_of (Compaction.input_version comp) (Compaction.level comp) uk).
Proof.
  intros Hv Hl. set (v := Compaction.input_version comp) in *. set (l := Compaction.level comp) in *.
  unfold Compaction.is_base_level_for_key, base_of. fold v l. unfold Version.levels_from.
  pose proof (wf_levels _ _ _ _ Hv) as Hn. unfold NUM_LEVELS in *.
  assert (Hd : len (deeper v l) = 7 - (l + 2)) by (unfold deeper, len; rewrite length_drop; lia).
  rewrite <- Hd. replace (l + 2) with (Z.of_nat (Z.to_nat l + 2)) by lia. apply base_loop_ok; [apply Hv| |done].
  pose proof (wf_holds _ _ _ _ Hv) as Hh. rewrite Forall_forall in Hh |- *. intros fs Hfs. unfold deeper in Hfs.
  apply list_elem_of_lookup in Hfs as [i Hi]. rewrite lookup_drop in Hi. specialize (Hh fs (list_elem_of_lookup_2 _ _ _ Hi)).
  apply (Forall_impl _ _ _ Hh). intros f Hf. apply Hf.
Qed.

(** A key for which the output is the base level has no entry deeper. *)
Lemma base_none v level uk e : version_wf c ord contents v -> base_of v level uk = true -> e ∈ deeper_entries v level -> ukey e.1 <> uk.
Proof.
  intros Hv Hb He Hu. unfold base_of in Hb. apply negb_true_iff in Hb. unfold deeper_entries in He.
  apply list_elem_of_In, in_concat in He as (es & Hes & He). apply in_map_iff in Hes as (fs & <- & Hfs).
  apply list_elem_of_In, stored_in_elem in He as (f & Hf & He).
  assert (Hff : existsb (existsb (covers_key uk)) (deeper v level) = true); [|congruence].
  apply existsb_exists. exists fs. split; [done|]. apply existsb_exists. exists f. split; [by apply list_elem_of_In|].
  pose proof (wf_holds _ _ _ _ Hv) as Hh. rewrite Forall_forall in Hh.
  assert (Hin : fs ∈ Version.files v).
  { apply list_elem_of_In in Hfs. unfold deeper in Hfs. apply list_elem_of_lookup in Hfs as [i Hi]. rewrite lookup_drop in Hi. by eapply list_elem_of_lookup_2. }
  specialize (Hh fs Hin). rewrite Forall_forall in Hh. specialize (Hh f Hf).
  destruct (covers_key uk f) eqn:Ec; [done|]. exfalso.
  apply (not_covered c ord contents e.1 f Hh) with (e := e); [|done|done]. unfold may_hold. by rewrite Hu.
Qed.
End base.

(** ** The chunks on disk *)

Section disk.
Context {C P Co K : Type} `{HC : Comparator C} `{HP : FilterPolicy P} `{HCo : Compressor Co} `{HK : Cache K Block}.
Context (c : C) (ord : bytes -> bytes -> comparison) `{!ComparatorLaws c (fun _ => True) ord}.
Context (opts : Options P Co K) (dbname : string) (keys_ok : list bytes -> Prop).
Context `{!ShortHints (mk_icmp c)}.
Context (Hinterval : 1 <= block_restart_interval opts).
Abbreviation icmp := (mk_icmp c) (only parsing).
Abbreviation iord := (ik_ord ord) (only parsing).
Abbreviation builds es := (build_ok ik_ok iord keys_ok (filter_policy opts) es) (only parsing).
Abbreviation db := (DBImplCore.t MemEnv C P Co K) (only parsing).
Implicit Types self : db.

(** The table file that metadata describes holds exactly these entries. *)
Definition table_holds (w : MemEnv) (m : FileMeta) (es : list entry) : Prop :=
  view w !! ldb_path dbname (FileMetaData.number m) = Some (image c opts es) /\
  FileMetaData.file_size m = as_u64 (len (image c opts es)) /\
  (FileMetaData.smallest m, FileMetaData.largest m) = Compact.entry_range es /\
  (fits c opts es -> exists ds, all_entries ds = es /\ table_ok icmp ik_ok iord (compressor opts) (filter_policy opts) (image c opts es) ds).
(** The next file number is [n]; nothing else has changed. *)
Definition numbered (n : Z) self : db := DBImplCore.with_version_set (VersionSet.with_next n (DBImplCore.version_set self)) self.
Definition next_number self : Z := VersionSet.next_file_number (DBImplCore.version_set self).

Lemma sublist_elem {A} (a b : list A) x : a `sublist_of` b -> x ∈ a -> x ∈ b.
Proof. intros Hs Hx. eapply elem_of_submseteq; [exact Hx|]. by apply sublist_submseteq. Qed.
Lemma sorted_sublist a b : a `sublist_of` b -> sorted_entries iord b -> sorted_entries iord a.
Proof.
  induction 1 as [|e a b Hs IH|e a b Hs IH]; intros Hb; [done| |apply IH; by eapply sorted_tail].
  apply sorted_cons; [|apply IH; by eapply sorted_tail]. intros x Hx. eapply sorted_head; [exact Hb|]. by eapply sublist_elem.
Qed.
Lemma cost_sublist a b : a `sublist_of` b -> BlockCorrect.total_cost a <= BlockCorrect.total_cost b.
Proof.
  unfold BlockCorrect.total_cost. induction 1 as [|e a b Hs IH|e a b Hs IH]; [done|cbn [foldr]; lia|].
  cbn [foldr]. unfold BlockCorrect.entry_cost in *. pose proof (len_nonneg e.1). pose proof (len_nonneg e.2). lia.
Qed.
Lemma builds_sublist a b : a `sublist_of` b -> builds b -> builds a.
Proof.
  intros Hs [B1 B2 B3 B4 B5 B6]. split; [|by eapply sorted_sublist| |done| |done].
  - rewrite Forall_forall in B1 |- *. intros e He. by eapply B1, sublist_elem.
  - apply cost_sublist in Hs. lia.
  - intros ks Hk. apply B5. apply sublist_length in Hs. unfold len in *. lia.
Qed.

Lemma table_holds_kept w w' m es : table_holds w m es -> view w' !! ldb_path dbname (FileMetaData.number m) = view w !! ldb_path dbname (FileMetaData.number m) ->
  table_holds w' m es.
Proof. intros (H1 & H2) Hv. split; [by rewrite Hv|done]. Qed.

Lemma write_chunks_ok chunks : forall self (w : MemEnv) k, conf (E:=MemEnv_Env) icmp opts dbname self -> mem_wf w -> Forall (fun ch => builds ch) chunks ->
  0 <= next_number self -> next_number self + len chunks < 2 ^ 64 ->
  exists metas w', write_chunks (E:=MemEnv_Env) chunks (self, (w, k)) = (Ret metas, (numbered (next_number self + len chunks) self, (w', k))) /\ mem_wf w' /\
    map FileMetaData.number metas = seqZ (next_number self) (len chunks) /\ Forall2 (table_holds w') metas chunks /\
    (forall q, (forall n, next_number self <= n < next_number self + len chunks -> q <> ldb_path dbname n) -> keeps q w w').
Proof.
  induction chunks as [|ch chunks IH]; intros self w k Hc Hw Hb H0 H64.
  - exists [], w. split_and!; [|done..].
    cbn [write_chunks]. unfold numbered, next_number. rewrite Z.add_0_r. by destruct self as [? ? ? ? ? ? ? ? ? ? []].
  - apply Forall_cons in Hb as [Hb Hbs]. rewrite len_cons in *. pose proof (len_nonneg chunks). set (n := next_number self) in *. pose proof Hc as (C1 & C2 & C3).
    destruct (write_table_ok c ord opts dbname keys_ok Hinterval n ch w Hb Hw) as (w1 & ds & E1 & Hw1 & Hv1 & Hk1 & Hes & Ht).
    set (self1 := numbered (n + 1) self). set (m := FileMetaData.mk n (as_u64 (len (image c opts ch))) (Compact.entry_range ch).1 (Compact.entry_range ch).2).
    assert (En : Core.new_file_number (self, (w, k)) = (Ret n, (self1, (w, k)))).
    { unfold Core.new_file_number, VersionSet.new_file_number. cbn [fst snd]. fold (next_number self) n. unfold self1, numbered. by rewrite as_u64_id by (unfold is_u64; lia). }
    assert (Hc1 : conf (E:=MemEnv_Env) icmp opts dbname self1) by done. pose proof Hc1 as (D1 & D2 & D3).
    assert (Ew : write_chunk (E:=MemEnv_Env) n ch (self1, (w, k)) = (Ret m, (self1, (w1, k)))).
    { unfold write_chunk, mbind, action_bind, Core.reads, Core.on_env. cbn [fst snd id]. rewrite D1, D2, D3, E1. done. }
    assert (Hn1 : next_number self1 = n + 1) by done.
    destruct (IH self1 w1 k) as (metas & w' & E & Hw' & Hnum & Hh & Hk'); [done|done|done|rewrite Hn1; lia..|].
    rewrite Hn1 in *. exists (m :: metas), w'. split_and!; [|done| | |].
    + cbn [write_chunks]. rewrite (action_bind_ret _ _ _ _ _ En), (action_bind_ret _ _ _ _ _ Ew), (action_bind_ret _ _ _ _ _ E).
      replace (numbered (n + 1 + len chunks) self1) with (numbered (n + (1 + len chunks)) self); [done|].
      by replace (n + (1 + len chunks)) with (n + 1 + len chunks) by lia.
    + cbn [map]. rewrite Hnum. rewrite (seqZ_cons n) by lia. do 2 f_equal; lia.
    + constructor; [|done]. apply (table_holds_kept w1); [split_and!; try done; cbn; by eauto|]. apply keeps_view, Hk'.
      intros j Hj E'. apply ldb_path_inj in E'; [cbn in E'; lia|unfold is_u64; cbn; lia..].
    + intros q Hq. apply (keeps_trans q w w1); [apply Hk1, Hq; lia|]. apply Hk'. intros j Hj. apply Hq. lia.
Qed.

(** The merge loop, on the in-memory file system. *)
Lemma merge_outputs_disk (contents : Z -> list entry) (comp : Compaction.t C) smallest all self (w : MemEnv) k :
  version_wf c ord contents (Compaction.input_version comp) -> 0 <= Compaction.level comp < NUM_LEVELS - 1 -> smallest < 2 ^ 64 - 1 ->
  builds all -> conf (E:=MemEnv_Env) icmp opts dbname self -> mem_wf w -> 0 <= next_number self -> next_number self + len all < 2 ^ 64 ->
  let keep := kept smallest (base_of ord (Compaction.input_version comp) (Compaction.level comp)) None all in
  exists chunks metas w', concat chunks = keep /\ Forall (fun ch => ch <> []) chunks /\
    Compact.merge_outputs (E:=MemEnv_Env) comp smallest all (self, (w, k)) = (Ret metas, (numbered (next_number self + len chunks) self, (w', k))) /\ mem_wf w' /\
    map FileMetaData.number metas = seqZ (next_number self) (len chunks) /\ Forall2 (table_holds w') metas chunks /\
    (forall q, (forall n, next_number self <= n < next_number self + len chunks -> q <> ldb_path dbname n) -> keeps q w w').
Proof.
  intros Hv Hl Hs Hb Hc Hw H0 H64 keep. assert (Hsub : keep `sublist_of` all) by apply kept_sublist.
  destruct (merge_outputs_ok (E:=MemEnv_Env) comp smallest (base_of ord (Compaction.input_version comp) (Compaction.level comp))
    (fun uk => is_base_ok c ord contents comp uk Hv Hl) Hs icmp opts dbname mem_wf keep) with (all := all) (self := self) (w := w) (k := k)
    as (chunks & Hcat & Hne & E).
  - intros n es w0 Hw0 _ Hes. destruct (written c ord opts dbname keys_ok Hinterval n es w0) as (b1 & w1 & _ & _ & E1 & _).
    + apply (builds_sublist _ all); [by etransitivity|done].
    + done.
    + by exists b1, w1.
  - intros n es w0 b0 w1 size w2 Hw0 _ Hes E1 E2. destruct (written c ord opts dbname keys_ok Hinterval n es w0) as (b1 & w1' & w' & _ & E1' & E2' & Hw' & _).
    + apply (builds_sublist _ all); [by etransitivity|done].
    + done.
    + rewrite E1 in E1'. injection E1' as <- <-. rewrite E2 in E2'. by injection E2' as _ ->.
  - destruct Hb. done.
  - done.
  - done.
  - done.
  - fold keep in Hcat. assert (Hlen : len chunks <= len all).
    { apply sublist_length in Hsub. rewrite <- Hcat in Hsub. clear -Hsub Hne. unfold len. assert (length chunks <= length (concat chunks))%nat; [|lia].
      clear Hsub. induction Hne as [|ch chs Hch _ IH]; [done|]. cbn. rewrite length_app. destruct ch; [done|]. cbn. lia. }
    destruct (write_chunks_ok chunks self w k Hc Hw) as (metas & w' & Ew & Hw' & Hnum & Hh & Hk); [|done|lia|].
    { rewrite Forall_forall. intros ch Hch. apply (builds_sublist _ all); [|done]. etransitivity; [|exact Hsub]. rewrite <- Hcat.
      apply list_elem_of_split in Hch as (a & b & ->). rewrite concat_app. cbn. apply sublist_inserts_l. by apply sublist_inserts_r. }
    exists chunks, metas, w'. rewrite E. by split_and!.
Qed.
End disk.

(** ** Claims *)

(** C9: (compaction) The merge loop of a compaction, given the sorted entries of its inputs,
    succeeds in the in-memory environment and leaves one table file per chunk of the
    entries it keeps: the files have the consecutive numbers that follow the last one
    given out, hold exactly their chunk as a well-formed table, and are described by the
    metadata returned; every other file is as it was.  The entries left out do not
    matter: a read at a sequence number not below the smallest snapshot, over whatever lies
    above the inputs, the inputs, and the levels below the output, is told the same when
    the inputs are replaced by the chunks. *)
Theorem compaction_keeps_answers {C P Co K} `{HC : Comparator C} `{HP : FilterPolicy P} `{HCo : Compressor Co} `{HK : Cache K Block}
    (c : C) ord `{!ComparatorLaws c (fun _ => True) ord} `{!ShortHints (mk_icmp c)} (keys_ok : list bytes -> Prop) contents
    (comp : Compaction.t C) smallest all up (self : DBImplCore.t MemEnv C P Co K) (w : MemEnv) k :
  (forall a b, ord a b = Eq -> a = b) ->
  let opts := DBImplCore.options self in let name := DBImplCore.dbname self in
  let deep := deeper_entries contents (Compaction.input_version comp) (Compaction.level comp) in
  1 <= block_restart_interval opts -> DBImplCore.icmp self = mk_icmp c ->
  version_wf c ord contents (Compaction.input_version comp) -> 0 <= Compaction.level comp < NUM_LEVELS - 1 ->
  build_ok ik_ok (ik_ord ord) keys_ok (filter_policy opts) all -> Forall entry_wf all ->
  newer up all -> one_per_key (up ++ all ++ deep) ->
  mem_wf w -> 0 <= next_number self -> next_number self + len all < 2 ^ 64 -> 0 <= smallest < 2 ^ 64 - 1 ->
  exists chunks metas self' w',
    Compact.merge_outputs (E:=MemEnv_Env) comp smallest all (self, (w, k)) = (Ret metas, (self', (w', k))) /\ mem_wf w' /\
    map FileMetaData.number metas = seqZ (next_number self) (len chunks) /\ next_number self' = next_number self + len chunks /\
    Forall2 (table_holds c ord opts name w') metas chunks /\ concat chunks `sublist_of` all /\
    (forall q, (forall n, next_number self <= n < next_number self + len chunks -> q <> ldb_path name n) -> view w' !! q = view w !! q) /\
    forall uk seq res, smallest <= seq <= MAX_SEQUENCE_NUMBER ->
      answers (mk_ikey uk (mk_tag seq Value)) (up ++ all ++ deep) res ->
      exists res', answers (mk_ikey uk (mk_tag seq Value)) (up ++ concat chunks ++ deep) res' /\ told res' = told res.
Proof.
  intros Hanti opts name deep Hi Hicmp Hv Hl Hb Hwf Hup H1 Hw H0 H64 Hs.
  set (base := base_of ord (Compaction.input_version comp) (Compaction.level comp)).
  destruct (merge_outputs_disk c ord opts name keys_ok Hi contents comp smallest all self w k Hv Hl)
    as (chunks & metas & w' & Hcat & _ & E & Hw' & Hnum & Hh & Hk); try done; [lia|].
  exists chunks, metas, (numbered (next_number self + len chunks) self), w'. split_and!; try done.
  - rewrite Hcat. apply kept_sublist.
  - intros q Hq. by apply keeps_view, Hk.
  - intros uk seq res Hseq Ha. rewrite Hcat.
    assert (Htag : utag (mk_ikey uk (mk_tag seq Value)) = seq * 256 + 1).
    { rewrite utag_mk; [done|]. unfold mk_tag, is_u64, MAX_SEQUENCE_NUMBER in *. cbn. lia. }
    apply (kept_answers ord Hanti smallest base _ seq Htag); try done; [lia|apply Hb|].
    intros Hbase e He. rewrite ukey_mk in *. by eapply (base_none c ord contents).
Qed.

(** Three tables of two levels are merged; the oldest snapshot is at 8. *)
Definition one_per_keyb (es : list entry) : bool :=
  forallb (fun x => forallb (fun y => negb (bool_decide (ukey x.1 = ukey y.1) && (utag x.1 =? utag y.1)) || bool_decide (x = y)) es) es.
Lemma one_per_keyb_sound es : one_per_keyb es = true -> one_per_key es.
Proof.
  unfold one_per_keyb. rewrite forallb_forall. setoid_rewrite forallb_forall. intros Hb x y Hx Hy Hu Ht.
  specialize (Hb x (proj1 (list_elem_of_In _ _) Hx) y (proj1 (list_elem_of_In _ _) Hy)).
  rewrite bool_decide_eq_true_2, (proj2 (Z.eqb_eq _ _)) in Hb by done. by apply bool_decide_eq_true in Hb.
Qed.
Definition sample_compaction : Compaction.t BytewiseComparator :=
  Compaction.mk 0 100 [sample_meta 3; sample_meta 4] [sample_meta 2] [] sample_version (VersionEdit.mk None None None None None [] [] []).
Definition sample_inputs : list entry := isort (fun a b => ik_ord bytes_cmp a.1 b.1) (sample_contents 3 ++ sample_contents 4 ++ sample_contents 2).
Definition sample_up : list entry := [(mk_ikey (list_byte_of_string "c") (mk_tag 12 Value), list_byte_of_string "newest")].
Definition sample_compacting : DBImplCore.t MemEnv BytewiseComparator BloomFilterPolicy Reverser (ShardedLRUCache.t Block) :=
  sample_db (MemTable.new Bytewise) sample_version 12.
Lemma sample_inputs_ok : build_ok ik_ok (ik_ord bytes_cmp) sample_keys_ok (Some sample_policy) sample_inputs.
Proof.
  split.
  - apply (Forall_impl entry_wf); [apply sample_entries_wf; by vm_compute|]. by intros e [He _].
  - apply sortedb_sound; [apply _|]. by vm_compute.
  - by vm_compute.
  - apply sample_ok.
  - intros ks Hks. apply (bo_filter _ _ _ _ _ sample_ok). change (len sample_table) with 6. change (len sample_inputs) with 6 in Hks. done.
  - apply sample_ok.
Qed.

Lemma sample_c_deleted : answers (mk_ikey (list_byte_of_string "c") (mk_tag 8 Value))
  (sample_up ++ sample_inputs ++ deeper_entries sample_contents sample_version 0) LookupDeleted.
Proof.
  apply answers_skip.
  { intros e He. apply list_elem_of_singleton in He as ->. intros [_ Hv]. vm_compute in Hv. by apply Hv. }
  change (deeper_entries sample_contents sample_version 0) with (@nil entry). rewrite app_nil_r.
  destruct (lookup_answers bytes_cmp (fun x y => proj1 (bytes_cmp_eq x y)) sample_inputs (mk_ikey (list_byte_of_string "c") (mk_tag 8 Value)))
    as (res & Er & Ha); [apply sample_inputs_ok|apply sample_entries_wf; by vm_compute|].
  vm_compute in Er. injection Er as <-. exact Ha.
Qed.
Lemma compaction_keeps_answers_witness :
  exists chunks metas self' w',
    Compact.merge_outputs (E:=MemEnv_Env) sample_compaction 8 sample_inputs (sample_compacting, (Mem.new, ShardedLRUCache.new (V:=Block) 0))
      = (Ret metas, (self', (w', ShardedLRUCache.new (V:=Block) 0))) /\
    map FileMetaData.number metas = [10] /\
    exists res', answers (mk_ikey (list_byte_of_string "c") (mk_tag 8 Value)) (sample_up ++ concat chunks ++ []) res' /\ told res' = None.
Proof.
  destruct (compaction_keeps_answers Bytewise bytes_cmp sample_keys_ok sample_contents sample_compaction 8 sample_inputs sample_up
    sample_compacting Mem.new (ShardedLRUCache.new (V:=Block) 0)) as (chunks & metas & self' & w' & E & _ & Hnum & _ & _ & _ & _ & Ha).
  - intros x y. apply bytes_cmp_eq.
  - by vm_compute.
  - done.
  - exact sample_version_wf.
  - by vm_compute.
  - exact sample_inputs_ok.
  - apply sample_entries_wf. by vm_compute.
  - apply newerb_sound. by vm_compute.
  - apply one_per_keyb_sound. by vm_compute.
  - exact new_wf.
  - by vm_compute.
  - by vm_compute.
  - lia.
  - exists chunks, metas, self', w'. split; [exact E|]. split.
    { apply (f_equal (fun r => match r.1 with Ret ms => map FileMetaData.number ms | _ => [] end)) in E. cbn [fst] in E.
      rewrite <- E. vm_compute. reflexivity. }
    apply (Ha (list_byte_of_string "c") 8 LookupDeleted); [vm_compute; split; congruence|]. exact sample_c_deleted.
Defined.
