(* ===== verification/DbWrite.v ===== *)
(** * DbWrite.v: [DBImpl] ([db_impl/db_impl.rs]), the methods that take the mutex.

    A method is cut where it gives the mutex back: each section between two waits is one
    action.  [Threads] puts the sections of many calls and of the background thread next to
    each other.  Waking threads up is left out: a thread that waits looks again at its
    condition whenever it is scheduled. *)
From S2P Require Import Prelude Status Coding Comparator Format WriteBatch Filter Block Env Filename Sort Cache.
From S2P Require Import TableBuilder Table Log TableCache VersionEdit Version VersionSet MemTable SharedMem DbState DbCore Compact DbIterator.

Module Write.
Import DBImplCore Core.
Section ops.
Context {W C P Co K : Type} `{E : Env W} `{HC : Comparator C} `{HP : FilterPolicy P} `{HCo : Compressor Co} `{HK : Cache K Block}.
Context (arena : Z -> bytes).
Abbreviation db := (DBImplCore.t W C P Co K) (only parsing).
Abbreviation M := (action (db * (W * K))) (only parsing).
Implicit Types self : db.

(** ** [write_owned] *)

(** *** Joining the queue *)

Definition is_front (id : Z) self : bool := match head (writers self) with Some w => w_id w =? id | None => false end.
Definition set_back_result (slot : nat) (ws : list PendingWriter) : list PendingWriter :=
  match last ws with
  | Some w => take (length ws - 1) ws ++ [mk_writer (w_id w) (w_batch w) (w_sync w) (Some slot)]
  | None => ws
  end.
(** Only a writer that is not at the front gets a result slot. *)
Definition enqueue (sync : bool) (batch : WriteBatch) self : Z * option nat * db :=
  let id := next_writer_id self in
  let self := with_next_writer_id (as_u64 (id + 1)) self in
  let self := with_writers (writers self ++ [mk_writer id (Some batch) sync None]) self in
  if is_front id self then (id, None, self)
  else
    let slot := base.fresh (dom (results self)) in
    (id, Some slot, with_writers (set_back_result slot (writers self)) (with_results (<[slot := None]> (results self)) self)).

Inductive turn := Leads | Answered (r : outcome unit) | Sleeps.
Definition follow (id : Z) (slot : nat) self : turn :=
  if is_front id self then Leads else
  match results self !! slot with Some (Some r) => Answered r | _ => Sleeps end.

(** *** Making room *)

Inductive room := Refused (status : outcome unit) | Delays | Blocked | HasRoom.
Definition finish_group (count : Z) (status : outcome unit) : M unit :=
  self ← reads id; self ← lift (finish_writer_group count status self); modify (fun _ => self).
(** Every queued writer is told the error. *)
Definition refuse (e : Status) : M room :=
  n ← reads (fun self => len (writers self)); finish_group n (Fail e);; mret (Refused (Fail e)).
(** [match m { Err(e) => h(e), Ok(a) => f(a) }]. *)
Definition handle {S A B} (m : action S A) (f : A -> action S B) (h : Status -> action S B) : action S B := fun s =>
  match m s with (Ret a, s) => f a s | (Fail e, s) => h e s | (Panic, s) => (Panic, s) end.
(** One round of the loop; after [Delays] the next round does not delay again. *)
Definition make_room (allow_delay : bool) : M room :=
  self ← reads id;
  match bg_error self with
  | Some e => refuse e
  | None =>
      slow ← (if allow_delay then n ← lift (Version.num_files (current self) 0); mret (L0_SLOWDOWN_WRITES_TRIGGER <=? n) else mret false);
      if slow : bool then mret Delays
      else if mem_memory_usage self <=? write_buffer_size (options self) then mret HasRoom
      else if is_some (imm self) then mret Blocked
      else
        n ← lift (Version.num_files (current self) 0);
        if L0_STOP_WRITES_TRIGGER <=? n then mret Blocked
        else handle Compact.rotate (fun _ => mret HasRoom) refuse
  end.

(** *** Writing the group *)

Record write_job := mk_job {
  jb_updates : WriteBatch;
  jb_writer_count : Z;
  jb_sync : bool;
  jb_count : Z;
  jb_sequence : Z;
  jb_sequence_end : Z;
  jb_log_writer : LogWriter.t;
  jb_log_file : Writable;
  jb_mem : nat;
}.
(** The last section before the mutex is given back: the log is taken out. *)
Definition take_group : M write_job :=
  self ← reads id;
  '(updates, writer_count, sync, self) ← lift (build_batch_group self);
  let last_sequence := last_sequence self in
  count ← lift (Batch.count updates);
  log_writer ← lift (expect (log_writer self));
  log_file ← lift (expect (log_file self));
  modify (fun _ => with_log_file None (with_log_writer None self));;
  mret (mk_job updates writer_count sync count (as_u64 (last_sequence + 1)) (as_u64 (last_sequence + count)) log_writer log_file (mem self)).

(** Without the mutex: the log record, its sync, and the entries. *)
Record appended := mk_appended { ap_log_writer : LogWriter.t; ap_status : outcome unit; ap_sync_error : bool }.
Definition append_log (job : write_job) : M appended := fun s =>
  match slice_from (jb_updates job) 8 with
  | Ret rest =>
      let '(r, (lw, w)) := LogWriter.add_record_pair_to (jb_log_file job) (to_le_bytes 8 (jb_sequence job)) rest (jb_log_writer job, s.2.1) in
      let s := (s.1, (w, s.2.2)) in
      match r with
      | Panic => (Panic, s)
      | Ret _ =>
          if jb_sync job then
            let '(r, w) := Env.w_sync (jb_log_file job) w in
            let s := (s.1, (w, s.2.2)) in
            match r with
            | Panic => (Panic, s)
            | r => (Ret (mk_appended lw r (match r with Ret _ => false | _ => true end)), s)
            end
          else (Ret (mk_appended lw (Ret tt) false), s)
      | Fail e => (Ret (mk_appended lw (Fail e) false), s)
      end
  | _ => (Panic, s)
  end.
Definition insert_group (job : write_job) (status : outcome unit) : M (outcome unit * Z) :=
  match status with
  | Ret _ =>
      heap ← reads heap;
      '(i, heap, status) ← lift (insert_batch arena (jb_updates job) (mk_inserter (jb_sequence job) (jb_mem job) 0) heap);
      modify (with_heap heap);;
      mret (status, bytes_added i)
  | _ => mret (status, 0)
  end.
(** With the mutex again. *)
Definition commit (job : write_job) (ap : appended) (status : outcome unit) (added : Z) : M unit :=
  modify (fun self => with_memory_usage (mem_memory_usage self + added) self);;
  modify (fun self => with_log_file (Some (jb_log_file job)) (with_log_writer (Some (ap_log_writer ap)) self));;
  (match status with
   | Fail e => if ap_sync_error ap then modify (with_bg_error (Some e)) else mret tt
   | Panic => mret tt
   | Ret _ => modify (fun self => with_version_set (VersionSet.set_last_sequence (jb_sequence_end job) (version_set self)) self)
   end);;
  finish_group (jb_writer_count job) status.

(** The whole group, while nobody else runs. *)
Definition write_group : M (outcome unit) :=
  job ← take_group;
  ap ← append_log job;
  '(status, added) ← insert_group job (ap_status ap);
  commit job ap status added;;
  mret status.
(** [write_owned] by a thread that is alone; [None] when it must wait for the background
    thread. *)
Fixpoint write_alone (delays : nat) (allow_delay : bool) : M (option (outcome unit)) :=
  r ← make_room allow_delay;
  match r with
  | Refused status => mret (Some status)
  | Blocked => mret None
  | HasRoom => status ← write_group; mret (Some status)
  | Delays => match delays with O => mret None | S n => write_alone n false end
  end.
Definition write_owned (sync : bool) (batch : WriteBatch) : M (option (outcome unit)) :=
  self ← reads id;
  let '(_, slot, self) := enqueue sync batch self in
  modify (fun _ => self);;
  match slot with Some _ => mret None | None => write_alone 1 true end.

(** *** The callers of [write_owned]

    [batch] is the pooled buffer, cleared by [pool_take]. *)
Definition write_batch_of (batch contents : WriteBatch) : outcome WriteBatch := Batch.set_contents batch (Batch.contents contents).
Definition write_with_options (o : WriteOptions) (batch contents : WriteBatch) : M (option (outcome unit)) :=
  batch ← lift (write_batch_of batch contents); write_owned (DbState.sync o) batch.
Definition put_with_options (o : WriteOptions) (batch : WriteBatch) (key value : bytes) : M (option (outcome unit)) :=
  batch ← lift (Batch.put batch key value); write_owned (DbState.sync o) batch.
Definition delete_with_options (o : WriteOptions) (batch : WriteBatch) (key : bytes) : M (option (outcome unit)) :=
  batch ← lift (Batch.delete batch key); write_owned (DbState.sync o) batch.

(** ** Reading through the mutex *)

Definition schedule : M unit := modify (with_scheduled true).
Definition get_with_options (ro : ReadOptions) (key : bytes) : M (option bytes) := fun s =>
  match bg_error s.1 with
  | Some e => (Fail e, s)
  | None =>
      let '(r, s) := Core.get_with_options ro key s in
      (r, if has_pending_seek_compaction s.1 then (with_scheduled true s.1, s.2) else s)
  end.
Definition record_read_sample (internal_key : bytes) : M unit :=
  b ← Core.record_read_sample internal_key; if b : bool then schedule else mret tt.

(** ** [force_flush]

    Where it waits; each section runs on until the next wait or the end. *)
Inductive flush_at := AtWriters | AtImm | AtDrain.
Definition wait_at (at_ : flush_at) : M (flush_at + outcome unit) :=
  self ← reads id; mret (match bg_error self with Some e => inr (Fail e) | None => inl at_ end).
Definition flush_drain : M (flush_at + outcome unit) :=
  self ← reads id; if is_some (imm self) then wait_at AtDrain else mret (inr (Ret tt)).
Definition flush_imm : M (flush_at + outcome unit) :=
  self ← reads id;
  if is_some (imm self) then wait_at AtImm
  else handle Compact.rotate (fun _ => flush_drain) (fun e => mret (inr (Fail e))).
Definition flush_writers : M (flush_at + outcome unit) :=
  self ← reads id;
  if negb (bool_decide (writers self = [])) then wait_at AtWriters
  else if (mem_memory_usage self =? 0) && negb (is_some (imm self)) then mret (inr (Ret tt))
  else flush_imm.
Definition force_flush (at_ : flush_at) : M (flush_at + outcome unit) :=
  match at_ with AtWriters => flush_writers | AtImm => flush_imm | AtDrain => flush_drain end.

(** ** Waiting for the background thread *)

Definition busy self : bool := bg_work_scheduled self || bg_work_running self || is_some (imm self).
Definition busy_or_manual self : bool := busy self || manual_compaction_running self.
(** [maybe_compact] after it has scheduled work: [None] while it waits. *)
Definition drained self : option (outcome unit) :=
  if busy self then match bg_error self with Some e => Some (Fail e) | None => None end else Some (Ret tt).

(** One turn of the background thread, run through: nothing happens when it parks, and it is
    still running when [rounds] compactions were not enough. *)
Definition cycle (rounds fuel : nat) (micros : Z) : M unit := fun s =>
  match Compact.bg_step rounds fuel micros s with
  | (Panic, s) => (Panic, s)
  | (Ret false, s) => (Ret tt, s)
  | (r, s) => (Ret tt, (Compact.bg_done r s.1, s.2))
  end.
Definition background (rounds fuel : nat) (micros : Z) : M unit := fun s =>
  if Compact.bg_parks s.1 then (Ret tt, s) else
  match Compact.bg_wake s.1 with
  | (Some true, self) => cycle rounds fuel micros (self, s.2)
  | (_, self) => (Ret tt, (self, s.2))
  end.

(** *** The same calls by a thread that is alone

    The background thread takes its turn whenever the caller waits; [None] when [turns]
    were not enough. *)
Section alone.
Context (rounds fuel : nat) (micros : Z).
Abbreviation turn_of_bg := (background rounds fuel micros) (only parsing).
Fixpoint flush_alone (turns : nat) (at_ : flush_at) : M (option (outcome unit)) :=
  r ← force_flush at_;
  match r with
  | inr status => mret (Some status)
  | inl at_ => match turns with O => mret None | S turns => turn_of_bg;; flush_alone turns at_ end
  end.
Fixpoint settle (turns : nat) : M (option (outcome unit)) :=
  self ← reads id;
  if busy_or_manual self then
    match bg_error self with
    | Some e => mret (Some (Fail e))
    | None => match turns with O => mret None | S turns => turn_of_bg;; settle turns end
    end
  else mret (Some (Ret tt)).
Definition maybe_compact : M (option (outcome unit)) :=
  schedule;; turn_of_bg;; self ← reads id; mret (drained self).

(** *** [compact_range] *)

Definition overlapping_level (begin end_ : option bytes) (level : Z) (max_level : Z) : M Z :=
  self ← reads id;
  o ← lift (Version.overlap_in_level (current self) level begin end_);
  mret (if o : bool then level else max_level).
Fixpoint max_level_loop (begin end_ : option bytes) (levels : list Z) (max_level : Z) : M Z :=
  match levels with
  | [] => mret max_level
  | level :: levels => max_level ← overlapping_level begin end_ level max_level; max_level_loop begin end_ levels max_level
  end.
Definition max_level_of (begin end_ : option bytes) : M Z := max_level_loop begin end_ (seqZ 1 (NUM_LEVELS - 1)) 0.

(** Manual compactions of one level until nothing there meets the range.  [do_compaction_work]
    runs between taking the slot and giving it back. *)
Definition with_slot {A} (m : M A) : M A := fun s =>
  let '(r, s) := m (with_manual true s.1, s.2) in (r, (with_manual false s.1, s.2)).
Fixpoint compact_level (n : nat) (level : Z) (begin end_ : option bytes) : M (option (outcome unit)) :=
  idle ← settle n;
  match idle with
  | Some (Ret _) =>
      c ← Compact.pick_manual_compaction level begin end_;
      match c with
      | None => mret (Some (Ret tt))
      | Some c =>
          match n with
          | O => mret None
          | S n =>
              handle (with_slot (Compact.do_compaction_work fuel c micros))
                (fun _ => compact_level n level begin end_) (fun e => mret (Some (Fail e)))
          end
      end
  | r => mret r
  end.
Fixpoint compact_levels (n : nat) (levels : list Z) (begin end_ : option bytes) : M (option (outcome unit)) :=
  match levels with
  | [] => mret (Some (Ret tt))
  | level :: levels =>
      r ← compact_level n level begin end_;
      match r with Some (Ret _) => compact_levels n levels begin end_ | r => mret r end
  end.
(** [for level in 0..=max_level], leaving the last level alone. *)
Definition levels_to (max_level : Z) : list Z := seqZ 0 (Z.min (max_level + 1) (NUM_LEVELS - 1)).
Definition compact_range (n : nat) (begin end_ : option bytes) : M (option (outcome unit)) :=
  r ← flush_alone n AtWriters;
  match r with
  | Some (Ret _) =>
      max_level ← max_level_of begin end_;
      compact_levels n (levels_to max_level) begin end_
  | r => mret r
  end.

(** *** The hooks the tests use *)

Definition test_compact_memtable (turns : nat) : M (option (outcome unit)) := flush_alone turns AtWriters.
Definition test_compact_range (n : nat) (level : Z) (begin end_ : option bytes) : M (option (outcome unit)) :=
  if NUM_LEVELS <=? level + 1 then mret (Some (Ret tt)) else
  r ← flush_alone n AtWriters;
  match r with Some (Ret _) => compact_level n level begin end_ | r => mret r end.
End alone.
Definition test_num_level_files (level : Z) self : outcome Z :=
  if NUM_LEVELS <=? level then Ret 0 else Version.num_files (current self) level.
Definition test_pending_writer_count self : Z := len (writers self).
Fixpoint max_overlap (v : Version.t C) (level : Z) (fs : list FileMeta) (result : Z) : outcome Z :=
  match fs with
  | [] => Ret result
  | f :: fs =>
      smallest_uk ← strip_tag (FileMetaData.smallest f);
      largest_uk ← strip_tag (FileMetaData.largest f);
      overlaps ← Version.get_overlapping_inputs v (level + 1) (Some smallest_uk) (Some largest_uk);
      max_overlap v level fs (Z.max result (total_file_size overlaps))
  end.
Fixpoint max_overlaps (v : Version.t C) (levels : list Z) (result : Z) : outcome Z :=
  match levels with
  | [] => Ret result
  | level :: levels => fs ← Version.level_files v level; result ← max_overlap v level fs result; max_overlaps v levels result
  end.
Definition test_max_next_level_overlapping_bytes self : outcome Z := max_overlaps (current self) (seqZ 1 (NUM_LEVELS - 2)) 0.

(** [impl Drop for DBImpl]: the thread is told to stop, and joined. *)
Definition drop_db self : db := with_shutting_down true self.
End ops.
End Write.
