(* ===== verification/DbWriteCorrect.v ===== *)
(** * DbWriteCorrect.v: what a write group does.

    A group's batch is one log record and one run of sequence numbers after the last one
    published; its entries join the memtable, where no reader at or below the last
    published number can see them before the number is published. *)
From S2P Require Import Prelude Status Coding Comparator Format WriteBatch Filter Block Env Filename Sort Cache.
From S2P Require Import CacheCorrect TableBuilder TableFormat TableBuilderCorrect Table TableCorrect Newest Log LogCorrect LogFile TableCache TableCacheCorrect VersionEdit Version VersionCorrect VersionSet SkipList SkipListCorrect.
From S2P Require Import MemTable MemTableCorrect SharedMem DbState DbCore DbCoreCorrect Compact CompactCorrect DbWrite DbIterator.

(** ** The entries of a batch *)

Definition op_record (seq : Z) (op : WriteBatchRecord) : ParsedInternalKey * bytes :=
  match op with Put k v => (mk_parsed k seq Value, v) | Delete k => (mk_parsed k seq Deletion, []) end.
(** Consecutive sequence numbers from [seq]. *)
Fixpoint stamped (seq : Z) (ops : list WriteBatchRecord) : list entry :=
  match ops with [] => [] | op :: ops => record_entry (op_record seq op) :: stamped (seq + 1) ops end.
Definition op_fits (op : WriteBatchRecord) : Prop :=
  match op with Put k v => is_u32 (len k + 8) /\ is_u32 (len v) | Delete k => is_u32 (len k + 8) end.

Lemma op_record_ok seq op : op_fits op -> 0 <= seq <= MAX_SEQUENCE_NUMBER -> MemTableCorrect.record_ok (op_record seq op).
Proof.
  unfold MemTableCorrect.record_ok. destruct op; cbn; [intros H1 Hs; split; [done|split; [done|]]|intros [H1 H2] Hs; split; [done|by split]].
  by vm_compute.
Qed.
Lemma op_sequence seq op : sequence (op_record seq op).1 = seq.
Proof. by destruct op. Qed.
Lemma op_entry_sequence seq op : 0 <= seq <= MAX_SEQUENCE_NUMBER -> esequence (record_entry (op_record seq op)) = seq.
Proof.
  intros Hs. unfold esequence, record_entry. cbn [fst]. rewrite op_sequence, utag_mk by by apply mk_tag_u64. apply mk_tag_seq.
Qed.
Lemma stamped_sequence ops : forall seq e, 0 <= seq -> seq + len ops <= MAX_SEQUENCE_NUMBER + 1 -> e ∈ stamped seq ops ->
  seq <= esequence e < seq + len ops.
Proof.
  induction ops as [|op ops IH]; intros seq e H0 Hm He; [by apply elem_of_nil in He|]. rewrite len_cons in *. pose proof (len_nonneg ops).
  cbn [stamped] in He. apply elem_of_cons in He as [->|He]; [rewrite op_entry_sequence; lia|]. specialize (IH (seq + 1) e ltac:(lia) ltac:(lia) He). lia.
Qed.
Lemma stamped_app seq a b : stamped seq (a ++ b) = stamped seq a ++ stamped (seq + len a) b.
Proof.
  revert seq. induction a as [|op a IH]; intros seq; [by rewrite Z.add_0_r|]. cbn [app stamped]. rewrite IH, len_cons.
  by replace (seq + 1 + len a) with (seq + (1 + len a)) by lia.
Qed.

(** What a reader at or below [last] does not see. *)
Lemma later_unseen uk seq es : 0 <= seq <= MAX_SEQUENCE_NUMBER -> (forall e, e ∈ es -> seq < esequence e) ->
  none_in (mk_ikey uk (mk_tag seq Value)) es.
Proof.
  intros Hs Hl e He [_ Ht]. rewrite utag_mk in Ht by by apply mk_tag_u64. specialize (Hl e He). unfold esequence in Hl.
  rewrite Z.shiftr_div_pow2 in Hl by lia. unfold mk_tag in Ht. cbn in Ht.
  pose proof (Z.div_lt_upper_bound (utag e.1) (2 ^ 8) (seq + 1)) as Hd. lia.
Qed.
Lemma answers_later uk seq es new res : 0 <= seq <= MAX_SEQUENCE_NUMBER -> (forall e, e ∈ new -> seq < esequence e) ->
  answers (mk_ikey uk (mk_tag seq Value)) es res -> answers (mk_ikey uk (mk_tag seq Value)) (es ++ new) res.
Proof. intros Hs Hl Ha. rewrite (Permutation_app_comm es new). apply answers_skip; [by apply later_unseen|done]. Qed.

Lemma ik_ord_eq_tag ord a b : ik_ord ord a b = Eq -> utag a = utag b.
Proof. unfold ik_ord. destruct (ord _ _); [|done..]. by intros ->%Z.compare_eq_iff. Qed.

(** ** Inserting *)

Section insert.
Context {C : Type} `{HC : Comparator C} (c : C) (ord : bytes -> bytes -> comparison) `{!ComparatorLaws c (fun _ => True) ord}.
Context (arena : Z -> bytes) (Harena : forall n, n <= len (arena n)).
Abbreviation holds_in m es := (mem_holds (c:=c) (ord:=ord) m es) (only parsing).

Fixpoint inserted (seq : Z) (ops : list WriteBatchRecord) (es : list entry) : list entry :=
  match ops with [] => es | op :: ops => inserted (seq + 1) ops (insert_entry (ord:=ord) (record_entry (op_record seq op)) es) end.
Lemma inserted_perm ops : forall seq es, inserted seq ops es ≡ₚ es ++ stamped seq ops.
Proof.
  induction ops as [|op ops IH]; intros seq es; cbn [inserted stamped]; [by rewrite app_nil_r|].
  rewrite IH, insert_entry_perm. cbn. by rewrite Permutation_middle.
Qed.

(** The handler adds the records one by one under consecutive numbers. *)
Lemma insert_ops ops : forall seq r n (h : mem_heap C) m es, h !! r = Some m -> holds_in m es -> Forall op_fits ops ->
  0 <= seq -> seq + len ops <= MAX_SEQUENCE_NUMBER + 1 -> (forall e, e ∈ es -> esequence e < seq) ->
  exists n' m', fold_left (@WriteBatch.handle inserting (SharedMem.Inserter_Handler arena)) ops (Ret (mk_inserter seq r n, h)) =
      Ret (mk_inserter (seq + len ops) r n', <[r := m']> h) /\
    holds_in m' (inserted seq ops es).
Proof.
  induction ops as [|op ops IH]; intros seq r n h m es Hr Hm Hf H0 Hmax Hlt.
  { exists n, m. change (len []) with 0. rewrite Z.add_0_r. split; [|done]. cbn [fold_left]. by rewrite (insert_id (M:=gmap nat) h r m Hr). }
  apply Forall_cons in Hf as [Hop Hf]. rewrite len_cons in *. pose proof (len_nonneg ops).
  pose proof (op_record_ok seq op Hop ltac:(lia)) as Hok.
  destruct (add_ok (c:=c) (ord:=ord) m es (arena (MemTable.encoded_size (user_key (op_record seq op).1) (op_record seq op).2)) (op_record seq op) Hm Hok (Harena _))
    as (m1 & E1 & Hm1).
  { intros e He E1. apply ik_ord_eq_tag in E1. specialize (Hlt e He). unfold esequence in Hlt. rewrite E1 in Hlt.
    pose proof (op_entry_sequence seq op ltac:(lia)) as Hs. unfold esequence in Hs. lia. }
  rewrite op_sequence in E1.
  set (size := MemTable.encoded_size _ _) in E1.
  assert (Estep : @WriteBatch.handle inserting (SharedMem.Inserter_Handler arena) (Ret (mk_inserter seq r n, h)) op =
    Ret (mk_inserter (seq + 1) r (n + size), <[r := m1]> h)).
  { destruct op as [k|k v]; cbn [WriteBatch.handle handler_put handler_delete SharedMem.Inserter_Handler]; unfold insert_record;
      cbn [mbind outcome_bind ins_mem ins_sequence bytes_added]; unfold SharedMemTable.add, SharedMemTable.deref; rewrite Hr;
      cbn [expect mbind outcome_bind]; cbn [op_record fst snd user_key value_type] in E1, size; fold size; rewrite E1;
      cbn [mbind outcome_bind fst snd]; (rewrite as_u64_id; [done|unfold is_u64, MAX_SEQUENCE_NUMBER in *; lia]). }
  destruct (IH (seq + 1) r (n + size) (<[r := m1]> h) m1 (insert_entry (ord:=ord) (record_entry (op_record seq op)) es))
    as (n' & m' & E2 & Hm'); [apply (lookup_insert_eq (M:=gmap nat))|done|done|lia|lia| |].
  { intros e He. rewrite insert_entry_perm in He. apply elem_of_cons in He as [->|He]; [rewrite op_entry_sequence; lia|]. specialize (Hlt e He). lia. }
  exists n', m'. cbn [fold_left inserted]. rewrite Estep, E2, (insert_insert_eq (M:=gmap nat) (A:=MemTable.t C) h r m' m1). split; [|done]. do 3 f_equal. lia.
Qed.
Lemma insert_batch_ok rep seq0 ops seq r (h : mem_heap C) m es : batch_repr rep seq0 ops -> h !! r = Some m -> holds_in m es -> Forall op_fits ops ->
  0 <= seq -> seq + len ops <= MAX_SEQUENCE_NUMBER + 1 -> (forall e, e ∈ es -> esequence e < seq) ->
  exists added m', insert_batch arena rep (mk_inserter seq r 0) h = Ret (mk_inserter (seq + len ops) r added, <[r := m']> h, Ret tt) /\
    holds_in m' (inserted seq ops es).
Proof.
  intros Hr Hm Hh Hf H0 Hmax Hlt. destruct (insert_ops ops seq r 0 h m es Hm Hh Hf H0 Hmax Hlt) as (added & m' & E1 & Hm').
  exists added, m'. split; [|done]. unfold insert_batch. by rewrite (batch_iterate _ _ _ Hr), E1.
Qed.
End insert.

(** ** The group *)

Section group.
Context {W C P Co K : Type} `{E : Env W} {is_open : Writable -> Prop} {contents : Writable -> W -> bytes} `{HW : !WritableLaws is_open contents}.
Context `{HC : Comparator C} `{HP : FilterPolicy P} `{HCo : Compressor Co} `{HK : Cache K Block}.
Context (c : C) (ord : bytes -> bytes -> comparison) `{!ComparatorLaws c (fun _ => True) ord}.
Context (arena : Z -> bytes) (Harena : forall n, n <= len (arena n)).
Abbreviation db := (DBImplCore.t W C P Co K) (only parsing).
Abbreviation holds_in m es := (mem_holds (c:=c) (ord:=ord) m es) (only parsing).
Implicit Types self : db.
Import DBImplCore Core Write.

(** The log record of a group. *)
Definition group_record (seq : Z) (ops : list WriteBatchRecord) : bytes := to_le_bytes 8 seq ++ to_le_bytes 4 (len ops) ++ enc_all ops.
Lemma group_record_repr seq ops rep s0 : is_u64 seq -> batch_repr rep s0 ops -> batch_repr (group_record seq ops) seq ops.
Proof. intros Hs (_ & _ & H1 & H2). by split_and!. Qed.

(** The database is ready for a group: the log is in place and the memtable holds [es],
    all published. *)
Record writable_db self (w : W) (es : list entry) : Prop := {
  wd_log : exists lw, log_writer self = Some lw /\ in_block (LogWriter.block_offset lw);
  wd_file : exists lf, log_file self = Some lf /\ is_open lf;
  wd_mem : exists m, heap self !! mem self = Some m /\ holds_in m es;
  wd_published : forall e, e ∈ es -> esequence e <= last_sequence self;
  wd_last : 0 <= last_sequence self;
}.

Lemma take_group_ok (s : db * (W * K)) opss es : writable_db s.1 s.2.1 es -> Forall2 queued (writers s.1) opss -> opss <> [] ->
  last_sequence s.1 + len (concat opss) <= MAX_SEQUENCE_NUMBER ->
  exists first rest n j lw lf seq0, writers s.1 = first :: rest /\ (1 <= n <= length (writers s.1))%nat /\
    take_group s = (Ret j, (with_log_file None (with_log_writer None
      (with_writers (mk_writer (w_id first) None (w_sync first) (w_result first) :: rest) s.1)), s.2)) /\
    batch_repr (jb_updates j) seq0 (concat (take n opss)) /\ jb_writer_count j = Z.of_nat n /\ jb_sync j = w_sync first /\
    jb_sequence j = last_sequence s.1 + 1 /\ jb_sequence_end j = last_sequence s.1 + len (concat (take n opss)) /\
    log_writer s.1 = Some lw /\ in_block (LogWriter.block_offset lw) /\ log_file s.1 = Some lf /\ is_open lf /\
    jb_log_writer j = lw /\ jb_log_file j = lf /\ jb_mem j = mem s.1.
Proof.
  intros [(lw & Hlw & Hb) (lf & Hlf & Ho) _ _ H0] Hq Hne Hmax.
  destruct (build_group_ok s.1 opss Hq Hne) as (first & rest & n & updates & seq0 & Ew & Hn & Eb & Hr & _).
  assert (Hlen : 0 <= len (concat (take n opss)) <= len (concat opss)).
  { split; [apply len_nonneg|]. rewrite <- (take_drop n opss) at 2. rewrite concat_app, len_app. pose proof (len_nonneg (concat (drop n opss))). lia. }
  unfold take_group. exists first, rest, n. erewrite action_bind_ret by reflexivity. cbn [id].
  erewrite action_bind_ret by (unfold lift; rewrite Eb; reflexivity). cbn beta iota zeta.
  erewrite action_bind_ret by (unfold lift; rewrite (batch_count _ _ _ Hr); reflexivity).
  erewrite action_bind_ret by (unfold lift; cbn [log_writer with_writers]; rewrite Hlw; reflexivity).
  erewrite action_bind_ret by (unfold lift; cbn [log_file with_writers]; rewrite Hlf; reflexivity).
  erewrite action_bind_ret by reflexivity.
  change (last_sequence (with_writers (mk_writer (w_id first) None (w_sync first) (w_result first) :: rest) s.1)) with (last_sequence s.1).
  rewrite !as_u64_id by (unfold is_u64, MAX_SEQUENCE_NUMBER in *; lia).
  eexists _, lw, lf, seq0. split_and!; [done|lia|lia|reflexivity|exact Hr|done..].
Qed.

Lemma sublist_fits n (opss : list (list WriteBatchRecord)) : Forall op_fits (concat opss) ->
  Forall op_fits (concat (take n opss)) /\ len (concat (take n opss)) <= len (concat opss).
Proof.
  assert (Ec : concat opss = concat (take n opss) ++ concat (drop n opss)) by (by rewrite <- concat_app, take_drop).
  rewrite Ec at 1. intros [Hf _]%Forall_app. split; [done|]. rewrite Ec, len_app. pose proof (len_nonneg (concat (drop n opss))). lia.
Qed.
Lemma append_log_ok j (s : db * (W * K)) seq0 ops : batch_repr (jb_updates j) seq0 ops -> is_open (jb_log_file j) ->
  in_block (LogWriter.block_offset (jb_log_writer j)) ->
  let r := enc_record (LogWriter.block_offset (jb_log_writer j)) (group_record (jb_sequence j) ops) in
  exists w', append_log j s = (Ret (mk_appended (LogWriter.mk (LogWriter.sink (jb_log_writer j)) r.2) (Ret tt) false), (s.1, (w', s.2.2))) /\
    contents (jb_log_file j) w' = contents (jb_log_file j) s.2.1 ++ r.1 /\ in_block r.2.
Proof.
  intros (Hu & _) Ho Hb r. unfold append_log.
  assert (Hs : slice_from (jb_updates j) 8 = Ret (to_le_bytes 4 (len ops) ++ enc_all ops)).
  { rewrite Hu. apply slice_from_app. by len_lia. }
  rewrite Hs. destruct (add_pair_ok (is_open:=is_open) (contents:=contents) (jb_log_file j) (to_le_bytes 8 (jb_sequence j))
    (to_le_bytes 4 (len ops) ++ enc_all ops) (jb_log_writer j) s.2.1 Ho Hb) as (w1 & E1 & Hc & Hb').
  fold (group_record (jb_sequence j) ops) in E1, Hc, Hb'. fold r in E1, Hc, Hb'. rewrite E1. destruct (jb_sync j).
  - destruct (sync_law (jb_log_file j) w1 Ho) as (w2 & E2 & Hc2). cbn [fst snd]. rewrite E2. exists w2. split_and!; [done|by rewrite Hc2|done].
  - exists w1. by split_and!.
Qed.
Lemma insert_group_ok j (s : db * (W * K)) seq0 ops m es : batch_repr (jb_updates j) seq0 ops -> heap s.1 !! jb_mem j = Some m -> holds_in m es ->
  Forall op_fits ops -> 0 <= jb_sequence j -> jb_sequence j + len ops <= MAX_SEQUENCE_NUMBER + 1 -> (forall e, e ∈ es -> esequence e < jb_sequence j) ->
  exists added m', insert_group arena j (Ret tt) s = (Ret (Ret tt, added), (with_heap (<[jb_mem j := m']> (heap s.1)) s.1, s.2)) /\
    holds_in m' (inserted ord (jb_sequence j) ops es).
Proof.
  intros Hr Hm Hh Hf H0 Hmax Hlt.
  destruct (insert_batch_ok c ord arena Harena _ _ ops (jb_sequence j) (jb_mem j) (heap s.1) m es Hr Hm Hh Hf H0 Hmax Hlt) as (added & m' & Ei & Hm').
  exists added, m'. split; [|done]. unfold insert_group. erewrite action_bind_ret by reflexivity.
  erewrite action_bind_ret by (unfold lift; rewrite Ei; reflexivity). cbn beta iota. by erewrite action_bind_ret by reflexivity.
Qed.

Lemma commit_ok j lw added (s : db * (W * K)) n : jb_writer_count j = Z.of_nat n -> (n <= length (writers s.1))%nat ->
  exists self', commit j (mk_appended lw (Ret tt) false) (Ret tt) added s = (Ret tt, (self', s.2)) /\
    writers self' = drop n (writers s.1) /\ log_writer self' = Some lw /\ log_file self' = Some (jb_log_file j) /\
    mem self' = mem s.1 /\ heap self' = heap s.1 /\ last_sequence self' = jb_sequence_end j /\
    (forall r, results self' !! r = if decide (r ∈ slots (take n (writers s.1))) then Some (Some (Ret tt)) else results s.1 !! r) /\
    version_set self' = VersionSet.set_last_sequence (jb_sequence_end j) (version_set s.1) /\ imm self' = imm s.1.
Proof.
  intros Hj Hn. unfold commit. do 3 (erewrite action_bind_ret by reflexivity). unfold finish_group. erewrite action_bind_ret by reflexivity. cbn [fst snd id].
  set (s1 := with_version_set _ _). destruct (finish_loop_ok n (Ret tt) s1 Hn) as (self' & E1 & Hw & Hs & Hin & Hout).
  erewrite action_bind_ret by (unfold lift, finish_writer_group; rewrite Hj, Nat2Z.id, E1; reflexivity).
  exists self'. split; [reflexivity|]. rewrite Hs. split_and!; try done.
  intros r. cbn [results with_results]. case_decide as Hd; [by apply Hin|by rewrite Hout].
Qed.

(** The sections of a group in their order, and what they keep from the readers. *)
Definition group_run (s : db * (W * K)) (j : write_job) (s1 : db * (W * K)) (ap : appended) (s2 : db * (W * K)) (added : Z)
    (s3 s4 : db * (W * K)) : Prop :=
  take_group s = (Ret j, s1) /\ append_log j s1 = (Ret ap, s2) /\ insert_group arena j (ap_status ap) s2 = (Ret (Ret tt, added), s3) /\
  commit j ap (Ret tt) added s3 = (Ret tt, s4).
Lemma group_run_writes s j s1 ap s2 added s3 s4 : group_run s j s1 ap s2 added s3 s4 -> write_group arena s = (Ret (Ret tt), s4).
Proof.
  intros (Et & Ea & Ei & Ec). unfold write_group. rewrite (action_bind_ret _ _ _ _ _ Et), (action_bind_ret _ _ _ _ _ Ea), (action_bind_ret _ _ _ _ _ Ei).
  by rewrite (action_bind_ret _ _ _ _ _ Ec).
Qed.
Definition unpublished self self' : Prop := last_sequence self' = last_sequence self /\ results self' = results self.

(** Before the commit: the record is in the log and the entries [es'] are in the memtable. *)
Record written (s : db * (W * K)) (n : nat) (ops : list WriteBatchRecord) (lf : Writable) (lw : LogWriter.t) (es' : list entry)
    (j : write_job) (ap : appended) (s3 : db * (W * K)) : Prop := {
  wr_log : Write.jb_log_file j = lf /\ is_open lf;
  wr_ap : exists lw', ap = mk_appended lw' (Ret tt) false /\ in_block (LogWriter.block_offset lw');
  wr_count : jb_writer_count j = Z.of_nat n;
  wr_end : jb_sequence_end j = last_sequence s.1 + len ops;
  wr_bytes : contents lf s3.2.1 = contents lf s.2.1 ++ (enc_record (LogWriter.block_offset lw) (group_record (last_sequence s.1 + 1) ops)).1;
  wr_cache : s3.2.2 = s.2.2;
  wr_mem : mem s3.1 = mem s.1;
  wr_heap : exists m', heap s3.1 !! mem s.1 = Some m' /\ holds_in m' es';
  wr_queue : length (writers s3.1) = length (writers s.1) /\ slots (take n (writers s3.1)) = slots (take n (writers s.1)) /\
    drop n (writers s3.1) = drop n (writers s.1);
}.
Lemma group_written (s : db * (W * K)) opss es : writable_db s.1 s.2.1 es -> Forall2 queued (writers s.1) opss -> opss <> [] ->
  Forall op_fits (concat opss) -> last_sequence s.1 + len (concat opss) <= MAX_SEQUENCE_NUMBER ->
  exists n lf lw es' j s1 ap s2 added s3, let ops := concat (take n opss) in let first := last_sequence s.1 + 1 in
    (1 <= n <= length (writers s.1))%nat /\ log_writer s.1 = Some lw /\ log_file s.1 = Some lf /\
    es' ≡ₚ es ++ stamped first ops /\ batch_repr (group_record first ops) first ops /\
    take_group s = (Ret j, s1) /\ append_log j s1 = (Ret ap, s2) /\ insert_group arena j (ap_status ap) s2 = (Ret (Ret tt, added), s3) /\
    s1.2 = s.2 /\ s2.2 = s3.2 /\ unpublished s.1 s1.1 /\ unpublished s.1 s2.1 /\ unpublished s.1 s3.1 /\ written s n ops lf lw es' j ap s3.
Proof.
  intros Hwd Hq Hne Hf Hmax. destruct (take_group_ok s opss es Hwd Hq Hne Hmax)
    as (first & rest & n & j & lw & lf & seq0 & Ew & Hn & Et & Hr & Hjn & Hjs & Hseq & Hend & Hlw & Hb & Hlf & Ho & Elw & Elf & Emem).
  destruct (sublist_fits n opss Hf) as [Hfo Hlen].
  set (ops := concat (take n opss)) in *. pose proof Hwd as [_ _ (m & Hm & Hh) Hpub H0]. pose proof (len_nonneg ops).
  match type of Et with _ = (_, ?st) => set (s1 := st) in Et end.
  rewrite <- Elw in Hb. rewrite <- Elf in Ho.
  destruct (append_log_ok j s1 seq0 ops Hr Ho Hb) as (w' & Ea & Hc & Hb').
  set (rec := enc_record _ _) in Ea, Hc, Hb'. match type of Ea with _ = (_, ?st) => set (s2 := st) in Ea end.
  destruct (insert_group_ok j s2 seq0 ops m es Hr) as (added & m' & Ei & Hm'); try done; [by rewrite Emem|lia|lia|intros e He; specialize (Hpub e He); lia|].
  match type of Ei with _ = (_, ?st) => set (s3 := st) in Ei end.
  exists n, lf, lw, (inserted ord (jb_sequence j) ops es), j, s1, (mk_appended (LogWriter.mk (LogWriter.sink (jb_log_writer j)) rec.2) (Ret tt) false), s2, added, s3.
  cbn zeta. fold ops. split; [exact Hn|]. split; [exact Hlw|]. split; [exact Hlf|]. split; [by rewrite inserted_perm, Hseq|].
  split; [eapply group_record_repr; [unfold is_u64, MAX_SEQUENCE_NUMBER in *; lia|exact Hr]|].
  split; [exact Et|]. split; [exact Ea|]. split; [exact Ei|]. do 5 (split; [done|]). split.
  - by rewrite <- Elf.
  - by eexists.
  - exact Hjn.
  - exact Hend.
  - rewrite <- Elf. change (contents (jb_log_file j) w' = contents (jb_log_file j) s.2.1 ++ (enc_record (LogWriter.block_offset lw) (group_record (last_sequence s.1 + 1) ops)).1).
    rewrite Hc. unfold rec. by rewrite Elw, Hseq.
  - done.
  - done.
  - exists m'. split; [|done]. cbn [fst s3 heap with_heap s2]. rewrite Emem. apply (lookup_insert_eq (M:=gmap nat)).
  - cbn. rewrite Ew. split_and!; [done|by destruct n|destruct n; [lia|done]].
Qed.

(** The commit publishes the numbers and answers the writers. *)
Lemma write_group_ok (s : db * (W * K)) opss es : writable_db s.1 s.2.1 es -> Forall2 queued (writers s.1) opss -> opss <> [] ->
  Forall op_fits (concat opss) -> last_sequence s.1 + len (concat opss) <= MAX_SEQUENCE_NUMBER ->
  exists n lf lw es' j s1 ap s2 added s3 self', let ops := concat (take n opss) in let first := last_sequence s.1 + 1 in
    group_run s j s1 ap s2 added s3 (self', (s3.2.1, s.2.2)) /\ s1.2 = s.2 /\ s2.2 = s3.2 /\ unpublished s.1 s1.1 /\ unpublished s.1 s2.1 /\ unpublished s.1 s3.1 /\
    (1 <= n <= length (writers s.1))%nat /\ log_writer s.1 = Some lw /\ log_file s.1 = Some lf /\
    batch_repr (group_record first ops) first ops /\ es' ≡ₚ es ++ stamped first ops /\ written s n ops lf lw es' j ap s3 /\
    last_sequence self' = last_sequence s.1 + len ops /\ mem self' = mem s.1 /\ writable_db self' s3.2.1 es' /\
    writers self' = drop n (writers s.1) /\
    (forall r, results self' !! r = if decide (r ∈ slots (take n (writers s.1))) then Some (Some (Ret tt)) else results s.1 !! r).
Proof.
  intros Hwd Hq Hne Hf Hmax. destruct (group_written s opss es Hwd Hq Hne Hf Hmax)
    as (n & lf & lw & es' & j & s1 & ap & s2 & added & s3 & Hn & Hlw & Hlf & Hp & Hrep & Et & Ea & Ei & I1 & I2 & H1 & H2 & H3 & Hwr).
  pose proof Hwr as [[Elf Ho] (lw' & -> & Hb) Hjn Hend Hby Hca Hme (m' & Hm' & Hh) (Hlq & Hsl & Hdr)].
  destruct (commit_ok j lw' added s3 n Hjn) as (self' & Ec & Hws & Clw & Clf & Cm & Ch & Cl & Cres & _); [lia|].
  exists n, lf, lw, es', j, s1, (mk_appended lw' (Ret tt) false), s2, added, s3, self'. cbn zeta.
  set (ops := concat (take n opss)) in *. pose proof (sublist_fits n opss Hf) as [_ Hlen]. fold ops in Hlen. pose proof (len_nonneg ops).
  pose proof Hwd as [_ _ _ Hpub H0].
  split. { split_and!; [exact Et|exact Ea|exact Ei|]. rewrite Ec. destruct s3 as [d3 [w3 k3]]. cbn in Hca |- *. by subst k3. }
  do 10 (split; [assumption|]). split; [exact Hwr|]. rewrite Cl, Hend, Cm, Hme, Hws, Hdr. do 2 (split; [done|]). split; [split|].
  - rewrite Clw. by eexists.
  - rewrite Clf, Elf. by eexists.
  - rewrite Cm, Ch, Hme. by exists m'.
  - intros e He. rewrite Hp in He. rewrite Cl, Hend. apply elem_of_app in He as [He|He]; [specialize (Hpub e He); lia|].
    apply stamped_sequence in He; lia.
  - rewrite Cl, Hend. lia.
  - split; [done|]. intros r. rewrite Cres, Hsl. by rewrite (proj2 H3).
Qed.

(** The memtable after some of the operations. *)
Lemma group_prefix self es ops w i : writable_db self w es -> Forall op_fits ops -> last_sequence self + len ops <= MAX_SEQUENCE_NUMBER ->
  exists ins m es_i,
    fold_left (@WriteBatch.handle inserting (SharedMem.Inserter_Handler arena)) (take i ops)
      (Ret (mk_inserter (last_sequence self + 1) (mem self) 0, heap self)) = Ret (ins, <[mem self := m]> (heap self)) /\
    holds_in m es_i /\ es_i ≡ₚ es ++ stamped (last_sequence self + 1) (take i ops) /\
    forall uk seq res, 0 <= seq <= last_sequence self -> answers (mk_ikey uk (mk_tag seq Value)) es res -> answers (mk_ikey uk (mk_tag seq Value)) es_i res.
Proof.
  intros [_ _ (m & Hm & Hh) Hpub H0] Hf Hmax. pose proof (len_nonneg ops).
  assert (Hti : len (take i ops) <= len ops) by (unfold len; rewrite length_take; lia).
  destruct (insert_ops c ord arena Harena (take i ops) (last_sequence self + 1) (mem self) 0 (heap self) m es Hm Hh) as (n & m' & E1 & Hh');
    [by apply Forall_take|lia|lia|intros e He; specialize (Hpub e He); lia|].
  eexists _, m', _. split; [exact E1|]. split; [exact Hh'|]. split; [apply inserted_perm|].
  intros uk seq res Hs Hans. rewrite inserted_perm. apply answers_later; [lia| |done]. intros e He. apply stamped_sequence in He; lia.
Qed.
End group.

Definition zeroed (n : Z) : bytes := replicate (Z.to_nat n) Byte.x00.
Lemma zeroed_long n : n <= len (zeroed n).
Proof. unfold zeroed, len. rewrite length_replicate. lia. Qed.

(** *** Sample: two versions of a key in two files of a level

    A cut between them is what a compaction leaves that a snapshot makes keep both. *)
Definition split_contents (n : Z) : list entry :=
  let b := list_byte_of_string in
  let e k n v := (mk_ikey (b k) (mk_tag n Value), b v) in
  if n =? 5 then [e "a" 3 "x"; e "b" 5 "new"]%string
  else if n =? 6 then [e "b" 4 "old"; e "c" 2 "y"]%string else [].
Definition split_file (n : Z) (w : MemEnv) : FileMeta * MemEnv :=
  match Compact.write_table (E:=MemEnv_Env) (mk_icmp Bytewise) sample_options "db" n (split_contents n) w with
  | (Ret size, w) => (FileMetaData.mk n size (Compact.entry_range (split_contents n)).1 (Compact.entry_range (split_contents n)).2, w)
  | (_, w) => (FileMetaData.mk n 0 [] [], w)
  end.
Definition split_metas : list FileMeta * MemEnv :=
  let '(m5, w) := split_file 5 (snd (Mem.new_writable_file (path_new (log_file_name "db" 2)) Mem.new)) in
  let '(m6, w) := split_file 6 w in ([m5; m6], w).
Definition split_version : Version.t BytewiseComparator :=
  Version.mk [[]; split_metas.1; []; []; []; []; []] (mk_icmp Bytewise) f64_minus_one (-1) ∅ None.
Definition split_world : sample_db_type * (MemEnv * ShardedLRUCache.t Block) :=
  (sample_db (MemTable.new Bytewise) split_version 5, (split_metas.2, ShardedLRUCache.new (V:=Block) 100)).
Definition get_b : action (sample_db_type * (MemEnv * ShardedLRUCache.t Block)) (option bytes) :=
  Write.get_with_options (E:=MemEnv_Env) ReadOptions_default (list_byte_of_string "b").
Definition compact_a : action (sample_db_type * (MemEnv * ShardedLRUCache.t Block)) (option (outcome unit)) :=
  Write.compact_range (E:=MemEnv_Env) 10 10 0 10 (Some (list_byte_of_string "a")) (Some (list_byte_of_string "a")).

Definition split_meta (n : Z) : FileMeta :=
  FileMetaData.mk n 195 (Compact.entry_range (split_contents n)).1 (Compact.entry_range (split_contents n)).2.
Lemma split_metas_eq : split_metas.1 = [split_meta 5; split_meta 6].
Proof. by vm_compute. Qed.
Lemma split_holds n : n = 5 \/ n = 6 -> VersionCorrect.holds bytes_cmp split_contents (split_meta n).
Proof.
  intros Hn. split.
  - destruct Hn as [->| ->]; by vm_compute.
  - destruct Hn as [->| ->]; repeat constructor; first [by vm_compute | by left; vm_compute | by right; vm_compute].
  - apply sortedb_sound; [apply _|]. destruct Hn as [->| ->]; by vm_compute.
  - intros e He. destruct Hn as [->| ->]; cbn in He; repeat (apply elem_of_cons in He as [->|He]; [by vm_compute|]);
      by apply elem_of_nil in He.
  - intros e He. destruct Hn as [->| ->]; cbn in He; repeat (apply elem_of_cons in He as [->|He]; [by vm_compute|]);
      by apply elem_of_nil in He.
  - destruct Hn as [->| ->]; eexists; apply list_elem_of_lookup; by exists 1%nat.
Qed.
Lemma split_files_wf (v : Version.t BytewiseComparator) : Version.comparator v = mk_icmp Bytewise ->
  Version.files v = [[]; [split_meta 5; split_meta 6]; []; []; []; []; []] -> version_wf Bytewise bytes_cmp split_contents v.
Proof.
  intros Hc Hf. split; rewrite ?Hf.
  - done.
  - done.
  - repeat (apply Forall_cons; split; [repeat (apply Forall_cons; split; [apply split_holds; lia|]); done|]). done.
  - repeat (apply Forall_cons; split; [intros [|[|i]] [|[|j]] a b Hij Ha Hb; cbn in *; try (done || lia)|]); try done.
    injection Ha as <-. injection Hb as <-. by vm_compute.
  - intros l0 [= <-]. constructor.
  - intros l0 a b [= <-] Ha. by apply elem_of_nil in Ha.
  - repeat (split; [apply newerb_sound; by vm_compute|]). done.
Qed.
Lemma split_version_wf : version_wf Bytewise bytes_cmp split_contents split_version.
Proof. apply split_files_wf; [done|]. unfold split_version. cbn [Version.files]. by rewrite split_metas_eq. Qed.

(** ** Claims *)

(** C6: (group commit) A group written by the leader of the queue succeeds when the log file
    takes its bytes: the log grows by exactly one record, the batch of the group stamped
    with the number after the last one published; the active memtable gains exactly the
    operations of the first writers of the queue, in order, under consecutive numbers;
    and the database is ready for the next group.  Only the last of the four steps
    publishes the numbers and tells exactly the waiting writers of the group: after taking
    the group, appending the record and inserting the entries the last number published
    and the answers are still the old ones, although the log and the memtable have them all.
    Nor do the entries show before: after any prefix of the insertions, a read of the
    memtable at or below the number published before is told the same. *)
Theorem group_commits {W C P Co K} `{E : Env W} is_open contents `{HW : !WritableLaws is_open contents}
    `{HC : Comparator C} `{HP : FilterPolicy P} `{HCo : Compressor Co} `{HK : Cache K Block} (c : C) ord `{!ComparatorLaws c (fun _ => True) ord}
    (arena : Z -> bytes) (self : DBImplCore.t W C P Co K) (w : W) (k : K) opss es :
  (forall n, n <= len (arena n)) ->
  writable_db (is_open:=is_open) c ord self w es -> Forall2 queued (DBImplCore.writers self) opss -> opss <> [] ->
  Forall op_fits (concat opss) -> let last := Core.last_sequence self in last + len (concat opss) <= MAX_SEQUENCE_NUMBER ->
  exists n lf lw es' j self1 ap self2 w' added self3 self', let ops := concat (take n opss) in
    Write.write_group arena (self, (w, k)) = (Ret (Ret tt), (self', (w', k))) /\
    Write.take_group (self, (w, k)) = (Ret j, (self1, (w, k))) /\ Write.append_log j (self1, (w, k)) = (Ret ap, (self2, (w', k))) /\
    Write.insert_group arena j (Write.ap_status ap) (self2, (w', k)) = (Ret (Ret tt, added), (self3, (w', k))) /\
    Write.commit j ap (Ret tt) added (self3, (w', k)) = (Ret tt, (self', (w', k))) /\
    Forall (fun d => Core.last_sequence d = last /\ DBImplCore.results d = DBImplCore.results self) [self1; self2; self3] /\
    (exists m, DBImplCore.heap self3 !! DBImplCore.mem self = Some m /\ mem_holds (c:=c) (ord:=ord) m es') /\
    Core.last_sequence self' = last + len ops /\ (1 <= n <= length (DBImplCore.writers self))%nat /\
    DBImplCore.log_writer self = Some lw /\ DBImplCore.log_file self = Some lf /\
    contents lf w' = contents lf w ++ (enc_record (LogWriter.block_offset lw) (group_record (last + 1) ops)).1 /\
    batch_repr (group_record (last + 1) ops) (last + 1) ops /\ es' ≡ₚ es ++ stamped (last + 1) ops /\
    DBImplCore.mem self' = DBImplCore.mem self /\ writable_db (is_open:=is_open) c ord self' w' es' /\
    DBImplCore.writers self' = drop n (DBImplCore.writers self) /\
    (forall r, DBImplCore.results self' !! r =
       if decide (r ∈ slots (take n (DBImplCore.writers self))) then Some (Some (Ret tt)) else DBImplCore.results self !! r) /\
    forall i, exists ins m es_i,
      fold_left (@WriteBatch.handle inserting (SharedMem.Inserter_Handler arena)) (take i ops)
        (Ret (mk_inserter (last + 1) (DBImplCore.mem self) 0, DBImplCore.heap self)) = Ret (ins, <[DBImplCore.mem self := m]> (DBImplCore.heap self)) /\
      mem_holds (c:=c) (ord:=ord) m es_i /\ es_i ≡ₚ es ++ stamped (last + 1) (take i ops) /\
      forall uk seq res, 0 <= seq <= last -> answers (mk_ikey uk (mk_tag seq Value)) es res -> answers (mk_ikey uk (mk_tag seq Value)) es_i res.
Proof.
  intros Ha Hwd Hq Hne Hf last Hmax. pose proof (wd_last _ _ _ _ _ Hwd) as H0. fold last in H0.
  destruct (write_group_ok (is_open:=is_open) (contents:=contents) c ord arena Ha (self, (w, k)) opss es Hwd Hq Hne Hf Hmax)
    as (n & lf & lw & es' & j & s1 & ap & s2 & added & s3 & self' & Hrun & I1 & I2 & H1 & H2 & H3 & Hn & Hlw & Hlf & Hrep & Hp & Hwr & Hl & Hm & Hwd' & Hws & Hres).
  pose proof (group_run_writes arena _ _ _ _ _ _ _ _ Hrun) as E1. destruct Hrun as (Et & Ea & Ei & Ec).
  destruct s1 as [self1 io1], s2 as [self2 io2], s3 as [self3 [w' k']]. cbn [fst snd] in *. subst io1 io2. pose proof (wr_cache _ _ _ _ _ _ _ _ _ _ _ Hwr) as Hk. cbn [fst snd] in Hk. subst k'.
  exists n, lf, lw, es', j, self1, ap, self2, w', added, self3, self'. cbn zeta.
  do 5 (split; [assumption|]). split; [by repeat (apply Forall_cons; split); [| | |constructor]|].
  split; [exact (wr_heap _ _ _ _ _ _ _ _ _ _ _ Hwr)|]. do 4 (split; [assumption|]). split; [exact (wr_bytes _ _ _ _ _ _ _ _ _ _ _ Hwr)|].
  do 6 (split; [assumption|]). intros i.
  apply (group_prefix c ord arena Ha self es (concat (take n opss)) w i Hwd); [by apply sublist_fits|].
  pose proof (sublist_fits n opss Hf). unfold last in *. lia.
Qed.

Lemma queue_writable : writable_db (E:=MemEnv_Env) (is_open:=mem_open) Bytewise bytes_cmp queue_db Mem.new [].
Proof.
  split.
  - exists LogWriter.new. split; [reflexivity|]. unfold in_block, BLOCK_SIZE. cbn. lia.
  - exists (Mem.mk_writable 0 false). split; reflexivity.
  - exists (MemTable.new Bytewise). split; [reflexivity|apply mem_new_holds].
  - intros e He. by apply elem_of_nil in He.
  - by vm_compute.
Qed.
Lemma group_commits_witness :
  exists self3 self' w', let k := ShardedLRUCache.new (V:=Block) 100 in
    Write.write_group zeroed (queue_db, (Mem.new, k)) = (Ret (Ret tt), (self', (w', k))) /\
    (exists j ap added, Write.commit j ap (Ret tt) added (self3, (w', k)) = (Ret tt, (self', (w', k)))) /\
    Core.last_sequence self3 = 13 /\ Core.last_sequence self' = 16 /\
    (exists m es', DBImplCore.heap self3 !! 0%nat = Some m /\ mem_holds (c:=Bytewise) (ord:=bytes_cmp) m es' /\ length es' = 3%nat).
Proof.
  destruct (group_commits (E:=MemEnv_Env) mem_open mem_contents Bytewise bytes_cmp zeroed queue_db Mem.new (ShardedLRUCache.new (V:=Block) 100)
    [[sample_put "a" "1"]; [sample_put "b" "2"; Delete (list_byte_of_string "a")]; [sample_put "c" "3"]]%string [])
    as (n & lf & lw & es' & j & self1 & ap & self2 & w' & added & self3 & self' & E1 & _ & _ & _ & Ec & Hun & (m & Hm & Hh) & Hl & Hn & _ & _ & _ & _ & Hp & _ & _ & Hws & _).
  - exact zeroed_long.
  - exact queue_writable.
  - exact sample_queue_ok.
  - discriminate.
  - repeat apply Forall_cons_2; try apply Forall_nil_2; unfold op_fits, is_u32; vm_compute; repeat split; congruence.
  - by vm_compute.
  - assert (n = 2%nat) as ->.
    { apply (f_equal (fun r => len (DBImplCore.writers r.2.1))) in E1. cbn [fst snd] in E1. rewrite Hws in E1. vm_compute in E1.
      destruct n as [|[|[|[|n]]]]; [lia|discriminate|reflexivity|discriminate|cbn in Hn; lia]. }
    exists self3, self', w'. cbn zeta. split; [exact E1|]. split; [by exists j, ap, added|].
    apply Forall_cons in Hun as [_ Hun]. apply Forall_cons in Hun as [_ Hun]. apply Forall_cons in Hun as [[Hl3 _] _].
    split; [exact Hl3|]. split; [exact Hl|]. exists m, es'. split; [exact Hm|]. split; [exact Hh|]. by rewrite Hp.
Defined.

