(* ===== verification/DbThreads.v ===== *)
(** * DbThreads.v: the threads of an open database.

    Writers, flushers, readers and the background thread of [db_impl/db_impl.rs], each
    cut into the sections between two lock operations, and their interleavings as a step
    relation.  The order in which threads run is arbitrary; a thread that must wait takes
    no step. *)
From S2P Require Import Prelude Status Coding Comparator Format WriteBatch Filter Block Env Filename Sort Cache.
From S2P Require Import TableBuilder Table Log TableCache VersionEdit Version VersionSet MemTable SharedMem DbState DbCore Compact DbWrite DbIterator.

Module Threads.
Import DBImplCore Core Write.
Section threads.
Context {W C P Co K : Type} `{E : Env W} `{HC : Comparator C} `{HP : FilterPolicy P} `{HCo : Compressor Co} `{HK : Cache K Block}.
Context (arena : Z -> bytes).
(** Bounds on the entries of one table, and the time measured. *)
Context (fuel : nat) (micros : Z).
Abbreviation db := (DBImplCore.t W C P Co K) (only parsing).
Abbreviation M := (action (db * (W * K))) (only parsing).
Abbreviation job := (Write.write_job (W:=W)) (only parsing).
Implicit Types self : db.

(** Where a thread is: before which section. *)
Inductive thread :=
| Writing (sync : bool) (batch : WriteBatch)
| Following (id : Z) (slot : nat)
| Leading (allow_delay : bool)
| Appending (j : job)
| Inserting (j : job) (ap : appended)
| Committing (j : job) (ap : appended) (status : outcome unit) (added : Z)
| Flushing (at_ : flush_at)
| Reading (ro : ReadOptions) (key : bytes)
| Resting
| FlushBegin
| FlushWrite (j : Compact.flush_job)
| FlushInstall (j : Compact.flush_job) (file_size : Z)
| Picking
| Compacting (c : Compaction.t C)
| CycleDone (r : outcome unit)
| Stopped
| Wrote (r : outcome unit)
| Flushed (r : outcome unit)
| HasRead (r : outcome (option bytes)).

(** What a thread does next, [None] when it waits. *)
Definition go {A} (m : M A) (f : outcome A -> thread) : M (option thread) := fun s =>
  match m s with (Panic, s) => (Panic, s) | (r, s) => (Ret (Some (f r)), s) end.
Definition section (t : thread) : M (option thread) :=
  match t with
  | Writing sync batch => fun s =>
      let '(id, slot, self) := enqueue sync batch s.1 in
      (Ret (Some (match slot with Some slot => Following id slot | None => Leading true end)), (self, s.2))
  | Following id slot => fun s =>
      (Ret (match follow id slot s.1 with Leads => Some (Leading true) | Answered r => Some (Wrote r) | Sleeps => None end), s)
  | Leading allow_delay => fun s =>
      match make_room allow_delay s with
      | (Ret (Refused r), s) => (Ret (Some (Wrote r)), s)
      | (Ret Delays, s) => (Ret (Some (Leading false)), s)
      | (Ret Blocked, s) => (Ret None, s)
      | (Ret HasRoom, s) => let '(r, s) := take_group s in ((fun j => Some (Appending j)) <$> r, s)
      | (Fail e, s) => (Fail e, s)
      | (Panic, s) => (Panic, s)
      end
  | Appending j => fun s => let '(r, s) := append_log j s in ((fun ap => Some (Inserting j ap)) <$> r, s)
  | Inserting j ap => fun s =>
      let '(r, s) := insert_group arena j (ap_status ap) s in ((fun x => Some (Committing j ap x.1 x.2)) <$> r, s)
  | Committing j ap status added => fun s =>
      let '(r, s) := commit j ap status added s in ((fun _ => Some (Wrote status)) <$> r, s)
  | Flushing at_ => fun s =>
      let '(r, s) := force_flush at_ s in
      ((fun x => match x with inl at_ => Some (Flushing at_) | inr r => Some (Flushed r) end) <$> r, s)
  | Reading ro key => go (get_with_options ro key) HasRead
  | Resting => fun s =>
      if Compact.bg_parks s.1 then (Ret None, s) else
      let '(work, self) := Compact.bg_wake s.1 in
      (Ret (Some (match work with None => Stopped | Some false => Resting | Some true => FlushBegin end)), (self, s.2))
  | FlushBegin => fun s =>
      if is_some (imm s.1) then
        go Compact.flush_begin (fun r => match r with Ret (Some j) => FlushWrite j | Ret None => Picking | Fail e => CycleDone (Fail e) | Panic => Stopped end) s
      else (Ret (Some Picking), s)
  | FlushWrite j => go (Compact.flush_write j) (fun r => match r with Ret n => FlushInstall j n | Fail e => CycleDone (Fail e) | Panic => Stopped end)
  | FlushInstall j n => go (Compact.flush_install j n micros) (fun r => match r with Ret _ => Picking | r => CycleDone r end)
  | Picking => go Compact.pick_compaction (fun r => match r with Ret (Some c) => Compacting c | Ret None => CycleDone (Ret tt) | Fail e => CycleDone (Fail e) | Panic => Stopped end)
  | Compacting c => go (Compact.do_compaction_work fuel c micros) (fun r => match r with Ret _ => Picking | r => CycleDone r end)
  | CycleDone r => fun s => (Ret (Some Resting), (Compact.bg_done r s.1, s.2))
  | Stopped | Wrote _ | Flushed _ | HasRead _ => fun s => (Ret None, s)
  end.

(** The database and its threads. *)
Record system := mk_system { world : db * (W * K); threads : gmap nat thread }.
(** A call made on a new thread; fewer than [2^64] writers are ever numbered. *)
Definition starts (t : thread) : bool :=
  match t with Writing _ _ | Flushing AtWriters | Reading _ _ => true | _ => false end.
Inductive step : system -> system -> Prop :=
| step_call s ts i t : ts !! i = None -> starts t = true -> step (mk_system s ts) (mk_system s (<[i := t]> ts))
| step_section s s' ts i t t' : ts !! i = Some t -> next_writer_id s.1 + 1 < 2 ^ 64 -> section t s = (Ret (Some t'), s') ->
    step (mk_system s ts) (mk_system s' (<[i := t']> ts)).
Definition steps : system -> system -> Prop := rtc step.

(** A schedule, run: which thread makes a call or takes the next step. *)
Inductive event := Call (i : nat) (t : thread) | Turn (i : nat).
Fixpoint run (schedule : list event) (sys : system) : option system :=
  match schedule with
  | [] => Some sys
  | Call i t :: schedule =>
      if negb (is_some (threads sys !! i)) && starts t then run schedule (mk_system (world sys) (<[i := t]> (threads sys))) else None
  | Turn i :: schedule =>
      t ← threads sys !! i;
      if next_writer_id (world sys).1 + 1 <? 2 ^ 64 then
        match section t (world sys) with
        | (Ret (Some t'), s') => run schedule (mk_system s' (<[i := t']> (threads sys)))
        | _ => None
        end
      else None
  end.
Lemma run_steps schedule : forall sys sys', run schedule sys = Some sys' -> steps sys sys'.
Proof.
  induction schedule as [|[i t|i] schedule IH]; intros [s ts] sys' Hr; cbn in Hr; [by injection Hr as <-; apply rtc_refl|..].
  - destruct (ts !! i) as [x|] eqn:Ei; [done|]. destruct (starts t) eqn:Es; [|done]. eapply rtc_l; [by apply step_call|by apply IH].
  - destruct (ts !! i) as [t|] eqn:Ei; [|done]. cbn in Hr. destruct (Z.ltb_spec (next_writer_id s.1 + 1) (2 ^ 64)); [|done].
    destruct (section t s) as [[[t'|]|e|] s'] eqn:Es; try done. eapply rtc_l; [|by apply IH]. by eapply step_section.
Qed.
End threads.
End Threads.
