(* ===== verification/DbThreadsCorrect.v ===== *)
(** * DbThreadsCorrect.v: which thread may touch the log.

    Without [force_flush], in every interleaving, at most one thread leads the write queue,
    the log is out of its place exactly while that thread writes, and the memtable and the
    sequence numbers its group was given are still the database's when it commits.  With
    [force_flush] they need not be: a run in which an acknowledged write is lost.  A flush
    of the background thread that fails keeps the thread spinning. *)
From S2P Require Import Prelude Status Coding Comparator Format WriteBatch Filter Block Env Filename Sort Cache.
From S2P Require Import CacheCorrect TableBuilder TableFormat TableBuilderCorrect Table TableCorrect Newest Log TableCache TableCacheCorrect VersionEdit Version VersionCorrect VersionSet.
From S2P Require Import SkipList SkipListCorrect MemTable MemTableCorrect SharedMem DbState DbCore DbCoreCorrect Compact DbWrite DbWriteCorrect DbThreads DbIterator.
From Stdlib Require Import Sorting.Sorted.
From stdpp Require sorting.

(** ** What an action leaves alone *)

Section leaves.
Context {S B : Type} (v : S -> B).
Definition leaves {A} (m : action S A) : Prop := forall s, v (m s).2 = v s.
Lemma leaves_bind {A D} (m : action S A) (f : A -> action S D) : leaves m -> (forall a, leaves (f a)) -> leaves (m ≫= f).
Proof.
  intros Hm Hf s. unfold mbind, action_bind. specialize (Hm s). destruct (m s) as [[a|e|] s']; cbn in *; [|done..]. rewrite Hf. done.
Qed.
Lemma leaves_ret {A} (a : A) : leaves (mret a).
Proof. done. Qed.
Lemma leaves_lift {A} (m : outcome A) : leaves (lift m).
Proof. done. Qed.
Lemma leaves_for_each {A} (f : A -> action S unit) l : (forall a, leaves (f a)) -> leaves (for_each f l).
Proof. intros Hf. induction l as [|a l IH]; [apply leaves_ret|]. cbn [for_each]. by apply leaves_bind. Qed.
Lemma leaves_attempt {A} (m : action S A) : leaves m -> leaves (attempt m).
Proof. intros Hm s. unfold attempt. specialize (Hm s). by destruct (m s). Qed.
End leaves.
Create HintDb leaves.
#[export] Hint Resolve leaves_bind leaves_ret leaves_lift leaves_for_each leaves_attempt : leaves.

(** *** The last sequence number, and the version set *)

Section versions.
Context {C W : Type} `{HC : Comparator C} {E : Env W}.
Abbreviation set := (VersionSet.t C W) (only parsing).
Abbreviation steady := (leaves (fun s : set * W => VersionSet.last_sequence s.1)) (only parsing).
Import VersionSet.

Lemma steady_env {A} (m : action W A) : steady (VersionSet.on_env m).
Proof. intros s. unfold VersionSet.on_env. by destruct (m s.2). Qed.
Lemma steady_reads {A} (f : set -> A) : steady (VersionSet.reads f).
Proof. done. Qed.
Lemma steady_modify (f : set -> set) : (forall self, last_sequence (f self) = last_sequence self) -> steady (VersionSet.modify f).
Proof. intros Hf s. apply Hf. Qed.
Lemma steady_abandon b m : steady m -> steady (or_abandon b m).
Proof.
  intros Hm s. unfold or_abandon. specialize (Hm s). destruct (m s) as [[a|e|] s']; cbn in *; [done| |done]. by destruct b.
Qed.
Lemma steady_append e : steady (append_to_manifest e).
Proof.
  intros s. unfold append_to_manifest. destruct (manifest_log s.1), (manifest_file s.1); try done.
  by destruct (LogWriter.add_record_to _ _ _) as [? [? ?]].
Qed.
#[local] Hint Resolve steady_env steady_reads steady_abandon steady_append : leaves.
#[local] Hint Extern 1 (leaves _ (VersionSet.modify _)) => (apply steady_modify; intros; reflexivity) : leaves.
Lemma log_and_apply_steady e : steady (log_and_apply e).
Proof.
  unfold log_and_apply. apply leaves_bind; [apply steady_reads|]. intros self. apply leaves_bind; [apply leaves_lift|]. intros b.
  apply leaves_bind; [unfold apply_pointers; eauto 6 with leaves|]. intros _. apply leaves_bind; [apply leaves_lift|]. intros v.
  apply leaves_bind. { destruct (manifest_log self); [apply leaves_ret|]. unfold open_manifest. eauto 10 with leaves. }
  intros _. apply leaves_bind; [eauto with leaves|]. intros _. apply leaves_bind; [unfold sync_manifest; eauto 7 with leaves|]. intros _.
  apply leaves_bind; [|intros _; eauto with leaves]. destruct (manifest_log self); [apply leaves_ret|]. apply steady_abandon. unfold set_current_file_. eauto with leaves.
Qed.

Lemma setup_steady self level fs c self' : setup_other_inputs self level fs = Ret (c, self') -> last_sequence self' = last_sequence self.
Proof.
  unfold setup_other_inputs. intros Hr. repeat (match type of Hr with
    | mbind _ ?m = _ => destruct m as [?x|?|] eqn:?; cbn [mbind outcome_bind] in Hr; [|done..]
    | match ?x with pair _ _ => _ end = _ => destruct x
    end). by injection Hr as _ <-.
Qed.
Ltac split_run H := repeat (match type of H with
  | mbind _ ?m = _ => destruct m as [?|?|] eqn:?; cbn [mbind outcome_bind] in H; [|done..]
  | match ?x with pair _ _ => _ end = _ => destruct x eqn:?
  | (if ?b then _ else _) = _ => destruct b
  | match ?x with Some _ => _ | None => _ end = _ => destruct x
  | Ret _ = Ret _ => injection H as ? ?
  end); subst.
Lemma size_steady self r self' : pick_by_size self = Ret (r, self') -> last_sequence self' = last_sequence self.
Proof. unfold pick_by_size. intros Hr. cbn zeta in Hr. split_run Hr; try done; by eapply setup_steady. Qed.
Lemma pick_steady self r self' : pick_compaction self = Ret (r, self') -> last_sequence self' = last_sequence self.
Proof.
  unfold pick_compaction. intros Hr. destruct (Version.take_file_to_compact (current self)) as [[[[level n]|]|e|] v].
  2-4: apply size_steady in Hr; by rewrite Hr.
  cbn zeta in Hr. split_run Hr; first [by apply size_steady in Hr; rewrite Hr | by match goal with H : setup_other_inputs _ _ _ = _ |- _ => apply setup_steady in H; rewrite H end].
Qed.
End versions.

(** *** The queue, the log and the memtable *)

Section database.
Context {W C P Co K : Type} `{E : Env W} `{HC : Comparator C} `{HP : FilterPolicy P} `{HCo : Compressor Co} `{HK : Cache K Block}.
Abbreviation db := (DBImplCore.t W C P Co K) (only parsing).
Abbreviation M := (action (db * (W * K))) (only parsing).
Implicit Types self : db.
Import DBImplCore Core Write Compact.

(** What the write queue works on. *)
Record desk := mk_desk { d_writers : list PendingWriter; d_next_id : Z; d_log_writer : option LogWriter.t; d_log_file : option Writable;
  d_mem : nat; d_last : Z }.
Definition desk_of self : desk := mk_desk (writers self) (next_writer_id self) (log_writer self) (log_file self) (mem self) (last_sequence self).
Abbreviation quiet := (leaves (fun s : db * (W * K) => desk_of s.1)) (only parsing).

Lemma quiet_reads {A} (f : db -> A) : quiet (reads f).
Proof. done. Qed.
Lemma quiet_modify (f : db -> db) : (forall self, desk_of (f self) = desk_of self) -> quiet (modify f).
Proof. intros Hf s. apply Hf. Qed.
Lemma quiet_env {A} (m : action W A) : quiet (on_env m).
Proof. intros s. unfold on_env. by destruct (m s.2.1). Qed.
Lemma quiet_world {A} (m : action (W * K) A) : quiet (on_world m).
Proof. intros s. unfold on_world. by destruct (m s.2). Qed.
Lemma quiet_tables {A} m : quiet (on_tables m : M A).
Proof. intros s. unfold on_tables. by destruct (m _) as [? [? ?]]. Qed.
Lemma quiet_current {A} m : quiet (on_current m : M A).
Proof. intros s. unfold on_current. by destruct (m _) as [? ?]. Qed.
Lemma quiet_get {A} m : quiet (on_get m : M A).
Proof. intros s. unfold on_get. by destruct (m _) as [? [[? ?] ?]]. Qed.
Lemma quiet_versions {A} m : leaves (fun s => VersionSet.last_sequence s.1) m -> quiet (on_versions m : M A).
Proof.
  intros Hm s. unfold on_versions. specialize (Hm (version_set s.1, s.2.1)). destruct (m _) as [? [? ?]]. cbn in *.
  unfold desk_of, last_sequence. cbn. by rewrite Hm.
Qed.
Lemma quiet_number : quiet (new_file_number (E:=E)).
Proof. done. Qed.
Lemma quiet_handle {A B} (m : M A) (f : A -> M B) h : quiet m -> (forall a, quiet (f a)) -> (forall e, quiet (h e)) -> quiet (handle m f h).
Proof.
  intros Hm Hf Hh s. unfold handle. specialize (Hm s). destruct (m s) as [[a|e|] s']; cbn in *; rewrite ?Hf, ?Hh; done.
Qed.
#[local] Hint Resolve quiet_reads quiet_env quiet_world quiet_tables quiet_current quiet_get quiet_number : leaves.
#[local] Hint Extern 1 (leaves _ (modify _)) => (apply quiet_modify; intros; reflexivity) : leaves.
#[local] Hint Extern 1 (leaves _ (on_versions _)) => (apply quiet_versions, log_and_apply_steady) : leaves.

(** The background thread and readers leave the desk alone. *)
Lemma delete_logs_quiet : quiet (delete_obsolete_logs (E:=E)).
Proof.
  unfold delete_obsolete_logs, directory. repeat (apply leaves_bind; [eauto 6 with leaves|intros ?]); eauto with leaves.
  apply leaves_for_each. intros [[n []]|]; eauto with leaves. apply leaves_bind; [eauto with leaves|]. intros self.
  destruct (_ <? _); unfold remove; eauto with leaves.
Qed.
Lemma delete_table_quiet n : quiet (delete_table (E:=E) n).
Proof. unfold delete_table, remove. eauto 10 with leaves. Qed.
Lemma retire_quiet ns : quiet (retire_table_file_numbers (E:=E) ns).
Proof.
  unfold retire_table_file_numbers. case_bool_decide; [apply leaves_ret|]. apply leaves_bind; [eauto with leaves|]. intros self.
  destruct (_ =? _); unfold delete_table_file_numbers; eauto using delete_table_quiet with leaves.
Qed.
#[local] Hint Resolve delete_logs_quiet retire_quiet : leaves.
Lemma flush_begin_quiet : quiet (flush_begin (E:=E)).
Proof.
  unfold flush_begin. apply leaves_bind; [eauto with leaves|]. intros self. destruct (imm self); [|eauto with leaves].
  apply leaves_bind; [eauto with leaves|]. intros [|e es]; eauto 10 with leaves.
Qed.
Lemma add_stats_quiet l c : quiet (add_stats (E:=E) l c).
Proof. unfold add_stats. eauto 10 with leaves. Qed.
#[local] Hint Resolve add_stats_quiet : leaves.
Lemma flush_write_quiet j : quiet (flush_write (E:=E) j).
Proof. unfold flush_write. eauto with leaves. Qed.
Lemma flush_install_quiet j n t : quiet (flush_install (E:=E) j n t).
Proof. unfold flush_install. eauto 10 with leaves. Qed.
Lemma merge_entry_quiet c n e st : quiet (merge_entry (E:=E) c n e st).
Proof.
  assert (Hclose : forall st, quiet (close_output (E:=E) st)).
  { intros st0. unfold close_output. destruct (builder_ st0); eauto with leaves. }
  assert (Hopen : forall k st, quiet (open_output (E:=E) k st)).
  { intros k st0. unfold open_output. destruct (builder_ st0); eauto 10 with leaves. }
  unfold merge_entry. do 3 (apply leaves_bind; [eauto with leaves|]; intros ?). destruct a1; [eauto with leaves|].
  unfold write_entry. apply leaves_bind; [eauto with leaves|]. intros st1. apply leaves_bind; [eauto with leaves|]. intros b.
  apply leaves_bind; [eauto with leaves|]. intros [[] b1]. destruct (_ <=? _); eauto with leaves.
Qed.
Lemma merge_outputs_quiet c n es : quiet (merge_outputs (E:=E) c n es).
Proof.
  unfold merge_outputs. apply leaves_bind.
  { generalize (merging_start (E:=E) (C:=C) (P:=P) (Co:=Co)). induction es as [|e es IH]; intros st; [apply leaves_ret|].
    cbn [merge_loop]. apply leaves_bind; [apply merge_entry_quiet|apply IH]. }
  intros st. apply leaves_bind; [|eauto with leaves]. unfold close_output. destruct (builder_ st); eauto with leaves.
Qed.
Lemma compaction_quiet fuel c t : quiet (do_compaction_work (E:=E) fuel c t).
Proof.
  unfold do_compaction_work. destruct (Compaction.is_trivial_move c).
  { unfold trivial_move. eauto with leaves. }
  repeat (apply leaves_bind; [eauto using merge_outputs_quiet with leaves|]; intros ?). unfold compaction_install. eauto 10 with leaves.
Qed.
Lemma pick_compaction_quiet : quiet (pick_compaction (E:=E)).
Proof.
  intros s. unfold pick_compaction, on_pick. destruct (VersionSet.pick_compaction _) as [[c vs]|e|] eqn:Ep; [|done..].
  apply pick_steady in Ep. cbn. unfold desk_of, last_sequence. cbn. by rewrite Ep.
Qed.
Lemma get_quiet ro key : quiet (Write.get_with_options (E:=E) ro key).
Proof.
  intros s. unfold Write.get_with_options. destruct (bg_error s.1); [done|].
  assert (Hq : quiet (Core.get_with_options (E:=E) ro key)).
  { unfold Core.get_with_options. do 3 (apply leaves_bind; [eauto with leaves|]; intros ?). destruct a1; [eauto with leaves|].
    apply leaves_bind; [eauto with leaves|]. intros [r|]; eauto with leaves. }
  specialize (Hq s). destruct (Core.get_with_options _ _ _) as [r s']. cbn in *. by destruct (has_pending_seek_compaction _).
Qed.
End database.

(** ** What the sections of a writer do to it *)

Section writer.
Context {W C P Co K : Type} `{E : Env W} `{HC : Comparator C} `{HP : FilterPolicy P} `{HCo : Compressor Co} `{HK : Cache K Block}.
Context (arena : Z -> bytes).
Abbreviation db := (DBImplCore.t W C P Co K) (only parsing).
Abbreviation M := (action (db * (W * K))) (only parsing).
Abbreviation job := (Write.write_job (W:=W)) (only parsing).
Implicit Types self : db.
Import DBImplCore Core Write Compact.

Definition set_writers ws (d : desk (W:=W)) : desk := mk_desk ws (d_next_id d) (d_log_writer d) (d_log_file d) (d_mem d) (d_last d).
Definition logs_in_place (d : desk (W:=W)) : Prop := is_Some (d_log_writer d) /\ is_Some (d_log_file d).

Lemma enqueue_desk sync batch self id slot self' : enqueue sync batch self = (id, slot, self') ->
  id = next_writer_id self /\ (slot = None <-> is_front id self' = true) /\
  exists w, w_id w = id /\ desk_of self' = mk_desk (writers self ++ [w]) (as_u64 (id + 1)) (log_writer self) (log_file self) (mem self) (last_sequence self).
Proof.
  unfold enqueue. set (id0 := next_writer_id self). set (s1 := with_writers _ _). destruct (is_front id0 s1) eqn:Ef.
  - intros [= <- <- <-]. split_and!; [done|by rewrite Ef|]. by eexists (mk_writer id0 _ _ _).
  - intros [= <- <- <-]. split; [done|]. cbn [writers s1 with_writers]. unfold set_back_result. rewrite last_snoc, length_app. cbn [length].
    change (writers (with_next_writer_id (as_u64 (id0 + 1)) self)) with (writers self).
    rewrite Nat.add_sub, take_app_length. cbn [w_id w_batch w_sync]. split.
    + split; [done|]. intros Hf. unfold is_front in Ef, Hf. cbn in Ef, Hf. destruct (writers self); cbn in Ef, Hf; congruence.
    + by eexists (mk_writer id0 _ _ _).
Qed.

Lemma finish_desk n status : forall self self', finish_loop n status self = Ret self' ->
  desk_of self' = set_writers (drop n (writers self)) (desk_of self).
Proof.
  induction n as [|n IH]; intros self self'; cbn [finish_loop].
  - intros [= <-]. by destruct self.
  - destruct (writers self) as [|w ws] eqn:Ew; [done|]. intros H1. apply IH in H1. rewrite H1. by destruct (w_result w).
Qed.
Lemma finish_group_desk count status (s : db * (W * K)) u s' : finish_group count status s = (Ret u, s') ->
  desk_of s'.1 = set_writers (drop (Z.to_nat count) (writers s.1)) (desk_of s.1).
Proof.
  unfold finish_group, mbind, action_bind, reads, lift, modify, finish_writer_group. cbn [id fst snd].
  destruct (finish_loop _ _ _) as [self'|e|] eqn:Ef; [|done..]. intros [= _ <-]. by apply finish_desk in Ef.
Qed.
Lemma refuse_desk e (s : db * (W * K)) r s' : refuse e s = (Ret r, s') -> r = Refused (Fail e) /\ desk_of s'.1 = set_writers [] (desk_of s.1).
Proof.
  unfold refuse. rewrite (action_bind_ret _ _ _ (len (writers s.1)) s) by done. unfold mbind, action_bind.
  destruct (finish_group _ _ s) as [[u|?|] s1] eqn:Ef; [|done..]. intros [= <- <-]. split; [done|].
  apply finish_group_desk in Ef. unfold len in Ef. rewrite Nat2Z.id, drop_all in Ef. exact Ef.
Qed.

(** Rotation: a new log and a new memtable, or nothing on the desk. *)
Lemma rotate_desk (s : db * (W * K)) r s' : rotate (E:=E) s = (r, s') ->
  match r with
  | Ret _ => exists lw lf m, desk_of s'.1 = mk_desk (writers s.1) (next_writer_id s.1) (Some lw) (Some lf) m (last_sequence s.1)
  | _ => desk_of s'.1 = desk_of s.1
  end.
Proof.
  unfold rotate, switch_active_log, open_log_file, switch_memtable. unfold mbind, action_bind, reads, on_env, new_file_number, modify.
  destruct (VersionSet.new_file_number (version_set s.1)) as [n vs] eqn:En.
  assert (Hl : VersionSet.last_sequence vs = VersionSet.last_sequence (version_set s.1)) by (unfold VersionSet.new_file_number in En; by injection En as _ <-).
  assert (Hd : desk_of (with_version_set vs s.1) = desk_of s.1) by (unfold desk_of, last_sequence; cbn; by rewrite Hl).
  cbn [fst snd id]. destruct (new_writable_file _ s.2.1) as [[f|e|] w1]; cbn [fst snd]; [|by intros [= <- <-]..].
  cbn [log_file with_version_set]. destruct (log_file s.1) as [f0|].
  - cbn [fst snd]. destruct (w_close f0 w1) as [[f1|e|] w2]; cbn [fst snd mret action_ret]; [|by intros [= <- <-]..].
    intros [= <- <-]. cbn. eexists _, _, _. unfold desk_of, last_sequence. cbn. by rewrite Hl.
  - cbn [fst snd mret action_ret]. intros [= <- <-]. cbn. eexists _, _, _. unfold desk_of, last_sequence. cbn. by rewrite Hl.
Qed.
Lemma make_room_desk allow (s : db * (W * K)) r s' : make_room (E:=E) allow s = (Ret r, s') ->
  match r with
  | Refused _ => desk_of s'.1 = set_writers [] (desk_of s.1)
  | HasRoom => desk_of s'.1 = desk_of s.1 \/
      exists lw lf m, desk_of s'.1 = mk_desk (writers s.1) (next_writer_id s.1) (Some lw) (Some lf) m (last_sequence s.1)
  | _ => s' = s
  end.
Proof.
  unfold make_room. erewrite action_bind_ret by reflexivity. cbn [id fst]. destruct (bg_error s.1) as [e|].
  { intros [-> Hd]%refuse_desk. done. }
  intros Hr. apply bind_ret_inv in Hr as (slow & s1 & Es & Hr).
  assert (s1 = s) as ->.
  { destruct allow; [|by injection Es]. apply bind_ret_inv in Es as (n & s2 & E1 & E2). unfold lift in E1. injection E1 as _ <-. by injection E2. }
  destruct slow; [by injection Hr as <- <-|]. destruct (_ <=? _); [injection Hr as <- <-; by left|].
  destruct (is_some (imm s.1)); [by injection Hr as <- <-|]. apply bind_ret_inv in Hr as (n & s1 & En & Hr). unfold lift in En. injection En as _ <-.
  destruct (_ <=? n); [by injection Hr as <- <-|]. unfold handle in Hr. destruct (rotate s) as [[[]|e|] s1] eqn:Ero; [|..|done].
  - injection Hr as <- <-. right. by apply (rotate_desk _ _ _) in Ero.
  - apply (rotate_desk _ _ _) in Ero. cbn in Ero. apply refuse_desk in Hr as [-> Hd]. by rewrite Hd, Ero.
Qed.

Lemma take_group_desk (s : db * (W * K)) j s' : take_group (E:=E) s = (Ret j, s') ->
  jb_mem j = mem s.1 /\ jb_sequence j = as_u64 (last_sequence s.1 + 1) /\ exists ws, map w_id ws = map w_id (writers s.1) /\ ws <> [] /\
    desk_of s'.1 = mk_desk ws (next_writer_id s.1) None None (mem s.1) (last_sequence s.1).
Proof.
  unfold take_group. erewrite action_bind_ret by reflexivity. cbn [id]. intros Hr. apply bind_ret_inv in Hr as ([[[u n] sy] self] & s1 & Eb & Hr).
  unfold lift in Eb. injection Eb as Eb <-. cbn [fst] in Eb. unfold build_batch_group in Eb. destruct (writers s.1) as [|w ws] eqn:Ew; [done|].
  destruct (expect (w_batch w)) as [b|?|]; cbn [mbind outcome_bind] in Eb; [|done..].
  destruct (group_loop _ _ _ _ _ _) as [[u' n']|?|]; cbn [mbind outcome_bind] in Eb; [|done..]. injection Eb as <- <- <- <-.
  apply bind_ret_inv in Hr as (cnt & s1 & E1 & Hr). unfold lift in E1. injection E1 as _ <-.
  apply bind_ret_inv in Hr as (lw & s1 & E1 & Hr). unfold lift in E1. injection E1 as _ <-.
  apply bind_ret_inv in Hr as (lf & s1 & E1 & Hr). unfold lift in E1. injection E1 as _ <-.
  unfold mbind, action_bind, modify in Hr. injection Hr as <- <-. split_and!; [done|done|]. by eexists (mk_writer _ _ _ _ :: ws).
Qed.
Lemma append_log_quiet j (s : db * (W * K)) : desk_of (append_log (E:=E) j s).2.1 = desk_of s.1.
Proof.
  unfold append_log. destruct (slice_from _ _); [|done..]. destruct (LogWriter.add_record_pair_to _ _ _ _) as [[u|e|] [lw w]]; [|done..].
  destruct (jb_sync j); [|done]. destruct (Env.w_sync _ _) as [[|?|] ?]; done.
Qed.
Lemma insert_group_quiet j status (s : db * (W * K)) : desk_of (insert_group (E:=E) arena j status s).2.1 = desk_of s.1.
Proof.
  unfold insert_group. destruct status; [|done..]. unfold mbind, action_bind, reads, lift, modify. cbn [fst snd].
  by destruct (insert_batch _ _ _ _) as [[[i h] st]|?|].
Qed.
Lemma commit_desk j ap status added (s : db * (W * K)) u s' : commit (E:=E) j ap status added s = (Ret u, s') ->
  exists last, desk_of s'.1 = mk_desk (drop (Z.to_nat (jb_writer_count j)) (writers s.1)) (next_writer_id s.1) (Some (ap_log_writer ap))
    (Some (jb_log_file j)) (mem s.1) last.
Proof.
  unfold commit. do 2 (erewrite action_bind_ret by reflexivity). destruct status as [[]|e|].
  2: destruct (ap_sync_error ap).
  all: (erewrite action_bind_ret by reflexivity); intros Hd%finish_group_desk; rewrite Hd; by eexists.
Qed.
End writer.

(** ** The invariant *)

Section invariant.
Context {W C P Co K : Type} `{E : Env W} `{HC : Comparator C} `{HP : FilterPolicy P} `{HCo : Compressor Co} `{HK : Cache K Block}.
Context (arena : Z -> bytes) (fuel : nat) (micros : Z).
Import Threads Write.
Abbreviation thread := (Threads.thread (W:=W) (C:=C)) (only parsing).
Abbreviation system := (Threads.system (W:=W) (C:=C) (P:=P) (Co:=Co) (K:=K)) (only parsing).
Abbreviation job := (Write.write_job (W:=W)) (only parsing).
Implicit Types (t : thread) (ts : gmap nat thread) (d : desk (W:=W)).

Definition job_of t : option job :=
  match t with Appending j | Inserting j _ | Committing j _ _ _ => Some j | _ => None end.
Definition leads t : bool := match t with Leading _ => true | t => is_some (job_of t) end.
Definition follows t : option Z := match t with Following id _ => Some id | _ => None end.
Definition flushes t : bool := match t with Flushing _ | Flushed _ => true | _ => false end.

Record in_turn d ts : Prop := {
  it_flush i t : ts !! i = Some t -> flushes t = false;
  it_one i j ti tj : ts !! i = Some ti -> ts !! j = Some tj -> leads ti = true -> leads tj = true -> i = j;
  it_sorted : StronglySorted Z.lt (map w_id (d_writers d));
  it_bound : Forall (fun id => 0 <= id < d_next_id d) (map w_id (d_writers d));
  it_next : 0 <= d_next_id d;
  it_follow i t id : ts !! i = Some t -> follows t = Some id -> id < d_next_id d;
  it_distinct i j ti tj id : ts !! i = Some ti -> ts !! j = Some tj -> follows ti = Some id -> follows tj = Some id -> i = j;
  it_front i t : ts !! i = Some t -> leads t = true ->
    exists id rest, map w_id (d_writers d) = id :: rest /\ forall j tj, ts !! j = Some tj -> follows tj <> Some id;
  it_log : (forall i t, ts !! i = Some t -> job_of t = None) -> logs_in_place d;
  it_job i t j : ts !! i = Some t -> job_of t = Some j ->
    d_log_writer d = None /\ d_log_file d = None /\ jb_mem j = d_mem d /\ jb_sequence j = as_u64 (d_last d + 1);
}.

Ltac other := repeat match goal with
  | H : <[?i := _]> _ !! ?k = Some _ |- _ => apply lookup_insert_Some in H as [[<- <-]|[? H]]
  end.

(** A section that leaves the desk, the lead, the place in the queue and the log as they are. *)
Lemma move d ts i t t' : in_turn d ts -> ts !! i = Some t -> flushes t' = false -> (leads t' = true -> leads t = true) ->
  (forall id, follows t' = Some id -> follows t = Some id) -> job_of t' = job_of t -> in_turn d (<[i := t']> ts).
Proof.
  intros [I1 I2 I3 I4 I5 I6 I7 I8 I9 I10] Hi Hf Hl Hfo Hj. split; try done.
  - intros k x Hk. other; [done|by eapply I1].
  - intros k l x y Hk Hl' Lx Ly. other; eauto.
  - intros k x id Hk Hx. other; eauto.
  - intros k l x y id Hk Hl' Lx Ly. other; eauto.
  - intros k x Hk Lx. assert (exists z, ts !! k = Some z /\ leads z = true) as (z & Hz & Lz).
    { other; [exists t|exists x]; eauto. }
    destruct (I8 k z Hz Lz) as (id & rest & E1 & Hno). exists id, rest. split; [done|]. intros l y Hy.
    apply lookup_insert_Some in Hy as [[<- <-]|[_ Hy]]; [|by apply (Hno l)]. intros Hy'%Hfo. by apply (Hno i t Hi).
  - intros Hall. apply I9. intros k x Hk. destruct (decide (k = i)) as [->|Hne].
    + rewrite Hi in Hk. injection Hk as <-. rewrite <- Hj. apply (Hall i). apply lookup_insert_eq.
    + apply (Hall k). by rewrite lookup_insert_ne.
  - intros k x j Hk Hx. other; [rewrite Hj in Hx|]; eauto.
Qed.

Lemma no_job t : leads t = false -> job_of t = None.
Proof. destruct t; cbn; done. Qed.
(** The leader goes on, or leaves with part of the queue. *)
Lemma lead_on d d' ts i t t' n : in_turn d ts -> ts !! i = Some t -> leads t = true -> flushes t' = false -> follows t' = None ->
  map w_id (d_writers d') = drop n (map w_id (d_writers d)) -> (leads t' = true -> n = 0%nat) -> d_next_id d' = d_next_id d ->
  match job_of t' with
  | Some j => d_log_writer d' = None /\ d_log_file d' = None /\ jb_mem j = d_mem d' /\ jb_sequence j = as_u64 (d_last d' + 1)
  | None => logs_in_place d' \/ (job_of t = None /\ d_log_writer d' = d_log_writer d /\ d_log_file d' = d_log_file d)
  end -> in_turn d' (<[i := t']> ts).
Proof.
  intros [I1 I2 I3 I4 I5 I6 I7 I8 I9 I10] Hi Hl Hf Hfo Hw Hn Hid Hlog.
  assert (Hothers : forall k x, i <> k -> ts !! k = Some x -> leads x = false).
  { intros k x Hne Hk. destruct (leads x) eqn:El; [|done]. destruct Hne. by eapply I2. }
  rewrite <- (take_drop n (map w_id (d_writers d))) in I3, I4. rewrite <- Hw in I3, I4.
  split.
  - intros k x Hk. other; [done|by eapply I1].
  - intros k l x y Hk Hl' Lx Ly. other; try done; exfalso; match goal with
    | H : _ ≠ ?k, Hk : ts !! ?k = Some ?x, Lx : leads ?x = true |- _ => by rewrite (Hothers k x H Hk) in Lx end.
  - by apply sorting.StronglySorted_app_1_r in I3.
  - rewrite Hid. by apply Forall_app in I4 as [_ I4].
  - by rewrite Hid.
  - intros k x id Hk Hx. rewrite Hid. other; [by rewrite Hfo in Hx|by eapply I6].
  - intros k l x y id Hk Hl' Lx Ly. other; rewrite ?Hfo in *; try done. by eapply I7.
  - intros k x Hk Lx. other; [|by rewrite (Hothers k x) in Lx]. rewrite (Hn Lx), drop_0 in Hw.
    destruct (I8 i t Hi Hl) as (id & rest & E1 & Hno). exists id, rest. split; [by rewrite Hw|]. intros l y Hy.
    apply lookup_insert_Some in Hy as [[<- <-]|[_ Hy]]; [by rewrite Hfo|by apply (Hno l)].
  - intros Hall. assert (Hj : job_of t' = None) by (apply (Hall i); apply lookup_insert_eq). rewrite Hj in Hlog.
    destruct Hlog as [Hlog|(Hj' & E1 & E2)]; [done|]. unfold logs_in_place. rewrite E1, E2. apply I9. intros k x Hk.
    destruct (decide (i = k)) as [<-|Hne]; [rewrite Hi in Hk; by injection Hk as <-|by apply no_job, (Hothers k x)].
  - intros k x j Hk Hx. other; [by rewrite Hx in Hlog|]. rewrite (no_job x) in Hx; [done|by apply (Hothers k)].
Qed.
(** A new writer joins the queue, and leads when it was empty. *)
Lemma join d ts i t t' w id : in_turn d ts -> ts !! i = Some t -> leads t = false -> id = d_next_id d -> w_id w = id -> id + 1 < 2 ^ 64 ->
  (exists slot, t' = Following id slot /\ d_writers d <> []) \/ (t' = Leading true /\ d_writers d = []) ->
  in_turn (mk_desk (d_writers d ++ [w]) (as_u64 (id + 1)) (d_log_writer d) (d_log_file d) (d_mem d) (d_last d)) (<[i := t']> ts).
Proof.
  intros [I1 I2 I3 I4 I5 I6 I7 I8 I9 I10] Hi Hl Hid Hw H64 Hcase. rewrite as_u64_id by (unfold is_u64; lia).
  assert (Hf : flushes t' = false /\ job_of t' = None) by (by destruct Hcase as [(slot & -> & _)|[-> _]]). destruct Hf as [Hf Hj].
  assert (Hids : map w_id (d_writers d ++ [w]) = map w_id (d_writers d) ++ [id]) by (rewrite map_app; cbn; by rewrite Hw).
  assert (Hnone : d_writers d = [] -> forall k x, ts !! k = Some x -> leads x = false).
  { intros Hnil k x Hk. destruct (leads x) eqn:El; [|done]. destruct (I8 k x Hk El) as (a & r & E1 & _). by rewrite Hnil in E1. }
  split; cbn [d_writers d_next_id d_log_writer d_log_file d_mem d_last]; rewrite ?Hids.
  - intros k x Hk. other; [done|by eapply I1].
  - intros k l x y Hk Hl' Lx Ly. destruct Hcase as [(slot & -> & _)|[-> Hnil]].
    + other; try done. by eapply I2.
    + other; try done; exfalso; match goal with
      | Hk : ts !! ?k = Some ?x, Lx : leads ?x = true |- _ => by rewrite (Hnone Hnil k x Hk) in Lx end.
  - apply sorting.StronglySorted_app_2; [|done|by repeat constructor]. intros a b Ha Hb. apply list_elem_of_singleton in Hb as ->.
    rewrite Forall_forall in I4. specialize (I4 a Ha). lia.
  - apply Forall_app. split; [|constructor; [lia|constructor]]. apply (Forall_impl _ _ _ I4). intros a Ha. lia.
  - lia.
  - intros k x a Hk Hx. other; [|specialize (I6 k x a Hk Hx); lia]. destruct Hcase as [(slot & -> & _)|[-> _]]; cbn in Hx; [|done]. injection Hx as <-. lia.
  - intros k l x y a Hk Hl' Lx Ly.
    assert (Hnew : forall q z, ts !! q = Some z -> follows z = Some a -> follows t' = Some a -> False).
    { intros q z Hq Hz Ht'. specialize (I6 q z a Hq Hz). destruct Hcase as [(slot & -> & _)|[-> _]]; [|done]. injection Ht' as <-. lia. }
    other; try done; first [by eapply I7 | exfalso; by eapply Hnew].
  - intros k x Hk Lx. destruct Hcase as [(slot & -> & Hne)|[-> Hnil]].
    + other; [done|]. destruct (I8 k x Hk Lx) as (a & rest & E1 & Hno). rewrite E1. exists a, (rest ++ [id]). split; [done|].
      intros l y Hy. apply lookup_insert_Some in Hy as [[<- <-]|[_ Hy]]; [|by apply (Hno l)]. cbn. intros [= <-].
      rewrite E1 in I4. apply Forall_cons in I4 as [I4 _]. lia.
    + rewrite Hnil. exists id, []. split; [done|]. intros l y Hy. apply lookup_insert_Some in Hy as [[<- <-]|[_ Hy]]; [done|].
      intros Hy'. specialize (I6 l y id Hy Hy'). lia.
  - intros Hall. apply I9. intros k x Hk. destruct (decide (i = k)) as [<-|Hne].
    + rewrite Hi in Hk. injection Hk as <-. by apply no_job.
    + apply (Hall k). by rewrite lookup_insert_ne.
  - intros k x j Hk Hx. other; [by rewrite Hj in Hx|by eapply I10].
Qed.
(** The follower at the front takes the lead. *)
Lemma take_lead d ts i id slot : in_turn d ts -> ts !! i = Some (Following id slot) -> head (map w_id (d_writers d)) = Some id ->
  in_turn d (<[i := Leading true]> ts).
Proof.
  intros [I1 I2 I3 I4 I5 I6 I7 I8 I9 I10] Hi Hh.
  assert (Hnone : forall k x, ts !! k = Some x -> leads x = false).
  { intros k x Hk. destruct (leads x) eqn:El; [|done]. destruct (I8 k x Hk El) as (a & r & E1 & Hno). rewrite E1 in Hh. injection Hh as ->. by destruct (Hno i _ Hi). }
  split; try done.
  - intros k x Hk. other; [done|by eapply I1].
  - intros k l x y Hk Hl' Lx Ly. other; try done; exfalso; match goal with
    | Hk : ts !! ?k = Some ?x, Lx : leads ?x = true |- _ => by rewrite (Hnone k x Hk) in Lx end.
  - intros k x a Hk Hx. other; [done|by eapply I6].
  - intros k l x y a Hk Hl' Lx Ly. other; try done. by eapply I7.
  - intros k x Hk Lx. other; [|by rewrite (Hnone k x) in Lx]. destruct (map w_id (d_writers d)) as [|a rest]; [done|]. injection Hh as ->.
    exists id, rest. split; [done|]. intros l y Hy. apply lookup_insert_Some in Hy as [[<- <-]|[Hne Hy]]; [done|].
    intros Hy'. destruct Hne. by eapply (I7 i l).
  - intros Hall. apply I9. intros k x Hk. by apply no_job, (Hnone k).
  - intros k x j Hk Hx. other; [done|by eapply I10].
Qed.

(** Threads off the write path. *)
Definition aside t : Prop := leads t = false /\ follows t = None /\ job_of t = None /\ flushes t = false.
Lemma aside_move d ts i t t' : in_turn d ts -> ts !! i = Some t -> leads t = false -> job_of t = None -> aside t' -> in_turn d (<[i := t']> ts).
Proof. intros Hd Hi Hl Hj (H1 & H2 & H3 & H4). by apply (move d ts i t t'); rewrite ?H1, ?H2, ?H3, ?H4. Qed.
Lemma go_aside {A} (m : action _ A) (f : outcome A -> thread) d ts i t t' s s' :
  leaves (fun s : DBImplCore.t W C P Co K * (W * K) => desk_of s.1) m -> (forall r, aside (f r)) ->
  in_turn d ts -> d = desk_of s.1 -> ts !! i = Some t -> leads t = false -> job_of t = None ->
  go m f s = (Ret (Some t'), s') -> in_turn (desk_of s'.1) (<[i := t']> ts).
Proof.
  intros Hm Hf Hd -> Hi Hl Hj Hg. unfold go in Hg. specialize (Hm s). destruct (m s) as [[a|e|] s1]; [..|done].
  all: cbn in Hm; injection Hg as <- <-; rewrite Hm; by eapply aside_move.
Qed.

Lemma writing_ok sync batch s i t' s' ts : in_turn (desk_of s.1) ts -> ts !! i = Some (Writing sync batch) -> DBImplCore.next_writer_id s.1 + 1 < 2 ^ 64 ->
  section (P:=P) (Co:=Co) (K:=K) arena fuel micros (Writing sync batch) s = (Ret (Some t'), s') -> in_turn (desk_of s'.1) (<[i := t']> ts).
Proof.
  intros Hd Hi H64. cbn [section]. destruct (enqueue sync batch s.1) as [[id slot] self] eqn:Ee. intros [= <- <-].
  apply enqueue_desk in Ee as (Eid & Hslot & w & Hw & Ed). cbn [fst]. rewrite Ed. eapply (join (desk_of s.1)); try done; [by rewrite Eid|].
  assert (Hne : is_front id self = true <-> DBImplCore.writers s.1 = []).
  { unfold is_front. apply (f_equal d_writers) in Ed. cbn in Ed. rewrite Ed. pose proof (it_bound _ _ Hd) as Hb. cbn in Hb.
    destruct (DBImplCore.writers s.1) as [|w0 ws]; cbn; [by rewrite Hw, Z.eqb_refl|]. cbn in Hb. apply Forall_cons in Hb as [Hb _].
    split; [|done]. intros ?%Z.eqb_eq. lia. }
  destruct slot as [slot|].
  - left. exists slot. split; [done|]. cbn. intros Hnil. apply Hne, Hslot in Hnil. done.
  - right. split; [done|]. by apply Hne, Hslot.
Qed.
Lemma leading_ok allow s i t' s' ts : in_turn (desk_of s.1) ts -> ts !! i = Some (Leading allow) ->
  section (P:=P) (Co:=Co) (K:=K) arena fuel micros (Leading allow) s = (Ret (Some t'), s') -> in_turn (desk_of s'.1) (<[i := t']> ts).
Proof.
  intros Hd Hi. cbn [section]. destruct (make_room allow s) as [[[r| | |]|e|] s1] eqn:Er; try done.
  - intros [= <- <-]. apply make_room_desk in Er. cbn in Er. rewrite Er. eapply (lead_on _ _ _ _ _ _ (length (DBImplCore.writers s.1)) Hd Hi); try done.
    + cbn. by rewrite <- (length_map w_id), drop_all.
    + right. done.
  - intros [= <- <-]. apply make_room_desk in Er as ->. by eapply move.
  - apply make_room_desk in Er. destruct (take_group s1) as [[j|e|] s2] eqn:Et; [|done..]. intros [= <- <-].
    apply take_group_desk in Et as (E1 & E2 & ws & E3 & E4 & Ed). rewrite Ed.
    assert (Hsame : DBImplCore.writers s1.1 = DBImplCore.writers s.1 /\ DBImplCore.next_writer_id s1.1 = DBImplCore.next_writer_id s.1).
    { destruct Er as [Er|(lw & lf & m & Er)]; split; first [by apply (f_equal d_writers) in Er | by apply (f_equal d_next_id) in Er]. }
    destruct Hsame as [S1 S2]. apply (lead_on _ _ _ _ _ _ 0 Hd Hi); try done.
    cbn. by rewrite E3, S1.
Qed.
Lemma section_ok t s i t' s' ts : in_turn (desk_of s.1) ts -> ts !! i = Some t -> DBImplCore.next_writer_id s.1 + 1 < 2 ^ 64 ->
  section (P:=P) (Co:=Co) (K:=K) arena fuel micros t s = (Ret (Some t'), s') -> in_turn (desk_of s'.1) (<[i := t']> ts).
Proof.
  intros Hd Hi H64 Hs. assert (Hfl : flushes t = false) by by eapply it_flush.
  destruct t as [sync batch|id slot|allow|j|j ap|j ap status added|at_|ro key| | |j|j n| |c|r| | | |]; try done.
  - by eapply writing_ok.
  - cbn [section] in Hs. destruct (follow id slot s.1) eqn:Ef; try done; injection Hs as <- <-.
    + unfold follow in Ef. destruct (is_front id s.1) eqn:Efr; [|by destruct (_ !! slot) as [[?|]|]].
      apply (take_lead _ _ _ id slot Hd Hi). unfold is_front in Efr. cbn. destruct (DBImplCore.writers s.1) as [|w ws]; [done|].
      cbn in *. apply Z.eqb_eq in Efr. by rewrite Efr.
    + by eapply aside_move.
  - by eapply leading_ok.
  - cbn [section] in Hs. pose proof (append_log_quiet j s) as Hq. destruct (append_log j s) as [[ap|e|] s1]; [|done..]. injection Hs as <- <-.
    cbn in Hq. rewrite Hq. by eapply move.
  - cbn [section] in Hs. pose proof (insert_group_quiet arena j (ap_status ap) s) as Hq. destruct (insert_group _ _ _ s) as [[x|e|] s1]; [|done..]. injection Hs as <- <-.
    cbn in Hq. rewrite Hq. by eapply move.
  - cbn [section] in Hs. destruct (commit j ap status added s) as [[u|e|] s1] eqn:Ec; [|done..]. injection Hs as <- <-.
    apply commit_desk in Ec as (last & Ed). rewrite Ed. apply (lead_on _ _ _ _ _ _ (Z.to_nat (jb_writer_count j)) Hd Hi); try done.
    + cbn. by rewrite fmap_drop.
    + left. by split; eexists.
  - cbn [section] in Hs. eapply go_aside; [apply get_quiet| |exact Hd|done|exact Hi|done|done|exact Hs]. done.
  - cbn [section] in Hs. destruct (Compact.bg_parks s.1); [done|]. destruct (Compact.bg_wake s.1) as [work self] eqn:Ew. injection Hs as <- <-.
    assert (Hq : desk_of self = desk_of s.1).
    { unfold Compact.bg_wake in Ew. destruct (DBImplCore.shutting_down _); [by injection Ew as _ <-|]. destruct (is_some _); by injection Ew as _ <-. }
    cbn [fst]. rewrite Hq. eapply aside_move; try done. by destruct work as [[]|].
  - cbn [section] in Hs. destruct (is_some (DBImplCore.imm s.1)); [|injection Hs as <- <-; by eapply aside_move].
    eapply go_aside; [apply flush_begin_quiet| |exact Hd|done|exact Hi|done|done|exact Hs]. by intros [[]| |].
  - cbn [section] in Hs. eapply go_aside; [apply flush_write_quiet| |exact Hd|done|exact Hi|done|done|exact Hs]. by intros [].
  - cbn [section] in Hs. eapply go_aside; [apply flush_install_quiet| |exact Hd|done|exact Hi|done|done|exact Hs]. by intros [].
  - cbn [section] in Hs. eapply go_aside; [apply pick_compaction_quiet| |exact Hd|done|exact Hi|done|done|exact Hs]. by intros [[]| |].
  - cbn [section] in Hs. eapply go_aside; [apply compaction_quiet| |exact Hd|done|exact Hi|done|done|exact Hs]. by intros [].
  - cbn [section] in Hs. injection Hs as <- <-. cbn [fst].
    assert (Hq : desk_of (Compact.bg_done r s.1) = desk_of s.1) by (unfold Compact.bg_done; by destruct r). rewrite Hq. by eapply aside_move.
Qed.

(** *** Reachable states *)

(** An open database nobody has called yet. *)
Definition at_rest (sys : system) : Prop :=
  DBImplCore.writers (world sys).1 = [] /\ 0 <= DBImplCore.next_writer_id (world sys).1 /\ logs_in_place (desk_of (world sys).1) /\
  forall i t, threads sys !! i = Some t -> t = Resting.
Definition flush_free (sys : system) : Prop := forall i t, threads sys !! i = Some t -> flushes t = false.

Lemma at_rest_in_turn sys : at_rest sys -> in_turn (desk_of (world sys).1) (threads sys).
Proof.
  intros (H1 & H2 & H3 & H4). split; cbn; rewrite ?H1; try done;
    intros *; intros; repeat match goal with H : threads sys !! _ = Some _ |- _ => apply H4 in H; subst end; by try constructor.
Qed.
Lemma flush_stays sys sys' : step arena fuel micros sys sys' -> flush_free sys' -> flush_free sys.
Proof.
  intros Hs Hf i t Hi. destruct Hs as [s ts k x Hn _|s s' ts k x x' Hk _ Hsec].
  - apply (Hf i). cbn. rewrite lookup_insert_ne; [done|]. intros ->. cbn in Hi. congruence.
  - cbn in Hi. destruct (decide (k = i)) as [->|Hne]; [|apply (Hf i); cbn; by rewrite lookup_insert_ne].
    rewrite Hk in Hi. injection Hi as ->. pose proof (Hf i x' ltac:(cbn; apply lookup_insert_eq)) as Hx.
    destruct t; try done. cbn [section] in Hsec. destruct (force_flush at_ s) as [[[|]|e|] s1]; try done; by injection Hsec as <- _.
Qed.
Lemma step_in_turn sys sys' : step arena fuel micros sys sys' -> flush_free sys' -> in_turn (desk_of (world sys).1) (threads sys) ->
  in_turn (desk_of (world sys').1) (threads sys').
Proof.
  intros Hs Hf Hd. destruct Hs as [s ts k x Hn Hst|s s' ts k x x' Hk H64 Hsec]; cbn in *; [|by eapply section_ok].
  assert (Hx : aside x).
  { destruct x; try done. specialize (Hf k _ ltac:(cbn; apply lookup_insert_eq)). done. }
  destruct Hx as (X1 & X2 & X3 & X4). destruct Hd as [I1 I2 I3 I4 I5 I6 I7 I8 I9 I10]. split; try done.
  - intros i j ti tj Hi Hj Li Lj. other; try congruence. by eapply I2.
  - intros i t id Hi Hid. other; [congruence|by eapply I6].
  - intros i j ti tj id Hi Hj Li Lj. other; try congruence. by eapply I7.
  - intros i t Hi Li. other; [congruence|]. destruct (I8 i t Hi Li) as (id & rest & E1 & Hno). exists id, rest. split; [done|].
    intros l y Hy. apply lookup_insert_Some in Hy as [[<- <-]|[_ Hy]]; [by rewrite X2|by apply (Hno l)].
  - intros Hall. apply I9. intros i t Hi. apply (Hall i). rewrite lookup_insert_ne; [done|]. intros ->. congruence.
  - intros i t j Hi Hj. other; [congruence|by eapply I10].
Qed.
Lemma steps_in_turn sys sys' : steps arena fuel micros sys sys' -> flush_free sys' -> at_rest sys ->
  in_turn (desk_of (world sys').1) (threads sys').
Proof.
  intros Hs Hf Hr. revert Hf. apply at_rest_in_turn in Hr. revert Hr. induction Hs as [sys|a b c Hab Hbc IH]; intros Hr Hf; [done|].
  assert (Hb : flush_free b).
  { clear -Hbc Hf. revert Hf. induction Hbc as [|x y z Hxy Hyz IH]; [done|]. intros Hf. eapply flush_stays; [exact Hxy|]. by apply IH. }
  apply IH; [|done]. by eapply step_in_turn.
Qed.
End invariant.

(** ** Sample: an empty database in memory *)

Definition idle_world : sample_db_type * (MemEnv * ShardedLRUCache.t Block) :=
  (sample_db (MemTable.new Bytewise) (Version.new (mk_icmp Bytewise)) 0,
   (snd (Mem.new_writable_file (path_new (log_file_name "db" 2)) Mem.new), ShardedLRUCache.new (V:=Block) 100)).
Abbreviation mem_thread := (Threads.thread (W:=MemEnv) (E:=MemEnv_Env) (C:=BytewiseComparator)) (only parsing).
Definition idle_system : Threads.system (E:=MemEnv_Env) := Threads.mk_system idle_world {[ 0%nat := Threads.Resting ]}.
Definition put_thread (k v : string) : mem_thread := Threads.Writing false (sample_batch [sample_put k v]).
Definition get_thread (k : string) : mem_thread := Threads.Reading ReadOptions_default (list_byte_of_string k).
Abbreviation turns := (map Threads.Turn) (only parsing).
Abbreviation runs := (Threads.run zeroed 10 0) (only parsing).
Lemma idle_at_rest : at_rest idle_system.
Proof.
  split; [done|]. split; [by vm_compute|]. split; [split; by eexists|]. intros i t Hi. unfold idle_system in Hi. cbn [Threads.threads] in Hi.
  apply lookup_singleton_Some in Hi as [_ <-]. done.
Qed.

(** Two writers meet: the second follows the first, and their batches are committed in turn. *)
Definition meeting : list (Threads.event (W:=MemEnv) (E:=MemEnv_Env) (C:=BytewiseComparator)) :=
  [Threads.Call 1 (put_thread "a" "1"); Threads.Call 2 (put_thread "b" "2")] ++ turns [1; 2; 1; 1]%nat.
(** A flush waits for another; a writer takes its memtable between the two; the second flush
    rotates that memtable away, and the background thread drops it, still empty, before the
    writer inserts.  The events before the writer calls, and those until it has returned. *)
Definition racing_before (second_flush : bool) : list (Threads.event (W:=MemEnv) (E:=MemEnv_Env) (C:=BytewiseComparator)) :=
  Threads.Call 1 (put_thread "a" "1") :: turns [1; 1; 1; 1; 1]%nat ++
  [Threads.Call 2 (Threads.Flushing Write.AtWriters)] ++ turns [2]%nat ++
  (if second_flush then [Threads.Call 3 (Threads.Flushing Write.AtWriters); Threads.Turn 3] else []) ++
  turns [0; 0; 0; 0; 2]%nat.
Definition racing_after (second_flush : bool) : list (Threads.event (W:=MemEnv) (E:=MemEnv_Env) (C:=BytewiseComparator)) :=
  turns [4; 4]%nat ++ (if second_flush then [Threads.Turn 3] else []) ++ turns [0; 0]%nat ++
  (if second_flush then turns [0; 0; 0]%nat else []) ++
  turns [4; 4; 4]%nat ++ (if second_flush then [Threads.Turn 3] else []).
(** The calls of a schedule. *)
Definition calls (schedule : list (Threads.event (W:=MemEnv) (E:=MemEnv_Env) (C:=BytewiseComparator))) : list mem_thread :=
  omap (fun e => match e with Threads.Call _ t => Some t | Threads.Turn _ => None end) schedule.

Definition slot_of (id : Z) (t : option mem_thread) : option nat :=
  match t with Some (Threads.Following i slot) => if i =? id then Some slot else None | _ => None end.
Lemma follower_slot id t slot : slot_of id t = Some slot -> t = Some (Threads.Following id slot).
Proof. destruct t as [[]|]; try done. cbn. destruct (Z.eqb_spec id0 id) as [->|]; [|done]. by intros [= ->]. Qed.
(** How a call ended. *)
Definition ended (t : option mem_thread) : option (nat * outcome (option bytes)) :=
  match t with
  | Some (Threads.Wrote r) => Some (0%nat, (fun _ => None) <$> r)
  | Some (Threads.Flushed r) => Some (1%nat, (fun _ => None) <$> r)
  | Some (Threads.HasRead r) => Some (2%nat, r)
  | _ => None
  end.
Lemma ended_wrote t : ended t = Some (0%nat, Ret None) -> t = Some (Threads.Wrote (Ret tt)).
Proof. by destruct t as [[| | | | | | | | | | | | | | | | [[]| |]|[[]| |]|]|]. Qed.
Lemma ended_flushed t : ended t = Some (1%nat, Ret None) -> t = Some (Threads.Flushed (Ret tt)).
Proof. by destruct t as [[| | | | | | | | | | | | | | | | [[]| |]|[[]| |]|]|]. Qed.
Lemma ended_read t r : ended t = Some (2%nat, r) -> t = Some (Threads.HasRead r).
Proof. destruct t as [[| | | | | | | | | | | | | | | | | |]|]; try done. by intros [= ->]. Qed.
(** A run, seen through [f]. *)
Lemma observed {A} schedule (f : Threads.system (E:=MemEnv_Env) -> A) a : f <$> runs schedule idle_system = Some a ->
  exists sys, runs schedule idle_system = Some sys /\ Threads.steps zeroed 10 0 idle_system sys /\ f sys = a.
Proof.
  generalize (Threads.run_steps zeroed 10 0 schedule idle_system). destruct (runs schedule idle_system) as [sys|]; [|done].
  intros Hs [= <-]. exists sys. split_and!; [done|by apply Hs|done].
Qed.

(** A put of "b" and then, called when it is over, a read. *)
Lemma acknowledged before after ids ends r :
  (fun sys => map (fun i => ended (Threads.threads sys !! i)) ids) <$> runs (before ++ [Threads.Call 4 (put_thread "b" "2")] ++ after) idle_system = Some ends ->
  (fun sys => ended (Threads.threads sys !! 5%nat)) <$>
    (runs (before ++ [Threads.Call 4 (put_thread "b" "2")] ++ after) idle_system ≫= runs [Threads.Call 5 (get_thread "b"); Threads.Turn 5]) = Some (Some (2%nat, r)) ->
  exists s1 s2, runs (before ++ [Threads.Call 4 (put_thread "b" "2")] ++ after) idle_system = Some s1 /\
    map (fun i => ended (Threads.threads s1 !! i)) ids = ends /\
    runs [Threads.Call 5 (get_thread "b"); Threads.Turn 5] s1 = Some s2 /\ Threads.threads s2 !! 5%nat = Some (Threads.HasRead r) /\
    Threads.steps zeroed 10 0 idle_system s2.
Proof.
  destruct (runs (before ++ _) idle_system) as [s1|] eqn:E1; [|done]. intros [= H1] H2. change (Some s1 ≫= ?k) with (k s1) in H2.
  destruct (runs [_; _] s1) as [s2|] eqn:E2; [|done]. injection H2 as H2. exists s1, s2. split; [done|]. split; [exact H1|]. split; [done|].
  split; [by apply ended_read|]. etransitivity; [exact (Threads.run_steps _ _ _ _ _ _ E1)|exact (Threads.run_steps _ _ _ _ _ _ E2)].
Qed.

(** ** A flush that fails *)

Section failing.
Context {W C P Co K : Type} `{E : Env W} `{HC : Comparator C} `{HP : FilterPolicy P} `{HCo : Compressor Co} `{HK : Cache K Block}.
Context (arena : Z -> bytes) (fuel : nat) (micros : Z).
Abbreviation db := (DBImplCore.t W C P Co K) (only parsing).
Abbreviation M := (action (db * (W * K))) (only parsing).
Implicit Types (self : db) (s : db * (W * K)).
Import DBImplCore Core Write Compact Threads.

(** What decides whether the background thread parks. *)
Definition idle_flags self : option nat * bool * bool := (imm self, shutting_down self, manual_compaction_running self).
Abbreviation keeps := (leaves (fun s : db * (W * K) => idle_flags s.1)) (only parsing).
Lemma keeps_reads {A} (f : db -> A) : keeps (reads f).
Proof. done. Qed.
Lemma keeps_modify (f : db -> db) : (forall self, idle_flags (f self) = idle_flags self) -> keeps (modify f).
Proof. intros Hf s. apply Hf. Qed.
Lemma keeps_env {A} (m : action W A) : keeps (on_env m).
Proof. intros s. unfold on_env. by destruct (m s.2.1). Qed.
Lemma keeps_versions {A} m : keeps (on_versions m : M A).
Proof. intros s. unfold on_versions. by destruct (m _) as [? [? ?]]. Qed.
Lemma keeps_number : keeps (new_file_number (E:=E)).
Proof. done. Qed.
#[local] Hint Resolve keeps_reads keeps_env keeps_versions keeps_number : leaves.
#[local] Hint Extern 1 (leaves _ (modify _)) => (apply keeps_modify; intros; reflexivity) : leaves.
Lemma delete_logs_keeps : keeps (delete_obsolete_logs (E:=E)).
Proof.
  unfold delete_obsolete_logs, directory. repeat (apply leaves_bind; [eauto 6 with leaves|intros ?]); eauto with leaves.
  apply leaves_for_each. intros [[n []]|]; eauto with leaves. apply leaves_bind; [eauto with leaves|]. intros self.
  destruct (_ <? _); unfold remove; eauto with leaves.
Qed.
Lemma add_stats_keeps l c : keeps (add_stats (E:=E) l c).
Proof. unfold add_stats. eauto 10 with leaves. Qed.
#[local] Hint Resolve delete_logs_keeps add_stats_keeps : leaves.

(** An action that fails before its last step, which cannot. *)
Lemma fails_before {B D} (v : db * (W * K) -> D) (m : M B) (k : B -> M unit) s e s' : leaves v m -> (forall b s, is_ret (k b s).1 = true) ->
  (m ≫= k) s = (Fail e, s') -> v s' = v s.
Proof.
  intros Hm Hk. unfold mbind, action_bind. specialize (Hm s). destruct (m s) as [[b|?|] s1]; cbn in Hm; [|by intros [= _ <-]|done].
  intros Hr. specialize (Hk b s1). by rewrite Hr in Hk.
Qed.
(** A failed flush keeps the memtable it could not write, in each of its sections. *)
Lemma flush_begin_fails s e s' : flush_begin (E:=E) s = (Fail e, s') -> idle_flags s'.1 = idle_flags s.1.
Proof.
  unfold flush_begin. erewrite action_bind_ret by reflexivity. cbn [id fst]. destruct (imm s.1) as [m|]; [|done].
  unfold mbind at 1, action_bind at 1, lift at 1. destruct (SharedMemTable.collect_entries _ _) as [[|first es]|?|]; [done| |by intros [= _ <-]|done].
  match goal with |- ?m s = _ -> _ => assert (Hk : keeps m); [eauto 10 with leaves|] end.
  intros Hr. specialize (Hk s). by rewrite Hr in Hk.
Qed.
Lemma flush_install_fails j n s e s' : flush_install (E:=E) j n micros s = (Fail e, s') -> idle_flags s'.1 = idle_flags s.1.
Proof.
  unfold flush_install. intros Hr.
  apply (fails_before (fun s => idle_flags s.1) (on_versions (VersionSet.log_and_apply (new_table_edit (Some (j_log_number j)) (j_level j) (j_number j) n (j_entries j)));;
    delete_obsolete_logs;; add_stats (j_level j) (CompactionStats.mk (as_i64 micros) 0 (as_i64 n))) (fun _ => modify (with_imm None)) s e s'); [eauto 10 with leaves|done|].
  rewrite <- Hr. unfold mbind, action_bind. destruct (on_versions _ s) as [[[]|?|] s1]; [|done..]. destruct (delete_obsolete_logs s1) as [[[]|?|] s2]; done.
Qed.

(** The sections of a flush. *)
Definition in_flush (t : thread (W:=W) (C:=C)) : bool := match t with FlushBegin | FlushWrite _ | FlushInstall _ _ => true | _ => false end.
Lemma flush_fails t s e s' : in_flush t = true -> section (P:=P) (Co:=Co) (K:=K) arena fuel micros t s = (Ret (Some (CycleDone (Fail e))), s') ->
  idle_flags s'.1 = idle_flags s.1.
Proof.
  destruct t as [| | | | | | | | | |j|j n| | | | | | |]; try done; intros _; cbn [section].
  - destruct (is_some (imm s.1)); [|done]. unfold go. destruct (flush_begin s) as [[[j|]|e'|] s1] eqn:Er; try done. intros [= -> <-]. by apply flush_begin_fails in Er.
  - unfold go. pose proof (keeps_env (A:=Z) (write_table (icmp s.1) (options s.1) (dbname s.1) (j_number j) (j_entries j)) s) as Hk.
    change (on_env _ s) with (flush_write (E:=E) j s) in Hk. destruct (flush_write j s) as [[n|e'|] s1] eqn:Er; try done. intros [= -> <-]. exact Hk.
  - unfold go. destruct (flush_install j n micros s) as [[[]|e'|] s1] eqn:Er; try done. intros [= -> <-]. by apply flush_install_fails in Er.
Qed.

(** Turns of the background thread that start with [t]. *)
Fixpoint turns_of (n : nat) (t : thread (W:=W) (C:=C)) s : option (thread (W:=W) (C:=C) * (db * (W * K))) :=
  match n with
  | O => Some (t, s)
  | S n => match section (P:=P) (Co:=Co) (K:=K) arena fuel micros t s with (Ret (Some t), s) => turns_of n t s | _ => None end
  end.
Lemma turns_S n t s : turns_of (S n) t s =
  match section (P:=P) (Co:=Co) (K:=K) arena fuel micros t s with (Ret (Some t), s) => turns_of n t s | _ => None end.
Proof. done. Qed.
Lemma stuck_turn s m e : idle_flags s.1 = (Some m, false, false) -> bg_error s.1 = Some e ->
  section (P:=P) (Co:=Co) (K:=K) arena fuel micros Resting s = (Ret (Some Resting), (with_scheduled false s.1, s.2)).
Proof.
  unfold idle_flags. intros [= Hm Hs Hr] He. cbn [section]. unfold bg_parks, bg_wake. rewrite Hs, Hr, He, Hm. cbn. by rewrite andb_false_r.
Qed.
Lemma scheduled_twice b b' self : with_scheduled b (with_scheduled b' self) = with_scheduled b self.
Proof. by destruct self. Qed.
Lemma stuck_turns n s m e : idle_flags s.1 = (Some m, false, false) -> bg_error s.1 = Some e ->
  turns_of (S n) Resting s = Some (Resting, (with_scheduled false s.1, s.2)).
Proof.
  revert s. induction n as [|n IH]; intros s Hi He; rewrite turns_S, (stuck_turn s m e Hi He); [done|].
  rewrite (IH (with_scheduled false s.1, s.2) Hi He). cbn [fst snd]. by rewrite scheduled_twice.
Qed.
End failing.

(** ** Claims *)

(** C7: (write queue) Without flush calls, in every state that any interleaving of writers,
    readers and the background thread reaches from an open database at rest: at most one
    writer leads the queue, and while one leads the queue is not empty and the request at
    its front is none that another thread waits with; the log writer and the log file are
    out of their place exactly while the leader writes, so that taking them never finds
    them missing; and the memtable and the first sequence number a group was given are
    still the active memtable and the number after the last one published. *)
Theorem one_writer_at_a_time {W C P Co K} `{E : Env W} `{HC : Comparator C} `{HP : FilterPolicy P} `{HCo : Compressor Co} `{HK : Cache K Block}
    arena fuel micros (sys sys' : Threads.system (W:=W) (C:=C) (P:=P) (Co:=Co) (K:=K)) :
  at_rest sys -> Threads.steps arena fuel micros sys sys' -> flush_free sys' ->
  let self := (Threads.world sys').1 in let ts := Threads.threads sys' in
  (forall i j ti tj, ts !! i = Some ti -> ts !! j = Some tj -> leads ti = true -> leads tj = true -> i = j) /\
  (forall i t, ts !! i = Some t -> leads t = true -> exists w rest, DBImplCore.writers self = w :: rest /\
     forall j id slot, ts !! j = Some (Threads.Following id slot) -> id <> w_id w) /\
  (forall i t j, ts !! i = Some t -> job_of t = Some j ->
     DBImplCore.log_writer self = None /\ DBImplCore.log_file self = None /\
     Write.jb_mem j = DBImplCore.mem self /\ Write.jb_sequence j = as_u64 (Core.last_sequence self + 1)) /\
  ((forall i t, ts !! i = Some t -> job_of t = None) -> is_Some (DBImplCore.log_writer self) /\ is_Some (DBImplCore.log_file self)) /\
  (forall i allow, ts !! i = Some (Threads.Leading allow) -> is_Some (DBImplCore.log_writer self) /\ is_Some (DBImplCore.log_file self)).
Proof.
  intros Hr Hs Hf self ts. pose proof (steps_in_turn arena fuel micros sys sys' Hs Hf Hr) as Hd. fold self ts in Hd.
  split_and!.
  - apply Hd.
  - intros i t Hi Hl. destruct (it_front _ _ Hd i t Hi Hl) as (id & rest & E1 & Hno). cbn in E1.
    destruct (DBImplCore.writers self) as [|w ws]; [done|]. injection E1 as <- _. exists w, ws. split; [done|].
    intros j id slot Hj ->. by apply (Hno j _ Hj).
  - apply Hd.
  - apply Hd.
  - intros i allow Hi. apply (it_log _ _ Hd). intros k x Hk. destruct (job_of x) as [j|] eqn:Ej; [|done].
    assert (leads x = true) by (by destruct x). assert (i = k) as <- by by eapply (it_one _ _ Hd).
    fold ts in Hk. rewrite Hi in Hk. by injection Hk as <-.
Qed.

Lemma one_writer_at_a_time_witness :
  exists sys', runs meeting idle_system = Some sys' /\
    DBImplCore.log_writer (Threads.world sys').1 = None /\ (exists slot, Threads.threads sys' !! 2%nat = Some (Threads.Following 2 slot)) /\
    exists t, Threads.threads sys' !! 1%nat = Some t /\ leads t = true /\
      forall j tj, Threads.threads sys' !! j = Some tj -> leads tj = true -> 1%nat = j.
Proof.
  destruct (observed meeting (fun sys => (is_some (DBImplCore.log_writer (Threads.world sys).1),
        match Threads.threads sys !! 1%nat with Some t => leads t | None => false end,
        slot_of 2 (Threads.threads sys !! 2%nat),
        forallb (fun x => negb (flushes x.2)) (map_to_list (Threads.threads sys)))) (false, true, Some 0%nat, true))
    as (sys' & Er & Hst & Hv); [vm_compute; reflexivity|]. injection Hv as H1 H2 H3 H4.
  destruct (Threads.threads sys' !! 1%nat) as [t|] eqn:Et; [|discriminate].
  destruct (one_writer_at_a_time zeroed 10 0 idle_system sys') as (Hone & _ & Hjob & _).
  - exact idle_at_rest.
  - exact Hst.
  - intros i x Hi. rewrite forallb_forall in H4. apply elem_of_map_to_list, list_elem_of_In, H4 in Hi. by apply negb_true_iff in Hi.
  - exists sys'. split; [exact Er|]. split; [by destruct (DBImplCore.log_writer _)|]. split.
    + apply follower_slot in H3. by exists 0%nat.
    + exists t. split; [exact Et|]. split; [exact H2|]. intros j tj Hj Hl. exact (Hone 1%nat j t tj Et Hj H2 Hl).
Defined.

(** C8: (force_flush) With two concurrent [force_flush] calls an acknowledged write can be
    lost.  There is a run from an empty database in which the only write of "b" is called
    and returns successfully, both flushes return successfully, and a read of "b" called
    after that tells that there is none.  The second flush waits for the memtable being
    flushed and does not look at the write queue again; the writer, which has meanwhile
    taken its memtable, finds it rotated away and dropped as empty.  A run with the same
    calls but for the second flush reads the value back. *)
Theorem force_flush_loses_write :
  (exists before after s1 s2,
     calls (before ++ after) = [put_thread "a" "1"; Threads.Flushing Write.AtWriters; Threads.Flushing Write.AtWriters] /\
     runs (before ++ [Threads.Call 4 (put_thread "b" "2")] ++ after) idle_system = Some s1 /\
     Threads.threads s1 !! 4%nat = Some (Threads.Wrote (Ret tt)) /\
     Threads.threads s1 !! 2%nat = Some (Threads.Flushed (Ret tt)) /\ Threads.threads s1 !! 3%nat = Some (Threads.Flushed (Ret tt)) /\
     runs [Threads.Call 5 (get_thread "b"); Threads.Turn 5] s1 = Some s2 /\
     Threads.threads s2 !! 5%nat = Some (Threads.HasRead (Ret None)) /\ Threads.steps zeroed 10 0 idle_system s2) /\
  (exists before after s1 s2,
     calls (before ++ after) = [put_thread "a" "1"; Threads.Flushing Write.AtWriters] /\
     runs (before ++ [Threads.Call 4 (put_thread "b" "2")] ++ after) idle_system = Some s1 /\
     Threads.threads s1 !! 4%nat = Some (Threads.Wrote (Ret tt)) /\
     runs [Threads.Call 5 (get_thread "b"); Threads.Turn 5] s1 = Some s2 /\
     Threads.threads s2 !! 5%nat = Some (Threads.HasRead (Ret (Some (list_byte_of_string "2"))))).
Proof.
  split.
  - destruct (acknowledged (racing_before true) (racing_after true) [2; 3; 4]%nat
      [Some (1, Ret None); Some (1, Ret None); Some (0, Ret None)]%nat (Ret None)) as (s1 & s2 & E1 & Hv & E2 & Hr & Hst); [by vm_compute..|].
    injection Hv as H2 H3 H4. exists (racing_before true), (racing_after true), s1, s2.
    split_and!; [reflexivity|exact E1|by apply ended_wrote|by apply ended_flushed..|exact E2|exact Hr|exact Hst].
  - destruct (acknowledged (racing_before false) (racing_after false) [4]%nat [Some (0%nat, Ret None)]
      (Ret (Some (list_byte_of_string "2")))) as (s1 & s2 & E1 & Hv & E2 & Hr & _); [by vm_compute..|].
    injection Hv as H4. exists (racing_before false), (racing_after false), s1, s2.
    split_and!; [reflexivity|exact E1|by apply ended_wrote|exact E2|exact Hr].
Qed.

(** C37: (background errors) When a section of the background thread's flush fails, of a
    database that is neither shutting down nor in a manual compaction, the immutable
    memtable stays in its place and the error is recorded.  From then on the thread, left
    to itself, neither waits nor works: it is at rest again after each of its turns,
    however many, with only the scheduled flag cleared. *)
Theorem failed_flush_spins {W C P Co K} `{E : Env W} `{HC : Comparator C} `{HP : FilterPolicy P} `{HCo : Compressor Co} `{HK : Cache K Block}
    arena fuel micros (t : Threads.thread (W:=W) (C:=C)) (s s1 : DBImplCore.t W C P Co K * (W * K)) m e :
  in_flush t = true -> DBImplCore.imm s.1 = Some m -> DBImplCore.shutting_down s.1 = false -> DBImplCore.manual_compaction_running s.1 = false ->
  Threads.section arena fuel micros t s = (Ret (Some (Threads.CycleDone (Fail e))), s1) ->
  exists self, turns_of arena fuel micros 2 t s = Some (Threads.Resting, (self, s1.2)) /\
    DBImplCore.imm self = Some m /\ DBImplCore.bg_error self = Some e /\ DBImplCore.bg_work_running self = false /\
    forall n, turns_of arena fuel micros (2 + S n) t s = Some (Threads.Resting, (DBImplCore.with_scheduled false self, s1.2)).
Proof.
  intros Ht Hm Hs Hr Hf. pose proof (flush_fails arena fuel micros t s e s1 Ht Hf) as Hi. unfold idle_flags in Hi. rewrite Hm, Hs, Hr in Hi.
  injection Hi as Hm1 Hs1 Hr1. exists (Compact.bg_done (A:=unit) (Fail e) s1.1).
  assert (H2 : forall n, turns_of arena fuel micros (2 + n) t s = turns_of arena fuel micros n Threads.Resting (Compact.bg_done (A:=unit) (Fail e) s1.1, s1.2)).
  { intros n. cbn [Nat.add turns_of]. by rewrite Hf. }
  split; [apply (H2 0%nat)|]. split; [exact Hm1|]. do 2 (split; [done|]). intros n. rewrite (H2 (S n)).
  apply (stuck_turns arena fuel micros n (_, s1.2) m e); [|done]. unfold idle_flags. cbn. by rewrite Hm1, Hs1, Hr1.
Qed.

(** The manifest cannot be written: the file behind it is closed. *)
Definition broken_manifest : sample_db_type * (MemEnv * ShardedLRUCache.t Block) :=
  (DBImplCore.with_imm (Some 0%nat) (DBImplCore.with_version_set
     (VersionSet.mk (E:=MemEnv_Env) "db" (mk_icmp Bytewise) (Version.new (mk_icmp Bytewise)) 10 4 13 2 0 (Some LogWriter.new) (Some (Mem.mk_writable 0 true))
        (replicate 7 []) None) (sample_db (sample_mem sample_records) (Version.new (mk_icmp Bytewise)) 13)), idle_world.2).
Definition broken_install : mem_thread :=
  Threads.FlushInstall (Compact.mk_job (built_entries (ord:=bytes_cmp) sample_records) 5 0 2) 100.
Definition has_failed (t : mem_thread) : bool := match t with Threads.CycleDone (Fail _) => true | _ => false end.
Lemma cycle_failed t : has_failed t = true -> exists e, t = Threads.CycleDone (Fail e).
Proof. destruct t as [| | | | | | | | | | | | | |r| | | |]; try done. destruct r as [?|e|]; try done. by exists e. Qed.
Lemma failed_flush_spins_witness :
  exists e self io, DBImplCore.imm self = Some 0%nat /\ DBImplCore.bg_error self = Some e /\
    turns_of zeroed 10 0 1000 broken_install broken_manifest = Some (Threads.Resting, (DBImplCore.with_scheduled false self, io)).
Proof.
  destruct (Threads.section zeroed 10 0 broken_install broken_manifest) as [[[t|]|?|] s1] eqn:Ef.
  2-4: exfalso; apply (f_equal (fun r => match r.1 with Ret (Some _) => true | _ => false end)) in Ef; vm_compute in Ef; discriminate.
  assert (exists e, t = Threads.CycleDone (Fail e)) as [e ->].
  { apply cycle_failed. apply (f_equal (fun r => match r.1 with Ret (Some t) => has_failed t | _ => false end)) in Ef. vm_compute in Ef. by rewrite Ef. }
  destruct (failed_flush_spins zeroed 10 0 broken_install broken_manifest s1 0%nat e) as (self & _ & Hm & He & _ & Hn);
    [reflexivity..|exact Ef|]. exists e, self, s1.2. split; [exact Hm|]. split; [exact He|]. exact (Hn 997%nat).
Defined.
