(* ===== verification/DbScan.v ===== *)
(** * DbScan.v: the iterators of a database ([db_impl/db_impl.rs]).

    [LevelFileNumIter] and [LevelIterator], the iterator over everything a database holds,
    and the methods that hand it out.  A table is opened at the state in which the iterator
    is made: the files it reads do not change, and are not deleted while it is registered.
    A memtable child stands for the memtable at that time: what is inserted later has
    greater sequence numbers than the iterator shows. *)
From S2P Require Import Prelude Status Coding Comparator Format WriteBatch Filter Block Env Filename Sort Cache.
From S2P Require Import TableBuilder Table Log TableCache VersionEdit Version VersionSet MemTable SharedMem DbState DbCore Compact DbWrite DbIterator MergingIter TwoLevelIter DbIter.

(** ** [LevelFileNumIter] *)

Module LevelFileNumIter.
Record t (C : Type) := mk { files : list FileMeta; comparator : InternalKeyComparator C; pos : Z; value : bytes }.
Arguments mk {C} _ _ _ _.
Arguments files {C} _.
Arguments comparator {C} _.
Arguments pos {C} _.
Arguments value {C} _.
Section ops.
Context {C : Type} `{Comparator C}.
Implicit Types self : t C.
Definition new (files : list FileMeta) (comparator : InternalKeyComparator C) : t C := mk files comparator (-1) (replicate 8 (as_u8 0)).
Definition with_pos self p : t C := mk (files self) (comparator self) p (value self).
Definition valid_ self : bool := (0 <=? pos self) && (pos self <? len (files self)).
Definition refresh_value self : outcome (t C) :=
  if valid_ self then f ← index (files self) (pos self); Ret (mk (files self) (comparator self) (pos self) (to_le_bytes 8 (FileMetaData.number f)))
  else Ret self.
Definition seek_to_first_ self : outcome (t C) := refresh_value (with_pos self (if bool_decide (files self = []) then -1 else 0)).
Definition seek_to_last_ self : outcome (t C) := refresh_value (with_pos self (len (files self) - 1)).
(** [left < right]: the interval halves in every round. *)
Fixpoint seek_loop (fuel : nat) self (target : bytes) (left right : Z) : outcome Z :=
  if left <? right then
    match fuel with
    | O => Panic
    | S fuel =>
        let mid := left + (right - left) / 2 in
        f ← index (files self) mid;
        o ← compare (comparator self) (FileMetaData.largest f) target;
        if is_lt o then seek_loop fuel self target (mid + 1) right else seek_loop fuel self target left mid
    end
  else Ret left.
Definition seek_ self (target : bytes) : outcome (t C) :=
  left ← seek_loop (length (files self)) self target 0 (len (files self));
  refresh_value (with_pos self (if len (files self) <=? left then -1 else left)).
Definition next_ self : outcome (t C) :=
  _ ← assert (valid_ self);
  let p := pos self + 1 in
  refresh_value (with_pos self (if len (files self) <=? p then -1 else p)).
Definition prev_ self : outcome (t C) :=
  _ ← assert (valid_ self); refresh_value (with_pos self (pos self - 1)).
Definition key self : outcome bytes :=
  _ ← assert (valid_ self); f ← index (files self) (pos self); Ret (FileMetaData.largest f).
Definition value_ self : outcome bytes := _ ← assert (valid_ self); Ret (value self).
#[export] Instance LevelFileNum_DbIterator : DbIterator (t C) := {|
  DbIterator.valid self := Ret (valid_ self);
  DbIterator.seek_to_first := seek_to_first_;
  DbIterator.seek_to_last := seek_to_last_;
  DbIterator.seek := seek_;
  DbIterator.next := next_;
  DbIterator.prev := prev_;
  DbIterator.iter_key := key;
  DbIterator.iter_value := value_;
  DbIterator.iter_status _ := Ret tt;
|}.
End ops.
End LevelFileNumIter.
#[export] Existing Instance LevelFileNumIter.LevelFileNum_DbIterator.

(** ** [LevelIterator] *)

Definition LevelIterator (C : Type) : Type := TwoLevelIterator.t (LevelFileNumIter.t C) (TableIterator (InternalKeyComparator C)).
Section level.
Context {W C P Co K : Type} `{E : Env W} `{HC : Comparator C} `{HP : FilterPolicy P} `{HCo : Compressor Co} `{HK : Cache K Block}.
Abbreviation tables := (TableCache.t W (InternalKeyComparator C) P Co) (only parsing).
(** The closure: the file named by the eight bytes of a value. *)
Definition level_table_function (table_cache : tables) (verify : bool) (io : W * K) (file_number_bytes : bytes) : outcome (TableIterator (InternalKeyComparator C)) :=
  if negb (len file_number_bytes =? 8) then Fail (Stat.corruption "Level iterator: bad file handle")
  else (TableCache.new_iterator_verify (from_le_bytes file_number_bytes) verify (table_cache, io)).1.
Definition level_iterator_new (files : list FileMeta) (icmp : InternalKeyComparator C) (table_cache : tables) (verify : bool) (io : W * K) : LevelIterator C :=
  TwoLevelIterator.new (LevelFileNumIter.new files icmp) (level_table_function table_cache verify io) (S (length files)).
End level.

(** ** The iterators of [DBImplCore] *)

(** [Box<dyn DbIterator>]: what the children of the merging iterator are. *)
Inductive child (C : Type) :=
| MemChild (it : MemTableIterator.t C)
| TableChild (it : TableIterator (InternalKeyComparator C))
| LevelChild (it : LevelIterator C).
Arguments MemChild {C} _.
Arguments TableChild {C} _.
Arguments LevelChild {C} _.
Section child.
Context {C : Type} `{Comparator C}.
Definition on_child (f : forall I, DbIterator I -> I -> outcome I) (ch : child C) : outcome (child C) :=
  match ch with
  | MemChild it => it ← f _ _ it; Ret (MemChild it)
  | TableChild it => it ← f _ _ it; Ret (TableChild it)
  | LevelChild it => it ← f _ _ it; Ret (LevelChild it)
  end.
Definition of_child {A} (f : forall I, DbIterator I -> I -> A) (ch : child C) : A :=
  match ch with MemChild it => f _ _ it | TableChild it => f _ _ it | LevelChild it => f _ _ it end.
#[export] Instance child_DbIterator : DbIterator (child C) := {|
  DbIterator.valid := of_child (fun _ _ => valid);
  DbIterator.seek_to_first := on_child (fun _ _ => seek_to_first);
  DbIterator.seek_to_last := on_child (fun _ _ => seek_to_last);
  DbIterator.seek ch target := on_child (fun _ _ it => seek it target) ch;
  DbIterator.next := on_child (fun _ _ => next);
  DbIterator.prev := on_child (fun _ _ => prev);
  DbIterator.iter_key := of_child (fun _ _ => iter_key);
  DbIterator.iter_value := of_child (fun _ _ => iter_value);
  DbIterator.iter_status := of_child (fun _ _ => iter_status);
|}.
End child.

Module Scan.
Import DBImplCore Core.
Section scan.
Context {W C P Co K : Type} `{E : Env W} `{HC : Comparator C} `{HP : FilterPolicy P} `{HCo : Compressor Co} `{HK : Cache K Block}.
(** Above the number of entries of the database: the sweeps of [DBIter]. *)
Context (rounds : nat).
Abbreviation db := (DBImplCore.t W C P Co K) (only parsing).
Abbreviation M := (action (db * (W * K))) (only parsing).
Abbreviation merging := (MergingIterator.t (InternalKeyComparator C) (child C)) (only parsing).
Abbreviation dbiter := (DBIter.t C merging) (only parsing).
Implicit Types self : db.

Fixpoint table_children (fs : list FileMeta) (verify : bool) : M (list (child C)) :=
  match fs with
  | [] => mret []
  | f :: fs =>
      it ← on_tables (TableCache.new_iterator_verify (FileMetaData.number f) verify);
      rest ← table_children fs verify;
      mret (TableChild it :: rest)
  end.
Definition level_children (verify : bool) (level : Z) : M (list (child C)) :=
  self ← reads id;
  files ← lift (Version.level_files (current self) level);
  if bool_decide (files = []) then mret []
  else if level =? 0 then table_children files verify
  else fun s => (Ret [LevelChild (level_iterator_new files (icmp self) (table_cache self) verify s.2)], s).
Fixpoint levels_children (verify : bool) (levels : list Z) : M (list (child C)) :=
  match levels with
  | [] => mret []
  | level :: levels => a ← level_children verify level; b ← levels_children verify levels; mret (a ++ b)
  end.
Definition mem_child (m : nat) : M (child C) :=
  self ← reads id; it ← lift (SharedMemTable.new_iterator (heap self) m); mret (MemChild it).
(** The memtables, the files of level 0, then the other levels. *)
Definition all_children (verify : bool) : M (list (child C)) :=
  self ← reads id;
  a ← mem_child (mem self);
  b ← (match imm self with Some m => x ← mem_child m; mret [x] | None => mret [] end);
  rest ← levels_children verify (seqZ 0 NUM_LEVELS);
  mret (a :: b ++ rest).
Definition new_internal_iterator_for_test (verify : bool) : M merging :=
  children ← all_children verify; self ← reads id; mret (MergingIterator.new (icmp self) children).
Definition core_new_iterator (o : ReadOptions) : M dbiter :=
  self ← reads id;
  let snapshot := read_sequence self o in
  children ← all_children (paranoid_checks (options self) || verify_checksums o);
  mret (DBIter.new (comparator self) (MergingIterator.new (icmp self) children) snapshot rounds).

(** ** The methods of [DBImpl] *)

Definition new_iterator_with_options (o : ReadOptions) : M dbiter := fun s =>
  match bg_error s.1 with
  | Some e => (Fail e, s)
  | None =>
      (iter ← core_new_iterator o;
       register_iterator;;
       mret (DBIter.set_drop_hook (DBIter.set_sampler iter))) s
  end.
(** The sampler's calls, made with the keys that the iterator sampled. *)
Definition samples (iter : dbiter) : M dbiter :=
  for_each Write.record_read_sample (default [] (DBIter.sampler iter));;
  mret (DBIter.with_sampling iter ((fun _ => []) <$> DBIter.sampler iter) (DBIter.bytes_counter iter) (DBIter.read_bytes_period iter)).
Definition drop_iterator (iter : dbiter) : M unit := if DBIter.drop_ iter then release_iterator else mret tt.

(** *** [test_all_entries_for] *)

Fixpoint entries_loop (fuel : nat) (c : C) (user_key : bytes) (iter : merging) (entries : list (option bytes)) : outcome (list (option bytes) * merging) :=
  v ← valid iter;
  if negb v then Ret (entries, iter) else
  match fuel with
  | O => Panic
  | S fuel =>
      k ← iter_key iter;
      parsed ← parse_internal_key k;
      match parsed with
      | None => Fail (Stat.corruption "corrupted internal key in TEST_AllEntriesFor")
      | Some parsed =>
          o ← compare c (Format.user_key parsed) user_key;
          if negb (is_eq o) then Ret (entries, iter) else
          x ← (match value_type parsed with Value => v ← iter_value iter; Ret (Some v) | Deletion => Ret None end);
          iter ← next iter;
          entries_loop fuel c user_key iter (entries ++ [x])
      end
  end.
Definition core_all_entries_for (user_key : bytes) : M (list (option bytes)) :=
  self ← reads id;
  iter ← new_internal_iterator_for_test (paranoid_checks (options self));
  target ← lift (InternalKey.new user_key MAX_SEQUENCE_NUMBER Value);
  ik ← lift (InternalKey.encode target);
  iter ← lift (seek iter ik);
  '(entries, iter) ← lift (entries_loop rounds (comparator self) user_key iter []);
  _ ← lift (iter_status iter);
  mret entries.
(** [None] while it waits for the background thread. *)
Definition test_all_entries_for (user_key : bytes) : M (option (list (option bytes))) :=
  self ← reads id;
  match bg_error self with
  | Some e => lift (Fail e)
  | None => if Write.busy_or_manual self then mret None else es ← core_all_entries_for user_key; mret (Some es)
  end.
End scan.
End Scan.
