(* ===== verification/Snappy.v ===== *)
(** * Snappy.v: [snappy.rs] and [slice/slice.rs].

    The built-in compressor over the encoder and decoder of the [snap] crate, which are
    parameters, and the borrowed view of bytes that the public interface offers. *)
From S2P Require Import Prelude Status Comparator TableBuilder.

(** ** [SnappyCompressor] *)

(** [snap::raw]: compression may fail, decompression reports an error with a message. *)
Class SnapRaw := {
  compress_vec : bytes -> option bytes;
  decompress_vec : bytes -> string + bytes;
}.
Class SnapRawLaws `{SnapRaw} : Prop := {
  snap_inverse x y : compress_vec x = Some y -> decompress_vec y = inr x;
}.

Inductive SnappyCompressor := Snappy.
Module SnappyC.
Section snappy.
Context `{SnapRaw}.
Definition new : SnappyCompressor := Snappy.
Definition kind (_ : SnappyCompressor) : Z := 1.
Definition compress (_ : SnappyCompressor) (input : bytes) : option bytes :=
  match compress_vec input with
  | Some compressed => if len compressed <? len input - len input / 8 then Some compressed else None
  | None => None
  end.
Definition decompress (_ : SnappyCompressor) (input : bytes) : outcome bytes :=
  match decompress_vec input with
  | inr bs => Ret bs
  | inl e => Fail (Stat.corruption ("snappy decompress: " +:+ e))
  end.
End snappy.
End SnappyC.
#[export] Instance Snappy_Compressor `{SnapRaw} : Compressor SnappyCompressor := {|
  comp_kind := SnappyC.kind;
  TableBuilder.compress := SnappyC.compress;
  TableBuilder.decompress := SnappyC.decompress;
|}.
#[export] Instance Snappy_CompressorLaws `{SnapRawLaws} : CompressorLaws Snappy.
Proof.
  split; [done|]. intros x y. cbn. unfold SnappyC.compress, SnappyC.decompress.
  destruct (compress_vec x) as [z|] eqn:Ez; [|done]. destruct (_ <? _); [|done]. intros [= <-]. by rewrite (snap_inverse _ _ Ez).
Qed.
(** What is stored compressed is at least an eighth shorter. *)
Lemma snappy_saves `{SnapRaw} x y : SnappyC.compress Snappy x = Some y -> 8 * len y < 7 * len x + 8 /\ len y < len x.
Proof.
  unfold SnappyC.compress. destruct (compress_vec x) as [z|]; [|done]. destruct (Z.ltb_spec (len z) (len x - len x / 8)); [|done].
  intros [= ->]. pose proof (Z.div_mod (len x) 8 ltac:(done)). pose proof (Z.mod_pos_bound (len x) 8 ltac:(done)). pose proof (len_nonneg x).
  pose proof (Z.div_pos (len x) 8 ltac:(done) ltac:(done)). lia.
Qed.

(** ** [Slice] *)

Module Slice.
Record t := mk { data : bytes }.
Definition new (data : bytes) : t := mk data.
Definition size (s : t) : Z := len (data s).
Definition empty (s : t) : bool := bool_decide (data s = []).
Fixpoint prefix_of (p bs : bytes) : bool :=
  match p, bs with
  | [], _ => true
  | x :: p, y :: bs => (u8 x =? u8 y) && prefix_of p bs
  | _ :: _, [] => false
  end.
Definition starts_with (s prefix : t) : bool := prefix_of (data prefix) (data s).
Definition compare (s other : t) : comparison := bytes_cmp (data s) (data other).
Definition to_vec (s : t) : bytes := data s.
Definition remove_prefix (s : t) (n : Z) : outcome t :=
  _ ← assert (n <=? size s); bs ← slice_from (data s) n; Ret (mk bs).
Definition clear (_ : t) : t := mk [].
Definition default : t := mk [].
Definition from_str (s : string) : t := mk (list_byte_of_string s).
Definition index (s : t) (i : Z) : outcome byte := Status.index (data s) i.
Definition as_ref (s : t) : bytes := data s.
End Slice.
Lemma slice_starts_with s p : Slice.starts_with s p = true <-> exists rest, Slice.data s = Slice.data p ++ rest.
Proof.
  unfold Slice.starts_with. destruct s as [s], p as [p]. cbn. revert s. induction p as [|x p IH]; intros s; cbn; [split; [by exists s|done]|].
  destruct s as [|y s]; [split; [done|by intros [? ?]]|]. rewrite andb_true_iff, Z.eqb_eq, IH. split.
  - intros [E [rest ->]]. exists rest. cbn. f_equal. by apply u8_inj.
  - intros [rest [= -> ->]]. split; [done|by exists rest].
Qed.
