(* ===== verification/Destroy.v ===== *)
(** * Destroy.v: [destroy/destroy.rs].

    Deleting a database directory.  Errors of single deletions do not stop the sweep; the
    first is reported. *)
From S2P Require Import Prelude Status Env Filename DbCore.

Section destroy.
Context {W : Type} `{E : Env W}.
(** One entry, as a file or else as a directory; the lock file is left. *)
Definition destroy_entry (result : outcome unit) (entry : path) : action W (outcome unit) := fun w =>
  let name := default "" (file_name entry) in
  match parse_file_name name with
  | Some (_, DbLockFile) => (Ret result, w)
  | _ =>
      let '(r, w) := match delete_file entry w with (Fail _, w) => delete_dir entry w | r => r end in
      match r with
      | Panic => (Panic, w)
      | r => (Ret (match result with Ret _ => r | _ => result end), w)
      end
  end.
Fixpoint destroy_entries (entries : list path) (result : outcome unit) : action W (outcome unit) :=
  match entries with
  | [] => mret result
  | entry :: entries => result ← destroy_entry result entry; destroy_entries entries result
  end.
Definition ignore (m : action W unit) : action W unit := fun w =>
  match m w with (Panic, w) => (Panic, w) | (_, w) => (Ret tt, w) end.
Definition destroy_db (dbname : string) : action W unit := fun w =>
  let db_path := path_new dbname in
  match list_dir db_path w with
  | (Panic, w) => (Panic, w)
  | (Fail _, w) => delete_dir db_path w
  | (Ret [], w) => (Ret tt, w)
  | (Ret entries, w) =>
      let lock_path := path_new (lock_file_name dbname) in
      (lock ← lock_file lock_path;
       result ← destroy_entries entries (Ret tt);
       (fun w => (Ret tt, drop_lock lock w));;
       ignore (delete_file lock_path);;
       ignore (delete_dir db_path);;
       lift result) w
  end.
End destroy.
