(* ===== verification/DestroyCorrect.v ===== *)
(** * DestroyCorrect.v: deleting a database in the in-memory environment.

    [destroy_db] over [MemEnv]: it removes the database files of the directory and nothing
    outside it, and it leaves everything alone while somebody holds the lock.  About files
    of the directory that are no database files the module's documentation and the code
    disagree, and the theorem says nothing. *)
From Stdlib Require Import Ascii.
From S2P Require Import Prelude Status Env Filename DbCore Destroy.


#[local] Arguments String.append : simpl nomatch.

(** ** Paths below the directory *)

Lemma split_first_longer c p q :
  split_first c (p +:+ String c q) = match split_first c p with Some (l, r) => Some (l, r +:+ String c q) | None => Some (p, q) end.
Proof.
  induction p as [|a p IH]; [change (split_first c (String c q) = Some ("", q)); cbn [split_first]; by rewrite Ascii.eqb_refl|]. change (String a p +:+ String c q) with (String a (p +:+ String c q)). cbn [split_first].
  destruct (Ascii.eqb a c); [done|]. rewrite IH. by destruct (split_first c p) as [[l r]|].
Qed.
Lemma split_first_shorter c p l r : split_first c p = Some (l, r) -> (String.length r < String.length p)%nat.
Proof.
  revert l. induction p as [|a p IH]; intros l; cbn; [done|]. destruct (Ascii.eqb a c); [intros [= _ <-]; lia|].
  destruct (split_first c p) as [[l' r']|]; [|done]. cbn. intros [= _ <-]. specialize (IH l' eq_refl). lia.
Qed.
Lemma split_all_app name : all_chars (not_char "/") name = true -> forall fuel fuel' p, (String.length p < fuel)%nat -> (String.length p <= fuel')%nat ->
  split_all fuel (p +:+ String "/" name) = split_all fuel' p ++ [name].
Proof.
  intros Hn. induction fuel as [|fuel IH]; intros fuel' p Hf Hf'; [lia|]. cbn [split_all]. rewrite split_first_longer.
  destruct (split_first "/" p) as [[l r]|] eqn:Ep.
  - pose proof (split_first_shorter _ _ _ _ Ep). destruct fuel' as [|fuel']; [lia|]. cbn [split_all]. rewrite Ep. cbn [app]. f_equal. apply IH; lia.
  - assert (split_all fuel' p = [p]) as -> by (destruct fuel'; cbn [split_all]; by rewrite ?Ep). cbn [app]. f_equal.
    destruct fuel; cbn [split_all]; by rewrite ?(split_first_none _ _ Hn).
Qed.
Lemma path_new_child p name : p <> "" -> all_chars (not_char "/") name = true -> name <> "" -> name <> "." ->
  path_new (p +:+ String "/" name) = path_new p ++ [name].
Proof.
  intros Hp Hn He Hd. unfold path_new. rewrite (split_all_app name Hn _ (String.length p)); [|clear; induction p; cbn; lia|lia].
  rewrite filter_app, filter_cons_True, filter_nil by done. rewrite !app_assoc. f_equal. f_equal.
  f_equal; [by destruct p|]. assert (Hne : split_all (String.length p) p <> []); [|by destruct (split_all _ p)].
  destruct (String.length p); cbn [split_all]; [done|]. by destruct (split_first "/" p) as [[? ?]|].
Qed.

Lemma path_strip_app (p q : path) : Mem.strip_prefix p (p ++ q) = Some q.
Proof. induction p as [|x p IH]; [done|]. cbn. by rewrite decide_True. Qed.
Lemma strip_prefix_some (p q r : path) : Mem.strip_prefix p q = Some r -> q = p ++ r.
Proof.
  revert q. induction p as [|x p IH]; intros [|y q]; cbn; [by intros [= <-]..|done|].
  case_decide; [|done]. subst. intros H. by rewrite <- (IH q).
Qed.

(** Inside a directory, and what is left outside it. *)
Definition inside (dir p : path) : Prop := is_Some (Mem.strip_prefix dir p).
#[export] Instance inside_dec dir p : Decision (inside dir p).
Proof. unfold inside. apply _. Defined.
Definition outside (dir : path) (m : gmap path bytes) : gmap path bytes := filter (fun kv => Mem.strip_prefix dir kv.1 = None) m.
Lemma outside_lookup dir m p : outside dir m !! p = if decide (Mem.strip_prefix dir p = None) then m !! p else None.
Proof.
  unfold outside. case_decide as Hd.
  - destruct (m !! p) as [x|] eqn:E; [by apply map_lookup_filter_Some|]. by apply map_lookup_filter_None_2; left.
  - apply map_lookup_filter_None_2. right. by intros x _.
Qed.
Lemma outside_delete dir m p : inside dir p -> outside dir (delete p m) = outside dir m.
Proof.
  intros [r Hp]. apply map_eq. intros q. rewrite !outside_lookup. case_decide; [|done]. apply lookup_delete_ne. congruence.
Qed.
Lemma outside_insert dir m p d : inside dir p -> outside dir (<[p := d]> m) = outside dir m.
Proof.
  intros [r Hp]. apply map_eq. intros q. rewrite !outside_lookup. case_decide; [|done]. apply lookup_insert_ne. congruence.
Qed.
Lemma outside_sub dir p m : inside dir p -> outside dir (outside p m) = outside dir m.
Proof.
  intros [r Hp]. apply map_eq. intros q. rewrite !outside_lookup. case_decide as Hq; [|done]. rewrite decide_True; [done|].
  destruct (Mem.strip_prefix p q) as [r'|] eqn:E; [|done]. apply strip_prefix_some in E, Hp. subst.
  by rewrite <- app_assoc, path_strip_app in Hq.
Qed.
Lemma lock_inside dbname : inside (path_new dbname) (path_new (lock_file_name dbname)).
Proof.
  unfold lock_file_name. destruct (decide (dbname = "")) as [->|Hne]; [by eexists|].
  change (dbname +:+ "/LOCK") with (dbname +:+ String "/" "LOCK"). rewrite path_new_child by done. eexists. apply path_strip_app.
Qed.

(** ** The sweep *)

(** A state of the sweep: sound, outside the directory as it was. *)
Definition swept (dir : path) (w0 w : MemEnv) : Prop :=
  mem_wf w /\ outside dir (view w) = outside dir (view w0) /\ locks w = locks w0.

Lemma delete_dir_view p w : mem_wf w -> exists w', Mem.delete_dir p w = (Ret tt, w') /\ mem_wf w' /\ view w' = outside p (view w) /\ locks w' = locks w.
Proof.
  intros [Hi Hf]. eexists. split; [reflexivity|]. split; [|split; [|done]].
  - split; cbn; intros *; rewrite ?map_lookup_filter_Some; [intros [H1 _] [H2 _]; by apply (Hi p0 q b)|intros [H1 _]; by apply (Hf p0 b)].
  - apply map_eq. intros q. rewrite outside_lookup, !view_lookup. cbn [files]. unfold Mem.get_buf. cbn [bufs]. case_decide as Hd.
    + f_equal. destruct (files w !! q) as [x|] eqn:E; [by apply map_lookup_filter_Some|]. apply map_lookup_filter_None_2. by left.
    + assert (filter (fun kv => Mem.strip_prefix p kv.1 = None) (files w) !! q = None) as ->; [|done].
      apply map_lookup_filter_None_2. right. by intros x _.
Qed.
Lemma delete_file_locks p w : locks (Mem.delete_file p w).2 = locks w.
Proof. unfold Mem.delete_file. by destruct (files w !! p). Qed.

Lemma destroy_entry_ok dir w0 w entry : swept dir w0 w -> inside dir entry ->
  exists w', destroy_entry (Ret tt) entry w = (Ret (Ret tt), w') /\ swept dir w0 w'.
Proof.
  intros (Hw & Ho & Hl) Hin. unfold destroy_entry.
  assert (Hdel : exists w', match delete_file entry w with (Fail _, w) => delete_dir entry w | r => r end = (Ret tt, w') /\ swept dir w0 w').
  { change (delete_file entry w) with (Mem.delete_file entry w). destruct (view w !! entry) as [d|] eqn:E.
    - destruct (delete_file_spec w entry d Hw E) as (w' & E1 & Hw' & Hv'). pose proof (delete_file_locks entry w) as Hl'. rewrite E1 in *.
      exists w'. split; [done|]. split; [done|]. rewrite Hv', outside_delete by done. split; [done|]. by rewrite <- Hl.
    - assert (Mem.delete_file entry w = (Mem.not_found entry, w)) as ->.
      { unfold Mem.delete_file. rewrite view_lookup in E. by destruct (files w !! entry). }
      destruct (delete_dir_view entry w Hw) as (w' & E1 & Hw' & Hv' & Hl'). exists w'. split; [exact E1|]. split; [done|].
      rewrite Hv', outside_sub by done. split; [done|]. by rewrite Hl'. }
  destruct Hdel as (w' & -> & Hs). destruct (parse_file_name _) as [[n [| | | | | |]]|]; [..|by exists w']; by eexists.
Qed.
Lemma destroy_entries_ok dir w0 entries w : swept dir w0 w -> Forall (inside dir) entries ->
  exists w', destroy_entries entries (Ret tt) w = (Ret (Ret tt), w') /\ swept dir w0 w'.
Proof.
  revert w. induction entries as [|entry entries IH]; intros w Hs Hin; [by exists w|]. apply Forall_cons in Hin as [He Hin].
  destruct (destroy_entry_ok dir w0 w entry Hs He) as (w1 & E1 & Hs1). destruct (IH w1 Hs1 Hin) as (w2 & E2 & Hs2).
  exists w2. cbn [destroy_entries]. by rewrite (action_bind_ret _ _ _ _ _ E1).
Qed.

(** *** The listing *)

Lemma insert_path_elem p l x : x ∈ Mem.insert_path p l -> x = p \/ x ∈ l.
Proof.
  induction l as [|q l IH]; cbn; [intros ->%list_elem_of_singleton; by left|]. destruct (Mem.path_cmp p q).
  - by right.
  - intros [->|Hx]%elem_of_cons; [by left|by right].
  - intros [->|Hx]%elem_of_cons; [right; left|]. destruct (IH Hx); [by left|right; by right].
Qed.
Lemma insert_path_cons p l : Mem.insert_path p l <> [].
Proof. destruct l; cbn; [done|]. by destruct (Mem.path_cmp p _). Qed.
Definition child_of (dir q : path) : option path :=
  match Mem.strip_prefix dir q with Some (first :: _) => Some (dir ++ [first]) | _ => None end.
Lemma listing dir w : exists l, Mem.list_dir dir w = (Ret l, w) /\ Forall (inside dir) l /\
  (l = [] <-> forall first rest, view w !! (dir ++ first :: rest) = None).
Proof.
  set (cs := omap (child_of dir) (map fst (map_to_list (files w)))).
  exists (fold_right Mem.insert_path [] cs). split; [done|]. split.
  - apply Forall_forall. intros x Hx. assert (Hc : x ∈ cs).
    { revert Hx. generalize cs. intros l. induction l as [|y l IH]; cbn; [done|]. intros [->|Hx]%insert_path_elem; [left|right; by apply IH]. }
    apply list_elem_of_omap in Hc as (q & _ & Hq). unfold child_of in Hq. destruct (Mem.strip_prefix dir q) as [[|first r]|]; [done| |done].
    injection Hq as <-. eexists. apply path_strip_app.
  - assert (Hfiles : forall p, p ∈ map fst (map_to_list (files w)) <-> is_Some (view w !! p)).
    { intros p. rewrite view_lookup, list_elem_of_In, in_map_iff. split.
      - intros ([p' b] & <- & Hin). apply list_elem_of_In, elem_of_map_to_list in Hin. cbn. rewrite Hin. by eexists.
      - intros [x Hx]. destruct (files w !! p) as [b|] eqn:Eb; [|done]. exists (p, b). split; [done|]. by apply list_elem_of_In, elem_of_map_to_list. }
    split.
    + intros Hnil first rest. apply eq_None_not_Some. intros Hp. assert (Hc : dir ++ [first] ∈ cs).
      { apply list_elem_of_omap. exists (dir ++ first :: rest). split; [by apply Hfiles|]. unfold child_of. by rewrite path_strip_app. }
      destruct cs as [|y cs']; [by apply elem_of_nil in Hc|]. cbn in Hnil. by apply insert_path_cons in Hnil.
    + intros Hno. destruct cs as [|y cs'] eqn:Ec; [done|]. assert (Hy : y ∈ cs) by (rewrite Ec; left).
      apply list_elem_of_omap in Hy as (q & [x Hx]%Hfiles & Hq). unfold child_of in Hq.
      destruct (Mem.strip_prefix dir q) as [[|first r]|] eqn:Es; [done| |done]. apply strip_prefix_some in Es. subst q. by rewrite Hno in Hx.
Qed.

(** *** The lock *)

Lemma lock_taken dir lock w : mem_wf w -> inside dir lock -> lock ∉ locks w ->
  exists w', Mem.lock_file lock w = (Ret (Mem.mk_lock lock), w') /\ mem_wf w' /\ outside dir (view w') = outside dir (view w) /\ locks w' = {[lock]} ∪ locks w.
Proof.
  intros [Hi Hf] Hin Hno. unfold Mem.lock_file. rewrite decide_False by done.
  set (wl := mk_mem (files w) (bufs w) (fresh w) ({[lock]} ∪ locks w)). assert (Hwl : mem_wf wl) by by split.
  cbv zeta; fold wl; destruct (files wl !! lock) as [b|]; eexists; (split; [reflexivity|]); [split; [exact Hwl|split; reflexivity]|]. split; [by apply alloc_wf|]. split; [|done].
  rewrite alloc_view by done. by rewrite outside_insert.
Qed.
(** What follows the sweep. *)
Lemma lock_removed dir lock w : mem_wf w -> inside dir lock ->
  exists w', ((fun w => (Ret tt, drop_lock (Mem.mk_lock lock) w));; ignore (delete_file lock);; ignore (delete_dir dir);; lift (Ret tt)) w = (Ret tt, w') /\
    mem_wf w' /\ view w' = outside dir (view w) /\ locks w' = locks w ∖ {[lock]}.
Proof.
  intros [Hi Hf] Hin. set (wd := Mem.drop_lock (Mem.mk_lock lock) w). assert (Hwd : mem_wf wd) by by split.
  assert (exists w', ignore (Mem.delete_file lock) wd = (Ret tt, w') /\ mem_wf w' /\ outside dir (view w') = outside dir (view w) /\ locks w' = locks w ∖ {[lock]}) as (w1 & E1 & Hw1 & Hv1 & Hl1).
  { unfold ignore. destruct (view wd !! lock) as [d|] eqn:E.
    - destruct (delete_file_spec wd lock d Hwd E) as (w' & E1 & Hw' & Hv'). pose proof (delete_file_locks lock wd) as Hl'. rewrite E1 in *.
      exists w'. split; [done|]. split; [done|]. rewrite Hv', outside_delete by done. split; [reflexivity|exact Hl'].
    - exists wd. split; [|split; [done|split; reflexivity]]. rewrite view_lookup in E. unfold Mem.delete_file. by destruct (files wd !! lock). }
  destruct (delete_dir_view dir w1 Hw1) as (w2 & E2 & Hw2 & Hv2 & Hl2). exists w2. split_and!; [|done|by rewrite Hv2|by rewrite Hl2].
  erewrite action_bind_ret by reflexivity. erewrite action_bind_ret by exact E1.
  erewrite action_bind_ret; [reflexivity|]. unfold ignore. change (delete_dir dir w1) with (Mem.delete_dir dir w1). by rewrite E2.
Qed.

(** ** Claims *)

(** C12: (destroy_db) In the in-memory environment, destroying a database without entries
    changes nothing and succeeds; while its lock is held it fails and changes nothing;
    otherwise it succeeds, every file of the directory with a name that is a database
    file's, the lock file included, is gone, every file outside the directory is as it was,
    and the lock is free. *)
Theorem destroy_db_clears dbname w : mem_wf w ->
  let dir := path_new dbname in
  let lock := path_new (lock_file_name dbname) in
  ((forall first rest, view w !! (dir ++ first :: rest) = None) -> destroy_db dbname w = (Ret tt, w)) /\
  (forall first rest, is_Some (view w !! (dir ++ first :: rest)) ->
     (lock ∈ locks w -> exists e, destroy_db dbname w = (Fail e, w)) /\
     (lock ∉ locks w -> exists w', destroy_db dbname w = (Ret tt, w') /\ mem_wf w' /\
        (forall name, is_Some (parse_file_name name) -> view w' !! (dir ++ [name]) = None) /\
        (forall p, ~ inside dir p -> view w' !! p = view w !! p) /\ locks w' = locks w)).
Proof.
  intros Hw dir lock. destruct (listing dir w) as (l & El & Hl & Hnil). unfold destroy_db. fold dir lock.
  change (list_dir dir w) with (Mem.list_dir dir w). rewrite El. split; [intros Hno%Hnil; by rewrite Hno|].
  intros first rest Hin. destruct l as [|e l]; [rewrite (proj1 Hnil eq_refl) in Hin; by destruct Hin|]. split; intros Hlock.
  { eexists. erewrite action_bind_fail; [done|]. cbn. unfold Mem.lock_file. by rewrite decide_True. }
  destruct (lock_taken dir lock w Hw (lock_inside dbname) Hlock) as (w1 & E1 & Hw1 & Ho1 & Hl1).
  destruct (destroy_entries_ok dir w1 (e :: l) w1 (conj Hw1 (conj eq_refl eq_refl)) Hl) as (w2 & E2 & Hw2 & Ho2 & Hl2).
  destruct (lock_removed dir lock w2 Hw2 (lock_inside dbname)) as (w3 & E3 & Hw3 & Hv3 & Hl3).
  exists w3. split_and!; [|done| | |].
  - rewrite (action_bind_ret _ _ _ _ _ E1), (action_bind_ret _ _ _ _ _ E2). exact E3.
  - intros name _. rewrite Hv3, outside_lookup, decide_False; [done|]. by rewrite path_strip_app.
  - intros p Hp. rewrite Hv3, Ho2, Ho1, outside_lookup, decide_True; [done|]. unfold inside in Hp.
    destruct (Mem.strip_prefix dir p); [|done]. destruct Hp. by eexists.
  - rewrite Hl3, Hl2, Hl1. clear -Hlock. set_solver.
Qed.

(** Files of "db" and a file next to it; the lock is free, then held. *)
Definition destroy_sample : MemEnv :=
  fold_left (fun w name => Mem.alloc w (path_new name) (list_byte_of_string name))
    ["db/CURRENT"; "db/000005.ldb"; "db/000004.log"; "dbx/CURRENT"]%string Mem.new.
Lemma destroy_db_clears_witness :
  (exists w', destroy_db "db" destroy_sample = (Ret tt, w') /\ view w' !! path_new "db/000005.ldb" = None /\
     view w' !! path_new "dbx/CURRENT" = Some (list_byte_of_string "dbx/CURRENT")) /\
  (let held := (Mem.lock_file (path_new "db/LOCK") destroy_sample).2 in exists e, destroy_db "db" held = (Fail e, held)).
Proof.
  assert (Hw : mem_wf destroy_sample) by (unfold destroy_sample; cbn [fold_left]; repeat apply alloc_wf; apply new_wf).
  split.
  - destruct (destroy_db_clears "db" destroy_sample Hw) as [_ H]. destruct (H "CURRENT"%string [] ltac:(by eexists)) as [_ H2].
    destruct (H2 ltac:(by vm_compute)) as (w' & E & _ & Hgone & Hout & _). exists w'. split; [exact E|]. split.
    + apply (Hgone "000005.ldb"%string). eexists. by vm_compute.
    + rewrite Hout; [reflexivity|]. intros [r Hr]. discriminate Hr.
  - intros held. assert (Hh : mem_wf held) by (apply (alloc_wf _ (path_new "db/LOCK") []); by destruct Hw).
    destruct (destroy_db_clears "db" held Hh) as [_ H]. destruct (H "CURRENT"%string [] ltac:(by eexists)) as [H1 _].
    apply H1. by apply elem_of_union_l, elem_of_singleton.
Defined.
