(* ===== verification/Repair.v ===== *)
(** * Repair.v: [repair/repair.rs].

    Rebuilding the manifest of a damaged directory from its logs and tables.  The state is
    the [Repairer] and the environment; the block cache in it is the one [Table] is generic
    in, and no table opened here uses it.  [fuel] bounds the bytes of a log and the entries
    of a table. *)
From S2P Require Import Prelude Status Coding Comparator Format WriteBatch Filter Block Env Filename Sort Cache.
From S2P Require Import TableBuilder Table Log TableCache VersionEdit Version VersionSet MemTable DbState DbCore Compact DbIterator TwoLevelIter.

Record RepairReport := mk_report { recovered_files : Z; recovered_bytes : Z; archived_table_numbers : list Z }.
(** Per-table metadata. *)
Record TableInfo := mk_info { ti_meta : FileMeta; ti_max_sequence : Z }.

(** ** [LogToMemInserter] *)

Section inserter.
Context {C : Type} `{Comparator C} (arena : Z -> bytes).
Definition log_inserting : Type := outcome (Z * MemTable.t C).
Definition log_insert (value_type : ValueType) (h : log_inserting) (key value : bytes) : log_inserting :=
  '(sequence, mem) ← h;
  '(_, mem) ← MemTable.add mem (arena (MemTable.encoded_size key value)) sequence value_type key value;
  Ret (as_u64 (sequence + 1), mem).
#[local] Instance LogToMemInserter_Handler : WriteBatchHandler log_inserting := {|
  handler_put h key value := log_insert Value h key value;
  handler_delete h key := log_insert Deletion h key [];
|}.
(** The records of a batch that come before an error stay. *)
Definition log_insert_batch (batch : WriteBatch) (sequence : Z) (mem : MemTable.t C) : outcome (MemTable.t C) :=
  match Batch.iterate batch (Ret (sequence, mem) : log_inserting) with
  | (Ret (_, mem), Panic) => Panic
  | (Ret (_, mem), _) => Ret mem
  | (_, _) => Panic
  end.
(** One record of a log; what is no batch is skipped.  The sequence numbers are read again
    from the table. *)
Definition replay_batch (record : bytes) (mem : MemTable.t C) : outcome (MemTable.t C) :=
  if len record <? 12 then Ret mem else
  match Batch.set_contents Batch.new record with
  | Ret batch => seq ← Batch.sequence batch; _ ← Batch.count batch; log_insert_batch batch seq mem
  | Fail _ => Ret mem
  | Panic => Panic
  end.
End inserter.

Module Repairer.
Record t (C P Co K : Type) := mk {
  dbname : string;
  comparator : C;
  icmp : InternalKeyComparator C;
  options : Options P Co K;
  next_file_number : Z;
  manifests : list string;
  logs : list Z;
  table_numbers : list Z;
  tables : list TableInfo;
  archived : list Z;
}.
Arguments mk {C P Co K} _ _ _ _ _ _ _ _ _ _.
Arguments dbname {C P Co K} _.
Arguments comparator {C P Co K} _.
Arguments icmp {C P Co K} _.
Arguments options {C P Co K} _.
Arguments next_file_number {C P Co K} _.
Arguments manifests {C P Co K} _.
Arguments logs {C P Co K} _.
Arguments table_numbers {C P Co K} _.
Arguments tables {C P Co K} _.
Arguments archived {C P Co K} _.

Section ops.
Context {W C P Co K : Type} `{E : Env W} `{HC : Comparator C} `{HP : FilterPolicy P} `{HCo : Compressor Co} `{HK : Cache K Block}.
Context (arena : Z -> bytes) (fuel : nat).
Abbreviation repairer := (t C P Co K) (only parsing).
Abbreviation M := (action (repairer * (W * K))) (only parsing).
Implicit Types self : repairer.

Definition new (dbname : string) (c : C) (o : Options P Co K) : repairer := mk dbname c (mk_icmp c) o 1 [] [] [] [] [].
Definition with_next n self : repairer :=
  mk (dbname self) (comparator self) (icmp self) (options self) n (manifests self) (logs self) (table_numbers self) (tables self) (archived self).
Definition with_manifests l self : repairer :=
  mk (dbname self) (comparator self) (icmp self) (options self) (next_file_number self) l (logs self) (table_numbers self) (tables self) (archived self).
Definition with_logs l self : repairer :=
  mk (dbname self) (comparator self) (icmp self) (options self) (next_file_number self) (manifests self) l (table_numbers self) (tables self) (archived self).
Definition with_numbers l self : repairer :=
  mk (dbname self) (comparator self) (icmp self) (options self) (next_file_number self) (manifests self) (logs self) l (tables self) (archived self).
Definition with_tables l self : repairer :=
  mk (dbname self) (comparator self) (icmp self) (options self) (next_file_number self) (manifests self) (logs self) (table_numbers self) l (archived self).
Definition with_archived l self : repairer :=
  mk (dbname self) (comparator self) (icmp self) (options self) (next_file_number self) (manifests self) (logs self) (table_numbers self) (tables self) l.

Definition reads {A} (f : repairer -> A) : M A := fun s => (Ret (f s.1), s).
Definition modify (f : repairer -> repairer) : M unit := fun s => (Ret tt, (f s.1, s.2)).
Definition on_env {A} (m : action W A) : M A := fun s => let '(r, w) := m s.2.1 in (r, (s.1, (w, s.2.2))).
Definition on_world {A} (m : action (W * K) A) : M A := fun s => let '(r, io) := m s.2 in (r, (s.1, io)).

(** ** [find_files] *)

Definition classify (entry : path) self : repairer :=
  let name := default "" (file_name entry) in
  match parse_file_name name with
  | Some (_, DescriptorFile) => with_manifests (manifests self ++ [name]) self
  | Some (number, ftype) =>
      let self := if next_file_number self <? as_u64 (number + 1) then with_next (as_u64 (number + 1)) self else self in
      match ftype with
      | LogFile => with_logs (logs self ++ [number]) self
      | TableFile => with_numbers (table_numbers self ++ [number]) self
      | _ => self
      end
  | None => self
  end.
Definition find_files : M unit :=
  self ← reads id;
  entries ← on_env (list_dir (path_new (dbname self)));
  if bool_decide (entries = []) then lift (Fail (Stat.io_error ("repair found no files in " +:+ dbname self)))
  else modify (fun self => fold_left (fun self e => classify e self) entries self).

(** ** [archive_file] *)

Definition archive_file (src : string) : M unit :=
  self ← reads id;
  let lost_dir := dbname self +:+ "/lost" in
  _ ← attempt (on_env (create_dir (path_new lost_dir)));
  let basename := default src (after_last (Ascii.ascii_of_nat 47) src) in
  on_env (rename_file (path_new src) (path_new (lost_dir +:+ "/" +:+ basename))).
(** [let _ = self.archive_file(..)]. *)
Definition try_archive (src : string) : M unit := _ ← attempt (archive_file src); mret tt.

(** ** [convert_log_files_to_tables] *)

Fixpoint log_loop (records : nat) (reader : LogSequentialReader.t) (mem : MemTable.t C) : action W (MemTable.t C) := fun w =>
  match records with
  | O => (Panic, w)
  | S records =>
      match LogSequentialReader.read_record fuel (reader, w) with
      | (Panic, (_, w)) => (Panic, w)
      | (Fail _, (_, w)) => (Ret mem, w)
      | (Ret None, (_, w)) => (Ret mem, w)
      | (Ret (Some record), (reader, w)) =>
          match replay_batch arena record mem with
          | Ret mem => log_loop records reader mem w
          | _ => (Panic, w)
          end
      end
  end.
(** The new table is written like any other; its size is read again when it is scanned. *)
Definition convert_log_to_table (log_num : Z) : M unit :=
  self ← reads id;
  file ← on_env (new_sequential_file (path_new (log_file_name (dbname self) log_num)));
  mem ← on_env (log_loop fuel (LogSequentialReader.new file) (MemTable.new (comparator self)));
  entries ← lift (MemTable.collect_entries mem);
  if bool_decide (entries = []) then mret tt
  else
    let file_number := next_file_number self in
    _ ← modify (with_next (as_u64 (file_number + 1)));
    _ ← on_env (Compact.write_table (icmp self) (options self) (dbname self) file_number entries);
    modify (fun self => with_numbers (table_numbers self ++ [file_number]) self).
Definition convert_log (log_num : Z) : M unit :=
  _ ← attempt (convert_log_to_table log_num);
  self ← reads id;
  try_archive (log_file_name (dbname self) log_num).
Definition convert_log_files_to_tables : M unit := logs ← reads logs; for_each convert_log logs.

(** ** [extract_metadata] *)

Fixpoint scan_loop {I} `{DbIterator I} (n : nat) (iter : I) (largest : bytes) (max_sequence : Z) : outcome (bytes * Z * I) :=
  v ← valid iter;
  if negb v then Ret (largest, max_sequence, iter) else
  match n with
  | O => Panic
  | S n =>
      key ← iter_key iter;
      p ← parse_internal_key key;
      let max_sequence := match p with Some p => Z.max max_sequence (sequence p) | None => max_sequence end in
      iter ← next iter;
      scan_loop n iter key max_sequence
  end.
Definition open_table (number : Z) : M (Z * TableIterator (InternalKeyComparator C)) :=
  self ← reads id;
  let p := path_new (table_file_name (dbname self) number) in
  file_size ← on_env (get_file_size p);
  file ← on_env (new_random_access_file p);
  iter ← on_world (
    table ← open_random_with_options file file_size (icmp self) false (None : option P) (compressor (options self));
    io ← get_state;
    mret (Table.new_iterator table io));
  mret (file_size, iter).
Definition scan_table (number : Z) : M unit :=
  '(file_size, iter) ← open_table number;
  iter ← lift (seek_to_first iter);
  v ← lift (valid iter);
  if negb v then
    _ ← modify (fun self => with_archived (archived self ++ [number]) self);
    self ← reads id;
    _ ← try_archive (table_file_name (dbname self) number);
    lift (iter_status iter)
  else
    smallest ← lift (iter_key iter);
    '(largest, max_sequence, iter) ← lift (scan_loop fuel iter smallest 0);
    _ ← lift (iter_status iter);
    modify (fun self => with_tables (tables self ++ [mk_info (FileMetaData.mk number file_size smallest largest) max_sequence]) self).
Definition extract_table (n : Z) : M unit :=
  r ← attempt (scan_table n);
  match r with
  | Some _ => mret tt
  | None =>
      _ ← modify (fun self => with_archived (archived self ++ [n]) self);
      self ← reads id;
      try_archive (table_file_name (dbname self) n)
  end.
Definition extract_metadata : M unit := nums ← reads table_numbers; for_each extract_table nums.

(** ** [write_descriptor] *)

Definition max_of (l : list TableInfo) : Z := fold_left (fun m i => Z.max m (ti_max_sequence i)) l 0.
Definition repair_edit self : VersionEdit.t :=
  VersionEdit.mk (Some (list_byte_of_string (cmp_name (comparator self)))) (Some 0) None None None [] []
    (map (fun i => mk_new 0 (ti_meta i)) (tables self)).
Definition write_descriptor : M unit :=
  self ← reads id;
  _ ← for_each (fun mfile => try_archive (dbname self +:+ "/" +:+ mfile)) (manifests self);
  let vs := VersionSet.new (dbname self) (comparator self) in
  let vs := VersionSet.set_next_file_number (next_file_number self) vs in
  let vs := VersionSet.set_last_sequence (max_of (tables self)) vs in
  on_env (fun w => let '(r, (_, w)) := VersionSet.log_and_apply (repair_edit self) (vs, w) in (r, w)).

Definition run : M RepairReport :=
  find_files;;
  convert_log_files_to_tables;;
  extract_metadata;;
  write_descriptor;;
  self ← reads id;
  _ ← modify (with_archived []);
  mret (mk_report (len (tables self)) (total_file_size (map ti_meta (tables self))) (archived self)).

Definition repair_db_with_options (dbname : string) (c : C) (o : Options P Co K) : action (W * K) RepairReport := fun io =>
  let '(r, (_, io)) := run (new dbname c o, io) in (r, io).
Definition repair_db (dbname : string) (c : C) : action (W * K) RepairReport := repair_db_with_options dbname c Options_default.
End ops.
End Repairer.
