(* ===== verification/DbScanCorrect.v ===== *)
(** * DbScanCorrect.v: what the iterators of a database show.

    The iterator of a level is a cursor over the entries of its files one after another;
    the iterator of the database is a cursor over the view of everything it holds at the
    snapshot, which is what reads at that snapshot answer. *)
From S2P Require Import Prelude Status Coding Comparator Format WriteBatch Filter Block Env Filename Sort Cache.
From S2P Require Import CacheCorrect TableBuilder TableFormat TableBuilderCorrect Table TableCorrect Newest Log TableCache TableCacheCorrect VersionEdit Version VersionCorrect VersionSet SkipList SkipListCorrect.
From S2P Require Import MemTable MemTableCorrect SharedMem DbState DbCore DbCoreCorrect DbScan DbIterator MergingIter TwoLevelIter DbIter DbIterCorrect.

(** ** Cursors, whatever their representation *)

Definition cursor {I} `{DbIterator I} (ord : bytes -> bytes -> comparison) (es : list entry) (target_ok : bytes -> Prop) (it : I) (p : option nat) : Prop :=
  exists stands, IterLaws ord es target_ok stands /\ stands it p.
Lemma laws_weaken {I} `{DbIterator I} ord es (P Q : bytes -> Prop) (at_pos : I -> option nat -> Prop) : (forall t, Q t -> P t) ->
  IterLaws ord es P at_pos -> IterLaws ord es Q at_pos.
Proof. intros Hpq [H1 H2 H3 H4 H5 H6 H7 H8 H9]. split; try done. intros it p t Hp Ht. apply (H5 it p t Hp). by apply Hpq. Qed.
Lemma cursor_laws {I} `{DbIterator I} ord es target_ok : IterLaws (I:=I) ord es target_ok (cursor ord es target_ok).
Proof.
  split.
  - intros it p (st & Hl & Hp). by apply (law_valid (IterLaws:=Hl)).
  - intros it i (st & Hl & Hp). by apply (law_bound (IterLaws:=Hl) it).
  - intros it p (st & Hl & Hp). destruct (law_seek_to_first (IterLaws:=Hl) it p Hp) as (it' & E & Hp'). exists it'. split; [done|by exists st].
  - intros it p (st & Hl & Hp). destruct (law_seek_to_last (IterLaws:=Hl) it p Hp) as (it' & E & Hp'). exists it'. split; [done|by exists st].
  - intros it p t (st & Hl & Hp) Ht. destruct (law_seek (IterLaws:=Hl) it p t Hp Ht) as (it' & E & Hp'). exists it'. split; [done|by exists st].
  - intros it i (st & Hl & Hp). destruct (law_next (IterLaws:=Hl) it i Hp) as (it' & E & Hp'). exists it'. split; [done|by exists st].
  - intros it i (st & Hl & Hp). destruct (law_prev (IterLaws:=Hl) it i Hp) as (it' & E & Hp'). exists it'. split; [done|by exists st].
  - intros it i e (st & Hl & Hp). by apply (law_entry (IterLaws:=Hl)).
  - intros it p (st & Hl & Hp). by apply (law_status (IterLaws:=Hl) it p).
Qed.

(** ** [LevelFileNumIter] *)

Section level_files.
Context {C : Type} `{Comparator C} (c : C) (ord : bytes -> bytes -> comparison) `{!ComparatorLaws c (fun _ => True) ord}.
Abbreviation iord := (ik_ord ord) (only parsing).
Context (fs : list FileMeta).
Import LevelFileNumIter.
Implicit Types self : t C.

Definition file_entry (f : FileMeta) : entry := (FileMetaData.largest f, to_le_bytes 8 (FileMetaData.number f)).
Abbreviation idx := (map file_entry fs) (only parsing).
Context (Hfs : Forall file_ok fs) (Hsorted : sorted_entries iord idx).

Definition num_at self (p : option nat) : Prop :=
  files self = fs /\ comparator self = mk_icmp c /\
  match p with
  | None => pos self = -1
  | Some i => pos self = Z.of_nat i /\ exists f, fs !! i = Some f /\ value self = to_le_bytes 8 (FileMetaData.number f)
  end.
Definition num_pos (p : option nat) : Z := match p with None => -1 | Some i => Z.of_nat i end.

Lemma num_valid self p : num_at self p -> valid_ self = is_some p.
Proof.
  intros (Hf & _ & Hp). unfold valid_. rewrite Hf. destruct p as [i|].
  - destruct Hp as (-> & f & Hi & _). apply lookup_lt_Some in Hi. cbn [is_some]. unfold len.
    by rewrite (proj2 (Z.leb_le _ _)), (proj2 (Z.ltb_lt _ _)) by lia.
  - by rewrite Hp.
Qed.
Lemma refresh_ok self p : files self = fs -> comparator self = mk_icmp c -> pos self = num_pos p ->
  (forall i, p = Some i -> (i < length fs)%nat) -> exists self', refresh_value self = Ret self' /\ num_at self' p.
Proof.
  intros Hf Hc Hp Hb. unfold refresh_value, valid_. rewrite Hf, Hp. destruct p as [i|]; cbn [num_pos].
  - specialize (Hb i eq_refl). destruct (lookup_lt_is_Some_2 fs i Hb) as [f Hi]. unfold len.
    rewrite (proj2 (Z.leb_le _ _)), (proj2 (Z.ltb_lt _ _)) by lia. cbn [andb].
    assert (index fs (Z.of_nat i) = Ret f) as -> by by apply index_nat. cbn [mbind outcome_bind].
    eexists. split; [reflexivity|]. split; [done|]. split; [done|]. split; [done|]. by exists f.
  - cbn. exists self. split; [done|]. by split_and!.
Qed.

(** The binary search keeps the files left of the interval below the target and those right
    of it not below. *)
Definition below (t : bytes) (i : nat) : Prop := forall f, fs !! i = Some f -> iord (FileMetaData.largest f) t = Lt.
Definition not_below_at (t : bytes) (i : nat) : Prop := forall f, fs !! i = Some f -> iord (FileMetaData.largest f) t <> Lt.
Lemma largest_ascending i j f g : (i < j)%nat -> fs !! i = Some f -> fs !! j = Some g ->
  iord (FileMetaData.largest f) (FileMetaData.largest g) = Lt.
Proof. intros Hij Hi Hj. apply (Hsorted i j (file_entry f) (file_entry g) Hij); by rewrite list_lookup_fmap, ?Hi, ?Hj. Qed.
#[local] Instance level_user_total : TotalOrd ord := laws_ord (c:=c).
Lemma num_seek_loop self t : files self = fs -> comparator self = mk_icmp c -> ik_ok t -> forall fuel l r,
  (l <= r <= length fs)%nat -> (r - l <= fuel)%nat -> (forall i, (i < l)%nat -> below t i) -> (forall i, (r <= i)%nat -> not_below_at t i) ->
  exists k : nat, seek_loop fuel self t (Z.of_nat l) (Z.of_nat r) = Ret (Z.of_nat k) /\ (k <= length fs)%nat /\
    (forall i, (i < k)%nat -> below t i) /\ (forall i, (k <= i)%nat -> not_below_at t i).
Proof.
  intros Hf Hc Ht. induction fuel as [|fuel IH]; intros l r Hlr Hfuel Hlow Hhigh; cbn [seek_loop];
    destruct (Z.ltb_spec (Z.of_nat l) (Z.of_nat r)) as [Hlt|Hge]; try lia.
  - exists l. split_and!; [done|lia|done|]. intros i Hi. apply Hhigh. lia.
  - set (mid := (l + (r - l) / 2)%nat).
    assert (Em : Z.of_nat l + (Z.of_nat r - Z.of_nat l) / 2 = Z.of_nat mid) by (unfold mid; rewrite Nat2Z.inj_add, Nat2Z.inj_div, Nat2Z.inj_sub; lia).
    assert (Hmid : (l <= mid < r)%nat) by (unfold mid; pose proof (Nat.div_lt (r - l) 2 ltac:(lia) ltac:(lia)); lia).
    destruct (lookup_lt_is_Some_2 fs mid ltac:(lia)) as [f Hfm]. rewrite Em, Hf, Hc. rewrite (index_nat _ _ _ Hfm). cbn [mbind outcome_bind].
    pose proof (proj1 (Forall_lookup _ _) Hfs _ _ Hfm) as [_ Hok].
    rewrite (compare_ord (ord:=iord) (key_ok:=ik_ok)) by done. cbn [mbind outcome_bind].
    destruct (iord (FileMetaData.largest f) t) eqn:Eo; cbn [is_lt].
    1, 3: apply (IH l mid); [lia|lia|done|]; intros i Hi g Hg Hx;
      (destruct (decide (i = mid)) as [->|]; [simplify_eq; congruence|]);
      pose proof (largest_ascending mid i f g ltac:(lia) Hfm Hg) as Hfg; pose proof (ord_lt_trans (ord:=iord) _ _ _ Hfg Hx); congruence.
    replace (Z.of_nat mid + 1) with (Z.of_nat (S mid)) by lia. apply (IH (S mid) r); [lia|lia| |done].
    intros i Hi g Hg. destruct (decide (i = mid)) as [->|]; [simplify_eq; congruence|].
    destruct (decide (i < l)%nat); [by apply (Hlow i)|]. apply (ord_lt_trans (ord:=iord) _ (FileMetaData.largest f)); [|done].
    by apply (largest_ascending i mid); [lia|..].
  - exists l. split_and!; [done|lia|done|]. intros i Hi. apply Hhigh. lia.
Qed.
Lemma num_seek self p t : num_at self p -> ik_ok t -> exists self', seek_ self t = Ret self' /\ num_at self' (pos_seek iord idx t).
Proof.
  intros (Hf & Hc & _) Ht. destruct (num_seek_loop self t Hf Hc Ht (length fs) 0 (length fs)) as (k & E & Hk & Hlow & Hhigh); [lia|lia|lia| |].
  { intros i Hi f Hx. apply lookup_lt_Some in Hx. lia. }
  unfold seek_. rewrite Hf. change (len fs) with (Z.of_nat (length fs)). change 0 with (Z.of_nat 0). rewrite E. cbn [mbind outcome_bind].
  assert (Epos : pos_seek iord idx t = if decide (k < length fs)%nat then Some k else None).
  { case_decide as Hd.
    - apply pos_seek_intro; [by rewrite length_map|..]; intros *; rewrite list_lookup_fmap; [|intros Hj];
        (destruct (fs !! _) as [f|] eqn:Ef; [|done]); intros [= <-]; [by apply (Hhigh k)|by eapply Hlow].
    - apply pos_seek_intro_none. intros j e. rewrite list_lookup_fmap. destruct (fs !! j) as [f|] eqn:Ef; [|done]. intros [= <-].
      apply (Hlow j); [apply lookup_lt_Some in Ef; lia|done]. }
  rewrite Epos. apply refresh_ok; cbn [files comparator pos with_pos]; [done..| |by intros i; case_decide; intros [= <-]].
  case_decide; [rewrite (proj2 (Z.leb_gt _ _)) by lia; done|by rewrite (proj2 (Z.leb_le _ _)) by lia].
Qed.

Lemma num_laws : IterLaws iord idx ik_ok num_at.
Proof.
  split.
  - intros self p Hp. cbn. by rewrite (num_valid _ _ Hp).
  - intros self i (_ & _ & _ & f & Hf & _). rewrite length_map. by eapply lookup_lt_Some.
  - intros self p (Hf & Hc & _). cbn. unfold seek_to_first_. apply refresh_ok; cbn [files comparator pos with_pos]; [done..| |].
    + rewrite Hf. by destruct fs.
    + destruct fs; cbn; [done|]. intros i [= <-]. lia.
  - intros self p (Hf & Hc & _). cbn. unfold seek_to_last_. apply refresh_ok; cbn [files comparator pos with_pos]; [done..| |].
    + rewrite Hf. destruct fs as [|x l]; cbn [map pos_last num_pos length]; [done|]. rewrite length_map. unfold len. cbn [length]. lia.
    + destruct fs as [|x l]; cbn [map pos_last length]; [done|]. rewrite length_map. intros i [= <-]. lia.
  - intros self p t Hp Ht. by apply (num_seek self p).
  - intros self i Hp. pose proof Hp as (Hf & Hc & Ei & f & Hi & _). cbn. unfold next_. rewrite (num_valid _ _ Hp). cbn [is_some assert mbind outcome_bind].
    unfold pos_next. rewrite length_map, Hf, Ei. change (len fs) with (Z.of_nat (length fs)).
    apply refresh_ok; cbn [files comparator pos with_pos]; [done..| |intros j; case_decide; [by intros [= <-]|done]].
    case_decide; [rewrite (proj2 (Z.leb_gt _ _)) by lia; cbn; lia|by rewrite (proj2 (Z.leb_le _ _)) by lia].
  - intros self i Hp. pose proof Hp as (Hf & Hc & Ei & f & Hi & _). cbn. unfold prev_. rewrite (num_valid _ _ Hp). cbn [is_some assert mbind outcome_bind].
    apply lookup_lt_Some in Hi. apply refresh_ok; cbn [files comparator pos with_pos]; [done..| |destruct i; cbn; [done|intros j [= <-]; lia]].
    rewrite Ei. destruct i; cbn [pos_prev num_pos]; lia.
  - intros self i e Hp. pose proof Hp as (Hf & Hc & Ei & f & Hi & Hv). rewrite list_lookup_fmap, Hi. intros [= <-]. cbn.
    unfold key, value_. rewrite (num_valid _ _ Hp), Hf, Ei. cbn [is_some assert mbind outcome_bind]. by rewrite (index_nat _ _ _ Hi), Hv.
  - done.
Qed.
Lemma num_new : num_at (LevelFileNumIter.new fs (mk_icmp c)) None.
Proof. by split_and!. Qed.
End level_files.

(** ** The children *)

(** An iterator inside another that only passes the calls on. *)
Record wraps {I J} `{DbIterator I} `{DbIterator J} (inj : I -> J) : Prop := {
  w_valid it : valid (inj it) = valid it;
  w_first it : seek_to_first (inj it) = (x ← seek_to_first it; Ret (inj x));
  w_last it : seek_to_last (inj it) = (x ← seek_to_last it; Ret (inj x));
  w_seek it t : seek (inj it) t = (x ← seek it t; Ret (inj x));
  w_next it : next (inj it) = (x ← next it; Ret (inj x));
  w_prev it : prev (inj it) = (x ← prev it; Ret (inj x));
  w_key it : iter_key (inj it) = iter_key it;
  w_value it : iter_value (inj it) = iter_value it;
  w_status it : iter_status (inj it) = iter_status it;
}.
Lemma wraps_cursor {I J} `{DbIterator I} `{DbIterator J} (inj : I -> J) ord es target_ok it p : wraps inj ->
  cursor ord es target_ok it p -> cursor ord es target_ok (inj it) p.
Proof.
  intros [W1 W2 W3 W4 W5 W6 W7 W8 W9] (st & [H1 H2 H3 H4 H5 H6 H7 H8 H9] & Hp).
  exists (fun j q => exists i, j = inj i /\ st i q). split; [|by exists it].
  split.
  - intros j q (i & -> & Hq). rewrite W1. by apply H1.
  - intros j q (i & -> & Hq). by apply (H2 i).
  - intros j q (i & -> & Hq). rewrite W2. destruct (H3 i q Hq) as (i' & -> & Hq'). eexists. split; [done|by exists i'].
  - intros j q (i & -> & Hq). rewrite W3. destruct (H4 i q Hq) as (i' & -> & Hq'). eexists. split; [done|by exists i'].
  - intros j q t (i & -> & Hq) Ht. rewrite W4. destruct (H5 i q t Hq Ht) as (i' & -> & Hq'). eexists. split; [done|by exists i'].
  - intros j q (i & -> & Hq). rewrite W5. destruct (H6 i q Hq) as (i' & -> & Hq'). eexists. split; [done|by exists i'].
  - intros j q (i & -> & Hq). rewrite W6. destruct (H7 i q Hq) as (i' & -> & Hq'). eexists. split; [done|by exists i'].
  - intros j q e (i & -> & Hq). rewrite W7, W8. by apply H8.
  - intros j q (i & -> & Hq). rewrite W9. by apply (H9 i q).
Qed.
Lemma mem_wraps {C} `{Comparator C} : wraps (MemChild (C:=C)).
Proof. by split. Qed.
Lemma table_wraps {C} `{Comparator C} : wraps (TableChild (C:=C)).
Proof. by split. Qed.
Lemma level_wraps {C} `{Comparator C} : wraps (LevelChild (C:=C)).
Proof. by split. Qed.

Lemma ik_ord_anti ord a b : (forall x y, ord x y = Eq -> x = y) -> ik_ok a -> ik_ok b -> ik_ord ord a b = Eq -> a = b.
Proof.
  intros Hanti Ha Hb. unfold ik_ord. destruct (ord (ukey a) (ukey b)) eqn:E; [|done..]. apply Hanti in E. intros Ht%Z.compare_eq.
  by rewrite (ikey_eta a Ha), (ikey_eta b Hb), E, Ht.
Qed.
(** Lists whose entries have keys of their own can be merged. *)
Lemma nodup_mergeable ord ess : (forall a b, ik_ok a -> ik_ok b -> ik_ord ord a b = Eq -> a = b) ->
  Forall (sorted_entries (ik_ord ord)) ess -> Forall (Forall (fun e => ik_ok e.1)) ess -> NoDup (map fst (concat ess)) -> mergeable (ik_ord ord) ess.
Proof.
  intros Heq Hs Hok Hnd. split; [done|]. intros i j x y p q Hij Hx Hy Hp Hq E.
  assert (E1 : p.1 = q.1).
  { apply Heq; [| |done]; rewrite Forall_lookup in Hok.
    - apply Hok in Hx. rewrite Forall_forall in Hx. by apply Hx.
    - apply Hok in Hy. rewrite Forall_forall in Hy. by apply Hy. }
  rewrite <- (take_drop j ess), concat_app, map_app in Hnd. apply NoDup_app in Hnd as (_ & Hd & _).
  apply (Hd p.1).
  - apply list_elem_of_In, in_map, in_concat. exists x. split; [|by apply list_elem_of_In].
    apply list_elem_of_In, (list_elem_of_lookup_2 _ i). by rewrite lookup_take_lt.
  - rewrite E1. apply list_elem_of_In, in_map, in_concat. exists y. split; [|by apply list_elem_of_In].
    apply list_elem_of_In, (list_elem_of_lookup_2 _ 0). by rewrite lookup_drop, Nat.add_0_r.
Qed.

Lemma sorted_app ord a b : sorted_entries ord a -> sorted_entries ord b -> (forall x y, x ∈ a -> y ∈ b -> ord x.1 y.1 = Lt) -> sorted_entries ord (a ++ b).
Proof.
  intros Ha Hb Hab i j x y Hij Hx Hy. rewrite lookup_app in Hx, Hy.
  destruct (a !! i) as [x'|] eqn:Ex, (a !! j) as [y'|] eqn:Ey; simplify_eq.
  - by apply (Ha i j).
  - apply Hab; by eapply list_elem_of_lookup_2.
  - apply lookup_lt_Some in Ey. apply lookup_ge_None in Ex. lia.
  - apply lookup_ge_None in Ex, Ey. by apply (Hb (i - length a)%nat (j - length a)%nat); [lia|..].
Qed.

(** A merging iterator over cursors of such lists is a cursor of their sorted merge. *)
Lemma merging_cursor {C I} `{Comparator C} `{DbIterator I} (c : C) key_ok ord `{!ComparatorLaws c key_ok ord} target_ok (cs : list I) ess :
  mergeable ord ess -> Forall2 (fun ch es => cursor ord es target_ok ch None) cs ess -> (forall e, e ∈ concat ess -> key_ok e.1 /\ target_ok e.1) ->
  exists M, sorted_entries ord M /\ M ≡ₚ concat ess /\ cursor ord M target_ok (MergingIterator.new c cs) None.
Proof.
  intros Hm Hcs Hk. pose proof (laws_ord (c:=c)) as Ho. destruct (merge_from_ok ord 0 ess Hm) as (H1 & H2 & H3 & H4).
  exists (map snd (merged ord ess)). split_and!; [done|done|].
  set (at_pos := fun k => cursor (I:=I) ord (child_entries (merged ord ess) k) target_ok).
  exists (merge_at c (merged ord ess) (length ess) at_pos). split.
  - apply merging_laws with (key_ok := key_ok); [done|intros; apply cursor_laws|done| |].
    { eapply Forall_impl; [exact H3|]. cbn. lia. }
    apply Forall_forall. intros x Hx. apply Hk. fold (merged ord ess) in H2. rewrite <- H2. by apply list_elem_of_In, in_map, list_elem_of_In.
  - split; [done|]. split; [done|]. exists (fun _ => None). split; [by eapply Forall2_length|].
    intros k ch Hch. destruct (Forall2_lookup_l _ _ _ _ _ Hcs Hch) as (es & Hes & Hc). unfold at_pos.
    pose proof (H4 k es Hes) as E4. cbn in E4. fold (merged ord ess) in E4. by rewrite E4.
Qed.

(** ** The view and what reads answer *)

Lemma kind_value e : kind_of e = Some Value <-> ekind e = 1.
Proof.
  unfold kind_of, ekind, value_type_from_tag. destruct (Z.eqb_spec (Z.land (utag e.1) 255) 0) as [->|]; [done|].
  by destruct (Z.eqb_spec (Z.land (utag e.1) 255) 1).
Qed.
Lemma wf_parses e : entry_wf e -> entry_parses e.
Proof. intros [Hi Hk]. split; [done|]. unfold ekind in Hk. unfold kind_of, value_type_from_tag. destruct Hk as [->| ->]; by eexists. Qed.
Lemma tag_vis snap e : utag e.1 <= mk_tag snap Value -> vis snap e = true.
Proof.
  intros Ht. unfold vis, seq_of. apply Z.leb_le. rewrite Z.shiftr_div_pow2 by lia. unfold mk_tag in Ht. cbn [value_type_u8] in Ht.
  apply Z.lt_succ_r, Z.div_lt_upper_bound; lia.
Qed.
Lemma view_answers ord `{!TotalOrd ord} snap es x : (forall a b, ord a b = Eq -> a = b) -> 0 <= snap <= MAX_SEQUENCE_NUMBER ->
  sorted_entries (ik_ord ord) es -> Forall entry_wf es ->
  x ∈ view ord snap es <-> answers (mk_ikey x.1 (mk_tag snap Value)) es (LookupFound x.2).
Proof.
  intros Hanti Hsnap Hs Hwf.
  assert (Hp : Forall entry_parses es) by (apply (Forall_impl _ _ _ Hwf), wf_parses).
  assert (Hvis : forall e, e ∈ es -> utag e.1 <= mk_tag snap Value <-> vis snap e = true).
  { intros e He. split; [apply tag_vis|]. apply visible_tag_bound. rewrite Forall_forall in Hp. by apply Hp. }
  assert (Hle : forall i j a b, (i <= j)%nat -> es !! i = Some a -> es !! j = Some b -> ukey a.1 = ukey b.1 -> utag b.1 <= utag a.1).
  { intros i j a b Hij Ha Hb Hu. pose proof (sorted_le _ _ _ _ _ Hs Hij Ha Hb) as Hx. unfold ik_ord in Hx. rewrite Hu, ord_refl in Hx.
    by rewrite Z.compare_le_iff in Hx. }
  split.
  - intros [p Hx]%list_elem_of_lookup. apply (view_split ord snap es) in Hx as (i & e & He & Hc & _ & ->). cbn [fst snd].
    apply chosen_fresh in Hc as [Hf Hk%kind_value]. apply (vis_earlier ord snap es i e) in Hf as [Hv Hno].
    pose proof (list_elem_of_lookup_2 _ _ _ He) as Hin. apply answers_found; [|done].
    unfold newest_in, visible_to. rewrite ukey_mk, utag_mk by by apply mk_tag_u64. split_and!; [done|done|by apply Hvis|].
    intros e' [j Hj]%list_elem_of_lookup [Hu Ht]. pose proof (list_elem_of_lookup_2 _ _ _ Hj) as Hin'. apply Hvis in Ht; [|done].
    destruct (decide (j < i)%nat) as [Hlt|Hge]; [|apply (Hle i j); [lia|done..]].
    destruct (Hno j e' Hlt Hj Ht). rewrite Hu. apply ord_refl.
  - destruct x as [k v]. cbn [fst snd]. intros Ha. inversion Ha as [e (Hin & [Hu Ht] & Hmax) Hk Ee| |]; subst v. rewrite ukey_mk in Hu. subst k.
    rewrite utag_mk in Ht by by apply mk_tag_u64. pose proof Hin as [i Hi]%list_elem_of_lookup. apply list_elem_of_lookup.
    exists (rank ord snap es i). apply (view_at_rank ord snap es i e Hi). unfold chosen. apply kind_value in Hk. rewrite bool_decide_true, andb_true_r by done.
    apply (vis_earlier ord snap es i e). split; [by apply Hvis|]. intros j y Hj Hy Hv Ho%Hanti.
    pose proof (list_elem_of_lookup_2 _ _ _ Hy) as Hyin. apply Hvis in Hv; [|done].
    assert (Hyt : utag y.1 <= utag e.1).
    { apply Hmax; [done|]. unfold visible_to. by rewrite ukey_mk, utag_mk by by apply mk_tag_u64. }
    pose proof (Hs j i y e Hj Hy Hi) as Hlt. unfold ik_ord in Hlt. rewrite Ho, ord_refl in Hlt. rewrite Z.compare_lt_iff in Hlt. lia.
Qed.

Section scan.
Context {W C P Co K : Type} `{E : Env W} {file_at : W -> path -> option bytes} `{!RandomAccessLaws file_at}.
Context `{HC : Comparator C} `{HP : FilterPolicy P} `{HCo : Compressor Co} `{HK : Cache K Block}.
Context {cache_ok : K -> Prop} {cached : K -> bytes -> Block -> Prop} {next : K -> Z}
  `{!CacheLaws cache_ok cached} `{!CacheIdLaws cache_ok cached} `{!CacheFreshLaws next}.
Context (c : C) (ord : bytes -> bytes -> comparison) `{!ComparatorLaws c (fun _ => True) ord}.
Context (Hanti : forall a b, ord a b = Eq -> a = b).
Context (co : option Co) (Hco : forall x, co = Some x -> CompressorLaws x).
Context (policy : option P) (Hname : forall q, policy = Some q -> ik_ok (TableFileBuilder.filter_key (filter_name q))).
Abbreviation iord := (ik_ord ord) (only parsing).
Abbreviation db := (DBImplCore.t W C P Co K) (only parsing).
Context (dbname : string) (dir : Z -> option (table_file (P:=P))).
#[local] Instance scan_user_total : TotalOrd ord := laws_ord (c:=c).
Abbreviation ready b st := (tc_inv (file_at:=file_at) (cache_ok:=cache_ok) (cached:=cached) (next:=next) c ord co policy dbname dir b st).
Abbreviation has n := (contents dir n) (only parsing).
Abbreviation all_held fs := (Forall (VersionCorrect.holds ord (contents dir)) fs) (only parsing).

(** A table's iterator, and the iterator of a level of files that follow each other. *)
Lemma table_cursor b tc w k f verify : ready (S b) (tc, (w, k)) -> on_file dir (FileMetaData.number f) ->
  exists it tc' k', TableCache.new_iterator_verify (FileMetaData.number f) verify (tc, (w, k)) = (Ret it, (tc', (w, k'))) /\ ready b (tc', (w, k')) /\
    cursor iord (has (FileMetaData.number f)) ik_ok it None.
Proof.
  intros Hr Hf. destruct (contents_on_file dir _ Hf) as (tf & Htf & ->).
  destruct (cached_iterator_ok (file_at:=file_at) (cache_ok:=cache_ok) (cached:=cached) (next:=next) c ord co Hco policy Hname dbname dir b tc w k _ tf verify Hr Htf)
    as (it & tc' & k' & E1 & Hr' & Hc). exists it, tc', k'. by split_and!.
Qed.
Lemma level_cursor b tc io fs verify : ready (S b) (tc, io) -> Forall (fun f => on_file dir (FileMetaData.number f)) fs ->
  Forall (fun f => is_u64 (FileMetaData.number f)) fs -> all_held fs -> level_disjoint ord fs ->
  cursor iord (stored_in (contents dir) fs) ik_ok (level_iterator_new fs (mk_icmp c) tc verify io) None.
Proof.
  intros Hr Hon Hu Hh Hd. rewrite Forall_forall in Hon, Hu, Hh.
  pose proof (proj2 (Forall_forall _ _) Hh) as Hh'.
  assert (Hok : Forall file_ok fs) by (apply Forall_forall; intros f Hf; apply (fh_keys _ _ _ (Hh f Hf))).
  assert (Hin : forall k e, map file_entry fs !! k = Some e -> exists f, fs !! k = Some f /\ f ∈ fs /\ e = file_entry f).
  { intros k e Hk. rewrite list_lookup_fmap in Hk. destruct (fs !! k) as [f|] eqn:Ef; [|done]. injection Hk as <-. exists f.
    split_and!; [done|by eapply list_elem_of_lookup_2|done]. }
  assert (Hasc : sorted_entries iord (map file_entry fs)).
  { intros i j x y Hij Hx Hy. apply Hin in Hx as (f & Ef & Hf & ->). apply Hin in Hy as (g & Eg & Hg & ->). cbn.
    pose proof (Hd _ _ _ _ Hij Ef Eg) as Hlt. destruct (fh_last _ _ _ (Hh g Hg)) as [x Hx].
    pose proof (fh_lower _ _ _ (Hh g Hg) _ Hx) as Hle. cbn in Hle. exact (ord_lt_le_trans (ord:=iord) _ _ _ Hlt Hle). }
  set (block := fun h => has (from_le_bytes h)).
  assert (Hblock : forall f, f ∈ fs -> block (file_entry f).2 = has (FileMetaData.number f)).
  { intros f Hf. unfold block. cbn. rewrite le_combine_split_id; [done|]. specialize (Hu f Hf). unfold is_u64 in Hu. lia. }
  assert (Es : stored_in (contents dir) fs = concat (map (fun e => block e.2) (map file_entry fs))).
  { unfold stored_in. rewrite map_map. f_equal. apply map_ext_in. intros f Hf%list_elem_of_In. by rewrite Hblock. }
  rewrite Es.
  exists (two_at (map file_entry fs) (num_at c fs) block (fun h => cursor iord (block h) ik_ok) (level_table_function tc verify io)). split.
  - apply (two_level_laws iord ik_ok); [by apply num_laws|by intros; apply cursor_laws| | |].
    + intros k e Hk. apply Hin in Hk as (f & Ef & Hf & ->). unfold level_table_function. cbn [file_entry snd].
      rewrite len_le_split. change (8 =? 8) with true. cbn [negb]. rewrite le_combine_split_id by (specialize (Hu f Hf); unfold is_u64 in Hu; lia).
      destruct io as [w ca]. destruct (table_cursor b tc w ca f verify Hr (Hon f Hf)) as (it & tc' & k' & E1 & _ & Hc). exists it. rewrite E1. split; [done|].
      change (to_le_bytes 8 (FileMetaData.number f)) with (file_entry f).2. by rewrite Hblock.
    + intros k e x Hk Hx. apply Hin in Hk as (f & Ef & Hf & ->). rewrite Hblock in Hx by done. by apply (fh_upper _ _ _ (Hh f Hf)).
    + intros k j e e' x Hkj Hk Hj Hx. apply Hin in Hk as (f & Ef & Hf & ->). apply Hin in Hj as (g & Eg & Hg & ->). rewrite Hblock in Hx by done.
      apply (ord_lt_le_trans (ord:=iord) _ (FileMetaData.smallest g)); [by apply (Hd k j)|by apply (fh_lower _ _ _ (Hh g Hg))].
  - apply two_level_new; [apply num_new|]. rewrite length_map. lia.
Qed.

(** *** Opening all of it

    What follows opens tables only: it may use up ids of the block cache, [n] of them here,
    writes no file, and comes back with cursors whose entries make up [es]. *)
Definition yields (self : db) (m : action (db * (W * K)) (list (child C))) (n : nat) (es : list entry) : Prop :=
  forall b tc w k, ready (n + b) (tc, (w, k)) -> exists chs ess tc' k',
    m (DBImplCore.with_table_cache tc self, (w, k)) = (Ret chs, (DBImplCore.with_table_cache tc' self, (w, k'))) /\ ready b (tc', (w, k')) /\
    concat ess = es /\ Forall (sorted_entries iord) ess /\ Forall2 (fun ch es => cursor iord es mem_target_ok ch None) chs ess.

Lemma tables_ready_less n b st : ready (n + b) st -> ready b st.
Proof. induction n as [|n IH]; [done|]. intros Hr. apply IH. by apply (tc_inv_less (file_at:=file_at)). Qed.
Lemma yields_nil self : yields self (mret []) 0 [].
Proof. intros b tc w k Hr. exists [], [], tc, k. by split_and!. Qed.
Lemma yields_app self m1 m2 n1 n2 es1 es2 : yields self m1 n1 es1 -> yields self m2 n2 es2 ->
  yields self (a ← m1; x ← m2; mret (a ++ x)) (n1 + n2) (es1 ++ es2).
Proof.
  intros H1 H2 b tc w k Hr. rewrite <- Nat.add_assoc in Hr.
  destruct (H1 _ _ _ _ Hr) as (c1 & l1 & tc1 & k1 & E1 & Hr1 & <- & Hs1 & Hc1). destruct (H2 _ _ _ _ Hr1) as (c2 & l2 & tc2 & k2 & E2 & Hr2 & <- & Hs2 & Hc2).
  exists (c1 ++ c2), (l1 ++ l2), tc2, k2. rewrite (action_bind_ret _ _ _ _ _ E1), (action_bind_ret _ _ _ _ _ E2).
  split_and!; [done|done|by rewrite concat_app|by apply Forall_app|by apply Forall2_app].
Qed.
Lemma table_children_ok self verify fs : Forall (fun f => on_file dir (FileMetaData.number f)) fs -> all_held fs ->
  yields self (Scan.table_children fs verify) (length fs) (stored_in (contents dir) fs).
Proof.
  intros Hon Hh. induction fs as [|f fs IH]; [apply yields_nil|]. apply Forall_cons in Hon as [Hf Hon], Hh as [Hfh Hh].
  intros b tc w k Hr. destruct (table_cursor (length fs + b) tc w k f verify Hr Hf) as (it & tc1 & k1 & E1 & Hr1 & st & Hl & Hst).
  destruct (IH Hon Hh b tc1 w k1 Hr1) as (chs & ess & tc2 & k2 & E2 & Hr2 & Ees & Hs & Hc).
  exists (TableChild it :: chs), (has (FileMetaData.number f) :: ess), tc2, k2. cbn [Scan.table_children].
  erewrite action_bind_ret by (unfold Core.on_tables; cbn [fst snd]; change (DBImplCore.table_cache (DBImplCore.with_table_cache tc self)) with tc; by rewrite E1).
  change (DBImplCore.with_table_cache tc1 (DBImplCore.with_table_cache tc self)) with (DBImplCore.with_table_cache tc1 self).
  rewrite (action_bind_ret _ _ _ _ _ E2). split_and!; [done|done|by cbn [concat]; rewrite Ees|constructor; [apply Hfh|done]|].
  constructor; [|done]. apply (wraps_cursor _ _ _ _ _ _ table_wraps). exists st. split; [|done].
  apply (laws_weaken _ _ ik_ok); [by intros t [Ht _]|done].
Qed.

Lemma stored_sorted fs : all_held fs -> level_disjoint ord fs -> sorted_entries iord (stored_in (contents dir) fs).
Proof.
  induction fs as [|f fs IH]; intros Hh Hd; [intros [|i] j x y _ Hx; discriminate|].
  apply Forall_cons in Hh as [Hf Hh]. change (stored_in (contents dir) (f :: fs)) with (has (FileMetaData.number f) ++ stored_in (contents dir) fs).
  apply sorted_app; [apply Hf|apply IH; [done|]; intros i j a x Hij Ha Hx; by apply (Hd (S i) (S j)); [lia|..]|].
  intros x y Hx (g & [j Hj]%list_elem_of_lookup & Hy)%stored_in_elem. rewrite Forall_lookup in Hh. pose proof (Hh _ _ Hj) as Hg.
  pose proof (fh_upper _ _ _ Hf x Hx) as H1. pose proof (fh_lower _ _ _ Hg y Hy) as H2.
  pose proof (Hd 0%nat (S j) f g ltac:(lia) eq_refl Hj) as H3.
  apply (ord_le_lt_trans (ord:=iord) _ (FileMetaData.largest f)); [done|]. by apply (ord_lt_le_trans (ord:=iord) _ (FileMetaData.smallest g)).
Qed.

Lemma level_zero (self : db) verify fs : Version.level_files (Core.current self) 0 = Ret fs ->
  Forall (fun f => on_file dir (FileMetaData.number f)) fs -> all_held fs -> yields self (Scan.level_children verify 0) (length fs) (stored_in (contents dir) fs).
Proof.
  intros Hfs Hon Hh b tc w k Hr. unfold Scan.level_children. erewrite action_bind_ret by reflexivity. cbn [id fst].
  erewrite action_bind_ret by (unfold lift; change (Core.current (DBImplCore.with_table_cache tc self)) with (Core.current self); by rewrite Hfs).
  case_bool_decide as Hnil; [subst fs; by apply yields_nil|]. by apply table_children_ok.
Qed.
Lemma level_deep (self : db) verify level fs : level <> 0 -> DBImplCore.icmp self = mk_icmp c -> Version.level_files (Core.current self) level = Ret fs ->
  Forall (fun f => on_file dir (FileMetaData.number f)) fs -> Forall (fun f => is_u64 (FileMetaData.number f)) fs -> all_held fs -> level_disjoint ord fs ->
  yields self (Scan.level_children verify level) 1 (stored_in (contents dir) fs).
Proof.
  intros Hl Hic Hfs Hon Hu Hh Hd b tc w k Hr. unfold Scan.level_children. erewrite action_bind_ret by reflexivity. cbn [id fst].
  erewrite action_bind_ret by (unfold lift; change (Core.current (DBImplCore.with_table_cache tc self)) with (Core.current self); by rewrite Hfs).
  case_bool_decide as Hnil; [subst fs; by apply yields_nil, (tables_ready_less 1)|]. rewrite (proj2 (Z.eqb_neq _ _)) by done.
  do 2 eexists; exists tc, k. split; [reflexivity|]. split; [by apply (tables_ready_less 1)|]. split; [|split; [by apply Forall_singleton, stored_sorted|]].
  - cbn [concat]. apply app_nil_r.
  - apply Forall2_cons_2; [|done]. apply (wraps_cursor _ _ _ _ _ _ level_wraps).
    change (DBImplCore.icmp (DBImplCore.with_table_cache tc self)) with (DBImplCore.icmp self). rewrite Hic.
    destruct (level_cursor b tc (w, k) fs verify Hr Hon Hu Hh Hd) as (st & Hlaw & Hst). exists st. split; [|done].
    apply (laws_weaken _ _ ik_ok); [by intros t [Ht _]|done].
Qed.

(** The version's files by number, as the code keeps them. *)
Definition numbers_ok (v : Version.t C) : Prop := Forall (Forall (fun f => is_u64 (FileMetaData.number f))) (Version.files v).
Lemma deeper_levels (self : db) verify levels fss : DBImplCore.icmp self = mk_icmp c -> (forall l, l ∈ levels -> l <> 0) ->
  Forall2 (fun l fs => index (Version.files (Core.current self)) l = Ret fs) levels fss ->
  Forall (Forall (fun f => on_file dir (FileMetaData.number f))) fss -> Forall (Forall (fun f => is_u64 (FileMetaData.number f))) fss ->
  Forall (Forall (VersionCorrect.holds ord (contents dir))) fss -> Forall (level_disjoint ord) fss ->
  yields self (Scan.levels_children verify levels) (length fss) (concat (map (stored_in (contents dir)) fss)).
Proof.
  intros Hic Hne Hall Hon Hu Hh Hd. induction Hall as [|l fs levels fss Hl _ IH]; [apply yields_nil|].
  apply Forall_cons in Hon as [Hf Hon], Hu as [Hfu Hu], Hh as [Hfh Hh], Hd as [Hfd Hd].
  apply (yields_app _ _ _ 1); [apply level_deep; [apply Hne; left|done..]|]. apply IH; [|done..]. intros x Hx. apply Hne. by right.
Qed.
Lemma levels_ok (self : db) verify : DBImplCore.icmp self = mk_icmp c -> version_wf c ord (contents dir) (Core.current self) ->
  all_stored (on_file dir) (Core.current self) -> numbers_ok (Core.current self) ->
  yields self (Scan.levels_children verify (seqZ 0 NUM_LEVELS)) (lookups (Core.current self)) (version_entries (contents dir) (Core.current self)).
Proof.
  intros Hic [_ W2 W3 W4 _ _ _] Hon Hu. destruct (levels_split _ W2) as (l0 & rest & Ev & Hrest & Hidx).
  unfold version_entries, all_stored, lookups, numbers_ok in *. rewrite Ev in *. apply Forall_cons in W3 as [Wl0 Wrest], Hon as [Hon0 Hon], Hu as [Hu0 Hu].
  cbn [drop] in W4. rewrite drop_0 in W4. change (default [] ((l0 :: rest) !! 0%nat)) with l0. rewrite <- Hrest.
  change (seqZ 0 NUM_LEVELS) with (0 :: Version.levels_from 1 NUM_LEVELS). cbn [map concat Scan.levels_children].
  apply yields_app.
  - apply level_zero; [unfold Version.level_files; by rewrite Ev|done..].
  - rewrite <- Ev in Hidx. apply deeper_levels; [done| |done..]. intros l Hl%elem_of_seqZ. lia.
Qed.

Lemma mem_child_ok (self : db) r es (tc : TableCache.t W (InternalKeyComparator C) P Co) (io : W * K) : mem_at_ref c ord (DBImplCore.heap self) r es ->
  exists ch, Scan.mem_child r (DBImplCore.with_table_cache tc self, io) = (Ret ch, (DBImplCore.with_table_cache tc self, io)) /\
    sorted_entries iord es /\ cursor iord es mem_target_ok ch None.
Proof.
  intros (_ & m & Hm & Hh). exists (MemChild (MemTableIterator.new m)). split; [|split; [exact (holds_entries_sorted (c:=c) (ord:=ord) m es Hh)|]].
  - unfold Scan.mem_child. erewrite action_bind_ret by reflexivity. unfold SharedMemTable.new_iterator, SharedMemTable.deref. cbn [id fst].
    change (DBImplCore.heap (DBImplCore.with_table_cache tc self)) with (DBImplCore.heap self). by rewrite Hm.
  - destruct Hh as (Hcmp & Hes & sq & lh & Hl & Hc & Hk). apply (wraps_cursor _ _ _ _ _ _ mem_wraps).
    exists (mem_at m sq). split; [exact (mem_iter_laws (c:=c) (ord:=ord) m es sq lh Hes Hl Hc Hk)|]. split; [done|]. by split.
Qed.
Lemma all_children_ok verify b (s : db * (W * K)) em ei : DBImplCore.icmp s.1 = mk_icmp c -> numbers_ok (Core.current s.1) ->
  db_view (file_at:=file_at) (cache_ok:=cache_ok) (cached:=cached) (next:=next) c ord co policy dbname dir (lookups (Core.current s.1) + b) s em ei ->
  exists chs ess tc k, Scan.all_children verify s = (Ret chs, (DBImplCore.with_table_cache tc s.1, (s.2.1, k))) /\ ready b (tc, (s.2.1, k)) /\
    concat ess = db_entries dir s em ei /\ Forall (sorted_entries iord) ess /\ Forall2 (fun ch es => cursor iord es mem_target_ok ch None) chs ess.
Proof.
  intros Hic Hu [Hm Hi Hv Hst Ht _ _]. destruct s as [self [w k]]. cbn [fst snd] in *.
  destruct (mem_child_ok self _ em (DBImplCore.table_cache self) (w, k) Hm) as (chm & Em & Hsm & Hcm).
  destruct (levels_ok self verify Hic Hv Hst Hu b _ w k Ht) as (chs & ess & tc & k' & El & Hr & Ees & Hs & Hc).
  replace (DBImplCore.with_table_cache (DBImplCore.table_cache self) self) with self in Em, El by by destruct self.
  unfold Scan.all_children. erewrite action_bind_ret by reflexivity. cbn [id fst]. rewrite (action_bind_ret _ _ _ _ _ Em).
  destruct (DBImplCore.imm self) as [ri|].
  - destruct (mem_child_ok self ri ei (DBImplCore.table_cache self) (w, k) Hi) as (chi & Ei & Hsi & Hci).
    replace (DBImplCore.with_table_cache (DBImplCore.table_cache self) self) with self in Ei by by destruct self.
    exists (chm :: chi :: chs), (em :: ei :: ess), tc, k'. erewrite action_bind_ret by (rewrite (action_bind_ret _ _ _ _ _ Ei); reflexivity).
    rewrite (action_bind_ret _ _ _ _ _ El). unfold db_entries. split_and!; [done|done|by cbn [concat fst]; rewrite Ees|by repeat constructor|by repeat constructor].
  - exists (chm :: chs), (em :: ess), tc, k'. erewrite action_bind_ret by reflexivity. rewrite (action_bind_ret _ _ _ _ _ El).
    cbn in Hi. subst ei. unfold db_entries. split_and!; [done|done|by cbn [concat fst]; rewrite Ees|by repeat constructor|by repeat constructor].
Qed.

Lemma db_entries_wf b (s : db * (W * K)) em ei : 
  db_view (file_at:=file_at) (cache_ok:=cache_ok) (cached:=cached) (next:=next) c ord co policy dbname dir b s em ei -> Forall entry_wf (db_entries dir s em ei).
Proof.
  intros [[Hm _] Hi Hv _ _ _ _]. apply Forall_app. split; [done|]. apply Forall_app. split.
  { destruct (DBImplCore.imm s.1); [by destruct Hi|]. cbn in Hi. by subst ei. }
  pose proof (wf_holds _ _ _ _ Hv) as Hh. apply Forall_forall. intros e He. unfold version_entries in He.
  apply list_elem_of_In, in_concat in He as (es & (fs & <- & Hfs%list_elem_of_In)%in_map_iff & He%list_elem_of_In).
  apply stored_in_elem in He as (f & Hf & He). rewrite Forall_forall in Hh. pose proof (Hh fs Hfs) as Hhf. rewrite Forall_forall in Hhf.
  pose proof (fh_wf _ _ _ (Hhf f Hf)) as Hwf. rewrite Forall_forall in Hwf. by apply Hwf.
Qed.

(** Everything merged: the iterator inside. *)
Lemma merged_ok verify b (s : db * (W * K)) em ei : DBImplCore.icmp s.1 = mk_icmp c -> numbers_ok (Core.current s.1) ->
  db_view (file_at:=file_at) (cache_ok:=cache_ok) (cached:=cached) (next:=next) c ord co policy dbname dir (lookups (Core.current s.1) + b) s em ei ->
  NoDup (map fst (db_entries dir s em ei)) -> Forall (fun e => is_u32 (len e.1)) (db_entries dir s em ei) ->
  exists chs tc k M, Scan.all_children verify s = (Ret chs, (DBImplCore.with_table_cache tc s.1, (s.2.1, k))) /\ ready b (tc, (s.2.1, k)) /\
    sorted_entries iord M /\ M ≡ₚ db_entries dir s em ei /\ Forall entry_wf M /\
    cursor iord M mem_target_ok (MergingIterator.new (DBImplCore.icmp s.1) chs) None.
Proof.
  intros Hic Hu Hv Hnd Hlen. pose proof (db_entries_wf _ _ _ _ Hv) as Hwf.
  destruct (all_children_ok verify b s em ei Hic Hu Hv) as (chs & ess & tc & k & E1 & Hr & Ees & Hs & Hc).
  assert (Hok : forall e, e ∈ concat ess -> ik_ok e.1 /\ mem_target_ok e.1).
  { rewrite Ees. intros e He. rewrite Forall_forall in Hwf, Hlen. destruct (Hwf e He) as [Hi _]. split; [done|]. split; [done|]. by apply Hlen. }
  assert (Hmg : mergeable iord ess).
  { apply nodup_mergeable; [intros x y; by apply ik_ord_anti|done| |by rewrite Ees].
    apply Forall_forall. intros es Hes. apply Forall_forall. intros e He. apply Hok. apply list_elem_of_In, in_concat. exists es.
    split; by apply list_elem_of_In. }
  destruct (merging_cursor (mk_icmp c) ik_ok iord mem_target_ok chs ess Hmg Hc Hok) as (M & HsM & HpM & HcM).
  exists chs, tc, k, M. rewrite Hic. split_and!; [done|done|done|by rewrite HpM, Ees|by rewrite HpM, Ees|done].
Qed.
End scan.

(** ** Claims *)

(** C3: (DB::iter) The iterator of a database is a cursor over its view at the iterator's
    snapshot: whatever is moved, sought and turned around, it shows in key order exactly
    the pairs that a read at the snapshot answers, out of the memtables and all levels.
    Making it changes nothing but the caches and the number of iterators: every other field
    of the database and the files stay as they are. *)
Theorem db_iterator_is_view {W C P Co K} `{E : Env W} {file_at : W -> path -> option bytes} `{!RandomAccessLaws file_at}
    `{Comparator C} `{FilterPolicy P} `{Compressor Co} `{Cache K Block} {cache_ok : K -> Prop}
    {cached : K -> bytes -> Block -> Prop} {next : K -> Z}
    `{!CacheLaws cache_ok cached, !CacheIdLaws cache_ok cached, !CacheFreshLaws next}
    (c : C) ord `{!ComparatorLaws c (fun _ => True) ord} (co : option Co) (policy : option P) dbname dir b rounds
    (s : DBImplCore.t W C P Co K * (W * K)) em ei ro :
  (forall a b, ord a b = Eq -> a = b) -> (forall x, co = Some x -> CompressorLaws x) ->
  (forall q, policy = Some q -> ik_ok (TableFileBuilder.filter_key (filter_name q))) ->
  db_view (file_at:=file_at) (cache_ok:=cache_ok) (cached:=cached) (next:=next) c ord co policy dbname dir (lookups (Core.current s.1) + b) s em ei ->
  DBImplCore.comparator s.1 = c -> DBImplCore.icmp s.1 = mk_icmp c -> DBImplCore.bg_error s.1 = None -> numbers_ok (Core.current s.1) ->
  NoDup (map fst (db_entries dir s em ei)) -> Forall (fun e => is_u32 (len e.1)) (db_entries dir s em ei) ->
  0 <= Core.read_sequence s.1 ro <= MAX_SEQUENCE_NUMBER -> (length (db_entries dir s em ei) < rounds)%nat ->
  exists it s' V, Scan.new_iterator_with_options rounds ro s = (Ret it, s') /\
    db_view (file_at:=file_at) (cache_ok:=cache_ok) (cached:=cached) (next:=next) c ord co policy dbname dir b s' em ei /\
    (exists tc k, s' = (DBImplCore.with_active_iterators (DBImplCore.active_iterators s.1 + 1) (DBImplCore.with_table_cache tc s.1), (s.2.1, k))) /\
    sorted_entries ord V /\
    (forall x, x ∈ V <-> answers (mk_ikey x.1 (mk_tag (Core.read_sequence s.1 ro) Value)) (db_entries dir s em ei) (LookupFound x.2)) /\
    exists stands, IterLaws ord V (fun t => is_u32 (len t + 8)) stands /\ stands it None.
Proof.
  intros Hanti Hco Hname Hv Hcmp Hic Hbg Hu Hnd Hlen Hsnap Hrounds. pose proof (laws_ord (c:=c)) as Ho.
  destruct (merged_ok (file_at:=file_at) (cache_ok:=cache_ok) (cached:=cached) (next:=next) c ord Hanti co Hco policy Hname dbname dir
    (paranoid_checks (DBImplCore.options s.1) || verify_checksums ro) b s em ei Hic Hu Hv Hnd Hlen)
    as (chs & tc & k & M & E1 & Hr & HsM & HpM & HwM & at_pos & Hlaw & Hat).
  set (snap := Core.read_sequence s.1 ro) in *.
  assert (Hp : Forall entry_parses M) by (apply (Forall_impl _ _ _ HwM), wf_parses).
  set (it := DBIter.set_drop_hook (DBIter.set_sampler (DBIter.new c (MergingIterator.new (DBImplCore.icmp s.1) chs) snap rounds))).
  exists it. eexists. exists (view ord snap M). split_and!.
  - unfold Scan.new_iterator_with_options. rewrite Hbg. unfold Scan.core_new_iterator.
    erewrite action_bind_ret; [|erewrite action_bind_ret by reflexivity; cbn [id fst]; rewrite (action_bind_ret _ _ _ _ _ E1), Hcmp; reflexivity].
    reflexivity.
  - destruct Hv as [Hm Hi Hver Hst Ht Hn Hni]. by split.
  - by exists tc, k.
  - by apply view_sorted.
  - intros x. rewrite (view_answers ord snap M x Hanti Hsnap HsM HwM). split; apply answers_elem; intros e; by rewrite HpM.
  - exists (db_at c ord snap M at_pos). split.
    + apply (laws_weaken _ _ (fun t => mem_target_ok (mk_ikey t (mk_tag snap Value)))); [|by apply db_iter_laws].
      intros t Ht. split; [apply ik_ok_mk|]. unfold mk_ikey. by rewrite len_app, len_le_split.
    + apply db_at_new; [done|]. by rewrite HpM.
Qed.

Fixpoint distinctb (l : list bytes) : bool := match l with [] => true | x :: l => negb (existsb (fun y => is_eq (bytes_cmp x y)) l) && distinctb l end.
Lemma distinctb_sound l : distinctb l = true -> NoDup l.
Proof.
  induction l as [|x l IH]; cbn [distinctb]; [constructor|]. intros [Hn Hl]%andb_true_iff. constructor; [|by apply IH].
  intros Hx%list_elem_of_In. apply negb_true_iff, not_true_iff_false in Hn. apply Hn, existsb_exists. exists x. split; [done|].
  by rewrite (proj2 (bytes_cmp_eq x x) eq_refl).
Qed.
Lemma shortb_sound (es : list entry) : forallb (fun e => len e.1 <? 2 ^ 32) es = true -> Forall (fun e => is_u32 (len e.1)) es.
Proof.
  rewrite forallb_forall, Forall_forall. intros Hb e He%list_elem_of_In. specialize (Hb e He). apply Z.ltb_lt in Hb.
  pose proof (len_nonneg e.1). unfold is_u32. lia.
Qed.
(** Over the memtable of [sample_records] and a table file: the deleted "apple" is not
    shown at 13, and is at the snapshot before. *)
Lemma db_iterator_is_view_witness :
  exists b w', sample_build = (Ret b, w') /\
  let data := mem_contents sample_file.1 w' in
  let s := (sample_db (sample_mem sample_records) sample_version5 13,
            (snd (Mem.write_file (path_new (table_file_name "db" 5)) data Mem.new), ShardedLRUCache.new (V:=Block) 100)) in
  let iterates ro := exists it s' V, Scan.new_iterator_with_options 40 ro s = (Ret it, s') /\
    (forall x, x ∈ V <-> answers (mk_ikey x.1 (mk_tag (Core.read_sequence s.1 ro) Value)) (built_entries (ord:=bytes_cmp) sample_records ++ [] ++ sample_table) (LookupFound x.2)) /\
    exists stands, IterLaws bytes_cmp V (fun t => is_u32 (len t + 8)) stands /\ stands it None in
  iterates (mk_read None true true) /\ iterates (mk_read (Some (mk_snapshot 0 8)) true false).
Proof.
  destruct (build_table_ok (W:=MemEnv) (H:=MemEnv_Env) (is_open:=mem_open) (contents:=mem_contents) (mk_icmp Bytewise) ik_ok (ik_ord bytes_cmp)
    sample_keys_ok (Some sample_policy) (Some reverser) sample_table 40 2 sample_file.1 sample_file.2 sample_ok ltac:(lia) eq_refl eq_refl)
    as (b & w' & ds & E & Hes & _ & _ & _ & _ & Ht).
  exists b, w'. split; [exact E|]. destruct (sample_sizes b w' E) as [H1 H2]. specialize (Ht H1 H2). intros data s iterates.
  assert (Hview := sample_db_view ds data Hes 6 13 (conj Ht (conj H1 sample_agree)) ltac:(clear; lia)).
  assert (Hall : db_entries (sample_dir ds data) s (built_entries (ord:=bytes_cmp) sample_records) [] =
    built_entries (ord:=bytes_cmp) sample_records ++ [] ++ sample_table).
  { unfold db_entries. do 2 f_equal. unfold s, Core.current, version_entries. cbn [fst sample_db DBImplCore.version_set VersionSet.current sample_version5 Version.files map stored_in concat app].
    unfold stored_in. cbn [map concat]. cbn [FileMetaData.number sample_meta5]. rewrite sample_contents5 by exact Hes. by vm_compute. }
  assert (Hit : forall ro, 0 <= Core.read_sequence s.1 ro <= MAX_SEQUENCE_NUMBER -> iterates ro).
  { intros ro Hs.
    destruct (db_iterator_is_view (E:=MemEnv_Env) (file_at:=fun w p => Env.view w !! p) (cache_ok:=sharded_ok) (cached:=sharded_cached)
      (next:=ShardedLRUCache.next_id) Bytewise bytes_cmp (Some reverser) (Some sample_policy) "db" (sample_dir ds data) 0 40 s _ _
      ro (fun x y => proj1 (bytes_cmp_eq x y)) sample_compressors sample_names Hview eq_refl eq_refl eq_refl)
      as (it & s' & V & E1 & _ & _ & _ & Hx & Hst).
    - change (numbers_ok sample_version5). unfold numbers_ok. cbn [Version.files sample_version5].
      repeat (apply Forall_cons; split); try apply Forall_nil_2. cbn [FileMetaData.number sample_meta5]. clear. unfold is_u64. lia.
    - rewrite Hall. apply distinctb_sound. vm_compute. reflexivity.
    - rewrite Hall. apply shortb_sound. vm_compute. reflexivity.
    - exact Hs.
    - rewrite Hall. vm_compute. lia.
    - rewrite Hall in Hx. exists it, s', V. by split_and!. }
  split; apply Hit; (split; by vm_compute).
Defined.
