(* ===== verification/DbOpen.v ===== *)
(** * DbOpen.v: opening a database ([db_impl/db_impl.rs]).

    [DBImplCore::open] with the replay of the logs, and [DBImpl::open], which only adds the
    background thread.  The state is the environment; the block cache and the database come
    out.  [fuel] bounds the bytes of the manifest and of each log, [new_cache] is
    [ShardedLRUCache::new] as the trait object that the options take. *)
From S2P Require Import Prelude Status Coding Comparator Format WriteBatch Filter Block Env Filename Sort Cache.
From S2P Require Import TableBuilder Table Log TableCache VersionEdit Version VersionSet MemTable SharedMem DbState DbCore Compact DbIterator.

Module Open.
Import DBImplCore Core.
Section ops.
Context {W C P Co K : Type} `{E : Env W} `{HC : Comparator C} `{HP : FilterPolicy P} `{HCo : Compressor Co} `{HK : Cache K Block}.
Context (arena : Z -> bytes) (new_cache : Z -> K) (fuel : nat).
Abbreviation db := (DBImplCore.t W C P Co K) (only parsing).
Abbreviation set := (VersionSet.t C W) (only parsing).
Abbreviation heap_t := (mem_heap C) (only parsing).

(** ** [recover_log_file] *)

(** One record: the last sequence number and the bytes its entries take, or the error of
    its batch, after which what was inserted before stays. *)
Definition replay_record (mem : nat) (record : bytes) (heap : heap_t) : outcome (outcome (Z * Z) * heap_t) :=
  match Batch.set_contents Batch.new record with
  | Panic => Panic
  | Fail e => Ret (Fail e, heap)
  | Ret batch =>
      seq ← Batch.sequence batch;
      count ← Batch.count batch;
      '(i, heap, r) ← insert_batch arena batch (mk_inserter seq mem 0) heap;
      Ret (r ≫= (fun _ : unit => Ret (as_u64 (seq + count - 1), bytes_added i)), heap)
  end.
(** [bytes_replayed] is a sum of sizes in memory.  [records] bounds the rounds. *)
Fixpoint replay_loop (records : nat) (mem : nat) (paranoid : bool) (reader : LogSequentialReader.t)
    (max_sequence bytes_replayed : Z) (heap : heap_t) : action W (Z * Z * heap_t) := fun w =>
  match records with
  | O => (Panic, w)
  | S records =>
      let stop {A} (e : Status) (heap : A) w := if paranoid then (Fail e, w) else (Ret (max_sequence, bytes_replayed, heap), w) in
      match LogSequentialReader.read_record fuel (reader, w) with
      | (Panic, (_, w)) => (Panic, w)
      | (Fail e, (_, w)) => stop e heap w
      | (Ret None, (_, w)) => (Ret (max_sequence, bytes_replayed, heap), w)
      | (Ret (Some record), (reader, w)) =>
          match replay_record mem record heap with
          | Ret (Ret (end_, added), heap) =>
              replay_loop records mem paranoid reader (Z.max max_sequence end_) (bytes_replayed + added) heap w
          | Ret (Fail e, heap) => stop e heap w
          | _ => (Panic, w)
          end
      end
  end.
Definition recover_log_file (dbname : string) (log_number : Z) (mem : nat) (paranoid : bool) (heap : heap_t) : action W (Z * Z * heap_t) :=
  file ← new_sequential_file (path_new (log_file_name dbname log_number));
  replay_loop fuel mem paranoid (LogSequentialReader.new file) 0 0 heap.

(** ** [DBImplCore::open] *)

Definition check_existence (o : Options P Co K) (exists_ : bool) : outcome unit :=
  if exists_ && error_if_exists o then Fail (Stat.invalid_argument "DB exists but error_if_exists is set")
  else if negb exists_ && negb (create_if_missing o) then Fail (Stat.not_found "DB missing and create_if_missing is false")
  else Ret tt.
Definition check_comparator (c : C) (vs : set) : outcome unit :=
  match VersionSet.recovered_comparator_name vs with
  | Some stored =>
      if bool_decide (stored = list_byte_of_string (cmp_name c)) then Ret tt
      else Fail (Stat.invalid_argument "comparator does not match value in the existing DB")
  | None => Ret tt
  end.
(** The logs the manifest does not cover, oldest first. *)
Definition logs_to_replay (min_log prev_log : Z) (entries : list path) : list Z :=
  isort Z.compare (omap (fun entry =>
    name ← file_name entry;
    match parse_file_name name with
    | Some (number, LogFile) => if (min_log <=? number) || (number =? prev_log) then Some number else None
    | _ => None
    end) entries).
Fixpoint replay_logs (dbname : string) (mem : nat) (paranoid : bool) (logs : list Z) (max_sequence : Z) (heap : heap_t) : action W (Z * heap_t) :=
  match logs with
  | [] => mret (max_sequence, heap)
  | log_number :: logs =>
      '(seq, _, heap) ← recover_log_file dbname log_number mem paranoid heap;
      replay_logs dbname mem paranoid logs (Z.max max_sequence seq) heap
  end.

Abbreviation M := (action (set * W)) (only parsing).
Definition on_env {A} (m : action W A) : M A := VersionSet.on_env m.
Definition set_number : M Z := fun s => let '(n, vs) := VersionSet.new_file_number s.1 in (Ret n, (vs, s.2)).
(** The replayed entries become a table file. *)
Definition write_recovered (o : Options P Co K) (entries : list entry) : M unit :=
  file_number ← set_number;
  vs ← VersionSet.reads id;
  file_size ← on_env (Compact.write_table (VersionSet.icmp vs) o (VersionSet.dbname vs) file_number entries);
  smallest ← lift (strip_tag (Compact.entry_range entries).1);
  largest ← lift (strip_tag (Compact.entry_range entries).2);
  output_level ← lift (Version.pick_level_for_memtable_output (VersionSet.current vs) smallest largest);
  VersionSet.log_and_apply (Compact.new_table_edit None output_level file_number file_size entries).
(** What an existing directory takes: manifest, logs, and a table for the entries replayed;
    the memtable to go on with. *)
Definition recover_existing (c : C) (o : Options P Co K) (mem : nat) (heap : heap_t) : M (nat * heap_t) :=
  VersionSet.recover fuel;;
  vs ← VersionSet.reads id;
  _ ← lift (check_comparator c vs);
  entries ← on_env (list_dir (path_new (VersionSet.dbname vs)));
  let logs := logs_to_replay (VersionSet.log_number vs) (VersionSet.prev_log_number vs) entries in
  '(max_sequence, heap) ← on_env (replay_logs (VersionSet.dbname vs) mem (paranoid_checks o) logs (VersionSet.last_sequence vs) heap);
  _ ← VersionSet.modify (VersionSet.set_last_sequence max_sequence);
  recovered ← lift (SharedMemTable.collect_entries heap mem);
  if bool_decide (recovered = []) then mret (mem, heap)
  else write_recovered o recovered;; mret (SharedMemTable.new c heap).
(** The new log, recorded in the manifest before its file exists. *)
Definition start_log (c : C) : M (Z * Writable) :=
  log_file_number ← set_number;
  VersionSet.log_and_apply (VersionEdit.mk (Some (list_byte_of_string (cmp_name c))) (Some log_file_number) None None None [] [] []);;
  vs ← VersionSet.reads id;
  log_file ← on_env (new_writable_file (path_new (log_file_name (VersionSet.dbname vs) log_file_number)));
  mret (log_file_number, log_file).
Definition recover_or_create (c : C) (o : Options P Co K) (exists_ : bool) : M (nat * heap_t * (Z * Writable)) :=
  let '(mem, heap) := SharedMemTable.new c ∅ in
  '(mem, heap) ← (if exists_ then recover_existing c o mem heap else mret (mem, heap));
  log ← start_log c;
  mret (mem, heap, log).

(** An error drops the lock. *)
Definition holding {A} (l : Lock) (m : action W A) : action W A := fun w =>
  match m w with (Fail e, w) => (Fail e, drop_lock l w) | r => r end.
Definition new_db (dbname : string) (c : C) (o : Options P Co K) (lock : Lock) (vs : set) (mem : nat) (heap : heap_t)
    (log_file_number : Z) (log_file : Writable) : db :=
  DBImplCore.mk dbname c (VersionSet.icmp vs) o mem None (Some LogWriter.new) (Some log_file) lock log_file_number vs
    (TableCache.new_full dbname (mk_icmp c) (max_open_files o) (filter_policy o) (compressor o))
    [] 0 [] false false false false None [] 1 (replicate (Z.to_nat NUM_LEVELS) CompactionStats.default) 0 heap ∅ ∅.
Definition run_set (dbname : string) (c : C) {A} (m : M A) : action W (A * set) := fun w =>
  let '(r, (vs, w)) := m (VersionSet.new dbname c, w) in ((fun a => (a, vs)) <$> r, w).
(** The logs and manifests that the new ones replace are deleted. *)
Definition clean_up (self : db) (k : K) : action W (db * K) := fun w =>
  match (delete_obsolete_logs;; delete_obsolete_manifests) (self, (w, k)) with
  | (Ret _, (self, (w, k))) => (Ret (self, k), w)
  | (Fail e, (_, (w, _))) => (Fail e, w)
  | (Panic, (_, (w, _))) => (Panic, w)
  end.
Definition open_locked (dbname : string) (c : C) (o : Options P Co K) (lock : Lock) : action W (db * K) := fun w =>
  let exists_ := file_exists (path_new (current_file_name dbname)) w in
  match check_existence o exists_ with
  | Ret _ =>
      match run_set dbname c (recover_or_create c o exists_) w with
      | (Ret ((mem, heap, (number, file)), vs), w) =>
          clean_up (new_db dbname c o lock vs mem heap number file) (default (new_cache (block_cache_size o)) (block_cache o)) w
      | (Fail e, w) => (Fail e, w)
      | (Panic, w) => (Panic, w)
      end
  | Fail e => (Fail e, w)
  | Panic => (Panic, w)
  end.
Definition core_open (dbname : string) (c : C) (o : Options P Co K) : action W (db * K) := fun w =>
  (create_dir (path_new dbname);;
   lock ← lock_file (path_new (lock_file_name dbname));
   holding lock (open_locked dbname c o lock)) (set_sync_mode (sync_mode o) w).
(** [DBImpl::open]: the background thread starts, parked. *)
Definition open (dbname : string) (c : C) (o : Options P Co K) : action W (db * K) := core_open dbname c o.
End ops.
End Open.
