(* ===== verification/DbOpenCorrect.v ===== *)
(** * DbOpenCorrect.v: what opening a database recovers.

    A log holds the records of the groups that were written.  Replaying what a crash left
    of it inserts the groups that lie whole in it, in order, and nothing else. *)
From S2P Require Import Prelude Status Coding Comparator Format WriteBatch Filter Block Env Filename Sort Cache.
From S2P Require Import CacheCorrect TableBuilder TableFormat TableBuilderCorrect Table TableCorrect Newest Log LogCorrect LogFile LogTorn TableCache TableCacheCorrect VersionEdit Version VersionCorrect VersionSet VersionSetCorrect SkipList SkipListCorrect.
From S2P Require Import MemTable MemTableCorrect SharedMem DbState DbCore DbCoreCorrect Compact CompactCorrect DbWrite DbWriteCorrect DbOpen DbIterator.

(** The groups of a log: the first sequence number of each and its operations. *)
Definition group : Type := Z * list WriteBatchRecord.
Definition log_record (g : group) : bytes := group_record g.1 g.2.
Definition group_entries (g : group) : list entry := stamped g.1 g.2.
Definition group_ok (g : group) : Prop := Forall op_fits g.2 /\ len g.2 < 2 ^ 32.
(** Each group starts after the one before it. *)
Fixpoint in_sequence (from : Z) (gs : list group) : Prop :=
  match gs with
  | [] => True
  | g :: gs => from <= g.1 /\ g.1 + len g.2 <= MAX_SEQUENCE_NUMBER + 1 /\ in_sequence (g.1 + len g.2) gs
  end.
(** What is there is older than what comes. *)
Definition older (es : list entry) (gs : list group) : Prop := forall e g, e ∈ es -> head gs = Some g -> esequence e < g.1.
(** The last sequence number, as the replay computes it. *)
Definition last_of (max : Z) (gs : list group) : Z := fold_left (fun m g => Z.max m (g.1 + len g.2 - 1)) gs max.

Lemma last_of_ge gs : forall max, max <= last_of max gs.
Proof. induction gs as [|g gs IH]; intros max; cbn; [done|]. specialize (IH (Z.max max (g.1 + len g.2 - 1))). unfold last_of in *. lia. Qed.
Lemma in_sequence_elem gs : forall from max, in_sequence from gs -> 0 <= from -> forall e, e ∈ concat (map group_entries gs) ->
  from <= esequence e <= last_of max gs.
Proof.
  induction gs as [|g gs IH]; intros from max; cbn [in_sequence map concat]; [by intros _ _ e He%elem_of_nil|].
  intros (H1 & Hmax & Hs) H0 e He. pose proof (len_nonneg g.2). apply elem_of_app in He as [He|He].
  - apply stamped_sequence in He; [|lia..]. pose proof (last_of_ge gs (Z.max max (g.1 + len g.2 - 1))). cbn. unfold last_of in *. lia.
  - destruct (IH _ (Z.max max (g.1 + len g.2 - 1)) Hs ltac:(lia) e He) as [Hlow Hhigh]. split; [lia|exact Hhigh].
Qed.
Lemma in_sequence_take gs : forall from k, in_sequence from gs -> in_sequence from (take k gs).
Proof. induction gs as [|g gs IH]; intros from [|k]; cbn; [done..|]. intros (H1 & H2 & H3). split_and!; [done|done|by apply IH]. Qed.

Lemma op_fits_record op : op_fits op -> WriteBatch.record_ok op.
Proof. destruct op as [k|k v]; cbn; unfold is_u32; pose proof (len_nonneg k); [lia|]. intros [? ?]. split; lia. Qed.

Section replay.
Context {C : Type} `{HC : Comparator C} (c : C) (ord : bytes -> bytes -> comparison) `{!ComparatorLaws c (fun _ => True) ord}.
Context (arena : Z -> bytes) (Harena : forall n, n <= len (arena n)).
Abbreviation holds_in m es := (mem_holds (c:=c) (ord:=ord) m es) (only parsing).

Lemma log_record_repr g : 1 <= g.1 -> g.1 + len g.2 <= MAX_SEQUENCE_NUMBER + 1 -> group_ok g -> batch_repr (log_record g) g.1 g.2.
Proof.
  intros H1 Hm [Hf Hl]. split; [done|]. pose proof (len_nonneg g.2). split; [unfold is_u64, MAX_SEQUENCE_NUMBER in *; lia|].
  split; [done|]. eapply Forall_impl; [exact Hf|]. apply op_fits_record.
Qed.
Lemma replay_record_ok g r (h : mem_heap C) m es : 1 <= g.1 -> g.1 + len g.2 <= MAX_SEQUENCE_NUMBER + 1 -> group_ok g ->
  h !! r = Some m -> holds_in m es -> (forall e, e ∈ es -> esequence e < g.1) ->
  exists added m', Open.replay_record arena r (log_record g) h = Ret (Ret (g.1 + len g.2 - 1, added), <[r := m']> h) /\
    holds_in m' (inserted ord g.1 g.2 es).
Proof.
  intros H1 Hmax Hg Hr Hm Hlt. pose proof (log_record_repr g H1 Hmax Hg) as Hrep. pose proof (len_nonneg g.2).
  destruct (insert_batch_ok c ord arena Harena _ _ g.2 g.1 r h m es Hrep Hr Hm (proj1 Hg) ltac:(lia) ltac:(lia) Hlt) as (added & m' & E1 & Hm').
  exists added, m'. split; [|done]. unfold Open.replay_record.
  assert (Batch.set_contents Batch.new (log_record g) = Ret (log_record g)) as ->.
  { unfold Batch.set_contents. rewrite (proj2 (Z.ltb_ge _ _)); [done|]. rewrite (batch_len _ _ _ Hrep). pose proof (len_nonneg (enc_all g.2)). unfold HEADER_LEN. lia. }
  rewrite (batch_sequence _ _ _ Hrep), (batch_count _ _ _ Hrep). cbn [mbind outcome_bind]. rewrite E1. cbn [mbind outcome_bind bytes_added].
  rewrite as_u64_id by (unfold is_u64, MAX_SEQUENCE_NUMBER in *; lia). done.
Qed.

Section loop.
Context {W : Type} `{E : Env W} (fuel : nat).
Lemma replay_loop_ok gs x paranoid r : ended x -> forall records reader w max n (h : mem_heap C) m es from,
  1 <= from -> in_sequence from gs -> Forall group_ok gs -> h !! r = Some m -> holds_in m es -> older es gs ->
  results (LogSequentialReader.read_record fuel) (S (length gs)) (reader, w) = map (fun d => Ret (Some d)) (map log_record gs) ++ [x] ->
  (length gs < records)%nat ->
  exists added m' es' w',
    Open.replay_loop arena fuel records r paranoid reader max n h w =
      (match x with Fail e => if paranoid then Fail e else Ret (last_of max gs, n + added, <[r := m']> h)
       | _ => Ret (last_of max gs, n + added, <[r := m']> h) end, w') /\
    holds_in m' es' /\ es' ≡ₚ es ++ concat (map group_entries gs).
Proof.
  intros Hx. induction gs as [|g gs IH]; intros records reader w max n h m es from Hf Hs Hg Hr Hm Hlt Hres Hrec;
    (destruct records as [|records]; [cbn in Hrec; lia|]).
  - cbn [length results map app] in Hres. destruct (LogSequentialReader.read_record fuel (reader, w)) as [o [reader' w']] eqn:Er.
    cbn [fst] in Hres. injection Hres as ->. exists 0, m, es, w'. rewrite Z.add_0_r. cbn [map concat last_of fold_left].
    rewrite app_nil_r, (insert_id (M:=gmap nat) h r m Hr). split; [|by split].
    cbn [Open.replay_loop]. rewrite Er. destruct Hx as [->|[e ->]]; [done|by destruct paranoid].
  - apply Forall_cons in Hg as [Hg Hgs]. destruct Hs as (H1 & Hmax & Hs).
    destruct (LogSequentialReader.read_record fuel (reader, w)) as [o [reader' w']] eqn:Er.
    change (length (g :: gs)) with (S (length gs)) in Hres. cbn [results map app] in Hres. rewrite Er in Hres. cbn [fst snd] in Hres. injection Hres as -> Hres.
    destruct (replay_record_ok g r h m es ltac:(lia) Hmax Hg Hr Hm) as (a1 & m1 & E1 & Hm1); [intros e He; by apply Hlt|].
    pose proof (len_nonneg g.2).
    destruct (IH records reader' w' (Z.max max (g.1 + len g.2 - 1)) (n + a1) (<[r := m1]> h) m1 (inserted ord g.1 g.2 es) (g.1 + len g.2))
      as (a2 & m2 & es2 & w2 & E2 & Hm2 & Hp); [lia|done|done|apply (lookup_insert_eq (M:=gmap nat))|done| |exact Hres|cbn in Hrec; lia|].
    { intros e g' He Hg'. assert (g.1 + len g.2 <= g'.1) by (destruct gs; [done|]; injection Hg' as ->; apply Hs).
      rewrite inserted_perm in He. apply elem_of_app in He as [He|He]; [specialize (Hlt e g He eq_refl); lia|].
      apply stamped_sequence in He; lia. }
    exists (a1 + a2), m2, es2, w2. cbn [Open.replay_loop]. rewrite Er, E1. rewrite E2.
    rewrite (insert_insert_eq (M:=gmap nat) (A:=MemTable.t C) h r m2 m1). rewrite Z.add_assoc. split; [done|]. split; [done|].
    rewrite Hp, inserted_perm. cbn [map concat]. by rewrite <- app_assoc.
Qed.

Lemma recover_log_ok seq_ok rest `{HS : !SequentialLaws seq_ok rest} dbname number gs n f (w w1 : W) r paranoid (h : mem_heap C) m es from :
  new_sequential_file (path_new (log_file_name dbname number)) w = (Ret f, w1) -> seq_ok f ->
  0 <= n -> rest f = ztake n (enc_records 0 (map log_record gs)).1 -> len (rest f) + 8 <= Z.of_nat fuel ->
  1 <= from -> in_sequence from gs -> Forall group_ok gs -> h !! r = Some m -> holds_in m es -> older es gs ->
  exists k x added m' es' w', let kept := take k gs in
    whole 0 (map log_record gs) n k /\ ended x /\ (k = length gs -> x = Ret None) /\
    Open.recover_log_file arena fuel dbname number r paranoid h w =
      (match x with Fail e => if paranoid then Fail e else Ret (last_of 0 kept, added, <[r := m']> h)
       | _ => Ret (last_of 0 kept, added, <[r := m']> h) end, w') /\
    holds_in m' es' /\ es' ≡ₚ es ++ concat (map group_entries kept).
Proof.
  intros Hopen Hok Hn Hrest Hfuel H1 Hs Hg Hr Hm Hlt.
  destruct (sequential_torn f w1 fuel (map log_record gs) n Hok Hn Hrest Hfuel) as (k & x & Hw & Hx & Hend & Hres).
  set (kept := take k gs). assert (Hk : length kept = k) by (unfold kept; rewrite length_take; destruct Hw as [Hw _]; rewrite length_map in Hw; lia).
  assert (Hkr : take k (map log_record gs) = map log_record kept) by apply firstn_map.
  destruct (replay_loop_ok kept x paranoid r Hx fuel (LogSequentialReader.new f) w1 0 0 h m es from)
    as (added & m' & es' & w' & E1 & Hm' & Hp); try done.
  { by apply in_sequence_take. }
  { by apply Forall_take. }
  { intros e g He Hh. apply Hlt; [done|]. unfold kept in Hh. by destruct gs, k. }
  { by rewrite Hk, <- Hkr. }
  { destruct Hw as (_ & Hin & _). rewrite Hkr in Hin. assert (Hc : Z.of_nat (length (map log_record kept)) <= len (enc_records 0 (map log_record kept)).1) by apply enc_records_count. rewrite length_map in Hc.
    rewrite Hrest, len_ztake_min in Hfuel by done. rewrite <- (take_drop k (map log_record gs)), Hkr in Hfuel.
    rewrite (proj1 (len_enc_records_app _ _ _)), len_app in Hfuel. pose proof (len_nonneg (enc_records (enc_records 0 (map log_record kept)).2 (drop k (map log_record gs))).1). lia. }
  exists k, x, added, m', es', w'. split; [done|]. split; [done|]. split; [intros E0; apply Hend; by rewrite length_map|]. split; [|by split].
  unfold Open.recover_log_file. rewrite (action_bind_ret _ _ _ _ _ Hopen). exact E1.
Qed.
End loop.
End replay.

(** *** Sample: a log cut inside its second group *)
Definition torn_groups : list group :=
  let b := list_byte_of_string in
  [(1, [Put (b "a") (b "1"); Delete (b "b")]); (3, [Put (b "b") (b "2")])]%string.
Definition torn_data : bytes := ztake 50 (enc_records 0 (map log_record torn_groups)).1.
Definition torn_world : MemEnv := (Mem.write_file (path_new (log_file_name "db" 3)) torn_data Mem.new).2.

(** ** Claims *)

(** C10: (recovery of a log) A log holds the records of the groups that were written, and a
    crash has cut it off after any number of bytes.  Replaying it inserts exactly the
    entries of the groups that lie whole in what is left, in order, under the sequence
    numbers they were given, into a memtable that may already hold older entries; groups
    that lie whole are never lost and no part of a later one appears; the last sequence
    number is that of the last entry.  Only [paranoid_checks] makes a cut inside a record
    an error; a log that was not cut is always replayed in full. *)
Theorem torn_log_recovers {W C} `{E : Env W} seq_ok rest `{HS : !SequentialLaws seq_ok rest} `{HC : Comparator C} (c : C) ord
    `{!ComparatorLaws c (fun _ => True) ord} (arena : Z -> bytes) dbname number gs n f (w w1 : W) fuel r paranoid (h : mem_heap C) m es :
  (forall n, n <= len (arena n)) ->
  new_sequential_file (path_new (log_file_name dbname number)) w = (Ret f, w1) -> seq_ok f ->
  0 <= n -> rest f = ztake n (enc_records 0 (map log_record gs)).1 -> len (rest f) + 8 <= Z.of_nat fuel ->
  in_sequence 1 gs -> Forall group_ok gs -> h !! r = Some m -> mem_holds (c:=c) (ord:=ord) m es ->
  older es gs ->
  exists k res w', let kept := take k gs in
    Open.recover_log_file arena fuel dbname number r paranoid h w = (res, w') /\
    whole 0 (map log_record gs) n k /\
    (paranoid = false \/ k = length gs -> exists added m' es',
       res = Ret (last_of 0 kept, added, <[r := m']> h) /\ mem_holds (c:=c) (ord:=ord) m' es' /\
       es' ≡ₚ es ++ concat (map group_entries kept) /\
       forall e, e ∈ concat (map group_entries kept) -> 1 <= esequence e <= last_of 0 kept) /\
    (paranoid = true -> (exists e, res = Fail e) \/ exists added h', res = Ret (last_of 0 kept, added, h')).
Proof.
  intros Ha Hopen Hok Hn Hrest Hfuel Hs Hg Hr Hm Hlt.
  destruct (recover_log_ok c ord arena Ha fuel seq_ok rest dbname number gs n f w w1 r paranoid h m es 1)
    as (k & x & added & m' & es' & w' & Hw & Hx & Hend & E1 & Hm' & Hp); [done..|]. set (kept := take k gs) in *.
  exists k. eexists _, w'. split; [exact E1|]. split; [done|]. split.
  - intros Hor. exists added, m', es'. split; [|split; [done|split; [done|]]].
    + destruct Hx as [->|[e ->]]; [done|]. destruct Hor as [->| ->]; [done|]. specialize (Hend eq_refl). discriminate.
    + intros e He. apply (in_sequence_elem _ 1); [by apply in_sequence_take|done|done].
  - intros ->. destruct x as [o|e|]; [right; by eexists _, _|left; by eexists|]. by destruct Hx as [|[]].
Qed.

Lemma torn_log_recovers_witness :
  exists k added m' w', whole 0 (map log_record torn_groups) 50 k /\
    Open.recover_log_file (E:=MemEnv_Env) zeroed 200 "db" 3 0 false {[0%nat := MemTable.new Bytewise]} torn_world =
      (Ret (last_of 0 (take k torn_groups), added, <[0%nat := m']> {[0%nat := MemTable.new Bytewise]}), w').
Proof.
  destruct (torn_log_recovers (E:=MemEnv_Env) mem_seq_ok mem_rest Bytewise bytes_cmp zeroed "db" 3 torn_groups 50
    (Mem.mk_seq (path_new (log_file_name "db" 3)) torn_data 0) torn_world torn_world 200 0%nat false
    {[0%nat := MemTable.new Bytewise]} (MemTable.new Bytewise) []) as (k & res & w' & E1 & Hw & Hres & _).
  - exact zeroed_long.
  - by vm_compute.
  - split; by vm_compute.
  - done.
  - by vm_compute.
  - by vm_compute.
  - repeat split; by vm_compute.
  - repeat constructor; by vm_compute.
  - apply (lookup_singleton_eq (M:=gmap nat)).
  - apply mem_new_holds.
  - intros e g He. by apply elem_of_nil in He.
  - destruct (Hres (or_introl eq_refl)) as (added & m' & es' & -> & _). exists k, added, m', w'. by split.
Defined.
