(* ===== verification/DbCreate.v ===== *)
(** * DbCreate.v: opening a database that does not exist yet.

    [DBImpl::open] with [create_if_missing] in the in-memory environment: what it leaves on
    disk recovers to an empty version, and the database it returns is the empty view from
    which reads, writes and iterators go on. *)
From S2P Require Import Prelude Status Coding Comparator Format WriteBatch Filter Block Env Filename Sort Cache.
From S2P Require Import CacheCorrect TableBuilder TableFormat TableBuilderCorrect Table TableCorrect Newest Log LogCorrect LogFile TableCache TableCacheCorrect VersionEdit Version VersionCorrect VersionSet VersionSetCorrect SkipList SkipListCorrect.
From S2P Require Import MemTable MemTableCorrect SharedMem DbState DbCore DbCoreCorrect DbOpen DbIterator.

(** ** Names *)

(** A component that names a file. *)
Definition base_ok (name : string) : Prop := all_chars (not_char (Ascii.ascii_of_nat 47)) name = true /\ name <> ""%string /\ name <> "."%string.
Lemma child_inj dbname a b : base_ok a -> base_ok b ->
  path_new (dbname +:+ String (Ascii.ascii_of_nat 47) a) = path_new (dbname +:+ String (Ascii.ascii_of_nat 47) b) -> a = b.
Proof. intros (A1 & A2 & A3) (B1 & B2 & B3) E%(f_equal last). rewrite !last_path_new in E by done. by injection E. Qed.
Lemma numbered_base n ext : is_u64 n -> all_chars (not_char (Ascii.ascii_of_nat 47)) ext = true -> ext <> ""%string -> base_ok (show06 n +:+ ext).
Proof.
  intros Hn He Hne. destruct (show06_head n Hn) as (ch & s & Es & Hc). split; [by apply show06_suffix_chars|]. rewrite Es. split; [done|].
  cbn. intros [= -> Hs]. destruct s; [|done]. destruct ext; done.
Qed.
Lemma log_is_numbered dbname n : log_file_name dbname n = (dbname +:+ String (Ascii.ascii_of_nat 47) (show06 n +:+ ".log"))%string.
Proof. done. Qed.
Lemma manifest_is_named dbname n : descriptor_file_name dbname n = (dbname +:+ String (Ascii.ascii_of_nat 47) ("MANIFEST-" +:+ show06 n))%string.
Proof. done. Qed.
Lemma manifest_base n : base_ok ("MANIFEST-" +:+ show06 n).
Proof.
  split; [|done]. rewrite all_chars_app. apply andb_true_iff. split; [done|].
  eapply all_chars_impl; [apply (digit_not_char (Ascii.ascii_of_nat 47)); reflexivity|apply show06_chars].
Qed.
(** The path of a file of the database; what its name parses to tells it from the others. *)
Definition named (dbname : string) (q : path) (n : Z) (k : FileType) : Prop :=
  exists a, base_ok a /\ q = path_new (dbname +:+ String (Ascii.ascii_of_nat 47) a) /\
    parse_file_name (dbname +:+ String (Ascii.ascii_of_nat 47) a) = Some (n, k).
Lemma named_inj dbname q n k n' k' : named dbname q n k -> named dbname q n' k' -> n = n' /\ k = k'.
Proof.
  intros (a & Ha & -> & Pa) (b & Hb & E & Pb). apply child_inj in E as <-; [|done..]. rewrite Pa in Pb. by injection Pb.
Qed.
Lemma named_ne dbname q q' n k n' k' : named dbname q n k -> named dbname q' n' k' -> k <> k' \/ n <> n' -> q <> q'.
Proof. intros Hq Hq' Hne ->. destruct (named_inj dbname q' n k n' k' Hq Hq'). naive_solver. Qed.
Lemma log_named dbname n : is_u64 n -> named dbname (path_new (log_file_name dbname n)) n LogFile.
Proof. intros Hn. exists (show06 n +:+ ".log")%string. split_and!; [by apply numbered_base|done|]. by apply (file_names_parse dbname n Hn). Qed.
Lemma table_named dbname n : is_u64 n -> named dbname (path_new (table_file_name dbname n)) n TableFile.
Proof. intros Hn. exists (show06 n +:+ ".ldb")%string. split_and!; [by apply numbered_base|done|]. by apply (file_names_parse dbname n Hn). Qed.
Lemma sst_named dbname n : is_u64 n -> named dbname (path_new (sst_table_file_name dbname n)) n TableFile.
Proof. intros Hn. exists (show06 n +:+ ".sst")%string. split_and!; [by apply numbered_base|done|]. by apply (file_names_parse dbname n Hn). Qed.
Lemma temp_named dbname n : is_u64 n -> named dbname (path_new (temp_file_name dbname n)) n TempFile.
Proof. intros Hn. exists (show06 n +:+ ".dbtmp")%string. split_and!; [by apply numbered_base|done|]. by apply (file_names_parse dbname n Hn). Qed.
Lemma manifest_named dbname n : is_u64 n -> named dbname (manifest_path dbname n) n DescriptorFile.
Proof. intros Hn. exists ("MANIFEST-" +:+ show06 n)%string. split_and!; [by apply manifest_base|done|]. by apply (file_names_parse dbname n Hn). Qed.
Lemma current_named dbname : named dbname (current_path dbname) 0 CurrentFile.
Proof. exists "CURRENT"%string. split_and!; [by split_and!|done|]. by apply (file_names_parse dbname 0 ltac:(by unfold is_u64)). Qed.
Lemma lock_named dbname : named dbname (path_new (lock_file_name dbname)) 0 DbLockFile.
Proof. exists "LOCK"%string. split_and!; [by split_and!|done|]. by apply (file_names_parse dbname 0 ltac:(by unfold is_u64)). Qed.

Lemma digits_u64 s : forall acc n, is_u64 acc -> parse_digits s acc = Some n -> is_u64 n.
Proof.
  induction s as [|ch s IH]; intros acc n Ha; cbn [parse_digits]; [by intros [= <-]|]. unfold digit at 1. cbv zeta.
  destruct (Z.leb_spec 0 (Z.of_nat (Ascii.nat_of_ascii ch) - 48)); [|done]. destruct (Z.ltb_spec (Z.of_nat (Ascii.nat_of_ascii ch) - 48) 10); [|done].
  cbn [andb mbind option_bind]. destruct (Z.ltb_spec (acc * 10 + (Z.of_nat (Ascii.nat_of_ascii ch) - 48)) (2 ^ 64)); [|done].
  apply IH. unfold is_u64 in *. lia.
Qed.
Lemma parse_u64_u64 s n : parse_u64 s = Some n -> is_u64 n.
Proof.
  assert (H0 : is_u64 0) by by unfold is_u64. unfold parse_u64. repeat case_match; try done; by apply digits_u64.
Qed.
Lemma parsed_u64 name n k : parse_file_name name = Some (n, k) -> k = LogFile \/ k = DescriptorFile -> is_u64 n.
Proof.
  unfold parse_file_name. intros E Hk. repeat case_match; try (injection E as <- <-; destruct Hk; done).
  - destruct (parse_u64 _) eqn:Ep; [|done]. injection E as <- <-. by apply parse_u64_u64 in Ep.
  - destruct (split_first _ _) as [[stem suffix]|]; [|done]. cbn in E. destruct (parse_u64 stem) eqn:Ep; [|done]. cbn in E.
    repeat case_match; try done; injection E as <- <-; by apply parse_u64_u64 in Ep.
Qed.

(** ** Cleaning up *)

Section clean.
Context {C P Co K : Type} `{HC : Comparator C} `{HP : FilterPolicy P} `{HCo : Compressor Co} `{HK : Cache K Block}.
Abbreviation db := (DBImplCore.t MemEnv C P Co K) (only parsing).
Implicit Types (self : db) (w : MemEnv) (k : K).

Lemma remove_ok name self w k : mem_wf w -> exists w', Core.remove name (self, (w, k)) = (Ret tt, (self, (w', k))) /\ mem_wf w' /\
  forall q, q <> path_new name -> keeps q w w'.
Proof.
  intros Hw. unfold Core.remove, attempt, Core.on_env. cbn [fst snd]. unfold mbind, action_bind. cbn [delete_file MemEnv_Env]. unfold Mem.delete_file. cbn [fst snd].
  destruct (files w !! path_new name) as [b|] eqn:E.
  - eexists. split; [done|]. split; [|intros q Hq; split; cbn; [by rewrite lookup_delete_ne|done]].
    destruct Hw as [Hi Hf]. split; cbn; [intros p1 p2 b' [_ H1]%lookup_delete_Some [_ H2]%lookup_delete_Some; by eapply Hi|].
    intros p1 b' [_ H1]%lookup_delete_Some. by eapply Hf.
  - exists w. split; [done|]. split; [done|]. intros q _. by split.
Qed.
Lemma directory_ok self w k : exists es, Core.directory (self, (w, k)) = (Ret es, (self, (w, k))) /\
  Forall (fun e => forall n kind, e = Some (n, kind) -> exists name, parse_file_name name = Some (n, kind)) es.
Proof.
  eexists. split; [reflexivity|]. apply Forall_forall. intros e (p & -> & _)%list_elem_of_fmap n kind E.
  destruct (file_name p) as [name|]; [|done]. by exists name.
Qed.

(** What the sweeps leave alone. *)
Definition kept self (q : path) : Prop := exists n kind, named (DBImplCore.dbname self) q n kind /\
  match kind with
  | LogFile => n = DBImplCore.log_file_number self
  | DescriptorFile => n = VersionSet.manifest_file_number (DBImplCore.version_set self)
  | _ => True
  end.
Lemma sweep_ok self k (f : option (Z * FileType) -> action (db * (MemEnv * K)) unit) es : forall w, mem_wf w ->
  (forall e w, e ∈ es -> mem_wf w -> exists w', f e (self, (w, k)) = (Ret tt, (self, (w', k))) /\ mem_wf w' /\ forall q, kept self q -> keeps q w w') ->
  exists w', for_each f es (self, (w, k)) = (Ret tt, (self, (w', k))) /\ mem_wf w' /\ forall q, kept self q -> keeps q w w'.
Proof.
  induction es as [|e es IH]; intros w Hw Hf; [exists w; split_and!; [done|done|by intros q _; split]|].
  destruct (Hf e w ltac:(left) Hw) as (w1 & E1 & Hw1 & Hk1). destruct (IH w1 Hw1) as (w2 & E2 & Hw2 & Hk2); [intros e' w' He'; apply Hf; by right|].
  exists w2. cbn [for_each]. rewrite (action_bind_ret _ _ _ _ _ E1). split_and!; [done|done|]. intros q Hq.
  apply (keeps_trans q w w1); [by apply Hk1|by apply Hk2].
Qed.

Context (self0 : db).
Lemma kept_other q p n kind : kept self0 q -> named (DBImplCore.dbname self0) p n kind ->
  (kind = LogFile /\ n <> DBImplCore.log_file_number self0 \/
   kind = DescriptorFile /\ n <> VersionSet.manifest_file_number (DBImplCore.version_set self0)) -> q <> p.
Proof. intros (m & k & Hq & Hk) Hp Hne ->. destruct (named_inj _ _ _ _ _ _ Hq Hp) as [-> ->]. naive_solver. Qed.
Lemma clean_up_ok w k : mem_wf w -> exists w', Open.clean_up self0 k w = (Ret (self0, k), w') /\ mem_wf w' /\ forall q, kept self0 q -> keeps q w w'.
Proof.
  intros Hw. destruct (directory_ok self0 w k) as (es1 & E1 & Hes1).
  assert (exists w1, Core.delete_obsolete_logs (self0, (w, k)) = (Ret tt, (self0, (w1, k))) /\ mem_wf w1 /\ forall q, kept self0 q -> keeps q w w1) as (w1 & D1 & Hw1 & Hk1).
  { unfold Core.delete_obsolete_logs. rewrite (action_bind_ret _ _ _ _ _ E1). apply sweep_ok; [done|]. intros e w1 He Hw1.
    assert (Hskip : exists w', (Ret tt, (self0, (w1, k))) = (Ret tt, (self0, (w', k))) /\ mem_wf w' /\ forall q, kept self0 q -> keeps q w1 w') by (exists w1; split_and!; [done|done|by intros q _; split]).
    rewrite Forall_forall in Hes1. specialize (Hes1 e He). destruct e as [[n kind]|]; [|exact Hskip]. destruct (Hes1 n kind eq_refl) as [name Hname].
    destruct kind; try exact Hskip. erewrite action_bind_ret by reflexivity. cbn [id fst]. destruct (Z.ltb_spec n (DBImplCore.log_file_number self0)); [|exact Hskip].
    destruct (remove_ok (log_file_name (DBImplCore.dbname self0) n) self0 w1 k Hw1) as (w2 & E2 & Hw2 & Hk2).
    assert (Hn : is_u64 n) by (eapply parsed_u64; [exact Hname|by left]).
    exists w2. split_and!; [done|done|]. intros q Hq. apply Hk2. eapply kept_other; [done|by apply log_named|left; split; [done|lia]]. }
  destruct (directory_ok self0 w1 k) as (es2 & E2 & Hes2).
  assert (exists w2, Core.delete_obsolete_manifests (self0, (w1, k)) = (Ret tt, (self0, (w2, k))) /\ mem_wf w2 /\ forall q, kept self0 q -> keeps q w1 w2) as (w2 & D2 & Hw2 & Hk2).
  { unfold Core.delete_obsolete_manifests. erewrite action_bind_ret by reflexivity. rewrite (action_bind_ret _ _ _ _ _ E2). apply sweep_ok; [done|]. intros e w2 He Hw2.
    assert (Hskip : exists w', (Ret tt, (self0, (w2, k))) = (Ret tt, (self0, (w', k))) /\ mem_wf w' /\ forall q, kept self0 q -> keeps q w2 w') by (exists w2; split_and!; [done|done|by intros q _; split]).
    rewrite Forall_forall in Hes2. specialize (Hes2 e He). destruct e as [[n kind]|]; [|exact Hskip]. destruct (Hes2 n kind eq_refl) as [name Hname].
    destruct kind; try exact Hskip. cbn [fst]. destruct (Z.eqb_spec n (VersionSet.manifest_file_number (DBImplCore.version_set self0))) as [|Hne]; [exact Hskip|]. cbn [negb].
    erewrite action_bind_ret by reflexivity. cbn [id fst].
    destruct (remove_ok (descriptor_file_name (DBImplCore.dbname self0) n) self0 w2 k Hw2) as (w3 & E3 & Hw3 & Hk3).
    assert (Hn : is_u64 n) by (eapply parsed_u64; [exact Hname|by right]).
    exists w3. split_and!; [done|done|]. intros q Hq. apply Hk3. eapply kept_other; [done|by apply manifest_named|right; split; [done|lia]]. }
  exists w2. unfold Open.clean_up. rewrite (action_bind_ret _ _ _ _ _ D1), D2. split_and!; [done|done|].
  intros q Hq. apply (keeps_trans q w w1); [by apply Hk1|by apply Hk2].
Qed.
End clean.

(** ** The new log, recorded in the manifest *)

Lemma live_none (fs : list FileMeta) : VersionBuilder.live ∅ fs = fs.
Proof. unfold VersionBuilder.live. induction fs as [|f fs IH]; [done|]. rewrite filter_cons_True by set_solver. by rewrite IH. Qed.
Lemma none_less (N : gset Z) : ∅ ∖ N = ∅.
Proof. set_solver. Qed.

Section create.
Context {C P Co K : Type} `{HC : Comparator C} `{HP : FilterPolicy P} `{HCo : Compressor Co} `{HK : Cache K Block}.
Context (c : C) (ord : bytes -> bytes -> comparison) `{!ComparatorLaws c (fun _ => True) ord}.
Context (Hcname : is_u32 (len (list_byte_of_string (cmp_name c)))).
Abbreviation set := (VersionSet.t C MemEnv) (only parsing).
Implicit Types (self : set) (w : MemEnv).

Lemma logged_keeps self w w' es : logged c ord self w es -> mem_wf w' ->
  keeps (manifest_path (VersionSet.dbname self) (VersionSet.manifest_file_number self)) w w' -> keeps (current_path (VersionSet.dbname self)) w w' -> logged c ord self w' es.
Proof.
  intros [L1 L2 L3 L4 L5 L6 L7 L8 L9] Hw Hm Hc. split; try done; [by apply (keeps_in_manifest self w)|]. by rewrite (keeps_view _ _ _ Hc).
Qed.

Lemma same_levels self self' : set_ok c ord self -> length (Version.files (VersionSet.current self')) = Z.to_nat NUM_LEVELS ->
  (forall i fs, (i < Z.to_nat NUM_LEVELS)%nat -> Version.files (VersionSet.current self) !! i = Some fs -> Version.files (VersionSet.current self') !! i = Some fs) ->
  Version.files (VersionSet.current self') = Version.files (VersionSet.current self).
Proof.
  intros Hs Hl Hi. apply list_eq. intros i. pose proof (so_levels _ _ _ Hs) as Hl0. destruct (decide (i < Z.to_nat NUM_LEVELS)%nat) as [Hlt|Hge].
  - destruct (lookup_lt_is_Some_2 (Version.files (VersionSet.current self)) i ltac:(lia)) as [fs Hfs]. rewrite Hfs. by apply Hi.
  - rewrite !lookup_ge_None_2; [done|lia..].
Qed.
(** A version after an edit that only adds files. *)
Lemma edit_next self e b i fs : edit_ok e -> VersionEdit.deleted_files e = [] ->
  VersionBuilder.apply (VersionBuilder.new (VersionSet.current self)) e = Ret b -> Version.files (VersionSet.current self) !! i = Some fs ->
  next_level ord b i = isort (level_order ord i) (fs ++ edit_new (VersionEdit.new_files e) i).
Proof.
  intros He Hdel Eb Hfs. destruct (apply_ok _ e (new_sized (VersionSet.current self)) (edit_levels _ He)) as (b' & Eb' & Bb & _ & D & A).
  rewrite Eb in Eb'. injection Eb' as <-. rewrite next_level_eq, D, A, Bb, dels_new, adds_new, Hdel. unfold edit_deleted. cbn [List.filter map list_to_set].
  rewrite (right_id_L ∅ (∪)), (none_less (numbers _)), !live_none. cbn [VersionBuilder.new VersionBuilder.base app]. by rewrite Hfs.
Qed.

Lemma start_log_ok dbname self w es : alive c ord dbname self w es ->
  exists h self' w' es', Open.start_log c (self, w) = (Ret (VersionSet.next_file_number self, h), (self', w')) /\
    alive c ord dbname self' w' es' /\ logged c ord self' w' es' /\ Mem.closed h = false /\
    view w' !! path_new (log_file_name dbname (VersionSet.next_file_number self)) = Some [] /\
    VersionSet.log_number self' = VersionSet.next_file_number self /\ VersionSet.last_sequence self' = VersionSet.last_sequence self /\
    Version.files (VersionSet.current self') = Version.files (VersionSet.current self) /\
    (forall q n, named dbname q n TableFile -> keeps q w w').
Proof.
  intros Ha. set (n := VersionSet.next_file_number self). assert (Hn : is_u64 n) by apply (al_ok _ _ _ _ _ _ Ha).
  destruct (run_op_ok c ord Hcname dbname OpNumber self w es Ha I) as (self1 & w1 & es1 & E1 & Ha1 & Hk1 & ->).
  { intros i. cbn. split; [constructor|set_solver +]. }
  unfold run_op, VersionSet.modify in E1. cbn [fst snd] in E1. injection E1 as Es1 Ew1. subst w1.
  set (e := VersionEdit.mk (Some (list_byte_of_string (cmp_name c))) (Some n) None None None [] [] []).
  assert (Hfit : edit_fit e) by (split; [|apply Forall_nil_2]; split; first [done|apply Forall_nil_2]).
  destruct (log_and_apply_full c ord Hcname self1 w e es (al_ok _ _ _ _ _ _ Ha1) Hfit)
    as (self2 & w2 & es2 & E2 & Hs2 & Hl2 & D2 & Q2 & Hlast & _ & (b & Eb & Hfiles) & Hk2);
    [apply (al_usable _ _ _ _ _ _ Ha1)|intros i; set_solver +|].
  pose proof (al_dbname _ _ _ _ _ _ Ha1) as Hdb. rewrite Hdb in D2, Hk2. pose proof (im_number _ _ _ (lg_in _ _ _ _ _ Hl2)) as Hm2.
  destruct (new_writable_ok (path_new (log_file_name dbname n)) w2) as (h & w3 & E3 & Hw3 & Ho & Hp & Hb & Hk3); [apply Hl2|].
  pose proof (log_named dbname n Hn) as Nl.
  assert (Hl3 : logged c ord self2 w3 es2).
  { apply (logged_keeps self2 w2); [done|done|rewrite D2; apply Hk3..].
    - apply (named_ne dbname _ _ _ _ _ _ (manifest_named dbname _ Hm2) Nl). by left.
    - apply (named_ne dbname _ _ _ _ _ _ (current_named dbname) Nl). by left. }
  exists h, self2, w3, es2. split_and!; [|split; [done|by right|done]|done|done| | | | |].
  - unfold Open.start_log. erewrite action_bind_ret by (unfold Open.set_number; cbn [fst snd]; reflexivity). change (VersionSet.new_file_number self).2 with (VersionSet.with_next (as_u64 (VersionSet.next_file_number self + 1)) self). rewrite Es1. cbv beta.
    change (VersionSet.new_file_number self).1 with n. fold e. rewrite (action_bind_ret _ _ _ _ _ E2). erewrite action_bind_ret by reflexivity. cbn [id fst].
    rewrite D2. fold n. erewrite action_bind_ret by (unfold Open.on_env, VersionSet.on_env; cbn [fst snd new_writable_file MemEnv_Env]; rewrite E3; reflexivity). reflexivity.
  - rewrite view_lookup. fold n. rewrite Hp. cbn. by rewrite Hb.
  - rewrite (lg_log _ _ _ _ _ Hl2). apply last_Some in Hlast as (pre & ->). by rewrite last_field_snoc.
  - rewrite Q2, <- Es1. done.
  - change (VersionSet.current self) with (VersionSet.current (VersionSet.with_next (as_u64 (VersionSet.next_file_number self + 1)) self)). rewrite Es1.
    apply (same_levels self1 self2); [apply Ha1|apply Hs2|]. intros i fs Hi Hfs. rewrite Hfiles by done.
    rewrite (edit_next self1 (VersionSet.stash_edit self1 e) b i fs); [|apply (stash_ok c ord); [apply Ha1|apply Hfit]|done|done|done].
    cbn. rewrite app_nil_r, isort_id; [done|]. by apply (so_sorted _ _ _ (al_ok _ _ _ _ _ _ Ha1)).
  - intros q m Hq. apply (keeps_trans q w w2).
    + apply Hk2; [apply (named_ne dbname _ _ _ _ _ _ Hq (manifest_named dbname _ Hm2))|apply (named_ne dbname _ _ _ _ _ _ Hq (current_named dbname))|apply (named_ne dbname _ _ _ _ _ _ Hq (temp_named dbname _ Hm2))]; by left.
    + apply Hk3. apply (named_ne dbname _ _ _ _ _ _ Hq Nl). by left.
Qed.

(** A version without files. *)
Lemma empty_version_wf v : Version.comparator v = mk_icmp c -> Version.files v = replicate (Z.to_nat NUM_LEVELS) [] ->
  version_wf c ord (contents (P:=P) (fun _ => None)) v /\ version_entries (contents (P:=P) (fun _ => None)) v = [] /\ all_stored (on_file (P:=P) (fun _ => None)) v.
Proof.
  intros Hc Hf. unfold version_entries, all_stored. rewrite Hf. split_and!; [|done|by repeat constructor]. split; rewrite ?Hf.
  - done.
  - by rewrite length_replicate.
  - by repeat constructor.
  - cbn. repeat constructor; intros i j a x _ Ha; by rewrite lookup_nil in Ha.
  - intros l0 [= <-]. constructor.
  - intros l0 a x [= <-] Ha. by apply elem_of_nil in Ha.
  - cbn. repeat split; intros x y Hx; by apply elem_of_nil in Hx.
Qed.
Lemma lock_ok (p : path) w : mem_wf w -> p ∉ locks w ->
  exists w', Mem.lock_file p w = (Ret (Mem.mk_lock p), w') /\ mem_wf w' /\ forall q, q <> p -> keeps q w w'.
Proof.
  intros Hw Hno. unfold Mem.lock_file. rewrite decide_False by done. cbv zeta. set (wl := mk_mem (files w) (bufs w) (Env.fresh w) ({[p]} ∪ locks w)).
  assert (Hwl : mem_wf wl) by (destruct Hw; by split). destruct (files wl !! p) as [b|] eqn:Ep; eexists; (split; [reflexivity|]).
  - split; [exact Hwl|]. intros q _. by split.
  - split; [by apply alloc_wf|]. intros q Hq. split; cbn; [by rewrite lookup_insert_ne|]. intros b Hb. rewrite lookup_insert_ne; [done|].
    intros <-. destruct Hw as [_ Hf]. apply Hf in Hb. lia.
Qed.
End create.

Lemma current_ne_lock dbname : path_new (current_file_name dbname) <> path_new (lock_file_name dbname).
Proof. apply (named_ne dbname _ _ _ _ _ _ (current_named dbname) (lock_named dbname)). by left. Qed.
Lemma current_missing (w w' : MemEnv) p : view w !! p = None -> keeps p w w' -> file_exists p w' = false.
Proof.
  intros Hp [Hk _]. cbn [file_exists MemEnv_Env]. unfold Mem.file_exists. apply bool_decide_eq_false. rewrite Hk.
  rewrite view_lookup in Hp. destruct (files w !! p); [discriminate Hp|]. intros [? [=]].
Qed.

(** ** Claims *)

(** C11: (DB::open, a new database) In the in-memory environment, where the directory has no
    CURRENT file and its lock is free, opening with [create_if_missing] succeeds: the
    database returned holds nothing, its log is empty and on record, and the manifest left
    on disk recovers to a version without files that asks for this log. *)
Theorem open_creates {C P Co K} `{Comparator C} `{FilterPolicy P} `{Compressor Co} `{Cache K Block} {cache_ok : K -> Prop}
    {cached : K -> bytes -> Block -> Prop} {next : K -> Z}
    `{!CacheLaws cache_ok cached, !CacheIdLaws cache_ok cached, !CacheFreshLaws next}
    (c : C) ord `{!ComparatorLaws c (fun _ => True) ord} arena (new_cache : Z -> K) fuel dbname (o : Options P Co K) w b :
  let k := default (new_cache (block_cache_size o)) (block_cache o) in
  is_u32 (len (list_byte_of_string (cmp_name c))) -> mem_wf w -> view w !! path_new (current_file_name dbname) = None ->
  path_new (lock_file_name dbname) ∉ locks w -> create_if_missing o = true ->
  cache_ok k -> (forall key v, ~ cached k key v) -> 0 <= next k -> next k + Z.of_nat b < 2 ^ 64 ->
  exists self w', Open.open (W:=MemEnv) arena new_cache fuel dbname c o w = (Ret (self, k), w') /\
    db_view (E:=MemEnv_Env) (file_at:=fun w p => view w !! p) (cache_ok:=cache_ok) (cached:=cached) (next:=next)
      c ord (compressor o) (filter_policy o) dbname (fun _ => None) b (self, (w', k)) [] [] /\
    Core.last_sequence self = 0 /\ view w' !! path_new (log_file_name dbname (DBImplCore.log_file_number self)) = Some [] /\
    forall bound, manifest_size (DBImplCore.version_set self) w' < 2 ^ 63 -> manifest_size (DBImplCore.version_set self) w' + 8 <= Z.of_nat bound ->
      exists vs w2, VersionSet.recover bound (VersionSet.new dbname c, w') = (Ret tt, (vs, w2)) /\
        Version.files (VersionSet.current vs) = replicate (Z.to_nat NUM_LEVELS) [] /\
        VersionSet.log_number vs = DBImplCore.log_file_number self.
Proof.
  intros k Hcname Hw Hcur Hlock Hcreate Hck Hno Hnext Hb. set (lock := path_new (lock_file_name dbname)) in *. set (cur := path_new (current_file_name dbname)) in *.
  destruct (lock_ok lock w Hw Hlock) as (w1 & E1 & Hw1 & Hk1).
  destruct (start_log_ok c ord Hcname dbname _ w1 [] (new_alive c ord dbname w1 Hw1)) as (h & vs & w2 & es & E2 & Ha & Hl & Ho & Hlog & Hnum & Hseq & Hfiles & _).
  pose proof (al_dbname _ _ _ _ _ _ Ha) as Hdb.
  set (mh := SharedMemTable.new c ∅). set (n := VersionSet.next_file_number (VersionSet.new (W:=MemEnv) dbname c)) in *.
  set (self := Open.new_db (W:=MemEnv) (E:=MemEnv_Env) (P:=P) (Co:=Co) (K:=K) dbname c o (Mem.mk_lock lock) vs mh.1 mh.2 n h).
  assert (Hn : is_u64 (DBImplCore.log_file_number self)).
  { change (is_u64 2). clear. by unfold is_u64. }
  destruct (clean_up_ok self w2 k (im_wf _ _ _ (lg_in _ _ _ _ _ Hl))) as (w3 & E3 & Hw3 & Hk3).
  assert (Hl3 : logged c ord vs w3 es).
  { apply (logged_keeps c ord vs w2); [done|done|apply Hk3; rewrite Hdb; exists (VersionSet.manifest_file_number vs), DescriptorFile|apply Hk3; rewrite Hdb; exists 0, CurrentFile].
    - split; [|done]. apply manifest_named, Hl.
    - split; [|done]. apply current_named. }
  exists self, w3. split_and!.
  - unfold Open.open, Open.core_open. erewrite action_bind_ret by reflexivity. rewrite (action_bind_ret _ _ _ _ _ E1).
    unfold Open.holding, Open.open_locked.
    assert (file_exists (path_new (current_file_name dbname)) w1 = false) as ->.
    { apply (current_missing w w1); [done|]. apply Hk1, current_ne_lock. }
    unfold Open.check_existence. rewrite Hcreate. cbn [andb negb].
    assert (Open.run_set dbname c (Open.recover_or_create arena fuel c o false) w1 = (Ret (mh.1, mh.2, (n, h), vs), w2)) as ->.
    { unfold Open.run_set, Open.recover_or_create. destruct mh as [m hp] eqn:Emh. unfold mh in Emh. rewrite Emh.
      erewrite action_bind_ret by reflexivity. cbv beta iota. by rewrite (action_bind_ret _ _ _ _ _ E2). }
    fold k. fold self. by rewrite E3.
  - pose proof (so_comparator _ _ _ (al_ok _ _ _ _ _ _ Ha)) as Hvc.
    destruct (empty_version_wf (P:=P) c ord (VersionSet.current vs) Hvc Hfiles) as (V1 & V2 & V3). split.
    + split; [constructor|]. exists (MemTable.new c). split; [apply (lookup_insert_eq (M:=gmap nat))|apply (mem_new_holds (c:=c) (ord:=ord))].
    + done.
    + exact V1.
    + exact V3.
    + apply (new_tc_inv (W:=MemEnv) (file_at:=fun w p => view w !! p)); [by intros m f|done..].
    + intros x y Hx. destruct (proj1 (elem_of_nil x) Hx).
    + intros x y Hx. destruct (proj1 (elem_of_nil x) Hx).
  - exact Hseq.
  - rewrite (keeps_view _ w2 w3); [exact Hlog|]. apply Hk3. exists n, LogFile. split; [by apply log_named|done].
  - intros bound Hsz Hbound. destruct (recover_ok c ord vs w3 es bound (al_ok _ _ _ _ _ _ Ha) Hl3 Hsz Hbound) as (vs' & w4 & E4 & F1 & _ & F3 & _).
    rewrite Hdb in E4. exists vs', w4. split_and!; [done|by rewrite F1|]. by rewrite F3.
Qed.

(** A directory that holds an old log and nothing else. *)
Lemma open_creates_witness :
  let w := Mem.alloc Mem.new (path_new "db/000001.log") (list_byte_of_string "old") in
  exists self w', Open.open (W:=MemEnv) (C:=BytewiseComparator) (K:=ShardedLRUCache.t Block) (fun n => replicate (Z.to_nat n) Byte.x00)
      (ShardedLRUCache.new (V:=Block)) 100 "db" Bytewise sample_options w = (Ret (self, ShardedLRUCache.new (V:=Block) DEFAULT_BLOCK_CACHE_SIZE), w') /\
    db_view (E:=MemEnv_Env) (file_at:=fun w p => view w !! p) (cache_ok:=sharded_ok) (cached:=sharded_cached) (next:=ShardedLRUCache.next_id)
      Bytewise bytes_cmp (Some reverser) (Some sample_policy) "db" (fun _ => None) 9 (self, (w', ShardedLRUCache.new (V:=Block) DEFAULT_BLOCK_CACHE_SIZE)) [] [] /\
    Core.last_sequence self = 0.
Proof.
  intros w. assert (Hw : mem_wf w) by apply alloc_wf, new_wf.
  destruct (open_creates (cache_ok:=sharded_ok) (cached:=sharded_cached) (next:=ShardedLRUCache.next_id) Bytewise bytes_cmp
    (fun n => replicate (Z.to_nat n) Byte.x00) (ShardedLRUCache.new (V:=Block)) 100 "db" sample_options w 9) as (self & w' & E1 & Hv & Hs & _).
  - unfold is_u32. by vm_compute.
  - exact Hw.
  - unfold w. rewrite alloc_view by apply new_wf. rewrite lookup_insert_ne by done. by vm_compute.
  - by vm_compute.
  - done.
  - apply sharded_new_ok.
  - apply sharded_new_empty.
  - by vm_compute.
  - by vm_compute.
  - exists self, w'. split; [exact E1|split; [exact Hv|exact Hs]].
Defined.
