(* ===== verification/DbRecover.v ===== *)
(** * DbRecover.v: what opening a database after a crash gives back.

    The directory of a database that was cut short: a manifest, table files, and logs whose
    last bytes may be missing.  [DBImpl::open] replays the logs into a memtable, writes it
    as a table file and goes on from a version that has it. *)
From S2P Require Import Prelude Status Coding Comparator Format WriteBatch Filter Block Env Filename Sort Cache.
From S2P Require Import CacheCorrect TableBuilder TableFormat TableBuilderCorrect Table TableCorrect Newest Log LogCorrect LogFile LogTorn TableCache TableCacheCorrect VersionEdit Version VersionCorrect VersionSet VersionSetCorrect VersionAdd SkipList SkipListCorrect.
From S2P Require Import MemTable MemTableCorrect SharedMem DbState DbCore DbCoreCorrect Compact CompactCorrect TableFile CompactFiles DbWrite DbWriteCorrect DbOpen DbOpenCorrect DbCreate DbIterator.

(** ** The logs of a crashed database *)

(** A log that was cut: its number, the bytes that are left, the groups written to it. *)
Record cut_log := mk_log { cl_number : Z; cl_bytes : Z; cl_groups : list group }.
Definition cut_data (l : cut_log) : bytes := ztake (cl_bytes l) (enc_records 0 (map log_record (cl_groups l))).1.
(** The groups that lie whole in what is left. *)
Definition survive (l : cut_log) (gs : list group) : Prop :=
  exists k, gs = take k (cl_groups l) /\ whole 0 (map log_record (cl_groups l)) (cl_bytes l) k.

Lemma in_sequence_app a b : forall from, in_sequence from (a ++ b) -> in_sequence from a /\ exists from', from <= from' /\ in_sequence from' b /\
  forall e, 0 <= from -> e ∈ concat (map group_entries a) -> esequence e < from'.
Proof.
  induction a as [|g a IH]; intros from; cbn [app in_sequence map concat].
  - intros Hs. split; [done|]. exists from. split_and!; [lia|done|]. intros e _ He. by apply elem_of_nil in He.
  - intros (H1 & H2 & Hs). destruct (IH _ Hs) as (Ha & from' & Hf & Hb & Hlt). pose proof (len_nonneg g.2). split; [done|]. exists from'. split_and!; [lia|done|].
    intros e H0 [He|He]%elem_of_app; [|apply Hlt; [lia|done]]. apply stamped_sequence in He; lia.
Qed.
Lemma last_of_app a b max : last_of max (a ++ b) = last_of (last_of max a) b.
Proof. apply fold_left_app. Qed.
Lemma last_of_max gs : forall a b, 0 <= b -> last_of (Z.max a b) gs = Z.max a (last_of b gs).
Proof. induction gs as [|g gs IH]; intros a b Hb; [done|]. unfold last_of in *. cbn [fold_left]. rewrite <- IH by lia. f_equal. lia. Qed.

Section replay_logs.
Context {C : Type} `{HC : Comparator C} (c : C) (ord : bytes -> bytes -> comparison) `{!ComparatorLaws c (fun _ => True) ord}.
Context (arena : Z -> bytes) (Harena : forall n, n <= len (arena n)) (fuel : nat) (dbname : string).
Abbreviation holds_in m es := (mem_holds (c:=c) (ord:=ord) m es) (only parsing).
Implicit Types (w : MemEnv) (h : mem_heap C).

Lemma replay_keeps records : forall mem paranoid reader max n h w,
  (Open.replay_loop (E:=MemEnv_Env) arena fuel records mem paranoid reader max n h w).2 = w.
Proof.
  induction records as [|records IH]; intros mem paranoid reader max n h w; cbn [Open.replay_loop]; [done|].
  pose proof (mem_reader_keeps fuel (reader, w)) as Hk. destruct (LogSequentialReader.read_record fuel (reader, w)) as [[[rec|]|e|] [r' w']]; cbn [snd] in Hk; subst w'; [|done|by destruct paranoid|done].
  destruct (Open.replay_record arena mem rec h) as [[[[end_ added]|e|] h']|e|]; [apply IH|by destruct paranoid|done..].
Qed.

(** A log as it lies on disk. *)
Definition log_on_disk w (l : cut_log) : Prop :=
  view w !! path_new (log_file_name dbname (cl_number l)) = Some (cut_data l) /\ 0 <= cl_bytes l /\
  len (cut_data l) < 2 ^ 63 /\ len (cut_data l) + 8 <= Z.of_nat fuel /\ Forall group_ok (cl_groups l).
Lemma replay_logs_ok w r logs : forall (h : mem_heap C) m es max from,
  Forall (log_on_disk w) logs -> 1 <= from -> in_sequence from (concat (map cl_groups logs)) ->
  0 <= max -> h !! r = Some m -> holds_in m es -> (forall e, e ∈ es -> esequence e < from) ->
  exists kept m' es', Forall2 survive logs kept /\
    Open.replay_logs (E:=MemEnv_Env) arena fuel dbname r false (map cl_number logs) max h w = (Ret (last_of max (concat kept), <[r := m']> h), w) /\
    holds_in m' es' /\ es' ≡ₚ es ++ concat (map group_entries (concat kept)).
Proof using Type*.
  induction logs as [|l logs IH]; intros h m es max from Hd Hf Hs Hmax Hr Hm Hlt.
  { exists [], m, es. split; [constructor|]. cbn. rewrite app_nil_r, (insert_id (M:=gmap nat) h r m Hr). by split_and!. }
  apply Forall_cons in Hd as [(Hv & Hn & Hl63 & Hfuel & Hg) Hd]. cbn [map concat] in Hs. destruct (in_sequence_app _ _ _ Hs) as (Hsl & from' & Hff & Hs' & Hle).
  set (p := path_new (log_file_name dbname (cl_number l))) in *. set (f := Mem.mk_seq p (cut_data l) 0).
  assert (Hopen : Mem.new_sequential_file p w = (Ret f, w)).
  { unfold Mem.new_sequential_file. by erewrite action_bind_ret by (by apply read_viewed). }
  assert (Hrest : mem_rest f = cut_data l) by (unfold mem_rest; cbn [Mem.sq_offset Mem.sq_data f]; by rewrite zdrop_0).
  destruct (recover_log_ok (W:=MemEnv) (E:=MemEnv_Env) c ord arena Harena fuel mem_seq_ok mem_rest dbname (cl_number l) (cl_groups l) (cl_bytes l) f w w r false h m es from)
    as (k & x & added & m1 & es1 & w1 & Hw & Hx & _ & E1 & Hm1 & Hp1); try done.
  { split; [cbn; pose proof (len_nonneg (cut_data l)); lia|done]. }
  { intros e g He Hh. specialize (Hlt e He). destruct (cl_groups l); [done|]. injection Hh as ->. destruct Hsl as [? _]. lia. }
  set (kept := take k (cl_groups l)) in *.
  assert (E2 : Open.recover_log_file (E:=MemEnv_Env) arena fuel dbname (cl_number l) r false h w = (Ret (last_of 0 kept, added, <[r := m1]> h), w)).
  { rewrite E1. f_equal; [by destruct Hx as [->|[e ->]]|]. change w1 with (Ret (A:=unit) tt, w1).2. replace w1 with (Open.recover_log_file (E:=MemEnv_Env) arena fuel dbname (cl_number l) r false h w).2 by by rewrite E1.
    cbn [snd]. unfold Open.recover_log_file. rewrite (action_bind_ret _ _ _ _ _ Hopen). apply replay_keeps. }
  destruct (IH (<[r := m1]> h) m1 es1 (Z.max max (last_of 0 kept)) from') as (kepts & m2 & es2 & Hsv & E3 & Hm2 & Hp2); [done|lia|done|lia|apply (lookup_insert_eq (M:=gmap nat))|done| |].
  { intros e He. rewrite Hp1 in He. apply elem_of_app in He as [He|He]; [specialize (Hlt e He); lia|]. apply Hle; [lia|].
    rewrite <- (take_drop k (cl_groups l)), map_app, concat_app. apply elem_of_app. by left. }
  exists (kept :: kepts), m2, es2. split; [constructor; [by exists k|done]|]. split_and!; [|done|].
  - cbn [map Open.replay_logs]. rewrite (action_bind_ret _ _ _ _ _ E2). cbv beta iota. rewrite E3.
    rewrite (insert_insert_eq (M:=gmap nat) (A:=MemTable.t C) h r m2 m1). cbn [concat]. rewrite last_of_app. do 4 f_equal.
    rewrite <- (Z.max_l max 0 Hmax) at 2. by rewrite last_of_max.
  - rewrite Hp2, Hp1. cbn [map concat]. by rewrite map_app, concat_app, <- app_assoc.
Qed.
End replay_logs.

(** ** Entries *)

Lemma stamped_wf ops : forall seq, 0 <= seq -> seq + len ops <= MAX_SEQUENCE_NUMBER + 1 -> Forall entry_wf (stamped seq ops).
Proof.
  induction ops as [|op ops IH]; intros seq H0 Hm; cbn [stamped]; [constructor|]. rewrite len_cons in Hm. pose proof (len_nonneg ops).
  constructor; [|apply IH; lia]. split; [apply ik_ok_mk|]. unfold ekind, record_entry. cbn [fst].
  rewrite op_sequence, utag_mk by (apply mk_tag_u64; lia). rewrite mk_tag_type. destruct op; cbn; auto.
Qed.
Lemma in_sequence_wf gs : forall from, 0 <= from -> in_sequence from gs -> Forall entry_wf (concat (map group_entries gs)).
Proof.
  induction gs as [|g gs IH]; intros from H0; cbn [in_sequence map concat]; [constructor|]. intros (H1 & H2 & Hs). pose proof (len_nonneg g.2).
  apply Forall_app. split; [apply stamped_wf; lia|by apply (IH (g.1 + len g.2)); [lia|]].
Qed.
Lemma later_newer a b : Forall entry_wf a -> Forall entry_wf b -> (forall x y, x ∈ a -> y ∈ b -> esequence y < esequence x) -> newer a b.
Proof.
  intros Ha Hb Hs x y Hx Hy _. rewrite Forall_forall in Ha, Hb. destruct (Ha x Hx) as [_ Hkx], (Hb y Hy) as [_ Hky].
  rewrite (tag_parts x Hkx), (tag_parts y Hky). specialize (Hs x y Hx Hy). lia.
Qed.

Section sorted.
Context (ord : bytes -> bytes -> comparison) `{!TotalOrd ord}.
Abbreviation iord := (ik_ord ord) (only parsing).
(** A table of some of the entries lies in the table of all. *)
Lemma sorted_within all : forall es, sorted_entries iord es -> sorted_entries iord all -> (forall e, e ∈ es -> e ∈ all) -> es `sublist_of` all.
Proof.
  induction all as [|x all IH]; intros es Hes Hall Hsub.
  { destruct es as [|y es]; [constructor|]. destruct (proj1 (elem_of_nil y) (Hsub y ltac:(left))). }
  destruct es as [|y es]; [apply sublist_nil_l|]. pose proof (sorted_tail _ _ _ Hall) as Htl.
  assert (Hafter : forall e, e ∈ es -> e <> x -> e ∈ all) by (intros e He Hne; destruct (proj1 (elem_of_cons all e x) (Hsub e ltac:(by right))); done).
  assert (Hirr : forall e z : entry, iord e.1 z.1 = Lt -> e <> z) by (intros e z Hlt ->; by rewrite (ord_refl (ord:=iord)) in Hlt).
  destruct (proj1 (elem_of_cons all y x) (Hsub y ltac:(left))) as [->|Hy].
  - apply sublist_skip, IH; [by eapply sorted_tail|done|]. intros e He. apply Hafter; [done|]. intros ->. by apply (Hirr x x); [by eapply (sorted_head _ x es x)|].
  - apply sublist_cons, IH; [done|done|]. intros e He. assert (Hxe : iord x.1 e.1 = Lt).
    { apply elem_of_cons in He as [->|He]; [by eapply sorted_head|]. apply (ord_le_lt_trans (ord:=iord) _ y.1); [|exact (sorted_head _ y es e Hes He)].
      by rewrite (sorted_head _ _ _ _ Hall Hy). }
    destruct (proj1 (elem_of_cons all e x) (Hsub e He)) as [->|]; [|done]. by destruct (Hirr x x Hxe).
Qed.
Lemma range_holds n size es : sorted_entries iord es -> Forall entry_wf es -> es <> [] ->
  file_holds ord (FileMetaData.mk n size (Compact.entry_range es).1 (Compact.entry_range es).2) es.
Proof.
  intros Hs Hwf Hne. destruct es as [|x es] using rev_ind; [done|]. clear IHes. unfold Compact.entry_range. rewrite last_snoc. cbn [fst snd fmap option_fmap option_map default].
  rewrite Forall_forall in Hwf. destruct (head (es ++ [x])) as [y|] eqn:Eh; [|by destruct es]. cbn [fst default from_option fmap option_fmap option_map id].
  assert (Hy : (es ++ [x]) !! 0%nat = Some y) by by rewrite <- head_lookup. assert (Hx : (es ++ [x]) !! length es = Some x) by by apply list_lookup_middle.
  assert (Hle : forall i j a b, (i <= j)%nat -> (es ++ [x]) !! i = Some a -> (es ++ [x]) !! j = Some b -> iord a.1 b.1 <> Gt).
  { intros i j a b Hij Ha Hb. destruct (decide (i = j)) as [->|]; [|by rewrite (Hs i j a b ltac:(lia) Ha Hb)]. rewrite Ha in Hb. injection Hb as ->. by rewrite (ord_refl (ord:=iord)). }
  split; cbn [FileMetaData.smallest FileMetaData.largest].
  - split; [apply (Hwf y); by eapply list_elem_of_lookup_2|apply (Hwf x); by eapply list_elem_of_lookup_2].
  - by apply Forall_forall.
  - done.
  - intros e [i Hi]%list_elem_of_lookup. apply (Hle 0%nat i y e); [lia|done..].
  - intros e [i Hi]%list_elem_of_lookup. apply (Hle i (length es) e x); [|done..]. apply lookup_lt_Some in Hi. rewrite length_app in Hi. cbn in Hi. lia.
  - exists x.2. destruct x. by eapply list_elem_of_lookup_2.
Qed.
End sorted.

(** ** The replayed entries become a table *)

Section written.
Context {C P Co K : Type} `{HC : Comparator C} `{HP : FilterPolicy P} `{HCo : Compressor Co}.
Context (c : C) (ord : bytes -> bytes -> comparison) `{!ComparatorLaws c (fun _ => True) ord} `{!ShortHints (mk_icmp c)}.
Context (Hcname : is_u32 (len (list_byte_of_string (cmp_name c)))).
Context (o : Options P Co K) (Hinterval : 1 <= block_restart_interval o) (keys_ok : list bytes -> Prop) (dbname : string).
Abbreviation iord := (ik_ord ord) (only parsing).
Abbreviation builds es := (TableBuilderCorrect.build_ok ik_ok iord keys_ok (filter_policy o) es) (only parsing).
Abbreviation set := (VersionSet.t C MemEnv) (only parsing).
Abbreviation disk dir w := (on_disk (W:=MemEnv) (file_at:=fun w p => view w !! p) c ord (compressor o) (filter_policy o) dbname dir w) (only parsing).
Implicit Types (w : MemEnv) (self : set) (dir : Z -> option (table_file (P:=P))).

(** The directory with one more table. *)
Definition with_table dir n es ds : Z -> option (table_file (P:=P)) :=
  fun m => if m =? n then Some (mk_tfile (image c o es) (filter_policy o) ds) else dir m.
Lemma with_table_disk dir w w' n es ds : disk dir w -> is_u64 n -> fits c o es -> (forall m, is_Some (dir m) -> m <> n) ->
  table_ok (mk_icmp c) ik_ok iord (compressor o) (filter_policy o) (image c o es) ds ->
  view w' !! ldb_path dbname n = Some (image c o es) -> (forall q, q <> ldb_path dbname n -> keeps q w w') ->
  disk (with_table dir n es ds) w'.
Proof.
  intros Hd Hn (b & _ & Hfit & _) Hfresh Ht Hv Hk m f. unfold with_table. destruct (Z.eqb_spec m n) as [->|Hne].
  - intros [= <-]. split; [done|]. split; [|unfold table_at; by rewrite Hv]. split_and!; [exact Ht|exact Hfit|].
    intros p q Hp Hq. left. cbn in Hp, Hq. congruence.
  - intros Hm. destruct (Hd m f Hm) as (Hmu & Hf & Hat). split_and!; [done|done|]. unfold table_at in Hat |- *.
    rewrite !(keeps_view _ w w'); [done|apply Hk..].
    + apply (named_ne dbname _ _ _ _ _ _ (sst_named dbname m Hmu) (table_named dbname n Hn)). by right.
    + apply (named_ne dbname _ _ _ _ _ _ (table_named dbname m Hmu) (table_named dbname n Hn)). by right.
Qed.
Lemma disk_kept dir w w' : disk dir w -> (forall q n, named dbname q n TableFile -> keeps q w w') -> disk dir w'.
Proof.
  intros Hd Hk m f Hm. destruct (Hd m f Hm) as (Hmu & Hf & Hat). split_and!; [done|done|]. unfold table_at in Hat |- *.
  rewrite !(keeps_view _ w w'); [done|by eapply Hk, sst_named|by eapply Hk, table_named].
Qed.

Lemma edit_new_one (k i : nat) f : (k < Z.to_nat NUM_LEVELS)%nat -> edit_new [mk_new (as_u32 (Z.of_nat k)) f] i = if decide (i = k) then [f] else [].
Proof.
  intros Hk. unfold edit_new. cbn [List.filter nf_level map]. rewrite as_u32_id by (unfold is_u32, NUM_LEVELS in *; lia). rewrite level_is.
  by case_bool_decide; case_decide.
Qed.
Lemma key_short es e : builds es -> e ∈ es -> is_u32 (len e.1).
Proof.
  intros Hb He. pose proof (bo_cost _ _ _ _ _ Hb) as Hc. pose proof (len_nonneg e.1).
  assert (Hl : len e.1 <= BlockCorrect.total_cost es); [|unfold is_u32; lia]. clear Hb Hc. unfold BlockCorrect.total_cost, BlockCorrect.entry_cost.
  assert (Hnn : forall l : list entry, 0 <= foldr (fun x n => 15 + len x.1 + len x.2 + n) 0 l).
  { induction l as [|x l IH]; cbn [foldr]; [done|]. pose proof (len_nonneg x.1). pose proof (len_nonneg x.2). lia. }
  induction es as [|x es IH]; [by apply elem_of_nil in He|]. cbn [foldr]. pose proof (len_nonneg x.1). pose proof (len_nonneg x.2). specialize (Hnn es).
  apply elem_of_cons in He as [->|He]; [lia|]. specialize (IH He). lia.
Qed.

(** The edit that registers the table, and the version it makes. *)
Definition table_meta n es : FileMeta := FileMetaData.mk n (as_u64 (len (image c o es))) (Compact.entry_range es).1 (Compact.entry_range es).2.
Lemma table_edit_fit (k : nat) n es : builds es -> Forall entry_wf es -> es <> [] -> is_u64 n -> (k < Z.to_nat NUM_LEVELS)%nat ->
  edit_fit (Compact.new_table_edit None (Z.of_nat k) n (as_u64 (len (image c o es))) es).
Proof.
  intros Hb Hwf Hne Hn Hk. pose proof (range_holds ord n (as_u64 (len (image c o es))) es (bo_sorted _ _ _ _ _ Hb) Hwf Hne) as Hf.
  pose proof (fh_keys _ _ _ Hf) as Hok. split; [split; cbn; try done; try apply Forall_nil_2|].
  - apply Forall_singleton. split; cbn [nf_level nf_meta]; [rewrite as_u32_id by (unfold is_u32, NUM_LEVELS in *; lia); unfold level_ok, NUM_LEVELS in *; lia|].
    split_and!; [done|apply as_u64_range| |]; cbn.
    + destruct es as [|x es]; [done|]. apply (key_short (x :: es) x Hb). by left.
    + destruct (fh_last _ _ _ Hf) as [v Hv]. exact (key_short es _ Hb Hv).
  - by apply Forall_singleton.
Qed.
Lemma known_below self (i : nat) dir n : all_stored (on_file dir) (VersionSet.current self) -> (forall m, is_Some (dir m) -> m < n) ->
  {[n]} ## known self [] i.
Proof.
  intros Hst Hlt x ->%elem_of_singleton Hx. unfold known in Hx. cbn in Hx. apply elem_of_union in Hx as [Hx|Hx]; [|by apply elem_of_empty in Hx].
  apply elem_of_list_to_set, list_elem_of_fmap in Hx as (f & -> & Hf). destruct (Version.files (VersionSet.current self) !! i) as [fs|] eqn:Efs; [|by apply elem_of_nil in Hf].
  pose proof (proj1 (Forall_lookup _ _) Hst _ _ Efs) as Hs. rewrite Forall_forall in Hs. specialize (Hlt _ (Hs f Hf)). lia.
Qed.
Lemma table_logged self w (k : nat) n es dir : alive c ord dbname self w [] -> builds es -> Forall entry_wf es -> es <> [] -> is_u64 n -> (k < Z.to_nat NUM_LEVELS)%nat ->
  all_stored (on_file dir) (VersionSet.current self) -> (forall m, is_Some (dir m) -> m < n) ->
  exists self' w' es', VersionSet.log_and_apply (Compact.new_table_edit None (Z.of_nat k) n (as_u64 (len (image c o es))) es) (self, w) = (Ret tt, (self', w')) /\
    alive c ord dbname self' w' es' /\ logged c ord self' w' es' /\ VersionSet.last_sequence self' = VersionSet.last_sequence self /\
    (forall i fs, Version.files (VersionSet.current self) !! i = Some fs ->
       Version.files (VersionSet.current self') !! i = Some (isort (level_order ord i) (fs ++ if decide (i = k) then [table_meta n es] else []))) /\
    forall q m, named dbname q m TableFile -> keeps q w w'.
Proof.
  intros Ha Hb Hwf Hne Hn Hk Hst Hlt. set (e := Compact.new_table_edit _ _ _ _ _). pose proof (table_edit_fit k n es Hb Hwf Hne Hn Hk) as Hfit. fold e in Hfit.
  destruct (log_and_apply_full c ord Hcname self w e [] (al_ok _ _ _ _ _ _ Ha) Hfit (al_usable _ _ _ _ _ _ Ha))
    as (self2 & w2 & es2 & E2 & Hs2 & Hl2 & D2 & Q2 & _ & _ & (b & Eb & Hfiles) & Hk2).
  { intros i. unfold e, Compact.new_table_edit. cbn [VersionEdit.new_files]. rewrite edit_new_one by done. case_decide; [|by apply disjoint_empty_l].
    unfold numbers. cbn [map list_to_set]. rewrite (right_id_L ∅ (∪)). by apply (known_below self i dir). }
  pose proof (al_dbname _ _ _ _ _ _ Ha) as Hdb. rewrite Hdb in D2, Hk2. pose proof (im_number _ _ _ (lg_in _ _ _ _ _ Hl2)) as Hm2.
  exists self2, w2, es2. split; [done|]. split; [split; [done|by right|done]|]. split; [done|]. split; [done|]. split.
  - intros i fs Hfs. assert (Hi : (i < Z.to_nat NUM_LEVELS)%nat) by (apply lookup_lt_Some in Hfs; rewrite (so_levels _ _ _ (al_ok _ _ _ _ _ _ Ha)) in Hfs; done).
    rewrite Hfiles by done. rewrite (edit_next ord self (VersionSet.stash_edit self e) b i fs); [|apply (stash_ok c ord); [apply Ha|apply Hfit]|done|done|done].
    do 3 f_equal. by apply edit_new_one.
  - intros q m Hq. apply Hk2; [apply (named_ne dbname _ _ _ _ _ _ Hq (manifest_named dbname _ Hm2))|apply (named_ne dbname _ _ _ _ _ _ Hq (current_named dbname))|
      apply (named_ne dbname _ _ _ _ _ _ Hq (temp_named dbname _ Hm2))]; by left.
Qed.

(** What is known of a version set and its tables on disk. *)
Record at_rest dir self w : Prop := {
  ar_wf : version_wf c ord (contents dir) (VersionSet.current self);
  ar_stored : all_stored (on_file dir) (VersionSet.current self);
  ar_disk : disk dir w;
}.
Lemma contents_with dir n es ds m : all_entries ds = es -> contents (with_table dir n es ds) m = if m =? n then es else contents dir m.
Proof. intros Hes. unfold contents, with_table. by destruct (Z.eqb_spec m n). Qed.

Lemma table_at_rest dir self self' w w' (k : nat) n es ds : at_rest dir self w -> disk (with_table dir n es ds) w' -> all_entries ds = es ->
  set_ok c ord self' -> (forall m, is_Some (dir m) -> m < n) -> sorted_entries iord es -> Forall entry_wf es -> es <> [] ->
  newer es (version_entries (contents dir) (VersionSet.current self)) -> (k < Z.to_nat NUM_LEVELS)%nat ->
  ((0 < k)%nat -> forall i, (i <= k)%nat -> untouched ord (VersionSet.current self) (lo (table_meta n es)) (hi (table_meta n es)) i) ->
  (forall i fs, Version.files (VersionSet.current self) !! i = Some fs ->
     Version.files (VersionSet.current self') !! i = Some (isort (level_order ord i) (fs ++ if decide (i = k) then [table_meta n es] else []))) ->
  set_ok c ord self ->
  at_rest (with_table dir n es ds) self' w' /\
  forall e, e ∈ version_entries (contents (with_table dir n es ds)) (VersionSet.current self') <->
    e ∈ es \/ e ∈ version_entries (contents dir) (VersionSet.current self).
Proof.
  intros [Hwf Hst Hd] Hd' Hes Hs' Hlt Hsort Hewf Hne Hnewer Hk Hmiss Hfiles Hs. pose proof (so_levels _ _ _ Hs) as Hlv. pose proof (fun i fs => so_sorted _ _ _ Hs i fs) as Hsv.
  set (v := VersionSet.current self) in *. set (v' := VersionSet.current self') in *.
  destruct (lookup_lt_is_Some_2 (Version.files v) k) as [old Hold]; [lia|].
  assert (Hstored : forall i fs g, Version.files v !! i = Some fs -> g ∈ fs -> is_Some (dir (FileMetaData.number g))).
  { intros i fs g Hfs Hg. pose proof (proj1 (Forall_lookup _ _) Hst _ _ Hfs) as Hf. rewrite Forall_forall in Hf. by apply Hf. }
  pose proof (Hfiles k old Hold) as Hnew. rewrite decide_True in Hnew by done. set (new := isort _ _) in Hnew.
  assert (Hsame : forall i, (i < Z.to_nat NUM_LEVELS)%nat -> i <> k -> Version.files v' !! i = Version.files v !! i).
  { intros i Hi Hne'. destruct (lookup_lt_is_Some_2 (Version.files v) i) as [fs Hfs]; [lia|].
    rewrite (Hfiles i fs Hfs), decide_False, app_nil_r by done. rewrite Hfs, isort_id; [done|]. by apply Hsv. }
  assert (Hperm : new ≡ₚ table_meta n es :: old) by (unfold new; rewrite isort_perm; by rewrite Permutation_app_comm).
  assert (Hkeep : forall i fs g, Version.files v !! i = Some fs -> g ∈ fs ->
    contents (with_table dir n es ds) (FileMetaData.number g) = contents dir (FileMetaData.number g) /\ FileMetaData.number g < n).
  { intros i fs g Hfs Hg. pose proof (Hlt _ (Hstored i fs g Hfs Hg)). split; [|done]. rewrite contents_with by done. by rewrite (proj2 (Z.eqb_neq _ _)) by lia. }
  assert (Hcon : contents (with_table dir n es ds) (FileMetaData.number (table_meta n es)) = es) by (rewrite contents_with by done; cbn; by rewrite Z.eqb_refl).
  pose proof (range_holds ord n (as_u64 (len (image c o es))) es Hsort Hewf Hne) as Hf.
  assert (Hm : (0 < k)%nat -> forall i fs g, (i <= k)%nat -> Version.files v !! i = Some fs -> g ∈ fs -> hits ord (Some (lo (table_meta n es))) (Some (hi (table_meta n es))) g = false).
  { intros H0 i fs g Hi Hfs Hg. by apply (Hmiss H0 i Hi fs g). }
  split; [split; [|apply Forall_lookup; intros i fs Hfs; apply Forall_forall; intros g Hg|done]|].
  - apply (added_wf c ord (contents dir) _ v v' k (table_meta n es) es old new); try done; [apply Hs'|apply Hs'|apply isort_sorted, (level_order_ord c ord)].
  - destruct (in_level c ord (contents dir) (contents (with_table dir n es ds)) v v' k (table_meta n es) old new Hwf) with (i := i) (fs := fs) (g := g)
      as [[_ ->]|(fs0 & Hfs0 & Hg0 & _)]; try done; [apply Hs'|..]; unfold available, on_file, with_table.
    + cbn. rewrite Z.eqb_refl. by eexists.
    + pose proof (Hstored i fs0 g Hfs0 Hg0) as Hg1. rewrite (proj2 (Z.eqb_neq _ _)); [done|]. specialize (Hlt _ Hg1). lia.
  - apply (entries_added c ord (contents dir) _ v v' k (table_meta n es) es old new); try done. apply Hs'.
Qed.

Lemma at_rest_kept dir self self' w w' : at_rest dir self w -> Version.files (VersionSet.current self') = Version.files (VersionSet.current self) ->
  set_ok c ord self' -> (forall q n, named dbname q n TableFile -> keeps q w w') ->
  at_rest dir self' w' /\ version_entries (contents dir) (VersionSet.current self') = version_entries (contents dir) (VersionSet.current self).
Proof.
  intros [[] Hst Hd] Hf Hs Hk. unfold version_entries, all_stored in *. rewrite Hf. split; [|done]. split; [|by unfold all_stored; rewrite Hf|by eapply disk_kept].
  split; rewrite ?Hf; try done. apply Hs.
Qed.
Lemma write_recovered_ok dir self w es : alive c ord dbname self w [] -> mem_wf w -> at_rest dir self w ->
  (forall m, is_Some (dir m) -> m < VersionSet.next_file_number self) -> builds es -> fits c o es -> Forall entry_wf es -> es <> [] ->
  newer es (version_entries (contents dir) (VersionSet.current self)) ->
  exists dir' self' w' es', Open.write_recovered o es (self, w) = (Ret tt, (self', w')) /\ alive c ord dbname self' w' es' /\
    logged c ord self' w' es' /\ VersionSet.last_sequence self' = VersionSet.last_sequence self /\ at_rest dir' self' w' /\
    forall e, e ∈ version_entries (contents dir') (VersionSet.current self') <-> e ∈ es \/ e ∈ version_entries (contents dir) (VersionSet.current self).
Proof.
  intros Ha Hw Hr Hlt Hb Hfit Hewf Hne Hnewer. set (n := VersionSet.next_file_number self) in *. pose proof (al_ok _ _ _ _ _ _ Ha) as Hs.
  assert (Hn : is_u64 n) by apply Hs.
  destruct (run_op_ok c ord Hcname dbname OpNumber self w [] Ha I) as (self1 & w1 & es1 & E1 & Ha1 & _ & ->).
  { intros i. cbn. split; [constructor|apply disjoint_empty_l]. }
  unfold run_op, VersionSet.modify in E1. cbn [fst snd] in E1. injection E1 as Es1 <-.
  destruct (write_table_ok c ord o dbname keys_ok Hinterval n es w Hb Hw) as (w2 & ds & E2 & Hw2 & Hv2 & Hk2 & Hes & Ht).
  pose proof (fh_keys _ _ _ (range_holds ord n (as_u64 (len (image c o es))) es (bo_sorted _ _ _ _ _ Hb) Hewf Hne)) as [Hk1 Hk3].
  cbn [FileMetaData.smallest FileMetaData.largest] in Hk1, Hk3.
  pose proof (al_ok _ _ _ _ _ _ Ha1) as Hs1.
  destruct (pick_level_ok c ord (VersionSet.current self1)) with (s := lo (table_meta n es)) (l := hi (table_meta n es)) as (k & Ek & Hkm & Hmiss);
    [apply Hs1|apply Hs1|eapply Forall_impl; [apply Hs1|]; intros fs Hfs; eapply Forall_impl; [exact Hfs|]; by intros f []|].
  assert (Hkn : (k < Z.to_nat NUM_LEVELS)%nat) by (unfold MAX_MEM_COMPACT_LEVEL, NUM_LEVELS in *; lia).
  assert (Ha2 : alive c ord dbname self1 w2 []).
  { split; [done|left|apply Ha1]. destruct (al_usable _ _ _ _ _ _ Ha1) as [(Hm & _ & _)|Hl]; [done|]. by apply lg_fields, Exists_nil in Hl. }
  assert (Hc1 : VersionSet.current self1 = VersionSet.current self) by by rewrite <- Es1.
  destruct (table_logged self1 w2 k n es dir Ha2 Hb Hewf Hne Hn Hkn) as (self3 & w3 & es3 & E3 & Ha3 & Hl3 & Q3 & Hf3 & Hk4); [rewrite Hc1; apply Hr|done|].
  rewrite Hc1 in Hf3, Hmiss. pose proof (with_table_disk dir w w2 n es ds (ar_disk _ _ _ Hr) Hn Hfit) as Hd2.
  destruct (table_at_rest dir self self3 w w3 k n es ds Hr) as [Hr3 Hent]; try done; [|apply Ha3|apply Hb|].
  { apply (disk_kept _ w2); [apply Hd2; try done; [intros m Hm ->; specialize (Hlt n Hm); lia|by apply Ht]|exact Hk4]. }
  exists (with_table dir n es ds), self3, w3, es3. split_and!; [|done|done|by rewrite Q3, <- Es1|done|done].
  unfold Open.write_recovered. erewrite action_bind_ret by (unfold Open.set_number; cbn [fst snd]; reflexivity).
  change (VersionSet.new_file_number self).1 with n. change (VersionSet.new_file_number self).2 with (VersionSet.with_next (as_u64 (VersionSet.next_file_number self + 1)) self).
  rewrite Es1. erewrite action_bind_ret by reflexivity. cbn [fst id]. fold n. rewrite (so_icmp _ _ _ Hs1), (al_dbname _ _ _ _ _ _ Ha1).
  erewrite action_bind_ret by (unfold Open.on_env, VersionSet.on_env; cbn [fst snd]; rewrite E2; reflexivity).
  erewrite action_bind_ret by (unfold lift; rewrite (strip_tag_ok _ Hk1); reflexivity).
  erewrite action_bind_ret by (unfold lift; rewrite (strip_tag_ok _ Hk3); reflexivity).
  erewrite action_bind_ret by exact (f_equal (fun x => (x, (self1, w2))) Ek). exact E3.
Qed.

(** *** What a crash left *)

Context (arena : Z -> bytes) (Harena : forall n, n <= len (arena n)) (fuel : nat).

(** [self] was the version set when the database was cut short, [es] the edits of its
    manifest, the last of which recorded the counters [nx] and [sq]; [logs] are the logs
    that the manifest does not cover, oldest first. *)
Record crashed dir self es w (nx sq from : Z) (logs : list cut_log) : Prop := {
  cr_set : set_ok c ord self;
  cr_dbname : VersionSet.dbname self = dbname;
  cr_logged : logged c ord self w es;
  cr_owner : Forall (fun e => opt_ok (eq (list_byte_of_string (cmp_name c))) (VersionEdit.comparator e)) es;
  cr_counters : exists e, last es = Some e /\ VersionEdit.next_file_number e = Some nx /\ VersionEdit.last_sequence e = Some sq;
  cr_size : manifest_size self w < 2 ^ 63 /\ manifest_size self w + 8 <= Z.of_nat fuel;
  cr_rest : at_rest dir self w;
  cr_numbers m : is_Some (dir m) -> m < nx;
  cr_logs : Forall (log_on_disk fuel dbname w) logs;
  cr_listing : exists entries, list_dir (path_new dbname) w = (Ret entries, w) /\
    Open.logs_to_replay (VersionSet.log_number self) (VersionSet.prev_log_number self) entries = map cl_number logs;
  cr_from : 1 <= from;
  cr_sequence : in_sequence from (concat (map cl_groups logs));
  cr_older e : e ∈ version_entries (contents dir) (VersionSet.current self) -> esequence e < from;
}.
Definition logged_entries (gs : list (list group)) : list entry := concat (map group_entries (concat gs)).

Lemma survive_sub logs kept : Forall2 survive logs kept -> forall g, g ∈ concat kept -> g ∈ concat (map cl_groups logs).
Proof.
  induction 1 as [|l gs logs kept (k & -> & _) _ IH]; intros g; [done|]. cbn [map concat]. intros [Hg|Hg]%elem_of_app; apply elem_of_app; [left|right; by apply IH].
  rewrite <- (take_drop k (cl_groups l)). apply elem_of_app. by left.
Qed.
Lemma entries_elem gs e : e ∈ concat (map group_entries gs) <-> exists g, g ∈ gs /\ e ∈ group_entries g.
Proof.
  rewrite list_elem_of_In, in_concat. split.
  - intros (l & (g & <- & Hg%list_elem_of_In)%in_map_iff & He%list_elem_of_In). by exists g.
  - intros (g & Hg & He). exists (group_entries g). split; [by apply in_map, list_elem_of_In|by apply list_elem_of_In].
Qed.
Lemma in_sequence_bound gs : forall from g, in_sequence from gs -> g ∈ gs -> g.1 + len g.2 <= MAX_SEQUENCE_NUMBER + 1.
Proof. induction gs as [|g' gs IH]; intros from g; [by intros _ ?%elem_of_nil|]. intros (_ & Hm & Hs) [->|Hg]%elem_of_cons; [done|by eapply IH]. Qed.
Lemma last_of_u64 gs : forall max, is_u64 max -> (forall g, g ∈ gs -> g.1 + len g.2 <= MAX_SEQUENCE_NUMBER + 1) -> is_u64 (last_of max gs).
Proof.
  induction gs as [|g gs IH]; intros max Hm Hg; [done|]. apply IH; [|intros g' Hg'; apply Hg; by right]. specialize (Hg g ltac:(left)).
  unfold is_u64, MAX_SEQUENCE_NUMBER in *. lia.
Qed.

Lemma version_entries_wf con (v : Version.t C) : version_wf c ord con v -> Forall entry_wf (version_entries con v).
Proof using Type.
  intros Hwf. apply Forall_forall. intros e He. apply list_elem_of_In, in_concat in He as (l & (fs & <- & [i Hi]%list_elem_of_In%list_elem_of_lookup)%in_map_iff & He%list_elem_of_In).
  apply stored_in_elem in He as (g & Hg & He). pose proof (proj1 (Forall_lookup _ _) (wf_holds _ _ _ _ Hwf) _ _ Hi) as Hl. rewrite Forall_forall in Hl.
  pose proof (fh_wf _ _ _ (Hl g Hg)) as Hw. rewrite Forall_forall in Hw. by apply Hw.
Qed.
(** What a run of [recover_existing] leaves. *)
Record recovered dir self sq logs self' w' es' (mh : nat * mem_heap C) : Prop := {
  rc_alive : alive c ord dbname self' w' es';
  rc_mem : exists m, mh.2 !! mh.1 = Some m /\ mem_holds (c:=c) (ord:=ord) m [];
  rc_kept : exists kept dir', Forall2 survive logs kept /\ at_rest dir' self' w' /\ VersionSet.last_sequence self' = last_of sq (concat kept) /\
    forall e, e ∈ version_entries (contents dir') (VersionSet.current self') <->
      e ∈ logged_entries kept \/ e ∈ version_entries (contents dir) (VersionSet.current self);
}.
Lemma recovered_set dir self es w nx sq from logs : crashed dir self es w nx sq from logs ->
  exists vs, VersionSet.recover fuel (VersionSet.new dbname c, w) = (Ret tt, (vs, w)) /\ alive c ord dbname vs w [] /\ at_rest dir vs w /\
    version_entries (contents dir) (VersionSet.current vs) = version_entries (contents dir) (VersionSet.current self) /\
    VersionSet.next_file_number vs = nx /\ VersionSet.last_sequence vs = sq /\ Open.check_comparator c vs = Ret tt /\
    VersionSet.log_number vs = VersionSet.log_number self /\ VersionSet.prev_log_number vs = VersionSet.prev_log_number self.
Proof.
  intros Hcr. pose proof (cr_counters _ _ _ _ _ _ _ _ Hcr) as (e & Hlast & Hnx & Hsq).
  destruct (recover_full c ord self w es fuel) as (vs & E & F1 & _ & F3 & F4 & F5 & F6 & F7 & F8 & F9); [apply Hcr..|].
  rewrite (cr_dbname _ _ _ _ _ _ _ _ Hcr) in E, F8. destruct (F5 e Hlast) as [G1 G2]; [by eexists..|]. rewrite Hsq in G1. rewrite Hnx in G2. injection G1 as G1. injection G2 as G2.
  destruct (at_rest_kept dir self vs w w (cr_rest _ _ _ _ _ _ _ _ Hcr) F1 F7) as [Hr He]; [by intros q n _; split|].
  exists vs. split_and!; try done.
  - split; [done|left|done]. split_and!; [done|done|apply (cr_logged _ _ _ _ _ _ _ _ Hcr)].
  - unfold Open.check_comparator. rewrite F9.
    assert (Ho : opt_ok (eq (list_byte_of_string (cmp_name c))) (last_field (fun e => Some <$> VersionEdit.comparator e) es None)).
    { apply (last_field_inv (opt_ok (eq (list_byte_of_string (cmp_name c))))); [done|]. apply (Forall_impl _ _ _ (cr_owner _ _ _ _ _ _ _ _ Hcr)). intros e' He'. by destruct (VersionEdit.comparator e'). }
    destruct (last_field _ _ _) as [stored|]; [|done]. cbn in Ho. by rewrite bool_decide_eq_true_2.
Qed.
(** Up to the memtable: the manifest is read, the logs are replayed. *)
Lemma replay_existing dir self es w nx sq from logs r h m : crashed dir self es w nx sq from logs -> paranoid_checks o = false ->
  h !! r = Some m -> mem_holds (c:=c) (ord:=ord) m [] ->
  exists kept m1 es1 vs, Forall2 survive logs kept /\ mem_holds (c:=c) (ord:=ord) m1 es1 /\ es1 ≡ₚ logged_entries kept /\
    Open.recover_existing arena fuel c o r h (VersionSet.new dbname c, w) =
      (if bool_decide (es1 = []) then mret (r, <[r := m1]> h) else Open.write_recovered o es1;; mret (SharedMemTable.new c (<[r := m1]> h)) : action (set * MemEnv) (nat * mem_heap C)) (vs, w) /\
    alive c ord dbname vs w [] /\ at_rest dir vs w /\ VersionSet.next_file_number vs = nx /\ VersionSet.last_sequence vs = last_of sq (concat kept) /\
    version_entries (contents dir) (VersionSet.current vs) = version_entries (contents dir) (VersionSet.current self).
Proof.
  intros Hcr Hpar Hr Hm. destruct (recovered_set _ _ _ _ _ _ _ _ Hcr) as (vs & E1 & Ha & Hrest & Hent & Hnx & Hsq & Echk & Hlog & Hprev).
  pose proof Hcr as [_ _ _ _ _ _ _ Hnum Hlogs (entries & Edir & Eplan) Hfrom Hseq Hold]. pose proof (so_last _ _ _ (al_ok _ _ _ _ _ _ Ha)) as Hsq64. rewrite Hsq in Hsq64.
  destruct (replay_logs_ok c ord arena Harena fuel dbname w r logs h m [] sq from) as (kept & m1 & es1 & Hsv & E2 & Hm1 & Hp); try done; [unfold is_u64 in Hsq64; lia|by intros e ?%elem_of_nil|].
  destruct (run_op_ok c ord Hcname dbname (OpSequence (last_of sq (concat kept))) vs w [] Ha) as (vs2 & w2 & es2 & E3 & Ha1 & _ & ->).
  { apply last_of_u64; [done|]. intros g Hg. eapply in_sequence_bound; [exact Hseq|]. by apply (survive_sub logs kept Hsv). }
  { intros i. cbn. split; [constructor|apply disjoint_empty_l]. }
  unfold run_op, VersionSet.modify in E3. cbn [fst snd] in E3. injection E3 as E3 <-.
  exists kept, m1, es1, vs2. split; [done|]. split; [done|]. split; [done|]. split; [|rewrite <- E3; split_and!; [by rewrite E3|by destruct Hrest|done..]].
  assert (Ec : SharedMemTable.collect_entries (<[r := m1]> h) r = Ret es1).
  { assert (El : (<[r := m1]> h : mem_heap C) !! r = Some m1) by apply (lookup_insert_eq (M:=gmap nat)).
    unfold SharedMemTable.collect_entries, SharedMemTable.deref. rewrite El. cbn [expect mbind outcome_bind]. by rewrite (collect_ok m1 es1 Hm1). }
  unfold Open.recover_existing. rewrite (action_bind_ret _ _ _ _ _ E1). erewrite action_bind_ret by reflexivity. cbn [fst id].
  erewrite action_bind_ret by (unfold lift; rewrite Echk; reflexivity). rewrite (al_dbname _ _ _ _ _ _ Ha).
  erewrite action_bind_ret by (unfold Open.on_env, VersionSet.on_env; cbn [fst snd]; rewrite Edir; reflexivity). cbv zeta. rewrite Hlog, Hprev, Hsq, Eplan, Hpar.
  erewrite action_bind_ret by (unfold Open.on_env, VersionSet.on_env; cbn [fst snd]; rewrite E2; reflexivity). cbv beta iota.
  erewrite action_bind_ret by reflexivity. cbn [fst snd]. rewrite E3.
  erewrite action_bind_ret by (unfold lift; rewrite Ec; reflexivity). done.
Qed.
Lemma recover_existing_ok dir self es w nx sq from logs all r h m : crashed dir self es w nx sq from logs -> paranoid_checks o = false ->
  all ≡ₚ logged_entries (map cl_groups logs) -> builds all -> (forall es, es `sublist_of` all -> fits c o es) ->
  h !! r = Some m -> mem_holds (c:=c) (ord:=ord) m [] ->
  exists self' w' es' mh, Open.recover_existing arena fuel c o r h (VersionSet.new dbname c, w) = (Ret mh, (self', w')) /\
    recovered dir self sq logs self' w' es' mh.
Proof.
  intros Hcr Hpar Hall Hb Hfit Hr Hm.
  destruct (replay_existing dir self es w nx sq from logs r h m Hcr Hpar Hr Hm) as (kept & m1 & es1 & vs & Hsv & Hm1 & Hp & Erun & Ha & Hrest & Hnx & Hq & Hent).
  pose proof Hcr as [_ _ _ _ _ _ _ Hnum _ _ Hfrom Hseq Hold]. rewrite Erun. clear Erun.
  assert (Hin : forall e, e ∈ es1 -> e ∈ logged_entries (map cl_groups logs)).
  { intros e He. rewrite Hp in He. apply entries_elem in He as (g & Hg & He). apply entries_elem. exists g. split; [|done]. by apply (survive_sub logs kept Hsv). }
  destruct (decide (es1 = [])) as [Hnil|Hne].
  - rewrite bool_decide_eq_true_2 by done. exists vs, w, [], (r, <[r := m1]> h). split; [done|]. split; [done| |].
    + exists m1. split; [apply (lookup_insert_eq (M:=gmap nat))|]. by rewrite <- Hnil.
    + exists kept, dir. split_and!; [done..|]. intros e. rewrite Hent, <- Hp, Hnil. split; [by right|]. intros [He|]; [by apply elem_of_nil in He|done].
  - rewrite bool_decide_eq_false_2 by done. pose proof (in_sequence_wf _ from ltac:(lia) Hseq) as Hwf. fold (logged_entries (map cl_groups logs)) in Hwf.
    assert (Hwf1 : Forall entry_wf es1) by (rewrite Forall_forall in Hwf |- *; intros e He; by apply Hwf, Hin).
    assert (Hsub : es1 `sublist_of` all).
    { apply (sorted_within ord); [exact (holds_entries_sorted (c:=c) (ord:=ord) m1 es1 Hm1)|apply Hb|]. intros e He. rewrite Hall. by apply Hin. }
    destruct (write_recovered_ok dir vs w es1) as (dir' & self' & w' & es' & E4 & Ha' & _ & Q' & Hr' & Hent'); try done.
    + apply (cr_logged _ _ _ _ _ _ _ _ Hcr).
    + intros k Hk. rewrite Hnx. by apply Hnum.
    + by apply (builds_sublist ord o keys_ok es1 all).
    + by apply Hfit.
    + apply later_newer; [done|eapply version_entries_wf, Hrest|]. intros x y Hx%Hin Hy. rewrite Hent in Hy. specialize (Hold y Hy).
      destruct (in_sequence_elem _ from 0 Hseq ltac:(lia) x Hx). lia.
    + exists self', w', es', (SharedMemTable.new c (<[r := m1]> h)). rewrite (action_bind_ret _ _ _ _ _ E4). split; [done|]. split; [done| |].
      * exists (MemTable.new c). split; [apply (lookup_insert_eq (M:=gmap nat))|apply (mem_new_holds (c:=c) (ord:=ord))].
      * exists kept, dir'. split_and!; [done|done|by rewrite Q'|]. intros e. by rewrite Hent', Hent, Hp.
Qed.

(** *** The lock *)

Lemma crashed_same dir self es w w' nx sq from logs : crashed dir self es w nx sq from logs -> files w' = files w -> bufs w' = bufs w -> mem_wf w' ->
  crashed dir self es w' nx sq from logs.
Proof.
  intros [Hs Hdb Hl Ho Hc Hsz Hr Hn Hlogs (entries & Ed & Ep) Hf Hsq Hold] Hfs Hbs Hw. assert (Hk : forall q, keeps q w w') by (intros q; unfold keeps; by rewrite Hfs, Hbs).
  assert (Hv : forall q, view w' !! q = view w !! q) by (intros q; by apply keeps_view).
  split; try done.
  - by apply (logged_keeps c ord self w).
  - unfold manifest_size. by rewrite Hv.
  - destruct Hr as [Hwf Hst Hd]. split; [done|done|]. apply (disk_kept dir w); [done|]. intros q n _. apply Hk.
  - eapply Forall_impl; [exact Hlogs|]. intros l (H1 & H2). split; [by rewrite Hv|done].
  - exists entries. split; [|done]. cbn [list_dir MemEnv_Env] in Ed |- *. unfold Mem.list_dir in Ed |- *. rewrite Hfs. by injection Ed as ->.
Qed.
Lemma relock_ok (p : path) w : mem_wf w -> is_Some (view w !! p) -> p ∉ locks w ->
  exists w', Mem.lock_file p w = (Ret (Mem.mk_lock p), w') /\ mem_wf w' /\ files w' = files w /\ bufs w' = bufs w.
Proof.
  intros Hw Hp Hno. unfold Mem.lock_file. rewrite decide_False by done. cbv zeta. rewrite view_lookup in Hp. cbn [files].
  destruct (files w !! p) as [b|] eqn:Ep; [|by destruct Hp]. eexists. split; [reflexivity|]. split; [by destruct Hw|done].
Qed.
Lemma current_exists dir self es w nx sq from logs : crashed dir self es w nx sq from logs -> file_exists (path_new (current_file_name dbname)) w = true.
Proof.
  intros Hcr. pose proof (lg_current _ _ _ _ _ (cr_logged _ _ _ _ _ _ _ _ Hcr)) as Hc. rewrite (cr_dbname _ _ _ _ _ _ _ _ Hcr) in Hc.
  cbn [file_exists MemEnv_Env]. unfold Mem.file_exists. apply bool_decide_eq_true. unfold current_path in Hc. rewrite view_lookup in Hc.
  destruct (files w !! path_new (current_file_name dbname)); [by eexists|done].
Qed.

(** The manifest, the logs and the new log. *)
Lemma recover_or_create_ok dir self es w nx sq from logs all : crashed dir self es w nx sq from logs -> paranoid_checks o = false ->
  all ≡ₚ logged_entries (map cl_groups logs) -> builds all -> (forall es, es `sublist_of` all -> fits c o es) ->
  exists mh n h vs w' es', Open.run_set dbname c (Open.recover_or_create arena fuel c o true) w = (Ret (mh.1, mh.2, (n, h), vs), w') /\ is_u64 n /\
    logged c ord vs w' es' /\ recovered dir self sq logs vs w' es' mh /\ view w' !! path_new (log_file_name dbname n) = Some [] /\ mem_wf w'.
Proof.
  intros Hcr Hpar Hall Hb Hfit. destruct (SharedMemTable.new c ∅) as [r h0] eqn:Enew. unfold SharedMemTable.new in Enew. injection Enew as Er Eh.
  destruct (recover_existing_ok dir self es w nx sq from logs all r h0 (MemTable.new c)) as (vs1 & w1 & es1 & mh & E1 & [Ha1 Hm1 (kept & dir' & Hsv & Hr1 & Hq1 & Hent)]); try done.
  { rewrite <- Eh, <- Er. apply (lookup_insert_eq (M:=gmap nat)). }
  { apply (mem_new_holds (c:=c) (ord:=ord)). }
  destruct (start_log_ok c ord Hcname dbname vs1 w1 es1 Ha1) as (h & vs & w2 & es2 & E2 & Ha2 & Hl2 & _ & Hlog & _ & Hq2 & Hf2 & Hk2).
  destruct (at_rest_kept dir' vs1 vs w1 w2 Hr1 Hf2 (al_ok _ _ _ _ _ _ Ha2) Hk2) as [Hr2 He2].
  exists mh, (VersionSet.next_file_number vs1), h, vs, w2, es2. split_and!; [|apply Ha1|done| |done|apply Hl2].
  - unfold Open.run_set, Open.recover_or_create, SharedMemTable.new. rewrite Er. rewrite Er in Eh. rewrite Eh.
    rewrite (action_bind_ret _ _ _ _ _ E1). destruct mh as [m' h']. cbv beta iota. by rewrite (action_bind_ret _ _ _ _ _ E2).
  - split; [done|done|]. exists kept, dir'. split_and!; [done|done|by rewrite Hq2|]. intros e. by rewrite He2.
Qed.
End written.

(** ** Sample: a new database cut off inside its second write group *)

Definition lock_world : MemEnv := Mem.alloc Mem.new (path_new (lock_file_name "db")) [].
Definition crash_start := Open.start_log (W:=MemEnv) Bytewise (VersionSet.new "db" Bytewise, lock_world).
Definition crash_set := crash_start.2.1.
Definition crash_log : cut_log := mk_log 2 50 torn_groups.
Definition crash_world : MemEnv :=
  let w := crash_start.2.2 in Mem.set_buf w (default 0%nat (files w !! path_new (log_file_name "db" 2))) (cut_data crash_log).
Definition crash_table : list entry := isort (fun a b => ik_ord bytes_cmp a.1 b.1) (logged_entries [torn_groups]).
Definition crash_edits : list VersionEdit.t :=
  let start n := VersionSet.with_next n (VersionSet.new (W:=MemEnv) "db" Bytewise) in
  [VersionSet.snapshot_edit (start 4); VersionSet.stash_edit (start 3)
    (VersionEdit.mk (Some (list_byte_of_string (cmp_name Bytewise))) (Some 2) None None None [] [] [])].


Lemma crash_start_ok : set_ok Bytewise bytes_cmp crash_set /\ mem_wf crash_world.
Proof.
  assert (Hw : mem_wf lock_world) by apply alloc_wf, new_wf. assert (Hn : is_u32 (len (list_byte_of_string (cmp_name Bytewise)))) by (unfold is_u32; by vm_compute).
  pose proof (start_log_ok Bytewise bytes_cmp Hn "db" _ lock_world [] (new_alive Bytewise bytes_cmp "db" lock_world Hw)) as (h & vs & w & es & E & Ha & Hl & _).
  apply (f_equal snd) in E. cbn [snd] in E. unfold crash_set, crash_world, crash_start. cbv zeta. rewrite E. split; [apply Ha|apply set_buf_wf, Hl].
Qed.
Lemma crash_edits_fit : Forall edit_fit crash_edits.
Proof. repeat constructor; by vm_compute. Qed.
Lemma crash_logged : mem_wf crash_world -> logged Bytewise bytes_cmp crash_set crash_world crash_edits.
Proof.
  intros Hw. split.
  - split; [done|by vm_compute|]. eexists _, _. split_and!; [by vm_compute|by vm_compute|by vm_compute|by vm_compute|by vm_compute|by vm_compute|by vm_compute].
  - by vm_compute.
  - exact crash_edits_fit.
  - eexists. split_and!; [by vm_compute|by split|..].
    + intros i. do 7 (destruct i as [|i]; [by vm_compute|]). by vm_compute.
    + intros i. do 7 (destruct i as [|i]; [by vm_compute|]). by vm_compute.
    + intros i Hi. do 7 (destruct i as [|i]; [by vm_compute|]). change (Z.to_nat NUM_LEVELS) with 7%nat in Hi. lia.
  - by vm_compute.
  - by vm_compute.
  - by vm_compute.
  - apply Exists_cons_hd. split; by eexists.
  - by vm_compute.
Qed.

(** Whether a table of these entries fits. *)
Definition fitsb (es : list entry) : bool :=
  match (image_run Bytewise sample_options es).1 with
  | Ret b => (len (image Bytewise sample_options es) <? 2 ^ 63) && (len (filter_bytes b) <? 2 ^ 32)
  | _ => false
  end.
Lemma fitsb_sound es : fitsb es = true -> fits Bytewise sample_options es.
Proof.
  unfold fitsb, fits. destruct (image_run _ _ es).1 as [b|e|]; [|done..]. intros [H1%Z.ltb_lt H2%Z.ltb_lt]%andb_true_iff. by exists b.
Qed.
(** The parts of a list. *)
Fixpoint parts {A} (l : list A) : list (list A) := match l with [] => [[]] | x :: l => parts l ++ map (cons x) (parts l) end.
Lemma parts_spec {A} (l a : list A) : a `sublist_of` l -> a ∈ parts l.
Proof.
  induction 1 as [|x a l _ IH|x a l _ IH]; cbn [parts]; [by left|apply elem_of_app; right|apply elem_of_app; by left].
  apply list_elem_of_fmap. by exists a.
Qed.
Lemma crash_table_fits es : es `sublist_of` crash_table -> fits Bytewise sample_options es.
Proof.
  intros Hs%parts_spec. apply fitsb_sound. revert Hs. assert (Hall : forallb fitsb (parts crash_table) = true) by by vm_compute.
  rewrite forallb_forall in Hall. intros Hs%list_elem_of_In. by apply Hall.
Qed.
Lemma crash_table_ok : TableBuilderCorrect.build_ok ik_ok (ik_ord bytes_cmp) sample_keys_ok (Some sample_policy) crash_table.
Proof.
  split.
  - apply (Forall_impl entry_wf); [apply sample_entries_wf; by vm_compute|]. by intros e [He _].
  - apply sortedb_sound; [apply _|]. by vm_compute.
  - by vm_compute.
  - apply TableCorrect.sample_ok.
  - intros ks Hks. apply (bo_filter _ _ _ _ _ TableCorrect.sample_ok). change (len sample_table) with 6. change (len crash_table) with 3 in Hks. lia.
  - apply TableCorrect.sample_ok.
Qed.
Lemma crash_is_crashed : crashed (P:=BloomFilterPolicy) Bytewise bytes_cmp sample_options "db" 400 (fun _ => None) crash_set crash_edits crash_world 3 0 1 [crash_log].
Proof.
  destruct crash_start_ok as [Hs Hw].
  destruct (empty_version_wf (P:=BloomFilterPolicy) Bytewise bytes_cmp (VersionSet.current crash_set)) as (Hwf & Hnil & Hst); [by vm_compute..|]. split.
  - exact Hs.
  - by vm_compute.
  - by apply crash_logged.
  - repeat constructor; by vm_compute.
  - eexists. split_and!; by vm_compute.
  - split; by vm_compute.
  - split; [exact Hwf|exact Hst|by intros m f].
  - by intros m [? [=]].
  - constructor; [|constructor]. split_and!; [by vm_compute..|]. repeat constructor; by vm_compute.
  - eexists. split; [reflexivity|]. by vm_compute.
  - done.
  - repeat split; by vm_compute.
  - rewrite Hnil. intros e He. destruct (proj1 (elem_of_nil e) He).
Qed.

(** ** Claims *)

(** C2: (DB::open after a crash) A database in the in-memory environment was cut short:
    its manifest is whole, its table files are as the manifest says, and of each log that
    the manifest does not cover only some first bytes are left.  Opening the directory
    succeeds, and the database returned holds exactly the entries of its tables and, of
    every log, the entries of the write groups that lie whole in what is left of it:
    nothing that was on disk is lost, no half-written group appears, and reads and
    iterators go on from a proper view of them. *)
Theorem open_recovers {C P Co K} `{Comparator C} `{FilterPolicy P} `{Compressor Co} `{Cache K Block} {cache_ok : K -> Prop}
    {cached : K -> bytes -> Block -> Prop} {next : K -> Z}
    `{!CacheLaws cache_ok cached, !CacheIdLaws cache_ok cached, !CacheFreshLaws next}
    (c : C) ord `{!ComparatorLaws c (fun _ => True) ord} `{!ShortHints (mk_icmp c)} (keys_ok : list bytes -> Prop)
    arena (new_cache : Z -> K) fuel dbname (o : Options P Co K) w b dir self es nx sq from logs all :
  let k := default (new_cache (block_cache_size o)) (block_cache o) in
  let lock := path_new (lock_file_name dbname) in
  is_u32 (len (list_byte_of_string (cmp_name c))) -> 1 <= block_restart_interval o -> (forall n, n <= len (arena n)) ->
  crashed c ord o dbname fuel dir self es w nx sq from logs -> is_Some (view w !! lock) -> lock ∉ locks w ->
  error_if_exists o = false -> paranoid_checks o = false ->
  all ≡ₚ logged_entries (map cl_groups logs) -> TableBuilderCorrect.build_ok ik_ok (ik_ord ord) keys_ok (filter_policy o) all ->
  (forall es, es `sublist_of` all -> fits c o es) ->
  cache_ok k -> (forall key v, ~ cached k key v) -> 0 <= next k -> next k + Z.of_nat b < 2 ^ 64 ->
  exists db w' kept dir', Open.open (W:=MemEnv) arena new_cache fuel dbname c o w = (Ret (db, k), w') /\ Forall2 survive logs kept /\
    db_view (E:=MemEnv_Env) (file_at:=fun w p => view w !! p) (cache_ok:=cache_ok) (cached:=cached) (next:=next)
      c ord (compressor o) (filter_policy o) dbname dir' b (db, (w', k)) [] [] /\
    (forall e, e ∈ db_entries dir' (db, (w', k)) [] [] <-> e ∈ logged_entries kept \/ e ∈ version_entries (contents dir) (VersionSet.current self)) /\
    Core.last_sequence db = last_of sq (concat kept) /\
    view w' !! path_new (log_file_name dbname (DBImplCore.log_file_number db)) = Some [].
Proof.
  intros k lock Hcname Hint Harena Hcr Hlocked Hfree Herr Hpar Hall Hb Hfit Hck Hno Hnext Hbk.
  destruct (relock_ok lock w (im_wf _ _ _ (lg_in _ _ _ _ _ (cr_logged _ _ _ _ _ _ _ _ _ _ _ _ _ Hcr))) Hlocked Hfree) as (w1 & E1 & Hw1 & Hf1 & Hb1).
  pose proof (crashed_same c ord o dbname fuel dir self es w w1 nx sq from logs Hcr Hf1 Hb1 Hw1) as Hcr1.
  destruct (recover_or_create_ok c ord Hcname o Hint keys_ok dbname arena Harena fuel dir self es w1 nx sq from logs all Hcr1 Hpar Hall Hb Hfit)
    as (mh & n & h & vs & w2 & es2 & E2 & Hn & Hl2 & [Ha (m & Hm & Hh) (kept & dir' & Hsv & Hr & Hq & Hent)] & Hlog & Hw2).
  set (db := Open.new_db (W:=MemEnv) (E:=MemEnv_Env) (P:=P) (Co:=Co) (K:=K) dbname c o (Mem.mk_lock lock) vs mh.1 mh.2 n h).
  destruct (clean_up_ok db w2 k Hw2) as (w3 & E3 & Hw3 & Hk3).
  assert (Hd3 : on_disk (W:=MemEnv) (file_at:=fun w p => view w !! p) c ord (compressor o) (filter_policy o) dbname dir' w3).
  { apply (disk_kept c ord o dbname dir' w2); [apply Hr|]. intros q i Hqi. apply Hk3. by exists i, TableFile. }
  exists db, w3, kept, dir'. split_and!; [|done| |exact Hent|exact Hq|].
  - unfold Open.open, Open.core_open. erewrite action_bind_ret by reflexivity. rewrite (action_bind_ret _ _ _ _ _ E1).
    unfold Open.holding, Open.open_locked. rewrite (current_exists c ord o dbname fuel dir self es w1 nx sq from logs Hcr1).
    unfold Open.check_existence. rewrite Herr. cbn [andb negb]. rewrite E2. fold k. fold db. by rewrite E3.
  - destruct Hr as [Hwf Hst _]. split.
    + split; [constructor|]. by exists m.
    + done.
    + exact Hwf.
    + exact Hst.
    + apply (new_tc_inv (W:=MemEnv) (file_at:=fun w p => view w !! p)); done.
    + intros x y Hx. destruct (proj1 (elem_of_nil x) Hx).
    + intros x y Hx. destruct (proj1 (elem_of_nil x) Hx).
  - rewrite (keeps_view _ w2 w3); [exact Hlog|]. apply Hk3. exists n, LogFile. split; [by apply log_named|done].
Qed.

Lemma open_recovers_witness :
  exists db w' kept dir', Open.open (W:=MemEnv) (C:=BytewiseComparator) (K:=ShardedLRUCache.t Block) zeroed (ShardedLRUCache.new (V:=Block)) 400 "db" Bytewise sample_options crash_world
      = (Ret (db, ShardedLRUCache.new (V:=Block) DEFAULT_BLOCK_CACHE_SIZE), w') /\
    db_view (E:=MemEnv_Env) (file_at:=fun w p => view w !! p) (cache_ok:=sharded_ok) (cached:=sharded_cached) (next:=ShardedLRUCache.next_id)
      Bytewise bytes_cmp (Some reverser) (Some sample_policy) "db" dir' 9 (db, (w', ShardedLRUCache.new (V:=Block) DEFAULT_BLOCK_CACHE_SIZE)) [] [] /\
    (forall e, e ∈ db_entries dir' (db, (w', ShardedLRUCache.new (V:=Block) DEFAULT_BLOCK_CACHE_SIZE)) [] [] <-> e ∈ logged_entries kept) /\
    Forall2 survive [crash_log] kept /\ Core.last_sequence db = last_of 0 (concat kept).
Proof.
  destruct (open_recovers (cache_ok:=sharded_ok) (cached:=sharded_cached) (next:=ShardedLRUCache.next_id) Bytewise bytes_cmp sample_keys_ok
    zeroed (ShardedLRUCache.new (V:=Block)) 400 "db" sample_options crash_world 9 (fun _ => None) crash_set crash_edits 3 0 1 [crash_log] crash_table)
    as (db & w' & kept & dir' & E & Hsv & Hv & He & Hs & _).
  - unfold is_u32. by vm_compute.
  - by vm_compute.
  - exact zeroed_long.
  - exact crash_is_crashed.
  - vm_compute. by eexists.
  - by vm_compute.
  - done.
  - done.
  - apply isort_perm.
  - exact crash_table_ok.
  - exact crash_table_fits.
  - apply sharded_new_ok.
  - apply sharded_new_empty.
  - by vm_compute.
  - by vm_compute.
  - exists db, w', kept, dir'. split; [exact E|]. split; [exact Hv|]. split; [|split; [exact Hsv|exact Hs]].
    intros e. split; [|intros H; apply He; left; exact H]. intros [H|H]%He; [exact H|].
    assert (version_entries (contents (P:=BloomFilterPolicy) (fun _ => None)) (VersionSet.current crash_set) = []) as Hnil by by vm_compute.
    rewrite Hnil in H. destruct (proj1 (elem_of_nil e) H).
Defined.
